(* ===== verification/_CoqProject ===== *)
-Q . S2P
Prelude.v
GoStrings.v
Filter.v
Config.v
StorageResolver.v
SRS.v
Routing.v
GoNet.v
StateM.v
GoOS.v
Lines.v
MaildirFlags.v
Maildir.v
MaildirUID.v
MaildirProps.v
RateLimit.v
Governor.v
Base64.v
Auth.v
Pace.v
Egress.v
Queue.v
NetSmtp.v
Scheduler.v
QueueProps.v
QueueLive.v
Quota.v
Reputation.v
Stats.v
Container.v
Blacklist.v
MailAuth.v
Bayes.v
Antispam.v
Clamav.v
CertStore.v
Smtp.v
SmtpProps.v
SmtpFlow.v
GoValues.v
Settings.v
ConfigLoad.v
ConfigProps.v
Daemon.v
DaemonProps.v
Pop3.v
Pop3Props.v
Pop3Quit.v
GoTime.v
ImapParse.v
ImapMime.v
ImapMimeProps.v
ImapFetch.v
ImapFetchProps.v
Imap.v
ImapProps.v
ImapSafe.v
ImapRuns.v
Supervisor.v
SupervisorProps.v
Api.v
Checks.v
ConfigAudit.v
Dkim.v
Probe.v
SecurityCheck.v
ContainerCheck.v
Host.v
Bootstrap.v
Proc.v
Status.v
Logging.v
Cli.v
Listen.v
Shutdown.v
Learned.v
Transact.v
Relay.v
