(* ===== verification/Prelude.v ===== *)
(** * verta: a verified model of the mail server

    verta is one daemon: an SMTP server for incoming mail and for submission,
    an IMAP and a POP3 server over Maildir folders, and a queue that relays
    outgoing mail, with the commands to install, check and control it.  This
    library translates the Go code under [src/internal] and [src/cmd/verta]
    into Gallina, operation by operation and under the names of the source, and
    proves what the parts promise each other, their clients and the
    administrator.

    ** The program and its model

    [Supervisor] starts the daemon: it builds the components from the
    configuration ([Settings], [ConfigLoad]), binds a server to every listener
    ([Listen]) and follows certificates ([CertStore]), signals and the HTTP API
    ([Api]); [Shutdown] ends it.  A message enters through [Smtp] (port 25 or
    submission).  The session asks [Routing] what a recipient stands for, which
    reads the configuration ([Config], [StorageResolver]), undoes rewritten
    senders ([SRS]) and runs the owner's rules ([Filter]); limits come from
    [Governor] over [RateLimit], credentials are checked by [Auth].  Local
    copies are delivered by [Maildir]; remote ones go to [Queue], whose
    [Scheduler] retries them under [Pace] from an address that [Egress]
    selects, and bounces them in the end.  [Pop3] and [Imap] serve the folders,
    both through [Maildir].  [Daemon] is the back end that ties them together:
    it screens what comes in with [MailAuth], [Blacklist], [Antispam], [Bayes]
    and [Clamav], keeps mailboxes within their [Quota] and senders to their
    [Reputation].  [Cli] is the command line, over [Bootstrap], [Proc],
    [Status], [Dkim] and the checks.

    Foundations
    - [Prelude] (this file): byte strings, results, machine integers, lists,
      the sorting of Go's [sort] package, tactics and hint databases.
    - [GoStrings] ([strings], [bytes], [strconv]), [GoTime] ([time]: calendar,
      two date layouts), [Base64] ([encoding/base64]), [GoValues] (durations and
      addresses of the configuration): the parts of the standard library in
      use, executable, with the lemmas about them.
    - [GoNet] ([bufio], [net/textproto]): a connection delivers segments; the
      lemmas show that lines and dot-encoded bodies do not depend on the cuts.
    - [GoOS] ([os], [path/filepath]): a world of files, directories, clock
      and randomness, in which every call may fail as a schedule says; programs
      are written in a state and error monad with frame and [wp] rules.
    - [Host]: the same world with permission bits and a terminal, for the
      commands of the administrator, with rules of its own ([turns], [gives]).
    - [StateM]: the state monad of the protocol handlers with [keeps], the
      preservation of a preorder through a handler, and its automation.

    Components, each with the files it models
    - [Filter]: filter/filter.go.  [Config]: config/config.go, forwarding.go,
      quota.go, the records and methods that the core reads.
      [StorageResolver]: storage/resolver.go.  [SRS]: srs/srs.go.
      [Routing]: routing/routing.go.
    - [MaildirFlags]: maildir/flags.go.  [Maildir]: maildir/maildir.go and
      mailbox.go.  [MaildirUID] and [MaildirProps] hold their theorems.
    - [RateLimit], [Governor]: ratelimit/ratelimit.go and governor.go.
      [Pace]: pace/pace.go.  [Egress]: egress/egress.go and the selector of
      cmd/verta/main.go.  [Auth]: auth/guard.go, password.go, auth.go.
      [Stats]: stats/stats.go.  [Container]: container/container.go.
    - [Quota]: quota/quota.go and config/quota.go.  [Reputation]:
      reputation/reputation.go.  [Blacklist]: blacklist/blacklist.go.
      [MailAuth]: mailauth/mailauth.go.  [Bayes] and [Antispam]:
      antispam/bayes.go, rules.go and engine.go.  [Clamav]:
      antivirus/clamav.go.  [Lines]: the line scanner of [bufio] and the text
      files that [Bayes] and [Maildir] share.
    - [Queue]: queue/queue.go and transport.go.  [Scheduler]:
      queue/scheduler.go and bounce.go.  [QueueProps] and [QueueLive] hold
      their theorems.  [Transact]: the transaction of [trySend] call by call,
      over [NetSmtp], the client of [net/smtp]; [Relay] puts it together with
      [Smtp] and [Daemon] at the other end.
    - [Smtp]: smtp/session.go and server.go.  [SmtpProps] and [SmtpFlow] hold
      the theorems: the first about authority, the second about the exchange.
    - [Pop3]: pop3/pop3.go; theorems in [Pop3Props] and [Pop3Quit].
    - [ImapParse]: imap/parse.go.  [ImapMime]: imap/mime.go.  [ImapFetch]:
      imap/fetch.go and the pattern matcher of session.go.  [Imap]:
      imap/session.go, the commands of fetch.go and quota.go.  Theorems in
      [ImapParse], [ImapMimeProps], [ImapFetchProps], [ImapProps], [ImapSafe];
      concrete sessions in [ImapRuns].
    - [Listen]: the [Server] of smtp/server.go, imap/server.go and
      pop3/pop3.go, whose goroutines are the actions of one machine.
    - [Settings]: the records of config/config.go with defaults and validation,
      paths/paths.go.  [ConfigLoad]: config/domains.go, manager.go,
      ratelimit.go, throttle.go and the loading in config.go.  [ConfigProps]
      holds their theorems.
    - [CertStore]: tls/store.go.  [Api]: api/api.go.
    - [Daemon]: the hooks of cmd/verta/main.go over the components;
      [DaemonProps]: what the whole guarantees.  [Supervisor] and
      [SupervisorProps]: what [runDaemon] builds, its listeners and its loop.
      [Shutdown]: the end of [runDaemon].  [Learned]: its [saveState] and the
      opening of corpus and scores.
    - [Checks], [ConfigAudit], [Probe] with [SecurityCheck], [ContainerCheck]:
      checks/checks.go, audit.go, security.go, container.go.  [Dkim]:
      dkim/dkim.go.
    - [Bootstrap]: bootstrap/bootstrap.go and service_unix.go.  [Proc]:
      proc/proc.go and proc_unix.go.  [Status]: status/status.go.  [Logging]:
      logging/logging.go.  [Cli]: the command line of cmd/verta/main.go and
      what it takes of auth/password.go.

    A Go struct is a record, an interface of the caller a record of functions
    or a section variable, a method a function that returns the changed
    receiver.  A protocol session is a function on its whole state: the fields
    of the session, the connection (unread segments, buffered bytes, output) and
    what the server shares.  Pointers that the code aliases (a [*Message] of an
    open mailbox, [s.msgs] of a POP3 session) are indices into the one snapshot
    that owns them, so that a change through one is seen through the other.
    Where goroutines meet ([Listen], [Supervisor], [QueueLive], [Logging], the
    calls of [Auth]) the model is a machine whose steps come in any order.

    ** What the theorems show

    What a theorem needs of the disk, the network or the clock is in its
    hypotheses and in the comment above it; the lines below only say what it is
    about.

    - Authority.  An inbound listener relays nothing for anybody
      ([inbound_never_relays]) and so passes the program's own probe
      ([own_server_passes]); what a submission session relays has an
      authenticated user as sender ([submission_sender_authenticated]); sessions
      of all three protocols are authenticated only under TLS and keep their
      state consistent ([session_invariant], [imap_session_invariant],
      [login_needs_tls]); STARTTLS forgets the plaintext phase
      ([starttls_fresh]); guessing is bounded by the number of failures that
      lock and the number of calls made at the same time
      ([Verify_bounds_guesses], [Verify_outcome]); without a key the API tells
      nothing but that the daemon is alive ([no_key_no_answer]).
    - The daemon as a whole.  What loads is a sound configuration
      ([Load_sound]), a broken domain costs nobody else anything
      ([broken_domain_isolated]), and in any history of reloads the daemon runs
      on a sound one ([supervisor_invariant], [listeners_safe],
      [reloads_keep_last_good]); what a reload reaches and what it does not
      ([events_in_force], [what_a_reload_reaches]).  On a disk that works a
      message for a mailbox here is answered 250 exactly when it is stored
      ([mail_stored]), and what the quota hook lets in stays within the limits on
      the real files while the cached usage covers them ([quota_enforced]); mail with a virus is refused and leaves no trace
      ([virus_refused]).  A client gets the certificate of the domain it asked
      for ([GetCertificate_owner]).
    - Connections.  A server is a room with as many places as workers, however
      its goroutines interleave ([server_refines]); it stops accepting and comes
      to its end ([Serve_returns], [Shutdown_drains]), and so does the daemon,
      in thirty seconds for each server and the time that saving its state,
      closing the API and counting the queue take ([terminates_in_time]).
    - No mail is lost.  A delivery that the sending daemon takes for a success
      is on the disk of the receiving one, if that disk works; the two run
      against each other ([relayed_mail_stored]).  A delivery adds one file or
      none, complete unless its write was disturbed ([deliver_atomic],
      [deliver_stores], [short_write_delivered]); a file that is replaced by
      renaming is the old one or the new one ([wp_replace_file],
      [write_atomic], [Save_atomic]); the scheduler
      drops an envelope only when it was delivered or bounced and within a
      bounded number of attempts ([Process_no_loss], [Process_bounded],
      [Enqueue_Due]), and without pacing every envelope leaves in the end
      ([envelope_leaves]); a client is told that the screening rejected its
      message, or 250 exactly when somebody got it ([data_verdict]); what is sent is stored and what is stored is retrieved
      ([data_roundtrip], [retr_roundtrip]); the scanner gets the whole message
      ([Scan_sound]).  "Whatever fails" means for every fault schedule.
    - Mailboxes.  The UID contract of IMAP ([refresh_uid_contract],
      [refresh_stable]), flags and file names ([filename_roundtrip],
      [SetFlags_renames]), expunging and what clients are told of it
      ([Expunge_removes], [expunge_replay], [quit_removes],
      [until_quit_nothing_removed]), what COPY, a MOVE that stops and a session
      opened with EXAMINE leave alone ([copy_move_safe], [examine_readonly]).
    - Syntax.  Tokens, sequence sets, patterns, MIME structure, sections,
      partial fetches and dates of IMAP ([next_terminates], [seqset_spec],
      [wildcard_spec], [structure_reads], [resolveSection_spec],
      [partial_fetch], [internaldate_roundtrip]); rewritten senders
      ([srs_roundtrip]).
    - Policies.  The plan of a recipient is sound ([routing_plan_sound]),
      filters compute their decision ([Apply_spec]), limits and pacing admit
      what burst and rate allow ([limiter_bound], [pace_bound]), DMARC decides
      as its policy says ([Check_action]), the warm-up schedule holds in any 24
      hours ([warmup_cap]), scores stay in their range ([scores_in_range],
      [Check_score_range]), the classifier computes its quotient ([Score_log])
      and what it and the reputation have learned survives a restart
      ([learned_persists], [Save_Open]): a crash costs what came after the last
      tick that worked ([crash_costs]).
    - Administration.  Installing and removing touch what they should, whatever
      fails ([Init_safe], [Purge_safe]); a fresh installation is complete and
      passes the audit ([Init_provisions]), whose exit code means what it should
      ([audit_clean], [container_clean], [report_complete]); keys are not
      overwritten and their records are found again ([Generate_keeps],
      [Generate_TXTRecord], [generate_dkim_again], [published_key_passes]); the
      status tells the truth ([status_truthful]), the log loses nothing
      ([log_complete]); the service verbs find the daemon and a restart waits
      for it ([pidfile_roundtrip], [restart_waits]); commands and hashes are
      what they should be ([commands_handled], [hash_password_verifies]).
    - Termination: an SMTP session makes no turn without octets of its client,
      so that it ends with its input ([run_terminates]); the bounds below are
      enough.

    Next to them stand examples of inputs on which the code does not do what a
    comment or a protocol says, such as [short_write_delivered],
    [pass_keeps_deletions], [uid_expunge_ignores_set] or [restart_gives_up].

    ** Fuel

    Loops whose end depends on the input carry a counter.  Where a function is
    total in the code its counter is computed from the input and shown or seen
    to be enough: [ImapParse.next] has two steps per byte and two more
    ([next_terminates]); [ImapParse.all] one per byte and one more, since a
    token takes a byte; the readers of [GoNet], [Probe] and [NetSmtp] one per
    unread byte and segment; [dec] and [hex] one per binary digit; [replace_all] and
    the encoders one per byte; [buildPart] one per byte of the body, since a
    part is shorter than what contains it; the chunks of [Clamav] one per byte;
    [matches] one per token; SASL and literal loops one per unread byte.
    [idle_loop] runs over the events of the idle phase.  [run] of the servers
    takes the number of commands to serve; [run_terminates] gives the number for
    SMTP, one more than the octets that the client sends, and the five commands of a delivery need five turns
    ([relayed_mail_stored]).  [Proc.await] takes the number of looks at the pidfile; a wait of
    thirty seconds with pauses of 50 ms needs 602 ([StopAndWait_ends]).
    Forwarding is bounded by [maxDepth], as in the code.

    ** Abstractions

    - Text folding and white space are ASCII; other bytes are left alone.
    - [float64] is exact: rationals.  Instants are integers of nanoseconds.
      [uint32] values and durations wrap where the code lets them.
    - Go's order of iteration over a map is an argument where it matters.
    - A handler of a session runs to its end before another process acts;
      between commands, and between the ticks of IDLE, anything may happen to
      the disk.  Locks guard single operations of the shared components, which
      are atomic here, as are the steps of [Listen].  No lock is held during
      [Auth.Verify]: as a hook of a session it is one operation ([Verify_alone]),
      while the bound on guesses is for its calls as threads, whose critical
      sections come in any order.
    - Log lines, ownership of files and deadlines are left out.  Output that
      IMAP and POP3 buffer is recorded as one entry per write.  An error text
      that IMAP passes on to the client is the one of the error where the code
      builds it, and a fixed word where it is the system's.
    - The hooks of [Daemon] read one configuration at a time; the classifier it
      scores with is fixed while a message is received.
    - In [Relay] the two ends write to a connection that takes everything; that
      the bytes each end reads are those the other has sent is a hypothesis
      about a finished run.  STARTTLS is modelled in the client, and the
      theorem is for a receiver that does not offer it.
    - The paths of [Api] carry no percent escapes, and the page of a redirection
      is left out.  [Shutdown] takes the time that saving the state, closing
      the API and counting the queue need as an argument.
    - A server of [Supervisor] runs from its binding on; that [Serve] may end
      with an error is a matter of [Listen].
    - Parameters, with what is relied on as hypotheses of the theorems: password
      hashes, HMAC and MD5, RSA keys with PEM and PKIX, the JSON encoding of
      envelopes and reports (classes [EnvelopeCodec], [ReportCodec] with their
      laws), the YAML decoder ([YamlCodec]), the parsers of [net/mail], [mime]
      and [mime/multipart], [net.ParseIP], DNS and remote servers, SPF, DKIM
      and DMARC verification, the public suffix list, the virus scanner, key
      pairs and the TLS handshake, the account database, the zone of the server,
      systemctl, signals and the table of processes, the umask, entropy, the
      files embedded in the binary.

    ** Not modelled

    - The goroutines and sockets below [Listen]: the TLS layer of a listener,
      the HTTP server under [Api], the deadlines of the status socket.
    - What third-party and library code does inside: YAML, cryptography, DNS,
      SPF, DKIM and DMARC evaluation, flag parsing, the format of log records.
    - The variants for Windows (bootstrap/service_windows.go and
      proc/proc_windows.go), where there are no services and no signals; usage
      texts.
 *)

From Stdlib Require Export Ascii String List ZArith NArith Lia Bool.
From Stdlib Require Export Sorting.Permutation Sorting.Sorted.
From stdpp Require Export base tactics decidable list gmap strings option sorting.
Export ListNotations.

#[global] Open Scope Z_scope.
#[global] Open Scope list_scope.

(** ** Go byte strings *)

(** A Go [string] or [[]byte] is a finite sequence of bytes. *)
Abbreviation str := (list ascii).

(** A string literal of the source: [ #"INBOX"]. *)
Definition lit (s : string) : str := list_ascii_of_string s.

Declare Scope go_scope.
Delimit Scope go_scope with go.
Notation "# s" := (lit s%string) (at level 1, s at level 0, format "# s") : go_scope.
#[global] Open Scope go_scope.

(** ** Results: the (value, error) pairs of Go *)

Inductive result (E A : Type) : Type :=
| Ok (a : A)
| Err (e : E).
Arguments Ok {E A} a.
Arguments Err {E A} e.

Definition is_ok {E A} (r : result E A) : bool :=
  match r with Ok _ => true | Err _ => false end.

Lemma is_ok_spec {E A} (r : result E A) : is_ok r = true <-> exists a, r = Ok a.
Proof. destruct r; simpl; split; [eauto|done|done|by intros [? [=]]]. Qed.

(** ** Automation *)

Create HintDb verta.
Create Rewrite HintDb gostr.

(** Splits every [if]/[match] scrutinee of the goal or of a hypothesis. *)
Ltac break_match :=
  match goal with
  | |- context [match ?x with _ => _ end] => destruct x eqn:?
  end.

Ltac break_match_in H :=
  match type of H with
  | context [match ?x with _ => _ end] => destruct x eqn:?
  end.

(** Turns boolean tests into propositions. *)
Ltac to_prop :=
  repeat match goal with
  | H : _ && _ = true |- _ => apply andb_true_iff in H; destruct H
  | H : _ || _ = false |- _ => apply orb_false_iff in H; destruct H
  | H : negb _ = true |- _ => apply negb_true_iff in H
  | H : negb _ = false |- _ => apply negb_false_iff in H
  | H : (_ =? _) = true |- _ => apply Z.eqb_eq in H
  | H : (_ =? _) = false |- _ => apply Z.eqb_neq in H
  | H : (_ <? _) = true |- _ => apply Z.ltb_lt in H
  | H : (_ <? _) = false |- _ => apply Z.ltb_ge in H
  | H : (_ <=? _) = true |- _ => apply Z.leb_le in H
  | H : (_ <=? _) = false |- _ => apply Z.leb_gt in H
  | H : (_ >? _) = true |- _ => rewrite Z.gtb_lt in H
  | H : (_ >? _) = false |- _ => rewrite Z.gtb_ltb in H; apply Z.ltb_ge in H
  | H : (_ >=? _) = true |- _ => rewrite Z.geb_leb in H; apply Z.leb_le in H
  | H : (_ >=? _) = false |- _ => rewrite Z.geb_leb in H; apply Z.leb_gt in H
  end.

(** ** Machine integers *)

Definition u32 (z : Z) : Z := z mod 2 ^ 32.
Definition u64 (z : Z) : Z := z mod 2 ^ 64.
Definition max_u32 : Z := 2 ^ 32 - 1.

Lemma u32_id z : 0 <= z < 2 ^ 32 -> u32 z = z.
Proof. intros. unfold u32. apply Z.mod_small. lia. Qed.

Lemma u32_range z : 0 <= u32 z < 2 ^ 32.
Proof. unfold u32. apply Z.mod_pos_bound. lia. Qed.

Lemma u64_id z : 0 <= z < 2 ^ 64 -> u64 z = z.
Proof. intros. unfold u64. apply Z.mod_small. lia. Qed.

#[export] Hint Resolve u32_range : verta.

(** ** Lists *)

Section Lists.
Context {A : Type}.

(** Drops the longest prefix of elements satisfying [f]. *)
Fixpoint drop_while (f : A -> bool) (l : list A) : list A :=
  match l with
  | [] => []
  | x :: r => if f x then drop_while f r else l
  end.

(** Drops the longest such suffix. *)
Definition drop_while_end (f : A -> bool) (l : list A) : list A :=
  rev (drop_while f (rev l)).

Lemma drop_while_cons_false f x (l : list A) :
  f x = false -> drop_while f (x :: l) = x :: l.
Proof. simpl. by intros ->. Qed.

Lemma drop_while_head f (l : list A) :
  match drop_while f l with [] => True | x :: _ => f x = false end.
Proof. induction l as [|x l IH]; simpl; [done|]. destruct (f x) eqn:E; done. Qed.

Lemma drop_while_id f (l : list A) :
  (forall x, head l = Some x -> f x = false) -> drop_while f l = l.
Proof. destruct l; simpl; [done|]. intros H. by rewrite (H a). Qed.

Lemma drop_while_suffix f (l : list A) : exists k, l = k ++ drop_while f l.
Proof.
  induction l as [|x l [k IH]]; simpl; [by exists []|].
  destruct (f x); [exists (x :: k); simpl; congruence | by exists []].
Qed.

Lemma forallb_drop_while p f (l : list A) :
  forallb p l = true -> forallb p (drop_while f l) = true.
Proof.
  destruct (drop_while_suffix f l) as [k E]. rewrite E at 1.
  rewrite forallb_app. by intros [_ ?]%andb_true_iff.
Qed.

Lemma drop_while_end_id f (l : list A) :
  (forall x, last l = Some x -> f x = false) -> drop_while_end f l = l.
Proof.
  intros H. unfold drop_while_end. rewrite drop_while_id; [apply rev_involutive|].
  intros x Hx. apply H. rewrite <- (rev_involutive l).
  destruct (rev l) eqn:E; simpl in *; [done|].
  injection Hx as ->. by rewrite last_snoc.
Qed.

Lemma StronglySorted_app_inv_le (R : A -> A -> Prop) l1 l2 :
  StronglySorted R (l1 ++ l2) ->
  forall x y, x ∈ l1 -> y ∈ l2 -> R x y.
Proof.
  induction l1 as [|a l1 IH]; simpl; intros HS x y Hx Hy; [set_solver|].
  inversion HS as [|? ? HS' HF]; subst.
  apply elem_of_cons in Hx as [->|Hx]; [|by eapply IH].
  rewrite List.Forall_forall in HF. apply HF, in_or_app. right. by apply list_elem_of_In.
Qed.

Lemma StronglySorted_weaken (R S : A -> A -> Prop) l :
  (forall x y, R x y -> S x y) -> StronglySorted R l -> StronglySorted S l.
Proof.
  intros HRS. induction 1; constructor; [done|].
  eapply Forall_impl; [done|]. auto.
Qed.

Lemma drop_S_length_app l1 x (l2 : list A) : drop (S (length l1)) (l1 ++ x :: l2) = l2.
Proof. induction l1; simpl; [by rewrite drop_0|done]. Qed.

Lemma imap_ext_lookup {B} (f : nat -> A -> B) (l : list A) i :
  imap f l !! i = f i <$> l !! i.
Proof. by rewrite list_lookup_imap. Qed.
End Lists.

(** ** Sums *)

Section Sums.
Context {A : Type}.
Implicit Types (f g : A -> Z) (l : list A).

Definition sumZ f l : Z := foldr (fun x acc => f x + acc) 0 l.

Lemma sumZ_app f l1 l2 : sumZ f (l1 ++ l2) = sumZ f l1 + sumZ f l2.
Proof. induction l1; simpl; lia. Qed.

Lemma sumZ_perm f l1 l2 : l1 ≡ₚ l2 -> sumZ f l1 = sumZ f l2.
Proof. induction 1; simpl; lia. Qed.

Lemma sumZ_ext f g l : (forall x, x ∈ l -> f x = g x) -> sumZ f l = sumZ g l.
Proof.
  intros H. induction l as [|a l IH]; simpl; [done|].
  rewrite (H a), IH by set_solver. done.
Qed.

Lemma sumZ_add f g l : sumZ (fun x => f x + g x) l = sumZ f l + sumZ g l.
Proof. induction l; simpl; lia. Qed.

Lemma sumZ_zero f l : (forall x, x ∈ l -> f x = 0) -> sumZ f l = 0.
Proof. intros H. induction l as [|a l IH]; simpl; [done|]. rewrite (H a), IH by set_solver. done. Qed.

Lemma sumZ_le f g l : (forall x, x ∈ l -> f x <= g x) -> sumZ f l <= sumZ g l.
Proof.
  induction l as [|x l IH]; intros H; simpl; [lia|]. specialize (H x ltac:(set_solver)) as Hx.
  specialize (IH ltac:(intros; apply H; set_solver)). unfold sumZ in *. lia.
Qed.
Lemma sumZ_nonneg f l : (forall x, x ∈ l -> 0 <= f x) -> 0 <= sumZ f l.
Proof.
  intros H. induction l as [|a l IH]; simpl; [done|].
  pose proof (H a ltac:(set_solver)). pose proof (IH ltac:(set_solver)). lia.
Qed.

(** A sum with one term. *)
Lemma sumZ_single f l x :
  NoDup l -> x ∈ l -> (forall y, y ∈ l -> y <> x -> f y = 0) -> sumZ f l = f x.
Proof.
  intros Hn Hx H. induction Hn as [|a l Ha Hn IH]; [set_solver|]. simpl.
  apply elem_of_cons in Hx as [<-|Hx].
  - rewrite sumZ_zero; [lia|]. intros y Hy. apply H; set_solver.
  - rewrite (H a), IH by set_solver. lia.
Qed.
End Sums.

Lemma sumZ_omap {A B} (f : B -> Z) (g : A -> option B) l :
  sumZ f (omap g l) = sumZ (fun x => match g x with Some y => f y | None => 0 end) l.
Proof. induction l as [|a l IH]; cbn; [done|]. destruct (g a); cbn; [by f_equal|done]. Qed.

Lemma sumZ_swap {A B} (f : A -> B -> Z) l1 l2 :
  sumZ (fun x => sumZ (f x) l2) l1 = sumZ (fun y => sumZ (fun x => f x y) l1) l2.
Proof.
  induction l1 as [|a l1 IH]; simpl; [by rewrite sumZ_zero|]. by rewrite IH, <- sumZ_add.
Qed.

(** ** Insertion sort

    [sort.Slice] with a comparison on a key.  The library sorts short slices
    by insertion; the outcome is the same for every sorting algorithm when
    the keys are distinct, and the lemmas below are all a client uses. *)
Section Sorting.
Context {A : Type} (less : A -> A -> bool).

(** Moves [x] left past the elements it is less than; the accumulator is
    the sorted prefix, last element first. *)
Fixpoint sink (x : A) (racc : list A) : list A :=
  match racc with
  | [] => [x]
  | y :: r => if less x y then y :: sink x r else x :: racc
  end.

Fixpoint sort_loop (racc l : list A) : list A :=
  match l with
  | [] => rev racc
  | x :: r => sort_loop (sink x racc) r
  end.

Definition sort_slice (l : list A) : list A := sort_loop [] l.

Lemma sink_perm x racc : Permutation (sink x racc) (x :: racc).
Proof.
  induction racc as [|y r IH]; simpl; [done|].
  destruct (less x y); [|done]. rewrite IH. apply perm_swap.
Qed.

Lemma sort_loop_perm l : forall racc, Permutation (sort_loop racc l) (racc ++ l).
Proof.
  induction l as [|x r IH]; intros racc; simpl.
  - rewrite app_nil_r. symmetry. apply Permutation_rev.
  - rewrite IH, sink_perm. apply Permutation_middle.
Qed.

Lemma sort_slice_perm l : Permutation (sort_slice l) l.
Proof. apply (sort_loop_perm l []). Qed.

Lemma elem_of_sort_slice x l : x ∈ sort_slice l <-> x ∈ l.
Proof. by rewrite sort_slice_perm. Qed.

Lemma length_sort_slice l : length (sort_slice l) = length l.
Proof. apply Permutation_length, sort_slice_perm. Qed.

(** [le a b]: [b] is not less than [a]. *)
Definition not_less (a b : A) : Prop := less b a = false.

Hypothesis less_asym : forall x y, less x y = true -> less y x = false.
Hypothesis not_less_trans : forall x y z, not_less x y -> not_less y z -> not_less x z.

Lemma sink_sorted x racc :
  StronglySorted (flip not_less) racc -> StronglySorted (flip not_less) (sink x racc).
Proof.
  induction 1 as [|y r HS IH HF]; simpl; [repeat constructor|].
  destruct (less x y) eqn:E.
  - constructor; [done|]. rewrite sink_perm. constructor; [|done].
    unfold flip, not_less. by apply less_asym.
  - constructor; [by constructor|]. constructor; [done|].
    eapply Forall_impl; [exact HF|]. intros z Hz. unfold flip in *.
    by apply not_less_trans with y.
Qed.

Lemma StronglySorted_rev (R : A -> A -> Prop) l :
  StronglySorted (flip R) l -> StronglySorted R (rev l).
Proof.
  induction 1 as [|x l HS IH HF]; simpl; [constructor|].
  apply StronglySorted_app_2; [|done|repeat constructor].
  intros y z Hy Hz. apply list_elem_of_singleton in Hz as ->.
  rewrite List.Forall_forall in HF. apply HF. apply list_elem_of_In in Hy.
  by apply in_rev.
Qed.

Lemma sort_loop_sorted l : forall racc,
  StronglySorted (flip not_less) racc -> StronglySorted not_less (sort_loop racc l).
Proof.
  induction l as [|x r IH]; intros racc HS; simpl.
  - by apply StronglySorted_rev.
  - apply IH. by apply sink_sorted.
Qed.

Lemma sort_slice_sorted l : StronglySorted not_less (sort_slice l).
Proof. apply sort_loop_sorted. constructor. Qed.
End Sorting.

(** Sorting by an integer key. *)
Section SortByKey.
Context {A : Type} (key : A -> Z).

Definition sort_by : list A -> list A := sort_slice (fun x y => key x <? key y).

Lemma sort_by_perm l : Permutation (sort_by l) l.
Proof. apply sort_slice_perm. Qed.

Lemma sort_by_sorted l : StronglySorted (fun x y => key x <= key y) (sort_by l).
Proof.
  apply (StronglySorted_weaken (not_less (fun x y => key x <? key y))).
  - intros x y Hxy. unfold not_less in Hxy. to_prop. lia.
  - apply sort_slice_sorted; unfold not_less; intros; to_prop;
      rewrite ?Z.ltb_ge in *; lia.
Qed.
End SortByKey.

#[export] Hint Resolve sort_slice_perm sort_by_perm sort_by_sorted : verta.
