(* ===== verification/GoStrings.v ===== *)
(** * Go strings: the parts of [strings], [bytes] and [strconv] the server uses

    Byte strings are [list ascii].  Case folding and white space are the ASCII
    ones: a byte above 127 is left alone, whereas Go also folds the non-ASCII
    letters of valid UTF-8 text.  Mail addresses, protocol keywords and folder
    names of the modelled code are ASCII. *)

From S2P Require Import Prelude.

(** ** Bytes *)

Definition TAB : ascii := "009"%char.
Definition LF : ascii := "010"%char.
Definition CR : ascii := "013"%char.
Definition SP : ascii := " "%char.
Definition DQ : ascii := "034"%char.
Definition BSL : ascii := "092"%char.
Definition NUL : ascii := "000"%char.
Definition CRLF : str := [CR; LF].

Definition byte_in_range (lo hi c : ascii) : bool :=
  ((N_of_ascii lo <=? N_of_ascii c) && (N_of_ascii c <=? N_of_ascii hi))%N.

Definition is_upper (c : ascii) : bool := byte_in_range "A" "Z" c.
Definition is_lower (c : ascii) : bool := byte_in_range "a" "z" c.
Definition is_digit (c : ascii) : bool := byte_in_range "0" "9" c.

Definition lower_byte (c : ascii) : ascii :=
  if is_upper c then ascii_of_N (N_of_ascii c + 32) else c.
Definition upper_byte (c : ascii) : ascii :=
  if is_lower c then ascii_of_N (N_of_ascii c - 32) else c.

Definition is_space (c : ascii) : bool :=
  (Ascii.eqb c TAB || Ascii.eqb c LF || Ascii.eqb c "011"%char
   || Ascii.eqb c "012"%char || Ascii.eqb c CR || Ascii.eqb c SP).

(** Case analysis over all 256 bytes. *)
Ltac all_bytes c := destruct c as [[] [] [] [] [] [] [] []].

Lemma lower_byte_idem c : lower_byte (lower_byte c) = lower_byte c.
Proof. by all_bytes c. Qed.

Lemma lower_upper_byte c : lower_byte (upper_byte c) = lower_byte c.
Proof. by all_bytes c. Qed.

Lemma upper_lower_byte c : upper_byte (lower_byte c) = upper_byte c.
Proof. by all_bytes c. Qed.

(** A byte that is not a letter is fixed by folding, and nothing else is
    folded onto it. *)
Lemma lower_byte_nonletter c d :
  is_upper d = false -> is_lower d = false -> lower_byte c = d -> c = d.
Proof.
  unfold lower_byte. destruct (is_upper c) eqn:E; [|done].
  intros Hu Hl <-. exfalso. revert E Hu Hl. by all_bytes c.
Qed.

(** ** Comparison *)

Fixpoint str_eqb (s t : str) : bool :=
  match s, t with
  | [], [] => true
  | a :: s', b :: t' => Ascii.eqb a b && str_eqb s' t'
  | _, _ => false
  end.
Infix "=s" := str_eqb (at level 70, no associativity) : go_scope.

Lemma str_eqb_eq s t : (s =s t) = true <-> s = t.
Proof.
  revert t. induction s as [|a s IH]; intros [|b t]; simpl; try (split; congruence).
  rewrite andb_true_iff, IH, Ascii.eqb_eq. split; [by intros [-> ->]|by intros [= -> ->]].
Qed.

Lemma str_eqb_refl s : (s =s s) = true.
Proof. by apply str_eqb_eq. Qed.

Lemma str_eqb_neq s t : (s =s t) = false <-> s <> t.
Proof. rewrite <- not_true_iff_false, str_eqb_eq. done. Qed.

Lemma str_eqb_spec s t : reflect (s = t) (s =s t).
Proof. apply iff_reflect. symmetry. apply str_eqb_eq. Qed.

#[export] Hint Rewrite str_eqb_refl : gostr.

(** The byte-wise [<] of Go strings. *)
Fixpoint str_ltb (s t : str) : bool :=
  match s, t with
  | _, [] => false
  | [], _ :: _ => true
  | a :: s', b :: t' =>
      if (N_of_ascii a <? N_of_ascii b)%N then true
      else if Ascii.eqb a b then str_ltb s' t' else false
  end.

(** Byte order is total: [sort.Strings] has one outcome. *)
Lemma str_ltb_asym s t : str_ltb s t = true -> str_ltb t s = false.
Proof.
  revert t. induction s as [|a s IH]; intros [|b t]; simpl; try done.
  destruct (N.ltb_spec (N_of_ascii a) (N_of_ascii b)) as [Hlt|Hge].
  - intros _. destruct (N.ltb_spec (N_of_ascii b) (N_of_ascii a)); [lia|].
    destruct (Ascii.eqb_spec b a) as [->|_]; [lia|done].
  - destruct (Ascii.eqb_spec a b) as [->|_]; [|done]. rewrite N.ltb_irrefl, Ascii.eqb_refl. apply IH.
Qed.

Lemma str_ltb_antisym s t : str_ltb s t = false -> str_ltb t s = false -> s = t.
Proof.
  revert t. induction s as [|a s IH]; intros [|b t]; simpl; try done.
  destruct (N.ltb_spec (N_of_ascii a) (N_of_ascii b)) as [|Hge]; [done|].
  destruct (Ascii.eqb_spec a b) as [->|Hne].
  - rewrite N.ltb_irrefl, Ascii.eqb_refl. intros H1 H2. f_equal. by apply IH.
  - intros _. destruct (N.ltb_spec (N_of_ascii b) (N_of_ascii a)) as [|Hge']; [done|].
    exfalso. apply Hne. rewrite <- (ascii_N_embedding a), <- (ascii_N_embedding b). f_equal. lia.
Qed.

Lemma str_ltb_trans s t u : str_ltb t s = false -> str_ltb u t = false -> str_ltb u s = false.
Proof.
  revert t u. induction s as [|a s IH]; intros [|b t] [|c u]; simpl; try done.
  destruct (N.ltb_spec (N_of_ascii b) (N_of_ascii a)) as [|H1]; [done|].
  destruct (N.ltb_spec (N_of_ascii c) (N_of_ascii b)) as [|H2]; [done|].
  destruct (N.ltb_spec (N_of_ascii c) (N_of_ascii a)) as [|H3]; [lia|]. intros E1 E2.
  destruct (Ascii.eqb_spec c a) as [->|_]; [|done].
  assert (b = a) as ->.
  { rewrite <- (ascii_N_embedding a), <- (ascii_N_embedding b). f_equal. lia. }
  rewrite Ascii.eqb_refl in E1, E2. by eapply IH.
Qed.

(** ** Folding *)

Definition to_lower (s : str) : str := map lower_byte s.
Definition to_upper (s : str) : str := map upper_byte s.
Definition equal_fold (s t : str) : bool := to_lower s =s to_lower t.

Lemma to_lower_idem s : to_lower (to_lower s) = to_lower s.
Proof. unfold to_lower. rewrite map_map. apply map_ext, lower_byte_idem. Qed.

Lemma to_lower_app s t : to_lower (s ++ t) = to_lower s ++ to_lower t.
Proof. apply map_app. Qed.

Lemma length_to_lower s : length (to_lower s) = length s.
Proof. apply length_map. Qed.

Lemma to_lower_nil s : to_lower s = [] <-> s = [].
Proof. split; [apply map_eq_nil|by intros ->]. Qed.

#[export] Hint Rewrite to_lower_idem to_lower_app length_to_lower : gostr.

(** ** Searching *)

Fixpoint has_prefix (p s : str) : bool :=
  match p, s with
  | [], _ => true
  | a :: p', b :: s' => Ascii.eqb a b && has_prefix p' s'
  | _ :: _, [] => false
  end.

Definition has_suffix (p s : str) : bool := has_prefix (rev p) (rev s).

(** [strings.Index]: the first position where [pat] occurs. *)
Fixpoint index (pat s : str) : option nat :=
  if has_prefix pat s then Some 0%nat
  else match s with
       | [] => None
       | _ :: r => S <$> index pat r
       end.

Definition contains (pat s : str) : bool :=
  match index pat s with Some _ => true | None => false end.

Fixpoint index_byte (c : ascii) (s : str) : option nat :=
  match s with
  | [] => None
  | x :: r => if Ascii.eqb x c then Some 0%nat else S <$> index_byte c r
  end.

Definition last_index_byte (c : ascii) (s : str) : option nat :=
  match index_byte c (rev s) with
  | Some i => Some (length s - 1 - i)%nat
  | None => None
  end.

Lemma has_prefix_app p s : has_prefix p (p ++ s) = true.
Proof. induction p as [|a p IH]; simpl; [done|]. by rewrite Ascii.eqb_refl. Qed.

Lemma has_prefix_spec p s : has_prefix p s = true <-> exists t, s = p ++ t.
Proof.
  split.
  - revert s. induction p as [|a p IH]; intros s; simpl; [by exists s|].
    destruct s as [|b s]; [done|]. rewrite andb_true_iff, Ascii.eqb_eq.
    intros [-> [t ->]%IH]. by exists t.
  - intros [t ->]. apply has_prefix_app.
Qed.

Lemma has_suffix_app p s : has_suffix p (s ++ p) = true.
Proof. unfold has_suffix. rewrite rev_app_distr. apply has_prefix_app. Qed.

Lemma has_suffix_spec p s : has_suffix p s = true <-> exists t, s = t ++ p.
Proof.
  split; [|intros [t ->]; apply has_suffix_app].
  unfold has_suffix. rewrite has_prefix_spec. intros [t Ht]. exists (rev t).
  apply (f_equal (@rev _)) in Ht. by rewrite rev_involutive, rev_app_distr, rev_involutive in Ht.
Qed.

Lemma index_byte_Some c s i :
  index_byte c s = Some i ->
  s = take i s ++ c :: drop (S i) s /\ c ∉ take i s.
Proof.
  revert i. induction s as [|x r IH]; intros i; simpl; [done|].
  destruct (Ascii.eqb_spec x c) as [->|Hne]; intros H.
  - injection H as <-. simpl. split; [done|set_solver].
  - destruct (index_byte c r) as [j|]; [|done]. injection H as <-.
    destruct (IH j eq_refl) as [E Hn]. simpl. rewrite E at 1. split; [done|set_solver].
Qed.

Lemma index_byte_app c s t : c ∉ s -> index_byte c (s ++ c :: t) = Some (length s).
Proof.
  induction s as [|x s IH]; simpl; intros Hn.
  - by rewrite Ascii.eqb_refl.
  - destruct (Ascii.eqb_spec x c) as [->|]; [set_solver|]. rewrite IH; [done|set_solver].
Qed.

Lemma index_byte_None c s : index_byte c s = None <-> c ∉ s.
Proof.
  induction s as [|x r IH]; simpl; [set_solver|].
  destruct (Ascii.eqb_spec x c) as [->|Hne]; [set_solver|].
  destruct (index_byte c r); simpl in *; [|set_solver].
  rewrite not_elem_of_cons. split; [done|]. intros [? ?%IH]. done.
Qed.

Lemma last_index_byte_app c s t :
  c ∉ t -> last_index_byte c (s ++ c :: t) = Some (length s).
Proof.
  intros Hn. unfold last_index_byte. rewrite rev_app_distr. simpl.
  rewrite <- app_assoc. simpl. rewrite index_byte_app.
  - rewrite length_rev, length_app. simpl. f_equal. lia.
  - by rewrite list_elem_of_In, <- in_rev, <- list_elem_of_In.
Qed.

Lemma last_index_byte_None c s : last_index_byte c s = None <-> c ∉ s.
Proof.
  unfold last_index_byte.
  rewrite list_elem_of_In, in_rev, <- list_elem_of_In.
  destruct (index_byte c (rev s)) eqn:E.
  - split; [done|]. intros H%index_byte_None. congruence.
  - by apply index_byte_None in E.
Qed.

Lemma last_index_byte_Some c s i :
  last_index_byte c s = Some i ->
  exists l r, s = l ++ c :: r /\ length l = i /\ c ∉ r.
Proof.
  unfold last_index_byte. destruct (index_byte c (rev s)) as [j|] eqn:E; [|done].
  intros [= <-]. apply index_byte_Some in E as [E Hn].
  set (p := take j (rev s)) in *. set (q := drop (S j) (rev s)) in *.
  assert (length p = j) as Hp.
  { unfold p. rewrite length_take_le; [done|].
    apply (f_equal length) in E. rewrite length_app in E. simpl in E.
    unfold p in E. rewrite length_take in E. lia. }
  apply (f_equal (@rev _)) in E. rewrite rev_involutive, rev_app_distr in E. simpl in E.
  rewrite <- app_assoc in E. simpl in E.
  exists (rev q), (rev p). split; [done|]. split.
  - rewrite E, length_app. simpl. rewrite !length_rev. lia.
  - by rewrite list_elem_of_In, <- in_rev, <- list_elem_of_In.
Qed.

Lemma index_Some pat s i :
  index pat s = Some i -> s = take i s ++ pat ++ drop (i + length pat) s.
Proof.
  revert i. induction s as [|x r IH]; intros i; simpl.
  - destruct (has_prefix pat []) eqn:E; [|done]. intros [= <-].
    apply has_prefix_spec in E as [t E]. symmetry in E. apply app_nil in E as [-> ->]. done.
  - destruct (has_prefix pat (x :: r)) eqn:E.
    + intros [= <-]. apply has_prefix_spec in E as [t E]. rewrite E. simpl.
      by rewrite drop_app_length.
    + destruct (index pat r) as [j|]; [|done]. intros [= <-]. simpl. f_equal. by apply IH.
Qed.

(** ** Splitting and joining *)

(** [strings.Cut] with a one-byte separator. *)
Definition cut (c : ascii) (s : str) : str * str * bool :=
  match index_byte c s with
  | Some i => (take i s, drop (S i) s, true)
  | None => (s, [], false)
  end.

(** [strings.Cut] with a longer separator. *)
Definition cut_str (sep s : str) : str * str * bool :=
  match index sep s with
  | Some i => (take i s, drop (i + length sep) s, true)
  | None => (s, [], false)
  end.

(** [strings.Split] with a one-byte separator: never empty. *)
Fixpoint split (c : ascii) (s : str) : list str :=
  match s with
  | [] => [[]]
  | x :: r =>
      if Ascii.eqb x c then [] :: split c r
      else match split c r with
           | h :: t => (x :: h) :: t
           | [] => [[x]]
           end
  end.

(** [strings.SplitN] with a one-byte separator and [n >= 1] parts. *)
Fixpoint split_n (n : nat) (c : ascii) (s : str) : list str :=
  match n with
  | 0%nat => []
  | 1%nat => [s]
  | S n' =>
      match cut c s with
      | (a, b, true) => a :: split_n n' c b
      | (a, _, false) => [a]
      end
  end.

(** [strings.Join]. *)
Fixpoint join (sep : str) (l : list str) : str :=
  match l with
  | [] => []
  | [s] => s
  | s :: r => s ++ sep ++ join sep r
  end.

Lemma cut_app c s t : c ∉ s -> cut c (s ++ c :: t) = (s, t, true).
Proof.
  intros Hn. unfold cut. rewrite index_byte_app by done.
  by rewrite take_app_length, drop_S_length_app.
Qed.

Lemma cut_none c s : c ∉ s -> cut c s = (s, [], false).
Proof. intros Hn. unfold cut. by rewrite (proj2 (index_byte_None c s)). Qed.

Lemma split_nonempty c s : split c s <> [].
Proof. induction s as [|x r IH]; simpl; [done|]. repeat break_match; done. Qed.

Lemma split_no_sep c s : c ∉ s -> split c s = [s].
Proof.
  induction s as [|x r IH]; simpl; [done|]. intros Hn.
  destruct (Ascii.eqb_spec x c) as [->|]; [set_solver|]. rewrite IH; [done|set_solver].
Qed.

Lemma split_app c s t : c ∉ s -> split c (s ++ c :: t) = s :: split c t.
Proof.
  induction s as [|x s IH]; simpl; intros Hn.
  - by rewrite Ascii.eqb_refl.
  - destruct (Ascii.eqb_spec x c) as [->|]; [set_solver|]. rewrite IH; [done|set_solver].
Qed.

Lemma split_parts_no_sep c s : Forall (fun p => c ∉ p) (split c s).
Proof.
  induction s as [|x r IH]; simpl; [repeat constructor; set_solver|].
  destruct (Ascii.eqb_spec x c) as [->|Hne]; [constructor; [set_solver|done]|].
  destruct (split c r) as [|h t] eqn:E; [repeat constructor; set_solver|].
  inversion IH; subst. constructor; [set_solver|done].
Qed.

Lemma join_split c s : join [c] (split c s) = s.
Proof.
  induction s as [|x r IH]; simpl; [done|].
  destruct (Ascii.eqb_spec x c) as [->|Hne].
  - destruct (split c r) as [|h t] eqn:E; [by apply split_nonempty in E|].
    change (join [c] ([] :: h :: t)) with (c :: join [c] (h :: t)). by rewrite IH.
  - destruct (split c r) as [|h t] eqn:E; [by apply split_nonempty in E|].
    destruct t as [|h2 t]; simpl in *; by rewrite IH.
Qed.

Lemma split_join c l :
  l <> [] -> Forall (fun p => c ∉ p) l -> split c (join [c] l) = l.
Proof.
  intros Hl HF. induction HF as [|p l Hp HF IH]; [done|].
  destruct l as [|q l]; [by apply split_no_sep|].
  change (join [c] (p :: q :: l)) with (p ++ c :: join [c] (q :: l)).
  rewrite split_app by done. by rewrite IH.
Qed.

(** ** Runes *)

(** How many bytes the first rune of a text takes ([utf8.DecodeRune]). *)
Definition rune_width (s : str) : nat :=
  let cont (lo hi : N) (c : ascii) := ((lo <=? N_of_ascii c) && (N_of_ascii c <=? hi))%N in
  let tail := cont 128%N 191%N in
  match s with
  | [] => 0%nat
  | a :: r =>
      let n := N_of_ascii a in
      let second := if (n =? 224)%N then cont 160%N 191%N
                    else if (n =? 237)%N then cont 128%N 159%N
                    else if (n =? 240)%N then cont 144%N 191%N
                    else if (n =? 244)%N then cont 128%N 143%N
                    else tail in
      match r with
      | b :: r' =>
          if cont 194%N 223%N a && tail b then 2%nat
          else match r' with
               | c :: r'' =>
                   if cont 224%N 239%N a && second b && tail c then 3%nat
                   else match r'' with
                        | d :: _ => if cont 240%N 244%N a && second b && tail c && tail d then 4%nat else 1%nat
                        | [] => 1%nat
                        end
               | [] => 1%nat
               end
      | [] => 1%nat
      end
  end.

(** The runes of a text, each as its bytes. *)
Fixpoint runes_fuel (fuel : nat) (s : str) : list str :=
  match fuel, s with
  | S f, _ :: _ => take (rune_width s) s :: runes_fuel f (drop (rune_width s) s)
  | _, _ => []
  end.
Definition runes (s : str) : list str := runes_fuel (length s) s.

(** [strings.FieldsFunc]: the maximal runs of runes that [keep]. *)
Fixpoint runs (keep : str -> bool) (cur : str) (rs : list str) : list str :=
  match rs with
  | [] => match cur with [] => [] | _ => [cur] end
  | r :: rest =>
      if keep r then runs keep (cur ++ r) rest
      else match cur with [] => runs keep [] rest | _ => cur :: runs keep [] rest end
  end.
Definition fields_func (keep : str -> bool) (s : str) : list str := runs keep [] (runes s).

(** ** Trimming *)

Definition trim_space (s : str) : str := drop_while_end is_space (drop_while is_space s).
Definition trim_right (cutset s : str) : str :=
  drop_while_end (fun c => existsb (Ascii.eqb c) cutset) s.
Definition trim (cutset s : str) : str :=
  trim_right cutset (drop_while (fun c => existsb (Ascii.eqb c) cutset) s).
Definition trim_prefix (p s : str) : str := if has_prefix p s then drop (length p) s else s.
Definition trim_suffix (p s : str) : str :=
  if has_suffix p s then take (length s - length p) s else s.

(** [strings.Fields]. *)
Fixpoint fields_aux (cur : str) (s : str) : list str :=
  match s with
  | [] => match cur with [] => [] | _ => [rev cur] end
  | x :: r =>
      if is_space x
      then match cur with [] => fields_aux [] r | _ => rev cur :: fields_aux [] r end
      else fields_aux (x :: cur) r
  end.
Definition fields (s : str) : list str := fields_aux [] s.

(** [strings.ReplaceAll] for a non-empty pattern; the fuel is the length of
    the string, each replacement consumes at least one byte. *)
Fixpoint replace_all_fuel (fuel : nat) (old new s : str) : str :=
  match fuel with
  | 0%nat => s
  | S f =>
      if has_prefix old s then new ++ replace_all_fuel f old new (drop (length old) s)
      else match s with
           | [] => []
           | x :: r => x :: replace_all_fuel f old new r
           end
  end.
Definition replace_all (old new s : str) : str := replace_all_fuel (S (length s)) old new s.

Lemma trim_space_id s :
  (forall x, head s = Some x -> is_space x = false) ->
  (forall x, last s = Some x -> is_space x = false) ->
  trim_space s = s.
Proof.
  intros Hh Hl. unfold trim_space. rewrite (drop_while_id _ s) by done.
  by apply drop_while_end_id.
Qed.

Lemma trim_suffix_app p s : trim_suffix p (s ++ p) = s.
Proof.
  unfold trim_suffix. rewrite has_suffix_app, length_app.
  replace (length s + length p - length p)%nat with (length s) by lia. apply take_app_length.
Qed.

Lemma fields_aux_word w cur r :
  forallb (fun c => negb (is_space c)) w = true ->
  fields_aux cur (w ++ r) = fields_aux (rev w ++ cur) r.
Proof.
  revert cur. induction w as [|x w IH]; intros cur; simpl; [done|].
  intros [->%negb_true_iff Hw]%andb_true_iff. rewrite IH by done. by rewrite <- app_assoc.
Qed.

(** ** Decimal integers *)

Definition digit (n : N) : ascii := ascii_of_N (48 + n).
Definition digit_value (c : ascii) : N := (N_of_ascii c - 48)%N.

Fixpoint dec_fuel (fuel : nat) (n : N) : str :=
  match fuel with
  | 0%nat => []
  | S f => if (n <? 10)%N then [digit n]
           else dec_fuel f (n / 10)%N ++ [digit (n mod 10)%N]
  end.
(** [%d] of a non-negative integer. *)
Definition dec_N (n : N) : str := dec_fuel (S (N.size_nat n)) n.
(** [%d]. *)
Definition dec (z : Z) : str :=
  if z <? 0 then "-"%char :: dec_N (Z.to_N (- z)) else dec_N (Z.to_N z).

(** [%x] of a non-negative integer. *)
Definition hex_digit (n : N) : ascii :=
  if (n <? 10)%N then ascii_of_N (48 + n) else ascii_of_N (87 + n).
Fixpoint hex_fuel (fuel : nat) (n : N) : str :=
  match fuel with
  | 0%nat => []
  | S f => if (n <? 16)%N then [hex_digit n]
           else hex_fuel f (n / 16)%N ++ [hex_digit (n mod 16)%N]
  end.
Definition hex (z : Z) : str := let n := Z.to_N z in hex_fuel (S (N.size_nat n)) n.

Fixpoint digits_value (acc : N) (s : str) : option N :=
  match s with
  | [] => Some acc
  | c :: r => if is_digit c then digits_value (acc * 10 + digit_value c) r else None
  end.

(** [strconv.ParseUint(s, 10, bits)]. *)
Definition parse_uint (bits : Z) (s : str) : option Z :=
  match s with
  | [] => None
  | _ => match digits_value 0 s with
         | Some n => if Z.of_N n <? 2 ^ bits then Some (Z.of_N n) else None
         | None => None
         end
  end.

(** [strconv.ParseInt(s, 10, 64)] and [strconv.Atoi]: an optional sign. *)
Definition parse_int (s : str) : option Z :=
  match s with
  | [] => None
  | c :: r =>
      let '(neg, ds) := if Ascii.eqb c "-" then (true, r)
                        else if Ascii.eqb c "+" then (false, r) else (false, s) in
      match ds with
      | [] => None
      | _ => match digits_value 0 ds with
             | Some n =>
                 let z := if neg : bool then - Z.of_N n else Z.of_N n in
                 if (- 2 ^ 63 <=? z) && (z <? 2 ^ 63) then Some z else None
             | None => None
             end
      end
  end.

Lemma digit_ok n : (n < 10)%N -> is_digit (digit n) = true /\ digit_value (digit n) = n.
Proof.
  intros Hn. assert (n ∈ [0;1;2;3;4;5;6;7;8;9]%N) as H.
  { repeat (rewrite elem_of_cons). lia. }
  repeat (apply elem_of_cons in H as [->|H]; [by vm_compute|]). set_solver.
Qed.

Lemma digits_value_app acc s t :
  digits_value acc (s ++ t) =
  match digits_value acc s with Some a => digits_value a t | None => None end.
Proof.
  revert acc. induction s as [|c s IH]; intros acc; simpl; [done|].
  destruct (is_digit c); [apply IH|done].
Qed.

Lemma dec_fuel_value fuel n :
  (n < 2 ^ N.of_nat fuel)%N -> digits_value 0 (dec_fuel (S fuel) n) = Some n.
Proof.
  revert n. induction fuel as [|f IH]; intros n Hn.
  - assert (n = 0%N) as -> by (simpl in Hn; lia). done.
  - change (dec_fuel (S (S f)) n) with
      (if (n <? 10)%N then [digit n] else dec_fuel (S f) (n / 10)%N ++ [digit (n mod 10)%N]).
    destruct (N.ltb_spec n 10).
    + simpl. destruct (digit_ok n) as [-> ->]; [done|]. f_equal.
    + rewrite digits_value_app, IH.
      * simpl. assert (n mod 10 < 10)%N by (apply N.mod_lt; lia).
        destruct (digit_ok (n mod 10)) as [-> ->]; [done|]. f_equal.
        pose proof (N.div_mod n 10). lia.
      * apply N.Div0.div_lt_upper_bound.
        rewrite Nat2N.inj_succ, N.pow_succ_r' in Hn. lia.
Qed.

Lemma dec_N_value n : digits_value 0 (dec_N n) = Some n.
Proof.
  apply dec_fuel_value.
  destruct n as [|p]; [done|]. pose proof (N.size_gt (N.pos p)) as H.
  replace (N.of_nat (N.size_nat (N.pos p))) with (N.size (N.pos p)); [done|].
  clear. simpl. induction p; simpl in *; lia.
Qed.

Lemma dec_fuel_digits fuel n : forallb is_digit (dec_fuel fuel n) = true.
Proof.
  revert n. induction fuel as [|f IH]; intros n; simpl; [done|].
  destruct (N.ltb_spec n 10).
  - simpl. destruct (digit_ok n) as [-> _]; done.
  - rewrite forallb_app, IH. simpl.
    destruct (digit_ok (n mod 10)) as [-> _]; [apply N.mod_lt; lia|done].
Qed.

Lemma dec_N_nonempty n : dec_N n <> [].
Proof.
  unfold dec_N. simpl. destruct (n <? 10)%N; [done|].
  intros [_ ?]%app_nil. done.
Qed.

Lemma dec_digits z : 0 <= z -> forallb is_digit (dec z) = true.
Proof.
  intros Hz. unfold dec. destruct (Z.ltb_spec z 0); [lia|]. apply dec_fuel_digits.
Qed.

(** Printing then parsing is the identity, for every width the value fits. *)
Lemma parse_uint_dec bits z : 0 <= z < 2 ^ bits -> parse_uint bits (dec z) = Some z.
Proof.
  intros Hz. unfold dec. destruct (Z.ltb_spec z 0); [lia|]. unfold parse_uint.
  rewrite dec_N_value, Z2N.id by lia. destruct (Z.ltb_spec z (2 ^ bits)); [|lia].
  destruct (dec_N (Z.to_N z)) eqn:E; [by apply dec_N_nonempty in E|done].
Qed.

Lemma parse_uint_range bits s z : parse_uint bits s = Some z -> 0 <= z < 2 ^ bits.
Proof.
  unfold parse_uint. intros H. repeat break_match_in H; simplify_eq. to_prop. lia.
Qed.

Lemma is_digit_not c d : is_digit c = true -> is_digit d = false -> c <> d.
Proof. congruence. Qed.

Lemma not_in_digits d s : is_digit d = false -> forallb is_digit s = true -> d ∉ s.
Proof.
  intros Hd Hs Hin. rewrite forallb_forall in Hs.
  apply list_elem_of_In, Hs in Hin. congruence.
Qed.

Lemma dec_no_dot z : 0 <= z -> "."%char ∉ dec z.
Proof. intros Hz. apply not_in_digits; [done|by apply dec_digits]. Qed.
#[export] Hint Resolve parse_uint_dec dec_digits not_in_digits : verta.

Lemma slash_dec z : "/"%char ∉ dec z.
Proof.
  unfold dec. assert (forall n, "/"%char ∉ dec_N n) as H
    by (intros n; apply not_in_digits; [done|apply dec_fuel_digits]).
  destruct (z <? 0); [|apply H]. apply not_elem_of_cons. split; [done|apply H].
Qed.

Lemma slash_hex z : "/"%char ∉ hex z.
Proof.
  unfold hex. cut (forall f n, "/"%char ∉ hex_fuel f n); [done|]. intros f.
  assert (forall n, (n < 16)%N -> "/"%char ∉ [hex_digit n]) as Hd.
  { intros n Hn. assert (n ∈ [0;1;2;3;4;5;6;7;8;9;10;11;12;13;14;15]%N) as H.
    { repeat (rewrite elem_of_cons). lia. }
    intros Hin%list_elem_of_singleton. revert Hin.
    repeat (apply elem_of_cons in H as [->|H]; [discriminate|]). by apply elem_of_nil in H. }
  induction f as [|f IH]; intros n; simpl; [apply not_elem_of_nil|].
  destruct (N.ltb_spec n 16); [by apply Hd|]. apply not_elem_of_app.
  split; [apply IH|]. apply Hd, N.mod_lt. lia.
Qed.
