(* ===== verification/Filter.v ===== *)
(** * Per-mailbox delivery rules (internal/filter/filter.go)

    A rule's conditions are tested against the parsed header and the size of
    the message; the actions of the matching rules accumulate until a matching
    rule says [stop].  The RFC 5322 header parser is [net/mail]'s: it is a
    parameter that gives the header of a message, or nothing when it cannot be
    read. *)

From S2P Require Import Prelude GoStrings.

(** ** Headers: [textproto.MIMEHeader] *)

Abbreviation header := (gmap str (list str)).

(** The token bytes of RFC 7230, the only ones a canonical key may hold. *)
Definition is_token_byte (c : ascii) : bool :=
  is_upper c || is_lower c || is_digit c
  || existsb (Ascii.eqb c) #"!#$%&'*+-.^_`|~".

Fixpoint canonical_aux (up : bool) (s : str) : str :=
  match s with
  | [] => []
  | c :: r => (if up then upper_byte c else lower_byte c) :: canonical_aux (Ascii.eqb c "-") r
  end.

(** [textproto.CanonicalMIMEHeaderKey]. *)
Definition canonical_key (s : str) : str :=
  if forallb is_token_byte s then canonical_aux true s else s.

(** [Header.Get]: the first value of the key, or the empty string. *)
Definition header_get (h : header) (key : str) : str :=
  match h !! canonical_key key with
  | Some (v :: _) => v
  | _ => []
  end.

(** ** Rules *)

Record Rule := mkRule {
  rFrom : str;
  rTo : str;
  rSubject : str;
  rHeader : str;
  rLargerThan : Z;
  rFolder : str;
  rJunk : bool;
  rSeen : bool;
  rFlagged : bool;
  rForwardTo : str;
  rDiscard : bool;
  rStop : bool }.

Record Outcome := mkOutcome {
  oFolder : str;
  oJunk : bool;
  oSeen : bool;
  oFlagged : bool;
  oForward : list str;
  oDiscard : bool }.

Definition noOutcome : Outcome := mkOutcome [] false false false [] false.

Definition is_empty (s : str) : bool := match s with [] => true | _ => false end.

Definition containsFold (s sub : str) : bool := contains (to_lower sub) (to_lower s).

Definition matches (r : Rule) (h : header) (size : Z) : bool :=
  if negb (is_empty (rFrom r)) && negb (containsFold (header_get h #"From") (rFrom r)) then false
  else if negb (is_empty (rTo r)) && negb (containsFold (header_get h #"To") (rTo r))
          && negb (containsFold (header_get h #"Cc") (rTo r)) then false
  else if negb (is_empty (rSubject r))
          && negb (containsFold (header_get h #"Subject") (rSubject r)) then false
  else if negb (is_empty (rHeader r))
          && (let '(name, want, ok) := cut ":" (rHeader r) in
              if ok then negb (containsFold (header_get h (trim_space name)) (trim_space want))
              else true) then false
  else if (0 <? rLargerThan r) && (size <=? rLargerThan r) then false
  else true.

(** The body of the loop of [Apply] for a matching rule. *)
Definition act (r : Rule) (out : Outcome) : Outcome :=
  mkOutcome
    (if is_empty (rFolder r) then oFolder out else rFolder r)
    (if rJunk r then true else oJunk out)
    (if rSeen r then true else oSeen out)
    (if rFlagged r then true else oFlagged out)
    (if is_empty (rForwardTo r) then oForward out else oForward out ++ [rForwardTo r])
    (if rDiscard r then true else oDiscard out).

Fixpoint apply_loop (rules : list Rule) (h : header) (size : Z) (out : Outcome) : Outcome :=
  match rules with
  | [] => out
  | r :: rest =>
      if matches r h size then
        let out' := act r out in
        if rStop r then out' else apply_loop rest h size out'
      else apply_loop rest h size out
  end.

Definition Apply (readMessage : str -> option header) (rules : list Rule) (msg : str) : Outcome :=
  let h := match readMessage msg with Some h => h | None => ∅ end in
  apply_loop rules h (Z.of_nat (length msg)) noOutcome.

(** ** Specification

    The rules that take effect: the matching ones, up to and including the
    first matching rule with [stop]. *)
Fixpoint effective (rules : list Rule) (h : header) (size : Z) : list Rule :=
  match rules with
  | [] => []
  | r :: rest =>
      if matches r h size then r :: (if rStop r then [] else effective rest h size)
      else effective rest h size
  end.

Definition nonempty_strs (l : list str) : list str := filter (fun s => is_empty s = false) l.

(** What the effective rules decide together. *)
Definition decision (rs : list Rule) : Outcome :=
  mkOutcome
    (default [] (last (nonempty_strs (rFolder <$> rs))))
    (existsb rJunk rs)
    (existsb rSeen rs)
    (existsb rFlagged rs)
    (nonempty_strs (rForwardTo <$> rs))
    (existsb rDiscard rs).

Lemma nonempty_strs_snoc l s :
  nonempty_strs (l ++ [s]) = if is_empty s then nonempty_strs l else nonempty_strs l ++ [s].
Proof.
  unfold nonempty_strs. rewrite filter_app, filter_cons, filter_nil.
  destruct (is_empty s) eqn:E; case_decide; try congruence. by rewrite app_nil_r.
Qed.

Lemma decision_snoc rs r : decision (rs ++ [r]) = act r (decision rs).
Proof.
  unfold decision, act. rewrite !fmap_app. simpl. rewrite !nonempty_strs_snoc.
  rewrite !existsb_app. simpl. rewrite !orb_false_r. f_equal.
  - destruct (is_empty (rFolder r)); [done|]. by rewrite last_snoc.
  - by rewrite orb_comm; destruct (rJunk r).
  - by rewrite orb_comm; destruct (rSeen r).
  - by rewrite orb_comm; destruct (rFlagged r).
  - by rewrite orb_comm; destruct (rDiscard r).
Qed.

Lemma apply_loop_decision rules h size done_rules :
  apply_loop rules h size (decision done_rules)
  = decision (done_rules ++ effective rules h size).
Proof.
  revert done_rules. induction rules as [|r rest IH]; intros ds; simpl.
  - by rewrite app_nil_r.
  - destruct (matches r h size); [|apply IH].
    rewrite <- decision_snoc. destruct (rStop r); [done|].
    rewrite IH, <- app_assoc. done.
Qed.

(** Applying the rules yields the decision of the effective ones, the
    matching rules up to the first of them that stops: the last folder named,
    every mark and every forwarding address; a message whose header cannot be
    parsed is treated as one without header fields. *)
Theorem Apply_spec (readMessage : str -> option header) (rules : list Rule) (msg : str) :
  Apply readMessage rules msg
  = decision (effective rules (default ∅ (readMessage msg)) (Z.of_nat (length msg))).
Proof. apply (apply_loop_decision rules _ _ []). Qed.
