(* ===== verification/Config.v ===== *)
(** * The configuration the mail core reads (internal/config)

    The records of [config.go] as far as mail routing, storage and delivery
    read them, and their methods.  YAML decoding, validation and the
    server-wide sections are not modelled here. *)

From S2P Require Import Prelude GoStrings Filter.

Definition StorageSystemUser : str := #"system_user".
Definition StorageVirtual : str := #"virtual".

Record Storage := mkStorage {
  sType : str;
  sUser : str;
  sHome : str;
  sMaildir : str;
  sPasswordHash : str }.

Record Domain := mkDomain {
  dName : str;
  dStorage : Storage;
  dDKIMSelector : str;
  dAliases : gmap str (list str);
  dCatchAll : list str;
  dQuotaBytes : Z }.

Record User := mkUser {
  uEmail : str;
  uType : str;
  uMaildir : str;
  uPasswordHash : str;
  uForwardTo : list str;
  uKeepLocal : option bool;
  uFilters : list Rule;
  uQuota : str }.

Record Config := mkConfig {
  cDomains : list Domain;
  cUsers : list User;
  cSRSSecret : str }.

(** ** Methods *)

Definition HomeDir (s : Storage) : str :=
  if negb (is_empty (sHome s)) then sHome s
  else if negb (is_empty (sUser s)) then #"/home/" ++ sUser s
  else [].

Definition ExpandHome (s : Storage) (path : str) : str :=
  replace_all #"{home}" (HomeDir s) path.

Definition MaildirPath (s : Storage) : str := ExpandHome s (sMaildir s).

Definition KeepsLocalCopy (u : User) : bool :=
  match uKeepLocal u with None => true | Some b => b end.

Definition HasDomain (c : Config) (name : str) : bool :=
  existsb (fun d => dName d =s name) (cDomains c).

Definition DKIMSelectorFor (c : Config) (domain : str) : str :=
  match List.find (fun d => dName d =s domain) (cDomains c) with
  | Some d => dDKIMSelector d
  | None => []
  end.

Definition DomainNames (c : Config) : list str := map dName (cDomains c).

Definition DomainQuota (c : Config) (domain : str) : Z :=
  match List.find (fun d => dName d =s domain) (cDomains c) with
  | Some d => dQuotaBytes d
  | None => 0
  end.

Definition PasswordHashFor (c : Config) (email : str) : option str :=
  match List.find (fun u => (uEmail u =s email) && negb (is_empty (uPasswordHash u))) (cUsers c) with
  | Some u => Some (uPasswordHash u)
  | None =>
      match List.find (fun d => (sType (dStorage d) =s StorageSystemUser)
                           && negb (is_empty (sPasswordHash (dStorage d)))
                           && (email =s sUser (dStorage d) ++ #"@" ++ dName d)) (cDomains c) with
      | Some d => Some (sPasswordHash (dStorage d))
      | None => None
      end
  end.

(** The maildir roots a domain's shared quota sums over.  The loop of the
    source keeps the last domain of that name. *)
Definition DomainMaildirs (c : Config) (domain : str) : list str :=
  match List.find (fun d => dName d =s domain) (rev (cDomains c)) with
  | None => []
  | Some d =>
      let system := sType (dStorage d) =s StorageSystemUser in
      let dirs := flat_map (fun u =>
        match last_index_byte "@" (uEmail u) with
        | Some at_ =>
            if equal_fold (drop (S at_) (uEmail u)) domain
            then [if system then ExpandHome (dStorage d) (uMaildir u) else uMaildir u]
            else []
        | None => []
        end) (cUsers c) in
      match dirs with
      | [] => if system then [MaildirPath (dStorage d)] else []
      | _ => dirs
      end
  end.

(** [normalizeAliases]: the keys are lowercased; the order in which Go visits
    the map decides between keys that differ only by case. *)
Definition normalizeAliases (visited : list (str * list str)) : gmap str (list str) :=
  fold_left (fun out kv => <[to_lower kv.1 := kv.2]> out) visited ∅.

Definition normalizeHost (h : str) : str := trim_suffix #"." (to_lower (trim_space h)).

Definition knownHash (h : str) : bool :=
  has_prefix #"$argon2id$" h || has_prefix #"$2a$" h || has_prefix #"$2b$" h
  || has_prefix #"$2y$" h.

(** ** Lemmas *)

Lemma HasDomain_In c name :
  HasDomain c name = true <-> name ∈ DomainNames c.
Proof.
  unfold HasDomain, DomainNames. rewrite existsb_exists, list_elem_of_In, in_map_iff.
  split; intros (d & H1 & H2); exists d; [|split; [done|by apply str_eqb_eq]].
  by apply str_eqb_eq in H2.
Qed.
