(* ===== verification/StorageResolver.v ===== *)
(** * Recipient resolution (internal/storage/resolver.go)

    Maps an address to its mailbox on disk under the two storage models.  The
    operating system's account database is a parameter. *)

From S2P Require Import Prelude GoStrings Filter Config.

Record Mailbox := mkMailbox {
  mbEmail : str;
  mbDir : str;
  mbUID : Z;
  mbGID : Z }.

(** [Split]: local part and lowercased domain, at the last ['@']. *)
Definition Split (email : str) : option (str * str) :=
  let email := trim_space email in
  match last_index_byte "@" email with
  | Some at_ =>
      if (Nat.leb at_ 0) || (Nat.eqb at_ (length email - 1)) then None
      else Some (take at_ email, to_lower (drop (S at_) email))
  | None => None
  end.

Section Resolver.
(** [user.Lookup] followed by [strconv.Atoi] of both ids. *)
Variable lookup_owner : str -> option (Z * Z).

Definition fillOwner (mb : Mailbox) (name : str) : Mailbox :=
  match lookup_owner name with
  | Some (uid, gid) => mkMailbox (mbEmail mb) (mbDir mb) uid gid
  | None => mb
  end.

(** The loop over [cfg.Users] for a system_user domain: the mailbox found,
    or whether a user of the domain was seen. *)
Fixpoint system_users (users : list User) (d : Domain) (addr domain : str)
    (hasUsers : bool) : Mailbox + bool :=
  match users with
  | [] => inr hasUsers
  | u :: rest =>
      if uEmail u =s addr then
        inl (fillOwner (mkMailbox addr (ExpandHome (dStorage d) (uMaildir u)) (-1) (-1))
                       (sUser (dStorage d)))
      else
        let hasUsers' :=
          match Split (uEmail u) with
          | Some (_, dom) => if dom =s domain then true else hasUsers
          | None => hasUsers
          end in
        system_users rest d addr domain hasUsers'
  end.

(** The body of the loop over [cfg.Domains] for the domain that matches. *)
Definition resolve_in (cfg : Config) (d : Domain) (local domain addr : str) : option Mailbox :=
  if sType (dStorage d) =s StorageSystemUser then
    match system_users (cUsers cfg) d addr domain false with
    | inl mb => Some mb
    | inr hasUsers =>
        if negb hasUsers && (local =s sUser (dStorage d)) then
          Some (fillOwner (mkMailbox addr (MaildirPath (dStorage d)) (-1) (-1))
                          (sUser (dStorage d)))
        else None
    end
  else
    match List.find (fun u => uEmail u =s addr) (cUsers cfg) with
    | Some u => Some (mkMailbox addr (uMaildir u) (-1) (-1))
    | None => None
    end.

Definition Resolve (cfg : Config) (email : str) : option Mailbox :=
  match Split email with
  | None => None
  | Some (local, domain) =>
      let local := to_lower local in
      let addr := local ++ #"@" ++ domain in
      match List.find (fun d => dName d =s domain) (cDomains cfg) with
      | Some d => resolve_in cfg d local domain addr
      | None => None
      end
  end.

(** ** Lemmas *)

Lemma fillOwner_email mb name : mbEmail (fillOwner mb name) = mbEmail mb.
Proof. unfold fillOwner. by destruct (lookup_owner name) as [[]|]. Qed.

Lemma system_users_email users d addr domain b mb :
  system_users users d addr domain b = inl mb -> mbEmail mb = addr.
Proof.
  revert b. induction users as [|u rest IH]; intros b; simpl; [done|].
  destruct (uEmail u =s addr); [|apply IH].
  intros [= <-]. by rewrite fillOwner_email.
Qed.

Lemma resolve_in_email cfg d local domain addr mb :
  resolve_in cfg d local domain addr = Some mb -> mbEmail mb = addr.
Proof.
  unfold resolve_in. intros H. repeat break_match_in H; simplify_eq; try done.
  - by eapply system_users_email.
  - by rewrite fillOwner_email.
Qed.

Lemma Resolve_email cfg email mb :
  Resolve cfg email = Some mb ->
  exists local domain, Split email = Some (local, domain)
    /\ HasDomain cfg domain = true
    /\ mbEmail mb = to_lower local ++ #"@" ++ domain.
Proof.
  unfold Resolve. destruct (Split email) as [[local domain]|]; [|done].
  destruct (List.find _ _) as [d|] eqn:E; [|done]. intros H%resolve_in_email.
  exists local, domain. split; [done|]. split; [|done].
  apply existsb_exists. exists d. apply find_some in E. done.
Qed.
End Resolver.

(** ** The shape of split addresses *)

(** [mbox "@" domain], the domain without ['@'] and lowercase, no outer
    white space: what [Split] takes apart. *)
Record wf_addr (local domain : str) : Prop := {
  wf_local : local <> [];
  wf_local_head : forall x, head local = Some x -> is_space x = false;
  wf_domain : domain <> [];
  wf_domain_at : ("@"%char : ascii) ∉ domain;
  wf_domain_last : forall x, last domain = Some x -> is_space x = false;
  wf_domain_lower : to_lower domain = domain }.

Lemma lower_byte_space c : is_space (lower_byte c) = is_space c.
Proof. by all_bytes c. Qed.

Lemma lower_byte_at c : lower_byte c = "@"%char -> c = "@"%char.
Proof. by apply lower_byte_nonletter. Qed.

Lemma head_to_lower s : head (to_lower s) = lower_byte <$> head s.
Proof. by destruct s. Qed.

Lemma last_to_lower s : last (to_lower s) = lower_byte <$> last s.
Proof. apply fmap_last. Qed.

Lemma at_in_lower s : ("@"%char : ascii) ∈ to_lower s -> ("@"%char : ascii) ∈ s.
Proof.
  intros (c & Hc & Hin)%list_elem_of_fmap. by apply eq_sym, lower_byte_at in Hc as ->.
Qed.

Lemma trim_space_head s x : head (trim_space s) = Some x -> is_space x = false.
Proof.
  unfold trim_space, drop_while_end. intros H.
  pose proof (drop_while_head is_space s) as Hh.
  destruct (drop_while_suffix is_space (rev (drop_while is_space s))) as [k E].
  apply (f_equal (@rev _)) in E. rewrite rev_involutive, rev_app_distr in E.
  destruct (rev (drop_while is_space (rev (drop_while is_space s)))) as [|y r]; [done|].
  simpl in *. rewrite E in Hh. by injection H as ->.
Qed.

Lemma trim_space_last s x : last (trim_space s) = Some x -> is_space x = false.
Proof.
  unfold trim_space, drop_while_end. set (t := drop_while is_space s).
  pose proof (drop_while_head is_space (rev t)) as Hh.
  destruct (drop_while is_space (rev t)) as [|y r]; [done|]. simpl.
  rewrite last_snoc. by intros [= ->].
Qed.

Lemma Split_wf email local domain : Split email = Some (local, domain) -> wf_addr local domain.
Proof.
  unfold Split. destruct (last_index_byte "@" (trim_space email)) as [i|] eqn:E; [|done].
  apply last_index_byte_Some in E as (l & r & E & Hl & Hr).
  destruct (Nat.leb_spec i 0); [done|]. simpl.
  destruct (Nat.eqb_spec i (length (trim_space email) - 1)); [done|]. intros [= <- <-].
  pose proof (trim_space_head email) as Hhead. pose proof (trim_space_last email) as Hlast.
  rewrite E in *. rewrite <- Hl, take_app_length.
  rewrite drop_S_length_app.
  rewrite length_app in *. simpl in *.
  assert (r <> []) as Hrn by (intros ->; simpl in *; lia).
  constructor.
  - intros ->. simpl in *. lia.
  - intros x Hx. apply Hhead. destruct l; [done|exact Hx].
  - by rewrite to_lower_nil.
  - by intros ?%at_in_lower.
  - intros x Hx. rewrite last_to_lower in Hx.
    apply fmap_Some in Hx as (y & Ey & ->).
    rewrite lower_byte_space. apply Hlast. rewrite last_app. simpl.
    destruct r as [|b r]; [done|]. rewrite last_cons_cons. by rewrite Ey.
  - apply to_lower_idem.
Qed.

Lemma Split_app local domain :
  wf_addr local domain -> Split (local ++ #"@" ++ domain) = Some (local, domain).
Proof.
  intros [Hl Hlh Hd Hda Hdl Hlow]. unfold Split.
  rewrite trim_space_id.
  - change (local ++ #"@" ++ domain) with (local ++ "@"%char :: domain).
    rewrite last_index_byte_app, take_app_length, drop_S_length_app, length_app by done.
    destruct (Nat.leb_spec (length local) 0); [destruct local; [done|simpl in *; lia]|]. simpl.
    destruct (Nat.eqb_spec (length local) (length local + S (length domain) - 1)).
    + destruct domain; [done|simpl in *; lia].
    + by rewrite Hlow.
  - intros x Hx. apply Hlh. by destruct local.
  - intros x Hx. apply Hdl. rewrite !last_app in Hx.
    destruct (last domain) as [y|] eqn:E; [done|]. by apply last_None in E.
Qed.

Lemma wf_addr_lower local domain : wf_addr local domain -> wf_addr (to_lower local) domain.
Proof.
  intros [Hl Hlh Hd Hda Hdl Hlow]. constructor; try done.
  - by rewrite to_lower_nil.
  - intros x. rewrite head_to_lower. intros (y & Ey & ->)%fmap_Some. rewrite lower_byte_space. by apply Hlh.
Qed.
