(* ===== verification/SRS.v ===== *)
(** * The Sender Rewriting Scheme (internal/srs/srs.go)

    Rewriting an envelope sender to an address of the forwarding domain and
    recovering it from a returning bounce.  HMAC-SHA1 with its base64 rendering
    is a parameter. *)

From S2P Require Import Prelude GoStrings.

Definition tsAlphabet : str := #"ABCDEFGHIJKLMNOPQRSTUVWXYZ234567".
Definition tsMod : Z := 1024.
Definition maxAgeDays : Z := 21.

Definition IsSRS (localPart : str) : bool := has_prefix #"SRS0=" (to_upper localPart).

(** [split]: local part and lowercased domain, at the last ['@']; unlike
    [storage.Split] it does not trim. *)
Definition split_addr (addr : str) : option (str * str) :=
  match last_index_byte "@" addr with
  | Some at_ =>
      if (Nat.leb at_ 0) || (Nat.eqb at_ (length addr - 1)) then None
      else Some (take at_ addr, to_lower (drop (S at_) addr))
  | None => None
  end.

(** Days since the epoch, modulo 1024; [now] is in seconds and Go's [/] and
    [%] truncate. *)
Definition days_of (now : Z) : Z := Z.rem (Z.quot now 86400) tsMod.

Definition alphabet_at (i : Z) : ascii := nth (Z.to_nat i) tsAlphabet "A"%char.

Definition timestamp (now : Z) : str :=
  let days := days_of now in
  [alphabet_at (Z.land (Z.quot days 32) 31); alphabet_at (Z.land days 31)].

Definition timestampValid (ts : str) (now : Z) : bool :=
  match ts with
  | [a; b] =>
      match index_byte (upper_byte a) tsAlphabet, index_byte (upper_byte b) tsAlphabet with
      | Some hi, Some lo =>
          let then_ := Z.of_nat hi * 32 + Z.of_nat lo in
          let age := Z.rem (days_of now - then_ + tsMod) tsMod in
          (age <=? maxAgeDays) || (tsMod - 1 <=? age)
      | _, _ => false
      end
  | _ => false
  end.

Section Mac.
(** base64(HMAC-SHA1(secret, message)). *)
Variable mac : str -> str -> str.

Definition sign (secret ts domain local : str) : str :=
  take 4 (mac secret (to_lower (ts ++ domain ++ local))).

Definition Forward (secret forwardDomain sender : str) (now : Z) : str :=
  match sender with
  | [] => []
  | _ =>
      match split_addr sender with
      | None => sender
      | Some (local, domain) =>
          let ts := timestamp now in
          let h := sign secret ts domain local in
          #"SRS0=" ++ h ++ #"=" ++ ts ++ #"=" ++ domain ++ #"=" ++ local
            ++ #"@" ++ forwardDomain
      end
  end.

Definition Reverse (secret srsAddress : str) (now : Z) : option str :=
  match split_addr srsAddress with
  | None => None
  | Some (local, _) =>
      if negb (IsSRS local) then None
      else match split_n 5 "=" local with
           | [_; h; ts; domain; origLocal] =>
               if negb (sign secret ts domain origLocal =s h) then None
               else if negb (timestampValid ts now) then None
               else Some (origLocal ++ #"@" ++ domain)
           | _ => None
           end
  end.

(** ** Lemmas *)

Lemma split_addr_app local domain :
  local <> [] -> domain <> [] -> ("@"%char : ascii) ∉ domain ->
  split_addr (local ++ #"@" ++ domain) = Some (local, to_lower domain).
Proof.
  intros Hl Hd Hn. unfold split_addr.
  change (local ++ #"@" ++ domain) with (local ++ "@"%char :: domain).
  rewrite last_index_byte_app, take_app_length, drop_S_length_app, length_app by done.
  destruct (Nat.leb_spec (length local) 0); [destruct local; [done|simpl in *; lia]|].
  destruct (Nat.eqb_spec (length local) (length local + length ("@"%char :: domain) - 1)); [|done].
  destruct domain; [done|simpl in *; lia].
Qed.

Lemma split_addr_Some addr local domain :
  split_addr addr = Some (local, domain) ->
  exists d, addr = local ++ #"@" ++ d /\ domain = to_lower d
    /\ local <> [] /\ d <> [] /\ ("@"%char : ascii) ∉ d.
Proof.
  unfold split_addr. destruct (last_index_byte "@" addr) as [i|] eqn:E; [|done].
  apply last_index_byte_Some in E as (l & r & -> & <- & Hr).
  destruct (Nat.leb_spec (length l) 0); [done|]. simpl.
  destruct (Nat.eqb_spec (length l) (length (l ++ "@"%char :: r) - 1)) as [|Hne]; [done|].
  rewrite take_app_length, drop_S_length_app. intros [= <- <-].
  exists r. split_and!; try done.
  - intros ->. simpl in *. lia.
  - intros ->. rewrite length_app in Hne. simpl in Hne. lia.
Qed.

(** The four-field prefix of a rewritten local part splits back. *)
Lemma split_n_srs h ts domain local :
  ("="%char : ascii) ∉ h -> ("="%char : ascii) ∉ ts -> ("="%char : ascii) ∉ domain ->
  split_n 5 "=" (#"SRS0=" ++ h ++ #"=" ++ ts ++ #"=" ++ domain ++ #"=" ++ local)
  = [ #"SRS0"; h; ts; domain; local].
Proof.
  intros Hh Ht Hd.
  change (#"SRS0=" ++ h ++ #"=" ++ ts ++ #"=" ++ domain ++ #"=" ++ local)
    with (#"SRS0" ++ "="%char :: h ++ "="%char :: ts ++ "="%char :: domain ++ "="%char :: local).
  cbn [split_n]. rewrite cut_app by (vm_compute; set_solver).
  rewrite cut_app by done. rewrite cut_app by done. by rewrite cut_app.
Qed.
End Mac.

Lemma index_alphabet i :
  0 <= i < 32 ->
  index_byte (upper_byte (alphabet_at i)) tsAlphabet = Some (Z.to_nat i)
  /\ index_byte (upper_byte (lower_byte (alphabet_at i))) tsAlphabet = Some (Z.to_nat i)
  /\ alphabet_at i <> "="%char.
Proof.
  intros Hi. assert (Z.to_nat i ∈ seq 0 32) as H by (rewrite elem_of_seq; lia).
  unfold alphabet_at. revert H. generalize (Z.to_nat i). intros n H. vm_compute in H.
  repeat (apply elem_of_cons in H as [->|H]; [by vm_compute|]). set_solver.
Qed.

Lemma days_of_range now : 0 <= now -> 0 <= days_of now < 1024.
Proof.
  intros. unfold days_of, tsMod. rewrite Z.quot_div_nonneg by lia.
  assert (0 <= now / 86400) by (apply Z.div_pos; lia).
  rewrite Z.rem_mod_nonneg by lia. apply Z.mod_pos_bound. lia.
Qed.

Lemma days_hi d : 0 <= d < 1024 -> Z.land (Z.quot d 32) 31 = d / 32.
Proof.
  intros. rewrite Z.quot_div_nonneg by lia. change 31 with (Z.ones 5).
  rewrite Z.land_ones by lia. apply Z.mod_small. split; [apply Z.div_pos; lia|].
  apply Z.div_lt_upper_bound; lia.
Qed.

Lemma days_lo d : Z.land d 31 = d mod 32.
Proof. change 31 with (Z.ones 5). by rewrite Z.land_ones by lia. Qed.

Lemma timestamp_no_eq now : 0 <= now -> ("="%char : ascii) ∉ timestamp now.
Proof.
  intros Hn. pose proof (days_of_range now Hn) as Hd. unfold timestamp.
  rewrite days_hi, days_lo by done.
  destruct (index_alphabet (days_of now / 32)) as (_ & _ & ?).
  { split; [apply Z.div_pos; lia|apply Z.div_lt_upper_bound; lia]. }
  destruct (index_alphabet (days_of now mod 32)) as (_ & _ & ?);
    [apply Z.mod_pos_bound; lia|].
  rewrite !not_elem_of_cons. naive_solver set_solver.
Qed.

(** The window of a genuine timestamp, in days and whatever its case: at
    most 21 days old or one day ahead, modulo 1024. *)
Lemma timestampValid_timestamp now1 now2 fold :
  0 <= now1 -> 0 <= now2 -> fold = id \/ fold = lower_byte ->
  timestampValid (map fold (timestamp now1)) now2
  = let age := (now2 / 86400 - now1 / 86400) mod 1024 in (age <=? 21) || (1023 <=? age).
Proof.
  intros H1 H2 Hf.
  pose proof (days_of_range now1 H1) as Hd1. pose proof (days_of_range now2 H2) as Hd2.
  unfold timestamp, timestampValid. rewrite days_hi, days_lo by done.
  destruct (index_alphabet (days_of now1 / 32)) as (Ea & Ea' & _).
  { split; [apply Z.div_pos; lia|apply Z.div_lt_upper_bound; lia]. }
  destruct (index_alphabet (days_of now1 mod 32)) as (Eb & Eb' & _);
    [apply Z.mod_pos_bound; lia|].
  assert (forall hi lo : Z, 0 <= hi -> 0 <= lo -> days_of now1 = hi * 32 + lo ->
    Z.rem (days_of now2 - (Z.of_nat (Z.to_nat hi) * 32 + Z.of_nat (Z.to_nat lo)) + tsMod) tsMod
    = (now2 / 86400 - now1 / 86400) mod 1024) as Hage.
  { intros hi lo ? ? E. rewrite !Z2Nat.id, <- E by lia. unfold tsMod in *.
    rewrite Z.rem_mod_nonneg by lia. unfold days_of, tsMod.
    rewrite !Z.quot_div_nonneg by lia.
    assert (0 <= now1 / 86400) by (apply Z.div_pos; lia).
    assert (0 <= now2 / 86400) by (apply Z.div_pos; lia).
    rewrite !Z.rem_mod_nonneg by lia.
    rewrite <- Z.add_mod_idemp_r, Z.mod_same, Z.add_0_r by lia.
    by rewrite <- Zminus_mod. }
  assert (0 <= days_of now1 / 32) by (apply Z.div_pos; lia).
  pose proof (Z.mod_pos_bound (days_of now1) 32).
  pose proof (Z.div_mod (days_of now1) 32).
  destruct Hf as [-> | ->]; cbn [map id]; rewrite ?Ea, ?Eb, ?Ea', ?Eb', Hage by lia; done.
Qed.

(** ** Reversing what was forwarded *)

Section RoundTrip.
Variable mac : str -> str -> str.

(** The local part of a rewritten address. *)
Definition srs_local (tag h ts domain local : str) : str :=
  tag ++ #"=" ++ h ++ #"=" ++ ts ++ #"=" ++ domain ++ #"=" ++ local.

Lemma Forward_srs_local secret fdom sender local d now :
  split_addr sender = Some (local, d) ->
  Forward mac secret fdom sender now
  = srs_local #"SRS0" (sign mac secret (timestamp now) d local) (timestamp now) d local
      ++ #"@" ++ fdom.
Proof.
  intros E. unfold Forward, srs_local. rewrite E. destruct sender; [done|].
  by rewrite <- !app_assoc.
Qed.

Lemma to_lower_srs_local tag h ts domain local :
  to_lower (srs_local tag h ts domain local)
  = srs_local (to_lower tag) (to_lower h) (to_lower ts) (to_lower domain) (to_lower local).
Proof. unfold srs_local. by rewrite !to_lower_app. Qed.

Lemma not_eq_sign_lower s : ("="%char : ascii) ∉ s -> ("="%char : ascii) ∉ to_lower s.
Proof.
  intros Hn (c & Hc & Hin)%list_elem_of_fmap. apply Hn.
  by apply eq_sym, lower_byte_nonletter in Hc as ->.
Qed.

(** [Reverse] on an address with the five fields, whatever the case of
    its tag. *)
Lemma Reverse_fields tag secret h ts domain local fdom now :
  tag = #"SRS0" \/ tag = #"srs0" ->
  ("="%char : ascii) ∉ h -> ("="%char : ascii) ∉ ts -> ("="%char : ascii) ∉ domain ->
  fdom <> [] -> ("@"%char : ascii) ∉ fdom ->
  Reverse mac secret
    (srs_local tag h ts domain local ++ #"@" ++ fdom) now
  = if sign mac secret ts domain local =s h
    then if timestampValid ts now then Some (local ++ #"@" ++ domain) else None
    else None.
Proof.
  intros Htag Hh Ht Hd Hf Ha. unfold Reverse, srs_local.
  rewrite split_addr_app; [|by destruct Htag as [-> | ->]|done|done].
  assert (IsSRS (tag ++ #"=" ++ h ++ #"=" ++ ts ++ #"=" ++ domain ++ #"=" ++ local) = true) as ->.
  { unfold IsSRS, to_upper. rewrite map_app. by destruct Htag as [-> | ->]. }
  assert (split_n 5 "=" (tag ++ #"=" ++ h ++ #"=" ++ ts ++ #"=" ++ domain ++ #"=" ++ local)
          = [tag; h; ts; domain; local]) as ->.
  { change (tag ++ #"=" ++ h ++ #"=" ++ ts ++ #"=" ++ domain ++ #"=" ++ local)
      with (tag ++ "="%char :: h ++ "="%char :: ts ++ "="%char :: domain ++ "="%char :: local).
    cbn [split_n]. rewrite cut_app by (destruct Htag as [-> | ->]; vm_compute; set_solver).
    rewrite cut_app by done. rewrite cut_app by done. by rewrite cut_app. }
  simpl. by destruct (sign _ _ _ _ _ =s h), (timestampValid ts now).
Qed.

Lemma sign_lower secret ts domain local :
  sign mac secret (to_lower ts) (to_lower domain) (to_lower local)
  = sign mac secret ts domain local.
Proof. unfold sign. by rewrite !to_lower_app, !to_lower_idem. Qed.
End RoundTrip.

(** C30. A sender rewritten by [Forward] is recovered by [Reverse] from the
    returning bounce, with its domain lowercased, exactly when the bounce comes
    back within the window (at most 21 days later, or one day of clock skew). *)
Theorem srs_roundtrip (mac : str -> str -> str) (secret fdom sender local domain : str)
    (now1 now2 : Z)
    (mac_alphabet : forall k m, ("="%char : ascii) ∉ take 4 (mac k m))
    (Hsplit : split_addr sender = Some (local, domain))
    (Hdomain : ("="%char : ascii) ∉ domain)
    (Hfdom : fdom <> []) (Hfat : ("@"%char : ascii) ∉ fdom)
    (Hnow1 : 0 <= now1) (Hnow2 : 0 <= now2) :
  Reverse mac secret (Forward mac secret fdom sender now1) now2
  = let age := (now2 / 86400 - now1 / 86400) mod 1024 in
    if (age <=? 21) || (1023 <=? age) then Some (local ++ #"@" ++ domain) else None.
Proof.
  rewrite (Forward_srs_local mac _ _ _ _ _ _ Hsplit).
  rewrite (Reverse_fields mac #"SRS0"); [|by left|apply mac_alphabet|by apply timestamp_no_eq|done..].
  rewrite str_eqb_refl.
  change (timestampValid (timestamp now1) now2)
    with (timestampValid (map id (timestamp now1)) now2).
  by rewrite (timestampValid_timestamp now1 now2 id) by auto.
Qed.

(** A bounce address whose hash holds an upper-case letter is refused once
    the address has been lowercased: the hash is case-sensitive base64, so a
    caller that folds the recipient before resolving it loses the bounce. *)
Theorem srs_lowercased_bounce_refused (mac : str -> str -> str)
    (secret fdom sender local domain : str) (now1 now2 : Z)
    (mac_alphabet : forall k m, ("="%char : ascii) ∉ take 4 (mac k m))
    (Hsplit : split_addr sender = Some (local, domain))
    (Hdomain : ("="%char : ascii) ∉ domain)
    (Hfdom : fdom <> []) (Hfat : ("@"%char : ascii) ∉ fdom)
    (Hnow1 : 0 <= now1)
    (Hupper : to_lower (sign mac secret (timestamp now1) domain local)
              <> sign mac secret (timestamp now1) domain local) :
  Reverse mac secret (to_lower (Forward mac secret fdom sender now1)) now2 = None.
Proof.
  rewrite (Forward_srs_local mac _ _ _ _ _ _ Hsplit), !to_lower_app.
  change (to_lower #"@") with #"@". rewrite to_lower_srs_local.
  rewrite (Reverse_fields mac #"srs0").
  - rewrite sign_lower. destruct (str_eqb_spec (sign mac secret (timestamp now1) domain local)
      (to_lower (sign mac secret (timestamp now1) domain local))); congruence.
  - by right.
  - apply not_eq_sign_lower, mac_alphabet.
  - by apply not_eq_sign_lower, timestamp_no_eq.
  - by apply not_eq_sign_lower.
  - by rewrite to_lower_nil.
  - intros (c & Hc & Hin)%list_elem_of_fmap. apply Hfat.
    by apply eq_sym, lower_byte_nonletter in Hc as ->.
Qed.

(** A stand-in for the keyed hash, for the concrete runs. *)
Definition example_mac (k m : str) : str := #"Ab1+" ++ k.

Lemma srs_roundtrip_witness :
  Reverse example_mac #"k"
    (Forward example_mac #"k" #"example.com" #"news@Brand.com" (100 * 86400)) (110 * 86400)
  = Some #"news@brand.com".
Proof.
  rewrite (srs_roundtrip example_mac #"k" #"example.com" #"news@Brand.com" #"news" #"brand.com"
             (100 * 86400) (110 * 86400)); [by vm_compute| |by vm_compute| | | |lia|lia].
  - intros k m. change (take 4 (example_mac k m)) with #"Ab1+".
    rewrite <- index_byte_None. by vm_compute.
  - rewrite <- index_byte_None. by vm_compute.
  - done.
  - rewrite <- index_byte_None. by vm_compute.
Defined.

Lemma srs_lowercased_bounce_refused_witness :
  Reverse example_mac #"k"
    (to_lower (Forward example_mac #"k" #"example.com" #"news@brand.com" 86400)) 86400 = None.
Proof.
  apply (srs_lowercased_bounce_refused example_mac #"k" #"example.com" #"news@brand.com"
           #"news" #"brand.com" 86400 86400); [|by vm_compute| | | |lia|by vm_compute].
  - intros k m. change (take 4 (example_mac k m)) with #"Ab1+".
    rewrite <- index_byte_None. by vm_compute.
  - rewrite <- index_byte_None. by vm_compute.
  - done.
  - rewrite <- index_byte_None. by vm_compute.
Defined.
