(* ===== verification/Routing.v ===== *)
(** * Recipient routing (internal/routing/routing.go)

    Expands a recipient into the local mailboxes it lands in and the external
    addresses it is forwarded to: mailboxes, aliases, distribution lists,
    returning SRS bounces and the catch-all, with loop and depth protection. *)

From S2P Require Import Prelude GoStrings Filter Config StorageResolver SRS.

Definition maxDepth : nat := 10.

Record Local := mkLocal { lMailbox : Mailbox; lFilters : list Rule }.

Record Plan := mkPlan { pLocal : list Local; pRemote : list str; pFound : bool }.

Definition noPlan : Plan := mkPlan [] [] false.

(** The mutable part of [resolver]: [seen] and [plan]. *)
Record resolver := mkResolver {
  rvSeen : gset str;
  rvLocal : list Local;
  rvRemote : list str }.

Definition mark (r : resolver) (key : str) : resolver :=
  mkResolver ({[key]} ∪ rvSeen r) (rvLocal r) (rvRemote r).
Definition add_local (r : resolver) (l : Local) : resolver :=
  mkResolver (rvSeen r) (rvLocal r ++ [l]) (rvRemote r).
Definition add_remote (r : resolver) (a : str) : resolver :=
  mkResolver (rvSeen r) (rvLocal r) (rvRemote r ++ [a]).

Definition findDomain (cfg : Config) (name : str) : option Domain :=
  List.find (fun d => dName d =s name) (cDomains cfg).

Definition findUser (cfg : Config) (email : str) : option User :=
  List.find (fun u => equal_fold (uEmail u) email) (cUsers cfg).

Definition filtersOf (u : option User) : list Rule :=
  match u with None => [] | Some u => uFilters u end.

(** Whether a resolved mailbox stores the message itself. *)
Definition stores (u : option User) : bool :=
  match u with
  | None => true
  | Some u => KeepsLocalCopy u || Nat.eqb (length (uForwardTo u)) 0
  end.

Section Routing.
Variable lookup_owner : str -> option (Z * Z).
Variable mac : str -> str -> str.
(** The clock read by [srs.Reverse], in seconds. *)
Variable now : Z.

(** [target], given the resolution of an address one level deeper. *)
Definition target (res : resolver -> str -> str -> resolver) (sameDomain : str)
    (r : resolver) (t : str) : resolver :=
  let t := trim_space t in
  if is_empty t then r
  else match Split t with
       | None => res r (to_lower t) sameDomain
       | Some (local, domain) => res r (to_lower local) domain
       end.

(** [resolve]; [remaining] is [maxDepth + 1 - depth]. *)
Fixpoint resolve (remaining : nat) (cfg : Config) (secret : str)
    (r : resolver) (local domain : str) : resolver :=
  match remaining with
  | 0%nat => r
  | S deeper =>
      let addr := local ++ #"@" ++ domain in
      let key := to_lower addr in
      if decide (key ∈ rvSeen r) then r
      else
        let r := mark r key in
        let expand := fold_left (target (resolve deeper cfg secret) domain) in
        match findDomain cfg domain with
        | None => add_remote r addr
        | Some d =>
            match StorageResolver.Resolve lookup_owner cfg addr with
            | Some mb =>
                let u := findUser cfg addr in
                let r := if stores u then add_local r (mkLocal mb (filtersOf u)) else r in
                match u with Some u => expand (uForwardTo u) r | None => r end
            | None =>
                match default [] (dAliases d !! to_lower local) with
                | (_ :: _) as targets => expand targets r
                | [] =>
                    if negb (is_empty secret) && IsSRS local then
                      match Reverse mac secret addr now with
                      | Some orig => add_remote r orig
                      | None => r
                      end
                    else expand (dCatchAll d) r
                end
            end
        end
  end.

Definition Resolve (cfg : Config) (srsSecret email : str) : Plan :=
  match Split email with
  | None => noPlan
  | Some (local, domain) =>
      match findDomain cfg domain with
      | None => noPlan
      | Some _ =>
          let r := resolve (S maxDepth) cfg srsSecret (mkResolver ∅ [] []) local domain in
          mkPlan (rvLocal r) (rvRemote r)
            (Nat.ltb 0 (length (rvLocal r)) || Nat.ltb 0 (length (rvRemote r)))
      end
  end.

(** ** The resolution invariant *)

Definition emails (ls : list Local) : list str := map (fun l => mbEmail (lMailbox l)) ls.

(** A local destination is a mailbox of a hosted domain. *)
Definition hosted (cfg : Config) (l : Local) : Prop :=
  exists addr, StorageResolver.Resolve lookup_owner cfg addr = Some (lMailbox l).

(** A remote destination is off-server, or the sender recovered from a
    genuine SRS address. *)
Definition relayable (cfg : Config) (secret a : str) : Prop :=
  (exists local domain, a = local ++ #"@" ++ domain /\ HasDomain cfg domain = false)
  \/ (exists srs, Reverse mac secret srs now = Some a).
(** The sender of some genuine SRS address. *)
Definition bounced_to (secret a : str) : Prop := exists srs, Reverse mac secret srs now = Some a.

Record inv (cfg : Config) (secret : str) (r : resolver) : Prop := {
  inv_nodup : NoDup (emails (rvLocal r));
  inv_seen : forall e, e ∈ emails (rvLocal r) -> e ∈ rvSeen r;
  inv_size : (length (rvLocal r) + length (rvRemote r) <= size (rvSeen r))%nat;
  inv_local : Forall (hosted cfg) (rvLocal r);
  inv_remote : Forall (relayable cfg secret) (rvRemote r);
  inv_direct : forall a, a ∈ rvRemote r -> to_lower a ∈ rvSeen r \/ bounced_to secret a;
  inv_once : forall i j a, i <> j -> rvRemote r !! i = Some a -> rvRemote r !! j = Some a -> bounced_to secret a }.

Lemma findDomain_HasDomain cfg d : findDomain cfg d = None <-> HasDomain cfg d = false.
Proof.
  unfold findDomain, HasDomain. induction (cDomains cfg) as [|x l IH]; simpl; [done|].
  destruct (dName x =s d); [done|exact IH].
Qed.

Section Step.
Variables (cfg : Config) (secret : str).
Notation inv := (inv cfg secret).

(** An unmarked key leaves room for one more destination. *)
Definition room (r : resolver) : Prop :=
  (S (length (rvLocal r) + length (rvRemote r)) <= size (rvSeen r))%nat.

Lemma inv_mark r key : inv r -> key ∉ rvSeen r -> inv (mark r key) /\ room (mark r key).
Proof.
  intros [Hn Hs Hz Hl Hr Hd Ho] Hk.
  assert (size ({[key]} ∪ rvSeen r) = S (size (rvSeen r))) as Hsz.
  { rewrite size_union by set_solver. by rewrite size_singleton. }
  split; [constructor; simpl; try done|unfold room; simpl; lia].
  - intros e He. set_solver.
  - lia.
  - intros a [Ha|Ha]%Hd; [left; set_solver|by right].
Qed.

(** An address joins the plan: one that is not there, or a sender recovered
    from an SRS address. *)
Lemma inv_add_remote r a :
  inv r -> room r -> relayable cfg secret a ->
  (to_lower a ∈ rvSeen r /\ a ∉ rvRemote r) \/ bounced_to secret a -> inv (add_remote r a).
Proof.
  intros [Hn Hs Hz Hl Hr Hd Ho] Hroom Ha Hnew. constructor; simpl; try done.
  - rewrite length_app. unfold room in Hroom. simpl. lia.
  - apply Forall_app_2; [done|by apply Forall_singleton].
  - intros b [Hb|Hb%list_elem_of_singleton]%elem_of_app; [by apply Hd|subst b]. destruct Hnew as [[? _]|?]; auto.
  - assert (forall i b, (rvRemote r ++ [a]) !! i = Some b -> (rvRemote r !! i = Some b) \/ (i = length (rvRemote r) /\ b = a)) as Hat.
    { intros i b [?|[? Hx]]%lookup_app_Some; [by left|right]. apply list_lookup_singleton_Some in Hx as [? <-]. split; [lia|done]. }
    intros i j b Hij [Hi|[-> ->]]%Hat [Hj|[-> ?]]%Hat; [by apply (Ho i j)| | |done]; subst;
      (destruct Hnew as [[_ Hno]|?]; [|done]); destruct Hno; by eapply list_elem_of_lookup_2.
Qed.

Lemma inv_add_local r l :
  inv r -> room r -> hosted cfg l ->
  mbEmail (lMailbox l) ∈ rvSeen r -> mbEmail (lMailbox l) ∉ emails (rvLocal r) ->
  inv (add_local r l).
Proof.
  intros [Hn Hs Hz Hl Hr Hd Ho] Hroom Hh Hin Hnew. unfold emails in *.
  constructor; simpl; try done; unfold emails; rewrite ?map_app; simpl.
  - apply NoDup_app. split_and!; [done|set_solver|apply NoDup_singleton].
  - set_solver.
  - rewrite length_app. unfold room in Hroom. simpl. lia.
  - apply Forall_app_2; [done|by apply Forall_singleton].
Qed.

Lemma inv_expand res domain ts :
  (forall r l d, wf_addr l d -> inv r -> inv (res r l d)) ->
  (exists l, wf_addr l domain) ->
  forall r, inv r -> inv (fold_left (target res domain) ts r).
Proof.
  intros Hres [l0 Hd]. induction ts as [|t ts IH]; intros r Hr; simpl; [done|].
  apply IH. unfold target. destruct (trim_space t) as [|c t'] eqn:Et; [done|].
  simpl. destruct (Split (c :: t')) as [[l d]|] eqn:Es.
  - apply Hres; [|done]. apply wf_addr_lower. by eapply Split_wf.
  - apply Hres; [|done]. destruct Hd. constructor; try done.
    intros x Hx. change (to_lower (c :: t')) with (lower_byte c :: to_lower t') in Hx.
    injection Hx as <-. rewrite lower_byte_space. apply (trim_space_head t). by rewrite Et.
Qed.

Lemma Resolve_key local domain mb :
  wf_addr local domain ->
  StorageResolver.Resolve lookup_owner cfg (local ++ #"@" ++ domain) = Some mb ->
  mbEmail mb = to_lower (local ++ #"@" ++ domain).
Proof.
  intros Hwf (l & d & Hsp & _ & He)%Resolve_email.
  rewrite Split_app in Hsp by done. injection Hsp as <- <-.
  rewrite He, !to_lower_app. by rewrite (wf_domain_lower _ _ Hwf).
Qed.

Lemma resolve_inv remaining r local domain :
  wf_addr local domain -> inv r -> inv (resolve remaining cfg secret r local domain).
Proof.
  revert r local domain. induction remaining as [|n IH]; intros r local domain Hwf Hr;
    simpl; [done|].
  set (key := to_lower (local ++ #"@" ++ domain)).
  case_decide as Hk; [done|].
  destruct (inv_mark r key Hr Hk) as [Hm Hroom].
  destruct (findDomain cfg domain) as [d|] eqn:Ed.
  2:{ apply inv_add_remote; [done..| |].
      - left. exists local, domain. split; [done|]. by apply findDomain_HasDomain.
      - destruct (decide (local ++ #"@" ++ domain ∈ rvRemote r)) as [Hin|Hin].
        + right. destruct (inv_direct _ _ _ Hr _ Hin) as [?|?]; [by destruct Hk|done].
        + left. split; [unfold key; simpl; set_solver|done]. }
  assert (forall r ts, inv r ->
    inv (fold_left (target (resolve n cfg secret) domain) ts r)) as Hexp.
  { intros. apply inv_expand; eauto. }
  destruct (StorageResolver.Resolve _ _ _) as [mb|] eqn:Emb.
  - pose proof (Resolve_key _ _ _ Hwf Emb) as Hemail.
    assert (inv (add_local (mark r key) (mkLocal mb (filtersOf
      (findUser cfg (local ++ #"@" ++ domain)))))) as Hadd.
    { apply inv_add_local; simpl; [done..| | |].
      - by eexists.
      - rewrite Hemail. set_solver.
      - rewrite Hemail. intros ?%(inv_seen _ _ _ Hr). done. }
    destruct (stores _), (findUser _ _); auto.
  - destruct (default [] _) as [|t ts]; [|by apply (Hexp _ (t :: ts))].
    destruct (negb (is_empty secret) && IsSRS local); [|by apply Hexp].
    destruct (Reverse _ _ _ _) as [orig|] eqn:Eo; [|done].
    apply inv_add_remote; [done..| |]; right; by eexists.
Qed.

Lemma inv_init : inv (mkResolver ∅ [] []).
Proof. constructor; simpl; repeat constructor; set_solver. Qed.
End Step.
End Routing.

(** ** The plan only grows *)

Section Growth.
Variable lookup_owner : str -> option (Z * Z).
Variable mac : str -> str -> str.
Variable now : Z.

Definition extends (r r' : resolver) : Prop :=
  rvLocal r `prefix_of` rvLocal r' /\ rvRemote r `prefix_of` rvRemote r'.

#[export] Instance extends_preorder : PreOrder extends.
Proof.
  split; [by intros r; split|].
  intros r1 r2 r3 [? ?] [? ?]. split; by etrans.
Qed.

Lemma extends_add_local r l : extends r (add_local r l).
Proof. split; simpl; [by eexists|done]. Qed.

Lemma extends_add_remote r a : extends r (add_remote r a).
Proof. split; simpl; [done|by eexists]. Qed.

Lemma extends_expand res domain ts r :
  (forall r l d, extends r (res r l d)) -> extends r (fold_left (target res domain) ts r).
Proof.
  intros Hres. revert r. induction ts as [|t ts IH]; intros r; simpl; [done|].
  etrans; [|apply IH]. unfold target.
  destruct (is_empty _); [done|]. destruct (Split _) as [[]|]; apply Hres.
Qed.

Lemma resolve_extends remaining cfg secret r local domain :
  extends r (resolve lookup_owner mac now remaining cfg secret r local domain).
Proof.
  revert r local domain. induction remaining as [|n IH]; intros r local domain; simpl; [done|].
  case_decide; [done|].
  set (m := mark r _). assert (extends r m) as Hm by done.
  etrans; [exact Hm|].
  destruct (findDomain cfg domain) as [d|]; [|apply extends_add_remote].
  destruct (StorageResolver.Resolve _ _ _) as [mb|].
  - set (u := findUser _ _).
    transitivity (if stores u then add_local m (mkLocal mb (filtersOf u)) else m).
    + destruct (stores u); [apply extends_add_local|done].
    + destruct u; [by apply extends_expand|done].
  - destruct (default [] _) as [|t ts];
      [|by apply (extends_expand (resolve _ _ _ _ _ _) _ (t :: ts))].
    destruct (_ && _); [|by apply extends_expand].
    destruct (Reverse _ _ _ _); [apply extends_add_remote|done].
Qed.

Lemma resolve_mailbox deeper cfg secret r local domain d mb :
  to_lower (local ++ #"@" ++ domain) ∉ rvSeen r ->
  findDomain cfg domain = Some d ->
  StorageResolver.Resolve lookup_owner cfg (local ++ #"@" ++ domain) = Some mb ->
  let u := findUser cfg (local ++ #"@" ++ domain) in
  stores u = true ->
  extends (add_local (mark r (to_lower (local ++ #"@" ++ domain))) (mkLocal mb (filtersOf u)))
    (resolve lookup_owner mac now (S deeper) cfg secret r local domain).
Proof.
  intros Hk Ed Hmb u Hu. cbn [resolve]. rewrite decide_False, Ed, Hmb by done.
  fold u. rewrite Hu. destruct u; [|done].
  apply extends_expand. intros. apply resolve_extends.
Qed.
End Growth.

(** ** Properties *)

(** C29. The plan of any recipient is sound: it names each mailbox at most
    once; every local destination is a mailbox of a hosted domain, every remote
    destination is off-server or the verified sender of a returning bounce; a
    remote address that is no such sender is named at most once (two SRS
    addresses may reverse to one sender); and the address is deliverable
    exactly when the plan is not empty. *)
Theorem routing_plan_sound (lookup_owner : str -> option (Z * Z)) (mac : str -> str -> str)
    (now : Z) (cfg : Config) (srsSecret email : str) :
  let p := Resolve lookup_owner mac now cfg srsSecret email in
  NoDup (emails (pLocal p))
  /\ Forall (hosted lookup_owner cfg) (pLocal p)
  /\ Forall (relayable mac now cfg srsSecret) (pRemote p)
  /\ (forall i j a, i <> j -> pRemote p !! i = Some a -> pRemote p !! j = Some a -> bounced_to mac now srsSecret a)
  /\ pFound p = negb (Nat.eqb (length (pLocal p) + length (pRemote p)) 0).
Proof.
  unfold Resolve. destruct (Split email) as [[local domain]|] eqn:Es;
    [|simpl; split_and!; by try constructor].
  destruct (findDomain cfg domain); [|simpl; split_and!; by try constructor].
  destruct (resolve_inv lookup_owner mac now cfg srsSecret (S maxDepth)
              (mkResolver ∅ [] []) local domain (Split_wf _ _ _ Es) (inv_init _ _ _ _ _))
    as [Hn _ _ Hl Hr _ Ho].
  cbv zeta. cbn [pLocal pRemote pFound]. split_and!; [done..|].
  by destruct (rvLocal _), (rvRemote _).
Qed.

(** A recipient that is a mailbox keeping its local copy is always
    delivered to that mailbox first, whatever it also forwards to. *)
Theorem routing_keeps_local_copy (lookup_owner : str -> option (Z * Z))
    (mac : str -> str -> str) (now : Z) (cfg : Config) (srsSecret local domain : str)
    (mb : Mailbox)
    (Haddr : wf_addr local domain)
    (Hmb : StorageResolver.Resolve lookup_owner cfg (local ++ #"@" ++ domain) = Some mb)
    (Hkeep : stores (findUser cfg (local ++ #"@" ++ domain)) = true) :
  let p := Resolve lookup_owner mac now cfg srsSecret (local ++ #"@" ++ domain) in
  pFound p = true /\ lMailbox <$> head (pLocal p) = Some mb.
Proof.
  unfold Resolve. rewrite Split_app by done.
  destruct (findDomain cfg domain) as [d|] eqn:Ed.
  2:{ exfalso. apply findDomain_HasDomain in Ed.
      apply Resolve_email in Hmb as (l & d' & Hsp & Hd & _).
      rewrite Split_app in Hsp by done. congruence. }
  destruct (resolve_mailbox lookup_owner mac now maxDepth cfg srsSecret
    (mkResolver ∅ [] []) local domain d mb) as [[k Hk] _]; [set_solver|done..|].
  cbv zeta. cbn [pLocal pFound]. rewrite Hk. done.
Qed.

(** A hosted domain with an alias loop, a list and a forwarding mailbox. *)
Definition example_storage : Storage := mkStorage #"virtual" [] [] [] [].
Definition example_user (email : string) (fwd : list str) (keep : option bool) : User :=
  mkUser (lit email) #"virtual" (#"/var/mail/" ++ lit email) [] fwd keep [] [].
Definition example_config : Config :=
  mkConfig
    [mkDomain #"example.com" example_storage []
       (<[#"loop" := [ #"pool"]]> (<[#"pool" := [ #"loop"; #"mario"]]> ∅)) [] 0]
    [example_user "mario@example.com" [ #"mario@gmail.com"] None;
     example_user "lucia@example.com" [] None]
    #"secret".

Example routing_loop :
  let p := Resolve (fun _ => None) example_mac 0 example_config #"secret" #"Loop@Example.com" in
  (emails (pLocal p), pRemote p, pFound p)
  = ([ #"mario@example.com"], [ #"mario@gmail.com"], true).
Proof. by vm_compute. Qed.

Lemma routing_keeps_local_copy_witness :
  let p := Resolve (fun _ => None) example_mac 0 example_config #"secret"
             (#"mario" ++ #"@" ++ #"example.com") in
  pFound p = true
  /\ lMailbox <$> head (pLocal p)
     = Some (mkMailbox #"mario@example.com" #"/var/mail/mario@example.com" (-1) (-1)).
Proof.
  apply routing_keeps_local_copy; [|by vm_compute|by vm_compute].
  constructor; [done|by intros x [= <-]|done| |by intros x [= <-]|done].
  rewrite <- index_byte_None. by vm_compute.
Defined.
