(* ===== verification/GoNet.v ===== *)
(** * Buffered connections: the parts of [bufio] and [net/textproto] in use

    The bytes of a client arrive in segments, one per read of the connection;
    when there are none left reads fail (the peer is gone or the deadline has
    passed).  A [bufio.Reader] keeps what it has read ahead.  The lemmas say
    that lines and dot-encoded bodies depend on the bytes only, never on how
    they were cut into segments. *)

From S2P Require Import Prelude GoStrings.

(** ** [bufio.Reader] *)

Record reader := mkReader { rdBuf : str; rdIn : list str }.

(** All the bytes still to come. *)
Definition stream (rd : reader) : str := rdBuf rd ++ concat (rdIn rd).

Inductive read_error := ErrBufferFull | ErrRead.

(** How many steps can be taken on a reader: bounds the loops below. *)
Definition pending (rd : reader) : nat := length (rdIn rd) + length (concat (rdIn rd)).

(** [fill]: one read, into the room left in a buffer of [size] bytes. *)
Definition fill (size : nat) (rd : reader) : option reader :=
  match rdIn rd with
  | [] => None
  | c :: rest =>
      let room := (size - length (rdBuf rd))%nat in
      Some (mkReader (rdBuf rd ++ take room c)
                     (match drop room c with [] => rest | c' => c' :: rest end))
  end.

(** [ReadSlice('\n')]: the line with its delimiter, or what there is of it and
    the reason it is cut short. *)
Fixpoint read_slice_fuel (fuel size : nat) (rd : reader) : str * option read_error * reader :=
  match index_byte LF (rdBuf rd) with
  | Some i => (take (S i) (rdBuf rd), None, mkReader (drop (S i) (rdBuf rd)) (rdIn rd))
  | None =>
      if Nat.leb size (length (rdBuf rd)) then (rdBuf rd, Some ErrBufferFull, mkReader [] (rdIn rd))
      else match fuel, fill size rd with
           | S f, Some rd' => read_slice_fuel f size rd'
           | _, _ => (rdBuf rd, Some ErrRead, mkReader [] (rdIn rd))
           end
  end.
Definition ReadSlice (size : nat) (rd : reader) : str * option read_error * reader :=
  read_slice_fuel (S (pending rd)) size rd.

(** [ReadString('\n')]: as [ReadSlice], past full buffers. *)
Fixpoint read_string_fuel (fuel size : nat) (rd : reader) : str * bool * reader :=
  match fuel with
  | 0%nat => ([], false, rd)
  | S f =>
      match ReadSlice size rd with
      | (l, None, rd') => (l, true, rd')
      | (l, Some ErrRead, rd') => (l, false, rd')
      | (l, Some ErrBufferFull, rd') =>
          let '(l', ok, rd'') := read_string_fuel f size rd' in (l ++ l', ok, rd'')
      end
  end.
Definition ReadString (size : nat) (rd : reader) : str * bool * reader :=
  read_string_fuel (S (length (stream rd))) size rd.

(** What [ReadSlice] returns, in terms of the bytes alone. *)
Definition slice_of (size : nat) (s : str) : str * option read_error * str :=
  match index_byte LF (take size s) with
  | Some i => (take (S i) s, None, drop (S i) s)
  | None => if Nat.leb size (length s) then (take size s, Some ErrBufferFull, drop size s)
            else (s, Some ErrRead, [])
  end.

(** ** [textproto.DotReader] *)

Inductive dot_state := BeginLine | Dot | DotCR | InCR | InData | DotEOF.

(** One byte: the next state and the bytes it releases.  A byte that shows
    that a held-back CR was an ordinary one is looked at again after it. *)
Definition data_step (c : ascii) : dot_state * str :=
  if Ascii.eqb c CR then (InCR, [])
  else if Ascii.eqb c LF then (BeginLine, [c])
  else (InData, [c]).

Definition dot_step (st : dot_state) (c : ascii) : dot_state * str :=
  match st with
  | BeginLine =>
      if Ascii.eqb c "." then (Dot, [])
      else if Ascii.eqb c CR then (InCR, [])
      else (InData, [c])
  | Dot =>
      if Ascii.eqb c CR then (DotCR, [])
      else if Ascii.eqb c LF then (DotEOF, [])
      else (InData, [c])
  | DotCR =>
      if Ascii.eqb c LF then (DotEOF, [])
      else let '(st', out) := data_step c in (st', CR :: out)
  | InCR =>
      if Ascii.eqb c LF then (BeginLine, [c])
      else let '(st', out) := data_step c in (st', CR :: out)
  | InData => data_step c
  | DotEOF => (DotEOF, [])
  end.

Definition at_eof (st : dot_state) : bool := match st with DotEOF => true | _ => false end.

(** The whole body read from the bytes, with what follows it. *)
Fixpoint dot_bytes (st : dot_state) (s : str) : option (str * str) :=
  if at_eof st then Some ([], s)
  else match s with
       | [] => None
       | c :: r =>
           let '(st', out) := dot_step st c in
           match dot_bytes st' r with
           | Some (body, rest) => Some (out ++ body, rest)
           | None => None
           end
       end.

(** [ReadByte]. *)
Fixpoint read_byte_fuel (fuel size : nat) (rd : reader) : option (ascii * reader) :=
  match rdBuf rd with
  | c :: b => Some (c, mkReader b (rdIn rd))
  | [] => match fuel, fill size rd with
          | S f, Some rd' => read_byte_fuel f size rd'
          | _, _ => None
          end
  end.
Definition ReadByte (size : nat) (rd : reader) : option (ascii * reader) :=
  read_byte_fuel (S (pending rd)) size rd.

(** [io.ReadFull] of [n] bytes. *)
Fixpoint ReadFull (n size : nat) (rd : reader) : option str * reader :=
  match n with
  | 0%nat => (Some [], rd)
  | S k =>
      match ReadByte size rd with
      | None => (None, rd)
      | Some (c, rd') => let '(r, rd'') := ReadFull k size rd' in (cons c <$> r, rd'')
      end
  end.

Fixpoint read_dot_fuel (fuel size : nat) (st : dot_state) (rd : reader) : option (str * reader) :=
  if at_eof st then Some ([], rd)
  else match fuel, ReadByte size rd with
       | S f, Some (c, rd') =>
           let '(st', out) := dot_step st c in
           match read_dot_fuel f size st' rd' with
           | Some (body, rd'') => Some (out ++ body, rd'')
           | None => None
           end
       | _, _ => None
       end.

(** Reading the [DotReader] of a connection to its end. *)
Definition ReadDot (size : nat) (rd : reader) : option (str * reader) :=
  read_dot_fuel (S (length (stream rd))) size BeginLine rd.

(** ** The client's side of a dot-encoded body *)

Definition stuff_line (l : str) : str := (if has_prefix #"." l then #"." else []) ++ l ++ CRLF.
Definition dot_stuff (ls : list str) : str := concat (map stuff_line ls) ++ #"." ++ CRLF.

(** A line has no CR nor LF in it. *)
Definition plain_line (l : str) : Prop := CR ∉ l /\ LF ∉ l.

(** Lines as they go over the wire. *)
Definition on_wire (ls : list str) : str := concat (map (fun l => l ++ CRLF) ls).

Lemma on_wire_cons l ls : on_wire (l :: ls) = l ++ CRLF ++ on_wire ls.
Proof. unfold on_wire. cbn [map concat]. by rewrite <- app_assoc. Qed.
Lemma on_wire_app l1 l2 : on_wire (l1 ++ l2) = on_wire l1 ++ on_wire l2.
Proof. unfold on_wire. by rewrite map_app, concat_app. Qed.
Lemma length_on_wire ls : (length ls <= length (on_wire ls))%nat.
Proof.
  induction ls as [|l ls IH]; [done|]. rewrite on_wire_cons, !length_app. change (length CRLF) with 2%nat. cbn [length]. lia.
Qed.

(** ** Connections *)

(** What a handler sees of a connection: its reader, the lines it has written
    and how many more writes the peer takes ([None]: any number). *)
Record conn := mkConn {
  cnReader : reader;
  cnOut : list str;
  cnWrites : option nat }.

Definition with_reader (rd : reader) (c : conn) : conn := mkConn rd (cnOut c) (cnWrites c).

(** Lines through the buffered writer, flushed together; [false] is an
    error, and then every later write fails too. *)
Definition write_lines (ls : list str) (c : conn) : bool * conn :=
  match cnWrites c with
  | None => (true, mkConn (cnReader c) (cnOut c ++ ls) None)
  | Some 0%nat => (false, c)
  | Some (S n) => (true, mkConn (cnReader c) (cnOut c ++ ls) (Some n))
  end.

(** ** Readers and bytes *)

Lemma stream_fill size rd rd' : fill size rd = Some rd' -> stream rd' = stream rd.
Proof.
  unfold fill, stream. destruct (rdIn rd) as [|c rest]; [done|]. intros [= <-]. simpl.
  set (room := (size - length (rdBuf rd))%nat). rewrite <- app_assoc. f_equal.
  transitivity ((take room c ++ drop room c) ++ concat rest); [|by rewrite take_drop].
  rewrite <- app_assoc. f_equal. by destruct (drop room c).
Qed.

Lemma fill_pending size rd rd' :
  (length (rdBuf rd) < size)%nat -> fill size rd = Some rd' -> (pending rd' < pending rd)%nat.
Proof.
  unfold fill, pending. intros Hs. destruct (rdIn rd) as [|c rest]; [done|]. intros [= <-]. simpl.
  set (room := (size - length (rdBuf rd))%nat).
  pose proof (length_drop c room) as E. rewrite length_app.
  destruct (drop room c) as [|x d]; simpl in *; rewrite ?length_app; simpl in *; lia.
Qed.

Lemma fill_buf size rd rd' :
  (length (rdBuf rd) < size)%nat -> fill size rd = Some rd' -> (length (rdBuf rd') <= size)%nat.
Proof.
  unfold fill. destruct (rdIn rd) as [|c rest]; [done|]. intros ? [= <-]. simpl.
  rewrite length_app, length_take. lia.
Qed.

Lemma fill_None size rd : fill size rd = None -> rdIn rd = [].
Proof. unfold fill. by destruct (rdIn rd). Qed.

Lemma index_byte_app_l c s t i : index_byte c s = Some i -> index_byte c (s ++ t) = Some i.
Proof.
  revert i. induction s as [|x s IH]; intros i; simpl; [done|].
  destruct (Ascii.eqb x c); [done|]. destruct (index_byte c s) as [j|]; [|done].
  intros [= <-]. by rewrite (IH j eq_refl).
Qed.

Lemma index_byte_lt c s i : index_byte c s = Some i -> (i < length s)%nat.
Proof.
  intros [E _]%index_byte_Some. rewrite E, length_app, length_take. simpl.
  apply (f_equal length) in E. rewrite length_app, length_take in E. simpl in E. lia.
Qed.

(** The line read depends on the bytes to come only. *)
Lemma read_slice_spec size : forall fuel rd,
  (pending rd < fuel)%nat -> (length (rdBuf rd) <= size)%nat ->
  let '(l, e, rd') := read_slice_fuel fuel size rd in
  slice_of size (stream rd) = (l, e, stream rd') /\ (length (rdBuf rd') <= size)%nat.
Proof.
  induction fuel as [|fuel IH]; intros rd Hf Hb; [lia|]. cbn [read_slice_fuel].
  destruct (index_byte LF (rdBuf rd)) as [i|] eqn:Ei.
  { pose proof (index_byte_lt _ _ _ Ei). unfold slice_of, stream. simpl.
    rewrite take_app_ge by done. rewrite (index_byte_app_l _ _ _ _ Ei).
    rewrite take_app_le, drop_app_le, length_drop by lia. split; [done|lia]. }
  destruct (Nat.leb_spec size (length (rdBuf rd))) as [Hs|Hs].
  { unfold slice_of, stream. simpl. assert (length (rdBuf rd) = size) as El by lia.
    rewrite take_app_le, take_ge by lia. rewrite Ei, length_app.
    rewrite (proj2 (Nat.leb_le _ _)) by lia. rewrite <- El, drop_app_length. split; [done|simpl; lia]. }
  destruct (fill size rd) as [rd1|] eqn:Ef.
  - pose proof (fill_pending _ _ _ Hs Ef). pose proof (fill_buf _ _ _ Hs Ef).
    specialize (IH rd1 ltac:(lia) ltac:(lia)). by rewrite (stream_fill _ _ _ Ef) in IH.
  - apply fill_None in Ef. unfold slice_of, stream. rewrite Ef. simpl.
    rewrite !app_nil_r, take_ge, Ei by lia. rewrite (proj2 (Nat.leb_gt _ _)) by lia.
    split; [done|simpl; lia].
Qed.

Lemma ReadSlice_spec size rd :
  (length (rdBuf rd) <= size)%nat ->
  let '(l, e, rd') := ReadSlice size rd in
  slice_of size (stream rd) = (l, e, stream rd') /\ (length (rdBuf rd') <= size)%nat.
Proof. intros Hb. by apply read_slice_spec; [lia|]. Qed.

Lemma slice_of_split size s l e s' : slice_of size s = (l, e, s') -> s = l ++ s'.
Proof.
  unfold slice_of. repeat break_match; intros [= <- <- <-]; by rewrite ?take_drop, ?app_nil_r.
Qed.

(** A line that fits in the buffer comes back whole. *)
Lemma slice_of_line size l s :
  LF ∉ l -> (length l < size)%nat -> slice_of size (l ++ LF :: s) = (l ++ [LF], None, s).
Proof.
  intros Hl Hs. unfold slice_of.
  assert (index_byte LF (take size (l ++ LF :: s)) = Some (length l)) as ->.
  { rewrite take_app_ge by lia. destruct (size - length l)%nat eqn:E; [lia|]. by apply index_byte_app. }
  replace (l ++ LF :: s) with ((l ++ [LF]) ++ s) by (by rewrite <- app_assoc).
  rewrite take_app_length', drop_app_length' by (rewrite length_app; simpl; lia). done.
Qed.

Lemma read_byte_spec size : forall fuel rd,
  (0 < size)%nat -> (pending rd < fuel)%nat -> (length (rdBuf rd) <= size)%nat ->
  match read_byte_fuel fuel size rd with
  | Some (c, rd') => stream rd = c :: stream rd' /\ (length (rdBuf rd') <= size)%nat
  | None => stream rd = []
  end.
Proof.
  induction fuel as [|fuel IH]; intros rd Hs Hf Hb; [lia|]. cbn [read_byte_fuel].
  destruct rd as [buf ins]. cbn [rdBuf rdIn]. destruct buf as [|c b].
  - destruct (fill size (mkReader [] ins)) as [rd1|] eqn:Ef.
    + pose proof (fill_pending size (mkReader [] ins) rd1 ltac:(simpl; lia) Ef).
      pose proof (fill_buf size (mkReader [] ins) rd1 ltac:(simpl; lia) Ef).
      rewrite <- (stream_fill _ _ _ Ef). apply IH; lia.
    + apply fill_None in Ef. simpl in Ef. by rewrite Ef.
  - unfold stream. simpl in *. split; [done|lia].
Qed.

(** The body read depends on the bytes to come only. *)
Lemma read_dot_spec size : forall fuel st rd,
  (0 < size)%nat -> (length (stream rd) < fuel)%nat -> (length (rdBuf rd) <= size)%nat ->
  match read_dot_fuel fuel size st rd with
  | Some (body, rd') => dot_bytes st (stream rd) = Some (body, stream rd') /\ (length (rdBuf rd') <= size)%nat
  | None => dot_bytes st (stream rd) = None
  end.
Proof.
  induction fuel as [|fuel IH]; intros st rd Hs Hf Hb; [lia|]. cbn [read_dot_fuel].
  destruct (at_eof st) eqn:Est; [destruct (stream rd) eqn:E; cbn [dot_bytes]; by rewrite Est|].
  pose proof (read_byte_spec size (S (pending rd)) rd Hs ltac:(lia) Hb) as HB. fold (ReadByte size rd) in HB.
  destruct (ReadByte size rd) as [[c rd1]|].
  - destruct HB as [E Hb1]. rewrite E. rewrite E in Hf. cbn [dot_bytes]. rewrite Est.
    destruct (dot_step st c) as [st' out]. specialize (IH st' rd1 Hs ltac:(simpl in Hf; lia) Hb1).
    destruct (read_dot_fuel fuel size st' rd1) as [[body rd2]|]; [|by rewrite IH].
    destruct IH as [-> ?]. done.
  - rewrite HB. cbn [dot_bytes]. by rewrite Est.
Qed.

Lemma ReadDot_spec size rd :
  (0 < size)%nat -> (length (rdBuf rd) <= size)%nat ->
  match ReadDot size rd with
  | Some (body, rd') =>
      dot_bytes BeginLine (stream rd) = Some (body, stream rd') /\ (length (rdBuf rd') <= size)%nat
  | None => dot_bytes BeginLine (stream rd) = None
  end.
Proof. intros Hs Hb. by apply read_dot_spec; [|lia|]. Qed.

Lemma dot_bytes_shrinks s : forall st body rest,
  dot_bytes st s = Some (body, rest) -> (length rest <= length s)%nat.
Proof.
  induction s as [|c s IH]; intros st body rest; cbn [dot_bytes]; destruct (at_eof st).
  1-3: by intros [= <- <-] || intros [=].
  destruct (dot_step st c) as [st' out]. destruct (dot_bytes st' s) as [[b r]|] eqn:E; [|done].
  intros [= <- <-]. apply IH in E. simpl. lia.
Qed.

(** [ReadString] reads up to and including the next LF, whatever its length. *)
Definition string_of (s : str) : str * bool * str :=
  match index_byte LF s with
  | Some i => (take (S i) s, true, drop (S i) s)
  | None => (s, false, [])
  end.

Lemma read_string_spec size : forall fuel rd,
  (0 < size)%nat -> (length (stream rd) < fuel)%nat -> (length (rdBuf rd) <= size)%nat ->
  let '(l, ok, rd') := read_string_fuel fuel size rd in
  string_of (stream rd) = (l, ok, stream rd') /\ (length (rdBuf rd') <= size)%nat.
Proof.
  induction fuel as [|fuel IH]; intros rd Hs Hf Hb; [lia|]. cbn [read_string_fuel].
  pose proof (ReadSlice_spec size rd Hb) as HR. destruct (ReadSlice size rd) as [[l e] rd1].
  destruct HR as [HR Hb1]. unfold slice_of in HR.
  destruct (index_byte LF (take size (stream rd))) as [i|] eqn:Ei.
  - injection HR as <- <- E2. unfold string_of.
    rewrite <- (take_drop size (stream rd)) at 1. rewrite (index_byte_app_l _ _ _ _ Ei). by rewrite E2.
  - destruct (Nat.leb_spec size (length (stream rd))) as [Hl|Hl]; injection HR as <- <- E2.
    + assert (length (stream rd1) < fuel)%nat as Hf1 by (rewrite <- E2, length_drop; lia).
      specialize (IH rd1 Hs Hf1 Hb1).
      destruct (read_string_fuel fuel size rd1) as [[l' ok] rd2]. destruct IH as [IH Hb2].
      split; [|done]. rewrite <- (take_drop size (stream rd)) at 1. rewrite E2.
      revert IH. generalize (stream rd1). intros t. apply index_byte_None in Ei.
      unfold string_of. intros IH. destruct (index_byte LF t) as [j|] eqn:Ej; injection IH as <- <- <-.
      * apply index_byte_Some in Ej as [Et Hn]. rewrite Et at 1.
        rewrite app_assoc, index_byte_app by set_solver.
        assert (length (take j t) = j) as Elj
          by (rewrite length_take_le; [done|apply (f_equal length) in Et;
              rewrite length_app, length_take in Et; simpl in Et; lia]).
        rewrite length_app, Elj, <- Nat.add_succ_r. by rewrite take_app_add, drop_app_add.
      * apply index_byte_None in Ej. rewrite (proj2 (index_byte_None _ _)); [done|set_solver].
    + unfold string_of. rewrite take_ge in Ei by lia. rewrite Ei, <- E2. done.
Qed.

Lemma ReadString_spec size rd :
  (0 < size)%nat -> (length (rdBuf rd) <= size)%nat ->
  let '(l, ok, rd') := ReadString size rd in
  string_of (stream rd) = (l, ok, stream rd') /\ (length (rdBuf rd') <= size)%nat.
Proof. intros Hs Hb. by apply read_string_spec; [|lia|]. Qed.

(** ** Dot encoding and back *)

Lemma dot_bytes_data l s :
  plain_line l ->
  dot_bytes InData (l ++ CRLF ++ s) =
  (fun br : str * str => (l ++ LF :: br.1, br.2)) <$> dot_bytes BeginLine s.
Proof.
  intros [HC HL]. induction l as [|c l IH].
  - cbn. destruct (dot_bytes BeginLine s) as [[b r]|]; done.
  - rewrite not_elem_of_cons in HC, HL. destruct HC as [HC HC'], HL as [HL HL'].
    specialize (IH HC' HL'). cbn [app dot_bytes at_eof dot_step]. unfold data_step.
    destruct (Ascii.eqb_spec c CR) as [->|_]; [done|]. destruct (Ascii.eqb_spec c LF) as [->|_]; [done|].
    rewrite IH. by destruct (dot_bytes BeginLine s) as [[b r]|].
Qed.

Lemma dot_bytes_line l s :
  plain_line l ->
  dot_bytes BeginLine (stuff_line l ++ s) =
  (fun br : str * str => (l ++ LF :: br.1, br.2)) <$> dot_bytes BeginLine s.
Proof.
  intros Hl. unfold stuff_line. destruct l as [|c l].
  { cbn. destruct (dot_bytes BeginLine s) as [[b r]|]; done. }
  pose proof (dot_bytes_data (c :: l) s Hl) as HD. destruct Hl as [HC HL].
  rewrite not_elem_of_cons in HC, HL. destruct HC as [HC _], HL as [HL _].
  cbn [app dot_bytes at_eof dot_step] in HD. unfold data_step in HD.
  destruct (Ascii.eqb_spec c CR) as [->|]; [done|]. destruct (Ascii.eqb_spec c LF) as [->|]; [done|].
  assert (has_prefix #"." (c :: l) = Ascii.eqb "." c) as -> by (cbn; apply andb_true_r).
  destruct (Ascii.eqb_spec "." c) as [<-|Hd].
  - cbn [lit list_ascii_of_string app dot_bytes at_eof dot_step]. rewrite !Ascii.eqb_refl. cbn [dot_bytes at_eof dot_step app].
    destruct (Ascii.eqb_spec "." CR); [done|]. destruct (Ascii.eqb_spec "." LF); [done|].
    revert HD. rewrite <- (app_assoc l). destruct (dot_bytes InData (l ++ CRLF ++ s)) as [[b r]|]; done.
  - cbn [app dot_bytes at_eof dot_step]. destruct (Ascii.eqb_spec c "."); [by subst|].
    destruct (Ascii.eqb_spec c CR); [done|]. change ([] ++ c :: l ++ CRLF) with (c :: l ++ CRLF).
    revert HD. rewrite <- (app_assoc l). destruct (dot_bytes InData (l ++ CRLF ++ s)) as [[b r]|]; done.
Qed.

(** A dot-encoded list of lines is read back, each with a bare LF. *)
Lemma dot_bytes_stuff ls s :
  Forall plain_line ls ->
  dot_bytes BeginLine (dot_stuff ls ++ s) = Some (concat (map (fun l => l ++ [LF]) ls), s).
Proof.
  unfold dot_stuff. induction 1 as [|l ls Hl _ IH]; cbn [map concat].
  - destruct s; reflexivity.
  - rewrite <- !app_assoc in *. rewrite (dot_bytes_line l _ Hl). rewrite IH. done.
Qed.
