(* ===== verification/StateM.v ===== *)
(** * Handlers as a state monad

    The sessions of the protocol servers thread a state through their
    handlers.  [keeps R m] says that [m] leads from every state to one that
    [R] relates to it; relations are kept through sequencing and branching,
    which [keeps_auto] does. *)

From S2P Require Import Prelude.

Definition SM (S A : Type) : Type := S -> A * S.

#[export] Instance SM_ret {S} : MRet (SM S) := fun A a st => (a, st).
#[export] Instance SM_bind {S} : MBind (SM S) := fun A B f m st => let '(a, st') := m st in f a st'.

Create HintDb session.

Section Keeps.
Context {S : Type}.

Definition keeps (R : relation S) {A} (m : SM S A) : Prop := forall st, R st (m st).2.

Context (R : relation S) `{!PreOrder R}.

Lemma keeps_at_bind {A B} st (m : SM S A) (f : A -> SM S B) :
  R st (m st).2 -> (forall a st', R st st' -> R st' (f a st').2) -> R st ((m ≫= f) st).2.
Proof.
  intros Hm Hf. unfold mbind, SM_bind. destruct (m st) as [a st'] eqn:Em. simpl in Hm.
  transitivity st'; [done|by apply Hf].
Qed.

Lemma keeps_bind {A B} (m : SM S A) (f : A -> SM S B) :
  keeps R m -> (forall a, keeps R (f a)) -> keeps R (m ≫= f).
Proof. intros Hm Hf st. apply keeps_at_bind; [apply Hm|intros; apply Hf]. Qed.

Lemma keeps_ret {A} (a : A) : keeps R (mret a).
Proof. intros st. reflexivity. Qed.

(** Reading a part of the state. *)
Lemma keeps_get {A} (f : S -> A) : keeps R (fun st => (f st, st)).
Proof. intros st. reflexivity. Qed.
End Keeps.

Lemma keeps_weaken {S A} (R R' : relation S) (m : SM S A) :
  subrelation R R' -> keeps R m -> keeps R' m.
Proof. intros HR Hm st. apply HR, Hm. Qed.

(** Goes through a handler: sequencing, branching and pattern matching. *)
Ltac keeps_step :=
  cbv zeta;
  match goal with
  | |- keeps _ (mret _) => apply keeps_ret; exact _
  | |- keeps _ (_ ≫= _) => apply keeps_bind; [exact _| |intros]
  | |- keeps _ (match ?x with _ => _ end) => destruct x
  | |- forall _, _ => intros
  | |- keeps _ _ => apply keeps_get; exact _
  end.
Ltac keeps_auto := repeat (first [solve [eauto with session]|keeps_step]).

(** ** What holds after a handler *)

Section Ends.
Context {S : Type}.

Definition ends {A} (m : SM S A) (Q : A -> S -> Prop) (st : S) : Prop := Q (m st).1 (m st).2.

Lemma ends_bind {A B} (m : SM S A) (f : A -> SM S B) Q st :
  ends m (fun a => ends (f a) Q) st -> ends (m ≫= f) Q st.
Proof. unfold ends, mbind, SM_bind. by destruct (m st). Qed.
Lemma ends_ret {A} (a : A) Q st : Q a st -> ends (mret a) Q st.
Proof. done. Qed.
Lemma ends_get {A} (f : S -> A) (Q : A -> S -> Prop) st : Q (f st) st -> ends (fun st => (f st, st)) Q st.
Proof. done. Qed.
Lemma ends_keeps (R : relation S) {A} (m : SM S A) (Q : A -> S -> Prop) st :
  keeps R m -> (forall st', R st st' -> Q (m st).1 st') -> ends m Q st.
Proof. intros Hm H. apply H, Hm. Qed.
Lemma ends_mono {A} (m : SM S A) (Q Q' : A -> S -> Prop) st :
  (forall a st', Q a st' -> Q' a st') -> ends m Q st -> ends m Q' st.
Proof. intros H. apply H. Qed.
End Ends.
