(* ===== verification/GoOS.v ===== *)
(** * The operating system as the code sees it: files, clock, randomness

    A world of files and directories under an absolute, cleaned path; every
    call may fail, as the schedule [wFaults] says; clock and random readings
    come from [wTicks] and [wRand].  Programs over the world are written in a
    state and error monad in the style of Go's (value, error) pairs: an error
    ends the block unless it is caught with [try]. *)

From S2P Require Import Prelude GoStrings.

Create HintDb frames.

(** ** Errors and faults *)

Inductive error :=
| ENOENT                     (** [os.IsNotExist] holds of it *)
| EEXIST
| EIO
| ErrText (s : str)          (** [errors.New], [fmt.Errorf] *)
| ErrWrap (e : error).       (** [fmt.Errorf] with [%w] *)

Definition IsNotExist (e : error) : bool := match e with ENOENT => true | _ => false end.

(** What happens to the next call: it works, it fails, or (for a write or a
    read) it fails after [n] bytes. *)
Inductive fault := NoFault | Fault | Short (n : nat).

(** ** The world *)

(** An absolute path after [filepath.Clean]: its components. *)
Abbreviation path := (list str).

Record file := mkFile { fData : str; fTime : Z }.

Record world := mkWorld {
  wFiles : gmap path file;
  wDirs : gset path;
  wFaults : list fault;
  wNow : Z;              (** nanoseconds since the epoch *)
  wTicks : list Z;       (** how much the clock advances at each reading *)
  wRand : list Z;        (** the readings of [rand.Uint32] *)
  wSeq : Z;              (** the delivery counter of package maildir *)
  wPid : Z;
  wHost : str }.         (** the host token of Maildir names *)

Definition set_files (fs : gmap path file) (w : world) : world :=
  mkWorld fs (wDirs w) (wFaults w) (wNow w) (wTicks w) (wRand w) (wSeq w) (wPid w) (wHost w).
Definition set_dirs (ds : gset path) (w : world) : world :=
  mkWorld (wFiles w) ds (wFaults w) (wNow w) (wTicks w) (wRand w) (wSeq w) (wPid w) (wHost w).
Definition set_faults (fs : list fault) (w : world) : world :=
  mkWorld (wFiles w) (wDirs w) fs (wNow w) (wTicks w) (wRand w) (wSeq w) (wPid w) (wHost w).

(** ** The monad *)

Definition M (A : Type) : Type := world -> result error A * world.

#[export] Instance M_ret : MRet M := fun A a w => (Ok a, w).
#[export] Instance M_bind : MBind M := fun A B f m w =>
  match m w with
  | (Ok a, w') => f a w'
  | (Err e, w') => (Err e, w')
  end.

Definition throw {A} (e : error) : M A := fun w => (Err e, w).
Definition try {A} (m : M A) : M (result error A) := fun w =>
  let '(r, w') := m w in (Ok r, w').
Definition of_result {A} (r : result error A) : M A := fun w => (r, w).
Definition get_world : M world := fun w => (Ok w, w).
Definition modify (f : world -> world) : M unit := fun w => (Ok tt, f w).
(** [fmt.Errorf("...: %w", err)] around a block. *)
Definition wrap {A} (m : M A) : M A := fun w =>
  match m w with
  | (Ok a, w') => (Ok a, w')
  | (Err e, w') => (Err (ErrWrap e), w')
  end.

Fixpoint for_each {A} (l : list A) (body : A -> M unit) : M unit :=
  match l with
  | [] => mret tt
  | x :: r => body x ≫= fun _ => for_each r body
  end.

(** ** Calls *)

Definition next_fault : M fault := fun w =>
  match wFaults w with
  | [] => (Ok NoFault, w)
  | f :: r => (Ok f, set_faults r w)
  end.

(** A call that either works or fails without effect. *)
Definition syscall {A} (body : M A) : M A :=
  f ← next_fault; match f with NoFault => body | _ => throw EIO end.

(** [time.Now], in nanoseconds. *)
Definition time_now : M Z := fun w =>
  let '(d, ticks) := match wTicks w with [] => (0, []) | d :: r => (d, r) end in
  let t := wNow w + d in
  (Ok t, mkWorld (wFiles w) (wDirs w) (wFaults w) t ticks (wRand w) (wSeq w) (wPid w) (wHost w)).

Definition rand_uint32 : M Z := fun w =>
  let '(d, r) := match wRand w with [] => (0, []) | d :: r => (u32 d, r) end in
  (Ok d, mkWorld (wFiles w) (wDirs w) (wFaults w) (wNow w) (wTicks w) r (wSeq w) (wPid w) (wHost w)).

(** [seq.Add(1)]: an atomic 64-bit counter. *)
Definition next_seq : M Z := fun w =>
  let s := u64 (wSeq w + 1) in
  (Ok s, mkWorld (wFiles w) (wDirs w) (wFaults w) (wNow w) (wTicks w) (wRand w) s (wPid w) (wHost w)).

(** ** Paths *)

Definition clean_step (p : path) (comp : str) : path :=
  if (comp =s []) || (comp =s #".") then p
  else if comp =s #".." then removelast p
  else p ++ [comp].

(** [filepath.Join(p, elem)]: the elements are joined and the result cleaned. *)
Definition join_path (p : path) (elem : str) : path :=
  fold_left clean_step (split "/" elem) p.

(** The cleaned path of an absolute path string. *)
Definition abs_path (s : str) : path := join_path [] s.

(** A path as a string. *)
Definition path_text (p : path) : str := mjoin (map (cons "/"%char) p).

(** A name that stays one component: no separator and neither empty, ["."]
    nor [".."]. *)
Definition plain (s : str) : Prop :=
  ("/"%char : ascii) ∉ s /\ s <> [] /\ s <> #"." /\ s <> #"..".

(** [plain], decided. *)
Definition plain_b (n : str) : bool :=
  negb (existsb (Ascii.eqb "/") n) && negb (n =s []) && negb (n =s #".") && negb (n =s #"..").
Lemma plain_b_ok n : plain_b n = true -> plain n.
Proof.
  unfold plain_b, plain. intros H. to_prop. repeat match goal with H : _ = false |- _ => apply str_eqb_neq in H end.
  split_and!; try done. intros Hin. apply not_true_iff_false in H. apply H, existsb_exists. exists "/"%char.
  split; [by apply list_elem_of_In|apply Ascii.eqb_refl].
Qed.

Lemma join_plain p s : plain s -> join_path p s = p ++ [s].
Proof.
  intros (Hs & H0 & H1 & H2). unfold join_path. rewrite split_no_sep by done. simpl.
  unfold clean_step.
  by rewrite (proj2 (str_eqb_neq s [])), (proj2 (str_eqb_neq s #".")), (proj2 (str_eqb_neq s #"..")).
Qed.

Lemma plain_app s t : "/"%char ∉ s -> "/"%char ∉ t -> (2 < length (s ++ t))%nat -> plain (s ++ t).
Proof.
  intros Hs Ht Hl. split_and!; [set_solver|..]; intros E; rewrite E in Hl; simpl in Hl; lia.
Qed.

Definition parent (p : path) : path := removelast p.

Lemma parent_snoc p s : parent (p ++ [s]) = p.
Proof. apply removelast_last. Qed.

(** ** Files *)

(** The ancestors of a path, itself included. *)
Fixpoint prefixes (p : path) : list path :=
  match p with
  | [] => [ [] ]
  | c :: r => [] :: map (cons c) (prefixes r)
  end.

Definition MkdirAll (p : path) : M unit :=
  syscall (modify (fun w => set_dirs (list_to_set (prefixes p) ∪ wDirs w) w)).

(** A directory entry: its name and, for a file, its contents and time. *)
Record dirent := mkDirent { deName : str; deFile : option file }.

Definition file_entries (w : world) (d : path) : list dirent :=
  omap (fun kv =>
    match last kv.1 with
    | Some n => if decide (parent kv.1 = d) then Some (mkDirent n (Some kv.2)) else None
    | None => None
    end) (map_to_list (wFiles w)).

Definition dir_entries (w : world) (d : path) : list dirent :=
  omap (fun p =>
    match last p with
    | Some n => if decide (parent p = d) then Some (mkDirent n None) else None
    | None => None
    end) (elements (wDirs w)).

(** [os.ReadDir]: the entries of a directory, sorted by name. *)
Definition ReadDir (d : path) : M (list dirent) :=
  syscall (w ← get_world;
           if decide (d ∈ wDirs w)
           then mret (sort_slice (fun a b => str_ltb (deName a) (deName b))
                                 (file_entries w d ++ dir_entries w d))
           else throw ENOENT).

Definition Stat (p : path) : M unit :=
  syscall (w ← get_world;
           if decide (p ∈ wDirs w) then mret tt
           else match wFiles w !! p with Some _ => mret tt | None => throw ENOENT end).

Definition ReadFile (p : path) : M str :=
  syscall (w ← get_world;
           match wFiles w !! p with Some f => mret (fData f) | None => throw ENOENT end).

(** [os.Open] and a scanner over the file: a read error after [n] bytes ends
    the scan silently. *)
Definition OpenScan (p : path) : M str :=
  f ← next_fault;
  w ← get_world;
  match f with
  | Fault => throw EIO
  | _ => match wFiles w !! p with
         | Some x => mret (match f with Short n => take n (fData x) | _ => fData x end)
         | None => throw ENOENT
         end
  end.

Definition store_file (p : path) (data : str) : M unit :=
  modify (fun w => set_files (<[p := mkFile data (wNow w)]> (wFiles w)) w).

(** [os.WriteFile]: truncates or creates; a failing write leaves a prefix. *)
Definition WriteFile (p : path) (data : str) : M unit :=
  f ← next_fault;
  w ← get_world;
  if decide (parent p ∈ wDirs w) then
    match f with
    | NoFault => store_file p data
    | Fault => throw EIO
    | Short n => store_file p (take n data) ≫= fun _ => throw EIO
    end
  else throw ENOENT.

(** [os.Rename] of a file: replaces the target. *)
Definition Rename (old new : path) : M unit :=
  syscall (w ← get_world;
           match wFiles w !! old with
           | None => throw ENOENT
           | Some f =>
               if decide (parent new ∈ wDirs w)
               then modify (set_files (<[new := f]> (delete old (wFiles w))))
               else throw ENOENT
           end).

Definition Remove (p : path) : M unit :=
  syscall (w ← get_world;
           match wFiles w !! p with
           | None => throw ENOENT
           | Some _ => modify (set_files (delete p (wFiles w)))
           end).

Definition RemoveAll (p : path) : M unit :=
  syscall (modify (fun w =>
    mkWorld (filter (fun kv => ~ p `prefix_of` kv.1) (wFiles w))
            (filter (fun d => ~ p `prefix_of` d) (wDirs w))
            (wFaults w) (wNow w) (wTicks w) (wRand w) (wSeq w) (wPid w) (wHost w))).

(** [os.Chtimes]; callers ignore its error. *)
Definition Chtimes (p : path) (t : Z) : M unit :=
  syscall (modify (fun w => set_files (alter (fun f => mkFile (fData f) t) p (wFiles w)) w)).

(** [os.OpenFile] with O_CREATE and O_EXCL. *)
Definition CreateExcl (p : path) : M unit :=
  syscall (w ← get_world;
           match wFiles w !! p with
           | Some _ => throw EEXIST
           | None => if decide (parent p ∈ wDirs w) then store_file p [] else throw ENOENT
           end).

(** [f.Write] of a whole buffer to a file just created. *)
Definition FileWrite (p : path) (data : str) : M unit :=
  f ← next_fault;
  match f with
  | NoFault => store_file p data
  | Fault => throw EIO
  | Short n => store_file p (take n data) ≫= fun _ => throw EIO
  end.

(** [f.Sync] and [f.Close]. *)
Definition FileSync : M unit := syscall (mret tt).
Definition FileClose : M unit := syscall (mret tt).

(** A string appended to the last component of a path. *)
Definition append_ext (p : path) (s : str) : path :=
  match last p with Some n => removelast p ++ [n ++ s] | None => [s] end.

(** How the server replaces a file: a temporary file renamed into place, and
    removed if that fails. *)
Definition replace_file (p : path) (data : str) : M unit :=
  let tmp := append_ext p #".tmp" in
  WriteFile tmp data ≫= fun _ =>
  r ← try (Rename tmp p);
  match r with
  | Ok _ => mret tt
  | Err err => try (Remove tmp) ≫= fun _ => throw err
  end.

(** ** JSON

    What the laws of the codecs of encoding/json speak of. *)

Definition is_ascii (s : str) : Prop := Forall (fun c => (N_of_ascii c < 128)%N) s.
(** The times that can be encoded: of the years 0 to 9999. *)
Definition in_years (t : Z) : Prop := - 62167219200 * 10 ^ 9 <= t < 253402300800 * 10 ^ 9.

(** Any countable type as a text, for codecs of examples. *)
Fixpoint pos_bits (p : positive) : str :=
  match p with xH => [] | xO p => "0"%char :: pos_bits p | xI p => "1"%char :: pos_bits p end.
Fixpoint bits_pos (s : str) : positive :=
  match s with [] => xH | c :: s => if Ascii.eqb c "0" then xO (bits_pos s) else xI (bits_pos s) end.

Lemma bits_pos_bits p : bits_pos (pos_bits p) = p.
Proof. induction p as [p IH|p IH|]; simpl; by rewrite ?IH. Qed.

(** ** Running without faults *)

Lemma syscall_ok {A} (m : M A) w : wFaults w = [] -> syscall m w = m w.
Proof. intros H. unfold syscall, mbind, M_bind, next_fault. by rewrite H. Qed.

Lemma elem_of_prefixes p q : q ∈ prefixes p <-> q `prefix_of` p.
Proof.
  revert q. induction p as [|c p IH]; intros q; simpl.
  - rewrite list_elem_of_singleton. split; [by intros ->|]. intros [k E].
    symmetry in E. by apply app_nil in E as [-> _].
  - rewrite elem_of_cons. split.
    + intros [->|(q' & -> & Hq)%list_elem_of_fmap]; [apply prefix_nil|].
      apply prefix_cons. by apply IH.
    + intros Hq. destruct q as [|d q]; [by left|right].
      apply prefix_cons_inv_1 in Hq as Hd. subst d. apply prefix_cons_inv_2 in Hq.
      apply list_elem_of_fmap. exists q. split; [done|]. by apply IH.
Qed.

(** The entries of a directory name the files directly under it. *)
Lemma elem_of_file_entries w d e :
  e ∈ file_entries w d <->
  exists f, deFile e = Some f /\ wFiles w !! (d ++ [deName e]) = Some f.
Proof.
  unfold file_entries. rewrite list_elem_of_omap. split.
  - intros ([k f] & Hin & He). apply elem_of_map_to_list in Hin. simpl in He.
    destruct (last k) as [n|] eqn:El; [|done]. case_decide as Hp; [|done].
    injection He as <-. exists f. simpl. split; [done|].
    apply last_Some in El as [k' ->]. rewrite parent_snoc in Hp. by subst.
  - destruct e as [n o]; simpl. intros (f & -> & Hf).
    exists (d ++ [n], f). split; [by apply elem_of_map_to_list|]. simpl.
    rewrite last_snoc. by rewrite decide_True by apply parent_snoc.
Qed.

Lemma bind_ok {A B} (m : M A) (f : A -> M B) w a w' :
  m w = (Ok a, w') -> (m ≫= f) w = f a w'.
Proof. intros H. unfold mbind, M_bind. by rewrite H. Qed.

Lemma bind_err {A B} (m : M A) (f : A -> M B) w e w' :
  m w = (Err e, w') -> (m ≫= f) w = (Err e, w').
Proof. intros H. unfold mbind, M_bind. by rewrite H. Qed.

Lemma try_eq {A} (m : M A) w r w' : m w = (r, w') -> try m w = (Ok r, w').
Proof. intros H. unfold try. by rewrite H. Qed.

(** [w'] differs from [w] in the clock, the random source and the counter
    only. *)
Definition same_disk (w w' : world) : Prop :=
  wFiles w' = wFiles w /\ wDirs w' = wDirs w /\ wFaults w' = wFaults w.

Lemma same_disk_refl w : same_disk w w.
Proof. done. Qed.

Lemma same_disk_trans w1 w2 w3 : same_disk w1 w2 -> same_disk w2 w3 -> same_disk w1 w3.
Proof. unfold same_disk. intuition congruence. Qed.

Lemma time_now_ok w : exists t w', time_now w = (Ok t, w') /\ same_disk w w'.
Proof.
  unfold time_now. destruct (match wTicks w with [] => (0, []) | d :: r => (d, r) end) as [d ticks].
  by eexists _, _.
Qed.

Lemma ReadDir_ok w d :
  wFaults w = [] ->
  ReadDir d w = (if decide (d ∈ wDirs w)
    then Ok (sort_slice (fun a b => str_ltb (deName a) (deName b)) (file_entries w d ++ dir_entries w d))
    else Err ENOENT, w).
Proof.
  intros H. unfold ReadDir. rewrite syscall_ok by done. unfold mbind, M_bind, get_world.
  by case_decide.
Qed.

Lemma WriteFile_ok w p data :
  wFaults w = [] -> parent p ∈ wDirs w ->
  WriteFile p data w = (Ok tt, set_files (<[p := mkFile data (wNow w)]> (wFiles w)) w).
Proof.
  intros H Hp. unfold WriteFile, mbind, M_bind, next_fault, get_world. rewrite H.
  by rewrite decide_True.
Qed.

Lemma Rename_ok w old new f :
  wFaults w = [] -> wFiles w !! old = Some f -> parent new ∈ wDirs w ->
  Rename old new w = (Ok tt, set_files (<[new := f]> (delete old (wFiles w))) w).
Proof.
  intros H Hf Hp. unfold Rename. rewrite syscall_ok by done.
  unfold mbind, M_bind, get_world. rewrite Hf. by rewrite decide_True.
Qed.

Lemma Remove_ok w p f :
  wFaults w = [] -> wFiles w !! p = Some f ->
  GoOS.Remove p w = (Ok tt, set_files (delete p (wFiles w)) w).
Proof.
  intros H Hf. unfold GoOS.Remove. rewrite syscall_ok by done.
  unfold mbind, M_bind, get_world. by rewrite Hf.
Qed.

#[export] Hint Resolve same_disk_refl : verta.

(** ** What a program leaves alone *)

(** Running [m] changes no file outside [P], whatever fails. *)
Definition frame {A} (P : path -> Prop) (m : M A) : Prop :=
  forall w q, ~ P q -> wFiles (m w).2 !! q = wFiles w !! q.

Section Frame.
Context (P : path -> Prop).

Lemma frame_ret {A} (a : A) : frame P (mret a).
Proof. done. Qed.
Lemma frame_throw {A} e : frame P (throw (A:=A) e).
Proof. done. Qed.
Lemma frame_bind {A B} (m : M A) (f : A -> M B) :
  frame P m -> (forall a, frame P (f a)) -> frame P (m ≫= f).
Proof.
  intros Hm Hf w q Hq. unfold mbind, M_bind. specialize (Hm w q Hq).
  destruct (m w) as [[a|e] w1]; simpl in *; [|done]. by rewrite Hf.
Qed.
Lemma frame_try {A} (m : M A) : frame P m -> frame P (try m).
Proof. intros Hm w q Hq. unfold try. specialize (Hm w q Hq). by destruct (m w). Qed.
Lemma frame_wrap {A} (m : M A) : frame P m -> frame P (wrap m).
Proof. intros Hm w q Hq. unfold wrap. specialize (Hm w q Hq). by destruct (m w) as [[]]. Qed.
Lemma frame_for_each {A} (l : list A) body :
  (forall x, frame P (body x)) -> frame P (for_each l body).
Proof. intros Hb. induction l; simpl; [apply frame_ret|]. by apply frame_bind. Qed.
Lemma frame_get_world : frame P get_world.
Proof. done. Qed.
Lemma frame_next_fault : frame P next_fault.
Proof. intros w q _. unfold next_fault. by destruct (wFaults w). Qed.
Lemma frame_syscall {A} (m : M A) : frame P m -> frame P (syscall m).
Proof.
  intros Hm. apply frame_bind; [apply frame_next_fault|]. intros []; [done| |]; apply frame_throw.
Qed.
Lemma frame_time_now : frame P time_now.
Proof. intros w q _. unfold time_now. by destruct (wTicks w). Qed.
Lemma frame_rand : frame P rand_uint32.
Proof. intros w q _. unfold rand_uint32. by destruct (wRand w). Qed.
Lemma frame_next_seq : frame P next_seq.
Proof. done. Qed.
Lemma frame_MkdirAll p : frame P (MkdirAll p).
Proof. by apply frame_syscall. Qed.
Lemma frame_store p data : P p -> frame P (store_file p data).
Proof.
  intros Hp w q Hq. simpl. apply lookup_insert_ne. by intros ->.
Qed.
Lemma frame_CreateExcl p : P p -> frame P (CreateExcl p).
Proof.
  intros Hp. apply frame_syscall, frame_bind; [apply frame_get_world|]. intros w.
  destruct (wFiles w !! p); [apply frame_throw|].
  case_decide; [by apply frame_store|apply frame_throw].
Qed.
Lemma frame_FileWrite p data : P p -> frame P (FileWrite p data).
Proof.
  intros Hp. apply frame_bind; [apply frame_next_fault|].
  intros []; [by apply frame_store|apply frame_throw|].
  apply frame_bind; [by apply frame_store|]. intros _. apply frame_throw.
Qed.
Lemma frame_FileSync : frame P FileSync.
Proof. by apply frame_syscall. Qed.
Lemma frame_syscall_world {A} (f : world -> M A) :
  (forall w q, ~ P q -> wFiles (f w w).2 !! q = wFiles w !! q) ->
  frame P (syscall (w ← get_world; f w)).
Proof. intros Hf. apply frame_syscall. intros w q Hq. by apply Hf. Qed.
Lemma frame_Remove p : P p -> frame P (GoOS.Remove p).
Proof.
  intros Hp. apply frame_syscall_world. intros w q Hq.
  destruct (wFiles w !! p); [|done]. simpl. apply lookup_delete_ne. by intros ->.
Qed.
Lemma frame_Rename old new : P old -> P new -> frame P (Rename old new).
Proof.
  intros Ho Hn. apply frame_syscall_world. intros w q Hq.
  destruct (wFiles w !! old); [|done]. case_decide; [|done]. simpl.
  rewrite lookup_insert_ne by (by intros ->). apply lookup_delete_ne. by intros ->.
Qed.
Lemma frame_WriteFile p data : P p -> frame P (WriteFile p data).
Proof.
  intros Hp. apply frame_bind; [apply frame_next_fault|intros f]. apply frame_bind; [apply frame_get_world|intros w].
  case_decide; [|apply frame_throw]. destruct f; [by apply frame_store|apply frame_throw|].
  apply frame_bind; [by apply frame_store|intros _; apply frame_throw].
Qed.
Lemma frame_Stat p : frame P (Stat p).
Proof. apply frame_syscall_world. intros w q _. case_decide; [done|]. by destruct (wFiles w !! p). Qed.
Lemma frame_ReadFile p : frame P (ReadFile p).
Proof. apply frame_syscall_world. intros w q _. by destruct (wFiles w !! p). Qed.
End Frame.

#[export] Hint Resolve frame_WriteFile frame_Stat frame_ReadFile : frames.
#[export] Hint Resolve frame_ret frame_throw frame_bind frame_try frame_wrap frame_for_each
  frame_get_world frame_next_fault frame_time_now frame_rand frame_next_seq frame_MkdirAll
  frame_store frame_CreateExcl frame_FileWrite frame_FileSync frame_Remove frame_Rename : frames.

(** ** Weakest preconditions *)

(** [Q] holds of the outcome of [m] from [w]. *)
Definition wp {A} (m : M A) (w : world) (Q : result error A -> world -> Prop) : Prop :=
  Q (m w).1 (m w).2.

Section WP.
Context {A B : Type}.

Lemma wp_mono (m : M A) w (Q R : result error A -> world -> Prop) :
  wp m w Q -> (forall r w', Q r w' -> R r w') -> wp m w R.
Proof. unfold wp. auto. Qed.

Lemma wp_bind (m : M A) (f : A -> M B) w Q :
  wp m w (fun r w' => match r with Ok a => wp (f a) w' Q | Err e => Q (Err e) w' end) ->
  wp (m ≫= f) w Q.
Proof. unfold wp, mbind, M_bind. by destruct (m w) as [[] ]. Qed.

Lemma wp_try (m : M A) w Q : wp m w (fun r w' => Q (Ok r) w') -> wp (try m) w Q.
Proof. unfold wp, try. by destruct (m w). Qed.

Lemma wp_wrap (m : M A) w Q :
  wp m w (fun r w' => Q (match r with Ok a => Ok a | Err e => Err (ErrWrap e) end) w') ->
  wp (wrap m) w Q.
Proof. unfold wp, wrap. by destruct (m w) as [[] ]. Qed.

Lemma wp_frame P (m : M A) w Q :
  frame P m -> wp m w Q ->
  wp m w (fun r w' => Q r w' /\ forall q, ~ P q -> wFiles w' !! q = wFiles w !! q).
Proof. unfold wp. intros Hf HQ. split; [done|]. intros q. apply Hf. Qed.

(** A call from [syscall]: its body, or an error on the same disk. *)
Lemma wp_syscall (m : M A) w (Q : result error A -> world -> Prop) :
  (forall w1, wFiles w1 = wFiles w -> wDirs w1 = wDirs w -> wHost w1 = wHost w ->
     wp m w1 Q /\ Q (Err EIO) w1) ->
  wp (syscall m) w Q.
Proof.
  intros H. unfold wp, syscall, mbind, M_bind, next_fault, throw.
  destruct (wFaults w) as [|[] fs] eqn:E; cbn [fst snd];
    [destruct (H w)|destruct (H (set_faults fs w))..]; done.
Qed.
End WP.

Lemma wp_CreateExcl p w (Q : result error unit -> world -> Prop) :
  (forall e w', wFiles w' = wFiles w -> Q (Err e) w') ->
  (forall t w', wFiles w !! p = None -> wFiles w' = <[p := mkFile [] t]> (wFiles w) -> Q (Ok tt) w') ->
  wp (CreateExcl p) w Q.
Proof.
  intros He Ho. apply wp_syscall. intros w1 Hf Hd _. split; [|by apply He].
  unfold wp, mbind, M_bind, get_world, throw. cbn.
  destruct (wFiles w1 !! p) eqn:E; [by apply He|]. case_decide; [|by apply He].
  apply Ho with (wNow w1); [by rewrite <- Hf|]. simpl. by rewrite Hf.
Qed.

(** A write leaves all of the data, or a prefix and an error, or an error and
    the file as it was. *)
Lemma wp_FileWrite p data w (Q : result error unit -> world -> Prop) :
  (forall t w', wFiles w' = <[p := mkFile data t]> (wFiles w) -> Q (Ok tt) w') ->
  (forall e w', wFiles w' = wFiles w -> Q (Err e) w') ->
  (forall e n t w', wFiles w' = <[p := mkFile (take n data) t]> (wFiles w) -> Q (Err e) w') ->
  wp (FileWrite p data) w Q.
Proof.
  intros Ho He Hs. unfold wp, FileWrite, mbind, M_bind, next_fault.
  destruct (wFaults w) as [|[| |n] fs] eqn:E; cbn; eauto.
Qed.

Lemma wp_Rename old new w (Q : result error unit -> world -> Prop) :
  (forall e w', wFiles w' = wFiles w -> Q (Err e) w') ->
  (forall f w', wFiles w !! old = Some f -> wFiles w' = <[new := f]> (delete old (wFiles w)) ->
     Q (Ok tt) w') ->
  wp (Rename old new) w Q.
Proof.
  intros He Ho. apply wp_syscall. intros w1 Hf Hd _. split; [|by apply He].
  unfold wp, mbind, M_bind, get_world, throw. cbn. rewrite Hf.
  destruct (wFiles w !! old) eqn:E; [|by apply He]. case_decide; [|by apply He].
  simpl. by eapply Ho.
Qed.

Lemma wp_Remove p w (Q : result error unit -> world -> Prop) :
  (forall e w', wFiles w' = wFiles w -> Q (Err e) w') ->
  (forall w', wFiles w' = delete p (wFiles w) -> Q (Ok tt) w') ->
  wp (GoOS.Remove p) w Q.
Proof.
  intros He Ho. apply wp_syscall. intros w1 Hf Hd _. split; [|by apply He].
  unfold wp, mbind, M_bind, get_world, throw. cbn. rewrite Hf.
  destruct (wFiles w !! p) eqn:E; [|by apply He]. simpl. by apply Ho.
Qed.

(** A call without effect on the disk. *)
Lemma wp_noop w (Q : result error unit -> world -> Prop) :
  (forall r w', wFiles w' = wFiles w -> Q r w') -> wp (syscall (mret tt)) w Q.
Proof. intros H. apply wp_syscall. intros w1 Hf Hd _. split; by apply H. Qed.

Lemma wp_WriteFile p data w (Q : result error unit -> world -> Prop) :
  (forall t w', wFiles w' = <[p := mkFile data t]> (wFiles w) -> Q (Ok tt) w') ->
  (forall e w', wFiles w' = wFiles w -> Q (Err e) w') ->
  (forall e n t w', wFiles w' = <[p := mkFile (take n data) t]> (wFiles w) -> Q (Err e) w') ->
  wp (WriteFile p data) w Q.
Proof.
  intros Ho He Hs. unfold wp, WriteFile, mbind, M_bind, next_fault, get_world, throw.
  destruct (wFaults w) as [|[| |n] fs] eqn:E; cbn; case_decide; cbn; eauto.
Qed.

Lemma wp_ReadDir d w (Q : result error (list dirent) -> world -> Prop) :
  (forall r w', wFiles w' = wFiles w -> Q r w') -> wp (ReadDir d) w Q.
Proof.
  intros H. apply wp_syscall. intros w1 Hf Hd _. split; [|by apply H].
  unfold wp, mbind, M_bind, get_world, throw. cbn. case_decide; by apply H.
Qed.

Lemma wp_ReadFile p w (Q : result error str -> world -> Prop) :
  (forall e w', wFiles w' = wFiles w -> Q (Err e) w') ->
  (forall f w', wFiles w !! p = Some f -> wFiles w' = wFiles w -> Q (Ok (fData f)) w') ->
  wp (ReadFile p) w Q.
Proof.
  intros He Ho. apply wp_syscall. intros w1 Hf Hd _. split; [|by apply He].
  unfold wp, mbind, M_bind, get_world, throw. cbn. rewrite Hf.
  destruct (wFiles w !! p) eqn:E; [by eapply Ho|by apply He].
Qed.

(** File systems hold no separators, ["."] or [".."] in names. *)
Definition wf_world (w : world) : Prop :=
  (forall q, is_Some (wFiles w !! q) -> Forall plain q) /\ (forall q, q ∈ wDirs w -> Forall plain q).

Lemma wp_ReadDir_plain d w (Q : result error (list dirent) -> world -> Prop) :
  wf_world w ->
  (forall e w', wFiles w' = wFiles w -> Q (Err e) w') ->
  (forall ents w', wFiles w' = wFiles w -> Forall (fun ent => plain (deName ent)) ents -> Q (Ok ents) w') ->
  wp (ReadDir d) w Q.
Proof.
  intros [Hwf Hwd] He Ho. apply wp_syscall. intros w1 Hf Hd _. split; [|by apply He].
  unfold wp, mbind, M_bind, get_world, throw. cbn. case_decide; [|by apply He].
  apply Ho; [done|]. apply Forall_forall. intros ent Hent. rewrite elem_of_sort_slice in Hent.
  apply elem_of_app in Hent as [Hent|Hent].
  - apply elem_of_file_entries in Hent as (f & _ & Hent). rewrite Hf in Hent.
    pose proof (Hwf _ (ex_intro _ _ Hent)) as Hp. apply Forall_app in Hp as [_ Hp].
    by apply Forall_inv in Hp.
  - unfold dir_entries in Hent. apply list_elem_of_omap in Hent as (p & Hp & E).
    destruct (last p) as [n|] eqn:El; [|done]. case_decide; [|done]. injection E as <-.
    apply last_Some in El as [p' ->]. apply elem_of_elements in Hp. rewrite Hd in Hp.
    apply Hwd, Forall_app in Hp as [_ Hp].
    by apply Forall_inv in Hp.
Qed.

(** ** Replacing a file *)

Lemma append_ext_ne p s : s <> [] -> append_ext p s <> p.
Proof.
  intros Hs. unfold append_ext. destruct (last p) as [n|] eqn:E.
  - apply last_Some in E as [p' ->]. rewrite removelast_last. intros [_ [= H]]%app_inj_2; [|done].
    apply Hs. by rewrite <- (app_nil_r n) in H at 2; apply app_inv_head in H.
  - apply last_None in E as ->. done.
Qed.

(** Whatever fails, the file is complete or as it was, and no other file than
    the temporary one is touched. *)
Lemma wp_replace_file p data w (Q : result error unit -> world -> Prop) :
  (forall err w', (forall q, q <> append_ext p #".tmp" -> wFiles w' !! q = wFiles w !! q) -> Q (Err err) w') ->
  (forall t w', wFiles w' !! p = Some (mkFile data t) ->
     (forall q, q <> append_ext p #".tmp" -> q <> p -> wFiles w' !! q = wFiles w !! q) -> Q (Ok tt) w') ->
  wp (replace_file p data) w Q.
Proof.
  intros He Ho. unfold replace_file. set (tmp := append_ext p #".tmp").
  assert (tmp <> p) as Hne by (by apply append_ext_ne).
  apply wp_bind, wp_WriteFile.
  - intros t w1 H1. apply wp_bind, wp_try, wp_Rename.
    + intros err w2 H2. apply wp_bind, wp_try, wp_Remove.
      * intros e' w3 H3. apply He. intros q Hq. change (wFiles w3 !! q = wFiles w !! q).
        rewrite H3, H2, H1. by apply lookup_insert_ne.
      * intros w3 H3. apply He. intros q Hq. change (wFiles w3 !! q = wFiles w !! q).
        rewrite H3, H2, H1. rewrite lookup_delete_ne by done. by apply lookup_insert_ne.
    + intros f w2 Hf H2. rewrite H1, lookup_insert_eq in Hf. injection Hf as <-.
      apply (Ho t).
      * change (wFiles w2 !! p = Some (mkFile data t)). by rewrite H2, lookup_insert_eq.
      * intros q Hqt Hqp. change (wFiles w2 !! q = wFiles w !! q).
        rewrite H2, lookup_insert_ne, lookup_delete_ne, H1 by done. by apply lookup_insert_ne.
  - intros err w1 H1. apply He. intros q Hq. by rewrite H1.
  - intros err n t w1 H1. apply He. intros q Hq. rewrite H1. by apply lookup_insert_ne.
Qed.

Lemma replace_file_ok p data w :
  wFaults w = [] -> p <> [] -> parent p ∈ wDirs w ->
  exists w', replace_file p data w = (Ok tt, w') /\
    wFiles w' = <[p := mkFile data (wNow w)]> (delete (append_ext p #".tmp") (wFiles w)) /\
    wDirs w' = wDirs w /\ wFaults w' = [].
Proof.
  intros Hw Hp Hd. unfold replace_file.
  assert (parent (append_ext p #".tmp") = parent p) as Ht.
  { unfold append_ext. destruct p as [|x p _] using rev_ind; [done|]. by rewrite last_snoc, removelast_last, !parent_snoc. }
  erewrite bind_ok by (apply WriteFile_ok; [done|by rewrite Ht]).
  set (w1 := set_files _ w).
  assert (Rename (append_ext p #".tmp") p w1 = (Ok tt, set_files (<[p := mkFile data (wNow w)]>
    (delete (append_ext p #".tmp") (wFiles w1))) w1)) as ER by (apply Rename_ok; [done|apply lookup_insert_eq|done]).
  eexists. split; [by erewrite bind_ok by (by apply try_eq)|].
  simpl. by rewrite delete_insert_eq.
Qed.
