(* ===== verification/Lines.v ===== *)
(** * Files of lines: the parts of [bufio.Scanner] in use

    The UID list of a mailbox and the corpus of the spam filter are files of
    lines: a header of two counts, then an entry per line. *)

From S2P Require Import Prelude GoStrings.

(** The lines a [bufio.Scanner] yields: the text between newlines without a
    trailing carriage return; a line of [max] bytes or more ends the scan. *)
Definition drop_cr (s : str) : str := trim_suffix [CR] s.
Fixpoint take_short (max : Z) (l : list str) : list str :=
  match l with
  | [] => []
  | x :: r => if Z.of_nat (length x) <? max then x :: take_short max r else []
  end.
Definition scan_lines (max : Z) (s : str) : list str :=
  let parts := split LF s in
  let parts := match last parts with Some [] => removelast parts | _ => parts end in
  map drop_cr (take_short max parts).

(** The text of a file of lines. *)
Definition unlines (ls : list str) : str := mjoin ((fun l : str => l ++ [LF]) <$> ls).

Lemma unlines_cons l ls : unlines (l :: ls) = l ++ LF :: unlines ls.
Proof. unfold unlines. rewrite fmap_cons. simpl. by rewrite <- app_assoc. Qed.

Lemma split_unlines ls :
  Forall (fun l => LF ∉ l) ls -> split LF (unlines ls) = ls ++ [ [] ].
Proof.
  induction 1 as [|l ls Hl HF IH]; [done|].
  rewrite unlines_cons, split_app, IH; done.
Qed.

Lemma take_short_all max (ls : list str) :
  Forall (fun l : str => Z.of_nat (length l) < max) ls -> take_short max ls = ls.
Proof.
  induction 1 as [|l ls Hl HF IH]; simpl; [done|].
  destruct (Z.ltb_spec (Z.of_nat (length l)) max); [by rewrite IH|lia].
Qed.

Lemma drop_cr_id s : last s <> Some CR -> drop_cr s = s.
Proof.
  intros H. unfold drop_cr, trim_suffix.
  destruct (has_suffix [CR] s) eqn:E; [|done].
  apply has_suffix_spec in E as [t ->]. by rewrite last_snoc in H.
Qed.

Lemma scan_lines_unlines max (ls : list str) :
  Forall (fun l => LF ∉ l /\ last l <> Some CR /\ Z.of_nat (length l) < max) ls ->
  scan_lines max (unlines ls) = ls.
Proof.
  intros HF. unfold scan_lines.
  rewrite split_unlines by (eapply Forall_impl; [done|]; naive_solver).
  rewrite last_snoc, removelast_last.
  rewrite take_short_all by (eapply Forall_impl; [done|]; naive_solver).
  induction HF as [|l ls (_ & Hl & _) HF IH]; simpl; [done|]. by rewrite drop_cr_id, IH.
Qed.

Lemma digit_not_space c : is_digit c = true -> is_space c = false.
Proof. by all_bytes c. Qed.

(** A header of two counts, each after a letter. *)
Definition two_counts (a : ascii) (v : Z) (b : ascii) (n : Z) : str := (a :: dec v) ++ SP :: (b :: dec n).

Lemma fields_two_counts a v b n :
  is_space a = false -> is_space b = false -> 0 <= v -> 0 <= n ->
  fields (two_counts a v b n) = [a :: dec v; b :: dec n].
Proof.
  intros Ha Hb Hv Hn.
  assert (forall c z, is_space c = false -> 0 <= z ->
    forallb (fun c => negb (is_space c)) (c :: dec z) = true) as Hword.
  { intros c z Hc Hz. simpl. rewrite Hc. simpl. apply forallb_forall. intros x Hx.
    pose proof (dec_digits z Hz) as Hd. rewrite forallb_forall in Hd.
    by rewrite digit_not_space by auto. }
  unfold fields, two_counts.
  rewrite fields_aux_word by (by apply Hword). rewrite app_nil_r.
  assert (forall w r, w <> [] -> fields_aux (rev w) (SP :: r) = w :: fields_aux [] r) as Hsp.
  { intros w r Hw. simpl. destruct (rev w) eqn:E.
    - by apply (f_equal (@rev _)) in E; rewrite rev_involutive in E.
    - by rewrite <- E, rev_involutive. }
  rewrite Hsp by done. f_equal.
  rewrite <- (app_nil_r (b :: dec n)) at 1.
  rewrite fields_aux_word by (by apply Hword). rewrite app_nil_r.
  assert (forall w, w <> [] -> fields_aux (rev w) [] = [w]) as Hend.
  { intros w Hw. simpl. destruct (rev w) eqn:E.
    - by apply (f_equal (@rev _)) in E; rewrite rev_involutive in E.
    - by rewrite <- E, rev_involutive. }
  by apply Hend.
Qed.

Lemma fold_insert_lookup {A} (l : list (str * A)) (m : gmap str A) k :
  NoDup l.*1 ->
  fold_left (fun m kv => <[kv.1 := kv.2]> m) l m !! k
  = match (list_to_map l : gmap str A) !! k with Some u => Some u | None => m !! k end.
Proof.
  revert m. induction l as [|[a u] l IH]; intros m Hn; simpl; [by rewrite lookup_empty|].
  apply NoDup_cons in Hn as [Ha Hn]. rewrite IH by done.
  destruct (decide (a = k)) as [->|Hne].
  - rewrite lookup_insert_eq. rewrite (not_elem_of_list_to_map_1 l k) by done.
    by rewrite lookup_insert_eq.
  - by rewrite !lookup_insert_ne.
Qed.

Lemma fold_insert_map_to_list {A} (uids : gmap str A) l :
  Permutation l (map_to_list uids) ->
  fold_left (fun m kv => <[kv.1 := kv.2]> m) l ∅ = uids.
Proof.
  intros HP. apply map_eq. intros k.
  assert (NoDup l.*1) as Hn by (rewrite HP; apply NoDup_fst_map_to_list).
  rewrite fold_insert_lookup, lookup_empty by done.
  rewrite (list_to_map_proper _ _ Hn HP), list_to_map_to_list. by destruct (uids !! k).
Qed.

Lemma length_dec_fuel fuel n : (length (dec_fuel fuel n) <= fuel)%nat.
Proof.
  revert n. induction fuel as [|f IH]; intros n; simpl; [done|].
  destruct (n <? 10)%N; [simpl; lia|]. rewrite length_app. simpl.
  specialize (IH (n / 10)%N). lia.
Qed.

Lemma size_nat_bound k p : (Pos.size_nat p = S k)%nat -> 2 ^ Z.of_nat k <= Z.pos p.
Proof.
  revert p. induction k as [|k IH]; intros p Hp; [simpl; lia|].
  rewrite Nat2Z.inj_succ, Z.pow_succ_r by lia.
  destruct p as [q|q|]; simpl in Hp; [| |lia];
    assert (2 ^ Z.of_nat k <= Z.pos q) by (apply IH; lia); lia.
Qed.

Lemma dec_length z : 0 <= z < 2 ^ 32 -> Z.of_nat (length (dec z)) < 4096.
Proof.
  intros Hz. unfold dec. destruct (Z.ltb_spec z 0); [lia|].
  unfold dec_N. pose proof (length_dec_fuel (S (N.size_nat (Z.to_N z))) (Z.to_N z)).
  assert (N.size_nat (Z.to_N z) <= 33)%nat; [|lia].
  destruct z as [|p|p]; simpl; [lia| |lia].
  destruct (Nat.le_gt_cases (Pos.size_nat p) 33) as [|Hgt]; [done|].
  pose proof (size_nat_bound (Nat.pred (Pos.size_nat p)) p ltac:(lia)).
  assert (2 ^ 33 <= 2 ^ Z.of_nat (Nat.pred (Pos.size_nat p))) by (apply Z.pow_le_mono_r; lia).
  lia.
Qed.

Lemma digits_line_safe s :
  forallb is_digit s = true -> LF ∉ s /\ last s <> Some CR.
Proof.
  intros Hd. split; [by apply not_in_digits|]. intros Hl%last_Some_elem_of.
  by apply (not_in_digits CR s).
Qed.

