(* ===== verification/MaildirFlags.v ===== *)
(** * Maildir flags and file names (internal/maildir/flags.go)

    Flags are encoded in the file name after [":2,"]; a set of flags is a
    sorted slice without duplicates. *)

From S2P Require Import Prelude GoStrings.

Abbreviation Flag := ascii.
Abbreviation Flags := (list ascii).

Definition FlagDraft : Flag := "D"%char.
Definition FlagFlagged : Flag := "F"%char.
Definition FlagPassed : Flag := "P"%char.
Definition FlagAnswered : Flag := "R"%char.
Definition FlagSeen : Flag := "S"%char.
Definition FlagDeleted : Flag := "T"%char.

Definition infoSep : str := #":2,".

Definition is_flag (c : ascii) : bool :=
  existsb (Ascii.eqb c)
    [FlagDraft; FlagFlagged; FlagPassed; FlagAnswered; FlagSeen; FlagDeleted].

Definition Has (f : Flags) (x : Flag) : bool := existsb (fun v => Ascii.eqb v x) f.

Definition flag_key (c : ascii) : Z := Z.of_N (N_of_ascii c).

(** [Flags.sort]. *)
Definition sort_flags (f : Flags) : Flags := sort_by flag_key f.

Definition Add (f : Flags) (x : Flag) : Flags :=
  if Has f x then f else sort_flags (f ++ [x]).

Definition Remove (f : Flags) (x : Flag) : Flags :=
  filter (fun v => Ascii.eqb v x = false) f.

(** The loop of [ParseFlags] over the info part of the name. *)
Definition collect_flags (s : str) : Flags :=
  fold_left (fun f r => if is_flag r && negb (Has f r) then f ++ [r] else f) s [].

Definition ParseFlags (name : str) : Flags :=
  match index infoSep name with
  | None => []
  | Some i => sort_flags (collect_flags (drop (i + length infoSep) name))
  end.

Definition BaseName (name : str) : str :=
  match index infoSep name with
  | Some i => take i name
  | None => name
  end.

(** [Flags.String] is the slice itself. *)
Definition FileName (base : str) (f : Flags) : str := base ++ infoSep ++ f.

Definition IMAPFlags (f : Flags) (recent : bool) : list str :=
  (if Has f FlagSeen then [BSL :: #"Seen"] else [])
  ++ (if Has f FlagAnswered then [BSL :: #"Answered"] else [])
  ++ (if Has f FlagFlagged then [BSL :: #"Flagged"] else [])
  ++ (if Has f FlagDeleted then [BSL :: #"Deleted"] else [])
  ++ (if Has f FlagDraft then [BSL :: #"Draft"] else [])
  ++ (if recent then [BSL :: #"Recent"] else []).

Definition FlagFromIMAP (name : str) : option Flag :=
  let n := to_lower name in
  if n =s BSL :: #"seen" then Some FlagSeen
  else if n =s BSL :: #"answered" then Some FlagAnswered
  else if n =s BSL :: #"flagged" then Some FlagFlagged
  else if n =s BSL :: #"deleted" then Some FlagDeleted
  else if n =s BSL :: #"draft" then Some FlagDraft
  else None.

(** ** Well-formed flag sets *)

Definition flag_lt (a b : ascii) : Prop := flag_key a < flag_key b.

Record wf_flags (f : Flags) : Prop := {
  wf_sorted : StronglySorted flag_lt f;
  wf_known : forallb is_flag f = true }.

Lemma flag_key_inj a b : flag_key a = flag_key b -> a = b.
Proof.
  unfold flag_key. intros H%N2Z.inj. rewrite <- (ascii_N_embedding a), H.
  apply ascii_N_embedding.
Qed.

Lemma Has_true f x : Has f x = true <-> x ∈ f.
Proof.
  unfold Has. rewrite existsb_exists, list_elem_of_In. split.
  - by intros (v & Hv & ->%Ascii.eqb_eq).
  - intros H. exists x. by rewrite Ascii.eqb_refl.
Qed.

Lemma Has_false f x : Has f x = false <-> x ∉ f.
Proof. rewrite <- Has_true. by destruct (Has f x). Qed.

Lemma StronglySorted_lt_nodup f : StronglySorted flag_lt f -> NoDup f.
Proof.
  induction 1 as [|x l HS IH HF]; constructor; [|done].
  intros Hin. rewrite List.Forall_forall in HF.
  apply list_elem_of_In, HF in Hin. unfold flag_lt in Hin. lia.
Qed.

(** Sorting a duplicate-free set of known flags gives a well-formed one. *)
Lemma sort_flags_wf f : NoDup f -> forallb is_flag f = true -> wf_flags (sort_flags f).
Proof.
  intros Hn Hk. assert (Permutation (sort_flags f) f) as HP by apply sort_by_perm.
  constructor.
  - assert (NoDup (sort_flags f)) as Hn' by (by rewrite HP).
    pose proof (sort_by_sorted flag_key f) as HS. fold (sort_flags f) in HS.
    clear HP. revert Hn'. induction HS as [|x l HS IH HF]; intros Hn'; constructor.
    + apply IH. by apply NoDup_cons in Hn' as [].
    + apply NoDup_cons in Hn' as [Hx _]. rewrite List.Forall_forall in *.
      intros y Hy. specialize (HF y Hy). unfold flag_lt.
      destruct (Z.eq_dec (flag_key x) (flag_key y)) as [E|]; [|lia].
      apply flag_key_inj in E as ->. by apply list_elem_of_In in Hy.
  - rewrite forallb_forall in *. intros x Hx. apply Hk.
    apply list_elem_of_In. rewrite <- HP. by apply list_elem_of_In.
Qed.

(** A well-formed set is already sorted. *)
Lemma sorted_perm_unique l1 l2 :
  StronglySorted flag_lt l1 -> StronglySorted flag_lt l2 -> Permutation l1 l2 -> l1 = l2.
Proof.
  revert l2. induction l1 as [|x l1 IH]; intros l2 H1 H2 HP.
  - by apply Permutation_nil_l in HP as ->.
  - destruct l2 as [|y l2]; [by apply Permutation_nil_r in HP|].
    inversion H1 as [|? ? S1 F1]; inversion H2 as [|? ? S2 F2]; subst.
    rewrite List.Forall_forall in F1, F2.
    assert (x = y) as ->.
    { assert (x ∈ y :: l2) as Hx by (rewrite <- HP; set_solver).
      assert (y ∈ x :: l1) as Hy by (rewrite HP; set_solver).
      apply elem_of_cons in Hx as [->|Hx]; [done|].
      apply elem_of_cons in Hy as [->|Hy]; [done|].
      apply list_elem_of_In, F2 in Hx. apply list_elem_of_In, F1 in Hy.
      unfold flag_lt in *. lia. }
    f_equal. apply IH; [done..|]. by apply Permutation_cons_inv in HP.
Qed.

Lemma sort_flags_id f : wf_flags f -> sort_flags f = f.
Proof.
  intros [HS Hk]. apply sorted_perm_unique; [|done|apply sort_by_perm].
  apply sort_flags_wf; [by apply StronglySorted_lt_nodup|done].
Qed.

Lemma Add_wf f x : is_flag x = true -> wf_flags f -> wf_flags (Add f x).
Proof.
  intros Hx Hf. unfold Add. destruct (Has f x) eqn:E; [done|].
  apply Has_false in E. destruct Hf as [HS Hk]. apply sort_flags_wf.
  - apply NoDup_app. split_and!; [by apply StronglySorted_lt_nodup| |apply NoDup_singleton].
    intros y Hy ->%list_elem_of_singleton. done.
  - rewrite forallb_app, Hk. simpl. by rewrite Hx.
Qed.

Lemma elem_of_Add f x y : y ∈ Add f x <-> y = x \/ y ∈ f.
Proof.
  unfold Add. destruct (Has f x) eqn:E.
  - apply Has_true in E. naive_solver.
  - unfold sort_flags. rewrite (sort_by_perm _ _). set_solver.
Qed.

Lemma elem_of_Remove f x y : y ∈ Remove f x <-> y ∈ f /\ y <> x.
Proof.
  unfold Remove. rewrite list_elem_of_filter, Ascii.eqb_neq. naive_solver.
Qed.

Lemma StronglySorted_filter {A} (R : A -> A -> Prop) (P : A -> Prop) `{!forall x, Decision (P x)} l :
  StronglySorted R l -> StronglySorted R (filter P l).
Proof.
  induction 1 as [|x l HS IH HF]; [constructor|].
  rewrite filter_cons. case_decide; [|done]. constructor; [done|].
  rewrite List.Forall_forall in *. intros y Hy. apply HF.
  apply list_elem_of_In in Hy. apply list_elem_of_filter in Hy as [_ Hy].
  by apply list_elem_of_In.
Qed.

Lemma Remove_wf f x : wf_flags f -> wf_flags (Remove f x).
Proof.
  intros [HS Hk]. constructor; [by apply StronglySorted_filter|].
  rewrite forallb_forall in *. intros y Hy%list_elem_of_In.
  apply list_elem_of_filter in Hy as [_ Hy]. apply Hk. by apply list_elem_of_In.
Qed.

Lemma collect_flags_inv s f :
  NoDup f -> forallb is_flag f = true ->
  let g := fold_left (fun f r => if is_flag r && negb (Has f r) then f ++ [r] else f) s f in
  NoDup g /\ forallb is_flag g = true.
Proof.
  revert f. induction s as [|r s IH]; intros f Hn Hk; simpl; [done|].
  destruct (is_flag r && negb (Has f r)) eqn:E; [|by apply IH].
  apply andb_true_iff in E as [Er Ef%negb_true_iff%Has_false]. apply IH.
  - apply NoDup_app. split_and!; [done| |apply NoDup_singleton].
    intros y Hy ->%list_elem_of_singleton. done.
  - rewrite forallb_app, Hk. simpl. by rewrite Er.
Qed.

Lemma ParseFlags_wf name : wf_flags (ParseFlags name).
Proof.
  unfold ParseFlags. destruct (index infoSep name); [|by repeat constructor].
  destruct (collect_flags_inv (drop (n + length infoSep) name) []) as [Hn Hk];
    [constructor|done|]. by apply sort_flags_wf.
Qed.

(** Collecting from a duplicate-free list of known flags keeps it whole. *)
Lemma collect_flags_id_aux f g :
  NoDup (g ++ f) -> forallb is_flag f = true ->
  fold_left (fun f r => if is_flag r && negb (Has f r) then f ++ [r] else f) f g = g ++ f.
Proof.
  revert g. induction f as [|x f IH]; intros g Hn Hk; simpl; [by rewrite app_nil_r|].
  simpl in Hk. apply andb_true_iff in Hk as [Hx Hk].
  assert (Has g x = false) as ->.
  { apply Has_false. apply NoDup_app in Hn as (_ & H & _). intros Hg. apply (H x Hg). set_solver. }
  rewrite Hx. simpl. rewrite IH, <- app_assoc; [done| |done]. rewrite <- app_assoc. exact Hn.
Qed.

Lemma collect_flags_id f : wf_flags f -> collect_flags f = f.
Proof.
  intros [HS Hk]. apply (collect_flags_id_aux f []); [|done].
  by apply StronglySorted_lt_nodup.
Qed.

(** ** File names *)

(** The separator has no proper overlap with itself, so appending it to a
    name that does not hold it makes its first occurrence. *)
Lemma index_infoSep_app base r :
  index infoSep base = None -> index infoSep (base ++ infoSep ++ r) = Some (length base).
Proof.
  induction base as [|a base IH]; intros H; [done|].
  cbn [index] in H. destruct (has_prefix infoSep (a :: base)) eqn:Ep; [done|].
  destruct (index infoSep base) eqn:Ei; [done|].
  change ((a :: base) ++ infoSep ++ r) with (a :: base ++ infoSep ++ r).
  cbn [index]. rewrite IH by done.
  assert (has_prefix infoSep (a :: base ++ infoSep ++ r) = false) as ->; [|done].
  revert Ep. change infoSep with [":"; "2"; ","]%char. cbn [has_prefix app].
  destruct (Ascii.eqb ":" a); [|done]. destruct base as [|b base]; [done|].
  cbn [has_prefix app andb]. destruct (Ascii.eqb "2" b); [|done].
  by destruct base as [|c base].
Qed.

Lemma index_take pat s i : pat <> [] -> index pat s = Some i -> index pat (take i s) = None.
Proof.
  intros Hp. revert i. induction s as [|x r IH]; intros i; simpl.
  - destruct (has_prefix pat []); [|done]. intros [= <-]. by destruct pat.
  - destruct (has_prefix pat (x :: r)) eqn:E.
    + intros [= <-]. simpl. by destruct pat.
    + destruct (index pat r) as [j|] eqn:Ej; [|done]. intros [= <-]. simpl.
      rewrite IH by done.
      assert (has_prefix pat (x :: take j r) = false) as ->; [|done].
      destruct (has_prefix pat (x :: take j r)) eqn:E'; [|done].
      apply has_prefix_spec in E' as [t Ht].
      assert (has_prefix pat (x :: r) = true); [|congruence].
      apply has_prefix_spec. exists (t ++ drop j r).
      by rewrite app_assoc, <- Ht, <- app_comm_cons, take_drop.
Qed.

Lemma BaseName_no_info name : index infoSep (BaseName name) = None.
Proof.
  unfold BaseName. destruct (index infoSep name) eqn:E; [|done]. by apply index_take.
Qed.

Lemma BaseName_FileName base f :
  index infoSep base = None -> BaseName (FileName base f) = base.
Proof.
  intros H. unfold BaseName, FileName. rewrite index_infoSep_app by done. apply take_app_length.
Qed.

Lemma ParseFlags_FileName base f :
  index infoSep base = None -> wf_flags f -> ParseFlags (FileName base f) = f.
Proof.
  intros H Hf. unfold ParseFlags, FileName. rewrite index_infoSep_app by done.
  rewrite <- length_app, app_assoc, drop_app_length.
  rewrite collect_flags_id by done. by apply sort_flags_id.
Qed.

Lemma BaseName_idem name : BaseName (BaseName name) = BaseName name.
Proof.
  pose proof (BaseName_no_info name) as H. unfold BaseName at 1. by rewrite H.
Qed.

#[export] Hint Resolve ParseFlags_wf Add_wf Remove_wf BaseName_no_info : verta.

(** ** Properties *)

(** Renaming a message to new flags is lossless: whatever its current
    name, the base name is unchanged, so the UID list still finds it, and the
    flags read back are exactly the ones written. *)
Theorem filename_roundtrip (name : str) (f : Flags) (Hf : wf_flags f) :
  let renamed := FileName (BaseName name) f in
  BaseName renamed = BaseName name /\ ParseFlags renamed = f.
Proof.
  split; [apply BaseName_FileName|apply ParseFlags_FileName]; auto with verta.
Qed.

Lemma filename_roundtrip_witness :
  BaseName (FileName (BaseName #"123.M4:2,S") #"FST") = #"123.M4"
  /\ ParseFlags (FileName (BaseName #"123.M4:2,S") #"FST") = #"FST".
Proof.
  apply (filename_roundtrip #"123.M4:2,S" #"FST").
  constructor; [|done]. repeat constructor.
Defined.
