(* ===== verification/Maildir.v ===== *)
(** * Maildir mailboxes (internal/maildir/mailbox.go, maildir.go)

    Delivery, the persisted UID list and the operations of a mailbox snapshot.
    A [*Message] is an element of the snapshot that owns it and is denoted by
    its index there; an operation that changes a message in place returns the
    changed snapshot. *)

From S2P Require Import Prelude GoStrings GoOS Lines MaildirFlags.

Definition uidListFile : str := #"verta-uidlist".
Definition Inbox : str := #"INBOX".

Record Message := mkMessage {
  mUID : Z;
  mSeq : Z;
  mName : str;
  mDir : str;
  mFlags : Flags;
  mRecent : bool;
  mSize : Z;
  mInternal : Z;
  mRoot : path;
  mFolder : str }.

Record Mailbox := mkMailbox {
  bxRoot : path;
  bxFolder : str;
  bxMessages : list Message;
  bxUIDValidity : Z;
  bxUIDNext : Z }.

Definition set_seq (m : Message) (s : Z) : Message :=
  mkMessage (mUID m) s (mName m) (mDir m) (mFlags m) (mRecent m) (mSize m) (mInternal m)
    (mRoot m) (mFolder m).
Definition set_messages (mb : Mailbox) (l : list Message) : Mailbox :=
  mkMailbox (bxRoot mb) (bxFolder mb) l (bxUIDValidity mb) (bxUIDNext mb).

(** ** Paths *)

Definition folderDir (root : path) (folder : str) : path :=
  if (folder =s []) || equal_fold folder Inbox then root
  else join_path root (#"." ++ folder).

Definition Path (m : Message) : path :=
  join_path (join_path (folderDir (mRoot m) (mFolder m)) (mDir m)) (mName m).

Definition Read (m : Message) : M str := ReadFile (Path m).

(** ** Queries on a snapshot *)

Definition Count (mb : Mailbox) : Z := Z.of_nat (length (bxMessages mb)).
Definition Recent (mb : Mailbox) : Z := Z.of_nat (length (List.filter mRecent (bxMessages mb))).
Definition unseen (m : Message) : bool := negb (Has (mFlags m) FlagSeen).
Definition Unseen (mb : Mailbox) : Z := Z.of_nat (length (List.filter unseen (bxMessages mb))).
Definition FirstUnseen (mb : Mailbox) : Z :=
  match List.find unseen (bxMessages mb) with Some m => mSeq m | None => 0 end.
Definition ByUID (mb : Mailbox) (uid : Z) : option Message :=
  List.find (fun m => mUID m =? uid) (bxMessages mb).
Definition BySeq (mb : Mailbox) (seq : Z) : option Message :=
  if (seq <? 1) || (Count mb <? seq) then None
  else bxMessages mb !! Z.to_nat (seq - 1).

(** ** The UID list *)

(** [newUIDValidity]: the low 32 bits of the nanosecond clock, never 0. *)
Definition newUIDValidity : M Z :=
  t ← time_now; mret (if u32 t =? 0 then 1 else u32 t).

(** The header line: [V<uidvalidity> N<uidnext>]. *)
Definition parse_header (line : str) : option (Z * Z) :=
  match fields line with
  | [a; b] =>
      if has_prefix #"V" a && has_prefix #"N" b then
        match parse_uint 32 (drop 1 a), parse_uint 32 (drop 1 b) with
        | Some v, Some n => if n <? 1 then None else Some (v, n)
        | _, _ => None
        end
      else None
  | _ => None
  end.

(** One [<uid> <basename>] line. *)
Definition parse_entry (uids : gmap str Z) (line : str) : gmap str Z :=
  match index_byte SP line with
  | Some (S sp) =>
      match parse_uint 32 (take (S sp) line) with
      | Some uid => <[drop (S (S sp)) line := uid]> uids
      | None => uids
      end
  | _ => uids
  end.

(** What a UID list file says, if it is not corrupt. *)
Definition parse_uid_list (content : str) : option (gmap str Z * Z * Z) :=
  match scan_lines (1024 * 1024) content with
  | [] => None
  | header :: entries =>
      match parse_header header with
      | Some (validity, next) => Some (fold_left parse_entry entries ∅, validity, next)
      | None => None
      end
  end.

Definition uid_list_path (mb : Mailbox) : path :=
  join_path (folderDir (bxRoot mb) (bxFolder mb)) uidListFile.

Definition fresh_uid_list : M (gmap str Z * Z * Z) :=
  v ← newUIDValidity; mret (∅, v, 1).

Definition readUIDList (mb : Mailbox) : M (gmap str Z * Z * Z) :=
  r ← try (OpenScan (uid_list_path mb));
  match r with
  | Err e => if IsNotExist e then fresh_uid_list else throw e
  | Ok content =>
      match parse_uid_list content with
      | Some u => mret u
      | None => fresh_uid_list
      end
  end.

Definition print_entry (kv : str * Z) : str := dec kv.2 ++ #" " ++ kv.1 ++ [LF].

Definition print_uid_list (uids : gmap str Z) (validity next : Z) : str :=
  #"V" ++ dec validity ++ #" N" ++ dec next ++ [LF]
  ++ mjoin (print_entry <$> sort_by snd (map_to_list uids)).

Definition writeUIDList (mb : Mailbox) (uids : gmap str Z) (validity next : Z) : M unit :=
  let path := uid_list_path mb in
  let tmp := join_path (folderDir (bxRoot mb) (bxFolder mb)) (uidListFile ++ #".tmp") in
  WriteFile tmp (print_uid_list uids validity next) ≫= fun _ =>
  r ← try (Rename tmp path);
  match r with
  | Ok _ => mret tt
  | Err e => try (GoOS.Remove tmp) ≫= fun _ => throw e
  end.

(** ** Refresh *)

(** A message file found by the scan: name, subdirectory and file. *)
Record found := mkFound { fdName : str; fdSub : str; fdFile : file }.

(** The entries of one subdirectory: directories and dot files are skipped,
    and so is a file that vanishes before it is examined. *)
Fixpoint collect (sub : str) (ents : list dirent) : M (list found) :=
  match ents with
  | [] => mret []
  | e :: rest =>
      match deFile e with
      | None => collect sub rest
      | Some f =>
          if has_prefix #"." (deName e) then collect sub rest
          else
            r ← try (syscall (mret tt));
            l ← collect sub rest;
            mret (if is_ok r then mkFound (deName e) sub f :: l else l)
      end
  end.

Definition scan_sub (dir : path) (sub : str) : M (list found) :=
  r ← try (ReadDir (join_path dir sub));
  match r with
  | Err e => if IsNotExist e then mret [] else throw e
  | Ok ents => collect sub ents
  end.

(** Unknown base names get the next UIDs, in delivery order. *)
Definition assign_step (st : gmap str Z * Z * bool) (e : found) : gmap str Z * Z * bool :=
  let '(uids, next, dirty) := st in
  let base := BaseName (fdName e) in
  match uids !! base with
  | Some _ => st
  | None => (<[base := next]> uids, u32 (next + 1), true)
  end.
Definition assign (uids : gmap str Z) (next : Z) (l : list found) : gmap str Z * Z * bool :=
  fold_left assign_step l (uids, next, false).

Definition mk_message (root : path) (folder : str) (uids : gmap str Z) (e : found) : Message :=
  mkMessage (default 0 (uids !! BaseName (fdName e))) 0 (fdName e) (fdSub e)
    (ParseFlags (fdName e)) (fdSub e =s #"new") (Z.of_nat (length (fData (fdFile e))))
    (fTime (fdFile e)) root folder.

(** Sequence numbers 1, 2, ... in order. *)
Definition renumber (l : list Message) : list Message :=
  imap (fun i m => set_seq m (u32 (Z.of_nat i + 1))) l.

Definition build (root : path) (folder : str) (uids : gmap str Z) (l : list found) : list Message :=
  renumber (sort_by mUID (map (mk_message root folder uids) l)).

(** The entries of the messages that still exist. *)
Definition live (msgs : list Message) : gmap str Z :=
  fold_left (fun acc m => <[BaseName (mName m) := mUID m]> acc) msgs ∅.

(** [Refresh] updates the snapshot step by step and reports an error, if any,
    next to the snapshot as far as it got. *)
Definition Refresh (mb : Mailbox) : M (Mailbox * option error) :=
  let dir := folderDir (bxRoot mb) (bxFolder mb) in
  ru ← try (readUIDList mb);
  match ru with
  | Err e => mret (mb, Some e)
  | Ok (uids, validity, next) =>
      let mb1 := mkMailbox (bxRoot mb) (bxFolder mb) (bxMessages mb) validity (bxUIDNext mb) in
      rf ← try (fnew ← scan_sub dir #"new"; fcur ← scan_sub dir #"cur"; mret (fnew ++ fcur));
      match rf with
      | Err e => mret (mb1, Some e)
      | Ok l0 =>
          let l := sort_by (fun e => fTime (fdFile e)) l0 in
          let '(uids', next', dirty) := assign uids next l in
          let msgs := build (bxRoot mb) (bxFolder mb) uids' l in
          let mb' := mkMailbox (bxRoot mb) (bxFolder mb) msgs validity next' in
          if dirty : bool
          then
            rw ← try (writeUIDList mb' (live msgs) validity next');
            mret (mb', match rw with Err e => Some e | Ok _ => None end)
          else mret (mb', None)
      end
  end.

(** [if err := mb.Refresh(); err != nil { return ..., err }]. *)
Definition refreshed (mb : Mailbox) : M Mailbox :=
  r ← Refresh mb;
  match r with
  | (mb', None) => mret mb'
  | (_, Some e) => throw e
  end.

Definition OpenMailbox (root : path) (folder : str) : M Mailbox :=
  let dir := folderDir root folder in
  for_each [ []; #"tmp"; #"new"; #"cur"] (fun sub => wrap (MkdirAll (join_path dir sub))) ≫= fun _ =>
  refreshed (mkMailbox root folder [] 0 0).

(** ** Delivery (maildir.go) *)

(** [sanitizeHost]. *)
Definition sanitizeHost (h : str) : str :=
  map (fun c => if existsb (Ascii.eqb c) [":"; "/"; BSL; " "]%char then "-"%char else c)
      (trim_space h).

(** The unique name of a delivery. *)
Definition delivery_name : M str :=
  t1 ← time_now; t2 ← time_now;
  s ← next_seq; r ← rand_uint32; w ← get_world;
  mret (dec (t1 / 10 ^ 9) ++ #".M" ++ dec (t2 mod 10 ^ 9 / 1000) ++ #"P" ++ dec (wPid w)
        ++ #"Q" ++ dec s ++ #"R" ++ hex r ++ #"." ++ wHost w).

(** The subdirectory and name a message lands under. *)
Definition landing (base : str) (flags : Flags) : str * str :=
  match flags with
  | [] => (#"new", base)
  | _ => (#"cur", FileName base flags)
  end.

(** The temporary file is written, synced, closed and renamed.  The error of
    [f.Write] and that of [f.Sync] are bound by the [if] statement and do not
    reach the test that follows: only the error of [f.Close] does. *)
Definition write_and_move (tmp final : path) (msg : str) : M path :=
  werr ← try (FileWrite tmp msg);
  (if is_ok werr then try FileSync else mret (Ok tt)) ≫= fun _ =>
  cerr ← try FileClose;
  match cerr with
  | Err e => try (GoOS.Remove tmp) ≫= fun _ => throw (ErrWrap e)
  | Ok _ =>
      r ← try (Rename tmp final);
      match r with
      | Err e => try (GoOS.Remove tmp) ≫= fun _ => throw (ErrWrap e)
      | Ok _ => mret final
      end
  end.

(** Ownership changes ([chown]) have no effect on the model. *)
Definition DeliverWithFlags (dir : path) (msg : str) (flags : Flags) : M path :=
  for_each [ []; #"tmp"; #"new"; #"cur"] (fun sub => wrap (MkdirAll (join_path dir sub))) ≫= fun _ =>
  base ← delivery_name;
  let tmp := join_path (join_path dir #"tmp") base in
  let '(sub, name) := landing base flags in
  let final := join_path (join_path dir sub) name in
  wrap (CreateExcl tmp) ≫= fun _ => write_and_move tmp final msg.

Definition Deliver (dir : path) (msg : str) : M path := DeliverWithFlags dir msg [].

(** ** Operations *)

(** [SetFlags] on the message at index [i] of the snapshot. *)
Definition SetFlags (mb : Mailbox) (i : nat) (f : Flags) : M Mailbox :=
  match bxMessages mb !! i with
  | None => mret mb
  | Some m =>
      let dir := folderDir (bxRoot mb) (bxFolder mb) in
      let newName := FileName (BaseName (mName m)) f in
      let oldPath := join_path (join_path dir (mDir m)) (mName m) in
      let newPath := join_path (join_path dir #"cur") newName in
      let m' := mkMessage (mUID m) (mSeq m) newName #"cur" f false (mSize m) (mInternal m)
                  (mRoot m) (mFolder m) in
      let mb' := set_messages mb (<[i := m']> (bxMessages mb)) in
      if decide (oldPath = newPath) then mret mb'
      else Rename oldPath newPath ≫= fun _ => mret mb'
  end.

Definition deleted (m : Message) : bool := Has (mFlags m) FlagDeleted.

(** The removals of [Expunge]; a file already gone is not an error. *)
Definition expunge_files (msgs : list Message) : M unit :=
  for_each msgs (fun m =>
    if deleted m then
      r ← try (GoOS.Remove (Path m));
      match r with
      | Err e => if IsNotExist e then mret tt else throw e
      | Ok _ => mret tt
      end
    else mret tt).

(** The sequence numbers removed, highest first, and what is kept. *)
Definition expunged (msgs : list Message) : list Z :=
  sort_slice (fun a b => b <? a) (map mSeq (List.filter deleted msgs)).
Definition kept (msgs : list Message) : list Message :=
  renumber (List.filter (fun m => negb (deleted m)) msgs).

Definition Expunge (mb : Mailbox) : M (list Z * Mailbox) :=
  expunge_files (bxMessages mb) ≫= fun _ =>
  match expunged (bxMessages mb) with
  | [] => mret ([], mb)
  | seqs => mret (seqs, set_messages mb (kept (bxMessages mb)))
  end.

(** [Append]; [internal] is [None] for the zero time. *)
Definition Append (mb : Mailbox) (data : str) (f : Flags) (internal : option Z)
    : M (Message * Mailbox) :=
  let dir := folderDir (bxRoot mb) (bxFolder mb) in
  path ← Deliver dir data;
  match internal with
  | Some t => try (Chtimes path t)
  | None => mret (Ok tt)
  end ≫= fun _ =>
  match f with
  | [] => mret tt
  | _ => Rename path (join_path (join_path dir #"cur")
                        (FileName (BaseName (default [] (last path))) f))
  end ≫= fun _ =>
  mb' ← refreshed mb;
  match last (bxMessages mb') with
  | Some m => mret (m, mb')
  | None => throw (ErrText #"appended message not found after refresh")
  end.

Definition CopyTo (mb : Mailbox) (m : Message) (folder : str) : M unit :=
  data ← Read m;
  dst ← OpenMailbox (bxRoot mb) folder;
  Append dst data (mFlags m) (Some (mInternal m)) ≫= fun _ => mret tt.

(** ** Folders *)

Definition str_sort : list str -> list str := sort_slice str_ltb.

Definition Folders (root : path) : M (list str) :=
  r ← try (ReadDir root);
  match r with
  | Err e => if IsNotExist e then mret [Inbox] else throw e
  | Ok ents =>
      mret (Inbox :: str_sort (omap (fun e =>
        match deFile e, deName e with
        | None, "."%char :: name => if (name =s []) || (name =s #".") then None else Some name
        | _, _ => None
        end) ents))
  end.

Definition mkdirs (dir : path) : M unit :=
  for_each [ []; #"tmp"; #"new"; #"cur"] (fun sub => MkdirAll (join_path dir sub)).

Definition CreateFolder (root : path) (folder : str) : M unit :=
  if equal_fold folder Inbox then throw (ErrText #"INBOX already exists")
  else
    let dir := folderDir root folder in
    r ← try (Stat dir);
    if is_ok r then throw (ErrText #"mailbox already exists") else mkdirs dir.

Definition StandardFolders : list (str * str) :=
  [ (#"Sent", BSL :: #"Sent"); (#"Drafts", BSL :: #"Drafts");
    (#"Trash", BSL :: #"Trash"); (#"Spam", BSL :: #"Junk")].

Definition SpecialUse (folder : str) : str :=
  match List.find (fun f => equal_fold folder f.1) StandardFolders with
  | Some f => f.2
  | None => []
  end.

Definition EnsureStandardFolders (root : path) : M unit :=
  for_each StandardFolders (fun f =>
    let dir := folderDir root f.1 in
    r ← try (Stat dir);
    if is_ok r then mret tt else mkdirs dir).

Definition DeleteFolder (root : path) (folder : str) : M unit :=
  if equal_fold folder Inbox then throw (ErrText #"cannot delete INBOX")
  else
    let dir := folderDir root folder in
    r ← try (Stat dir);
    if is_ok r then RemoveAll dir else throw (ErrText #"mailbox does not exist").
