(* ===== verification/MaildirUID.v ===== *)
(** * The UID contract of a mailbox

    IMAP requires UIDs that are strictly ascending, never reused within a
    UIDVALIDITY and stable across sessions.  This file states that contract
    for [Refresh] and the UID list file, and proves it. *)

From S2P Require Import Prelude GoStrings GoOS Lines MaildirFlags Maildir.

(** ** The file format *)

(** A base name the UID list file can hold: one line, no trailing carriage
    return, of a length file systems allow. *)
Definition line_safe (s : str) : Prop :=
  LF ∉ s /\ last s <> Some CR /\ Z.of_nat (length s) < 4096.

Lemma parse_header_print v n :
  0 <= v < 2 ^ 32 -> 1 <= n < 2 ^ 32 ->
  parse_header (#"V" ++ dec v ++ #" N" ++ dec n) = Some (v, n).
Proof.
  intros Hv Hn. unfold parse_header. change (#" N") with (SP :: ["N"%char]).
  change (#"V" ++ dec v ++ (SP :: ["N"%char]) ++ dec n) with (two_counts "V" v "N" n).
  rewrite fields_two_counts by (done || lia).
  change ("V"%char :: dec v) with (#"V" ++ dec v). change ("N"%char :: dec n) with (#"N" ++ dec n).
  rewrite !has_prefix_app. cbn [andb].
  change (drop 1 (#"V" ++ dec v)) with (drop 0 (dec v)).
  change (drop 1 (#"N" ++ dec n)) with (drop 0 (dec n)).
  rewrite !drop_0, !parse_uint_dec by lia.
  destruct (Z.ltb_spec n 1); [lia|done].
Qed.

Lemma parse_entry_print uids k u :
  0 <= u < 2 ^ 32 -> parse_entry uids (dec u ++ #" " ++ k) = <[k := u]> uids.
Proof.
  intros Hu. unfold parse_entry. change (dec u ++ #" " ++ k) with (dec u ++ SP :: k).
  assert (SP ∉ dec u) as Hn by (apply not_in_digits; [done|apply dec_digits; lia]).
  rewrite index_byte_app by done.
  destruct (length (dec u)) as [|n] eqn:E.
  - apply nil_length_inv in E. unfold dec in E. destruct (Z.ltb_spec u 0); [lia|].
    by apply dec_N_nonempty in E.
  - rewrite <- E, take_app_length, drop_S_length_app. by rewrite parse_uint_dec.
Qed.

Lemma fold_entries (l : list (str * Z)) (m : gmap str Z) :
  Forall (fun kv : str * Z => 0 <= kv.2 < 2 ^ 32) l ->
  fold_left parse_entry ((fun kv : str * Z => dec kv.2 ++ #" " ++ kv.1) <$> l) m
  = fold_left (fun m kv => <[kv.1 := kv.2]> m) l m.
Proof.
  intros HF. revert m. induction HF as [|kv l Hkv HF IH]; intros m; [done|].
  rewrite fmap_cons. cbn [fold_left fst snd]. by rewrite parse_entry_print, IH.
Qed.

(** Reading back what was written gives the same assignment. *)
Lemma parse_print_uid_list uids v n :
  0 <= v < 2 ^ 32 -> 1 <= n < 2 ^ 32 ->
  map_Forall (fun k u => line_safe k /\ 0 <= u < 2 ^ 32) uids ->
  parse_uid_list (print_uid_list uids v n) = Some (uids, v, n).
Proof.
  intros Hv Hn HF. set (l := sort_by snd (map_to_list uids)).
  assert (Permutation l (map_to_list uids)) as HP by apply sort_by_perm.
  assert (Forall (fun kv : str * Z => line_safe kv.1 /\ 0 <= kv.2 < 2 ^ 32) l) as HFl.
  { rewrite HP. apply map_Forall_to_list in HF.
    eapply Forall_impl; [exact HF|]. by intros []. }
  assert (print_uid_list uids v n
    = unlines ((#"V" ++ dec v ++ #" N" ++ dec n)
                :: ((fun kv : str * Z => dec kv.2 ++ #" " ++ kv.1) <$> l))) as ->.
  { unfold print_uid_list. fold l. rewrite unlines_cons, <- !app_assoc.
    do 4 f_equal. change (?a ++ [LF] ++ ?x) with (a ++ LF :: x). do 2 f_equal.
    unfold unlines. rewrite <- list_fmap_compose. f_equal.
    apply list_fmap_ext. intros ? [k u] _. unfold print_entry. simpl.
    by rewrite <- app_assoc. }
  unfold parse_uid_list. rewrite scan_lines_unlines.
  - rewrite parse_header_print by done.
    rewrite fold_entries by (eapply Forall_impl; [exact HFl|]; naive_solver).
    by rewrite (fold_insert_map_to_list uids).
  - pose proof (dec_length v ltac:(lia)). pose proof (dec_length n ltac:(lia)).
    destruct (digits_line_safe _ (dec_digits v ltac:(lia))).
    destruct (digits_line_safe _ (dec_digits n ltac:(lia))).
    constructor.
    + split_and!.
      * rewrite !not_elem_of_app. split_and!; try done; rewrite <- index_byte_None; done.
      * rewrite !last_app. destruct (last (dec n)) eqn:E; [done|].
        apply last_None in E. unfold dec in E. destruct (Z.ltb_spec n 0); [lia|].
        by apply dec_N_nonempty in E.
      * rewrite !length_app. change (length #"V") with 1%nat.
        change (length #" N") with 2%nat. lia.
    + apply Forall_fmap. eapply Forall_impl; [exact HFl|].
      intros [k u] [(Hk & Hl & Hlen) Hu]. cbn [fst snd] in *.
      destruct (digits_line_safe _ (dec_digits u ltac:(lia))).
      pose proof (dec_length u ltac:(lia)). split_and!.
      * rewrite !not_elem_of_app. split_and!; try done. by rewrite <- index_byte_None.
      * rewrite !last_app. cbn [fst]. destruct (last k) eqn:E; [congruence|]. by vm_compute.
      * rewrite !length_app. change (length #" ") with 1%nat. cbn [fst snd]. lia.
Qed.

(** ** UID assignment *)

(** A UID assignment is sound: UIDs are positive, below the next one, and no
    two names share one. *)
Definition uid_ok (uids : gmap str Z) (next : Z) : Prop :=
  1 <= next /\ (forall k u, uids !! k = Some u -> 1 <= u < next) /\
  (forall k k' u, uids !! k = Some u -> uids !! k' = Some u -> k = k').

Definition found_base (e : found) : str := BaseName (fdName e).

(** What [assign] makes of a sound assignment. *)
Record assigned (uids : gmap str Z) (next : Z) (l : list found)
    (uids' : gmap str Z) (next' : Z) (dirty : bool) : Prop := {
  as_ok : uid_ok uids' next';
  as_keeps : forall k u, uids !! k = Some u -> uids' !! k = Some u;
  as_next : next <= next' <= next + Z.of_nat (length l);
  as_total : forall e, e ∈ l -> is_Some (uids' !! found_base e);
  as_new : forall k u, uids' !! k = Some u -> uids !! k = Some u \/ (uids !! k = None /\ next <= u);
  as_clean : dirty = false -> uids' = uids /\ next' = next }.

Lemma uid_ok_insert uids next k :
  uid_ok uids next -> uids !! k = None -> uid_ok (<[k := next]> uids) (next + 1).
Proof.
  intros (H1 & Hr & Hi) Hk. split_and!; [lia| |].
  - intros k' u [[<- <-]|[Hne Hu]]%lookup_insert_Some; [lia|]. apply Hr in Hu. lia.
  - intros k1 k2 u [[E1 E2]|[Hne Hu]]%lookup_insert_Some [[E3 E4]|[Hne' Hu']]%lookup_insert_Some;
      [congruence| | |by eapply Hi].
    + apply Hr in Hu'. lia.
    + apply Hr in Hu. lia.
Qed.

Lemma assign_spec l : forall uids next d,
  uid_ok uids next -> next + Z.of_nat (length l) < 2 ^ 32 ->
  let '(uids', next', dirty) := fold_left assign_step l (uids, next, d) in
  assigned uids next l uids' next' dirty /\ (d = true -> dirty = true).
Proof.
  induction l as [|e l IH]; intros uids next d Hok Hb; cbn [fold_left assign_step].
  { split; [|done]. split; [done|done|simpl; lia|set_solver|eauto|done]. }
  change (length (e :: l)) with (S (length l)) in *.
  fold (found_base e). destruct (uids !! found_base e) as [u|] eqn:E.
  - specialize (IH uids next d Hok ltac:(lia)).
    destruct (fold_left assign_step l (uids, next, d)) as [[uids' next'] dirty].
    destruct IH as [[] Hd]. split; [|done]. split; [done|done|cbn [length]; lia| |done|done].
    intros e' [->|He]%elem_of_cons; eauto.
  - destruct Hok as (H1 & Hr & Hi). rewrite u32_id by lia.
    specialize (IH (<[found_base e := next]> uids) (next + 1) true).
    specialize (IH ltac:(by apply uid_ok_insert) ltac:(lia)).
    destruct (fold_left assign_step l _) as [[uids' next'] dirty].
    destruct IH as [[Ho Hk Hn Ht Hw Hc] Hd]. split; [|auto]. split; [done| |cbn [length]; lia| | |].
    + intros k u Hu. apply Hk. rewrite lookup_insert_ne; [done|]. congruence.
    + intros e' [->|He]%elem_of_cons; [|by apply Ht].
      exists next. apply Hk. by rewrite lookup_insert_eq.
    + intros k u [[[<- <-]|[Hne Hu]]%lookup_insert_Some|[Hu Hlt]]%Hw;
        [right; split; [done|lia]|by left|].
      apply lookup_insert_None in Hu as [Hu _]. right. split; [done|lia].
    + rewrite Hd by done. done.
Qed.

(** ** The snapshot built from the files *)

Definition base_uid (m : Message) : str * Z := (BaseName (mName m), mUID m).

Lemma renumber_fmap {B} (f : Message -> B) l :
  (forall m s, f (set_seq m s) = f m) -> f <$> renumber l = f <$> l.
Proof.
  intros H. unfold renumber. apply list_eq. intros i.
  rewrite !list_lookup_fmap, list_lookup_imap. destruct (l !! i); simpl; [by rewrite H|done].
Qed.

Lemma build_base_uid root folder uids l :
  Permutation (base_uid <$> build root folder uids l)
    ((fun e => (found_base e, default 0 (uids !! found_base e))) <$> l).
Proof.
  unfold build. rewrite renumber_fmap by done. rewrite sort_by_perm.
  change (map (mk_message root folder uids) l) with (mk_message root folder uids <$> l).
  by rewrite <- list_fmap_compose.
Qed.

Lemma elem_of_build root folder uids l m :
  m ∈ build root folder uids l ->
  exists e s, e ∈ l /\ m = set_seq (mk_message root folder uids e) s.
Proof.
  intros (i & Hi)%list_elem_of_lookup. unfold build, renumber in Hi.
  rewrite list_lookup_imap in Hi. apply fmap_Some in Hi as (m0 & Hm & ->).
  apply list_elem_of_lookup_2 in Hm. rewrite sort_by_perm in Hm.
  apply list_elem_of_fmap in Hm as (e & -> & He). eauto.
Qed.

Lemma StronglySorted_strict {A} (f : A -> Z) l :
  StronglySorted (fun x y => f x <= f y) l -> NoDup (f <$> l) ->
  StronglySorted (fun x y => f x < f y) l.
Proof.
  induction 1 as [|x l HS IH HF]; intros Hn; constructor.
  - apply IH. by apply NoDup_cons in Hn as [_ ?].
  - rewrite fmap_cons in Hn. apply NoDup_cons in Hn as [Hx _].
    rewrite Forall_forall in *. intros y Hy. specialize (HF y Hy).
    assert (f x <> f y); [|lia]. intros E. apply Hx. rewrite E.
    by apply list_elem_of_fmap_2.
Qed.

Lemma StronglySorted_fmap {A B} (f : A -> B) (R : B -> B -> Prop) l :
  StronglySorted (fun x y => R (f x) (f y)) l <-> StronglySorted R (f <$> l).
Proof.
  induction l as [|x l IH]; [by split; constructor|]. rewrite fmap_cons. split.
  - intros H. inversion H; subst. constructor; [by apply IH|]. by apply Forall_fmap.
  - intros H. inversion H; subst. constructor; [by apply IH|]. by apply Forall_fmap.
Qed.

(** UIDs strictly ascend with the position, and the positions are numbered. *)
Definition ordered (msgs : list Message) : Prop :=
  StronglySorted Z.lt (mUID <$> msgs) /\
  (forall i m, msgs !! i = Some m -> mSeq m = Z.of_nat i + 1).

Lemma renumber_seq l i m :
  Z.of_nat (length l) < 2 ^ 32 -> renumber l !! i = Some m -> mSeq m = Z.of_nat i + 1.
Proof.
  intros Hl Hi. pose proof (lookup_lt_Some _ _ _ Hi) as Hlt.
  unfold renumber in *. rewrite length_imap in Hlt. rewrite list_lookup_imap in Hi.
  apply fmap_Some in Hi as (m0 & _ & ->). simpl. apply u32_id. lia.
Qed.

Lemma build_ordered root folder uids l :
  (forall e e', e ∈ l -> e' ∈ l -> default 0 (uids !! found_base e) = default 0 (uids !! found_base e')
    -> found_base e = found_base e') ->
  NoDup (found_base <$> l) -> Z.of_nat (length l) < 2 ^ 32 ->
  ordered (build root folder uids l).
Proof.
  intros Hinj Hnd Hlen. split.
  - unfold build. rewrite renumber_fmap by done. apply (proj1 (StronglySorted_fmap mUID Z.lt _)).
    apply StronglySorted_strict; [apply sort_by_sorted|]. rewrite sort_by_perm.
    change (map (mk_message root folder uids) l) with (mk_message root folder uids <$> l).
    rewrite <- list_fmap_compose. clear Hlen.
    induction l as [|e l IH]; [constructor|]. rewrite !fmap_cons in *.
    apply NoDup_cons in Hnd as [He Hnd]. constructor.
    + intros (e' & E & He')%list_elem_of_fmap. apply He. simpl in E.
      rewrite (Hinj e e'); [by apply list_elem_of_fmap_2| | |done]; set_solver.
    + apply IH; [|done]. intros; apply Hinj; set_solver.
  - intros i m. apply renumber_seq. by rewrite sort_by_perm, length_map.
Qed.

(** ** Refresh on a disk without faults *)

(** The UID list file of a folder, if it is there and not corrupt. *)
Definition disk_list (w : world) (dir : path) : option (gmap str Z * Z * Z) :=
  match wFiles w !! (dir ++ [uidListFile]) with
  | Some f => parse_uid_list (fData f)
  | None => None
  end.

(** The message files of one subdirectory, and of the folder, in delivery
    order. *)
Definition found_of (sub : str) (e : dirent) : option found :=
  match deFile e with
  | Some f => if has_prefix #"." (deName e) then None else Some (mkFound (deName e) sub f)
  | None => None
  end.
Definition sub_files (w : world) (dir : path) (sub : str) : list found :=
  if decide (dir ++ [sub] ∈ wDirs w) then
    omap (found_of sub)
      (sort_slice (fun a b => str_ltb (deName a) (deName b))
        (file_entries w (dir ++ [sub]) ++ dir_entries w (dir ++ [sub])))
  else [].
Definition folder_files (w : world) (dir : path) : list found :=
  sort_by (fun e => fTime (fdFile e)) (sub_files w dir #"new" ++ sub_files w dir #"cur").

Lemma join_lit p (s : str) : plain s -> join_path p s = p ++ [s].
Proof. apply join_plain. Qed.

Lemma plain_uidlist : plain uidListFile /\ plain (uidListFile ++ #".tmp").
Proof. split; split_and!; try done; by rewrite <- index_byte_None. Qed.

Lemma plain_subs : plain #"new" /\ plain #"cur" /\ plain #"tmp".
Proof. split_and!; split_and!; try done; by rewrite <- index_byte_None. Qed.

Lemma collect_ok sub ents w :
  wFaults w = [] -> collect sub ents w = (Ok (omap (found_of sub) ents), w).
Proof.
  intros Hw. induction ents as [|e ents IH]; [done|].
  cbn [collect omap list_omap]. unfold found_of at 1.
  destruct (deFile e) as [f|]; [|done]. destruct (has_prefix #"." (deName e)); [done|].
  rewrite (bind_ok _ _ w (Ok tt) w) by (by apply try_eq; rewrite syscall_ok).
  by rewrite (bind_ok _ _ _ _ _ IH).
Qed.

Lemma scan_sub_ok w dir sub :
  wFaults w = [] -> plain sub -> scan_sub dir sub w = (Ok (sub_files w dir sub), w).
Proof.
  intros Hw Hs. unfold scan_sub, sub_files. rewrite join_plain by done.
  erewrite bind_ok by (by apply try_eq, ReadDir_ok). case_decide; [|done].
  by apply collect_ok.
Qed.

Lemma readUIDList_ok mb w :
  wFaults w = [] ->
  exists uids v n w', readUIDList mb w = (Ok (uids, v, n), w') /\ same_disk w w' /\
    match disk_list w (folderDir (bxRoot mb) (bxFolder mb)) with
    | Some d => d = (uids, v, n)
    | None => uids = ∅ /\ n = 1 /\ 0 <= v < 2 ^ 32
    end.
Proof.
  intros Hw. unfold readUIDList, uid_list_path, disk_list.
  rewrite join_plain by apply plain_uidlist.
  set (p := _ ++ [uidListFile]).
  assert (exists v w', fresh_uid_list w = (Ok (∅, v, 1), w') /\ same_disk w w' /\ 0 <= v < 2 ^ 32)
    as (v & w' & Hf & Hd & Hv).
  { unfold fresh_uid_list, newUIDValidity. destruct (time_now_ok w) as (t & w' & Ht & Hd).
    eexists _, w'. erewrite bind_ok; [|by erewrite bind_ok]. split; [done|]. split; [done|].
    destruct (u32 t =? 0); [lia|apply u32_range]. }
  assert (OpenScan p w = (match wFiles w !! p with Some f => Ok (fData f) | None => Err ENOENT end, w))
    as Ho.
  { unfold OpenScan, mbind, M_bind, next_fault, get_world. rewrite Hw. by destruct (wFiles w !! p). }
  erewrite bind_ok by (apply try_eq, Ho).
  destruct (wFiles w !! p) as [f|].
  - destruct (parse_uid_list (fData f)) as [[[uids v'] n]|] eqn:E.
    + by exists uids, v', n, w.
    + by exists ∅, v, 1, w'.
  - by exists ∅, v, 1, w'.
Qed.

Lemma writeUIDList_ok mb uids v n w :
  wFaults w = [] -> folderDir (bxRoot mb) (bxFolder mb) ∈ wDirs w ->
  exists w', writeUIDList mb uids v n w = (Ok tt, w') /\ wFaults w' = [] /\ wDirs w' = wDirs w /\
    wFiles w' !! (folderDir (bxRoot mb) (bxFolder mb) ++ [uidListFile])
      = Some (mkFile (print_uid_list uids v n) (wNow w)).
Proof.
  intros Hw Hd. unfold writeUIDList, uid_list_path.
  rewrite !join_plain by apply plain_uidlist.
  erewrite bind_ok by (apply WriteFile_ok; [done|by rewrite parent_snoc]).
  erewrite bind_ok; cycle 1.
  { apply try_eq, Rename_ok; [done|by apply lookup_insert_eq|by rewrite parent_snoc]. }
  eexists. split; [done|]. split_and!; [done|done|]. simpl. by rewrite lookup_insert_eq.
Qed.

(** A folder whose file system works, whose base names are distinct, whose
    UID list is sound and whose UIDs are not exhausted. *)
Record healthy (w : world) (dir : path) : Prop := {
  h_faults : wFaults w = [];
  h_dir : dir ∈ wDirs w;
  h_distinct : NoDup (found_base <$> folder_files w dir);
  h_safe : Forall (fun e => line_safe (found_base e)) (folder_files w dir);
  h_list : match disk_list w dir with
           | Some (uids, v, n) => uid_ok uids n /\ 0 <= v < 2 ^ 32 /\
               n + Z.of_nat (length (folder_files w dir)) < 2 ^ 32
           | None => 1 + Z.of_nat (length (folder_files w dir)) < 2 ^ 32
           end }.

Lemma uid_ok_empty : uid_ok ∅ 1.
Proof. split_and!; [lia| |]; intros *; rewrite lookup_empty; done. Qed.

Lemma live_lookup msgs k u :
  NoDup (base_uid <$> msgs).*1 ->
  live msgs !! k = Some u <-> (k, u) ∈ base_uid <$> msgs.
Proof.
  intros Hn. assert (live msgs = fold_left (fun m kv => <[kv.1 := kv.2]> m) (base_uid <$> msgs) ∅)
    as ->.
  { unfold live. generalize (∅ : gmap str Z). clear. induction msgs as [|m l IH]; intros a; [done|].
    rewrite fmap_cons. cbn [fold_left]. apply IH. }
  rewrite fold_insert_lookup, lookup_empty by done.
  transitivity ((list_to_map (base_uid <$> msgs) : gmap str Z) !! k = Some u).
  { by destruct (_ !! k). }
  symmetry. by apply elem_of_list_to_map.
Qed.

Lemma build_bases root folder uids l :
  Permutation (base_uid <$> build root folder uids l).*1 (found_base <$> l).
Proof.
  rewrite build_base_uid, <- list_fmap_compose. done.
Qed.

(** What a refresh does, in terms of the list it found and the assignment it
    made. *)
Record refreshed_to (root : path) (folder : str) (w : world) (uids : gmap str Z) (v n : Z)
    (uids' : gmap str Z) (dirty : bool) (mb' : Mailbox) (w' : world) : Prop := {
  rt_assigned : assigned uids n (folder_files w (folderDir root folder)) uids' (bxUIDNext mb') dirty;
  rt_mb : mb' = mkMailbox root folder
                  (build root folder uids' (folder_files w (folderDir root folder))) v (bxUIDNext mb');
  rt_faults : wFaults w' = [];
  rt_dirs : wDirs w' = wDirs w;
  rt_list : disk_list w' (folderDir root folder)
            = if dirty then Some (live (bxMessages mb'), v, bxUIDNext mb')
              else disk_list w (folderDir root folder) }.

Lemma written_list uids v n :
  0 <= v < 2 ^ 32 -> uid_ok uids n -> n < 2 ^ 32 -> map_Forall (fun k _ => line_safe k) uids ->
  parse_uid_list (print_uid_list uids v n) = Some (uids, v, n).
Proof.
  intros Hv (Hn & Hr & _) Hlt Hs. apply parse_print_uid_list; [done|lia|].
  intros k u Hk. split; [by apply Hs in Hk|]. apply Hr in Hk. lia.
Qed.

Lemma same_disk_files w w' dir : same_disk w w' -> folder_files w' dir = folder_files w dir.
Proof.
  intros (Hf & Hd & _). unfold folder_files, sub_files, file_entries, dir_entries.
  by rewrite Hf, Hd.
Qed.

Lemma live_ok root folder uids uids' n l n' dirty msgs :
  assigned uids n l uids' n' dirty -> NoDup (found_base <$> l) ->
  msgs = build root folder uids' l ->
  uid_ok (live msgs) n' /\
  (forall k u, live msgs !! k = Some u <-> (k ∈ found_base <$> l) /\ uids' !! k = Some u).
Proof.
  intros [Hok _ _ Ht _ _] Hn ->. set (msgs := build root folder uids' l).
  assert (forall k u, live msgs !! k = Some u <-> (k ∈ found_base <$> l) /\ uids' !! k = Some u) as Hl.
  { intros k u. unfold msgs.
    rewrite live_lookup by (rewrite build_bases; done). rewrite build_base_uid.
    rewrite list_elem_of_fmap. split.
    - intros (e & [= -> ->] & He). destruct (Ht e He) as [u Hu]. rewrite Hu.
      split; [by apply list_elem_of_fmap_2|done].
    - intros [(e & -> & He)%list_elem_of_fmap Hu]. exists e. by rewrite Hu. }
  split; [|done]. destruct Hok as (H1 & Hr & Hi). split_and!; [done| |].
  - intros k u [_ Hu]%Hl. by apply Hr in Hu.
  - intros k k' u [_ Hu]%Hl [_ Hu']%Hl. by eapply Hi.
Qed.

Lemma Refresh_ok mb w :
  let dir := folderDir (bxRoot mb) (bxFolder mb) in
  healthy w dir ->
  exists uids v n uids' dirty mb' w',
    Refresh mb w = (Ok (mb', None), w') /\ uid_ok uids n /\ 0 <= v < 2 ^ 32 /\
    match disk_list w dir with Some d => d = (uids, v, n) | None => uids = ∅ /\ n = 1 end /\
    refreshed_to (bxRoot mb) (bxFolder mb) w uids v n uids' dirty mb' w'.
Proof.
  intros dir [Hf Hd Hn Hs Hl].
  destruct (readUIDList_ok mb w Hf) as (uids & v & n & w1 & Hrd & Hsd & Hlist). fold dir in Hlist.
  assert (uid_ok uids n /\ 0 <= v < 2 ^ 32 /\ n + Z.of_nat (length (folder_files w dir)) < 2 ^ 32
    /\ match disk_list w dir with Some d => d = (uids, v, n) | None => uids = ∅ /\ n = 1 end)
    as (Hok & Hv & Hb & Hlist').
  { destruct (disk_list w dir) as [[[uids0 v0] n0]|].
    - injection Hlist as -> -> ->. naive_solver.
    - destruct Hlist as (-> & -> & ?). split_and!; auto using uid_ok_empty; lia. }
  clear Hlist Hl. destruct Hsd as (Hwf & Hwd & Hwx).
  pose proof (assign_spec (folder_files w dir) uids n false Hok Hb) as Ha.
  fold (assign uids n (folder_files w dir)) in Ha.
  destruct (assign uids n (folder_files w dir)) as [[uids' n'] dirty] eqn:Eas.
  destruct Ha as [Has _].
  set (mb' := mkMailbox (bxRoot mb) (bxFolder mb)
                (build (bxRoot mb) (bxFolder mb) uids' (folder_files w dir)) v n').
  assert (exists w', Refresh mb w = (Ok (mb', None), w') /\ wFaults w' = [] /\ wDirs w' = wDirs w /\
    disk_list w' dir = if dirty then Some (live (bxMessages mb'), v, n') else disk_list w dir)
    as (w' & HR & Hf' & Hd' & Hl').
  2: { exists uids, v, n, uids', dirty, mb', w'. do 4 (split; [done|]).
         split; [exact Has|reflexivity|done|done|exact Hl']. }
  unfold Refresh. cbv zeta. erewrite bind_ok by (apply try_eq, Hrd). cbn beta iota zeta.
  assert (wFaults w1 = []) as Hf1 by congruence.
  erewrite bind_ok; cycle 1.
  { apply try_eq. erewrite bind_ok by (apply scan_sub_ok; [done|apply plain_subs]).
    erewrite bind_ok by (apply scan_sub_ok; [done|apply plain_subs]). done. }
  cbn beta iota zeta. fold dir. fold (folder_files w1 dir).
  rewrite (same_disk_files w w1) by done. rewrite Eas. cbn beta iota zeta. fold mb'.
  destruct dirty.
  - destruct (writeUIDList_ok mb' (live (bxMessages mb')) v n' w1) as (w' & Hw & Hwf' & Hwd' & Hfile);
      [done|by rewrite Hwd|].
    exists w'. erewrite bind_ok by (apply try_eq, Hw). split; [done|]. split_and!; [done|congruence|].
    unfold disk_list. rewrite (Hfile : wFiles w' !! (dir ++ [uidListFile]) = _). cbn [fData].
    destruct (live_ok (bxRoot mb) (bxFolder mb) _ _ _ _ _ _ (bxMessages mb') Has Hn eq_refl)
      as [Hlok Hlive].
    apply written_list; [done|done| |].
    + destruct Has as [_ _ ? _ _ _]. lia.
    + intros k u [Hk _]%Hlive. apply list_elem_of_fmap in Hk as (e & -> & He).
      rewrite Forall_forall in Hs. by apply Hs.
  - exists w1. split; [done|]. split_and!; [done|congruence|]. unfold disk_list. by rewrite Hwf.
Qed.

(** ** The contract *)

Definition msg_base (m : Message) : str := BaseName (mName m).

Section Refreshed.
Context {root : path} {folder : str} {w : world} {uids uids' : gmap str Z} {v n : Z}
  {dirty : bool} {mb' : Mailbox} {w' : world}
  (R : refreshed_to root folder w uids v n uids' dirty mb' w').

Lemma refreshed_uid m : m ∈ bxMessages mb' -> uids' !! msg_base m = Some (mUID m).
Proof.
  destruct R as [[_ _ _ Ht _ _] -> _ _ _]. simpl.
  intros (e & s & He & ->)%elem_of_build. destruct (Ht e He) as [u Hu].
  unfold msg_base. simpl. fold (found_base e). by rewrite Hu.
Qed.

Lemma refreshed_range m : m ∈ bxMessages mb' -> 1 <= mUID m < bxUIDNext mb'.
Proof. intros Hm%refreshed_uid. destruct R as [[(_ & Hr & _)] _ _ _ _]. by apply Hr in Hm. Qed.

Lemma refreshed_validity : bxUIDValidity mb' = v.
Proof. by destruct R as [_ -> _ _ _]. Qed.

(** A message of the snapshot is in the UID list the refresh left behind. *)
Lemma refreshed_listed m :
  NoDup (found_base <$> folder_files w (folderDir root folder)) ->
  match disk_list w (folderDir root folder) with
  | Some d => d = (uids, v, n) | None => uids = ∅ /\ n = 1 end ->
  m ∈ bxMessages mb' ->
  exists l, disk_list w' (folderDir root folder) = Some (l, v, bxUIDNext mb') /\
    l !! msg_base m = Some (mUID m).
Proof.
  intros Hn Hd Hm. pose proof (refreshed_uid m Hm) as Hu.
  destruct R as [Ha Hmb _ _ ->]. destruct dirty.
  - eexists. split; [done|].
    destruct (live_ok root folder _ _ _ _ _ _ (bxMessages mb') Ha Hn) as [_ Hl];
      [by rewrite Hmb|].
    apply Hl. split; [|done]. rewrite Hmb in Hm. simpl in Hm.
    apply elem_of_build in Hm as (e & s & He & ->).
    change (found_base e ∈ found_base <$> folder_files w (folderDir root folder)).
    by apply list_elem_of_fmap_2.
  - destruct (as_clean _ _ _ _ _ _ Ha eq_refl) as [-> ->]. exists uids.
    destruct (disk_list w (folderDir root folder)) as [d|]; [by rewrite Hd|].
    destruct Hd as [-> _]. by rewrite lookup_empty in Hu.
Qed.

Lemma refreshed_ordered :
  NoDup (found_base <$> folder_files w (folderDir root folder)) ->
  Z.of_nat (length (folder_files w (folderDir root folder))) < 2 ^ 32 ->
  ordered (bxMessages mb').
Proof.
  intros Hn Hlen. destruct R as [[(_ & _ & Hi) _ _ Ht _ _] -> _ _ _]. simpl.
  apply build_ordered; [|done|done].
  intros e e' He He'. destruct (Ht e He) as [u Hu], (Ht e' He') as [u' Hu'].
  rewrite Hu, Hu'. simpl. intros ->. by eapply Hi.
Qed.

(** The list left behind is sound again. *)
Lemma refreshed_sound :
  NoDup (found_base <$> folder_files w (folderDir root folder)) -> uid_ok uids n ->
  match disk_list w (folderDir root folder) with
  | Some d => d = (uids, v, n) | None => uids = ∅ /\ n = 1 end ->
  match disk_list w' (folderDir root folder) with
  | Some (l, v', n') => uid_ok l n' /\ v' = v /\ n' = bxUIDNext mb'
  | None => bxMessages mb' = []
  end.
Proof.
  intros Hn Hok Hd.
  destruct (disk_list w' (folderDir root folder)) as [[[l v'] n']|] eqn:E.
  - pose proof (rt_list _ _ _ _ _ _ _ _ _ _ R) as Hl. rewrite E in Hl.
    destruct R as [Ha Hmb _ _ _]. destruct dirty.
    + injection Hl as -> -> ->. split; [|done].
      by eapply (live_ok root folder); [exact Ha|done|rewrite Hmb].
    + rewrite <- Hl in Hd. injection Hd as -> -> ->.
      destruct (as_clean _ _ _ _ _ _ Ha eq_refl) as [_ Hnx]. by rewrite Hnx.
  - destruct (bxMessages mb') as [|m l] eqn:El; [done|].
    destruct (refreshed_listed m Hn Hd) as (? & ? & _); [rewrite El; set_solver|congruence].
Qed.
End Refreshed.

(** C23. On a healthy folder [Refresh] succeeds and its snapshot keeps IMAP's
    UID rules: the messages are the files of [new] and [cur] with strictly
    ascending UIDs below UIDNEXT and sequence numbers 1, 2, ...; a file the
    UID list knows keeps its UID, a new one gets a UID the list never gave
    out; UIDVALIDITY is the list's; and the list left behind is sound. *)
Theorem refresh_uid_contract mb w :
  healthy w (folderDir (bxRoot mb) (bxFolder mb)) ->
  exists mb' w', Refresh mb w = (Ok (mb', None), w') /\
    Permutation (msg_base <$> bxMessages mb')
      (found_base <$> folder_files w (folderDir (bxRoot mb) (bxFolder mb))) /\
    ordered (bxMessages mb') /\
    (forall m, m ∈ bxMessages mb' -> 1 <= mUID m < bxUIDNext mb') /\
    match disk_list w (folderDir (bxRoot mb) (bxFolder mb)) with
    | Some (uids, v, n) => bxUIDValidity mb' = v /\ n <= bxUIDNext mb' /\
        forall m, m ∈ bxMessages mb' ->
          match uids !! msg_base m with Some u => mUID m = u | None => n <= mUID m end
    | None => True
    end /\
    match disk_list w' (folderDir (bxRoot mb) (bxFolder mb)) with
    | Some (l, v, n) => uid_ok l n /\ v = bxUIDValidity mb' /\ n = bxUIDNext mb'
    | None => bxMessages mb' = []
    end.
Proof.
  intros Hh. destruct (Refresh_ok mb w Hh) as (uids & v & n & uids' & d & mb' & w' & HR & Hok & Hv & Hd & R).
  assert (Z.of_nat (length (folder_files w (folderDir (bxRoot mb) (bxFolder mb)))) < 2 ^ 32) as Hlen.
  { pose proof (h_list _ _ Hh) as Hl. destruct (disk_list w _) as [[[? ?] ?]|]; [|lia].
    destruct Hl as ((? & _) & _ & ?). lia. }
  exists mb', w'. split; [done|]. split_and!.
  - rewrite (rt_mb _ _ _ _ _ _ _ _ _ _ R). simpl.
    rewrite <- (build_bases (bxRoot mb) (bxFolder mb) uids'). by rewrite <- list_fmap_compose.
  - by apply (refreshed_ordered R), Hlen; apply Hh.
  - apply (refreshed_range R).
  - destruct (disk_list w _) as [d'|]; [subst d'|done].
    rewrite (refreshed_validity R). split; [done|].
    pose proof (rt_assigned _ _ _ _ _ _ _ _ _ _ R) as Ha.
    split; [apply (as_next _ _ _ _ _ _ Ha)|]. intros m Hm. apply (refreshed_uid R) in Hm.
    destruct (uids !! msg_base m) as [u|] eqn:E.
    + apply (as_keeps _ _ _ _ _ _ Ha) in E. congruence.
    + apply (as_new _ _ _ _ _ _ Ha) in Hm. naive_solver.
  - rewrite (refreshed_validity R). pose proof (refreshed_sound R (h_distinct _ _ Hh) Hok Hd) as Hs.
    by destruct (disk_list w' _) as [[[? ?] ?]|].
Qed.

(** UIDs are stable across sessions: between two refreshes of a folder
    with any changes to its messages in between (the UID list itself left
    alone), UIDVALIDITY stays, UIDNEXT does not decrease, and two messages
    have the same UID exactly if they are the same message file - so a known
    message keeps its UID and no UID is reused for another. *)
Theorem refresh_stable mb w mb1 w1 mbx w2 mb2 w3 :
  healthy w (folderDir (bxRoot mb) (bxFolder mb)) ->
  Refresh mb w = (Ok (mb1, None), w1) ->
  disk_list w2 (folderDir (bxRoot mb) (bxFolder mb)) = disk_list w1 (folderDir (bxRoot mb) (bxFolder mb)) ->
  healthy w2 (folderDir (bxRoot mb) (bxFolder mb)) ->
  bxRoot mbx = bxRoot mb -> bxFolder mbx = bxFolder mb ->
  Refresh mbx w2 = (Ok (mb2, None), w3) ->
  forall m1, m1 ∈ bxMessages mb1 ->
    bxUIDValidity mb2 = bxUIDValidity mb1 /\ bxUIDNext mb1 <= bxUIDNext mb2 /\
    forall m2, m2 ∈ bxMessages mb2 -> (msg_base m1 = msg_base m2 <-> mUID m1 = mUID m2).
Proof.
  intros Hh HR Hl Hh2 Er Ef HR2 m1 Hm1.
  destruct (Refresh_ok mb w Hh) as (uids & v & n & uids' & d & mb1' & w1' & HR' & Hok & _ & Hd & R).
  rewrite HR in HR'. injection HR' as <- <-.
  destruct (Refresh_ok mbx w2) as (uids2 & v2 & n2 & uids2' & d2 & mb2' & w3' & HR2' & Hok2 & _ & Hd2 & R2);
    [by rewrite Er, Ef|].
  rewrite HR2 in HR2'. injection HR2' as <- <-. rewrite Er, Ef in *.
  destruct (refreshed_listed R m1 (h_distinct _ _ Hh) Hd Hm1) as (l & Hdl & Hlu).
  rewrite Hl, Hdl in Hd2. injection Hd2 as <- <- <-.
  rewrite (refreshed_validity R), (refreshed_validity R2). split; [done|].
  pose proof (rt_assigned _ _ _ _ _ _ _ _ _ _ R2) as Ha2.
  split; [apply (as_next _ _ _ _ _ _ Ha2)|].
  intros m2 Hm2. apply (refreshed_uid R2) in Hm2. apply (as_keeps _ _ _ _ _ _ Ha2) in Hlu.
  split; [congruence|]. intros E. rewrite E in Hlu.
  by eapply (as_ok _ _ _ _ _ _ Ha2).
Qed.

(** ** Examples *)

(** Soundness of an assignment, decided. *)
Definition uid_okb (uids : gmap str Z) (next : Z) : bool :=
  (1 <=? next) && forallb (fun u => (1 <=? u) && (u <? next)) (map_to_list uids).*2
  && bool_decide (NoDup (map_to_list uids).*2).

Lemma NoDup_snd_inj {A B} (l : list (A * B)) a a' b :
  NoDup l.*2 -> (a, b) ∈ l -> (a', b) ∈ l -> a = a'.
Proof.
  induction l as [|[x y] l IH]; [set_solver|]. rewrite fmap_cons. cbn [snd].
  intros [Hy Hn]%NoDup_cons [E|H1]%elem_of_cons [E'|H2]%elem_of_cons; simplify_eq; [done| | |auto];
    exfalso; apply Hy.
  - by apply (list_elem_of_fmap_2 snd) in H2.
  - by apply (list_elem_of_fmap_2 snd) in H1.
Qed.

Lemma uid_okb_ok uids next : uid_okb uids next = true -> uid_ok uids next.
Proof.
  unfold uid_okb. intros H. to_prop. split_and!; [done| |].
  - intros k u Hk%elem_of_map_to_list%(list_elem_of_fmap_2 snd)%list_elem_of_In.
    rewrite forallb_forall in H1. apply H1 in Hk. simpl in Hk. to_prop. lia.
  - intros k k' u Hk%elem_of_map_to_list Hk'%elem_of_map_to_list.
    apply bool_decide_eq_true in H0. by eapply NoDup_snd_inj.
Qed.

Definition healthyb (w : world) (dir : path) : bool :=
  match wFaults w with [] => true | _ => false end && bool_decide (dir ∈ wDirs w)
  && bool_decide (NoDup (found_base <$> folder_files w dir))
  && forallb (fun e => bool_decide (LF ∉ found_base e) && bool_decide (last (found_base e) <> Some CR)
                       && (Z.of_nat (length (found_base e)) <? 4096)) (folder_files w dir)
  && match disk_list w dir with
     | Some (uids, v, n) => uid_okb uids n && (0 <=? v) && (v <? 2 ^ 32)
                            && (n + Z.of_nat (length (folder_files w dir)) <? 2 ^ 32)
     | None => 1 + Z.of_nat (length (folder_files w dir)) <? 2 ^ 32
     end.

Lemma healthyb_ok w dir : healthyb w dir = true -> healthy w dir.
Proof.
  unfold healthyb. intros H. to_prop. split.
  - by destruct (wFaults w).
  - by apply bool_decide_eq_true in H3.
  - by apply bool_decide_eq_true in H2.
  - apply Forall_forall. intros e He. rewrite forallb_forall in H1.
    apply list_elem_of_In, H1 in He. to_prop. split_and!; [| |done].
    + by apply bool_decide_eq_true in H4.
    + by apply bool_decide_eq_true in H6.
  - destruct (disk_list w dir) as [[[uids v] n]|]; to_prop; [|done].
    split; [by apply uid_okb_ok|lia].
Qed.

Definition example_dir : path := [ #"u"].
Definition example_world (files : list (path * file)) : world :=
  mkWorld (list_to_map files)
    (list_to_set [example_dir; example_dir ++ [ #"new"]; example_dir ++ [ #"cur"]; example_dir ++ [ #"tmp"]])
    [] 1700000000000000000 [] [] 0 7 #"mx".
Definition example_mail (sub name : string) (t : Z) : path * file :=
  (example_dir ++ [lit sub; lit name], mkFile #"hello" t).
Definition example_first : world :=
  example_world [example_mail "new" "2.a" 20; example_mail "cur" "1.b:2,S" 10].
Definition example_box : Mailbox := mkMailbox example_dir Inbox [] 0 0.
Definition run {A} (m : M A) (w : world) : world := (m w).2.
(** Later another delivery arrives and the first message is marked read. *)
Definition example_second : world :=
  let w := run (Refresh example_box) example_first in
  set_files (<[(example_mail "new" "3.c" 5).1 := mkFile #"late" 5]>
    (<[(example_mail "cur" "2.a:2,S" 20).1 := mkFile #"hello" 20]>
      (delete (example_mail "new" "2.a" 20).1 (wFiles w)))) w.
Definition snapshot (mb : Mailbox) (w : world) : Mailbox :=
  match Refresh mb w with (Ok (mb', _), _) => mb' | _ => mb end.

Example example_uids :
  ((fun m => (mUID m, mSeq m, mName m)) <$> bxMessages (snapshot example_box example_second))
  = [ (1, 1, #"1.b:2,S"); (2, 2, #"2.a:2,S"); (3, 3, #"3.c")].
Proof. by vm_compute. Qed.

Example refresh_uid_contract_witness :
  healthy example_second example_dir /\ exists mb' w', Refresh example_box example_second = (Ok (mb', None), w').
Proof.
  assert (healthy example_second example_dir) as H by (apply healthyb_ok; by vm_compute).
  split; [done|].
  destruct (refresh_uid_contract example_box example_second H) as (mb' & w' & HR & _). eauto.
Defined.

Lemma snapshot_eq mb w :
  match Refresh mb w with (Ok (_, None), _) => true | _ => false end = true ->
  Refresh mb w = (Ok (snapshot mb w, None), run (Refresh mb) w).
Proof. unfold snapshot, run. by destruct (Refresh mb w) as [[[mb' []]|] w']. Qed.

Lemma example_refresh_first :
  Refresh example_box example_first
  = (Ok (snapshot example_box example_first, None), run (Refresh example_box) example_first).
Proof. apply snapshot_eq. vm_compute. reflexivity. Qed.

Lemma example_refresh_second :
  Refresh example_box example_second
  = (Ok (snapshot example_box example_second, None), run (Refresh example_box) example_second).
Proof. apply snapshot_eq. vm_compute. reflexivity. Qed.

Lemma example_same_list :
  disk_list example_second example_dir = disk_list (run (Refresh example_box) example_first) example_dir.
Proof. vm_compute. reflexivity. Qed.

Example refresh_stable_witness :
  exists m1 m2, m1 ∈ bxMessages (snapshot example_box example_first) /\
    m2 ∈ bxMessages (snapshot example_box example_second) /\
    mName m1 <> mName m2 /\ mUID m1 = mUID m2.
Proof.
  assert (healthy example_first example_dir) as H1 by (apply healthyb_ok; by vm_compute).
  assert (healthy example_second example_dir) as H2 by (apply healthyb_ok; by vm_compute).
  set (m1 := default (mkMessage 0 0 [] [] [] false 0 0 [] []) (bxMessages (snapshot example_box example_first) !! 1%nat)).
  set (m2 := default m1 (bxMessages (snapshot example_box example_second) !! 1%nat)).
  assert (m1 ∈ bxMessages (snapshot example_box example_first)) as Hm1
    by (apply list_elem_of_lookup_2 with 1%nat; by vm_compute).
  assert (m2 ∈ bxMessages (snapshot example_box example_second)) as Hm2
    by (apply list_elem_of_lookup_2 with 1%nat; by vm_compute).
  exists m1, m2. split; [done|]. split; [done|]. split; [by vm_compute|].
  assert (msg_base m1 = msg_base m2) as HB by (vm_compute; reflexivity).
  apply (proj2 (proj2 (refresh_stable example_box example_first (snapshot example_box example_first)
            (run (Refresh example_box) example_first) example_box example_second
            (snapshot example_box example_second) (run (Refresh example_box) example_second)
            H1 example_refresh_first example_same_list H2 eq_refl eq_refl
            example_refresh_second m1 Hm1)) m2 Hm2), HB.
Defined.
