(* ===== verification/MaildirProps.v ===== *)
(** * What the mailbox operations do

    EXPUNGE against the client's view of the mailbox, flag changes, delivery
    under any failure of the file system, and the confinement of folders to
    the account's directory. *)

From S2P Require Import Prelude GoStrings GoOS MaildirFlags Maildir MaildirUID.

(** ** Expunge *)

(** A client's list of messages under an untagged [n EXPUNGE]: message [n]
    goes and the later ones move up. *)
Definition client_expunge {A} (l : list A) (n : Z) : list A := delete (Z.to_nat (n - 1)) l.

(** The positions of the deleted messages, counting from [k]. *)
Fixpoint deleted_at (k : nat) (l : list Message) : list nat :=
  match l with
  | [] => []
  | m :: r => if deleted m then k :: deleted_at (S k) r else deleted_at (S k) r
  end.

Definition numbered (l : list Message) : Prop :=
  forall i m, l !! i = Some m -> mSeq m = Z.of_nat i + 1.

Lemma numbered_deleted_at l k :
  (forall i m, l !! i = Some m -> mSeq m = Z.of_nat (k + i) + 1) ->
  map mSeq (List.filter deleted l) = (fun i => Z.of_nat i + 1) <$> deleted_at k l.
Proof.
  revert k. induction l as [|m l IH]; intros k H; [done|]. cbn [List.filter deleted_at].
  assert (map mSeq (List.filter deleted l) = (fun i => Z.of_nat i + 1) <$> deleted_at (S k) l) as IH'.
  { apply IH. intros i m' Hi. rewrite (H (S i) m' Hi). lia. }
  destruct (deleted m); [|done]. cbn [map]. rewrite IH', fmap_cons. f_equal.
  rewrite (H 0%nat m eq_refl). lia.
Qed.

Lemma deleted_at_ge k l : Forall (fun i => (k <= i)%nat) (deleted_at k l).
Proof.
  revert k. induction l as [|m l IH]; intros k; simpl; [constructor|].
  assert (Forall (fun i => (k <= i)%nat) (deleted_at (S k) l)).
  { eapply Forall_impl; [apply IH|]. simpl. lia. }
  by destruct (deleted m); [constructor|].
Qed.

Lemma deleted_at_sorted k l : StronglySorted Nat.lt (deleted_at k l).
Proof.
  revert k. induction l as [|m l IH]; intros k; simpl; [constructor|].
  destruct (deleted m); [|done]. constructor; [done|].
  eapply Forall_impl; [apply deleted_at_ge|]. simpl. lia.
Qed.

(** Removing the positions from the last to the first leaves what is kept. *)
Lemma delete_positions {B} (f : Message -> B) (p : list B) l :
  foldr (fun i l => delete i l) (p ++ (f <$> l)) (deleted_at (length p) l)
  = p ++ (f <$> List.filter (fun m => negb (deleted m)) l).
Proof.
  revert p. induction l as [|m l IH]; intros p; [done|].
  cbn [deleted_at List.filter]. rewrite fmap_cons.
  specialize (IH (p ++ [f m])). rewrite length_app, Nat.add_1_r, <- !app_assoc in IH.
  cbn [app] in IH. destruct (deleted m); cbn [negb]; [|by rewrite IH].
  cbn [foldr]. rewrite IH. by rewrite delete_middle.
Qed.

Lemma sort_desc (l : list Z) :
  StronglySorted Z.lt l -> sort_slice (fun a b => b <? a) l = rev l.
Proof.
  intros HS. assert (AntiSymm eq (fun a b : Z => b <= a)) by (intros x y ? ?; lia).
  apply (StronglySorted_unique (fun a b => b <= a)).
  - apply (StronglySorted_weaken (not_less (fun a b => b <? a))).
    + intros x y Hxy. unfold not_less in Hxy. to_prop. lia.
    + apply sort_slice_sorted; unfold not_less; intros; to_prop; rewrite ?Z.ltb_ge in *; lia.
  - apply StronglySorted_rev. eapply StronglySorted_weaken; [|exact HS].
    unfold flip. intros; lia.
  - rewrite sort_slice_perm. apply Permutation_rev.
Qed.

Lemma expunged_positions l :
  numbered l -> expunged l = rev ((fun i => Z.of_nat i + 1) <$> deleted_at 0 l).
Proof.
  intros Hn. unfold expunged. rewrite (numbered_deleted_at l 0) by done.
  apply sort_desc. apply (proj1 (StronglySorted_fmap (fun i => Z.of_nat i + 1) Z.lt _)).
  eapply StronglySorted_weaken; [|apply deleted_at_sorted]. simpl. intros; lia.
Qed.

(** The sequence numbers reported by [Expunge], replayed by a client in
    the order they are sent, remove exactly the messages that were flagged
    \Deleted, and the messages kept are numbered 1, 2, ... as the client now
    counts them. *)
Theorem expunge_replay {B} (f : Message -> B) (l : list Message) :
  numbered l -> Z.of_nat (length l) < 2 ^ 32 -> (forall m s, f (set_seq m s) = f m) ->
  fold_left client_expunge (expunged l) (f <$> l) = f <$> kept l /\
  f <$> kept l = f <$> List.filter (fun m => negb (deleted m)) l /\ numbered (kept l).
Proof.
  intros Hn Hlen Hf. unfold kept. rewrite renumber_fmap by done. split_and!; [|done|].
  - rewrite expunged_positions by done. rewrite <- fold_left_rev_right, rev_involutive.
    pose proof (delete_positions f [] l) as E. cbn [app length] in E. rewrite <- E. clear E.
    induction (deleted_at 0 l) as [|i d IH]; [done|]. rewrite fmap_cons. simpl.
    rewrite IH. unfold client_expunge. f_equal. lia.
  - intros i m Hi. eapply renumber_seq; [|done].
    pose proof (List.filter_length_le (fun m => negb (deleted m)) l). lia.
Qed.

Definition example_messages : list Message :=
  [mkMessage 3 1 #"a" #"cur" #"ST" false 5 0 [] Inbox;
   mkMessage 5 2 #"b" #"cur" #"S" false 5 0 [] Inbox;
   mkMessage 6 3 #"c" #"cur" #"T" false 5 0 [] Inbox;
   mkMessage 9 4 #"d" #"new" [] true 5 0 [] Inbox].

Example expunge_replay_witness :
  expunged example_messages = [3; 1] /\
  fold_left client_expunge [3; 1] (mUID <$> example_messages) = [5; 9] /\
  mUID <$> kept example_messages = [5; 9].
Proof.
  destruct (expunge_replay mUID example_messages) as (H1 & H2 & _).
  - intros i m Hi. do 4 (destruct i as [|i]; [by simplify_eq/=|]). done.
  - simpl. lia.
  - done.
  - split; [vm_compute; reflexivity|]. split; [|exact H2].
    etransitivity; [exact H1|]. vm_compute. reflexivity.
Defined.

(** ** Runs on the disk *)

(** Every run of [m] leads to a related world. *)
Definition leads (R : relation world) {A} (m : M A) : Prop := forall w, R w (m w).2.

Section Leads.
Context (R : relation world) `{!PreOrder R}.

Lemma leads_ret {A} (a : A) : leads R (mret a).
Proof. intros w. simpl. reflexivity. Qed.
Lemma leads_throw {A} e : leads R (throw (A:=A) e).
Proof. intros w. simpl. reflexivity. Qed.
Lemma leads_bind {A B} (m : M A) (f : A -> M B) : leads R m -> (forall a, leads R (f a)) -> leads R (m ≫= f).
Proof.
  intros Hm Hf w. unfold mbind, M_bind. specialize (Hm w). destruct (m w) as [[a|e] w']; [|exact Hm].
  etransitivity; [exact Hm|apply Hf].
Qed.
Lemma leads_try {A} (m : M A) : leads R m -> leads R (try m).
Proof. intros Hm w. unfold try. specialize (Hm w). by destruct (m w). Qed.
Lemma leads_wrap {A} (m : M A) : leads R m -> leads R (wrap m).
Proof. intros Hm w. unfold wrap. specialize (Hm w). by destruct (m w) as [[]]. Qed.
Lemma leads_for_each {A} (l : list A) body : (forall x, leads R (body x)) -> leads R (for_each l body).
Proof. intros Hb. induction l; cbn [for_each]; [apply leads_ret|]. apply leads_bind; [apply Hb|intros _; done]. Qed.
End Leads.

Create HintDb disk.
#[export] Hint Resolve leads_ret leads_throw : disk.

(** Goes through a program on the disk. *)
Ltac leads_step :=
  cbv zeta;
  match goal with
  | |- leads _ (mret _) => apply leads_ret; exact _
  | |- leads _ (throw _) => apply leads_throw; exact _
  | |- leads _ (_ ≫= _) => apply leads_bind; [exact _| |intros]
  | |- leads _ (try _) => apply leads_try
  | |- leads _ (wrap _) => apply leads_wrap
  | |- leads _ (for_each _ _) => apply leads_for_each; [exact _|intros]
  | |- leads _ (match ?x with _ => _ end) => destruct x
  | |- leads _ ((match ?x with _ => _ end) _) => destruct x; cbv beta
  end.
Ltac leads_auto := repeat (first [solve [eauto with disk]|leads_step]).

(** ** The names of deliveries *)

(** What the name of a delivery says: the second, the process and the number
    of the delivery. *)
Definition named (pid sec n : Z) (name : str) : Prop :=
  0 <= sec /\ 0 <= n /\ exists usec x, 0 <= usec /\
    name = dec sec ++ #".M" ++ dec usec ++ #"P" ++ dec pid ++ #"Q" ++ dec n ++ #"R" ++ x.

Lemma cut_inj (c : ascii) a b x y : c ∉ a -> c ∉ b -> a ++ c :: x = b ++ c :: y -> a = b /\ x = y.
Proof.
  revert b. induction a as [|d a IH]; intros [|e b] Ha Hb E; simplify_eq/=; try done; try set_solver.
  destruct (IH b) as [-> ->]; [set_solver|set_solver|done|done].
Qed.

Lemma dec_determines a b : 0 <= a -> 0 <= b -> dec a = dec b -> a = b.
Proof.
  intros Ha Hb E. unfold dec in E. rewrite !(proj2 (Z.ltb_ge _ _)) in E by done.
  pose proof (dec_N_value (Z.to_N a)) as H1. rewrite E, dec_N_value in H1. injection H1 as H1. lia.
Qed.

Lemma dec_cut (c : ascii) a b x y : is_digit c = false -> 0 <= a -> 0 <= b ->
  dec a ++ c :: x = dec b ++ c :: y -> a = b /\ x = y.
Proof.
  intros Hc Ha Hb E. assert (forall z, 0 <= z -> c ∉ dec z) as Hn by (intros z Hz; apply not_in_digits; auto with verta).
  apply cut_inj in E as [E ->]; [|by apply Hn..]. split; [by apply dec_determines|done].
Qed.

Lemma named_inj pid sec n sec' n' name :
  0 <= pid -> named pid sec n name -> named pid sec' n' name -> sec = sec' /\ n = n'.
Proof.
  intros Hp (H1 & H2 & u & x & H3 & ->) (H4 & H5 & u' & x' & H6 & E).
  change (#".M") with ["."; "M"]%char in E. change (#"P") with ["P"]%char in E.
  change (#"Q") with ["Q"]%char in E. change (#"R") with ["R"]%char in E. cbn [app] in E.
  apply dec_cut in E as [-> E]; [|done..]. injection E as E.
  apply dec_cut in E as [-> E]; [|done..]. apply dec_cut in E as [_ E]; [|done..].
  apply dec_cut in E as [-> _]; done.
Qed.

(** A world in which a process delivers: the clock does not go back, and no
    file bears the number of a delivery to come, unless it dates from an
    earlier second, as the files of another process of the same number do. *)
Record ready (w : world) : Prop := {
  rd_host : "/"%char ∉ wHost w;
  rd_clock : Forall (Z.le 0) (wTicks w);
  rd_now : 0 <= wNow w;
  rd_pid : 0 <= wPid w;
  rd_seq : 0 <= wSeq w;
  rd_fresh : forall q name sec n, last q = Some name -> named (wPid w) sec n name ->
    is_Some (wFiles w !! q) -> n <= wSeq w \/ sec < wNow w / 10 ^ 9 }.

(** Steps that change nothing but files under the names [P]. *)
Definition bears (P : str -> Prop) (q : path) : Prop := exists name, last q = Some name /\ P name.
Definition onward (P : str -> Prop) (w w' : world) : Prop :=
  wHost w' = wHost w /\ wPid w' = wPid w /\ wSeq w' = wSeq w /\ wNow w' = wNow w /\ wTicks w' = wTicks w /\
  forall q, ~ bears P q -> wFiles w' !! q = wFiles w !! q.
#[export] Instance onward_preorder P : PreOrder (onward P).
Proof.
  split; [by intros w|]. intros a b c (H1 & H2 & H3 & H4 & H5 & H6) (G1 & G2 & G3 & G4 & G5 & G6).
  split_and!; try congruence. intros q Hq. by rewrite G6, H6.
Qed.

Section Onward.
Context (P : str -> Prop).

Lemma onward_syscall {A} (f : world -> M A) :
  (forall w, onward P w (f w w).2) -> leads (onward P) (syscall (w ← get_world; f w)).
Proof.
  intros Hf w. unfold syscall, mbind, M_bind, next_fault, get_world, throw.
  destruct (wFaults w) as [|[| |n] fs]; cbn [fst snd]; [apply Hf| |done|done]. apply (Hf (set_faults fs w)).
Qed.
Lemma onward_noop : leads (onward P) (syscall (mret tt)).
Proof.
  intros w. unfold syscall, mbind, M_bind, next_fault, throw. by destruct (wFaults w) as [|[| |n] fs].
Qed.
Lemma onward_MkdirAll p : leads (onward P) (MkdirAll p).
Proof.
  intros w. unfold MkdirAll, syscall, mbind, M_bind, next_fault, throw. by destruct (wFaults w) as [|[| |n] fs].
Qed.
Lemma onward_CreateExcl p : bears P p -> leads (onward P) (CreateExcl p).
Proof.
  intros Hp. apply onward_syscall. intros w. destruct (wFiles w !! p); [done|]. case_decide; [|done].
  split_and!; try done. intros q Hq. simpl. apply lookup_insert_ne. by intros ->.
Qed.
Lemma onward_FileWrite p data : bears P p -> leads (onward P) (FileWrite p data).
Proof.
  intros Hp w. unfold FileWrite, mbind, M_bind, next_fault, throw, store_file, modify.
  destruct (wFaults w) as [|[| |n] fs]; cbn [fst snd]; try done;
    (split_and!; try done; intros q Hq; simpl; apply lookup_insert_ne; by intros ->).
Qed.
Lemma onward_Rename old new : bears P old -> bears P new -> leads (onward P) (Rename old new).
Proof.
  intros Ho Hn. apply onward_syscall. intros w. destruct (wFiles w !! old); [|done]. case_decide; [|done].
  split_and!; try done. intros q Hq. simpl. rewrite lookup_insert_ne by (by intros ->). apply lookup_delete_ne. by intros ->.
Qed.
Lemma onward_Remove p : bears P p -> leads (onward P) (GoOS.Remove p).
Proof.
  intros Hp. apply onward_syscall. intros w. destruct (wFiles w !! p); [|done].
  split_and!; try done. intros q Hq. simpl. apply lookup_delete_ne. by intros ->.
Qed.

Lemma onward_write_and_move tmp final msg :
  bears P tmp -> bears P final -> leads (onward P) (wrap (CreateExcl tmp) ≫= fun _ => write_and_move tmp final msg).
Proof.
  intros Ht Hf. pose proof (onward_CreateExcl tmp Ht). pose proof (onward_FileWrite tmp msg Ht).
  pose proof (onward_Rename tmp final Ht Hf). pose proof (onward_Remove tmp Ht). pose proof onward_noop.
  unfold write_and_move, FileSync, FileClose. leads_auto.
Qed.
End Onward.

(** ** Delivery *)

Lemma delivery_name_ok w :
  "/"%char ∉ wHost w ->
  exists base w', delivery_name w = (Ok base, w') /\ same_disk w w' /\ wHost w' = wHost w /\ plain base.
Proof.
  intros Hh. unfold delivery_name.
  destruct (time_now_ok w) as (t1 & w1 & E1 & D1), (time_now_ok w1) as (t2 & w2 & E2 & D2).
  assert (wHost w2 = wHost w) as Hw.
  { unfold time_now in E1, E2. destruct (wTicks w), (wTicks w1); by simplify_eq/=. }
  do 2 (erewrite bind_ok; [|done]).
  unfold mbind, M_bind, next_seq, rand_uint32, get_world. simpl wRand.
  destruct (match wRand w2 with [] => (0, []) | d :: r => (u32 d, r) end) as [d r].
  eexists _, _. split; [reflexivity|]. split; [|split; [done|]].
  - apply (same_disk_trans _ w1), (same_disk_trans _ w2); done.
  - simpl wHost. rewrite Hw. apply plain_app; [apply slash_dec| |].
    + rewrite !not_elem_of_app.
      split_and!; try apply slash_dec; try apply slash_hex; try done; by rewrite <- index_byte_None.
    + rewrite !length_app. change (length #".M") with 2%nat. change (length #"P") with 1%nat. lia.
Qed.

Lemma mkdirs_host dir l w :
  wHost (for_each l (fun sub => wrap (MkdirAll (join_path dir sub))) w).2 = wHost w.
Proof.
  revert w. induction l as [|s l IH]; intros w; [done|]. cbn [for_each].
  unfold mbind, M_bind, wrap, MkdirAll, syscall, next_fault at 1. unfold mbind, M_bind.
  destruct (wFaults w) as [|[] ?]; cbn [fst snd]; try done; unfold modify;
    cbn [fst snd]; rewrite IH; done.
Qed.

Lemma landing_plain base flags :
  plain base -> forallb is_flag flags = true ->
  plain (landing base flags).2 /\ plain (landing base flags).1 /\ (landing base flags).1 <> #"tmp".
Proof.
  intros Hb Hf. destruct plain_subs as (Hn & Hc & _). destruct flags as [|f fs]; [done|].
  simpl. split_and!; [|done..]. unfold FileName. apply plain_app; [apply Hb| |].
  - apply not_elem_of_app. split; [by rewrite <- index_byte_None|].
    intros Hin. rewrite forallb_forall in Hf. apply list_elem_of_In, Hf in Hin. done.
  - rewrite !length_app. change (length infoSep) with 3%nat. lia.
Qed.

Lemma mkdirs_files dir l w :
  wFiles (for_each l (fun sub => wrap (MkdirAll (join_path dir sub))) w).2 = wFiles w.
Proof.
  apply map_eq. intros q. apply (frame_for_each (fun _ => False)); [|tauto]. auto with frames.
Qed.

(** The call after [n] others is not disturbed. *)
Definition works_at (n : nat) (w : world) : Prop :=
  match wFaults w !! n with None | Some NoFault => True | Some _ => False end.

Lemma works_at_drop n w w' : wFaults w' = drop n (wFaults w) -> works_at n w -> works_at 0 w'.
Proof. unfold works_at. intros ->. by rewrite lookup_drop, Nat.add_0_r. Qed.

(** From the moment the temporary file exists: only it and, with success, the
    final file change. *)
Lemma wp_write_and_move tmp final msg w0 t0 w (Q : result error path -> world -> Prop) :
  wFiles w = <[tmp := mkFile [] t0]> (wFiles w0) ->
  (forall e w', (forall q, q <> tmp -> wFiles w' !! q = wFiles w0 !! q) -> Q (Err e) w') ->
  (forall n t w', wFiles w' !! final = Some (mkFile (take n msg) t) -> (works_at 0 w -> take n msg = msg) ->
     (forall q, q <> tmp -> q <> final -> wFiles w' !! q = wFiles w0 !! q) -> Q (Ok final) w') ->
  wp (write_and_move tmp final msg) w Q.
Proof.
  intros H0 He Ho. apply wp_bind, wp_try.
  apply (wp_mono _ _ (fun _ w4 => exists n t, wFiles w4 = <[tmp := mkFile (take n msg) t]> (wFiles w0) /\
    (works_at 0 w -> take n msg = msg))).
  { unfold wp, FileWrite, works_at, mbind, M_bind, next_fault, throw, store_file, modify.
    destruct (wFaults w) as [|[| |n] fs]; cbn [fst snd set_faults set_files wFiles lookup list_lookup]; rewrite H0.
    - exists (length msg), (wNow w). by rewrite firstn_all, insert_insert_eq.
    - exists (length msg), (wNow w). by rewrite firstn_all, insert_insert_eq.
    - by exists 0%nat, t0.
    - exists n, (wNow w). by rewrite insert_insert_eq. }
  intros werr w4 (n & t & H4 & Hfull).
  assert (forall e w5, wFiles w5 = wFiles w4 ->
    wp (try (GoOS.Remove tmp) ≫= fun _ => throw (ErrWrap e)) w5 Q) as Hclean.
  { intros e w5 H5. apply wp_bind, wp_try, wp_Remove; intros; apply He; intros q Hq.
    - change (wFiles w' !! q = wFiles w0 !! q). rewrite H, H5, H4. by apply lookup_insert_ne.
    - change (wFiles w' !! q = wFiles w0 !! q). rewrite H, H5, H4.
      rewrite lookup_delete_ne by done. by apply lookup_insert_ne. }
  apply wp_bind. apply (wp_mono _ _ (fun r w5 => is_ok r = true /\ wFiles w5 = wFiles w4)).
  { destruct (is_ok werr); [|done]. apply wp_try, wp_noop. done. }
  intros [?|e] w5 [Hr H5]; [|done].
  apply wp_bind, wp_try, wp_noop. intros [?|e] w6 H6; [|apply Hclean; congruence].
  apply wp_bind, wp_try, wp_Rename; [intros e w7 H7; apply Hclean; congruence|].
  intros f w7 Hf H7. rewrite H6, H5, H4, lookup_insert_eq in Hf. injection Hf as <-.
  apply (Ho n t w7); [by rewrite H7, lookup_insert_eq|done|]. intros q Hq Hqf.
  rewrite H7, lookup_insert_ne, lookup_delete_ne, H6, H5, H4 by done. by apply lookup_insert_ne.
Qed.

(** What a delivery leaves: with success one more file, in the subdirectory for
    its flags, with at most a prefix of the message. *)
Definition delivered (dir : path) (msg : str) (flags : Flags) (w : world) (r : result error path) (w' : world) : Prop :=
  match r with
  | Ok p =>
      (exists base, plain base /\ p = dir ++ [(landing base flags).1; (landing base flags).2]) /\
      (exists n t, wFiles w' !! p = Some (mkFile (take n msg) t) /\ (works_at 5 w -> take n msg = msg)) /\
      forall q, parent q <> dir ++ [ #"tmp"] -> q <> p -> wFiles w' !! q = wFiles w !! q
  | Err _ => forall q, parent q <> dir ++ [ #"tmp"] -> wFiles w' !! q = wFiles w !! q
  end.

(** Each call that works takes one entry of the schedule of faults. *)
Lemma wrap_ok {A} (m : M A) w a w' : wrap m w = (Ok a, w') -> m w = (Ok a, w').
Proof. unfold wrap. by destruct (m w) as [[]]. Qed.
Lemma syscall_faults {A} (m : M A) w a w' : (forall v, wFaults (m v).2 = wFaults v) ->
  syscall m w = (Ok a, w') -> wFaults w' = drop 1 (wFaults w).
Proof.
  intros Hm. unfold syscall, mbind, M_bind, next_fault, throw.
  destruct (wFaults w) as [|[| |n] fs] eqn:Ef; cbn [fst snd]; try done; intros E.
  - specialize (Hm w). rewrite E in Hm. cbn [snd] in Hm. by rewrite Hm.
  - specialize (Hm (set_faults fs w)). rewrite E in Hm. by cbn [snd] in Hm.
Qed.
Lemma mkdirs_faults dir l w w' :
  for_each l (fun sub => wrap (MkdirAll (join_path dir sub))) w = (Ok tt, w') -> wFaults w' = drop (length l) (wFaults w).
Proof.
  revert w. induction l as [|s l IH]; intros w; cbn [for_each length].
  { intros [= ->]. by rewrite drop_0. }
  unfold mbind, M_bind. destruct (wrap _ w) as [[[]|e] w1] eqn:E; [|done]. intros E2.
  rewrite (IH w1 E2). apply wrap_ok, syscall_faults in E as ->; [|done]. by rewrite drop_drop.
Qed.
Lemma CreateExcl_faults p w a w' : CreateExcl p w = (Ok a, w') -> wFaults w' = drop 1 (wFaults w).
Proof.
  apply syscall_faults. intros v. unfold mbind, M_bind, get_world. destruct (wFiles v !! p); [done|]. by case_decide.
Qed.

Lemma wp_DeliverWithFlags dir msg flags w :
  "/"%char ∉ wHost w -> forallb is_flag flags = true ->
  wp (DeliverWithFlags dir msg flags) w (delivered dir msg flags w).
Proof.
  intros Hh Hfl.
  apply wp_bind. unfold wp at 1.
  pose proof (mkdirs_files dir [ []; #"tmp"; #"new"; #"cur"] w) as Hmf.
  pose proof (mkdirs_host dir [ []; #"tmp"; #"new"; #"cur"] w) as Hmh.
  pose proof (fun w' => mkdirs_faults dir [ []; #"tmp"; #"new"; #"cur"] w w') as Hfa.
  destruct (for_each _ _ w) as [[[]|e] w1]; cbn [fst snd] in *; [|intros q _; by rewrite Hmf].
  specialize (Hfa w1 eq_refl). cbn [length] in Hfa.
  destruct (delivery_name_ok w1) as (base & w2 & En & (Hf2 & _ & Hx2) & _ & Hb); [by rewrite Hmh|].
  apply wp_bind. unfold wp at 1. rewrite En. cbn [fst snd].
  destruct plain_subs as (Hpn & Hpc & Hpt).
  destruct (landing_plain base flags Hb Hfl) as (Hln & Hls & Hlt).
  destruct (landing base flags) as [sub name] eqn:El. cbn [fst snd] in *.
  rewrite (join_plain dir #"tmp"), (join_plain _ base), (join_plain dir sub), (join_plain _ name) by done.
  set (tmp := (dir ++ [ #"tmp"]) ++ [base]).
  assert (forall q, parent q <> dir ++ [ #"tmp"] -> q <> tmp) as HT
    by (intros q Hq ->; apply Hq; apply parent_snoc).
  assert (wFiles w2 = wFiles w) as H2 by congruence.
  apply wp_bind. apply (wp_mono _ _ (fun r w3 => (r = Ok tt -> works_at 5 w -> works_at 0 w3) /\
    match r with Ok _ => exists t0, wFiles w3 = <[tmp := mkFile [] t0]> (wFiles w) | Err _ => wFiles w3 = wFiles w end)).
  { unfold wp. split.
    - intros Er. destruct (wrap (CreateExcl tmp) w2) as [r w3] eqn:E. cbn [fst snd] in *. subst r.
      apply wrap_ok, CreateExcl_faults in E. apply works_at_drop. by rewrite E, Hx2, Hfa, drop_drop.
    - apply (wp_wrap _ w2 (fun r w3 => match r with Ok _ => exists t0, wFiles w3 = <[tmp := mkFile [] t0]> (wFiles w)
        | Err _ => wFiles w3 = wFiles w end)), wp_CreateExcl; [intros e w3 H3; congruence|].
      intros t0 w3 _ H3. exists t0. congruence. }
  intros [[]|e] w3 [Hw3 H3]; [|intros q Hq; by rewrite H3]. destruct H3 as [t0 H3].
  eapply wp_write_and_move; [exact H3| |].
  - intros e w' Hw q Hq. by apply Hw, HT.
  - intros n t w' Hp Hfull Hw. unfold delivered. rewrite <- app_assoc in *. split_and!.
    + exists base. by rewrite El.
    + exists n, t. split; [done|]. intros H5. by apply Hfull, Hw3.
    + intros q Hq Hqf. apply Hw; [by apply HT|done].
Qed.

(** What a move reports is the path it was given. *)
Lemma write_and_move_path tmp final msg w p w' : write_and_move tmp final msg w = (Ok p, w') -> p = final.
Proof.
  unfold write_and_move, mbind, M_bind, try, throw, mret, M_ret. destruct (FileWrite tmp msg w) as [r w1].
  destruct (is_ok r).
  - destruct (FileSync w1) as [r1 w2]. destruct (FileClose w2) as [[[]|e] w3]; [|by destruct (GoOS.Remove tmp w3)].
    destruct (Rename tmp final w3) as [[[]|e] w4]; [congruence|by destruct (GoOS.Remove tmp w4)].
  - destruct (FileClose w1) as [[[]|e] w3]; [|by destruct (GoOS.Remove tmp w3)].
    destruct (Rename tmp final w3) as [[[]|e] w4]; [congruence|by destruct (GoOS.Remove tmp w4)].
Qed.

(** The clock moves on, and the name bears the second and the next number. *)
Lemma time_now_forward w : 0 <= wNow w -> Forall (Z.le 0) (wTicks w) ->
  exists t w', time_now w = (Ok t, w') /\ wNow w <= t /\ wNow w' = t /\ Forall (Z.le 0) (wTicks w') /\
    wFiles w' = wFiles w /\ wHost w' = wHost w /\ wPid w' = wPid w /\ wSeq w' = wSeq w.
Proof.
  intros Hn Ht. unfold time_now. destruct (wTicks w) as [|d r]; [|apply Forall_cons in Ht as [Hd Hr]];
    (eexists _, _; split; [reflexivity|]; cbn; split_and!; try done; lia).
Qed.

Lemma delivery_name_named w : ready w -> wSeq w + 1 < 2 ^ 64 ->
  exists base w' sec, delivery_name w = (Ok base, w') /\ named (wPid w) sec (wSeq w + 1) base /\
    wNow w / 10 ^ 9 <= sec /\ wNow w <= wNow w' /\ Forall (Z.le 0) (wTicks w') /\ wFiles w' = wFiles w /\
    wHost w' = wHost w /\ wPid w' = wPid w /\ wSeq w' = wSeq w + 1.
Proof.
  intros [Hh Hc Hn Hp Hs _] Hlt. unfold delivery_name.
  assert (u64 (wSeq w + 1) = wSeq w + 1) as Eu by (unfold u64; apply Z.mod_small; lia).
  destruct (time_now_forward w Hn Hc) as (t1 & w1 & E1 & L1 & N1 & C1 & F1 & H1 & P1 & S1).
  destruct (time_now_forward w1 ltac:(lia) C1) as (t2 & w2 & E2 & L2 & N2 & C2 & F2 & H2 & P2 & S2).
  erewrite bind_ok by exact E1. erewrite bind_ok by exact E2.
  unfold mbind, M_bind, next_seq, rand_uint32, get_world. cbn [wRand].
  destruct (match wRand w2 with [] => (0, []) | d :: r => (u32 d, r) end) as [d r].
  eexists _, _, (t1 / 10 ^ 9). split; [reflexivity|]. cbn. split.
  - split; [apply Z.div_pos; lia|]. split; [lia|].
    exists (t2 mod 10 ^ 9 / 1000), (hex d ++ #"." ++ wHost w2).
    split; [apply Z.div_pos; [apply Z.mod_pos_bound; lia|lia]|].
    by rewrite P2, P1, S2, S1, Eu.
  - split_and!; try congruence; [by apply Z.div_le_mono|lia].
Qed.

Lemma onward_mkdirs P dir l : leads (onward P) (for_each l (fun sub => wrap (MkdirAll (join_path dir sub)))).
Proof. apply leads_for_each; [exact _|]. intros sub. apply leads_wrap, onward_MkdirAll. Qed.

(** Names that bear the number of the last delivery do no harm. *)
Lemma ready_onward (P : str -> Prop) w w' sec :
  (forall n, P n -> named (wPid w) sec (wSeq w) n) -> ready w -> onward P w w' -> ready w'.
Proof.
  intros HP [Hh Hc Hn Hp Hs Hf] (E1 & E2 & E3 & E4 & E5 & Hq). split; rewrite ?E1, ?E2, ?E3, ?E4, ?E5; try done.
  intros q name sec' n Hl Hnm Hsome. destruct (Z.le_gt_cases n (wSeq w)) as [|Hgt]; [by left|].
  rewrite Hq in Hsome; [by eapply Hf|]. intros (name' & Hl' & Hpn). rewrite Hl in Hl'. injection Hl' as <-.
  destruct (named_inj _ _ _ _ _ _ Hp (HP _ Hpn) Hnm) as [_ E]. lia.
Qed.

(** A delivery takes a name that no file had, and leaves the process as ready
    as it was. *)
Lemma deliver_ready dir msg flags w :
  forallb is_flag flags = true -> ready w -> wSeq w + 1 < 2 ^ 64 ->
  ready (DeliverWithFlags dir msg flags w).2 /\
  match (DeliverWithFlags dir msg flags w).1 with Ok p => wFiles w !! p = None | Err _ => True end.
Proof.
  intros Hfl Hr Hlt. unfold DeliverWithFlags.
  pose proof (onward_mkdirs (fun _ => False) dir [ []; #"tmp"; #"new"; #"cur"] w) as Hm.
  assert (forall w1, onward (fun _ => False) w w1 -> ready w1 /\ wFiles w1 = wFiles w /\ wSeq w1 = wSeq w) as Hnone.
  { intros w1 Ho. split; [by apply (ready_onward (fun _ => False) w w1 0)|].
    destruct Ho as (_ & _ & E & _ & _ & Hq). split; [|done]. apply map_eq. intros q. apply Hq. by intros (? & _ & []). }
  destruct (for_each _ _ w) as [[[]|e] w1] eqn:Em; cbn [fst snd] in Hm.
  2: { rewrite (bind_err _ _ _ _ _ Em). by destruct (Hnone w1 Hm). }
  rewrite (bind_ok _ _ _ _ _ Em).
  destruct (Hnone w1 Hm) as (Hr1 & Ef1 & Es1). clear Hm Hnone.
  destruct (delivery_name_named w1 Hr1 ltac:(lia)) as (base & w2 & sec & E & Hnm & Hsec & Hnow & Hc & Hf & Hh & Hp & Hs).
  rewrite (bind_ok _ _ _ _ _ E).
  assert (plain base) as Hb.
  { destruct (delivery_name_ok w1 (rd_host _ Hr1)) as (b & w3 & E' & _ & _ & Hb).
    rewrite E in E'. by injection E' as -> ->. }
  assert (named (wPid w1) sec (wSeq w1 + 1) (FileName base flags)) as Hnf.
  { destruct Hnm as (H1 & H2 & u & x & H3 & ->). split; [done|]. split; [done|]. exists u, (x ++ infoSep ++ flags).
    split; [done|]. unfold FileName. by rewrite <- !app_assoc. }
  assert (ready w2) as Hr2.
  { destruct Hr1 as [R1 R2 R3 R4 R5 R6]. split; rewrite ?Hh, ?Hp; try done; [lia|lia|]. intros q name sec' n Hl Hn Hsome.
    rewrite Hf in Hsome. destruct (R6 q name sec' n Hl Hn Hsome) as [|Hlt']; [left; lia|right].
    pose proof (Z.div_le_mono (wNow w1) (wNow w2) (10 ^ 9) ltac:(lia) Hnow). lia. }
  destruct (landing_plain base flags Hb Hfl) as (Hln & Hls & _).
  assert (named (wPid w1) sec (wSeq w1 + 1) (landing base flags).2) as Hland by (by destruct flags).
  destruct (landing base flags) as [sub name]. cbn [fst snd] in *. destruct plain_subs as (_ & _ & Hpt).
  rewrite (join_plain dir #"tmp"), (join_plain _ base), (join_plain dir sub), (join_plain _ name) by done.
  set (tmp := (dir ++ [ #"tmp"]) ++ [base]). set (final := (dir ++ [sub]) ++ [name]).
  set (P := fun n => n = base \/ n = name).
  pose proof (onward_write_and_move P tmp final msg) as HO.
  assert (bears P tmp) as Bt by (exists base; split; [apply last_snoc|by left]).
  assert (bears P final) as Bf by (exists name; split; [apply last_snoc|by right]).
  specialize (HO Bt Bf w2). split.
  - apply (ready_onward P w2 _ sec); [|done|exact HO]. rewrite Hp, Hs. by intros n [->| ->].
  - destruct ((wrap (CreateExcl tmp) ≫= fun _ => write_and_move tmp final msg) w2) as [[p|e] w3] eqn:Erun; [|done]. cbn [fst]. assert (p = final) as ->.
    { revert Erun. unfold mbind at 1, M_bind at 1. destruct (wrap _ w2) as [[[]|e] w4]; [|done].
      intros Erun. by eapply write_and_move_path. }
    destruct (wFiles w !! final) as [f|] eqn:Ef; [|done]. exfalso.
    destruct (rd_fresh _ Hr1 final name sec (wSeq w1 + 1)) as [H|H]; [apply last_snoc|done|rewrite Ef1; by eexists|lia|lia].
Qed.

(** C22. Whatever calls fail, and however many deliveries the process has made, a
    delivery that reports an error leaves every file outside [tmp] as it was,
    and one that reports success adds one file, in [new] or in [cur] under the
    name that spells its flags, where there was none, and changes no other
    file outside [tmp].  The new file holds the whole message if the write was
    not disturbed; if it was, the success is reported all the same, and what
    the write left of the message is in the file (maildir.go:86). *)
Theorem deliver_atomic dir msg flags w :
  forallb is_flag flags = true -> ready w -> wSeq w + 1 < 2 ^ 64 ->
  let '(r, w') := DeliverWithFlags dir msg flags w in
  ready w' /\
  match r with
  | Ok p =>
      (exists base, p = dir ++ [(landing base flags).1; (landing base flags).2]) /\
      wFiles w !! p = None /\
      (exists n t, wFiles w' !! p = Some (mkFile (take n msg) t) /\ (works_at 5 w -> take n msg = msg)) /\
      forall q, parent q <> dir ++ [ #"tmp"] -> q <> p -> wFiles w' !! q = wFiles w !! q
  | Err _ => forall q, parent q <> dir ++ [ #"tmp"] -> wFiles w' !! q = wFiles w !! q
  end.
Proof.
  intros Hfl Hr Hlt. pose proof (wp_DeliverWithFlags dir msg flags w (rd_host _ Hr) Hfl) as H. unfold wp, delivered in H.
  destruct (deliver_ready dir msg flags w Hfl Hr Hlt) as [Hr' Hnone].
  destruct (DeliverWithFlags dir msg flags w) as [[p|e] w']; cbn [fst snd] in *; (split; [done|]); [|exact H].
  destruct H as ((base & _ & Hp) & H2 & H3). split_and!; [by exists base|done|done|done].
Qed.

Lemma mkdirs_ok dir l w :
  wFaults w = [] ->
  exists w', for_each l (fun sub => wrap (MkdirAll (join_path dir sub))) w = (Ok tt, w') /\
    same_disk (set_dirs (wDirs w') w) w' /\ wHost w' = wHost w /\
    forall q, q ∈ wDirs w' <-> q ∈ wDirs w \/ exists sub, sub ∈ l /\ q `prefix_of` join_path dir sub.
Proof.
  revert w. induction l as [|s l IH]; intros w Hw.
  { exists w. split; [done|]. split_and!; try done. intros q. set_solver. }
  set (w1 := set_dirs (list_to_set (prefixes (join_path dir s)) ∪ wDirs w) w).
  destruct (IH w1 Hw) as (w' & E & Hsd & Hh & Hd). exists w'. cbn [for_each].
  erewrite bind_ok; [|unfold wrap, MkdirAll; by rewrite syscall_ok].
  split; [exact E|]. split; [exact Hsd|]. split; [exact Hh|].
  intros q. rewrite Hd. unfold w1. cbn [wDirs set_dirs].
  rewrite elem_of_union, elem_of_list_to_set, elem_of_prefixes. split.
  - intros [[H|H]|(sub & Hs & H)]; [right; exists s; set_solver|by left|right; exists sub; set_solver].
  - intros [H|(sub & [->|Hs]%elem_of_cons & H)]; [by left; right|by left; left|right; by exists sub].
Qed.

(** A write and a move that nothing disturbs. *)
Lemma write_and_move_ok tmp final msg w :
  wFaults w = [] -> parent final ∈ wDirs w ->
  exists t w', write_and_move tmp final msg w = (Ok final, w') /\
    wFiles w' = <[final := mkFile msg t]> (delete tmp (wFiles w)) /\
    wDirs w' = wDirs w /\ wFaults w' = [] /\ wHost w' = wHost w.
Proof.
  intros Hw Hp. unfold write_and_move. set (w1 := set_files (<[tmp := mkFile msg (wNow w)]> (wFiles w)) w).
  exists (wNow w). eexists. split.
  - erewrite bind_ok; [|apply try_eq; unfold FileWrite, mbind, M_bind, next_fault; by rewrite Hw].
    change (set_files _ w) with w1. cbn [is_ok].
    erewrite bind_ok; [|by apply try_eq; unfold FileSync; rewrite syscall_ok].
    erewrite bind_ok; [|by apply try_eq; unfold FileClose; rewrite syscall_ok].
    cbn beta iota. erewrite bind_ok; cycle 1.
    { apply try_eq. eapply Rename_ok; [done|apply lookup_insert_eq|done]. }
    reflexivity.
  - cbn [wFiles set_files wDirs wFaults wHost w1]. by rewrite delete_insert_eq.
Qed.

Definition maildir_subs : list str := [ []; #"tmp"; #"new"; #"cur"].

(** A delivery on a working file system: it stores the whole message, unless
    the name it picks in [tmp] is taken. *)
Lemma deliver_ok dir msg flags w :
  wFaults w = [] -> "/"%char ∉ wHost w -> forallb is_flag flags = true ->
  exists base w', plain base /\ wFaults w' = [] /\ wHost w' = wHost w /\
    (forall q, q ∈ wDirs w' <-> q ∈ wDirs w \/ exists sub, sub ∈ maildir_subs /\ q `prefix_of` join_path dir sub) /\
    let p := dir ++ [(landing base flags).1; (landing base flags).2] in
    ((wFiles w !! (dir ++ [ #"tmp"; base]) = None /\ exists t, DeliverWithFlags dir msg flags w = (Ok p, w') /\
        wFiles w' = <[p := mkFile msg t]> (wFiles w)) \/
     (is_Some (wFiles w !! (dir ++ [ #"tmp"; base])) /\ exists e, DeliverWithFlags dir msg flags w = (Err e, w') /\
        wFiles w' = wFiles w)).
Proof.
  intros Hw Hh Hfl. unfold DeliverWithFlags.
  destruct (mkdirs_ok dir maildir_subs w Hw) as (w1 & E1 & (Hf1 & _ & Hx1) & Hh1 & Hd1).
  destruct (delivery_name_ok w1) as (base & w2 & E2 & (Hf2 & Hd2 & Hx2) & Hh2 & Hb); [by rewrite Hh1|].
  assert (forall sub, sub ∈ maildir_subs -> join_path dir sub ∈ wDirs w2) as Hin
    by (intros sub Hs; rewrite Hd2, Hd1; right; by exists sub).
  destruct plain_subs as (Hpn & Hpc & Hpt).
  destruct (landing_plain base flags Hb Hfl) as (Hln & Hls & _).
  assert (dir ++ [(landing base flags).1] ∈ wDirs w2) as Hsub.
  { rewrite <- join_plain by done. apply Hin. destruct flags; simpl; set_solver. }
  assert (dir ++ [ #"tmp"] ∈ wDirs w2) as Htd by (rewrite <- join_plain by done; apply Hin; set_solver).
  assert (wFaults w2 = []) as Hx by (rewrite Hx2; simpl in Hx1; congruence).
  assert (wFiles w2 = wFiles w) as Hf by (rewrite Hf2; by rewrite Hf1).
  exists base. cbv zeta. destruct (landing base flags) as [sub name] eqn:El. cbn [fst snd] in *.
  set (tmp := (dir ++ [ #"tmp"]) ++ [base]).
  assert (dir ++ [ #"tmp"; base] = tmp) as -> by (unfold tmp; by rewrite <- app_assoc).
  assert (forall r w', (wrap (CreateExcl tmp) ≫= fun _ => write_and_move tmp ((dir ++ [sub]) ++ [name]) msg) w2 = (r, w') ->
    (for_each maildir_subs (fun sub => wrap (MkdirAll (join_path dir sub))) ≫= fun _ =>
     b ← delivery_name;
     let tmp := join_path (join_path dir #"tmp") b in
     let '(sub, name) := landing b flags in
     let final := join_path (join_path dir sub) name in
     wrap (CreateExcl tmp) ≫= fun _ => write_and_move tmp final msg) w = (r, w')) as Hrun.
  { intros r w' Hr. erewrite bind_ok by exact E1. erewrite bind_ok by exact E2. cbv zeta. rewrite El.
    by rewrite (join_plain dir #"tmp"), (join_plain _ base), (join_plain dir sub), (join_plain _ name) by done. }
  destruct (wFiles w !! tmp) as [f0|] eqn:Et.
  - exists w2. split; [done|]. split; [done|]. split; [congruence|]. split; [by intros q; rewrite Hd2|].
    right. split; [done|]. exists (ErrWrap EEXIST). split; [|done]. apply Hrun.
    apply bind_err. unfold wrap, CreateExcl. rewrite syscall_ok by done. unfold mbind, M_bind, get_world.
    by rewrite Hf, Et.
  - set (w3 := set_files (<[tmp := mkFile [] (wNow w2)]> (wFiles w2)) w2).
    destruct (write_and_move_ok tmp ((dir ++ [sub]) ++ [name]) msg w3) as (t & w4 & E4 & Hf4 & Hd4 & Hx4 & Hh4);
      [done|by rewrite parent_snoc|].
    exists w4. split; [done|]. split; [done|]. split; [cbn in Hh4; congruence|]. split; [by intros q; rewrite Hd4; cbn; rewrite Hd2|].
    left. split; [done|]. exists t.
    assert (dir ++ [sub; name] = (dir ++ [sub]) ++ [name]) as -> by by rewrite <- app_assoc. split.
    + apply Hrun. erewrite bind_ok; [exact E4|].
      unfold wrap, CreateExcl. rewrite syscall_ok by done. unfold mbind, M_bind, get_world.
      rewrite Hf, Et. rewrite decide_True by (unfold tmp; by rewrite parent_snoc). reflexivity.
    + rewrite Hf4. unfold w3. cbn [wFiles set_files]. rewrite Hf. f_equal.
      rewrite delete_insert_eq. by apply delete_id.
Qed.

(** On a working file system with an empty [tmp], a delivery succeeds and
    stores the whole message: in [new] without flags, in [cur] under the
    file name that spells them otherwise. *)
Theorem deliver_stores dir msg flags w :
  wFaults w = [] -> "/"%char ∉ wHost w -> forallb is_flag flags = true ->
  (forall q, parent q = dir ++ [ #"tmp"] -> wFiles w !! q = None) ->
  exists base w' t,
    DeliverWithFlags dir msg flags w
      = (Ok (dir ++ [(landing base flags).1; (landing base flags).2]), w') /\
    wFiles w' = <[dir ++ [(landing base flags).1; (landing base flags).2] := mkFile msg t]> (wFiles w).
Proof.
  intros Hw Hh Hfl Htmp. destruct (deliver_ok dir msg flags w Hw Hh Hfl) as (base & w' & _ & _ & _ & _ & [(_ & t & E & Hf)|([f E] & _)]).
  - by exists base, w', t.
  - rewrite Htmp in E; [done|]. change [ #"tmp"; base] with ([ #"tmp"] ++ [base]). rewrite app_assoc. apply parent_snoc.
Qed.

Definition empty_world (faults : list fault) : world :=
  mkWorld ∅ ∅ faults 1700000000123456789 [] [255] 0 7 #"mx".

Example deliver_stores_witness :
  exists base w' t,
    DeliverWithFlags [ #"u"] #"Hi" #"S" (empty_world [])
      = (Ok ([ #"u"] ++ [(landing base #"S").1; (landing base #"S").2]), w') /\
    wFiles w' = <[ [ #"u"] ++ [(landing base #"S").1; (landing base #"S").2] := mkFile #"Hi" t]> ∅.
Proof.
  apply (deliver_stores [ #"u"] #"Hi" #"S" (empty_world [])); [done| |done|done].
  by apply index_byte_None.
Defined.

Lemma empty_ready faults : ready (empty_world faults).
Proof.
  split.
  - by apply index_byte_None.
  - constructor.
  - by apply Z.leb_le.
  - by apply Z.leb_le.
  - by apply Z.leb_le.
  - intros q name sec n _ _ [f Hf]. change ((∅ : gmap path file) !! q = Some f) in Hf. by rewrite lookup_empty in Hf.
Qed.

(** A delivery that works, and after it one whose rename fails. *)
Definition after_one : world := (Deliver [ #"u"] #"Hi" (empty_world [])).2.
Definition one_path : path := [ #"u"; #"new"; #"1700000000.M123456P7Q1Rff.mx"].
Definition faults_at (n : nat) (w : world) : world := set_faults (repeat NoFault n ++ [Fault]) w.

Example deliver_atomic_witness :
  fData <$> wFiles after_one !! one_path = Some #"Hi" /\
  (Deliver [ #"u"] #"Ho" (faults_at 8 after_one)).1 = Err (ErrWrap EIO) /\
  fData <$> wFiles (Deliver [ #"u"] #"Ho" (faults_at 8 after_one)).2 !! one_path = Some #"Hi" /\
  exists p, (Deliver [ #"u"] #"Ho" after_one).1 = Ok p /\ p <> one_path /\
    fData <$> wFiles (Deliver [ #"u"] #"Ho" after_one).2 !! one_path = Some #"Hi".
Proof.
  pose proof (deliver_atomic [ #"u"] #"Hi" [] (empty_world []) eq_refl (empty_ready []) ltac:(by apply Z.ltb_lt)) as H1.
  assert (DeliverWithFlags [ #"u"] #"Hi" [] (empty_world []) = (Ok one_path, after_one)) as E1 by (vm_compute; reflexivity).
  rewrite E1 in H1. destruct H1 as (Hr & _ & _ & (n & t & Hf & Hall) & _).
  rewrite (Hall I) in Hf. assert (fData <$> wFiles after_one !! one_path = Some #"Hi") as H by (by rewrite Hf).
  assert (parent one_path <> [ #"u"] ++ [ #"tmp"]) as Hp by (vm_compute; discriminate).
  assert (ready (faults_at 8 after_one)) as Hr8 by (destruct Hr as [R1 R2 R3 R4 R5 R6]; split; assumption).
  pose proof (deliver_atomic [ #"u"] #"Ho" [] (faults_at 8 after_one) eq_refl Hr8 ltac:(apply Z.ltb_lt; vm_compute; reflexivity)) as H8.
  pose proof (deliver_atomic [ #"u"] #"Ho" [] after_one eq_refl Hr ltac:(apply Z.ltb_lt; vm_compute; reflexivity)) as H2.
  split; [exact H|]. split; [vm_compute; reflexivity|].
  assert ((DeliverWithFlags [ #"u"] #"Ho" [] (faults_at 8 after_one)).1 = Err (ErrWrap EIO)) as E8 by (vm_compute; reflexivity).
  assert (is_ok (DeliverWithFlags [ #"u"] #"Ho" [] after_one).1 = true) as E2 by (vm_compute; reflexivity).
  unfold Deliver. destruct (DeliverWithFlags [ #"u"] #"Ho" [] (faults_at 8 after_one)) as [r8 w8]. cbn [fst] in E8. subst r8.
  destruct (DeliverWithFlags [ #"u"] #"Ho" [] after_one) as [[p|e] w2]; [|discriminate E2].
  destruct H2 as (_ & _ & Hnone & _ & Hq).
  assert (p <> one_path) as Hne by (intros ->; rewrite Hf in Hnone; discriminate Hnone). split.
  - destruct H8 as [_ H8]. cbn [snd]. rewrite (H8 one_path Hp). exact H.
  - exists p. split; [reflexivity|]. split; [exact Hne|]. cbn [snd]. rewrite (Hq one_path Hp (not_eq_sym Hne)). exact H.
Defined.

(** The error of a write that stops short does not reach the caller: the
    delivery reports success and the truncated message is in [new]. *)
Lemma short_write_delivered :
  match Deliver [ #"u"] #"Hello, world"
          (empty_world [NoFault; NoFault; NoFault; NoFault; NoFault; Short 3]) with
  | (Ok p, w') => fData <$> wFiles w' !! p = Some #"Hel"
  | (Err _, _) => False
  end.
Proof. vm_compute. reflexivity. Qed.

(** ** Flags *)

Lemma plain_cur : plain #"cur".
Proof. apply plain_subs. Qed.

Lemma FileName_plain name f :
  plain name -> forallb is_flag f = true -> plain (FileName (BaseName name) f).
Proof.
  intros (Hs & _) Hf. unfold FileName. apply plain_app.
  - unfold BaseName. destruct (index infoSep name) as [i|]; [|done].
    intros Hin. apply Hs. rewrite <- (take_drop i name). set_solver.
  - apply not_elem_of_app. split; [by apply index_byte_None|].
    intros Hin. rewrite forallb_forall in Hf. apply list_elem_of_In, Hf in Hin. done.
  - rewrite !length_app. change (length infoSep) with 3%nat. lia.
Qed.

(** Setting the flags of a message of the snapshot on a working file
    system renames its file to the name that spells exactly these flags: the
    message keeps its base name, UID and contents, the flags in the snapshot
    are the ones on disk, no other file changes, and the message is no
    longer recent. *)
Theorem SetFlags_renames mb i m f file w :
  wFaults w = [] -> bxMessages mb !! i = Some m ->
  mRoot m = bxRoot mb -> mFolder m = bxFolder mb -> plain (mName m) -> wf_flags f ->
  folderDir (bxRoot mb) (bxFolder mb) ++ [ #"cur"] ∈ wDirs w ->
  wFiles w !! Path m = Some file ->
  exists m' w', SetFlags mb i f w = (Ok (set_messages mb (<[i := m']> (bxMessages mb))), w') /\
    msg_base m' = msg_base m /\ mUID m' = mUID m /\ mSeq m' = mSeq m /\
    mFlags m' = f /\ ParseFlags (mName m') = f /\ mRecent m' = false /\
    wFiles w' = <[Path m' := file]> (delete (Path m) (wFiles w)).
Proof.
  intros Hw Hi Hr Hfo Hp Hf Hcur Hfile. unfold SetFlags. rewrite Hi. cbv zeta.
  set (name' := FileName (BaseName (mName m)) f).
  set (m' := mkMessage _ _ name' #"cur" f false _ _ _ _).
  assert (Path m = join_path (join_path (folderDir (bxRoot mb) (bxFolder mb)) (mDir m)) (mName m)) as Ep
    by (unfold Path; by rewrite Hr, Hfo).
  assert (Path m' = join_path (join_path (folderDir (bxRoot mb) (bxFolder mb)) #"cur") name') as Ep'
    by (unfold Path; simpl; by rewrite Hr, Hfo).
  rewrite <- Ep, <- Ep'.
  assert (parent (Path m') ∈ wDirs w) as Hpar.
  { rewrite Ep', (join_plain _ _ plain_cur).
    rewrite join_plain by (apply FileName_plain; [done|apply Hf]). by rewrite parent_snoc. }
  assert (msg_base m' = msg_base m /\ ParseFlags (mName m') = f) as [Hb Hpf].
  { split; [apply BaseName_FileName|apply ParseFlags_FileName; [|done]]; apply BaseName_no_info. }
  exists m'. case_decide as Heq.
  - exists w. split; [done|]. split_and!; try done. rewrite <- Heq, insert_delete_eq.
    symmetry. by apply insert_id.
  - eexists. erewrite bind_ok by (by apply Rename_ok). split; [done|]. by split_and!.
Qed.

Definition example_message : Message :=
  mkMessage 4 1 #"9.x" #"new" [] true 2 0 [ #"u"] Inbox.
Definition flags_world : world :=
  mkWorld (list_to_map [ ([ #"u"; #"new"; #"9.x"], mkFile #"Hi" 5)])
    (list_to_set [ [ #"u"]; [ #"u"; #"cur"]; [ #"u"; #"new"] ]) [] 0 [] [] 0 7 #"mx".

Example SetFlags_renames_witness :
  exists m' w', SetFlags (mkMailbox [ #"u"] Inbox [example_message] 1 5) 0 #"FS" flags_world
      = (Ok (mkMailbox [ #"u"] Inbox [m'] 1 5), w') /\
    msg_base m' = #"9.x" /\ ParseFlags (mName m') = #"FS" /\
    wFiles w' !! Path m' = Some (mkFile #"Hi" 5).
Proof.
  destruct (SetFlags_renames (mkMailbox [ #"u"] Inbox [example_message] 1 5) 0 example_message #"FS"
              (mkFile #"Hi" 5) flags_world) as (m' & w' & E & Hb & _ & _ & _ & Hf & _ & Hw).
  - done.
  - done.
  - done.
  - done.
  - split_and!; [by apply index_byte_None|done..].
  - constructor; [|done]. repeat constructor.
  - apply elem_of_list_to_set. simpl. set_solver.
  - vm_compute. reflexivity.
  - exists m', w'. split; [exact E|]. split; [exact Hb|]. split; [exact Hf|].
    rewrite Hw. apply lookup_insert_eq.
Defined.

(** ** Expunge on disk *)

(** On a working file system [Expunge] removes the files of the messages
    flagged \Deleted and no others, reports their sequence numbers, and keeps
    the remaining messages. *)
Theorem Expunge_removes mb w :
  wFaults w = [] ->
  exists w', Expunge mb w = (Ok (expunged (bxMessages mb),
      match expunged (bxMessages mb) with
      | [] => mb
      | _ => set_messages mb (kept (bxMessages mb))
      end), w') /\
    forall q, wFiles w' !! q =
      if decide (q ∈ Path <$> List.filter deleted (bxMessages mb)) then None else wFiles w !! q.
Proof.
  intros Hw.
  assert (forall l w, wFaults w = [] -> exists w', expunge_files l w = (Ok tt, w') /\
    forall q, wFiles w' !! q = if decide (q ∈ Path <$> List.filter deleted l) then None else wFiles w !! q)
    as H.
  { clear. intros l. induction l as [|m l IH]; intros w Hw.
    { exists w. split; [done|]. intros q. by rewrite decide_False by set_solver. }
    unfold expunge_files in *. cbn [for_each List.filter]. destruct (deleted m); cycle 1.
    { rewrite (bind_ok _ _ w tt w) by done. by apply IH. }
    set (w1 := set_files (delete (Path m) (wFiles w)) w).
    assert ((r ← try (GoOS.Remove (Path m));
      match r with Ok _ => mret tt | Err e => if IsNotExist e then mret tt else throw e end) w
      = (Ok tt, w1)) as E1.
    { destruct (wFiles w !! Path m) as [f|] eqn:Ef.
      - erewrite bind_ok by (by apply try_eq; eapply Remove_ok). done.
      - unfold w1. rewrite delete_id by done.
        rewrite (bind_ok _ _ w (Err ENOENT) w); [by destruct w|].
        apply try_eq. unfold GoOS.Remove. rewrite syscall_ok by done.
        unfold mbind, M_bind, get_world. by rewrite Ef. }
    erewrite bind_ok by exact E1. destruct (IH w1 Hw) as (w' & E & Hq). exists w'.
    split; [exact E|]. intros q. rewrite Hq. rewrite fmap_cons. simpl wFiles.
    destruct (decide (q = Path m)) as [->|Hne].
    - rewrite lookup_delete_eq. rewrite (decide_True (P := Path m ∈ Path m :: _)) by set_solver.
      by case_decide.
    - rewrite lookup_delete_ne by done. do 2 case_decide; set_solver. }
  destruct (H (bxMessages mb) w Hw) as (w' & E & Hq). exists w'. split; [|done].
  unfold Expunge. erewrite bind_ok by exact E. by destruct (expunged (bxMessages mb)).
Qed.

Example Expunge_removes_witness :
  exists w', Expunge (mkMailbox [ #"u"] Inbox
      [mkMessage 4 1 #"9.x" #"new" #"T" true 2 0 [ #"u"] Inbox] 1 5) flags_world
    = (Ok ([1], mkMailbox [ #"u"] Inbox [] 1 5), w') /\ wFiles w' !! [ #"u"; #"new"; #"9.x"] = None.
Proof.
  destruct (Expunge_removes (mkMailbox [ #"u"] Inbox
    [mkMessage 4 1 #"9.x" #"new" #"T" true 2 0 [ #"u"] Inbox] 1 5) flags_world eq_refl)
    as (w' & E & Hq).
  exists w'. split; [exact E|]. rewrite Hq. apply decide_True. vm_compute. set_solver.
Defined.

(** ** Folders *)

(** A folder whose name is one path component is kept inside the account's
    directory. *)
Lemma folderDir_confined root folder :
  plain (#"." ++ folder) -> root `prefix_of` folderDir root folder.
Proof.
  intros Hp. unfold folderDir. destruct (_ || _); [done|]. rewrite join_plain by done.
  by apply prefix_app_r.
Qed.

(** Nothing checks that it is: a folder name with separators and [".."]
    reaches the mailbox of another account. *)
Lemma folderDir_escapes :
  folderDir [ #"srv"; #"mail"; #"alice"] #"x/../../bob" = [ #"srv"; #"mail"; #"bob"].
Proof. by vm_compute. Qed.
