(* ===== verification/RateLimit.v ===== *)
(** * Rate limits (internal/ratelimit)

    Token buckets per key, and the governor that applies the configured rules
    to a transaction.  The [float64] arithmetic of the code is exact here, on
    rationals; times are nanoseconds read by the caller's clock. *)

From S2P Require Import Prelude GoStrings.
From Stdlib Require Export QArith Qminmax Qround Lqa.

#[global] Open Scope Z_scope.

Definition Qltb (a b : Q) : bool := negb (Qle_bool b a).

Lemma Qltb_lt a b : Qltb a b = true <-> (a < b)%Q.
Proof.
  unfold Qltb. rewrite negb_true_iff, <- not_true_iff_false, Qle_bool_iff. split.
  - apply Qnot_le_lt.
  - intros H H'. by apply (Qlt_not_le _ _ H).
Qed.
Lemma Qltb_ge a b : Qltb a b = false <-> (b <= a)%Q.
Proof. unfold Qltb. by rewrite negb_false_iff, Qle_bool_iff. Qed.

(** ** The limiter (ratelimit.go) *)

Record bucket := mkBucket { bkTokens : Q; bkLast : Z }.

Record Limiter := mkLimiter {
  limLimit : Q;
  limWindow : Z;
  limBuckets : gmap str bucket }.

Definition New (limit window : Z) : Limiter := mkLimiter (inject_Z limit) window ∅.

(** Tokens gained since [last]. *)
Definition gained (l : Limiter) (last now : Z) : Q :=
  inject_Z (now - last) / inject_Z (limWindow l) * limLimit l.

Definition refilled (l : Limiter) (b : bucket) (now : Z) : bucket :=
  let t := (bkTokens b + gained l (bkLast b) now)%Q in
  mkBucket (if Qltb (limLimit l) t then limLimit l else t) now.

Definition full (l : Limiter) (now : Z) (b : bucket) : bool :=
  Qle_bool (limLimit l) (bkTokens b + gained l (bkLast b) now).

Definition set_buckets (l : Limiter) (bs : gmap str bucket) : Limiter :=
  mkLimiter (limLimit l) (limWindow l) bs.

Definition prune (l : Limiter) (now : Z) : Limiter :=
  set_buckets l (filter (fun kb => full l now kb.2 = false) (limBuckets l)).

Definition maxBuckets : nat := Z.to_nat 65536.

(** [Allow], with the time it reads. *)
Definition Allow (l : Limiter) (key : str) (now : Z) : bool * Limiter :=
  let '(b, l1) :=
    match limBuckets l !! key with
    | None => (mkBucket (limLimit l) now,
               if Nat.leb maxBuckets (size (limBuckets l)) then prune l now else l)
    | Some b => (refilled l b now, l)
    end in
  if Qltb (bkTokens b) 1 then (false, set_buckets l1 (<[key := b]> (limBuckets l1)))
  else (true, set_buckets l1 (<[key := mkBucket (bkTokens b - 1) now]> (limBuckets l1))).

(** The inbound limits per connecting address and the outbound ones per
    user; [None] is a nil set, which allows everything. *)
Record Inbound := mkInbound { inConns : Limiter; inMsgs : Limiter; inRcpts : Limiter }.
Definition NewInbound (c m r : Z) : Inbound :=
  mkInbound (New c (60 * 10 ^ 9)) (New m (60 * 10 ^ 9)) (New r (60 * 10 ^ 9)).
Definition ConnAllowed (i : option Inbound) (ip : str) (now : Z) : bool * option Inbound :=
  match i with
  | None => (true, None)
  | Some i => let '(ok, l) := Allow (inConns i) ip now in (ok, Some (mkInbound l (inMsgs i) (inRcpts i)))
  end.
Definition InMsgAllowed (i : option Inbound) (ip : str) (now : Z) : bool * option Inbound :=
  match i with
  | None => (true, None)
  | Some i => let '(ok, l) := Allow (inMsgs i) ip now in (ok, Some (mkInbound (inConns i) l (inRcpts i)))
  end.
Definition InRcptAllowed (i : option Inbound) (ip : str) (now : Z) : bool * option Inbound :=
  match i with
  | None => (true, None)
  | Some i => let '(ok, l) := Allow (inRcpts i) ip now in (ok, Some (mkInbound (inConns i) (inMsgs i) l))
  end.

Record Outbound := mkOutbound { outMsgs : Limiter; outRcpts : Limiter }.
Definition NewOutbound (m r : Z) : Outbound :=
  mkOutbound (New m (3600 * 10 ^ 9)) (New r (3600 * 10 ^ 9)).
Definition OutMsgAllowed (o : option Outbound) (user : str) (now : Z) : bool * option Outbound :=
  match o with
  | None => (true, None)
  | Some o => let '(ok, l) := Allow (outMsgs o) user now in (ok, Some (mkOutbound l (outRcpts o)))
  end.
Definition OutRcptAllowed (o : option Outbound) (user : str) (now : Z) : bool * option Outbound :=
  match o with
  | None => (true, None)
  | Some o => let '(ok, l) := Allow (outRcpts o) user now in (ok, Some (mkOutbound (outMsgs o) l))
  end.

(** ** Facts about buckets *)

(** The tokens a key has at a time; a key without a bucket has them all. *)
Definition level (l : Limiter) (key : str) (now : Z) : Q :=
  match limBuckets l !! key with
  | None => limLimit l
  | Some b => Qmin (limLimit l) (bkTokens b + gained l (bkLast b) now)
  end.

(** Buckets hold between none and all of the tokens, and are not from the
    future. *)
Definition limiter_ok (l : Limiter) (now : Z) : Prop :=
  (0 <= limLimit l)%Q /\ 0 < limWindow l /\
  map_Forall (fun _ b => (0 <= bkTokens b)%Q /\ (bkTokens b <= limLimit l)%Q /\ bkLast b <= now)
    (limBuckets l).

Definition rate (l : Limiter) : Q := (limLimit l / inject_Z (limWindow l))%Q.

Lemma Qdiv_0_le a b : (0 <= a)%Q -> (0 < b)%Q -> (0 <= a / b)%Q.
Proof. intros Ha Hb. apply Qle_shift_div_l; [done|]. by rewrite Qmult_0_l. Qed.

Lemma inject_Z_pos z : 0 < z -> (0 < inject_Z z)%Q.
Proof. intros H. change 0%Q with (inject_Z 0). by rewrite <- Zlt_Qlt. Qed.

Lemma gained_rate l last now :
  0 < limWindow l -> (gained l last now == rate l * inject_Z (now - last))%Q.
Proof.
  intros Hw. unfold gained, rate. field. pose proof (inject_Z_pos _ Hw). intros E. apply (Qlt_not_eq _ _ H). by symmetry.
Qed.

Lemma rate_nonneg l : (0 <= limLimit l)%Q -> 0 < limWindow l -> (0 <= rate l)%Q.
Proof. intros H Hw. apply Qdiv_0_le; [done|by apply inject_Z_pos]. Qed.

Lemma inject_Z_sub a b c : (inject_Z (c - a) == inject_Z (c - b) + inject_Z (b - a))%Q.
Proof. replace (c - a)%Z with ((c - b) + (b - a))%Z by lia. by rewrite inject_Z_plus. Qed.

Lemma inject_Z_nonneg z : 0 <= z -> (0 <= inject_Z z)%Q.
Proof. intros H. change 0%Q with (inject_Z 0). by rewrite <- Zle_Qle. Qed.

Lemma gained_split l last t t' :
  0 < limWindow l -> (gained l last t' == gained l last t + rate l * inject_Z (t' - t))%Q.
Proof.
  intros Hw. rewrite !gained_rate by done. rewrite (inject_Z_sub last t t'). ring.
Qed.

Lemma level_range l key now : limiter_ok l now -> (0 <= level l key now <= limLimit l)%Q.
Proof.
  intros (Hl & Hw & Hb). unfold level. destruct (limBuckets l !! key) as [b|] eqn:E; [|lra].
  apply Hb in E as (H0 & H1 & Ht). split; [|apply Q.le_min_l].
  apply Q.min_glb; [done|]. rewrite gained_rate by done.
  pose proof (rate_nonneg l Hl Hw). pose proof (inject_Z_nonneg (now - bkLast b) ltac:(lia)).
  pose proof (Qmult_le_0_compat _ _ H H2). lra.
Qed.

(** Tokens come back at the configured rate. *)
Lemma level_grows l key t t' :
  limiter_ok l t -> t <= t' ->
  (level l key t <= level l key t' <= level l key t + rate l * inject_Z (t' - t))%Q.
Proof.
  intros (Hl & Hw & Hb) Ht. unfold level.
  pose proof (rate_nonneg l Hl Hw) as Hr. pose proof (inject_Z_nonneg (t' - t) ltac:(lia)) as Hd.
  pose proof (Qmult_le_0_compat _ _ Hr Hd) as Hg.
  destruct (limBuckets l !! key) as [b|] eqn:E; [|lra].
  pose proof (gained_split l (bkLast b) t t' Hw) as Hs.
  destruct (Q.min_spec (limLimit l) (bkTokens b + gained l (bkLast b) t)) as [[? Em]|[? Em]], 
    (Q.min_spec (limLimit l) (bkTokens b + gained l (bkLast b) t')) as [[? Em']|[? Em']];
    rewrite Em, Em'; lra.
Qed.

Lemma limiter_ok_later l t t' : limiter_ok l t -> t <= t' -> limiter_ok l t'.
Proof.
  intros (Hl & Hw & Hb) Ht. split_and!; [done|done|]. eapply map_Forall_impl; [exact Hb|].
  simpl. intros k b (? & ? & ?). split_and!; [done|done|lia].
Qed.

(** Pruning forgets nothing: a dropped bucket had all its tokens back. *)
Lemma level_prune l key now t :
  limiter_ok l now -> now <= t -> (level (prune l now) key t == level l key t)%Q.
Proof.
  intros Hok Ht. unfold level, prune. cbn [limBuckets limLimit set_buckets].
  destruct (limBuckets l !! key) as [b|] eqn:E.
  - destruct (full l now b) eqn:Ef.
    + rewrite (proj2 (map_lookup_filter_None _ _ _)).
      2: { right. intros b' Hb'. simpl. congruence. }
      symmetry. apply Q.min_l. unfold full in Ef. apply Qle_bool_iff in Ef.
      pose proof (level_grows l key now t Hok Ht) as [Hg _]. unfold level in Hg. rewrite E in Hg.
      rewrite Q.min_l in Hg by done. by apply Q.min_glb_r in Hg.
    + by rewrite (proj2 (map_lookup_filter_Some _ _ _ _) (conj E Ef)).
  - rewrite (proj2 (map_lookup_filter_None _ _ _)); [done|]. by left.
Qed.

Lemma limiter_ok_prune l now t : limiter_ok l now -> now <= t -> limiter_ok (prune l t) now.
Proof.
  intros (Hl & Hw & Hb) Ht. split_and!; [done|done|]. simpl.
  intros k b Hk. apply map_lookup_filter_Some in Hk as [Hk _]. by apply Hb in Hk.
Qed.

Definition pruned (l : Limiter) (key : str) (now : Z) : Limiter :=
  match limBuckets l !! key with
  | None => if Nat.leb maxBuckets (size (limBuckets l)) then prune l now else l
  | Some _ => l
  end.

Lemma level_pruned l key k now t :
  limiter_ok l now -> now <= t -> (level (pruned l key now) k t == level l k t)%Q.
Proof.
  intros. unfold pruned. destruct (limBuckets l !! key); [done|].
  destruct (Nat.leb _ _); [by apply level_prune|done].
Qed.

Lemma limiter_ok_pruned l key now : limiter_ok l now -> limiter_ok (pruned l key now) now.
Proof.
  intros. unfold pruned. destruct (limBuckets l !! key); [done|].
  destruct (Nat.leb _ _); [|done]. by apply limiter_ok_prune.
Qed.

(** [Allow] answers by the level of the key, takes one token when it says
    yes, and touches no other key. *)
Lemma Allow_level l key now :
  limiter_ok l now ->
  let '(ok, l') := Allow l key now in
  (ok = true <-> (1 <= level l key now)%Q) /\ limiter_ok l' now /\
  limLimit l' = limLimit l /\ limWindow l' = limWindow l /\
  (level l' key now == level l key now - (if ok then 1 else 0))%Q /\
  forall k t, k <> key -> now <= t -> (level l' k t == level l k t)%Q.
Proof.
  intros Hok. pose proof (level_range l key now Hok) as Hr.
  pose proof (limiter_ok_pruned l key now Hok) as Hokp.
  set (b := match limBuckets l !! key with None => mkBucket (limLimit l) now | Some b => refilled l b now end).
  assert (Allow l key now =
    if Qltb (bkTokens b) 1
    then (false, set_buckets (pruned l key now) (<[key := b]> (limBuckets (pruned l key now))))
    else (true, set_buckets (pruned l key now)
                  (<[key := mkBucket (bkTokens b - 1) now]> (limBuckets (pruned l key now))))) as ->.
  { unfold Allow, b, pruned. by destruct (limBuckets l !! key). }
  assert (limLimit (pruned l key now) = limLimit l /\ limWindow (pruned l key now) = limWindow l) as [El Ew].
  { unfold pruned. destruct (limBuckets l !! key); [done|]. by destruct (Nat.leb _ _). }
  assert (bkLast b = now) as Hlast by (unfold b; by destruct (limBuckets l !! key)).
  assert (bkTokens b == level l key now)%Q as Htok.
  { unfold b, level. destruct (limBuckets l !! key) as [b0|]; [|done]. simpl.
    destruct (Qltb _ _) eqn:E; [apply Qltb_lt in E|apply Qltb_ge in E]; symmetry;
      [apply Q.min_l; lra|by apply Q.min_r]. }
  assert (forall q, (0 <= q)%Q -> (q <= limLimit l)%Q ->
    let l' := set_buckets (pruned l key now) (<[key := mkBucket q now]> (limBuckets (pruned l key now))) in
    limiter_ok l' now /\ (level l' key now == q)%Q /\
    forall k t, k <> key -> now <= t -> (level l' k t == level l k t)%Q) as Hput.
  { intros q Hq0 Hq1 l'. destruct Hokp as (Hl & Hw & Hb). split_and!.
    - split_and!; [done|done|]. simpl. apply map_Forall_insert_2; [|done]. simpl. by rewrite El.
    - unfold level, l'. simpl. rewrite lookup_insert_eq. simpl. unfold gained. simpl.
      rewrite Z.sub_diag. change (inject_Z 0) with 0%Q. unfold Qdiv.
      rewrite !Qmult_0_l, Qplus_0_r, El. by apply Q.min_r.
    - intros k t Hk Ht. rewrite <- (level_pruned l key k now t) by done.
      unfold level, l'. simpl. by rewrite lookup_insert_ne. }
  destruct (Qltb (bkTokens b) 1) eqn:E; [apply Qltb_lt in E|apply Qltb_ge in E].
  - assert (b = mkBucket (bkTokens b) now) as Eb by (rewrite <- Hlast; by destruct b).
    rewrite Eb. destruct (Hput (bkTokens b)) as (H1 & H2 & H3); [lra|lra|].
    split; [split; [done|lra]|]. split_and!; [done|done|done|lra|done].
  - destruct (Hput (bkTokens b - 1)%Q) as (H1 & H2 & H3); [lra|lra|].
    split; [split; [lra|done]|]. split_and!; [done|done|done|lra|done].
Qed.

(** A sequence of calls, each with the time it happens. *)
Fixpoint allow_all (l : Limiter) (calls : list (str * Z)) : list bool :=
  match calls with
  | [] => []
  | (key, now) :: r => let '(ok, l') := Allow l key now in ok :: allow_all l' r
  end.

(** How many calls for [key] were allowed. *)
Definition granted (key : str) (calls : list (str * Z)) (answers : list bool) : Z :=
  Z.of_nat (length (List.filter (fun x => x.2 && (x.1.1 =s key)) (combine calls answers))).

Lemma granted_level key calls : forall l t0 t1,
  limiter_ok l t0 -> t0 <= t1 -> StronglySorted Z.le (t0 :: (snd <$> calls)) ->
  Forall (fun c : str * Z => c.2 <= t1) calls ->
  (inject_Z (granted key calls (allow_all l calls)) <= level l key t0 + rate l * inject_Z (t1 - t0))%Q.
Proof.
  induction calls as [|[k t] calls IH]; intros l t0 t1 Hok Ht HS HF.
  - pose proof (level_range l key t0 Hok). pose proof (level_grows l key t0 t1 Hok Ht).
    change (inject_Z (granted key [] (allow_all l []))) with 0%Q. lra.
  - rewrite fmap_cons in HS. apply StronglySorted_inv in HS as [HS H0].
    pose proof (Forall_inv H0) as Ht0. cbn [snd] in Ht0.
    apply Forall_cons in HF as [Ht1 HF]. simpl in Ht1.
    pose proof (limiter_ok_later l t0 t Hok Ht0) as Hok'.
    pose proof (Allow_level l k t Hok') as HA. cbn [allow_all].
    destruct (Allow l k t) as [ok l'] eqn:EA. destruct HA as (Hans & Hokl & El & Ew & Hlev & Hoth).
    specialize (IH l' t t1 Hokl Ht1 HS HF).
    pose proof (level_grows l key t0 t Hok Ht0) as [_ Hg].
    assert (rate l' == rate l)%Q as Er by (unfold rate; by rewrite El, Ew). rewrite Er in IH.
    pose proof (inject_Z_sub t0 t t1) as Hsp.
    assert (rate l * inject_Z (t1 - t0) == rate l * inject_Z (t1 - t) + rate l * inject_Z (t - t0))%Q
      as Hsp' by (rewrite Hsp; ring).
    assert (granted key ((k, t) :: calls) (ok :: allow_all l' calls)
      = (if ok && (k =s key) then 1 else 0) + granted key calls (allow_all l' calls)) as ->.
    { unfold granted. cbn [combine List.filter fst snd]. destruct (ok && (k =s key)); cbn [length]; lia. }
    rewrite inject_Z_plus.
    destruct (str_eqb_spec k key) as [->|Hne].
    + rewrite Hlev in IH. destruct ok; cbn [andb]; [change (inject_Z 1) with 1%Q|change (inject_Z 0) with 0%Q]; lra.
    + rewrite (Hoth key t (not_eq_sym Hne) (Z.le_refl t)) in IH. rewrite andb_false_r.
      change (inject_Z 0) with 0%Q. lra.
Qed.

(** The limiter after the calls. *)
Fixpoint after (l : Limiter) (calls : list (str * Z)) : Limiter :=
  match calls with
  | [] => l
  | (key, now) :: r => after (Allow l key now).2 r
  end.

Lemma allow_all_app l a b : allow_all l (a ++ b) = allow_all l a ++ allow_all (after l a) b.
Proof.
  revert l. induction a as [|[key now] a IH]; intros l; [done|]. cbn [app allow_all after].
  destruct (Allow l key now) as [ok l']. by rewrite IH.
Qed.

Lemma length_allow_all l a : length (allow_all l a) = length a.
Proof.
  revert l. induction a as [|[key now] a IH]; intros l; [done|]. cbn [allow_all].
  destruct (Allow l key now) as [ok l']. cbn [length]. by rewrite IH.
Qed.

(** Calls leave the limiter in order, with the limits it was made with. *)
Lemma after_ok a : forall l t0 t,
  limiter_ok l t0 -> StronglySorted Z.le (t0 :: (snd <$> a) ++ [t]) ->
  limiter_ok (after l a) t /\ limLimit (after l a) = limLimit l /\ limWindow (after l a) = limWindow l.
Proof.
  induction a as [|[key now] a IH]; intros l t0 t Hok HS; cbn [after].
  - split; [|done]. apply StronglySorted_inv in HS as [_ HF]. apply (limiter_ok_later l t0); [done|].
    by apply Forall_inv in HF.
  - rewrite fmap_cons in HS. cbn [app snd] in HS. apply StronglySorted_inv in HS as [HS HF].
    pose proof (Forall_inv HF) as Hn. cbn beta in Hn.
    pose proof (Allow_level l key now (limiter_ok_later l t0 now Hok Hn)) as HA.
    destruct (Allow l key now) as [ok l']. destruct HA as (_ & Hok' & El & Ew & _). cbn [snd].
    destruct (IH l' now t Hok' HS) as (H1 & H2 & H3). by rewrite H2, H3.
Qed.

Lemma sorted_split (a : list Z) t0 b :
  StronglySorted Z.le (a ++ t0 :: b) -> StronglySorted Z.le (a ++ [t0]) /\ StronglySorted Z.le (t0 :: b).
Proof.
  induction a as [|x a IH]; intros HS.
  - split; [by repeat constructor|done].
  - cbn [app] in HS. apply StronglySorted_inv in HS as [HS HF]. destruct (IH HS) as [H1 H2].
    split; [|done]. cbn [app]. constructor; [done|]. apply Forall_app in HF as [Ha Hb].
    apply Forall_app. split; [done|]. constructor; [by apply Forall_inv in Hb|done].
Qed.

Lemma sorted_before (l : list Z) t1 :
  StronglySorted Z.le (l ++ [t1]) -> StronglySorted Z.le l /\ Forall (fun t => t <= t1) l.
Proof.
  induction l as [|x l IH]; intros HS; [by repeat constructor|]. cbn [app] in HS.
  apply StronglySorted_inv in HS as [HS HF]. destruct (IH HS) as [H1 H2].
  apply Forall_app in HF as [Ha Hb]. apply Forall_inv in Hb. by repeat constructor.
Qed.

(** C38. In any window of time a key is granted at most [limit * (1 + T /
    window)] calls, [T] the length of the window: its burst and what the
    configured rate yields meanwhile.  The window begins at [t0] and ends at
    [t1]; [past] are all the calls before it, for whatever keys and however
    long the limiter was idle in between, and [calls] those in it. *)
Theorem limiter_bound (limit window : Z) key (past calls : list (str * Z)) t0 t1 :
  0 <= limit -> 0 < window ->
  StronglySorted Z.le ((snd <$> past) ++ t0 :: (snd <$> calls) ++ [t1]) ->
  let answers := allow_all (New limit window) (past ++ calls) in
  (inject_Z (granted key calls (drop (length past) answers))
   <= inject_Z limit * (1 + inject_Z (t1 - t0) / inject_Z window))%Q.
Proof.
  intros Hl Hw HS answers. destruct (sorted_split _ _ _ HS) as [HSp HSc].
  set (from := match past with [] => t0 | c :: _ => c.2 end).
  assert (limiter_ok (New limit window) from) as Hok.
  { split_and!; [by apply inject_Z_nonneg|done|by apply map_Forall_empty]. }
  assert (StronglySorted Z.le (from :: (snd <$> past) ++ [t0])) as HSf.
  { constructor; [done|]. unfold from. destruct past as [|c r]; [by repeat constructor|].
    cbn. constructor; [lia|]. by apply StronglySorted_inv in HSp as [_ HF]. }
  destruct (after_ok past _ _ _ Hok HSf) as (Hoka & El & Ew).
  unfold answers. rewrite allow_all_app, drop_app_length' by (by rewrite length_allow_all).
  destruct (sorted_before (t0 :: (snd <$> calls)) t1 HSc) as [HSt HF].
  pose proof (Forall_inv HF) as Ht. cbn beta in Ht.
  assert (Forall (fun c : str * Z => c.2 <= t1) calls) as HFc.
  { apply Forall_inv_tail in HF. by rewrite Forall_fmap in HF. }
  pose proof (granted_level key calls _ t0 t1 Hoka Ht HSt HFc) as Hg.
  pose proof (level_range _ key t0 Hoka) as [_ Hlev]. unfold rate in Hg. rewrite El, Ew in *. cbn [New limLimit limWindow] in *.
  assert (inject_Z limit / inject_Z window * inject_Z (t1 - t0)
    == inject_Z limit * (inject_Z (t1 - t0) / inject_Z window))%Q as E by (unfold Qdiv; ring).
  lra.
Qed.

(** After an hour of quiet the burst is two again, not what the hour would
    have yielded. *)
Example limiter_bound_witness :
  let past := [ (#"a", 0); (#"a", 0); (#"b", 1)] in
  let calls := [ (#"a", 3600); (#"a", 3600); (#"a", 3601); (#"a", 3631)] in
  allow_all (New 2 60) (past ++ calls) = [true; true; true; true; true; false; true] /\
  (inject_Z (granted #"a" calls (drop 3 (allow_all (New 2 60) (past ++ calls))))
    <= 2 * (1 + inject_Z (3631 - 3600) / 60))%Q.
Proof.
  split; [by vm_compute|].
  apply (limiter_bound 2 60 #"a" [ (#"a", 0); (#"a", 0); (#"b", 1)]
    [ (#"a", 3600); (#"a", 3600); (#"a", 3601); (#"a", 3631)] 3600 3631); try lia.
  repeat constructor; simpl; lia.
Defined.
