(* ===== verification/Governor.v ===== *)
(** * The rate-limit governor (internal/ratelimit/governor.go)

    Rules per dimension of a transaction.  The order in which Go ranges over
    the dimensions is not specified, so it is an argument of the checks; one
    check reads the clock once here. *)

From S2P Require Import Prelude GoStrings RateLimit.

Definition ByIP : str := #"ip".
Definition BySenderDomain : str := #"sender_domain".
Definition BySenderMailbox : str := #"sender_mailbox".
Definition ByRecipient : str := #"recipient".
Definition ByRecipientDomain : str := #"recipient_domain".
Definition DirInbound : str := #"inbound".
Definition DirOutbound : str := #"outbound".

Record GovRule := mkGovRule {
  grBy : str;
  grMatch : str;
  grDirection : str;
  grWindow : Z;
  grMessages : Z;
  grRecipients : Z }.

Record Values := mkValues {
  vIP : str;
  vSenderMailbox : str;
  vSenderDomain : str;
  vRecipient : str;
  vRecipientDomain : str }.

Definition get (v : Values) (dim : str) : str :=
  if dim =s ByIP then vIP v
  else if dim =s BySenderDomain then vSenderDomain v
  else if dim =s BySenderMailbox then vSenderMailbox v
  else if dim =s ByRecipient then vRecipient v
  else if dim =s ByRecipientDomain then vRecipientDomain v
  else [].

(** A generic limit and the overrides of single values. *)
Record keyed := mkKeyed { kGeneric : option Limiter; kOver : gmap str Limiter }.

Definition keyed_allow (k : option keyed) (value : str) (now : Z) : bool * option keyed :=
  match k with
  | None => (true, None)
  | Some k =>
      match value with
      | [] => (true, Some k)
      | _ =>
          match kOver k !! value with
          | Some l => let '(ok, l') := Allow l value now in
                      (ok, Some (mkKeyed (kGeneric k) (<[value := l']> (kOver k))))
          | None =>
              match kGeneric k with
              | Some l => let '(ok, l') := Allow l value now in (ok, Some (mkKeyed (Some l') (kOver k)))
              | None => (true, Some k)
              end
          end
      end
  end.

Record dimCounters := mkDim { dcMsgs : option keyed; dcRcpts : option keyed }.

(** Counters by direction and dimension; [None] is a nil governor. *)
Abbreviation Governor := (gmap str (gmap str dimCounters)).

(** [add]. *)
Definition add (k : option keyed) (match_ : str) (limit window : Z) : keyed :=
  let k := default (mkKeyed None ∅) k in
  match match_ with
  | [] => mkKeyed (Some (New limit window)) (kOver k)
  | _ => mkKeyed (kGeneric k) (<[match_ := New limit window]> (kOver k))
  end.

Definition hour : Z := 3600 * 10 ^ 9.

Definition add_rule_in (r : GovRule) (g : Governor) (dir : str) : Governor :=
  match g !! dir with
  | None => g
  | Some byDim =>
      let window := if grWindow r <=? 0 then hour else grWindow r in
      let dc := default (mkDim None None) (byDim !! grBy r) in
      let dc := if 0 <? grMessages r
                then mkDim (Some (add (dcMsgs dc) (grMatch r) (grMessages r) window)) (dcRcpts dc)
                else dc in
      let dc := if 0 <? grRecipients r
                then mkDim (dcMsgs dc) (Some (add (dcRcpts dc) (grMatch r) (grRecipients r) window))
                else dc in
      <[dir := <[grBy r := dc]> byDim]> g
  end.

Definition add_rule (g : Governor) (r : GovRule) : Governor :=
  match grDirection r with
  | [] => fold_left (add_rule_in r) [DirInbound; DirOutbound] g
  | _ => add_rule_in r g (grDirection r)
  end.

Definition NewGovernor (rules : list GovRule) : option Governor :=
  match rules with
  | [] => None
  | _ => Some (fold_left add_rule rules (<[DirInbound := ∅]> (<[DirOutbound := ∅]> ∅)))
  end.

(** The loop over the dimensions: [step] answers for one dimension. *)
Fixpoint over_dims (step : str -> dimCounters -> bool * dimCounters) (order : list str)
    (byDim : gmap str dimCounters) : option str * gmap str dimCounters :=
  match order with
  | [] => (None, byDim)
  | dim :: rest =>
      match byDim !! dim with
      | None => over_dims step rest byDim
      | Some dc =>
          let '(ok, dc') := step dim dc in
          if ok : bool then over_dims step rest (<[dim := dc']> byDim)
          else (Some dim, <[dim := dc']> byDim)
      end
  end.

Definition over_direction (step : str -> dimCounters -> bool * dimCounters) (order : list str)
    (dir : str) (g : option Governor) : option str * option Governor :=
  match g with
  | None => (None, None)
  | Some g =>
      match g !! dir with
      | None => (None, Some g)
      | Some byDim =>
          let '(denied, byDim') := over_dims step order byDim in
          (denied, Some (<[dir := byDim']> g))
      end
  end.

Definition rcpt_step (v : Values) (now : Z) (dim : str) (dc : dimCounters) : bool * dimCounters :=
  let '(ok, k) := keyed_allow (dcRcpts dc) (get v dim) now in (ok, mkDim (dcMsgs dc) k).

(** [RcptAllowed]: the dimension that denied, if any. *)
Definition RcptAllowed (order : list str) (dir : str) (v : Values) (now : Z)
    : option Governor -> option str * option Governor :=
  over_direction (rcpt_step v now) order dir.

(** One token per distinct value among the recipients. *)
Fixpoint distinct_values (vals : list str) (seen : list str) (now : Z) (k : option keyed)
    : bool * option keyed :=
  match vals with
  | [] => (true, k)
  | x :: r =>
      if existsb (str_eqb x) seen then distinct_values r seen now k
      else
        let '(ok, k') := keyed_allow k x now in
        if ok : bool then distinct_values r (x :: seen) now k' else (false, k')
  end.

Definition msg_step (v : Values) (rcpts : list (str * str)) (now : Z) (dim : str) (dc : dimCounters)
    : bool * dimCounters :=
  if (dim =s ByIP) || (dim =s BySenderDomain) || (dim =s BySenderMailbox) then
    let '(ok, k) := keyed_allow (dcMsgs dc) (get v dim) now in (ok, mkDim k (dcRcpts dc))
  else if (dim =s ByRecipient) || (dim =s ByRecipientDomain) then
    let '(ok, k) := distinct_values
                      (map (fun r : str * str => if dim =s ByRecipientDomain then r.2 else r.1) rcpts)
                      [] now (dcMsgs dc) in
    (ok, mkDim k (dcRcpts dc))
  else (true, dc).

(** [MsgAllowed]; [rcpts] pairs each recipient with its domain. *)
Definition MsgAllowed (order : list str) (dir : str) (v : Values) (rcpts : list (str * str)) (now : Z)
    : option Governor -> option str * option Governor :=
  over_direction (msg_step v rcpts now) order dir.

(** ** The answer does not depend on the order *)

Lemma over_dims_answer step order : forall byDim,
  NoDup order ->
  is_Some (over_dims step order byDim).1 <->
  exists dim dc, dim ∈ order /\ byDim !! dim = Some dc /\ (step dim dc).1 = false.
Proof.
  induction order as [|d order IH]; intros byDim Hn; cbn [over_dims].
  { split; [by intros [? [=]]|]. intros (? & ? & []%elem_of_nil & _). }
  apply NoDup_cons in Hn as [Hd Hn].
  destruct (byDim !! d) as [dc|] eqn:E.
  - destruct (step d dc) as [ok dc'] eqn:Es. destruct ok.
    + rewrite IH by done. split.
      * intros (x & dcx & Hx & Hl & Hs). rewrite lookup_insert_ne in Hl by (intros ->; done).
        exists x, dcx. split; [by right|done].
      * intros (x & dcx & [->|Hx]%elem_of_cons & Hl & Hs); [rewrite E in Hl; simplify_eq; by rewrite Es in Hs|].
        exists x, dcx. rewrite lookup_insert_ne by (intros ->; done). done.
    + split; [|by eexists]. intros _. exists d, dc. rewrite Es. split; [by left|done].
  - rewrite IH by done. split.
    + intros (x & dcx & Hx & H). exists x, dcx. split; [by right|done].
    + intros (x & dcx & [->|Hx]%elem_of_cons & Hl & Hs); [congruence|]. by exists x, dcx.
Qed.

Lemma over_direction_order step o1 o2 dir g :
  NoDup o1 -> Permutation o1 o2 ->
  is_Some (over_direction step o1 dir g).1 <-> is_Some (over_direction step o2 dir g).1.
Proof.
  intros Hn HP. assert (NoDup o2) as Hn2 by (by rewrite <- HP).
  destruct g as [g|]; [|done]. unfold over_direction. destruct (g !! dir) as [byDim|]; [|done].
  pose proof (over_dims_answer step o1 byDim Hn) as H1.
  pose proof (over_dims_answer step o2 byDim Hn2) as H2.
  destruct (over_dims step o1 byDim), (over_dims step o2 byDim). simpl in *. rewrite H1, H2.
  split; intros (x & dc & Hx & H); exists x, dc; (split; [|done]).
  - by rewrite <- HP.
  - by rewrite HP.
Qed.

(** Whether a message is refused does not depend on the order in which
    the dimensions happen to be visited. *)
Theorem MsgAllowed_order o1 o2 dir v rcpts now g :
  NoDup o1 -> Permutation o1 o2 ->
  is_Some (MsgAllowed o1 dir v rcpts now g).1 <-> is_Some (MsgAllowed o2 dir v rcpts now g).1.
Proof. apply over_direction_order. Qed.

Definition example_governor : option Governor :=
  NewGovernor [mkGovRule ByRecipientDomain [] [] hour 1 0;
               mkGovRule ByRecipientDomain #"gmail.com" [] hour 5 0;
               mkGovRule ByIP [] DirInbound hour 3 0].
Definition example_values : Values := mkValues #"192.0.2.1" #"a@b.c" #"b.c" [] [].

(** One message to three recipients of a domain takes one of its tokens. *)
Example governor_counts_messages :
  let rcpts := [ (#"a@x.org", #"x.org"); (#"b@x.org", #"x.org")] in
  let order := [ByIP; ByRecipientDomain] in
  let '(d1, g1) := MsgAllowed order DirInbound example_values rcpts 0 example_governor in
  let '(d2, g2) := MsgAllowed order DirInbound example_values rcpts 1 g1 in
  d1 = None /\ d2 = Some ByRecipientDomain.
Proof. by vm_compute. Qed.

Example MsgAllowed_order_witness :
  is_Some (MsgAllowed [ByIP; ByRecipientDomain] DirInbound example_values [] 0 example_governor).1 <->
  is_Some (MsgAllowed [ByRecipientDomain; ByIP] DirInbound example_values [] 0 example_governor).1.
Proof.
  apply (MsgAllowed_order [ByIP; ByRecipientDomain] [ByRecipientDomain; ByIP]).
  - by apply (bool_decide_unpack _); vm_compute.
  - apply perm_swap.
Defined.
