(* ===== verification/Base64.v ===== *)
(** * Base64 (encoding/base64), as far as the server uses it

    Decoding of the standard alphabet with padding ([StdEncoding], SASL) and
    without ([RawStdEncoding], password hashes).  Carriage returns and line
    feeds in the input are skipped; trailing bits are not checked. *)

From S2P Require Import Prelude GoStrings.

Definition b64_value (c : ascii) : option N :=
  let n := N_of_ascii c in
  if is_upper c then Some (n - 65)%N
  else if is_lower c then Some (n - 71)%N
  else if is_digit c then Some (n + 4)%N
  else if Ascii.eqb c "+" then Some 62%N
  else if Ascii.eqb c "/" then Some 63%N
  else None.

Definition b64_char (n : N) : ascii :=
  if (n <? 26)%N then ascii_of_N (n + 65)
  else if (n <? 52)%N then ascii_of_N (n + 71)
  else if (n <? 62)%N then ascii_of_N (n - 4)
  else if (n =? 62)%N then "+"%char else "/"%char.

Definition octet (n : N) : ascii := ascii_of_N (n mod 256).

(** The bytes of a quantum of two, three or four digits. *)
Definition quantum2 (a b : N) : str := [octet (a * 4 + b / 16)].
Definition quantum3 (a b c : N) : str := quantum2 a b ++ [octet (b * 16 + c / 4)].
Definition quantum4 (a b c d : N) : str := quantum3 a b c ++ [octet (c * 64 + d)].

Fixpoint b64_digits (s : str) : option (list N) :=
  match s with
  | [] => Some []
  | c :: r =>
      match b64_value c, b64_digits r with
      | Some n, Some l => Some (n :: l)
      | _, _ => None
      end
  end.

Fixpoint b64_bytes (l : list N) : option str :=
  match l with
  | [] => Some []
  | [_] => None
  | [a; b] => Some (quantum2 a b)
  | [a; b; c] => Some (quantum3 a b c)
  | a :: b :: c :: d :: r => (fun t => quantum4 a b c d ++ t) <$> b64_bytes r
  end.

Definition skip_newlines (s : str) : str :=
  List.filter (fun c => negb (Ascii.eqb c CR || Ascii.eqb c LF)) s.

(** [RawStdEncoding.DecodeString]. *)
Definition decode_raw (s : str) : option str :=
  match b64_digits (skip_newlines s) with Some l => b64_bytes l | None => None end.

(** [StdEncoding.DecodeString]: the padding completes the last quantum. *)
Definition decode_std (s : str) : option str :=
  let s := skip_newlines s in
  if Nat.eqb (length s mod 4) 0 then
    let body := if has_suffix #"==" s then take (length s - 2) s
                else if has_suffix #"=" s then take (length s - 1) s else s in
    match b64_digits body with Some l => b64_bytes l | None => None end
  else None.

(** [EncodeToString]. *)
Fixpoint encode_fuel (fuel : nat) (pad : bool) (s : str) : str :=
  match fuel with
  | 0%nat => []
  | S f =>
      let v := N_of_ascii in
      match s with
      | [] => []
      | [a] => [b64_char (v a / 4); b64_char (v a mod 4 * 16)] ++ (if pad then #"==" else [])
      | [a; b] => [b64_char (v a / 4); b64_char (v a mod 4 * 16 + v b / 16); b64_char (v b mod 16 * 4)]
                  ++ (if pad then #"=" else [])
      | a :: b :: c :: r =>
          [b64_char (v a / 4); b64_char (v a mod 4 * 16 + v b / 16);
           b64_char (v b mod 16 * 4 + v c / 64); b64_char (v c mod 64)] ++ encode_fuel f pad r
      end
  end.
Definition encode_std (s : str) : str := encode_fuel (S (length s)) true s.
Definition encode_raw (s : str) : str := encode_fuel (S (length s)) false s.

Example b64_examples :
  encode_std #"Username:" = #"VXNlcm5hbWU6" /\ decode_std #"VXNlcm5hbWU6" = Some #"Username:" /\
  encode_std #"Password:" = #"UGFzc3dvcmQ6" /\ decode_std #"YQ==" = Some #"a" /\
  decode_std #"YQ" = None /\ decode_raw #"YQ" = Some #"a" /\ decode_std #"Y===" = None.
Proof. by vm_compute. Qed.

(** ** Round trip *)

Lemma all_below (P : N -> bool) m : forallb (fun k => P (N.of_nat k)) (seq 0 m) = true -> forall n, (n < N.of_nat m)%N -> P n = true.
Proof.
  intros H n Hn. rewrite forallb_forall in H. specialize (H (N.to_nat n)). rewrite N2Nat.id in H.
  apply H, in_seq. lia.
Qed.

Definition plain_char (n : N) : bool :=
  match b64_value (b64_char n) with Some m => (m =? n)%N | None => false end
  && negb (Ascii.eqb (b64_char n) CR || Ascii.eqb (b64_char n) LF) && negb (Ascii.eqb (b64_char n) "$").
Lemma plain_chars n : (n < 64)%N -> plain_char n = true.
Proof. apply (all_below plain_char 64). by vm_compute. Qed.
Lemma b64_value_char n : (n < 64)%N -> b64_value (b64_char n) = Some n.
Proof.
  intros Hn. pose proof (plain_chars n Hn) as H. unfold plain_char in H. destruct (b64_value _) as [m|]; [|done].
  apply andb_true_iff in H as [[H _]%andb_true_iff _]. apply N.eqb_eq in H. by subst.
Qed.
Lemma byte_bound c : (N_of_ascii c < 256)%N.
Proof. apply N_ascii_bounded. Qed.
Lemma octet_byte n c : (n mod 256)%N = N_of_ascii c -> octet n = c.
Proof. intros H. unfold octet. rewrite H. apply ascii_N_embedding. Qed.

(** The digits of an encoded string, as numbers. *)
Fixpoint sextets (fuel : nat) (s : str) : list N :=
  match fuel with
  | 0%nat => []
  | S f =>
      let v := N_of_ascii in
      match s with
      | [] => []
      | [a] => [v a / 4; v a mod 4 * 16]%N
      | [a; b] => [v a / 4; v a mod 4 * 16 + v b / 16; v b mod 16 * 4]%N
      | a :: b :: c :: r =>
          ([v a / 4; v a mod 4 * 16 + v b / 16; v b mod 16 * 4 + v c / 64; v c mod 64] ++ sextets f r)%N
      end
  end.

Ltac bytes := repeat match goal with c : ascii |- _ =>
  lazymatch goal with _ : (N_of_ascii c < 256)%N |- _ => fail | _ => pose proof (byte_bound c) end end.
Ltac sixbits := first [apply N.Div0.div_lt_upper_bound; lia | zify; Z.to_euclidean_division_equations; lia].

Lemma sextets_small fuel : forall s, Forall (fun n => (n < 64)%N) (sextets fuel s).
Proof.
  induction fuel as [|f IH]; intros s; [constructor|]. destruct s as [|a [|b [|c r]]]; cbn [sextets app]; [constructor|..]; bytes;
    rewrite ?Forall_cons, ?Forall_nil; split_and!; try done; try apply IH; sixbits.
Qed.
Lemma encode_sextets fuel : forall s, encode_fuel fuel false s = map b64_char (sextets fuel s).
Proof.
  induction fuel as [|f IH]; intros s; [done|]. destruct s as [|a [|b [|c r]]]; [done..|].
  cbn [encode_fuel sextets app map]. by rewrite IH.
Qed.

Lemma digits_chars l : Forall (fun n => (n < 64)%N) l -> b64_digits (map b64_char l) = Some l.
Proof. induction 1 as [|n l Hn _ IH]; [done|]. cbn [map b64_digits]. by rewrite b64_value_char, IH. Qed.
Lemma newlines_chars l : Forall (fun n => (n < 64)%N) l -> skip_newlines (map b64_char l) = map b64_char l.
Proof.
  unfold skip_newlines. induction 1 as [|n l Hn _ IH]; [done|]. cbn [map List.filter].
  pose proof (plain_chars n Hn) as H. unfold plain_char in H. apply andb_true_iff in H as [[_ H]%andb_true_iff _].
  by rewrite H, IH.
Qed.
Lemma dollar_chars l : Forall (fun n => (n < 64)%N) l -> ("$"%char : ascii) ∉ map b64_char l.
Proof.
  induction 1 as [|n l Hn _ IH]; cbn [map]; [set_solver|]. apply not_elem_of_cons. split; [|done].
  pose proof (plain_chars n Hn) as H. unfold plain_char in H. apply andb_true_iff in H as [_ H].
  intros E. by rewrite <- E in H.
Qed.

Lemma bytes_sextets fuel : forall s, (length s < fuel)%nat -> b64_bytes (sextets fuel s) = Some s.
Proof.
  induction fuel as [|f IH]; intros s Hs; [lia|]. destruct s as [|a [|b [|c r]]]; cbn [sextets app]; bytes.
  - done.
  - cbn [b64_bytes]. unfold quantum2. do 2 f_equal. apply octet_byte. zify; Z.to_euclidean_division_equations; lia.
  - cbn [b64_bytes]. unfold quantum3, quantum2. cbn [app]. do 2 f_equal; [|f_equal]; apply octet_byte; zify; Z.to_euclidean_division_equations; lia.
  - change (b64_bytes _) with ((fun t => quantum4 (N_of_ascii a / 4) (N_of_ascii a mod 4 * 16 + N_of_ascii b / 16)
      (N_of_ascii b mod 16 * 4 + N_of_ascii c / 64) (N_of_ascii c mod 64) ++ t) <$> b64_bytes (sextets f r))%N.
    rewrite IH by (cbn in Hs; lia). cbn [fmap option_fmap option_map]. unfold quantum4, quantum3, quantum2. cbn [app].
    do 2 f_equal; [|f_equal; [|f_equal]]; apply octet_byte; zify; Z.to_euclidean_division_equations; lia.
Qed.

(** What is encoded without padding is decoded, whatever the bytes. *)
Lemma decode_encode_raw s : decode_raw (encode_raw s) = Some s.
Proof.
  unfold decode_raw, encode_raw. rewrite encode_sextets. pose proof (sextets_small (S (length s)) s) as H.
  rewrite newlines_chars, digits_chars by done. apply bytes_sextets. lia.
Qed.
Lemma dollar_encode_raw s : ("$"%char : ascii) ∉ encode_raw s.
Proof. unfold encode_raw. rewrite encode_sextets. apply dollar_chars, sextets_small. Qed.
