(* ===== verification/Auth.v ===== *)
(** * Authentication (internal/auth)

    The guard against brute force, the dispatch on password hash formats and
    the authenticator.  Argon2 and bcrypt are third-party code and parameters
    of the model; times are nanoseconds. *)

From S2P Require Import Prelude GoStrings Base64.

(** ** The guard (guard.go) *)

Record guardEntry := mkEntry { geFails : Z; geLockedUntil : Z; geLast : Z }.

Record Guard := mkGuard {
  gMaxFailures : Z;
  gLockout : Z;
  gEntries : gmap str guardEntry }.

Definition NewGuard (maxFailures lockout : Z) : Guard := mkGuard maxFailures lockout ∅.

(** The zero [time.Time], and the saturating [time.Time.Sub]. *)
Definition zero_time : Z := - 62135596800 * 10 ^ 9.
Definition time_sub (a b : Z) : Z := Z.max (- 2 ^ 63) (Z.min (2 ^ 63 - 1) (a - b)).

Definition Blocked (g : Guard) (key : str) (now : Z) : bool :=
  match gEntries g !! key with
  | Some e => now <? geLockedUntil e
  | None => false
  end.

Definition stale (g : Guard) (now : Z) (e : guardEntry) : bool :=
  (geLockedUntil e <? now) && (2 * gLockout g <? time_sub now (geLast e)).

Definition prune (g : Guard) (now : Z) : gmap str guardEntry :=
  filter (fun ke => stale g now ke.2 = false) (gEntries g).

Definition maxEntries : nat := Z.to_nat 65536.
Definition ms : Z := 10 ^ 6.

(** One more failure of an entry. *)
Definition bump (g : Guard) (e : guardEntry) (now : Z) : guardEntry :=
  let fails := (if 2 * gLockout g <? time_sub now (geLast e) then 0 else geFails e) + 1 in
  mkEntry fails (if gMaxFailures g <=? fails then now + gLockout g else geLockedUntil e) now.

Definition delay (fails : Z) : Z :=
  let shift := fails - 1 in
  let shift := if 4 <? shift then 4 else shift in
  Z.shiftl (250 * ms) shift.

Definition Fail (g : Guard) (key : str) (now : Z) : Z * Guard :=
  let '(e, entries) :=
    match gEntries g !! key with
    | Some e => (e, gEntries g)
    | None => (mkEntry 0 zero_time zero_time,
               if Nat.leb maxEntries (size (gEntries g)) then prune g now else gEntries g)
    end in
  let e' := bump g e now in
  (delay (geFails e'), mkGuard (gMaxFailures g) (gLockout g) (<[key := e']> entries)).

Definition Success (g : Guard) (key : str) : Guard :=
  mkGuard (gMaxFailures g) (gLockout g) (delete key (gEntries g)).

(** ** Passwords (password.go) *)

(** [fmt.Sscanf] of [%d]: leading blanks, then digits, then what follows. *)
Fixpoint span_digits (s : str) : str * str :=
  match s with
  | c :: r => if is_digit c then let '(d, t) := span_digits r in (c :: d, t) else ([], s)
  | [] => ([], [])
  end.
Definition skip_blanks : str -> str :=
  drop_while (fun c => Ascii.eqb c SP || Ascii.eqb c TAB).
(** A literal of the format must be matched. *)
Definition scan_lit (pat s : str) : option str :=
  if has_prefix pat s then Some (drop (length pat) s) else None.
Definition scan_uint (bits : Z) (s : str) : option (Z * str) :=
  let '(d, t) := span_digits (skip_blanks s) in
  match parse_uint bits d with Some n => Some (n, t) | None => None end.
Definition scan_int (s : str) : option (Z * str) :=
  let s := skip_blanks s in
  let '(sign, s') := match s with
    | "-"%char :: r => (#"-", r)
    | "+"%char :: r => ([], r)
    | _ => ([], s)
    end in
  let '(d, t) := span_digits s' in
  match d with
  | [] => None
  | _ => match parse_int (sign ++ d) with Some n => Some (n, t) | None => None end
  end.

Section Passwords.
(** [argon2.IDKey(password, salt, time, memory, threads, keyLen)]. *)
Context (argon2 : str -> str -> Z -> Z -> Z -> nat -> str).
(** [bcrypt.CompareHashAndPassword] succeeds. *)
Context (bcrypt : str -> str -> bool).

Definition argon2_version : Z := 19.

Definition parse_params (s : str) : option (Z * Z * Z) :=
  match scan_lit #"m=" s with None => None | Some s =>
  match scan_uint 32 s with None => None | Some (m, s) =>
  match scan_lit #",t=" s with None => None | Some s =>
  match scan_uint 32 s with None => None | Some (t, s) =>
  match scan_lit #",p=" s with None => None | Some s =>
  match scan_uint 8 s with None => None | Some (p, _) => Some (m, t, p) end end end end end end.

Definition parse_version (s : str) : option Z :=
  match scan_lit #"v=" s with None => None | Some s => fst <$> scan_int s end.

Definition verifyArgon2id (phc password : str) : bool :=
  match split "$" phc with
  | [_; alg; ver; params; salt64; key64] =>
      (alg =s #"argon2id") &&
      match parse_version ver, parse_params params, decode_raw salt64, decode_raw key64 with
      | Some v, Some (m, t, p), Some salt, Some want =>
          (v =? argon2_version) &&
          negb ((m =? 0) || (t =? 0) || (p =? 0) || (1024 * 1024 <? m)) &&
          match want with [] => false | _ => argon2 password salt t m p (length want) =s want end
      | _, _, _, _ => false
      end
  | _ => false
  end.

Definition VerifyPassword (hash password : str) : bool :=
  if has_prefix #"$argon2id$" hash then verifyArgon2id hash password
  else if has_prefix #"$2a$" hash || has_prefix #"$2b$" hash || has_prefix #"$2y$" hash
  then bcrypt hash password
  else false.

Definition KnownHashFormat (hash : str) : bool :=
  has_prefix #"$argon2id$" hash || has_prefix #"$2a$" hash || has_prefix #"$2b$" hash
  || has_prefix #"$2y$" hash.

(** ** The authenticator (auth.go) *)

Inductive auth_error := ErrInvalid | ErrLocked.

Definition dummyHash : str :=
  #"$argon2id$v=19$m=65536,t=3,p=4$AAAAAAAAAAAAAAAAAAAAAA$q1YkYWjm9jT8sMuqXt8zGJfhY8QhpUKGYs1hK2fBTnM".

Definition userKey (email : str) : str := #"u:" ++ email.
Definition ipKey (ip : str) : str := #"ip:" ++ ip.
Definition fold_email (email : str) : str := to_lower (trim_space email).

(** [Verify], with its outcome, the delay slept before it returns, and the
    guard, when no step of another call falls in between ([Verify_alone]
    below, where calls interleave).  The clock is read at [t0] for the check
    and, after the password has been hashed, at [t1] for the failure. *)
Definition Verify (Lookup : str -> option str) (g : Guard) (email password ip : str) (t0 t1 : Z)
    : option auth_error * Z * Guard :=
  let email := fold_email email in
  if Blocked g (userKey email) t0 || Blocked g (ipKey ip) t0 then (Some ErrLocked, 0, g)
  else
    let '(hash, ok) := match Lookup email with Some h => (h, true) | None => (dummyHash, false) end in
    if negb (VerifyPassword hash password) || negb ok then
      let '(d1, g1) := Fail g (userKey email) t1 in
      let '(d2, g2) := Fail g1 (ipKey ip) t1 in
      (Some ErrInvalid, if d1 <? d2 then d2 else d1, g2)
    else (None, 0, Success (Success g (userKey email)) (ipKey ip)).
End Passwords.

(** ** Lemmas *)

(** A guard locks at one failure or more, for a time that does not overflow
    when doubled, and has counted no negative number of failures. *)
Definition guard_ok (g : Guard) : Prop :=
  1 <= gMaxFailures g /\ 0 <= gLockout g < 2 ^ 62 /\
  map_Forall (fun _ e => 0 <= geFails e) (gEntries g).

Lemma prune_lookup g now k e :
  gEntries g !! k = Some e -> stale g now e = false -> prune g now !! k = Some e.
Proof. intros H Hs. by apply map_lookup_filter_Some. Qed.

(** An entry that is too recent to be stale survives the failures of others. *)
Lemma Fail_other g k key now e :
  gEntries g !! k = Some e -> k <> key -> stale g now e = false ->
  gEntries (Fail g key now).2 !! k = Some e.
Proof.
  intros H Hne Hs. unfold Fail. destruct (gEntries g !! key) eqn:E; cbn [snd gEntries].
  - by rewrite lookup_insert_ne.
  - rewrite lookup_insert_ne by done. destruct (Nat.leb _ _); [by apply prune_lookup|done].
Qed.

Lemma Fail_same (g : Guard) (key : str) (now : Z) :
  exists e, gEntries (Fail g key now).2 !! key = Some e /\
    e = bump g (default (mkEntry 0 zero_time zero_time) (gEntries g !! key)) now /\
    (Fail g key now).1 = delay (geFails e).
Proof.
  unfold Fail. destruct (gEntries g !! key) eqn:E; cbn [snd fst gEntries default];
    eexists; by rewrite lookup_insert_eq.
Qed.

Lemma Fail_params (g : Guard) (key : str) (now : Z) :
  gMaxFailures (Fail g key now).2 = gMaxFailures g /\ gLockout (Fail g key now).2 = gLockout g.
Proof. unfold Fail. by destruct (gEntries g !! key). Qed.

Lemma delay_bounds fails : 1 <= fails -> 250 * ms <= delay fails <= 4000 * ms.
Proof.
  intros H. unfold delay, ms. rewrite Z.shiftl_mul_pow2 by (destruct (Z.ltb_spec 4 (fails - 1)); lia).
  assert (exists k, (if 4 <? fails - 1 then 4 else fails - 1) = k /\ 0 <= k <= 4) as (k & -> & Hk).
  { destruct (Z.ltb_spec 4 (fails - 1)); eexists; (split; [done|lia]). }
  assert (2 ^ 0 <= 2 ^ k <= 2 ^ 4) by (split; apply Z.pow_le_mono_r; lia). lia.
Qed.

(** What the guard knows of a key that has failed [n] times since [t0]. *)
Definition failed (g : Guard) (key : str) (n t0 now : Z) : Prop :=
  n = 0 \/ exists e, gEntries g !! key = Some e /\ n <= geFails e /\ t0 <= geLast e <= now /\
    (gMaxFailures g <= n -> t0 + gLockout g <= geLockedUntil e).

Lemma time_sub_le a b d : 0 <= d < 2 ^ 63 -> a - b <= d -> time_sub a b <= d.
Proof. unfold time_sub. lia. Qed.

Lemma failed_fresh g t0 now e :
  guard_ok g -> t0 <= geLast e <= now -> now < t0 + gLockout g ->
  (2 * gLockout g <? time_sub now (geLast e)) = false.
Proof.
  intros (_ & Hs & _) Hl Hn. apply Z.ltb_ge. apply time_sub_le; lia.
Qed.

Lemma bump_fails g e now : 0 <= geFails e -> 1 <= geFails (bump g e now).
Proof. intros H. unfold bump. cbn [geFails]. destruct (_ <? _); lia. Qed.

Lemma guard_ok_Fail g key now : guard_ok g -> guard_ok (Fail g key now).2.
Proof.
  intros (Hm & Hl & Hf). destruct (Fail_params g key now) as [Em El].
  unfold guard_ok. rewrite Em, El. split_and!; [done|lia|lia|]. unfold Fail.
  assert (forall e (m : gmap str guardEntry), 0 <= geFails e -> map_Forall (fun _ e => 0 <= geFails e) m ->
    map_Forall (fun _ e => 0 <= geFails e) (<[key := bump g e now]> m)) as Hins.
  { intros e m He Hm'. apply map_Forall_insert_2; [|done]. pose proof (bump_fails g e now He). lia. }
  destruct (gEntries g !! key) as [e|] eqn:E; cbn [snd gEntries].
  - apply Hins; [|done]. by apply Hf in E.
  - apply Hins; [done|]. destruct (Nat.leb _ _); [|done].
    intros k e Hk. apply map_lookup_filter_Some in Hk as [Hk _]. by apply Hf in Hk.
Qed.

Lemma Fail_delay g key now : guard_ok g -> 250 * ms <= (Fail g key now).1 <= 4000 * ms.
Proof.
  intros (_ & _ & Hf). destruct (Fail_same g key now) as (e & _ & -> & ->).
  apply delay_bounds, bump_fails. destruct (gEntries g !! key) eqn:E; [by apply Hf in E|done].
Qed.

Lemma guard_ok_Success g key : guard_ok g -> guard_ok (Success g key).
Proof. intros (Hm & Hl & Hf). split_and!; [done|apply Hl|apply Hl|by apply map_Forall_delete]. Qed.

Lemma failed_Fail g key k n t0 now now' :
  guard_ok g -> failed g key n t0 now -> 0 <= n -> t0 <= now -> now <= now' < t0 + gLockout g ->
  failed (Fail g k now').2 key (if k =s key then n + 1 else n) t0 now'.
Proof.
  intros Hok Hf Hn H0 Hnow. destruct (Fail_params g k now') as [Em El].
  destruct (str_eqb_spec k key) as [->|Hne].
  - right. destruct (Fail_same g key now') as (e' & He' & -> & _). rewrite He', Em, El.
    eexists. split; [done|].
    assert (n + 1 <= geFails (bump g (default (mkEntry 0 zero_time zero_time) (gEntries g !! key)) now'))
      as Hge.
    { destruct Hf as [->|(e & He & Hfails & Hlast & _)].
      - apply bump_fails. destruct (gEntries g !! key) eqn:E; [|done]. by apply Hok in E.
      - rewrite He. unfold bump. cbn [default from_option id geFails]. rewrite (failed_fresh g t0) by (done || lia). lia. }
    unfold bump in *. cbn [geFails geLast geLockedUntil] in *.
    split_and!; [lia|lia|lia|]. intros. rewrite (proj2 (Z.leb_le _ _)) by lia. lia.
  - destruct Hf as [->|(e & He & Hfails & Hlast & Hlock)]; [by left|]. right. exists e. rewrite Em, El.
    split; [|split_and!; [done|lia|lia|done]]. apply Fail_other; [done|congruence|].
    unfold stale. apply andb_false_iff. right. apply (failed_fresh g t0); [done|lia|lia].
Qed.

Lemma failed_Success g key k n t0 now : failed g key n t0 now -> k <> key -> failed (Success g k) key n t0 now.
Proof.
  intros [->|(e & He & H)] Hne; [by left|]. right. exists e. split; [|done]. simpl.
  by rewrite lookup_delete_ne.
Qed.

Lemma failed_later g key n t0 now now' : failed g key n t0 now -> now <= now' -> failed g key n t0 now'.
Proof. intros [->|(e & He & ? & ? & ?)] Hn; [by left|]. right. exists e. split_and!; [done|done|lia|lia|done]. Qed.

Lemma user_ip_key email ip : userKey email <> ipKey ip.
Proof. done. Qed.

(** ** Calls under way together

    The guard's mutex is held for one method call at a time, and nothing is
    held while a password is hashed: the sessions of the daemon are inside
    [Verify] together.  A call is a thread whose steps are the critical
    sections of auth.go:55-72 and the hashing between them; each reads the
    clock for itself. *)

Record call := mkCall { cEmail : str; cPassword : str; cIP : str }.

(** Where a call is: about to ask the guard for the account, for the address;
    about to look the password up and hash it; about to record the failure,
    or the success, for the account, for the address; asleep; back. *)
Inductive vpc :=
| AtUser | AtIP | AtHash
| AtFailUser | AtFailIP (d1 : Z) | AtSleep (d : Z)
| AtOkUser | AtOkIP
| Back (r : option auth_error).

Definition cKey (c : call) : str := userKey (fold_email (cEmail c)).

Record pool := mkPool { pGuard : Guard; pCalls : list (call * vpc) }.

(** A session calls [Verify]; the [i]-th call takes its next step. *)
Inductive vevent := Begin (c : call) | Go (i : nat) (now : Z).

Section Calls.
Context (argon2 : str -> str -> Z -> Z -> Z -> nat -> str) (bcrypt : str -> str -> bool).
Context (Lookup : str -> option str).

(** The verdict on the password, with the dummy hash for an unknown account. *)
Definition right_password (email password : str) : bool :=
  let '(hash, ok) := match Lookup email with Some h => (h, true) | None => (dummyHash, false) end in
  negb (negb (VerifyPassword argon2 bcrypt hash password) || negb ok).
Definition right (c : call) : bool := right_password (fold_email (cEmail c)) (cPassword c).

Definition vstep (c : call) (pc : vpc) (g : Guard) (now : Z) : vpc * Guard :=
  match pc with
  | AtUser => (if Blocked g (cKey c) now then Back (Some ErrLocked) else AtIP, g)
  | AtIP => (if Blocked g (ipKey (cIP c)) now then Back (Some ErrLocked) else AtHash, g)
  | AtHash => (if right c then AtOkUser else AtFailUser, g)
  | AtFailUser => let '(d1, g') := Fail g (cKey c) now in (AtFailIP d1, g')
  | AtFailIP d1 =>
      let '(d2, g') := Fail g (ipKey (cIP c)) now in (AtSleep (if d1 <? d2 then d2 else d1), g')
  | AtSleep _ => (Back (Some ErrInvalid), g)
  | AtOkUser => (AtOkIP, Success g (cKey c))
  | AtOkIP => (Back None, Success g (ipKey (cIP c)))
  | Back r => (Back r, g)
  end.

Definition pool_step (p : pool) (e : vevent) : pool :=
  match e with
  | Begin c => mkPool (pGuard p) (pCalls p ++ [(c, AtUser)])
  | Go i now =>
      match pCalls p !! i with
      | Some (c, pc) =>
          let '(pc', g') := vstep c pc (pGuard p) now in mkPool g' (<[i := (c, pc')]> (pCalls p))
      | None => p
      end
  end.
Definition pool_run (p : pool) (l : list vevent) : pool := foldl pool_step p l.

(** One call with nothing in between: the steps up to the sleep, or to the
    return. *)
Fixpoint alone (c : call) (pc : vpc) (g : Guard) (ts : list Z) : vpc * Guard :=
  match ts with
  | [] => (pc, g)
  | t :: ts => let '(pc', g') := vstep c pc g t in alone c pc' g' ts
  end.

(** [Verify] is such a call. *)
Lemma Verify_alone g email password ip t0 t1 :
  alone (mkCall email password ip) AtUser g [t0; t0; t0; t1; t1; t1] =
  let '(r, _, g') := Verify argon2 bcrypt Lookup g email password ip t0 t1 in (Back r, g').
Proof.
  unfold Verify, alone, vstep, cKey, right, right_password. cbn [cEmail cPassword cIP].
  set (u := userKey (fold_email email)).
  destruct (Blocked g u t0); [done|]. destruct (Blocked g (ipKey ip) t0); [done|]. cbn [orb].
  destruct (Lookup (fold_email email)) as [h|]; destruct (VerifyPassword _ _ _ password); cbn [negb orb];
    try done; destruct (Fail g u t1) as [d1 g1]; by destruct (Fail g1 (ipKey ip) t1).
Qed.

(** ** Brute force *)

Section Guesses.
Context (email : str).

Definition for_account (c : call) : bool := fold_email (cEmail c) =s email.

(** A call for the account that the guard has let pass and whose failure it
    has not recorded: it will check a password, or has. *)
Definition inside (x : call * vpc) : bool :=
  for_account x.1 && match x.2 with AtIP | AtHash | AtFailUser => true | _ => false end.
Definition checked (x : call * vpc) : bool :=
  for_account x.1 && match x.2 with AtFailUser => true | _ => false end.

(** A call that is not for the account, or one with a wrong password. *)
Definition a_guess (c : call) : bool := negb (for_account c && right c).
Definition guessing (x : call * vpc) : bool :=
  a_guess x.1 && negb (for_account x.1 && match x.2 with AtOkUser | AtOkIP => true | _ => false end).
Definition event_ok (e : vevent) : bool := match e with Begin c => a_guess c | Go _ _ => true end.

Definition readings (l : list vevent) : list Z :=
  omap (fun e => match e with Go _ now => Some now | Begin _ => None end) l.

(** The passwords checked for the account. *)
Definition is_check (p : pool) (e : vevent) : Z :=
  match e with
  | Go i _ => match pCalls p !! i with
              | Some (c, AtHash) => if for_account c then 1 else 0
              | _ => 0
              end
  | Begin _ => 0
  end.
Fixpoint checks (p : pool) (l : list vevent) : Z :=
  match l with [] => 0 | e :: r => is_check p e + checks (pool_step p e) r end.

Definition count (f : call * vpc -> bool) (p : pool) : Z := Z.of_nat (length (List.filter f (pCalls p))).
Definition crowd (p : pool) : Z := count inside p.

(** At no moment more than [k] calls are inside. *)
Fixpoint at_most (k : Z) (p : pool) (l : list vevent) : Prop :=
  crowd p <= k /\ match l with [] => True | e :: r => at_most k (pool_step p e) r end.

Lemma count_insert (f : call * vpc -> bool) l (i : nat) x y :
  l !! i = Some x ->
  Z.of_nat (length (List.filter f (<[i := y]> l))) + Z.b2z (f x)
  = Z.of_nat (length (List.filter f l)) + Z.b2z (f y).
Proof.
  revert i. induction l as [|z l IH]; intros [|i] E; try done.
  - injection E as ->. change (<[0%nat := y]> (x :: l)) with (y :: l). cbn [List.filter].
    destruct (f x), (f y); cbn [length Z.b2z]; lia.
  - specialize (IH i E). change (<[S i := y]> (z :: l)) with (z :: <[i := y]> l). cbn [List.filter].
    destruct (f z); cbn [length]; lia.
Qed.

Lemma for_account_key c : for_account c = (cKey c =s userKey email).
Proof. done. Qed.

(** What the guard has recorded of the account says that it is locked. *)
Lemma failed_Blocked g n t0 now t :
  guard_ok g -> failed g (userKey email) n t0 now -> t < t0 + gLockout g ->
  Blocked g (userKey email) t = false -> n <= gMaxFailures g - 1.
Proof.
  intros (Hm & _) [->|(e & He & _ & _ & Hlock)] Ht HB; [lia|].
  unfold Blocked in HB. rewrite He in HB. apply Z.ltb_ge in HB. lia.
Qed.

Lemma vstep_params c pc g now :
  gMaxFailures (vstep c pc g now).2 = gMaxFailures g /\ gLockout (vstep c pc g now).2 = gLockout g.
Proof.
  destruct pc; try done; cbn [vstep].
  - pose proof (Fail_params g (cKey c) now). by destruct (Fail g (cKey c) now).
  - pose proof (Fail_params g (ipKey (cIP c)) now). by destruct (Fail g (ipKey (cIP c)) now).
Qed.

Lemma vstep_guard_ok c pc g now : guard_ok g -> guard_ok (vstep c pc g now).2.
Proof.
  intros Hg. destruct pc; try done; cbn [vstep].
  - pose proof (guard_ok_Fail g (cKey c) now Hg). by destruct (Fail g (cKey c) now).
  - pose proof (guard_ok_Fail g (ipKey (cIP c)) now Hg). by destruct (Fail g (ipKey (cIP c)) now).
  - by apply guard_ok_Success.
  - by apply guard_ok_Success.
Qed.

(** A guess stays one: only the right password leads to a success. *)
Lemma vstep_guessing c pc g now : guessing (c, pc) = true -> guessing (c, (vstep c pc g now).1) = true.
Proof.
  unfold guessing, a_guess. cbn [fst snd]. destruct (for_account c) eqn:EA; cbn [andb negb].
  2: done.
  destruct pc; cbn [vstep]; try by destruct (right c).
  - by destruct (Blocked g (cKey c) now), (right c).
  - by destruct (Blocked g (ipKey (cIP c)) now), (right c).
  - by destruct (Fail g (cKey c) now), (right c).
  - by destruct (Fail g (ipKey (cIP c)) now), (right c).
Qed.

Definition now_checks (x : call * vpc) : bool :=
  for_account x.1 && match x.2 with AtHash => true | _ => false end.

(** One step of a call, seen from the account: [n] failures are recorded of
    it; a check is recorded later, and nobody gets in once [n] has reached
    the maximum. *)
Lemma vstep_count c pc g now n t0 t :
  guard_ok g -> failed g (userKey email) n t0 now -> 0 <= n -> t0 <= now -> now <= t < t0 + gLockout g ->
  guessing (c, pc) = true ->
  exists n', failed (vstep c pc g t).2 (userKey email) n' t0 t /\ n <= n' /\
    Z.b2z (now_checks (c, pc)) + n + Z.b2z (checked (c, pc)) = n' + Z.b2z (checked (c, (vstep c pc g t).1)) /\
    (n' + Z.b2z (inside (c, (vstep c pc g t).1)) <= n + Z.b2z (inside (c, pc)) \/
     n' <= gMaxFailures g - 1).
Proof.
  intros Hg Hf Hn H0 Ht Hq.
  pose proof (failed_later g (userKey email) n t0 now t Hf ltac:(lia)) as Hf'.
  pose proof (failed_Fail g (userKey email) (cKey c) n t0 now t Hg Hf Hn H0 ltac:(lia)) as HU.
  pose proof (failed_Fail g (userKey email) (ipKey (cIP c)) n t0 now t Hg Hf Hn H0 ltac:(lia)) as HI.
  rewrite <- for_account_key in HU. rewrite (proj2 (str_eqb_neq (ipKey (cIP c)) (userKey email))) in HI by done.
  unfold now_checks, checked, inside. cbn [fst snd].
  destruct pc; cbn [vstep].
  - exists n. split; [done|]. split; [lia|]. cbn [snd fst].
    destruct (for_account c) eqn:EA; cbn [andb]; destruct (Blocked g (cKey c) t) eqn:EB; cbn [Z.b2z]; try lia.
    rewrite for_account_key in EA. apply str_eqb_eq in EA. rewrite EA in EB.
    pose proof (failed_Blocked g n t0 now t Hg Hf ltac:(lia) EB). lia.
  - exists n. split; [done|]. split; [lia|]. cbn [snd fst].
    destruct (for_account c), (Blocked g (ipKey (cIP c)) t); cbn [andb Z.b2z]; lia.
  - exists n. split; [done|]. split; [lia|]. cbn [snd fst].
    unfold guessing, a_guess in Hq. cbn [fst snd] in Hq.
    destruct (for_account c), (right c); cbn [andb Z.b2z negb] in *; lia || done.
  - destruct (Fail g (cKey c) t) as [d1 g1]. cbn [fst snd] in *.
    destruct (for_account c); cbn [andb Z.b2z]; eexists; (split; [exact HU|lia]).
  - destruct (Fail g (ipKey (cIP c)) t) as [d2 g2]. cbn [fst snd] in *.
    exists n. split; [done|]. destruct (for_account c); cbn [andb Z.b2z]; lia.
  - exists n. split; [done|]. destruct (for_account c); cbn [andb Z.b2z fst]; lia.
  - exists n. unfold guessing in Hq. cbn [fst snd] in Hq. destruct (for_account c) eqn:EA.
    { by rewrite andb_false_r in Hq. }
    split; [|cbn [andb Z.b2z fst]; lia]. apply failed_Success; [done|].
    rewrite for_account_key in EA. by apply str_eqb_neq.
  - exists n. split; [by apply failed_Success|]. destruct (for_account c); cbn [andb Z.b2z fst]; lia.
  - exists n. split; [done|]. destruct (for_account c); cbn [andb Z.b2z fst]; lia.
Qed.

(** What holds between the steps of a time shorter than the lockout. *)
Definition bounded (k n t0 now : Z) (p : pool) : Prop :=
  guard_ok (pGuard p) /\ failed (pGuard p) (userKey email) n t0 now /\ 0 <= n /\
  forallb guessing (pCalls p) = true /\ n + crowd p <= gMaxFailures (pGuard p) - 1 + k.

Lemma pool_step_bounded k n t0 now t i p :
  bounded k n t0 now p -> t0 <= now -> now <= t < t0 + gLockout (pGuard p) ->
  let p' := pool_step p (Go i t) in
  crowd p' <= k ->
  exists n', bounded k n' t0 t p' /\
    is_check p (Go i t) + n + count checked p = n' + count checked p' /\
    gMaxFailures (pGuard p') = gMaxFailures (pGuard p) /\ gLockout (pGuard p') = gLockout (pGuard p).
Proof.
  intros (Hg & Hf & Hn & Hq & Hc) H0 Ht. cbn [pool_step is_check].
  destruct (pCalls p !! i) as [[c pc]|] eqn:Ei.
  2: { intros _. exists n. split; [|split_and!; [lia|done|done]].
       unfold bounded. split_and!; try done. apply (failed_later _ _ _ _ now); [done|lia]. }
  assert (guessing (c, pc) = true) as Hx.
  { rewrite forallb_forall in Hq. apply Hq, list_elem_of_In, list_elem_of_lookup. by eexists. }
  pose proof (vstep_count c pc (pGuard p) now n t0 t Hg Hf Hn H0 Ht Hx) as (n' & Hf' & Hn' & Hchk & Hcr).
  pose proof (vstep_params c pc (pGuard p) t) as [Em El].
  pose proof (vstep_guard_ok c pc (pGuard p) t Hg) as Hg'.
  pose proof (vstep_guessing c pc (pGuard p) t Hx) as Hx'.
  destruct (vstep c pc (pGuard p) t) as [pc' g']. cbn [fst snd] in *. intros Hk.
  pose proof (count_insert inside _ i (c, pc) (c, pc') Ei) as Hin.
  pose proof (count_insert checked _ i (c, pc) (c, pc') Ei) as Hch.
  unfold crowd, count in *. cbn [pCalls pGuard] in *. exists n'. split.
  - split_and!; cbn [pCalls pGuard]; [done|done|lia| |unfold crowd, count; cbn [pCalls]; lia].
    rewrite forallb_forall in Hq |- *. intros y Hy. apply list_elem_of_In, list_elem_of_lookup in Hy as [j Hj].
    destruct (decide (i = j)) as [<-|Hne].
    + rewrite list_lookup_insert_eq in Hj by (by eapply lookup_lt_Some). by injection Hj as <-.
    + rewrite list_lookup_insert_ne in Hj by done. apply Hq, list_elem_of_In, list_elem_of_lookup. by eexists.
  - split_and!; [|done|done]. unfold now_checks in Hchk. cbn [fst snd] in Hchk.
    destruct pc, (for_account c); cbn [andb Z.b2z] in *; lia.
Qed.

Lemma pool_begin_bounded k n t0 now c p :
  bounded k n t0 now p -> a_guess c = true ->
  bounded k n t0 now (pool_step p (Begin c)) /\ count checked (pool_step p (Begin c)) = count checked p.
Proof.
  intros (Hg & Hf & Hn & Hq & Hc) Ha. unfold bounded, crowd, count in *. cbn [pool_step pCalls pGuard] in *.
  rewrite !List.filter_app, !length_app, forallb_app, Hq. cbn [List.filter forallb].
  assert (inside (c, AtUser) = false) as -> by apply andb_false_r.
  assert (checked (c, AtUser) = false) as -> by apply andb_false_r.
  assert (guessing (c, AtUser) = true) as ->.
  { unfold guessing. cbn [fst snd]. by rewrite Ha, andb_false_r. }
  cbn [length]. split_and!; done || lia.
Qed.

Lemma checks_bound k t0 t1 l : forall p n now,
  bounded k n t0 now p -> t0 <= now -> StronglySorted Z.le (now :: readings l) ->
  Forall (fun t => t <= t1) (readings l) -> t1 < t0 + gLockout (pGuard p) ->
  forallb event_ok l = true -> at_most k p l ->
  checks p l + n + count checked p <= gMaxFailures (pGuard p) - 1 + k.
Proof.
  induction l as [|e l IH]; intros p n now Hb H0 HS HF Ht Hev [Hk Hl].
  { destruct Hb as (_ & _ & _ & _ & Hc). cbn [checks]. unfold crowd in Hc.
    assert (count checked p <= count inside p); [|lia]. unfold count. apply Nat2Z.inj_le.
    induction (pCalls p) as [|x r IHr]; [done|]. cbn [List.filter].
    assert (checked x = true -> inside x = true).
    { unfold checked, inside. by destruct x as [? []], (for_account _). }
    destruct (checked x), (inside x); cbn [length]; lia. }
  cbn [forallb] in Hev. apply andb_true_iff in Hev as [He Hev]. cbn [checks].
  destruct e as [c|i t].
  - destruct (pool_begin_bounded k n t0 now c p Hb He) as [Hb' Ech].
    specialize (IH _ n now Hb' H0 HS HF Ht Hev Hl). cbn [is_check]. cbn [pool_step pGuard] in *. lia.
  - change (readings (Go i t :: l)) with (t :: readings l) in *.
    apply StronglySorted_inv in HS as [HS Hall]. pose proof (Forall_inv Hall) as Hnow. cbn beta in Hnow.
    apply Forall_cons in HF as [Hle HF].
    assert (crowd (pool_step p (Go i t)) <= k) as Hk' by (destruct l; apply Hl).
    destruct (pool_step_bounded k n t0 now t i p Hb H0 ltac:(lia) Hk') as (n' & Hb' & Echk & Em & El).
    specialize (IH _ n' t Hb' ltac:(lia) HS HF). rewrite El, Em in IH. specialize (IH Ht Hev Hl). lia.
Qed.

(** C24. While at most [k] calls at a time are past the guard's check with
    their failure not yet recorded, an account whose right password is not
    presented gets at most [maxFailures - 1 + k] passwords checked in any
    time shorter than the lockout, however the steps of all the calls under
    way interleave, whatever is tried for other accounts and from whatever
    addresses, and whatever the guard recorded before.  One call at a time
    makes that [maxFailures]. *)
Theorem Verify_bounds_guesses p l k t0 t1 :
  guard_ok (pGuard p) -> forallb guessing (pCalls p) = true -> forallb event_ok l = true ->
  StronglySorted Z.le (t0 :: readings l) -> Forall (fun t => t <= t1) (readings l) ->
  t1 < t0 + gLockout (pGuard p) -> at_most k p l ->
  checks p l <= gMaxFailures (pGuard p) - 1 + k.
Proof.
  intros Hg Hq Hev HS HF Ht Hk.
  assert (bounded k 0 t0 t0 p) as Hb.
  { destruct Hg as (Hm & Hg). assert (crowd p <= k) by (by destruct l; apply Hk).
    split_and!; try done; [by left|lia]. }
  pose proof (checks_bound k t0 t1 l p 0 t0 Hb (Z.le_refl _) HS HF Ht Hev Hk) as HB.
  unfold count in HB. lia.
Qed.
End Guesses.

(** A login succeeds only for an account that has a hash the password
    matches and that is not locked out, and then clears the failures of the
    account and of the address; a failure is answered after a delay of 250
    milliseconds to 4 seconds. *)
Theorem Verify_outcome g email password ip t0 t1 :
  guard_ok g ->
  let '(res, d, g') := Verify argon2 bcrypt Lookup g email password ip t0 t1 in
  match res with
  | None => exists hash, Lookup (fold_email email) = Some hash /\
              VerifyPassword argon2 bcrypt hash password = true /\ KnownHashFormat hash = true /\
              Blocked g (userKey (fold_email email)) t0 = false /\ Blocked g (ipKey ip) t0 = false /\
              gEntries g' = delete (ipKey ip) (delete (userKey (fold_email email)) (gEntries g))
  | Some ErrInvalid => 250 * ms <= d <= 4000 * ms
  | Some ErrLocked => g' = g /\ (Blocked g (userKey (fold_email email)) t0 || Blocked g (ipKey ip) t0 = true)
  end.
Proof.
  intros Hok. unfold Verify. set (u := fold_email email).
  destruct (Blocked g (userKey u) t0 || Blocked g (ipKey ip) t0) eqn:EB; [done|].
  apply orb_false_iff in EB as [EB1 EB2].
  pose proof (Fail_delay g (userKey u) t1 Hok) as Hd1.
  pose proof (guard_ok_Fail g (userKey u) t1 Hok) as Hok1.
  destruct (Fail g (userKey u) t1) as [d1 g1]. cbn [fst snd] in *.
  pose proof (Fail_delay g1 (ipKey ip) t1 Hok1) as Hd2.
  destruct (Fail g1 (ipKey ip) t1) as [d2 g2]. cbn [fst snd] in *.
  assert (250 * ms <= (if d1 <? d2 then d2 else d1) <= 4000 * ms) as Hd by (destruct (d1 <? d2); lia).
  destruct (Lookup u) as [hash|] eqn:EL; cbn [negb]; [rewrite orb_false_r|by rewrite orb_true_r].
  destruct (VerifyPassword argon2 bcrypt hash password) eqn:EV; cbn [negb]; [|done].
  exists hash. split_and!; try done. unfold VerifyPassword in EV. unfold KnownHashFormat.
  destruct (has_prefix #"$argon2id$" hash); [done|].
  cbn [orb]. by destruct (has_prefix #"$2a$" hash || has_prefix #"$2b$" hash || has_prefix #"$2y$" hash).
Qed.
End Calls.

(** ** Examples *)

(** A toy stand-in for bcrypt: the hash spells the password. *)
Definition toy_bcrypt (hash password : str) : bool := hash =s #"$2a$" ++ password.
Definition toy_lookup (email : str) : option str :=
  if email =s #"admin@example.com" then Some #"$2a$secret" else None.
Definition toy_argon2 (password salt : str) (t m p : Z) (n : nat) : str := [].
Definition guess (pw : string) : call := mkCall #"Admin@Example.com" (lit pw) #"192.0.2.9".
Definition empty_pool (g : Guard) : pool := mkPool g [].

(** The [i]-th call, on its own at a time. *)
Definition whole (i : nat) (t : Z) : list vevent :=
  [Go i t; Go i t; Go i t; Go i t; Go i t; Go i t].

(** The right password comes too late, and is good again after the lockout. *)
Example locked_out :
  snd <$> pCalls (pool_run toy_argon2 toy_bcrypt toy_lookup (empty_pool (NewGuard 3 1000))
    ([Begin (guess "a")] ++ whole 0 1 ++ [Begin (guess "b")] ++ whole 1 2 ++
     [Begin (guess "c")] ++ whole 2 3 ++ [Begin (guess "secret")] ++ whole 3 4 ++
     [Begin (guess "secret")] ++ whole 4 1100))
  = [Back (Some ErrInvalid); Back (Some ErrInvalid); Back (Some ErrInvalid); Back (Some ErrLocked); Back None].
Proof. by vm_compute. Qed.

(** Two guesses one after the other, then three calls that all ask the guard
    before the first of them records its failure. *)
Definition rush : list vevent :=
  [Begin (guess "a")] ++ whole 0 1 ++ [Begin (guess "b")] ++ whole 1 2 ++
  [Begin (guess "c"); Begin (guess "d"); Begin (guess "e")] ++
  [Go 2 3; Go 3 3; Go 4 3; Go 2 3; Go 3 3; Go 4 3] ++
  [Go 2 4; Go 3 4; Go 4 4; Go 2 5; Go 3 5; Go 4 5] ++
  [Begin (guess "f")] ++ whole 5 6.

Lemma new_guard_ok n d : 1 <= n -> 0 <= d < 2 ^ 62 -> guard_ok (NewGuard n d).
Proof. intros Hn Hd. split_and!; [done|apply Hd|apply Hd|by apply map_Forall_empty]. Qed.

(** Five passwords are checked where three failures lock. *)
Example rush_exceeds :
  checks toy_argon2 toy_bcrypt toy_lookup #"admin@example.com" (empty_pool (NewGuard 3 1000)) rush = 5.
Proof. by vm_compute. Qed.

(** The bound for three calls at a time is reached. *)
Example Verify_bounds_guesses_witness :
  let p := empty_pool (NewGuard 3 1000) in
  let n := checks toy_argon2 toy_bcrypt toy_lookup #"admin@example.com" p rush in
  n <= 3 - 1 + 3 /\ n = 5 /\
  pCalls (pool_run toy_argon2 toy_bcrypt toy_lookup p rush) !! 5%nat = Some (guess "f", Back (Some ErrLocked)).
Proof.
  split; [|split; by vm_compute].
  apply (Verify_bounds_guesses toy_argon2 toy_bcrypt toy_lookup #"admin@example.com"
           (empty_pool (NewGuard 3 1000)) rush 3 0 10).
  - by apply new_guard_ok.
  - done.
  - by vm_compute.
  - repeat constructor; simpl; lia.
  - repeat constructor; simpl; lia.
  - simpl. lia.
  - vm_compute. repeat split; discriminate.
Defined.

Example Verify_outcome_witness :
  Verify toy_argon2 toy_bcrypt toy_lookup (NewGuard 3 1000) #"admin@example.com" #"secret" #"192.0.2.9" 0 0
  = (None, 0, NewGuard 3 1000) /\
  exists hash, toy_lookup #"admin@example.com" = Some hash /\
    VerifyPassword toy_argon2 toy_bcrypt hash #"secret" = true.
Proof.
  split; [vm_compute; reflexivity|].
  destruct (Verify_outcome toy_argon2 toy_bcrypt toy_lookup (NewGuard 3 1000) #"admin@example.com"
    #"secret" #"192.0.2.9" 0 0 (new_guard_ok 3 1000 ltac:(lia) ltac:(lia))) as (h & H1 & H2 & _).
  by exists h.
Defined.
