(* ===== verification/Pace.v ===== *)
(** * Outbound pacing (internal/pace)

    Token buckets per destination at four scopes; a message that finds no
    token is held, not refused.  Rationals stand for [float64]; times are
    nanoseconds. *)

From S2P Require Import Prelude GoStrings RateLimit.

Record Limit := mkLimit { lmRate : Q; lmBurst : Q }.
Record Rule := mkRule { rlMatch : str; rlLimit : Limit }.
Record Config := mkConfig {
  pcGlobal : list Rule;
  pcPerIP : list Rule;
  pcByDomain : list (str * list Rule);
  pcByMailbox : list (str * list Rule) }.
Record Key := mkKey { kyMailbox : str; kyDomain : str; kyEgressIP : str; kyDest : str }.

(** A nil map is [None]. *)
Abbreviation ruleset := (option (gmap str Limit)).

Definition lookup_rule (rs : ruleset) (dest : str) : option Limit :=
  match rs with
  | None => None
  | Some m => match m !! dest with Some l => Some l | None => m !! #"*" end
  end.

Definition toRuleset (rules : list Rule) : ruleset :=
  match rules with
  | [] => None
  | _ => Some (fold_left (fun m r => <[to_lower (rlMatch r) := rlLimit r]> m) rules ∅)
  end.

Record Throttle := mkThrottle {
  thGlobal : ruleset;
  thPerIP : ruleset;
  thByDom : gmap str (gmap str Limit);
  thByMbx : gmap str (gmap str Limit);
  thBuckets : gmap str bucket }.

Definition by_scope (l : list (str * list Rule)) : gmap str (gmap str Limit) :=
  fold_left (fun m dr => match toRuleset dr.2 with Some rs => <[to_lower dr.1 := rs]> m | None => m end) l ∅.

Definition New (c : Config) : option Throttle :=
  let t := mkThrottle (toRuleset (pcGlobal c)) (toRuleset (pcPerIP c))
             (by_scope (pcByDomain c)) (by_scope (pcByMailbox c)) ∅ in
  match thGlobal t, thPerIP t with
  | None, None => if bool_decide (thByDom t = ∅) && bool_decide (thByMbx t = ∅) then None else Some t
  | _, _ => Some t
  end.

Abbreviation scoped := (str * Limit)%type.

(** The sender scope: mailbox, else domain, else global. *)
Definition sender_scope (t : Throttle) (k : Key) : option scoped :=
  let dest := to_lower (kyDest k) in
  match lookup_rule (thByMbx t !! to_lower (kyMailbox k)) dest with
  | Some l => Some (#"mbx:" ++ to_lower (kyMailbox k) ++ #"|" ++ dest, l)
  | None =>
      match lookup_rule (thByDom t !! to_lower (kyDomain k)) dest with
      | Some l => Some (#"dom:" ++ to_lower (kyDomain k) ++ #"|" ++ dest, l)
      | None =>
          match lookup_rule (thGlobal t) dest with
          | Some l => Some (#"g|" ++ dest, l)
          | None => None
          end
      end
  end.

Definition ip_scope (t : Throttle) (k : Key) : option scoped :=
  let dest := to_lower (kyDest k) in
  match kyEgressIP k with
  | [] => None
  | ip => (fun l => (#"ip:" ++ ip ++ #"|" ++ dest, l)) <$> lookup_rule (thPerIP t) dest
  end.

Definition applicable (t : Throttle) (k : Key) : list scoped :=
  option_list (sender_scope t k) ++ option_list (ip_scope t k).

Definition capacity (lim : Limit) : Q := if Qltb (lmBurst lim) 1 then 1%Q else lmBurst lim.

Definition seconds (ns : Z) : Q := (inject_Z ns / inject_Z (10 ^ 9))%Q.

(** [refill]: a new bucket is full. *)
Definition refill (bs : gmap str bucket) (s : scoped) (now : Z) : bucket :=
  match bs !! s.1 with
  | None => mkBucket (capacity s.2) now
  | Some b =>
      let t := (bkTokens b + seconds (now - bkLast b) * lmRate s.2)%Q in
      mkBucket (if Qltb (capacity s.2) t then capacity s.2 else t) now
  end.

(** The wait for one token of a dry bucket, at least a millisecond. *)
Definition wait_for (b : bucket) (lim : Limit) : Z :=
  let w := Qfloor ((1 - bkTokens b) / lmRate lim * inject_Z (10 ^ 9)) in
  if w <? 10 ^ 6 then 10 ^ 6 else w.

(** First pass: refill, and find the longest wait. *)
Definition refill_step (now : Z) (acc : gmap str bucket * bool * Z) (s : scoped) : gmap str bucket * bool * Z :=
  let '(bs, blocked, maxWait) := acc in
  let b := refill bs s now in
  let bs := <[s.1 := b]> bs in
  if Qltb (bkTokens b) 1 then
    let w := wait_for b s.2 in (bs, true, if maxWait <? w then w else maxWait)
  else (bs, blocked, maxWait).

(** Second pass: take a token. *)
Definition take_token (bs : gmap str bucket) (s : scoped) : gmap str bucket :=
  alter (fun b => mkBucket (bkTokens b - 1) (bkLast b)) s.1 bs.

Definition with_buckets (t : Throttle) (bs : gmap str bucket) : Throttle :=
  mkThrottle (thGlobal t) (thPerIP t) (thByDom t) (thByMbx t) bs.

Definition Reserve (t : Throttle) (k : Key) (now : Z) : bool * Z * Throttle :=
  match applicable t k with
  | [] => (true, 0, t)
  | scopes =>
      let '(bs, blocked, wait) := fold_left (refill_step now) scopes (thBuckets t, false, 0) in
      if blocked then (false, wait, with_buckets t bs)
      else (true, 0, with_buckets t (fold_left take_token scopes bs))
  end.

(** A nil throttle paces nothing. *)
Definition ReserveOpt (t : option Throttle) (k : Key) (now : Z) : bool * Z * option Throttle :=
  match t with
  | None => (true, 0, None)
  | Some t => let '(ok, w, t') := Reserve t k now in (ok, w, Some t')
  end.

(** ** Levels *)

(** The tokens of a bucket key at a time. *)
Definition plevel (bs : gmap str bucket) (s : scoped) (now : Z) : Q :=
  match bs !! s.1 with
  | None => capacity s.2
  | Some b => Qmin (capacity s.2) (bkTokens b + seconds (now - bkLast b) * lmRate s.2)
  end.

Definition pace_ok (bs : gmap str bucket) (s : scoped) (now : Z) : Prop :=
  (0 <= lmRate s.2)%Q /\
  match bs !! s.1 with
  | None => True
  | Some b => (0 <= bkTokens b)%Q /\ bkLast b <= now
  end.

Lemma capacity_pos lim : (1 <= capacity lim)%Q.
Proof. unfold capacity. destruct (Qltb _ 1) eqn:E; [lra|]. by apply Qltb_ge in E. Qed.

Lemma seconds_nonneg z : 0 <= z -> (0 <= seconds z)%Q.
Proof. intros H. apply Qdiv_0_le; [by apply inject_Z_nonneg|]. by apply inject_Z_pos. Qed.

Lemma seconds_split a b c : (seconds (c - a) == seconds (c - b) + seconds (b - a))%Q.
Proof. unfold seconds, Qdiv. rewrite (inject_Z_sub a b c). ring. Qed.

Lemma refill_level bs s now : (bkTokens (refill bs s now) == plevel bs s now)%Q.
Proof.
  unfold refill, plevel. destruct (bs !! s.1) as [b|]; [|done]. cbn [bkTokens].
  destruct (Qltb _ _) eqn:E; [apply Qltb_lt in E|apply Qltb_ge in E]; symmetry;
    [apply Q.min_l; lra|by apply Q.min_r].
Qed.

Lemma refill_last bs s now : bkLast (refill bs s now) = now.
Proof. unfold refill. by destruct (bs !! s.1). Qed.

Lemma plevel_range bs s now : pace_ok bs s now -> (0 <= plevel bs s now <= capacity s.2)%Q.
Proof.
  intros (Hr & Hb). pose proof (capacity_pos s.2). unfold plevel.
  destruct (bs !! s.1) as [b|]; [|lra]. destruct Hb as [H0 Hl]. split; [|apply Q.le_min_l].
  apply Q.min_glb; [lra|].
  pose proof (Qmult_le_0_compat _ _ (seconds_nonneg (now - bkLast b) ltac:(lia)) Hr). lra.
Qed.

Lemma plevel_grows bs s t t' :
  pace_ok bs s t -> t <= t' ->
  (plevel bs s t <= plevel bs s t' <= plevel bs s t + seconds (t' - t) * lmRate s.2)%Q.
Proof.
  intros (Hr & Hb) Ht. unfold plevel.
  pose proof (Qmult_le_0_compat _ _ (seconds_nonneg (t' - t) ltac:(lia)) Hr) as Hg.
  destruct (bs !! s.1) as [b|]; [|lra].
  assert (seconds (t' - bkLast b) * lmRate s.2
    == seconds (t - bkLast b) * lmRate s.2 + seconds (t' - t) * lmRate s.2)%Q as Hs
    by (rewrite (seconds_split (bkLast b) t t'); ring).
  destruct (Q.min_spec (capacity s.2) (bkTokens b + seconds (t - bkLast b) * lmRate s.2)) as [[? Em]|[? Em]],
    (Q.min_spec (capacity s.2) (bkTokens b + seconds (t' - bkLast b) * lmRate s.2)) as [[? Em']|[? Em']];
    rewrite Em, Em'; lra.
Qed.

Lemma plevel_insert_same bs s now q :
  (q <= capacity s.2)%Q -> (plevel (<[s.1 := mkBucket q now]> bs) s now == q)%Q.
Proof.
  intros Hq. unfold plevel. rewrite lookup_insert_eq. cbn [bkTokens bkLast]. rewrite Z.sub_diag.
  unfold seconds, Qdiv. change (inject_Z 0) with 0%Q. rewrite !Qmult_0_l, Qplus_0_r. by apply Q.min_r.
Qed.

Lemma plevel_other bs s k b now : k <> s.1 -> plevel (<[k := b]> bs) s now = plevel bs s now.
Proof. intros H. unfold plevel. by rewrite lookup_insert_ne. Qed.

Lemma applicable_keys t k : NoDup (applicable t k).*1.
Proof.
  unfold applicable. assert (forall a b, sender_scope t k = Some a -> ip_scope t k = Some b -> a.1 <> b.1) as H.
  { intros a b Ha Hb. unfold sender_scope, ip_scope in *.
    destruct (kyEgressIP k) as [|c ip]; [done|]. apply fmap_Some in Hb as (l & _ & ->).
    repeat break_match_in Ha; simplify_eq/=; done. }
  destruct (sender_scope t k) as [a|], (ip_scope t k) as [b|]; simpl.
  - constructor; [|apply NoDup_singleton]. rewrite list_elem_of_singleton. by apply H.
  - apply NoDup_singleton.
  - apply NoDup_singleton.
  - constructor.
Qed.

(** ** Reserve *)

Definition dry (bs : gmap str bucket) (now : Z) (s : scoped) : bool :=
  Qltb (bkTokens (refill bs s now)) 1.

Lemma refill_pass now scopes : forall bs blocked w,
  NoDup scopes.*1 -> (blocked = true -> 10 ^ 6 <= w) ->
  let '(bs', blocked', w') := fold_left (refill_step now) scopes (bs, blocked, w) in
  blocked' = blocked || existsb (dry bs now) scopes /\
  (blocked' = true -> 10 ^ 6 <= w') /\
  (forall s, s ∈ scopes -> bs' !! s.1 = Some (refill bs s now)) /\
  (forall k, k ∉ scopes.*1 -> bs' !! k = bs !! k).
Proof.
  induction scopes as [|s scopes IH]; intros bs blocked w Hn Hw; cbn [fold_left existsb].
  { rewrite orb_false_r. split_and!; [done|done| |done]. by intros s ?%elem_of_nil. }
  rewrite fmap_cons in Hn. apply NoDup_cons in Hn as [Hs Hn].
  assert (exists w1, refill_step now (bs, blocked, w) s
      = (<[s.1 := refill bs s now]> bs, blocked || dry bs now s, w1) /\
      (blocked || dry bs now s = true -> 10 ^ 6 <= w1)) as (w1 & -> & Hw1).
  { unfold refill_step, dry. destruct (Qltb _ 1); [rewrite orb_true_r|rewrite orb_false_r]; [|by eexists].
    eexists. split; [done|]. intros _. unfold wait_for.
    destruct (Z.ltb_spec (Qfloor ((1 - bkTokens (refill bs s now)) / lmRate s.2 * inject_Z (10 ^ 9))) (10 ^ 6));
      match goal with |- context [w <? ?x] => destruct (Z.ltb_spec w x) end; lia. }
  specialize (IH (<[s.1 := refill bs s now]> bs) (blocked || dry bs now s) w1 Hn Hw1).
  destruct (fold_left _ scopes _) as [[bs' blocked'] w']. destruct IH as (Hb & Hw' & Hin & Hout).
  assert (forall s', s' ∈ scopes -> refill (<[s.1 := refill bs s now]> bs) s' now = refill bs s' now) as Hr.
  { intros s' Hs'. unfold refill at 1. rewrite lookup_insert_ne; [done|].
    intros E. apply Hs. rewrite E. by apply list_elem_of_fmap_2. }
  split_and!.
  - rewrite Hb, <- orb_assoc. do 2 f_equal. clear -Hr.
    induction scopes as [|s' l IH]; [done|]. cbn [existsb]. unfold dry at 1. rewrite Hr by set_solver.
    fold (dry bs now s'). f_equal. apply IH. set_solver.
  - done.
  - intros s' [->|Hs']%elem_of_cons; [|by rewrite Hin, Hr].
    rewrite Hout by done. by rewrite lookup_insert_eq.
  - intros k Hk. rewrite fmap_cons in Hk. apply not_elem_of_cons in Hk as [Hne Hk].
    rewrite Hout by done. by rewrite lookup_insert_ne.
Qed.

Lemma take_pass (scopes : list scoped) : forall bs,
  NoDup scopes.*1 ->
  (forall s : scoped, s ∈ scopes -> fold_left take_token scopes bs !! s.1
     = (fun b => mkBucket (bkTokens b - 1) (bkLast b)) <$> bs !! s.1) /\
  (forall k, k ∉ scopes.*1 -> fold_left take_token scopes bs !! k = bs !! k).
Proof.
  induction scopes as [|s scopes IH]; intros bs Hn; cbn [fold_left].
  { split; [|done]. by intros s ?%elem_of_nil. }
  rewrite fmap_cons in Hn. apply NoDup_cons in Hn as [Hs Hn].
  destruct (IH (take_token bs s) Hn) as [Hin Hout]. split.
  - intros s' [->|Hs']%elem_of_cons.
    + rewrite Hout by done. unfold take_token. by rewrite lookup_alter_eq.
    + rewrite Hin by done. unfold take_token. rewrite lookup_alter_ne; [done|].
      intros E. apply Hs. rewrite E. by apply list_elem_of_fmap_2.
  - intros k Hk. rewrite fmap_cons in Hk. apply not_elem_of_cons in Hk as [Hne Hk].
    rewrite Hout by done. unfold take_token. by rewrite lookup_alter_ne.
Qed.

Lemma existsb_dry bs now scopes :
  existsb (dry bs now) scopes = false <-> forall s, s ∈ scopes -> (1 <= plevel bs s now)%Q.
Proof.
  rewrite <- not_true_iff_false, existsb_exists. unfold dry. split.
  - intros H s Hs. rewrite <- refill_level. apply Qltb_ge.
    destruct (Qltb _ 1) eqn:E; [|done]. exfalso. apply H. exists s. by rewrite <- list_elem_of_In.
  - intros H (s & Hs & Hlt). apply list_elem_of_In, H in Hs. rewrite <- refill_level in Hs.
    apply Qltb_lt in Hlt. lra.
Qed.

(** A message passes exactly if every bucket that applies to it has a
    token, and then takes one from each; otherwise it is held for at least a
    millisecond and takes none. No other bucket changes. *)
Theorem Reserve_spec t k now :
  (forall s, s ∈ applicable t k -> pace_ok (thBuckets t) s now) ->
  let '(ok, wait, t') := Reserve t k now in
  (ok = true <-> forall s, s ∈ applicable t k -> (1 <= plevel (thBuckets t) s now)%Q) /\
  (ok = false -> 10 ^ 6 <= wait) /\ (forall k', applicable t' k' = applicable t k') /\
  (forall s, s ∈ applicable t k ->
     (plevel (thBuckets t') s now == plevel (thBuckets t) s now - (if ok then 1 else 0))%Q
     /\ pace_ok (thBuckets t') s now) /\
  (forall s : scoped, s.1 ∉ (applicable t k).*1 ->
     thBuckets t' !! s.1 = thBuckets t !! s.1).
Proof.
  intros Hok. assert (forall bs k', applicable (with_buckets t bs) k' = applicable t k') as Hap by done.
  pose proof (applicable_keys t k) as Hn. unfold Reserve.
  destruct (applicable t k) as [|s0 l] eqn:Ea.
  { split_and!; try done. - by split; [intros _ s ?%elem_of_nil|]. - by intros s ?%elem_of_nil. }
  rewrite <- Ea in *. clear s0 l Ea. set (bs := thBuckets t) in *.
  pose proof (refill_pass now (applicable t k) bs false 0 Hn ltac:(done)) as HR.
  destruct (fold_left (refill_step now) (applicable t k) (bs, false, 0)) as [[bs' blocked] wait].
  destruct HR as (Hb & Hw & Hin & Hout). rewrite orb_false_l in Hb.
  assert (forall s, s ∈ applicable t k -> bkLast (refill bs s now) = now /\
    (bkTokens (refill bs s now) == plevel bs s now)%Q /\ (0 <= plevel bs s now <= capacity s.2)%Q) as Hl.
  { intros s Hs. split; [apply refill_last|]. split; [apply refill_level|]. by apply plevel_range, Hok. }
  assert (forall s q bs2, s ∈ applicable t k -> bs2 !! s.1 = Some (mkBucket q now) ->
    (0 <= q <= capacity s.2)%Q -> (plevel bs2 s now == q)%Q /\ pace_ok bs2 s now) as Hput.
  { intros s q bs2 Hs E Hq. rewrite <- (insert_id bs2 s.1 _ E). split; [apply plevel_insert_same; lra|].
    split; [by apply Hok|]. rewrite lookup_insert_eq. cbn [bkTokens bkLast]. split; [lra|lia]. }
  destruct blocked; cbn [negb].
  - symmetry in Hb. split_and!.
    + split; [done|]. intros H. apply existsb_dry in H. congruence.
    + auto.
    + done.
    + intros s Hs. destruct (Hl s Hs) as (E & Et & Hr). specialize (Hin s Hs).
      destruct (refill bs s now) as [q last]. simpl in E, Et. subst last.
      destruct (Hput s q bs' Hs Hin ltac:(rewrite Et; lra)) as [H1 H2].
      split; [|done]. cbn [thBuckets with_buckets]. lra.
    + intros s Hs. by apply Hout.
  - destruct (take_pass (applicable t k) bs' Hn) as [Htin Htout]. symmetry in Hb.
    pose proof (proj1 (existsb_dry bs now (applicable t k)) Hb) as Hge. split_and!; try done.
    + intros s Hs. destruct (Hl s Hs) as (E & Et & Hr). specialize (Hin s Hs).
      specialize (Htin s Hs). rewrite Hin in Htin. specialize (Hge s Hs).
      destruct (refill bs s now) as [q last]. simpl in E, Et, Htin. subst last.
      destruct (Hput s (q - 1)%Q _ Hs Htin ltac:(lra)) as [H1 H2].
      split; [|done]. cbn [thBuckets with_buckets]. lra.
    + intros s Hs. cbn [thBuckets with_buckets]. rewrite Htout by done. by apply Hout.
Qed.

(** ** The rate *)

Definition buckets_ok (bs : gmap str bucket) (now : Z) : Prop :=
  map_Forall (fun _ b => (0 <= bkTokens b)%Q /\ bkLast b <= now) bs.
Definition rates_ok (t : Throttle) : Prop := forall k s, s ∈ applicable t k -> (0 <= lmRate s.2)%Q.

Lemma buckets_pace_ok t k s now :
  buckets_ok (thBuckets t) now -> rates_ok t -> s ∈ applicable t k -> pace_ok (thBuckets t) s now.
Proof.
  intros Hb Hr Hs. split; [by eapply Hr|]. destruct (thBuckets t !! s.1) eqn:E; [|done].
  by apply Hb in E.
Qed.

Lemma buckets_ok_later bs now now' : buckets_ok bs now -> now <= now' -> buckets_ok bs now'.
Proof.
  intros Hb Hn. eapply map_Forall_impl; [exact Hb|]. simpl. intros _ b [? ?]. split; [done|lia].
Qed.

Lemma buckets_ok_Reserve t k now :
  buckets_ok (thBuckets t) now -> rates_ok t ->
  buckets_ok (thBuckets (Reserve t k now).2) now /\ rates_ok (Reserve t k now).2.
Proof.
  intros Hb Hr.
  pose proof (Reserve_spec t k now ltac:(intros s; by apply buckets_pace_ok)) as HS.
  destruct (Reserve t k now) as [[ok w] t']. destruct HS as (_ & _ & Ha & Hin & Hout). cbn [snd]. split.
  - intros key b Hk. destruct (decide (key ∈ (applicable t k).*1)) as [Hi|Hi].
    + apply list_elem_of_fmap in Hi as (s & -> & Hs). destruct (Hin s Hs) as [_ [_ Hp]].
      by rewrite Hk in Hp.
    + specialize (Hout (key, mkLimit 0 0) Hi). cbn [fst] in Hout. rewrite Hout in Hk. by apply Hb in Hk.
  - intros k' s. rewrite Ha. apply Hr.
Qed.

Fixpoint reserve_all (t : Throttle) (calls : list (Key * Z)) : list bool :=
  match calls with
  | [] => []
  | (k, now) :: r => let '(ok, _, t') := Reserve t k now in ok :: reserve_all t' r
  end.

(** The messages let through on a bucket key. *)
Definition passed (t : Throttle) (bk : str) (calls : list (Key * Z)) (answers : list bool) : Z :=
  Z.of_nat (length (List.filter
    (fun x : Key * Z * bool => x.2 && bool_decide (bk ∈ (applicable t x.1.1).*1)) (combine calls answers))).

Lemma passed_level s calls : forall t t0 t1,
  buckets_ok (thBuckets t) t0 -> rates_ok t -> (0 <= lmRate s.2)%Q ->
  (forall k s', s' ∈ applicable t k -> s'.1 = s.1 -> s' = s) ->
  t0 <= t1 -> StronglySorted Z.le (t0 :: (snd <$> calls)) ->
  Forall (fun c : Key * Z => c.2 <= t1) calls ->
  (inject_Z (passed t s.1 calls (reserve_all t calls))
   <= plevel (thBuckets t) s t0 + seconds (t1 - t0) * lmRate s.2)%Q.
Proof.
  induction calls as [|[k u] calls IH]; intros t t0 t1 Hb Hr Hrs Huniq Ht HS HF.
  - assert (pace_ok (thBuckets t) s t0) as Hp.
    { split; [done|]. destruct (thBuckets t !! s.1) eqn:E; [|done]. by apply Hb in E. }
    pose proof (plevel_range _ _ _ Hp). pose proof (plevel_grows _ _ t0 t1 Hp Ht).
    change (inject_Z (passed t s.1 [] (reserve_all t []))) with 0%Q. lra.
  - rewrite fmap_cons in HS. apply StronglySorted_inv in HS as [HS H0].
    pose proof (Forall_inv H0) as Ht0. cbn [snd] in Ht0, HS.
    apply Forall_cons in HF as [Ht1 HF]. cbn [snd] in Ht1.
    pose proof (buckets_ok_later _ _ u Hb Ht0) as Hb'.
    pose proof (Reserve_spec t k u ltac:(intros s'; by apply buckets_pace_ok)) as HR.
    destruct (buckets_ok_Reserve t k u Hb' Hr) as [Hb2 Hr2]. cbn [reserve_all].
    destruct (Reserve t k u) as [[ok w] t'] eqn:ER. cbn [snd] in *.
    destruct HR as (_ & _ & Ha & Hin & Hout).
    specialize (IH t' u t1 Hb2 Hr2 Hrs ltac:(intros k' s'; rewrite Ha; apply Huniq) Ht1 HS HF).
    assert (pace_ok (thBuckets t) s t0) as Hp.
    { split; [done|]. destruct (thBuckets t !! s.1) eqn:E; [|done]. by apply Hb in E. }
    pose proof (plevel_grows _ _ t0 u Hp Ht0) as [_ Hg].
    assert (seconds (t1 - t0) * lmRate s.2 == seconds (t1 - u) * lmRate s.2 + seconds (u - t0) * lmRate s.2)%Q
      as Hsp by (rewrite (seconds_split t0 u t1); ring).
    assert (forall a, passed t s.1 calls a = passed t' s.1 calls a) as Hpass.
    { intros a. unfold passed. do 2 f_equal. apply List.filter_ext. intros x. by rewrite Ha. }
    assert (passed t s.1 ((k, u) :: calls) (ok :: reserve_all t' calls)
      = (if ok && bool_decide (s.1 ∈ (applicable t k).*1) then 1 else 0)
        + passed t s.1 calls (reserve_all t' calls)) as ->.
    { unfold passed. cbn [combine List.filter fst snd].
      destruct (ok && bool_decide (s.1 ∈ (applicable t k).*1)); cbn [length]; lia. }
    rewrite inject_Z_plus, Hpass. case_bool_decide as Hi.
    + apply list_elem_of_fmap in Hi as (s' & E & Hs'). rewrite (Huniq k s' Hs' (eq_sym E)) in Hs'.
      destruct (Hin s Hs') as [El _]. rewrite El in IH.
      destruct ok; cbn [andb]; [change (inject_Z 1) with 1%Q|change (inject_Z 0) with 0%Q]; lra.
    + rewrite andb_false_r. change (inject_Z 0) with 0%Q.
      assert (plevel (thBuckets t') s u = plevel (thBuckets t) s u) as El.
      { unfold plevel. by rewrite Hout. }
      rewrite El in IH. lra.
Qed.

(** The messages let through on one bucket key in a window are at most
    its burst plus what its rate yields in the window, whatever else is
    sent. *)
Theorem pace_bound t s calls t0 t1 :
  thBuckets t = ∅ -> rates_ok t -> (0 <= lmRate s.2)%Q ->
  (forall k s', s' ∈ applicable t k -> s'.1 = s.1 -> s' = s) ->
  t0 <= t1 -> StronglySorted Z.le (t0 :: (snd <$> calls)) ->
  Forall (fun c : Key * Z => c.2 <= t1) calls ->
  (inject_Z (passed t s.1 calls (reserve_all t calls))
   <= capacity s.2 + seconds (t1 - t0) * lmRate s.2)%Q.
Proof.
  intros Hb Hr Hrs Huniq Ht HS HF.
  pose proof (passed_level s calls t t0 t1) as H. rewrite Hb in H.
  unfold plevel in H. rewrite lookup_empty in H. by apply H.
Qed.

(** Two messages at once, then one a second. *)
Definition example_throttle : Throttle :=
  mkThrottle (Some {[ #"*" := mkLimit 1 2 ]}) None ∅ ∅ ∅.
Definition to_gmail : Key := mkKey #"a@b.c" #"b.c" [] #"Gmail.com".
Definition example_calls : list (Key * Z) :=
  [ (to_gmail, 0); (to_gmail, 0); (to_gmail, 0); (to_gmail, 10 ^ 9)].

Example throttled : reserve_all example_throttle example_calls = [true; true; false; true].
Proof. by vm_compute. Qed.

Lemma example_scopes k s :
  s ∈ applicable example_throttle k -> s = (#"g|" ++ to_lower (kyDest k), mkLimit 1 2).
Proof.
  unfold applicable. intros [Hs|Hs]%elem_of_app.
  - unfold sender_scope in Hs. cbn [thByMbx thByDom thGlobal example_throttle] in Hs.
    rewrite !lookup_empty in Hs. cbn [lookup_rule] in Hs.
    assert (forall d, (match ({[ #"*" := mkLimit 1 2 ]} : gmap str Limit) !! d with
       Some l => Some l | None => ({[ #"*" := mkLimit 1 2 ]} : gmap str Limit) !! #"*" end)
       = Some (mkLimit 1 2)) as Hd.
    { intros d. destruct (decide (d = #"*")) as [->|Hne]; [by rewrite lookup_singleton_eq|].
      by rewrite lookup_singleton_ne, lookup_singleton_eq. }
    rewrite Hd in Hs. by apply list_elem_of_singleton in Hs.
  - unfold ip_scope in Hs. destruct (kyEgressIP k); by apply elem_of_nil in Hs.
Qed.

Example pace_bound_witness :
  (inject_Z (passed example_throttle #"g|gmail.com" example_calls (reserve_all example_throttle example_calls))
   <= capacity (mkLimit 1 2) + seconds (10 ^ 9 - 0) * 1)%Q.
Proof.
  apply (pace_bound example_throttle (#"g|gmail.com", mkLimit 1 2) example_calls 0 (10 ^ 9)).
  - done.
  - intros k s ->%example_scopes. simpl. lra.
  - simpl. lra.
  - intros k s ->%example_scopes. cbn [fst]. intros E. by rewrite E.
  - lia.
  - repeat constructor; simpl; lia.
  - repeat constructor; simpl; lia.
Defined.

Example Reserve_spec_witness :
  let '(ok, _, _) := Reserve example_throttle to_gmail 0 in
  ok = true <-> forall s, s ∈ applicable example_throttle to_gmail ->
    (1 <= plevel (thBuckets example_throttle) s 0)%Q.
Proof.
  assert (forall s, s ∈ applicable example_throttle to_gmail -> pace_ok (thBuckets example_throttle) s 0) as H.
  { intros s ->%example_scopes. split; [simpl; lra|done]. }
  pose proof (Reserve_spec example_throttle to_gmail 0 H) as HS.
  destruct (Reserve example_throttle to_gmail 0) as [[ok w] t']. apply HS.
Defined.
