(* ===== verification/Egress.v ===== *)
(** * Outbound source selection (internal/egress, cmd/verta/main.go)

    Which local address a delivery leaves from, and under which name. *)

From S2P Require Import Prelude GoStrings StorageResolver.

Definition StrategyRecipientDomain : str := #"recipient_domain".
Definition StrategySenderDomain : str := #"sender_domain".
Definition StrategyRoundRobin : str := #"round_robin".

Record Address := mkAddress { adPublic : str; adHELO : str; adBind : str; adDomains : list str }.
Record Source := mkSource { srcBind : str; srcHELO : str }.
Definition noSource : Source := mkSource [] [].

Record Pool := mkPool {
  plAddrs : list Address;
  plStrategy : str;
  plByDomain : gmap str nat;
  plRR : Z }.

Definition New (strategy : str) (addrs : list Address) : option Pool :=
  match addrs with
  | [] => None
  | _ =>
      let strategy := match strategy with [] => StrategyRecipientDomain | _ => strategy end in
      let by_domain := fold_left (fun m ia =>
          fold_left (fun m d => <[to_lower d := ia.1]> m) (adDomains ia.2) m)
        (imap pair addrs) ∅ in
      Some (mkPool addrs strategy by_domain 0)
  end.

Definition source (a : Address) : Source :=
  mkSource (match adBind a with [] => adPublic a | b => b end) (adHELO a).

Definition ByAddress (p : option Pool) (public : str) : option Source :=
  match p with
  | None => None
  | Some p => source <$> List.find (fun a => adPublic a =s public) (plAddrs p)
  end.

(** FNV-1a, 32 bits. *)
Definition fnv_step (h : Z) (c : ascii) : Z :=
  u32 (Z.lxor h (Z.of_N (N_of_ascii c)) * 16777619).
Definition fnv32a (s : str) : Z := fold_left fnv_step s 2166136261.

Definition hashIndex (s : str) (n : nat) : nat := Z.to_nat (fnv32a s mod Z.of_nat n).

Definition domainOf (addr : str) : str :=
  match last_index_byte "@" addr with Some at_ => drop (S at_) addr | None => [] end.

(** The conversion [int(x)] of a [uint64]. *)
Definition to_int (x : Z) : Z := if x <? 2 ^ 63 then x else x - 2 ^ 64.

(** [p.addrs[i].source()]; [None] is the run-time panic of an index out of
    range. *)
Definition at_index (p : Pool) (i : nat) : option Source := source <$> plAddrs p !! i.

Definition Select_pool (p : Pool) (from rcptDomain : str) : option Source * Pool :=
  let n := length (plAddrs p) in
  if plStrategy p =s StrategySenderDomain then
    let dom := domainOf from in
    match plByDomain p !! to_lower dom with
    | Some i => (at_index p i, p)
    | None => (at_index p (hashIndex dom n), p)
    end
  else if plStrategy p =s StrategyRoundRobin then
    let rr := u64 (plRR p + 1) in
    let i := Z.rem (to_int (u64 (rr - 1))) (Z.of_nat n) in
    (if i <? 0 then None else at_index p (Z.to_nat i),
     mkPool (plAddrs p) (plStrategy p) (plByDomain p) rr)
  else (at_index p (hashIndex (to_lower rcptDomain) n), p).

Definition Select (p : option Pool) (from rcptDomain : str) : option Source * option Pool :=
  match p with
  | None => (Some noSource, None)
  | Some p => match plAddrs p with
              | [] => (Some noSource, Some p)
              | _ => let '(s, p') := Select_pool p from rcptDomain in (s, Some p')
              end
  end.

(** ** The selector of the daemon (egressPool, egressSelector) *)

(** Configured addresses without a public one are skipped. *)
Definition egressPool (strategy : str) (addresses : list Address) : option Pool :=
  New strategy (List.filter (fun a => match adPublic a with [] => false | _ => true end) addresses).

Definition pins (fold_key : str -> str) (l : list (str * str)) : gmap str str :=
  fold_left (fun m kv => match kv.2 with [] => m | _ => <[fold_key kv.1 := kv.2]> m end) l ∅.

Record Selector := mkSelector {
  slPool : option Pool;
  slMailbox : gmap str str;
  slDomain : gmap str str }.

(** [users] and [domains] pair names with the configured egress address. *)
Definition egressSelector (strategy : str) (addresses : list Address) (users domains : list (str * str))
    : option Selector :=
  let s := mkSelector (egressPool strategy addresses) (pins to_lower users) (pins (fun d => d) domains) in
  match slPool s with
  | None => if bool_decide (slMailbox s = ∅) && bool_decide (slDomain s = ∅) then None else Some s
  | Some _ => Some s
  end.

Definition pinned (s : Selector) (ip : option str) : option Source :=
  match ip with Some (_ :: _ as ip) => ByAddress (slPool s) ip | _ => None end.

Definition select_source (s : Selector) (from dest : str) : option Source * Selector :=
  match pinned s (slMailbox s !! to_lower from) with
  | Some src => (Some src, s)
  | None =>
      match pinned s (match Split from with Some (_, sdom) => slDomain s !! sdom | None => None end) with
      | Some src => (Some src, s)
      | None => let '(src, p) := Select (slPool s) from dest in
                (src, mkSelector p (slMailbox s) (slDomain s))
      end
  end.

(** ** Properties *)

Definition pool_ok (p : Pool) : Prop :=
  plAddrs p <> [] /\ map_Forall (fun _ i => (i < length (plAddrs p))%nat) (plByDomain p) /\
  0 <= plRR p < 2 ^ 63.

Lemma hashIndex_lt s n : (0 < n)%nat -> (hashIndex s n < n)%nat.
Proof. intros H. unfold hashIndex. pose proof (Z.mod_pos_bound (fnv32a s) (Z.of_nat n)). lia. Qed.

Lemma at_index_in p i :
  (i < length (plAddrs p))%nat -> exists a, a ∈ plAddrs p /\ at_index p i = Some (source a).
Proof.
  intros H. destruct (lookup_lt_is_Some_2 _ _ H) as [a Ha]. exists a. unfold at_index. rewrite Ha.
  split; [by eapply list_elem_of_lookup_2|done].
Qed.

Lemma rr_index p :
  pool_ok p ->
  let i := Z.rem (to_int (u64 (u64 (plRR p + 1) - 1))) (Z.of_nat (length (plAddrs p))) in
  i = plRR p mod Z.of_nat (length (plAddrs p)) /\ 0 <= i < Z.of_nat (length (plAddrs p)).
Proof.
  intros (Hne & _ & Hrr). assert (0 < length (plAddrs p))%nat by (destruct (plAddrs p); [done|simpl; lia]).
  rewrite (u64_id (plRR p + 1)) by lia. replace (plRR p + 1 - 1) with (plRR p) by lia.
  rewrite u64_id by lia. unfold to_int. destruct (Z.ltb_spec (plRR p) (2 ^ 63)); [|lia].
  rewrite Z.rem_mod_nonneg by lia. split; [done|]. apply Z.mod_pos_bound. lia.
Qed.

(** A pool always yields one of its addresses; the sticky strategies
    depend on the destination, or on the sender's domain, alone, and leave
    the pool as it is. *)
Theorem Select_pool_sound p from dest :
  pool_ok p ->
  exists a, a ∈ plAddrs p /\ (Select_pool p from dest).1 = Some (source a) /\
    (plStrategy p <> StrategyRoundRobin -> (Select_pool p from dest).2 = p) /\
    (plStrategy p <> StrategyRoundRobin -> plStrategy p <> StrategySenderDomain ->
       forall from' dest', to_lower dest' = to_lower dest ->
         Select_pool p from' dest' = Select_pool p from dest).
Proof.
  intros Hok. assert (0 < length (plAddrs p))%nat as Hpos.
  { destruct Hok as (Hne & _). destruct (plAddrs p); [done|simpl; lia]. }
  assert (exists a, a ∈ plAddrs p /\ (Select_pool p from dest).1 = Some (source a)) as (a & Ha & Es).
  { unfold Select_pool. destruct (_ =s StrategySenderDomain).
    - destruct (plByDomain p !! _) as [i|] eqn:E; cbn [fst]; apply at_index_in.
      + by eapply Hok in E.
      + by apply hashIndex_lt.
    - destruct (_ =s StrategyRoundRobin); cbn [fst]; [|by apply at_index_in, hashIndex_lt].
      destruct (rr_index p Hok) as [_ Hi]. cbv zeta in Hi.
      match goal with |- context [?x <? 0] => destruct (Z.ltb_spec x 0); [lia|] end.
      apply at_index_in. lia. }
  exists a. split; [done|]. split; [done|]. unfold Select_pool. split.
  - intros Hrr%str_eqb_neq. rewrite Hrr. destruct (_ =s StrategySenderDomain); [|done].
    by destruct (plByDomain p !! _).
  - intros Hrr%str_eqb_neq Hsd%str_eqb_neq from' dest' E. by rewrite Hrr, Hsd, E.
Qed.

(** The sources of [k] deliveries in a row. *)
Fixpoint select_n (k : nat) (p : Pool) : list (option Source) :=
  match k with
  | 0%nat => []
  | S k => let '(s, p') := Select_pool p [] [] in s :: select_n k p'
  end.

Lemma select_n_round k : forall p,
  pool_ok p -> plStrategy p = StrategyRoundRobin -> plRR p + Z.of_nat k < 2 ^ 63 ->
  select_n k p = map (fun j => at_index p (Z.to_nat ((plRR p + Z.of_nat j) mod Z.of_nat (length (plAddrs p)))))
                   (seq 0 k).
Proof.
  induction k as [|k IH]; intros p Hok Hs Hk; [done|]. cbn [select_n seq map].
  pose proof (rr_index p Hok) as [Hi Hr]. cbv zeta in Hi, Hr.
  unfold Select_pool. rewrite Hs. cbn [str_eqb]. change (StrategyRoundRobin =s StrategySenderDomain) with false.
  rewrite str_eqb_refl. cbn iota. rewrite Hi in *. destruct (Z.ltb_spec (plRR p mod Z.of_nat (length (plAddrs p))) 0); [lia|].
  rewrite Z.add_0_r. f_equal. destruct (Hok) as (H1 & H2 & H3).
  rewrite u64_id by lia. rewrite IH; [|split_and!; simpl; try done; lia|done|simpl; lia].
  rewrite <- (List.seq_shift k 0), map_map. apply map_ext. intros j. unfold at_index. cbn [plAddrs plRR].
  by replace (plRR p + 1 + Z.of_nat j) with (plRR p + Z.of_nat (S j)) by lia.
Qed.

Lemma seq_mod_perm n r : 0 <= r -> (0 < n)%nat ->
  Permutation ((fun j => Z.to_nat ((r + Z.of_nat j) mod Z.of_nat n)) <$> seq 0 n) (seq 0 n).
Proof.
  intros Hr Hn. apply submseteq_length_Permutation; [|by rewrite length_fmap].
  apply NoDup_submseteq.
  - apply NoDup_fmap_2_strong; [|apply NoDup_seq].
    intros i j Hi%elem_of_seq Hj%elem_of_seq E.
    pose proof (Z.mod_pos_bound (r + Z.of_nat i) (Z.of_nat n) ltac:(lia)).
    pose proof (Z.mod_pos_bound (r + Z.of_nat j) (Z.of_nat n) ltac:(lia)).
    pose proof (Z.div_mod (r + Z.of_nat i) (Z.of_nat n) ltac:(lia)).
    pose proof (Z.div_mod (r + Z.of_nat j) (Z.of_nat n) ltac:(lia)).
    assert ((r + Z.of_nat i) mod Z.of_nat n = (r + Z.of_nat j) mod Z.of_nat n) as Em by lia.
    rewrite Em in *.
    assert ((r + Z.of_nat i) / Z.of_nat n = (r + Z.of_nat j) / Z.of_nat n) by nia. nia.
  - intros x (j & -> & Hj)%list_elem_of_fmap. apply elem_of_seq.
    pose proof (Z.mod_pos_bound (r + Z.of_nat j) (Z.of_nat n) ltac:(lia)). lia.
Qed.

Lemma lookup_seq_all {A} (l : list A) : (fun i => l !! i) <$> seq 0 (length l) = Some <$> l.
Proof.
  apply list_eq. intros i. rewrite !list_lookup_fmap.
  destruct (decide (i < length l)%nat) as [H|H].
  - rewrite lookup_seq_lt by done. destruct (lookup_lt_is_Some_2 _ _ H) as [x Hx].
    rewrite Hx. simpl. by rewrite Hx.
  - rewrite lookup_seq_ge by lia. by rewrite lookup_ge_None_2 by lia.
Qed.

(** Round robin is fair: as many deliveries in a row as there are
    addresses use each address once. *)
Theorem round_robin_fair p :
  pool_ok p -> plStrategy p = StrategyRoundRobin ->
  plRR p + Z.of_nat (length (plAddrs p)) < 2 ^ 63 ->
  Permutation (select_n (length (plAddrs p)) p) ((fun a => Some (source a)) <$> plAddrs p).
Proof.
  intros Hok Hs Hb. rewrite select_n_round by done.
  assert (0 < length (plAddrs p))%nat.
  { destruct Hok as (Hne & _). destruct (plAddrs p); [done|simpl; lia]. }
  transitivity (at_index p <$> ((fun j => Z.to_nat ((plRR p + Z.of_nat j) mod
    Z.of_nat (length (plAddrs p)))) <$> seq 0 (length (plAddrs p)))); [by rewrite <- list_fmap_compose|].
  rewrite seq_mod_perm by (done || apply Hok).
  assert (at_index p <$> seq 0 (length (plAddrs p))
    = fmap source <$> ((fun i => plAddrs p !! i) <$> seq 0 (length (plAddrs p)))) as ->
    by (by rewrite <- list_fmap_compose).
  rewrite lookup_seq_all, <- list_fmap_compose. done.
Qed.

Definition example_pool : Pool :=
  mkPool [mkAddress #"198.51.100.1" #"a.mx" [] []; mkAddress #"198.51.100.2" #"b.mx" #"10.0.0.2" [ #"x.org"]]
    StrategyRoundRobin ∅ 5.

Lemma example_pool_ok : pool_ok example_pool.
Proof. split_and!; [done|by apply map_Forall_empty|simpl; lia|simpl; lia]. Qed.

Example round_robin_fair_witness :
  Permutation (select_n 2 example_pool)
    [Some (mkSource #"198.51.100.1" #"a.mx"); Some (mkSource #"10.0.0.2" #"b.mx")].
Proof. apply (round_robin_fair example_pool example_pool_ok); [done|simpl; lia]. Defined.

Example Select_pool_sound_witness :
  exists a, a ∈ plAddrs example_pool /\ (Select_pool example_pool #"u@x.org" #"y.org").1 = Some (source a).
Proof.
  destruct (Select_pool_sound example_pool #"u@x.org" #"y.org" example_pool_ok) as (a & Ha & E & _).
  by exists a.
Defined.
