(* ===== verification/Queue.v ===== *)
(** * The outbound queue (internal/queue)

    Envelopes on disk, the scheduler's retries and the SMTP transport's choice
    among the MX hosts.  Two things come from outside and are parameters: the
    JSON encoding of an envelope (the class [EnvelopeCodec]) and what the network
    answers ([remote], [lookup_mx]).  Times are nanoseconds. *)

From S2P Require Import Prelude GoStrings GoOS StorageResolver.

Definition second : Z := 10 ^ 9.
Definition minute : Z := 60 * second.
Definition hour : Z := 60 * minute.

(** ** The store (queue.go) *)

Record Envelope := mkEnvelope {
  eID : str;
  eFrom : str;              (** empty: the null reverse-path *)
  eRcpt : str;
  eDomain : str;
  eAttempts : Z;
  eNextAttempt : Z;
  eCreated : Z;
  eLastError : str;
  eData : str }.

Definition set_next (e : Envelope) (t : Z) : Envelope :=
  mkEnvelope (eID e) (eFrom e) (eRcpt e) (eDomain e) (eAttempts e) t (eCreated e)
    (eLastError e) (eData e).
Definition failed_once (e : Envelope) (err : str) : Envelope :=
  mkEnvelope (eID e) (eFrom e) (eRcpt e) (eDomain e) (eAttempts e + 1) (eNextAttempt e)
    (eCreated e) err (eData e).

(** [newID]. *)
Definition newID (now : Z) : M str :=
  r ← rand_uint32; mret (dec now ++ #"-" ++ hex r).

(** [json.Marshal] and [json.Unmarshal] of an envelope; both may fail. *)
Class EnvelopeCodec := {
  marshal : Envelope -> option str;
  unmarshal : str -> option Envelope }.

(** What encoding/json documents: times of the years 0 to 9999 can be encoded;
    what is encoded comes back as it was, except that [clean] replaces the
    invalid UTF-8 of strings. *)
Definition clean_envelope (clean : str -> str) (e : Envelope) : Envelope :=
  mkEnvelope (clean (eID e)) (clean (eFrom e)) (clean (eRcpt e)) (clean (eDomain e)) (eAttempts e)
    (eNextAttempt e) (eCreated e) (clean (eLastError e)) (eData e).
Class LawfulCodec `{EnvelopeCodec} := {
  clean : str -> str;
  clean_ascii : forall s, is_ascii s -> clean s = s;
  marshal_total : forall e, in_years (eNextAttempt e) -> in_years (eCreated e) -> is_Some (marshal e);
  unmarshal_marshal : forall e b, marshal e = Some b -> unmarshal b = Some (clean_envelope clean e) }.

Section Store.
Context `{EnvelopeCodec}.
Context (qdir : path).

Definition queue_path (id : str) : path := join_path qdir (id ++ #".json").

Definition write (e : Envelope) : M unit :=
  match marshal e with
  | None => throw (ErrText #"json: unsupported value")
  | Some b => replace_file (queue_path (eID e)) b
  end.

Definition Open : M unit := wrap (MkdirAll qdir).

Definition Enqueue (from rcpt data : str) : M unit :=
  match Split rcpt with
  | None => throw (ErrText (#"queue: invalid recipient " ++ rcpt))
  | Some (_, domain) =>
      now ← time_now;
      id ← newID now;
      write (mkEnvelope id (to_lower from) (to_lower rcpt) domain 0 now now [] data)
  end.

(** One directory entry of the scan: nothing for other files, otherwise an
    envelope or an error. *)
Definition load_entry (ent : dirent) : M (option (result error Envelope)) :=
  if has_suffix #".json" (deName ent) then
    r ← try (ReadFile (join_path qdir (deName ent)));
    mret (Some (match r with
                | Err err => Err err
                | Ok b => match unmarshal b with
                          | Some e => Ok e
                          | None => Err (ErrText (deName ent))
                          end
                end))
  else mret None.

Fixpoint load_entries (ents : list dirent) : M (list Envelope * list error) :=
  match ents with
  | [] => mret ([], [])
  | ent :: rest =>
      x ← load_entry ent;
      r ← load_entries rest;
      let '(out, errs) := r in
      mret (match x with
            | None => (out, errs)
            | Some (Ok e) => (e :: out, errs)
            | Some (Err err) => (out, err :: errs)
            end)
  end.

(** Oldest first. *)
Definition load : M (list Envelope * list error) :=
  r ← try (ReadDir qdir);
  match r with
  | Err err => mret ([], [err])
  | Ok ents =>
      o ← load_entries ents;
      let '(out, errs) := o in mret (sort_by eCreated out, errs)
  end.

Definition Due (now : Z) : M (list Envelope * list error) :=
  r ← load;
  let '(all, errs) := r in
  mret (List.filter (fun e => eNextAttempt e <=? now) all, errs).

(** The soonest time strictly after [now]. *)
Definition earliest_step (now : Z) (acc : option Z) (e : Envelope) : option Z :=
  if now <? eNextAttempt e then
    match acc with
    | None => Some (eNextAttempt e)
    | Some t => if eNextAttempt e <? t then Some (eNextAttempt e) else acc
    end
  else acc.
Definition Earliest (now : Z) : M (option Z) :=
  r ← load; mret (fold_left (earliest_step now) r.1 None).

Definition Size : M Z :=
  r ← try (ReadDir qdir);
  mret (match r with
        | Err _ => 0
        | Ok ents => Z.of_nat (length (List.filter (fun ent => has_suffix #".json" (deName ent)) ents))
        end).

Definition Update (e : Envelope) : M unit := write e.
Definition RemoveEnvelope (e : Envelope) : M unit := GoOS.Remove (queue_path (eID e)).
End Store.

(** ** The SMTP transport (transport.go) *)

(** Errors of the network client: an SMTP reply, or anything else. *)
Inductive net_error :=
| Textproto (code : Z) (msg : str)
| Network (text : str).

(** What [Deliver] reports: a definitive refusal, or an error that is not. *)
Inductive send_error :=
| Permanent (code : Z) (msg : str)
| Transient (text : str).

Definition pad3 (z : Z) : str :=
  let d := dec z in repeat "0"%char (3 - length d)%nat ++ d.
Definition net_text (e : net_error) : str :=
  match e with Textproto code msg => pad3 code ++ #" " ++ msg | Network t => t end.

(** [classify]: 5xx replies are definitive. *)
Definition classify (e : net_error) : send_error :=
  match e with
  | Textproto code msg =>
      if (500 <=? code) && (code <? 600) then Permanent code msg else Transient (net_text e)
  | Network t => Transient t
  end.

(** The outcome of every client call of one transaction; [None] is success.
    [dlgTLS] is [None] when the peer does not offer STARTTLS. *)
Record dialogue := mkDialogue {
  dlgDial : option net_error;
  dlgGreeting : option net_error;
  dlgHello : option net_error;
  dlgTLS : option (option net_error);
  dlgMail : option net_error;
  dlgRcpt : option net_error;
  dlgData : option net_error;
  dlgWrite : option net_error;
  dlgClose : option net_error;
  dlgQuit : option net_error }.

Section Transport.
Context (hostname : str).
Context (valid_ip : str -> bool).
(** [net.LookupMX]: preferences and hosts. *)
Context (lookup_mx : str -> option (list (Z * str))).
(** The answers of a host, given our local address, EHLO name and envelope. *)
Context (remote : str -> option str -> str -> Envelope -> dialogue).

Definition trimDot (h : str) : str :=
  match last h with Some "."%char => removelast h | _ => h end.

Definition mxHosts (domain : str) : list str :=
  match lookup_mx domain with
  | None | Some [] => [domain]
  | Some mxs => map (fun mx => trimDot mx.2) (sort_by fst mxs)
  end.

(** Stops at the first call that fails. *)
Fixpoint first_error (calls : list (option net_error)) : option net_error :=
  match calls with
  | [] => None
  | Some e :: _ => Some e
  | None :: r => first_error r
  end.

(** The reply to QUIT is returned as it is, without [classify]. *)
Definition trySend (host : str) (e : Envelope) (bind helo : str) : option send_error :=
  let ehlo := match helo with [] => hostname | _ => helo end in
  let local := match bind with [] => None | _ => if valid_ip bind then Some bind else None end in
  let d := remote host local ehlo e in
  match dlgDial d with
  | Some err => Some (Transient (net_text err))
  | None =>
      match first_error [dlgGreeting d; dlgHello d; default None (dlgTLS d); dlgMail d; dlgRcpt d;
                         dlgData d; dlgWrite d; dlgClose d] with
      | Some err => Some (classify err)
      | None => (fun err => Transient (net_text err)) <$> dlgQuit d
      end
  end.

Fixpoint deliver_hosts (hosts : list str) (e : Envelope) (bind helo : str) (lastErr : send_error)
    : option send_error :=
  match hosts with
  | [] => Some lastErr
  | h :: rest =>
      match trySend h e bind helo with
      | None => None
      | Some (Permanent code msg) => Some (Permanent code msg)
      | Some err => deliver_hosts rest e bind helo err
      end
  end.

Definition TransportDeliver (e : Envelope) (bind helo : str) : option send_error :=
  deliver_hosts (mxHosts (eDomain e)) e bind helo (Transient (#"no MX hosts for " ++ eDomain e)).
End Transport.
