(* ===== verification/NetSmtp.v ===== *)
(** * The SMTP client of the standard library: [net/smtp] over [net/textproto]

    What the outbound transport (queue/transport.go) calls, as programs on the
    client's side of a connection: what was sent so far, what the server will
    send, and the extensions it announced.  The TLS handshake is an argument:
    from the bytes not yet read it makes the plaintext of the encrypted stream,
    or fails. *)

From S2P Require Import Prelude GoStrings GoNet StateM.
From S2P Require Queue.

Abbreviation net_error := Queue.net_error.
Abbreviation Textproto := Queue.Textproto.
Abbreviation Network := Queue.Network.

#[global] Open Scope Z_scope.

Record client := mkClient {
  clSent : str;
  clReader : reader;
  clExt : list (str * str) }.
Definition bufio_size : nat := Z.to_nat 4096.

(** ** [textproto.Reader] *)

(** A line without its end; [None] at the end of the stream. *)
Definition drop_cr (l : str) : str := match last l with Some c => if Ascii.eqb c CR then removelast l else l | None => l end.
Definition ReadLine : SM client (option str) := fun c =>
  let '(l, ok, rd) := ReadString bufio_size (clReader c) in
  let c := mkClient (clSent c) rd (clExt c) in
  if ok then (Some (drop_cr (removelast l)), c)
  else match l with [] => (None, c) | _ => (Some l, c) end.

Record code_line := mkCodeLine { clCode : Z; clContinued : bool; clMessage : str; clErr : option net_error }.

(** An expected code of one or two digits stands for a class. *)
Definition unexpected (want code : Z) : bool :=
  ((1 <=? want) && (want <? 10) && negb (code / 100 =? want))
  || ((10 <=? want) && (want <? 100) && negb (code / 10 =? want))
  || ((100 <=? want) && (want <? 1000) && negb (code =? want)).

Definition parseCodeLine (want : Z) (line : str) : code_line :=
  let sep := nth 3 line NUL in
  if Nat.ltb (length line) 4 || (negb (Ascii.eqb sep SP) && negb (Ascii.eqb sep "-")) then
    mkCodeLine 0 false [] (Some (Network (#"short response: " ++ line)))
  else
    let continued := Ascii.eqb sep "-" in
    match parse_int (take 3 line) with
    | Some code =>
        if code <? 100 then mkCodeLine code continued [] (Some (Network (#"invalid response code: " ++ line)))
        else
          let message := drop 4 line in
          mkCodeLine code continued message (if unexpected want code then Some (Textproto code message) else None)
    | None => mkCodeLine 0 continued [] (Some (Network (#"invalid response code: " ++ line)))
    end.

(** The lines that continue a reply; [None] when the stream ends. *)
Fixpoint more_lines (fuel : nat) (code : Z) (message : str) : SM client (option str) :=
  match fuel with
  | O => mret None
  | S fuel =>
      l ← ReadLine;
      match l with
      | None => mret None
      | Some line =>
          let p := parseCodeLine 0 line in
          if bool_decide (clErr p = None) && (clCode p =? code) then
            let message := message ++ [LF] ++ clMessage p in
            if clContinued p then more_lines fuel code message else mret (Some message)
          else more_lines fuel code (message ++ [LF] ++ trim_right CRLF line)
      end
  end.

(** The message of a reply with the expected code. *)
Definition ReadResponse (want : Z) : SM client (result net_error str) :=
  l ← ReadLine;
  match l with
  | None => mret (Err (Network #"EOF"))
  | Some line =>
      let p := parseCodeLine want line in
      if clContinued p then
        c ← (fun c : client => (c, c));
        m ← more_lines (S (length (stream (clReader c)))) (clCode p) (clMessage p);
        mret match m with
             | None => Err (Network #"EOF")
             | Some message =>
                 match clErr p with
                 | None => Ok message
                 | Some e => Err (if message =s [] then e else Textproto (clCode p) message)
                 end
             end
      else mret match clErr p with None => Ok (clMessage p) | Some e => Err e end
  end.

(** ** [textproto.Writer] *)

Definition write (s : str) : SM client unit := fun c => (tt, mkClient (clSent c ++ s) (clReader c) (clExt c)).

(** [DotWriter]: what its states write for a byte. *)
Inductive wstate := WBegin | WBeginLine | WCR | WData.
Definition dot_write_step (st : wstate) (c : ascii) : str * wstate :=
  match st with
  | WCR => ([c], if Ascii.eqb c LF then WBeginLine else WData)
  | WBegin | WBeginLine | WData =>
      let dot := match st with WData => [] | _ => if Ascii.eqb c "." then #"." else [] end in
      if Ascii.eqb c CR then (dot ++ [c], WCR)
      else if Ascii.eqb c LF then (dot ++ CRLF, WBeginLine)
      else (dot ++ [c], WData)
  end.
Fixpoint dot_write (st : wstate) (s : str) : str * wstate :=
  match s with
  | [] => ([], st)
  | c :: r => let '(out, st) := dot_write_step st c in let '(rest, st) := dot_write st r in (out ++ rest, st)
  end.
(** [Close]. *)
Definition dot_close (st : wstate) : str :=
  (match st with WBeginLine => [] | WCR => [LF] | _ => CRLF end) ++ #"." ++ CRLF.
Definition dot_encode (s : str) : str := let '(out, st) := dot_write WBegin s in out ++ dot_close st.

(** ** [smtp.Client] *)

Abbreviation call := (SM client (option net_error)).
Definition failure {A} (r : result net_error A) : option net_error := match r with Ok _ => None | Err e => Some e end.

Definition validateLine (s : str) : option net_error :=
  if existsb (fun c => Ascii.eqb c CR || Ascii.eqb c LF) s then Some (Network #"smtp: A line must not contain CR or LF") else None.

Definition cmd (want : Z) (text : str) : SM client (result net_error str) :=
  write (text ++ CRLF) ≫= fun _ => ReadResponse want.

Definition set_ext (ext : list (str * str)) : SM client unit := fun c => (tt, mkClient (clSent c) (clReader c) ext).
Definition announces (key : str) (ext : list (str * str)) : bool := existsb (fun kv => kv.1 =s key) ext.
Definition parse_ext (message : str) : list (str * str) :=
  map (fun line => let '(k, v, _) := cut SP line in (k, v)) (drop 1 (GoStrings.split LF message)).

(** [NewClient]. *)
Definition greeting : call := r ← ReadResponse 220; mret (failure r).

Definition ehlo (name : str) : call :=
  r ← cmd 250 (#"EHLO " ++ name);
  match r with
  | Err e => mret (Some e)
  | Ok message => set_ext (parse_ext message) ≫= fun _ => mret None
  end.
Definition helo (name : str) : call :=
  set_ext [] ≫= fun _ => r ← cmd 250 (#"HELO " ++ name); mret (failure r).
Definition Hello (name : str) : call :=
  match validateLine name with
  | Some e => mret (Some e)
  | None => e ← ehlo name; match e with None => mret None | Some _ => helo name end
  end.

(** [Extension]; the keys are compared in upper case as they were sent. *)
Definition Extension (key : str) : SM client bool := fun c => (announces (to_upper key) (clExt c), c).

Definition Mail (from : str) : call :=
  match validateLine from with
  | Some e => mret (Some e)
  | None =>
      mime ← Extension #"8BITMIME";
      utf8 ← Extension #"SMTPUTF8";
      r ← cmd 250 (#"MAIL FROM:<" ++ from ++ #">" ++ (if mime : bool then #" BODY=8BITMIME" else [])
                   ++ (if utf8 : bool then #" SMTPUTF8" else []));
      mret (failure r)
  end.
Definition Rcpt (to : str) : call :=
  match validateLine to with
  | Some e => mret (Some e)
  | None => r ← cmd 25 (#"RCPT TO:<" ++ to ++ #">"); mret (failure r)
  end.
Definition Data : call := r ← cmd 354 #"DATA"; mret (failure r).
(** [Write] of the whole message and [Close]. *)
Definition WriteClose (data : str) : call := write (dot_encode data) ≫= fun _ => r ← ReadResponse 250; mret (failure r).
Definition Quit : call := r ← cmd 221 #"QUIT"; mret (failure r).

Section TLS.
Context (Handshake : list str -> option (list str)).
(** The new connection starts with nothing read; a failed handshake shows
    when the greeting is repeated. *)
Definition secured (name : str) : call := fun c =>
  match Handshake (rdIn (clReader c)) with
  | None => (Some (Network #"tls"), c)
  | Some clear => ehlo name (mkClient (clSent c) (mkReader [] clear) (clExt c))
  end.
Definition StartTLS (name : str) : call :=
  r ← cmd 220 #"STARTTLS";
  match r with
  | Err e => mret (Some e)
  | Ok _ => secured name
  end.
End TLS.

(** ** Replies on the wire *)

Lemma last_removelast {A} (l : list A) x : removelast (l ++ [x]) = l.
Proof. by rewrite removelast_app, app_nil_r. Qed.

Definition reader_ok (c : client) : Prop := (length (rdBuf (clReader c)) <= bufio_size)%nat.
(** The client with [rest] still to be read. *)
Definition reads (rest : str) (c : client) : Prop := stream (clReader c) = rest /\ reader_ok c.

Lemma drop_cr_end l : drop_cr (l ++ [CR]) = l.
Proof. unfold drop_cr. rewrite last_snoc. cbn. apply last_removelast. Qed.

Lemma ReadLine_line l rest c : LF ∉ l -> reads (l ++ CRLF ++ rest) c ->
  exists rd, ReadLine c = (Some l, mkClient (clSent c) rd (clExt c)) /\ reads rest (mkClient (clSent c) rd (clExt c)).
Proof.
  intros Hl [Hs Hb]. unfold ReadLine. pose proof (ReadString_spec bufio_size (clReader c) ltac:(unfold bufio_size; lia) Hb) as H.
  destruct (ReadString bufio_size (clReader c)) as [[a ok] rd]. destruct H as [H Hb']. rewrite Hs in H. unfold string_of in H.
  replace (l ++ CRLF ++ rest) with ((l ++ [CR]) ++ LF :: rest) in H by (by rewrite <- app_assoc).
  rewrite index_byte_app in H by (rewrite elem_of_app, list_elem_of_singleton; by intros [|[=]]).
  change (LF :: rest) with ([LF] ++ rest) in H. rewrite app_assoc in H.
  rewrite take_app_length' in H by (rewrite !length_app; simpl; lia). rewrite drop_app_length' in H by (rewrite !length_app; simpl; lia).
  injection H as <- <- Hr. rewrite last_removelast, drop_cr_end. by exists rd.
Qed.

(** Whatever follows, a line that starts with a code and a space is read as
    such. *)
Lemma ReadLine_code q rest c : LF ∉ q -> last q = Some SP -> reads (q ++ rest) c ->
  exists l c', ReadLine c = (Some (q ++ l), c').
Proof.
  intros Hq Hlast [Hs Hb]. unfold ReadLine. pose proof (ReadString_spec bufio_size (clReader c) ltac:(unfold bufio_size; lia) Hb) as H.
  destruct (ReadString bufio_size (clReader c)) as [[a ok] rd]. destruct H as [H Hb']. rewrite Hs in H. unfold string_of in H.
  assert (forall l, exists l', drop_cr (q ++ l) = q ++ l') as Hd.
  { intros l. unfold drop_cr. rewrite last_app. destruct (last l) as [x|] eqn:El.
    - destruct (Ascii.eqb x CR); [|by eexists]. destruct l as [|y l]; [done|]. rewrite removelast_app by done. by eexists.
    - rewrite Hlast. cbn. by eexists. }
  destruct (index_byte LF rest) as [i|] eqn:Ei.
  - apply index_byte_Some in Ei as [Er Hn]. rewrite Er, app_assoc in H. rewrite index_byte_app in H by set_solver.
    change (LF :: drop (S i) rest) with ([LF] ++ drop (S i) rest) in H. rewrite app_assoc in H.
    rewrite take_app_length' in H by (rewrite !length_app; simpl; lia). injection H as <- <- _. rewrite last_removelast.
    destruct (Hd (take i rest)) as [l' ->]. by eexists _, _.
  - apply index_byte_None in Ei. rewrite (proj2 (index_byte_None _ _)) in H by set_solver. injection H as <- <- _.
    destruct (q ++ rest) as [|x r] eqn:Eq; [|by rewrite <- Eq; eexists _, _]. apply app_nil in Eq as [-> _]. done.
Qed.

(** A line with the code and a space, as wanted or not. *)
Definition code_of (q : str) (code : Z) : Prop := length q = 4%nat /\ last q = Some SP /\ parse_int (take 3 q) = Some code /\ 100 <= code.
Definition good (want : Z) (l : str) : Prop :=
  LF ∉ l /\ exists q t code, l = q ++ t /\ code_of q code /\ unexpected want code = false.
Definition bad (want : Z) (q : str) : Prop := LF ∉ q /\ exists code, code_of q code /\ unexpected want code = true.

Lemma parseCodeLine_code want q t code : code_of q code ->
  parseCodeLine want (q ++ t) = mkCodeLine code false t (if unexpected want code then Some (Textproto code t) else None).
Proof.
  intros (Hl & Hs & Hp & Hc). destruct q as [|a [|b [|c [|d [|]]]]]; try done. cbn in Hs. injection Hs as ->.
  unfold parseCodeLine. rewrite length_app, Hl. cbn [Nat.ltb Nat.leb Nat.add app nth negb Ascii.eqb andb orb].
  change (Ascii.eqb SP SP) with true. change (Ascii.eqb SP "-") with false. cbn [negb andb orb].
  cbn [take firstn] in *. rewrite Hp. by destruct (Z.ltb_spec code 100); [lia|].
Qed.

Lemma ReadResponse_good want l rest c : good want l -> reads (l ++ CRLF ++ rest) c ->
  exists m rd, ReadResponse want c = (Ok m, mkClient (clSent c) rd (clExt c)) /\ reads rest (mkClient (clSent c) rd (clExt c)).
Proof.
  intros (Hlf & q & t & code & -> & Hq & Hu) Hr. destruct (ReadLine_line _ _ _ Hlf Hr) as (rd & E & Hrd).
  exists t, rd. split; [|done]. unfold ReadResponse, mbind at 1, SM_bind at 1. rewrite E. cbv beta iota zeta.
  rewrite (parseCodeLine_code want q t code Hq), Hu. done.
Qed.
Lemma ReadResponse_bad want q rest c : bad want q -> reads (q ++ rest) c -> exists e c', ReadResponse want c = (Err e, c').
Proof.
  intros (Hlf & code & Hq & Hu) Hr. destruct (ReadLine_code q rest c Hlf ltac:(apply Hq) Hr) as (l & c' & E).
  exists (Textproto code l), c'. unfold ReadResponse, mbind at 1, SM_bind at 1. rewrite E. cbv beta iota zeta.
  rewrite (parseCodeLine_code want q l code Hq), Hu. done.
Qed.

(** Lines of a longer reply: the code and a hyphen. *)
Definition continues (code : Z) (l : str) : Prop :=
  LF ∉ l /\ exists q t, l = q ++ t /\ length q = 4%nat /\ last q = Some "-"%char /\ parse_int (take 3 q) = Some code.

Lemma parseCodeLine_continues want code l : continues code l -> 100 <= code ->
  parseCodeLine want l = mkCodeLine code true (drop 4 l) (if unexpected want code then Some (Textproto code (drop 4 l)) else None).
Proof.
  intros (_ & q & t & -> & Hl & Hs & Hp) Hc. destruct q as [|a [|b [|c [|d [|]]]]]; try done. cbn in Hs. injection Hs as ->.
  unfold parseCodeLine. rewrite length_app, Hl. cbn [Nat.ltb Nat.leb Nat.add app nth].
  change (Ascii.eqb "-" "-") with true. change (Ascii.eqb "-" SP) with false. cbn [negb andb orb].
  cbn [take firstn] in *. rewrite Hp. by destruct (Z.ltb_spec code 100); [lia|].
Qed.

Definition tails (ls : list str) : str := concat (map (fun l => LF :: drop 4 l) ls).

Lemma more_lines_spec code ms : forall fuel message l rest c,
  Forall (continues code) ms -> LF ∉ l -> (exists q t, l = q ++ t /\ code_of q code) -> 100 <= code -> (length ms < fuel)%nat ->
  reads (on_wire ms ++ l ++ CRLF ++ rest) c ->
  exists rd, more_lines fuel code message c = (Some (message ++ tails (ms ++ [l])), mkClient (clSent c) rd (clExt c)) /\
    reads rest (mkClient (clSent c) rd (clExt c)).
Proof.
  induction ms as [|m ms IH]; intros fuel message l rest c Hms Hlf Hl Hc Hf Hr; (destruct fuel as [|fuel]; [cbn in Hf; lia|]);
    cbn [more_lines].
  - destruct (ReadLine_line l rest c Hlf Hr) as (rd & E & Hrd). exists rd. split; [|done].
    unfold mbind, SM_bind. rewrite E. cbv beta iota zeta. destruct Hl as (q & t & -> & Hq).
    rewrite (parseCodeLine_code 0 q t code Hq). cbn. rewrite Z.eqb_refl. cbn. unfold mret, SM_ret. do 3 f_equal.
    unfold tails. cbn. rewrite app_nil_r. f_equal. f_equal. destruct Hq as (Hq & _). by rewrite drop_app_length'.
  - apply Forall_cons in Hms as [Hm Hms]. unfold on_wire in Hr. cbn [map concat] in Hr. rewrite <- !app_assoc in Hr.
    destruct (ReadLine_line m _ c (proj1 Hm) Hr) as (rd & E & Hrd). unfold mbind, SM_bind. rewrite E. cbv beta iota zeta.
    rewrite (parseCodeLine_continues 0 code m Hm Hc). cbn [clErr clCode clContinued clMessage]. change (unexpected 0 code) with false.
    rewrite Z.eqb_refl. cbn [bool_decide andb]. change (bool_decide (@None net_error = None)) with true. cbn [andb].
    destruct (IH fuel (message ++ [LF] ++ drop 4 m) l rest _ Hms Hlf Hl Hc ltac:(cbn in Hf; lia) Hrd) as (rd' & E' & Hrd').
    exists rd'. split; [|done]. cbn [clSent clExt clReader] in *. rewrite E'. do 2 f_equal. unfold tails. cbn [app map concat]. by rewrite <- !app_assoc.
Qed.

Lemma ReadResponse_long want code l0 ms l rest c :
  Forall (continues code) (l0 :: ms) -> LF ∉ l -> (exists q t, l = q ++ t /\ code_of q code) -> 100 <= code ->
  unexpected want code = false -> reads (on_wire ((l0 :: ms) ++ [l]) ++ rest) c ->
  exists rd, ReadResponse want c = (Ok (drop 4 l0 ++ tails (ms ++ [l])), mkClient (clSent c) rd (clExt c)) /\
    reads rest (mkClient (clSent c) rd (clExt c)).
Proof.
  intros [H0 Hms]%Forall_cons Hlf Hl Hc Hu Hr. unfold on_wire in Hr. cbn [app map concat] in Hr. rewrite map_app, concat_app in Hr.
  cbn [map concat] in Hr. rewrite app_nil_r, <- !app_assoc in Hr. fold (on_wire ms) in Hr.
  destruct (ReadLine_line l0 _ c (proj1 H0) Hr) as (rd & E & Hrd). unfold ReadResponse, mbind, SM_bind. rewrite E. cbv beta iota zeta.
  rewrite (parseCodeLine_continues want code l0 H0 Hc), Hu. cbn [clContinued clCode clMessage clErr].
  set (c' := mkClient _ _ _) in *. assert (length ms < S (length (stream (clReader c'))))%nat as Hf.
  { destruct Hrd as [-> _]. rewrite length_app. pose proof (length_on_wire ms). lia. }
  destruct (more_lines_spec code ms _ (drop 4 l0) l rest c' Hms Hlf Hl Hc Hf Hrd) as (rd' & E' & Hrd').
  rewrite E'. by exists rd'.
Qed.

(** ** The dot encoding *)

Lemma dot_write_data l s : plain_line l ->
  dot_write WData (l ++ CRLF ++ s) = (fun r => (l ++ CRLF ++ r.1, r.2)) (dot_write WBeginLine s).
Proof.
  intros [HC HL]. induction l as [|c l IH].
  - cbn. by destruct (dot_write WBeginLine s).
  - rewrite not_elem_of_cons in HC, HL. destruct HC as [HC HC'], HL as [HL HL']. cbn [app dot_write dot_write_step].
    rewrite (proj2 (Ascii.eqb_neq c CR)), (proj2 (Ascii.eqb_neq c LF)) by congruence. rewrite IH by done. by destruct (dot_write WBeginLine s).
Qed.
Lemma dot_write_line st l s : st = WBegin \/ st = WBeginLine -> plain_line l ->
  dot_write st (l ++ CRLF ++ s) = (fun r => (stuff_line l ++ r.1, r.2)) (dot_write WBeginLine s).
Proof.
  intros Hst Hl. unfold stuff_line. destruct l as [|c l].
  { destruct Hst as [-> | ->]; cbn; by destruct (dot_write WBeginLine s). }
  pose proof (dot_write_data l s) as HD. destruct Hl as [HC HL]. rewrite not_elem_of_cons in HC, HL. destruct HC as [HC HC'], HL as [HL HL'].
  specialize (HD (conj HC' HL')).
  assert (has_prefix #"." (c :: l) = Ascii.eqb c ".") as ->.
  { transitivity (Ascii.eqb "." c && true); [done|]. rewrite andb_true_r. apply Ascii.eqb_sym. }
  assert (dot_write st ((c :: l) ++ CRLF ++ s) = (fun r => (((if Ascii.eqb c "." then #"." else []) ++ (c :: l) ++ CRLF) ++ r.1, r.2)) (dot_write WBeginLine s)) as ->; [|done].
  assert (dot_write_step st c = ((if Ascii.eqb c "." then #"." else []) ++ [c], WData)) as Est.
  { unfold dot_write_step. rewrite (proj2 (Ascii.eqb_neq c CR)), (proj2 (Ascii.eqb_neq c LF)) by congruence. by destruct Hst as [-> | ->]. }
  cbn [app dot_write]. rewrite Est, HD. destruct (dot_write WBeginLine s) as [r st']. cbv beta iota. cbn [fst snd]. f_equal. rewrite <- !app_assoc. cbn [app]. by rewrite <- ?app_assoc.
Qed.

(** Lines that end in CRLF are sent dot-encoded, as the receiver expects. *)
Lemma dot_encode_lines ls : Forall plain_line ls -> ls <> [] -> dot_encode (concat (map (fun l => l ++ CRLF) ls)) = dot_stuff ls.
Proof.
  intros Hls Hne. unfold dot_encode, dot_stuff.
  assert (forall st, st = WBegin \/ st = WBeginLine -> Forall plain_line ls -> ls <> [] ->
    dot_write st (concat (map (fun l => l ++ CRLF) ls)) = (concat (map stuff_line ls), WBeginLine)) as H.
  { clear. induction ls as [|l ls IH]; [done|]. intros st Hst [Hl Hls]%Forall_cons _. cbn [map concat]. rewrite <- app_assoc.
    rewrite (dot_write_line st l _ Hst Hl). destruct ls as [|l' ls]; [reflexivity|]. rewrite IH; [done|by right|done|done]. }
  rewrite (H WBegin) by (try left; done). done.
Qed.
