(* ===== verification/Scheduler.v ===== *)
(** * The delivery scheduler and its bounces (internal/queue)

    [scheduler.go] and [bounce.go]: what happens to a due envelope.  The
    transport's verdict at a given time, the encoding of envelopes and the
    bounce callback are parameters. *)

From S2P Require Import Prelude GoStrings GoOS StorageResolver RateLimit.
From S2P Require Pace Egress.
From S2P Require Import Queue.

(** What the log of the scheduler says of an envelope. *)
Inductive event :=
| Delivered (e : Envelope)
| Bounced (e : Envelope) (reason : str)
| Deferred (e : Envelope)
| Paced (e : Envelope).

Record SchedState := mkSched {
  ssWorld : world;
  ssThrottle : option Pace.Throttle;
  ssEgress : option Egress.Selector;
  ssDelivered : Z;
  ssBounced : Z;
  ssDeferred : Z;
  ssLog : list event }.

Definition set_world (s : SchedState) (w : world) : SchedState :=
  mkSched w (ssThrottle s) (ssEgress s) (ssDelivered s) (ssBounced s) (ssDeferred s) (ssLog s).
Definition set_throttle (s : SchedState) (t : option Pace.Throttle) : SchedState :=
  mkSched (ssWorld s) t (ssEgress s) (ssDelivered s) (ssBounced s) (ssDeferred s) (ssLog s).
Definition set_egress (s : SchedState) (g : option Egress.Selector) : SchedState :=
  mkSched (ssWorld s) (ssThrottle s) g (ssDelivered s) (ssBounced s) (ssDeferred s) (ssLog s).
Definition countDelivered (s : SchedState) : SchedState :=
  mkSched (ssWorld s) (ssThrottle s) (ssEgress s) (u64 (ssDelivered s + 1)) (ssBounced s) (ssDeferred s) (ssLog s).
Definition countBounced (s : SchedState) : SchedState :=
  mkSched (ssWorld s) (ssThrottle s) (ssEgress s) (ssDelivered s) (u64 (ssBounced s + 1)) (ssDeferred s) (ssLog s).
Definition countDeferred (s : SchedState) : SchedState :=
  mkSched (ssWorld s) (ssThrottle s) (ssEgress s) (ssDelivered s) (ssBounced s) (u64 (ssDeferred s + 1)) (ssLog s).
Definition log (ev : event) (s : SchedState) : SchedState :=
  mkSched (ssWorld s) (ssThrottle s) (ssEgress s) (ssDelivered s) (ssBounced s) (ssDeferred s) (ssLog s ++ [ev]).

(** Runs a program whose result is not looked at. *)
Definition io {A} (m : M A) (s : SchedState) : SchedState := set_world s (m (ssWorld s)).2.

(** 1, 2, 4, 8, ... minutes, capped at 4 hours. *)
Definition backoff (attempts : Z) : Z :=
  let attempts := if 9 <? attempts then 9 else attempts in
  let d := Z.shiftl minute (attempts - 1) in
  if 4 * hour <? d then 4 * hour else d.

(** [err.Error()]. *)
Definition error_text (e : send_error) : str :=
  match e with
  | Permanent code msg => #"permanent failure " ++ dec code ++ #": " ++ msg
  | Transient t => t
  end.

Definition minWake : Z := 200 * 10 ^ 6.
Definition interval : Z := 30 * second.

(** How long [Run] sleeps after a pass begun at [now], when the clock says
    [after]. *)
Definition next_sleep (now after : Z) (earliest : option Z) : Z :=
  let wake := now + interval in
  let wake := match earliest with Some t => if t <? wake then t else wake | None => wake end in
  let d := wake - after in
  if d <? minWake then minWake else d.

Section Scheduler.
Context `{EnvelopeCodec} (qdir : path).
(** [Transport.Deliver] at a time. *)
Context (deliver : Z -> Envelope -> str -> str -> option send_error).
Context (bounce : Envelope -> str -> M unit).
Context (maxAttempts : Z).

(** The source of a delivery; a pool never panics here, see
    [Egress.Select_pool_sound]. *)
Definition choose_source (e : Envelope) (s : SchedState) : str * str * SchedState :=
  match ssEgress s with
  | None => ([], [], s)
  | Some sel =>
      let '(src, sel') := Egress.select_source sel (eFrom e) (eDomain e) in
      let src := default Egress.noSource src in
      (Egress.srcBind src, Egress.srcHELO src, set_egress s (Some sel'))
  end.

Definition sender_domain (from : str) : str :=
  match Split from with Some (_, d) => d | None => [] end.

(** The pacing decision: how long to hold the message. *)
Definition reserve (e : Envelope) (bind : str) (s : SchedState) : option Z * SchedState :=
  match ssThrottle s with
  | None => (None, s)
  | Some t =>
      let now := match time_now (ssWorld s) with (Ok t, _) => t | (Err _, _) => 0 end in
      let s := io time_now s in
      let key := Pace.mkKey (eFrom e) (sender_domain (eFrom e)) bind (eDomain e) in
      let '(ok, wait, t') := Pace.Reserve t key now in
      (if ok : bool then None else Some wait, set_throttle s (Some t'))
  end.

(** Final disposition of an envelope that will not be delivered. *)
Definition bounce_out (e : Envelope) (reason : str) (s : SchedState) : SchedState :=
  let s := io (bounce e reason) (log (Bounced e reason) (countBounced s)) in
  io (RemoveEnvelope qdir e) s.

Definition attempt (e : Envelope) (now : Z) (s : SchedState) : SchedState :=
  let '(bind, helo, s) := choose_source e s in
  let '(held, s) := reserve e bind s in
  match held with
  | Some wait =>
      let e := set_next e (now + wait) in
      log (Paced e) (io (Update qdir e) s)
  | None =>
      match deliver now e bind helo with
      | None => io (RemoveEnvelope qdir e) (log (Delivered e) (countDelivered s))
      | Some (Permanent code msg) => bounce_out e (error_text (Permanent code msg)) s
      | Some err =>
          let e := failed_once e (error_text err) in
          if maxAttempts <=? eAttempts e then
            bounce_out e (#"giving up after " ++ dec (eAttempts e) ++ #" attempts; last error: "
                       ++ error_text err) s
          else
            let e := set_next e (now + backoff (eAttempts e)) in
            log (Deferred e) (countDeferred (io (Update qdir e) s))
      end
  end.

Definition Process (now : Z) (s : SchedState) : SchedState :=
  let due := match Due qdir now (ssWorld s) with
             | (Ok (due, _), _) => due
             | (Err _, _) => []
             end in
  fold_left (fun s e => attempt e now s) due (io (Due qdir now) s).
End Scheduler.

(** ** Bounces (bounce.go) *)

Definition maxOriginalHeaders : nat := Z.to_nat (8 * 1024).

Definition originalHeaders (data : str) : str :=
  let end_ := match index (CRLF ++ CRLF) data with Some i => i | None => length data end in
  let end_ := if Nat.ltb maxOriginalHeaders end_ then maxOriginalHeaders else end_ in
  take end_ data.

(** [date] is the current time in RFC 1123 form. *)
Definition BuildBounce (hostname date : str) (e : Envelope) (reason : str) : option str :=
  match eFrom e with
  | [] => None
  | from =>
      let boundary := #"verta-dsn-" ++ eID e in
      Some (
        #"From: Mail Delivery System <MAILER-DAEMON@" ++ hostname ++ #">" ++ CRLF ++
        #"To: <" ++ from ++ #">" ++ CRLF ++
        #"Subject: Undelivered Mail Returned to Sender" ++ CRLF ++
        #"Date: " ++ date ++ CRLF ++
        #"Auto-Submitted: auto-replied" ++ CRLF ++
        #"MIME-Version: 1.0" ++ CRLF ++
        #"Content-Type: multipart/report; report-type=delivery-status;" ++ CRLF ++
        [TAB] ++ #"boundary=" ++ [DQ] ++ boundary ++ [DQ] ++ CRLF ++ CRLF ++
        #"--" ++ boundary ++ CRLF ++ #"Content-Type: text/plain; charset=utf-8" ++ CRLF ++ CRLF ++
        #"This is the mail system at host " ++ hostname ++ #"." ++ CRLF ++ CRLF ++
        #"Your message could not be delivered to:" ++ CRLF ++ CRLF ++
        [TAB] ++ #"<" ++ eRcpt e ++ #">" ++ CRLF ++ CRLF ++
        #"Reason: " ++ reason ++ CRLF ++
        CRLF ++ #"--" ++ boundary ++ CRLF ++ #"Content-Type: message/delivery-status" ++ CRLF ++ CRLF ++
        #"Reporting-MTA: dns; " ++ hostname ++ CRLF ++ CRLF ++
        #"Final-Recipient: rfc822; " ++ eRcpt e ++ CRLF ++
        #"Action: failed" ++ CRLF ++
        #"Status: 5.0.0" ++ CRLF ++
        #"Diagnostic-Code: smtp; " ++ reason ++ CRLF ++
        CRLF ++ #"--" ++ boundary ++ CRLF ++ #"Content-Type: text/rfc822-headers" ++ CRLF ++ CRLF ++
        originalHeaders (eData e) ++
        CRLF ++ #"--" ++ boundary ++ #"--" ++ CRLF)
  end.
