(* ===== verification/QueueProps.v ===== *)
(** * What the queue guarantees

    Atomic writes, no lost message under any failure of the file system, the
    retry schedule, and the transport's verdict. *)

From S2P Require Import Prelude GoStrings GoOS StorageResolver Queue Scheduler.

(** ** The store *)

Definition json_file (q : path) : Prop := exists n, last q = Some n /\ has_suffix #".json" n = true.

Lemma tmp_not_json p : ~ json_file (append_ext p #".tmp").
Proof.
  intros (n & Hn & Hs). unfold append_ext in Hn.
  assert (exists m, n = m ++ #".tmp") as [m ->].
  { destruct (last p) as [m|]; [rewrite last_snoc in Hn; exists m; congruence|].
    exists []. injection Hn as <-. done. }
  apply has_suffix_spec in Hs as [t E].
  apply (f_equal (@rev _)) in E. rewrite !rev_app_distr in E. done.
Qed.

Section Store.
Context `{EnvelopeCodec} (qdir : path).

Lemma wp_write e w (Q : result error unit -> world -> Prop) :
  (forall err w', (forall q, q <> append_ext (queue_path qdir (eID e)) #".tmp" ->
     wFiles w' !! q = wFiles w !! q) -> Q (Err err) w') ->
  (forall b t w', marshal e = Some b -> wFiles w' !! queue_path qdir (eID e) = Some (mkFile b t) ->
     (forall q, q <> append_ext (queue_path qdir (eID e)) #".tmp" -> q <> queue_path qdir (eID e) ->
       wFiles w' !! q = wFiles w !! q) -> Q (Ok tt) w') ->
  wp (write qdir e) w Q.
Proof.
  intros He Ho. unfold write. destruct (marshal e) as [b|] eqn:Eb; [|by apply He].
  apply wp_replace_file; [exact He|]. intros t w' Hp Hq. by apply (Ho b t).
Qed.

(** Whatever fails, writing an envelope leaves its file either complete
    with the new contents, when it reports success, or exactly as it was; it
    changes no other file than the temporary one. *)
Theorem write_atomic e w :
  match write qdir e w with
  | (Ok _, w') =>
      fData <$> wFiles w' !! queue_path qdir (eID e) = marshal e /\ is_Some (marshal e) /\
      forall q, q <> append_ext (queue_path qdir (eID e)) #".tmp" -> q <> queue_path qdir (eID e) ->
        wFiles w' !! q = wFiles w !! q
  | (Err _, w') =>
      forall q, q <> append_ext (queue_path qdir (eID e)) #".tmp" -> wFiles w' !! q = wFiles w !! q
  end.
Proof.
  pose proof (wp_write e w (fun r w' => match r with
    | Ok _ => fData <$> wFiles w' !! queue_path qdir (eID e) = marshal e /\ is_Some (marshal e) /\
        forall q, q <> append_ext (queue_path qdir (eID e)) #".tmp" -> q <> queue_path qdir (eID e) ->
          wFiles w' !! q = wFiles w !! q
    | Err _ => forall q, q <> append_ext (queue_path qdir (eID e)) #".tmp" -> wFiles w' !! q = wFiles w !! q
    end)) as HW. unfold wp in HW. destruct (write qdir e w) as [[] w1]; cbn [fst snd] in HW;
    (apply HW; [done|]; intros b t w' Hb H1 H2; by rewrite H1, Hb).
Qed.

(** The files of the queue directory. *)
Definition queued (q : path) : Prop := json_file q /\ parent q = qdir.

(** Where a scanned envelope comes from. *)
Definition stored (w : world) (e : Envelope) : Prop :=
  exists q f, queued q /\ wFiles w !! q = Some f /\ unmarshal (fData f) = Some e.

(** A scan changes nothing. *)
Lemma wp_load_entries ents : forall w (Q : result error (list Envelope * list error) -> world -> Prop),
  (forall r w', wFiles w' = wFiles w ->
     (Forall (fun ent => plain (deName ent)) ents -> forall e, e ∈ r.1 -> stored w e) -> Q (Ok r) w') ->
  wp (load_entries qdir ents) w Q.
Proof.
  induction ents as [|ent ents IH]; intros w Q HQ; cbn [load_entries].
  { apply HQ; [done|]. by intros _ e ?%elem_of_nil. }
  apply wp_bind. unfold load_entry.
  assert (forall x w1, wFiles w1 = wFiles w ->
    (plain (deName ent) -> forall e, x = Some (Ok e) -> stored w e) ->
    wp (r ← load_entries qdir ents; let '(out, errs) := r in
        mret (match x with None => (out, errs) | Some (Ok e) => (e :: out, errs)
              | Some (Err err) => (out, err :: errs) end)) w1 Q) as Hk.
  { intros x w1 H1 Hx. apply wp_bind, IH. intros [out errs] w2 H2 Hout. apply (HQ _ w2); [by rewrite H2, H1|].
    intros [Hp Hps]%Forall_cons. specialize (Hout Hps). unfold stored in *. rewrite H1 in Hout.
    destruct x as [[e'|err]|]; cbn [fst]; [|done|done].
    intros e [->|He]%elem_of_cons; [by apply Hx|by apply Hout]. }
  destruct (has_suffix #".json" (deName ent)) eqn:Es.
  - apply wp_bind, wp_try, wp_ReadFile.
    + intros e w1 H1. by apply (Hk (Some (Err e))).
    + intros f w1 Hf H1. apply (Hk (Some _) w1 H1). intros Hp.
      intros e. destruct (unmarshal (fData f)) as [e'|] eqn:E; [|done]. intros [= <-].
      exists (join_path qdir (deName ent)), f. split; [|done]. rewrite join_plain by done.
      split; [|apply parent_snoc]. exists (deName ent). by rewrite last_snoc.
  - by apply (Hk None).
Qed.

Lemma wp_load w (Q : result error (list Envelope * list error) -> world -> Prop) :
  (forall r w', wFiles w' = wFiles w -> (wf_world w -> forall e, e ∈ r.1 -> stored w e) ->
     StronglySorted (fun a b => eCreated a <= eCreated b) r.1 -> Q (Ok r) w') ->
  wp (load qdir) w Q.
Proof.
  intros HQ. apply wp_bind, wp_try.
  assert (forall ents w1, wFiles w1 = wFiles w -> (wf_world w -> Forall (fun ent => plain (deName ent)) ents) ->
    wp (o ← load_entries qdir ents; let '(out, errs) := o in mret (sort_by eCreated out, errs)) w1 Q) as Hents.
  { intros ents w1 H1 Hp. apply wp_bind, wp_load_entries. intros [out errs] w2 H2 Hout.
    apply (HQ _ w2); cbn [fst].
    - by rewrite H2, H1.
    - intros Hwf e He. rewrite sort_by_perm in He. unfold stored. rewrite <- H1. by apply Hout; auto.
    - apply sort_by_sorted. }
  assert (wp (ReadDir qdir) w (fun r w' => wFiles w' = wFiles w /\
    match r with Ok ents => wf_world w -> Forall (fun ent => plain (deName ent)) ents | Err _ => True end)) as HR.
  { unfold wp. split; [apply (wp_ReadDir qdir w (fun _ w' => wFiles w' = wFiles w)); done|].
    destruct ((ReadDir qdir w).1) as [ents|] eqn:E; [|done]. intros Hwf.
    pose proof (wp_ReadDir_plain qdir w (fun r _ => match r with
      Ok ents => Forall (fun ent => plain (deName ent)) ents | Err _ => True end) Hwf) as HP.
    unfold wp in HP. rewrite E in HP. by apply HP. }
  eapply wp_mono; [exact HR|]. intros [ents|e] w1 [H1 Hp]; [by apply Hents|].
  apply (HQ _ w1); [done| |constructor]. by intros _ ? ?%elem_of_nil.
Qed.

Lemma wp_Due now w (Q : result error (list Envelope * list error) -> world -> Prop) :
  (forall r w', wFiles w' = wFiles w ->
     (forall e, e ∈ r.1 -> eNextAttempt e <= now) -> (wf_world w -> forall e, e ∈ r.1 -> stored w e) ->
     StronglySorted (fun a b => eCreated a <= eCreated b) r.1 -> Q (Ok r) w') ->
  wp (Due qdir now) w Q.
Proof.
  intros HQ. apply wp_bind, wp_load. intros [all errs] w1 H1 Hall HS.
  assert (forall e, e ∈ List.filter (fun e => eNextAttempt e <=? now) all -> e ∈ all /\ eNextAttempt e <= now) as Hin.
  { intros e He. apply list_elem_of_In, List.filter_In in He as [He Hle].
    apply list_elem_of_In in He. by apply Z.leb_le in Hle. }
  apply (HQ _ w1); cbn [fst] in *; [done|naive_solver|naive_solver|].
  clear -HS. induction HS as [|e l HS IH HF]; [constructor|]. simpl.
  destruct (_ <=? _); [|done]. constructor; [done|].
  rewrite Forall_forall in *. intros x Hx. apply HF.
  apply list_elem_of_In. apply list_elem_of_In, List.filter_In in Hx. by destruct Hx.
Qed.

(** What the scan reads in an entry. *)
Definition read_entry (w : world) (ent : dirent) : option Envelope :=
  if has_suffix #".json" (deName ent) then wFiles w !! join_path qdir (deName ent) ≫= fun f => unmarshal (fData f) else None.

Lemma read_json w ent e : read_entry w ent = Some e -> has_suffix #".json" (deName ent) = true.
Proof. unfold read_entry. by destruct (has_suffix #".json" (deName ent)). Qed.

Lemma load_entries_quiet w ents : wFaults w = [] ->
  exists errs, load_entries qdir ents w = (Ok (omap (read_entry w) ents, errs), w).
Proof.
  intros Hw. induction ents as [|ent ents [errs IH]]; [by exists []|]. cbn [load_entries omap list_omap].
  unfold read_entry at 1, load_entry at 1. destruct (has_suffix #".json" (deName ent)); cycle 1.
  { erewrite bind_ok by reflexivity. erewrite bind_ok by exact IH. by exists errs. }
  assert (ReadFile (join_path qdir (deName ent)) w
    = (match wFiles w !! join_path qdir (deName ent) with Some f => Ok (fData f) | None => Err ENOENT end, w)) as ER.
  { unfold ReadFile. rewrite syscall_ok by done. unfold mbind, M_bind, get_world. by destruct (wFiles w !! _). }
  erewrite bind_ok by (erewrite bind_ok by (apply try_eq, ER); reflexivity). erewrite bind_ok by exact IH.
  destruct (wFiles w !! join_path qdir (deName ent)) as [f|]; cbn [mbind option_bind].
  - destruct (unmarshal (fData f)); by eexists.
  - by eexists.
Qed.

Definition due_at (now : Z) (w : world) : list Envelope :=
  List.filter (fun e => eNextAttempt e <=? now)
    (sort_by eCreated (omap (read_entry w)
      (sort_slice (fun a b => str_ltb (deName a) (deName b)) (file_entries w qdir ++ dir_entries w qdir)))).

Lemma Due_quiet now w : wFaults w = [] /\ qdir ∈ wDirs w -> exists errs, Due qdir now w = (Ok (due_at now w, errs), w).
Proof.
  intros [Hw Hd]. destruct (load_entries_quiet w
    (sort_slice (fun a b => str_ltb (deName a) (deName b)) (file_entries w qdir ++ dir_entries w qdir)) Hw) as [errs E].
  set (ents := sort_slice _ _) in *.
  assert (load qdir w = (Ok (sort_by eCreated (omap (read_entry w) ents), errs), w)) as EL.
  { unfold load. erewrite bind_ok by (apply try_eq; rewrite (ReadDir_ok w qdir Hw); by rewrite decide_True).
    cbn beta iota. fold ents. by erewrite bind_ok by exact E. }
  exists errs. unfold Due. by erewrite bind_ok by exact EL.
Qed.

(** On a working disk the scan finds every envelope that is due. *)
Lemma due_at_complete now w e :
  wf_world w -> stored w e -> eNextAttempt e <= now -> e ∈ due_at now w.
Proof.
  intros Hwf (q & f & [(n & Hn & Hs) Hp] & Hf & Hu) Hle.
  apply last_Some in Hn as [d ->]. rewrite parent_snoc in Hp. subst d.
  assert (plain n) as Hpl.
  { destruct Hwf as [H1 _]. specialize (H1 _ (mk_is_Some _ _ Hf)). by apply Forall_app in H1 as [_ H1%Forall_inv]. }
  unfold due_at. apply list_elem_of_In, List.filter_In. split; [|by apply Z.leb_le].
  apply list_elem_of_In. rewrite sort_by_perm, sort_slice_perm. apply list_elem_of_omap.
  exists (mkDirent n (Some f)). split.
  - apply elem_of_app. left. apply elem_of_file_entries. by exists f.
  - unfold read_entry. cbn [deName]. rewrite Hs, join_plain, Hf by done. exact Hu.
Qed.
End Store.

(** ** The scheduler *)

Definition ev_env (ev : event) : Envelope :=
  match ev with Delivered e | Bounced e _ | Deferred e | Paced e => e end.
Definition ev_final (ev : event) : bool :=
  match ev with Delivered _ | Bounced _ _ => true | Deferred _ | Paced _ => false end.

Section Scheduler.
Context `{EnvelopeCodec} (qdir : path).
Context (deliver : Z -> Envelope -> str -> str -> option send_error).
Context (bounce : Envelope -> str -> M unit) (maxAttempts : Z).
(** The bounce is delivered to a mailbox, not into the queue. *)
Hypothesis bounce_frame : forall e r, frame (fun q => parent q <> qdir) (bounce e r).

Definition files (s : SchedState) : gmap path file := wFiles (ssWorld s).

Lemma time_now_files w : wFiles (time_now w).2 = wFiles w.
Proof. destruct (time_now_ok w) as (t & w' & -> & Hf & _). done. Qed.

Lemma choose_source_same e s :
  files (choose_source e s).2 = files s /\ ssLog (choose_source e s).2 = ssLog s.
Proof.
  unfold choose_source. destruct (ssEgress s) as [sel|]; [|done].
  by destruct (Egress.select_source sel (eFrom e) (eDomain e)).
Qed.

Lemma reserve_same e bind s :
  files (reserve e bind s).2 = files s /\ ssLog (reserve e bind s).2 = ssLog s.
Proof.
  unfold reserve. destruct (ssThrottle s) as [t|]; [|done]. cbv zeta.
  destruct (Pace.Reserve t _ _) as [[ok w] t']. split; [|done]. apply time_now_files.
Qed.

(** Updating an envelope: the queue keeps every file, and the file of the
    envelope is the old one or the new one. *)
Lemma Update_files e s q :
  json_file q ->
  files (io (Update qdir e) s) !! q = files s !! q \/
  (q = queue_path qdir (eID e) /\
     exists b t, marshal e = Some b /\ files (io (Update qdir e) s) !! q = Some (mkFile b t)).
Proof.
  intros Hq. unfold files, io. cbn [ssWorld set_world].
  assert (q <> append_ext (queue_path qdir (eID e)) #".tmp") as Hne
    by (intros ->; by apply (tmp_not_json (queue_path qdir (eID e)))).
  change (wp (Update qdir e) (ssWorld s) (fun _ w' => wFiles w' !! q = wFiles (ssWorld s) !! q \/
    (q = queue_path qdir (eID e) /\ exists b t, marshal e = Some b /\ wFiles w' !! q = Some (mkFile b t)))).
  apply wp_write.
  - intros err w' Hw. left. by apply Hw.
  - intros b t w' Hb Hp Hw. destruct (decide (q = queue_path qdir (eID e))) as [->|Hn].
    + right. eauto.
    + left. by apply Hw.
Qed.

Lemma Remove_files e s q :
  files (io (RemoveEnvelope qdir e) s) !! q = files s !! q \/
  (q = queue_path qdir (eID e) /\ files (io (RemoveEnvelope qdir e) s) !! q = None).
Proof.
  unfold files, io. cbn [ssWorld set_world].
  change (wp (RemoveEnvelope qdir e) (ssWorld s) (fun _ w' => wFiles w' !! q = wFiles (ssWorld s) !! q \/
    (q = queue_path qdir (eID e) /\ wFiles w' !! q = None))).
  apply wp_Remove.
  - intros err w' ->. by left.
  - intros w' ->. destruct (decide (queue_path qdir (eID e) = q)) as [->|Hne].
    + right. by rewrite lookup_delete_eq.
    + left. by apply lookup_delete_ne.
Qed.

Lemma bounce_files e r s q : parent q = qdir -> files (io (bounce e r) s) !! q = files s !! q.
Proof. intros Hq. unfold files, io. cbn [ssWorld set_world]. apply bounce_frame. by intros Hn. Qed.

(** One attempt logs one event of its envelope and touches the file of no
    other; the file is removed only when the event is final, and otherwise
    left alone or replaced by the envelope of the event. *)
Lemma attempt_effect e now s :
  exists ev, ssLog (attempt qdir deliver bounce maxAttempts e now s) = ssLog s ++ [ev] /\
    eID (ev_env ev) = eID e /\
    (ev_final ev = false -> eAttempts (ev_env ev) = eAttempts e \/
       (eAttempts (ev_env ev) = eAttempts e + 1 /\ eAttempts e + 1 < maxAttempts)) /\
    forall q, queued qdir q ->
      files (attempt qdir deliver bounce maxAttempts e now s) !! q = files s !! q \/
      (q = queue_path qdir (eID e) /\
        ((ev_final ev = true /\ files (attempt qdir deliver bounce maxAttempts e now s) !! q = None) \/
         (ev_final ev = false /\ exists b t, marshal (ev_env ev) = Some b /\
           files (attempt qdir deliver bounce maxAttempts e now s) !! q = Some (mkFile b t)))).
Proof.
  unfold attempt. destruct (choose_source_same e s) as [Hf1 Hl1].
  destruct (choose_source e s) as [[bind helo] s1]. cbn [snd] in Hf1, Hl1.
  destruct (reserve_same e bind s1) as [Hf2 Hl2].
  destruct (reserve e bind s1) as [held s2]. cbn [snd] in Hf2, Hl2. rewrite Hf1 in Hf2. rewrite Hl1 in Hl2.
  assert (forall e' r s3, eID e' = eID e -> ssLog s3 = ssLog s -> files s3 = files s ->
    exists ev, ssLog (bounce_out qdir bounce e' r s3) = ssLog s ++ [ev] /\ eID (ev_env ev) = eID e /\
      (ev_final ev = false -> eAttempts (ev_env ev) = eAttempts e \/
         (eAttempts (ev_env ev) = eAttempts e + 1 /\ eAttempts e + 1 < maxAttempts)) /\
      forall q, queued qdir q -> files (bounce_out qdir bounce e' r s3) !! q = files s !! q \/
        (q = queue_path qdir (eID e) /\
          ((ev_final ev = true /\ files (bounce_out qdir bounce e' r s3) !! q = None) \/
          (ev_final ev = false /\ exists b t, marshal (ev_env ev) = Some b /\
            files (bounce_out qdir bounce e' r s3) !! q = Some (mkFile b t))))) as Hgive.
  { intros e' r s3 He' Hl3 Hf3. exists (Bounced e' r). unfold bounce_out.
    split; [by rewrite <- Hl3|]. split; [done|]. split; [done|]. intros q [Hj Hp].
    set (s4 := io (bounce e' r) _).
    assert (files s4 !! q = files s !! q) as H4 by (unfold s4; rewrite bounce_files by done; by rewrite <- Hf3).
    destruct (Remove_files e' s4 q) as [E|[E1 E2]]; [left; by rewrite E|].
    right. split; [by rewrite <- He'|]. by left. }
  destruct held as [wait|].
  { exists (Paced (set_next e (now + wait))). split; [by rewrite <- Hl2|]. split; [done|].
    split; [by left|]. intros q [Hj Hp].
    destruct (Update_files (set_next e (now + wait)) s2 q Hj) as [Hu|[-> (b & t & Hb & Hu)]].
    - left. by rewrite <- Hf2.
    - right. split; [done|]. right. split; [done|]. eauto. }
  destruct (deliver now e bind helo) as [err|].
  - destruct err as [code msg|text]; [by apply Hgive|].
    destruct (Z.leb_spec maxAttempts (eAttempts (failed_once e (error_text (Transient text)))));
      [by apply Hgive|].
    set (e' := set_next _ _). exists (Deferred e'). split; [by rewrite <- Hl2|]. split; [done|].
    split; [right; simpl in *; lia|]. intros q [Hj Hp].
    destruct (Update_files e' s2 q Hj) as [Hu|[-> (b & t & Hb & Hu)]].
    + left. by rewrite <- Hf2.
    + right. split; [done|]. right. split; [done|]. eauto.
  - exists (Delivered e). split; [by rewrite <- Hl2|]. split; [done|]. split; [done|]. intros q [Hj Hp].
    set (s4 := log _ _). assert (files s4 = files s) as H4 by (by rewrite <- Hf2).
    destruct (Remove_files e s4 q) as [E|[E1 E2]]; [left; by rewrite E, H4|].
    right. split; [done|]. by left.
Qed.

(** What may become of an envelope that is attempted. *)
Definition definitive (err : send_error) : bool := match err with Permanent _ _ => true | Transient _ => false end.

Inductive fate (now : Z) (e : Envelope) (s s' : SchedState) : Prop :=
| fate_delivered bind helo :
    deliver now e bind helo = None -> ssLog s' = ssLog s ++ [Delivered e] -> fate now e s s'
| fate_bounced bind helo err e' reason s1 :
    deliver now e bind helo = Some err -> definitive err = true \/ maxAttempts <= eAttempts e + 1 ->
    e' = e \/ e' = failed_once e (error_text err) -> ssLog s' = ssLog s ++ [Bounced e' reason] ->
    files s1 = files s -> ssWorld s' = (RemoveEnvelope qdir e' (bounce e' reason (ssWorld s1)).2).2 ->
    fate now e s s'
| fate_deferred bind helo err e' :
    deliver now e bind helo = Some err -> definitive err = false -> eAttempts e + 1 < maxAttempts ->
    eID e' = eID e -> ssLog s' = ssLog s ++ [Deferred e'] ->
    (forall q, queued qdir q -> is_Some (files s !! q) -> is_Some (files s' !! q)) -> fate now e s s'
| fate_paced e' :
    ssThrottle s <> None -> eID e' = eID e -> ssLog s' = ssLog s ++ [Paced e'] ->
    (forall q, queued qdir q -> is_Some (files s !! q) -> is_Some (files s' !! q)) -> fate now e s s'.

(** One attempt, and no other file of the queue is touched. *)
Definition outcome (now : Z) (e : Envelope) (s s' : SchedState) : Prop :=
  fate now e s s' /\ forall q, queued qdir q -> q <> queue_path qdir (eID e) -> files s' !! q = files s !! q.

Lemma choose_source_throttle e s : ssThrottle (choose_source e s).2 = ssThrottle s.
Proof. unfold choose_source. destruct (ssEgress s) as [sel|]; [|done]. by destruct (Egress.select_source _ _ _). Qed.

Lemma reserve_held e bind s wait : (reserve e bind s).1 = Some wait -> ssThrottle s <> None.
Proof. unfold reserve. by destruct (ssThrottle s). Qed.

(** An update keeps the files of the queue. *)
Lemma Update_keeps e s q : queued qdir q -> is_Some (files s !! q) -> is_Some (files (io (Update qdir e) s) !! q).
Proof. intros [Hj _] Hs. destruct (Update_files e s q Hj) as [->|[_ (b & t & _ & ->)]]; [done|by eexists]. Qed.

Lemma attempt_fate e now s : fate now e s (attempt qdir deliver bounce maxAttempts e now s).
Proof.
  unfold attempt. destruct (choose_source_same e s) as [Hf1 Hl1]. pose proof (choose_source_throttle e s) as Ht1.
  destruct (choose_source e s) as [[bind helo] s1]. cbn [snd] in Hf1, Hl1, Ht1.
  destruct (reserve_same e bind s1) as [Hf2 Hl2]. pose proof (reserve_held e bind s1) as Hr.
  destruct (reserve e bind s1) as [held s2]. cbn [fst snd] in Hf2, Hl2, Hr. rewrite Hf1 in Hf2. rewrite Hl1 in Hl2.
  destruct held as [wait|].
  { apply (fate_paced _ _ _ _ (set_next e (now + wait))); [rewrite <- Ht1; by eapply Hr|done|cbn; by rewrite Hl2|].
    intros q Hq Hs. change (is_Some (files (io (Update qdir (set_next e (now + wait))) s2) !! q)).
    apply Update_keeps; [done|by rewrite Hf2]. }
  assert (forall err e' r, deliver now e bind helo = Some err ->
    definitive err = true \/ maxAttempts <= eAttempts e + 1 -> e' = e \/ e' = failed_once e (error_text err) ->
    fate now e s (bounce_out qdir bounce e' r s2)) as Hb.
  { intros err e' r Hd Hdef He'. apply (fate_bounced _ _ _ _ bind helo err e' r s2); try done. cbn. by rewrite Hl2. }
  destruct (deliver now e bind helo) as [err|] eqn:Ed.
  - destruct err as [code msg|text]; [by apply (Hb (Permanent code msg)); [|left|left]|].
    cbn [eAttempts failed_once]. destruct (Z.leb_spec maxAttempts (eAttempts e + 1)); [by apply (Hb (Transient text)); [|right|right]|].
    set (e' := set_next _ _). apply (fate_deferred _ _ _ _ bind helo (Transient text) e'); [done|done|done|done|cbn; by rewrite Hl2|].
    intros q Hq Hs. change (is_Some (files (io (Update qdir e') s2) !! q)). apply Update_keeps; [done|by rewrite Hf2].
  - apply (fate_delivered _ _ _ _ bind helo); [done|]. cbn. by rewrite Hl2.
Qed.

Lemma attempt_outcome e now s : outcome now e s (attempt qdir deliver bounce maxAttempts e now s).
Proof.
  split; [apply attempt_fate|]. intros q Hq Hne.
  destruct (attempt_effect e now s) as (ev & _ & _ & _ & HF). destruct (HF q Hq) as [|[? _]]; done.
Qed.

(** Attempts one after the other. *)
Inductive in_turn (now : Z) : list Envelope -> SchedState -> SchedState -> Prop :=
| turn_nil s : in_turn now [] s s
| turn_cons e l s s1 s2 : outcome now e s s1 -> in_turn now l s1 s2 -> in_turn now (e :: l) s s2.

Lemma attempts_in_turn now due : forall s,
  in_turn now due s (fold_left (fun s e => attempt qdir deliver bounce maxAttempts e now s) due s).
Proof.
  induction due as [|e due IH]; intros s; [constructor|]. cbn [fold_left].
  by apply turn_cons with (s1 := attempt qdir deliver bounce maxAttempts e now s); [apply attempt_outcome|].
Qed.

(** An attempt either keeps an envelope file or ends its envelope. *)
Lemma outcome_keeps now e s s' q : outcome now e s s' -> queued qdir q -> is_Some (files s !! q) ->
  (is_Some (files s' !! q) \/
   (exists ev, ssLog s' = ssLog s ++ [ev] /\ ev_final ev = true /\ queue_path qdir (eID (ev_env ev)) = q)) /\
  exists evs, ssLog s' = ssLog s ++ evs.
Proof.
  intros [Hf Ho] Hq Hs. destruct (decide (q = queue_path qdir (eID e))) as [->|Hne].
  2: { split; [left; by rewrite Ho|]. destruct Hf; by eexists. }
  destruct Hf as [bind helo Hd Hl|bind helo err e' reason s1 Hd Hdef He Hl _ _|bind helo err e' _ _ _ _ Hl Hk|e' _ _ Hl Hk];
    (split; [|by eexists]); [right|right|left; by apply Hk|left; by apply Hk].
  - by exists (Delivered e).
  - exists (Bounced e' reason). split; [done|]. split; [done|]. by destruct He as [->| ->].
Qed.

Lemma in_turn_keeps now due s s' q : in_turn now due s s' -> queued qdir q -> is_Some (files s !! q) ->
  exists evs, ssLog s' = ssLog s ++ evs /\
    (is_Some (files s' !! q) \/
     exists ev, ev ∈ evs /\ ev_final ev = true /\ queue_path qdir (eID (ev_env ev)) = q).
Proof.
  induction 1 as [s|e l s s1 s2 Ho Hl IH]; intros Hq Hs.
  { exists []. rewrite app_nil_r. by split; [|left]. }
  destruct (outcome_keeps now e s s1 q Ho Hq Hs) as [Hk [ev1 E1]].
  destruct Hk as [Hk|(ev & E & Hfin & Hp)].
  - destruct (IH Hq Hk) as (evs & E2 & H2). exists (ev1 ++ evs). rewrite E2, E1, app_assoc. split; [done|].
    destruct H2 as [|(ev & Hin & ?)]; [by left|right]. exists ev. split; [apply elem_of_app; by right|done].
  - assert (exists evs, ssLog s2 = ssLog s1 ++ evs) as [evs E2].
    { clear -Hl. induction Hl as [s|e l s s1 s2 [Hf _] _ [evs IH]]; [exists []; by rewrite app_nil_r|].
      rewrite IH. destruct Hf as [? ? ? ->|? ? ? ? ? ? ? ? ? -> ? ?|? ? ? ? ? ? ? ? -> ?|? ? ? -> ?];
        rewrite <- app_assoc; by eexists. }
    exists (ev :: evs). rewrite E2, E, <- app_assoc. split; [done|]. right. exists ev. split; [by left|done].
Qed.

(** C21. No message is lost.  A pass of the scheduler attempts envelopes of the
    queue that are due, oldest first, and on a working disk all of them;
    whatever calls fail, an attempt ends in one of four ways: the transport
    said that the envelope was delivered; the transport refused it for good,
    or for the last time allowed, and the bounce was called with it before its
    file was removed; it was put off, or held back by pacing, and then its
    file is still there.  No attempt touches the file of another envelope, so
    after the pass every envelope file of the queue is still there, or the log
    says that its envelope was delivered or bounced. *)
Theorem Process_no_loss now s :
  wf_world (ssWorld s) ->
  exists due s0,
    files s0 = files s /\ ssLog s0 = ssLog s /\
    in_turn now due s0 (Process qdir deliver bounce maxAttempts now s) /\
    StronglySorted (fun a b => eCreated a <= eCreated b) due /\
    (forall e, e ∈ due -> stored qdir (ssWorld s) e /\ eNextAttempt e <= now) /\
    (wFaults (ssWorld s) = [] -> qdir ∈ wDirs (ssWorld s) ->
     forall e, stored qdir (ssWorld s) e -> eNextAttempt e <= now -> e ∈ due) /\
    forall q, queued qdir q -> is_Some (files s !! q) ->
      is_Some (files (Process qdir deliver bounce maxAttempts now s) !! q) \/
      exists ev, ev ∈ ssLog (Process qdir deliver bounce maxAttempts now s) /\ ev_final ev = true /\
        queue_path qdir (eID (ev_env ev)) = q.
Proof.
  intros Hwf. unfold Process.
  assert (exists r w', Due qdir now (ssWorld s) = (Ok r, w') /\ wFiles w' = wFiles (ssWorld s) /\
    (forall e, e ∈ r.1 -> stored qdir (ssWorld s) e /\ eNextAttempt e <= now) /\
    StronglySorted (fun a b => eCreated a <= eCreated b) r.1) as ([due errs] & w' & HD & Hf & Hst & HS).
  { pose proof (wp_Due qdir now (ssWorld s) (fun r w' => exists r', r = Ok r' /\
      wFiles w' = wFiles (ssWorld s) /\ (forall e, e ∈ r'.1 -> stored qdir (ssWorld s) e /\ eNextAttempt e <= now) /\
      StronglySorted (fun a b => eCreated a <= eCreated b) r'.1)) as HW.
    unfold wp in HW. destruct (Due qdir now (ssWorld s)) as [r w1]. cbn [fst snd] in HW.
    destruct HW as (r' & -> & ?); [|by eexists _, _]. intros r' w' Hw He Hst HS. exists r'. by split_and!; auto. }
  unfold io. rewrite HD. cbn [fst snd] in *. exists due, (set_world s w').
  assert (files (set_world s w') = files s) as Hfs by exact Hf.
  pose proof (attempts_in_turn now due (set_world s w')) as Hrun. split_and!; try done.
  - intros Hw Hd e He Hle. destruct (Due_quiet qdir now (ssWorld s) (conj Hw Hd)) as [errs' E].
    rewrite E in HD. injection HD as <- _ _. by apply due_at_complete.
  - intros q Hq Hs. rewrite <- Hfs in Hs. destruct (in_turn_keeps now due _ _ q Hrun Hq Hs) as (evs & E & [|(ev & Hin & ?)]);
      [by left|right]. exists ev. split; [rewrite E; apply elem_of_app; by right|done].
Qed.

(** Every readable envelope of the queue has been tried less than the
    allowed number of times. *)
Definition bounded (fs : gmap path file) : Prop :=
  forall q f e, queued qdir q -> fs !! q = Some f -> unmarshal (fData f) = Some e -> eAttempts e < maxAttempts.

Section Bounded.
Context `{!LawfulCodec}.

Lemma attempt_bounded e now s :
  eAttempts e < maxAttempts -> bounded (files s) ->
  bounded (files (attempt qdir deliver bounce maxAttempts e now s)).
Proof.
  intros He Hb q f e' Hq Hf Hu.
  destruct (attempt_effect e now s) as (ev & _ & _ & Hatt & Hfiles).
  destruct (Hfiles q Hq) as [E|[-> [[_ E]|(Hfin & b & t & Hm & E)]]].
  - rewrite E in Hf. by eapply Hb.
  - congruence.
  - rewrite E in Hf. injection Hf as <-. cbn [fData] in Hu.
    rewrite (unmarshal_marshal _ _ Hm) in Hu. injection Hu as <-. cbn [eAttempts clean_envelope].
    destruct (Hatt Hfin) as [->|[-> ?]]; lia.
Qed.

(** The retry count is capped: a pass of the scheduler keeps every
    envelope of the queue below [maxAttempts] attempts, so a transiently
    failing message is given up after at most [maxAttempts] tries. *)
Theorem Process_bounded now s :
  wf_world (ssWorld s) -> bounded (files s) ->
  bounded (files (Process qdir deliver bounce maxAttempts now s)).
Proof.
  intros Hwf Hb. unfold Process.
  assert (exists r w', Due qdir now (ssWorld s) = (Ok r, w') /\ wFiles w' = wFiles (ssWorld s) /\
    (forall e, e ∈ r.1 -> eAttempts e < maxAttempts)) as ([due errs] & w' & HD & Hf & He).
  { pose proof (wp_Due qdir now (ssWorld s) (fun r w' => exists r', r = Ok r' /\
      wFiles w' = wFiles (ssWorld s) /\ (forall e, e ∈ r'.1 -> eAttempts e < maxAttempts))) as HW.
    unfold wp in HW. destruct (Due qdir now (ssWorld s)) as [r w1]. cbn [fst snd] in HW.
    destruct HW as (r' & -> & ?); [|by eexists _, _]. intros r' w' Hw _ He HS. exists r'.
    split_and!; try done. intros e Hin. apply He in Hin as (q & f & Hq & Hf & Hu); [|done]. by eapply Hb. }
  unfold io. rewrite HD. cbn [fst snd] in *. clear HD.
  assert (bounded (files (set_world s w'))) as Hb' by (unfold files; cbn [ssWorld set_world]; by rewrite Hf).
  revert Hb'. generalize (set_world s w'). induction due as [|e due IH]; intros s0 Hs0; [done|].
  cbn [fold_left]. apply IH; [set_solver|]. apply attempt_bounded; [set_solver|done].
Qed.
End Bounded.
End Scheduler.

(** ** The retry schedule *)

(** The delay before attempt [n + 1] is 1, 2, 4, 8, ... minutes and never
    more than 4 hours; it never decreases. *)
Theorem backoff_schedule n :
  1 <= n ->
  backoff n = Z.min (minute * 2 ^ (n - 1)) (4 * hour) /\
  minute <= backoff n <= 4 * hour /\ backoff n <= backoff (n + 1).
Proof.
  assert (forall n, 1 <= n -> backoff n = Z.min (minute * 2 ^ (n - 1)) (4 * hour)) as Hspec.
  { clear. intros n Hn. unfold backoff. destruct (Z.ltb_spec 9 n) as [H|H].
    - assert (2 ^ 8 <= 2 ^ (n - 1)) by (apply Z.pow_le_mono_r; lia).
      change (Z.shiftl minute (9 - 1)) with (minute * 2 ^ 8). change (2 ^ 8) with 256 in *.
      unfold minute, hour, minute, second in *. simpl (10 ^ 9) in *.
      match goal with |- context [?x <? ?y] => destruct (Z.ltb_spec x y) end; lia.
    - rewrite Z.shiftl_mul_pow2 by lia. match goal with |- context [?x <? ?y] => destruct (Z.ltb_spec x y) end; lia. }
  intros Hn. rewrite (Hspec n), (Hspec (n + 1)) by lia.
  assert (2 ^ 0 <= 2 ^ (n - 1)) by (apply Z.pow_le_mono_r; lia).
  replace (n + 1 - 1) with (Z.succ (n - 1)) by lia. rewrite Z.pow_succ_r by lia.
  change (2 ^ 0) with 1 in *. unfold hour, minute, second in *. simpl (10 ^ 9) in *. lia.
Qed.

Example backoff_schedule_witness : backoff 9 = 4 * hour /\ backoff 9 <= backoff 10.
Proof.
  destruct (backoff_schedule 9 ltac:(lia)) as (E & _ & H). split; [|exact H].
  rewrite E. by vm_compute.
Defined.

(** ** The transport *)

Section Transport.
Context (hostname : str) (valid_ip : str -> bool) (lookup_mx : str -> option (list (Z * str))).
Context (remote : str -> option str -> str -> Envelope -> dialogue).

Abbreviation send := (trySend hostname valid_ip remote).

Definition transient (r : option send_error) : Prop := exists t, r = Some (Transient t).

(** The transport asks the MX hosts in order of preference and stops at
    the first definitive answer: it reports success exactly if some host
    accepts after all hosts before it failed transiently, a permanent failure
    exactly if some host refuses so, and a transient failure if no host gave
    a definitive answer. *)
Theorem TransportDeliver_first e bind helo :
  let hosts := mxHosts lookup_mx (eDomain e) in
  let r := TransportDeliver hostname valid_ip lookup_mx remote e bind helo in
  (forall a, r = a -> ~ transient a ->
     exists before h after, hosts = before ++ h :: after /\ send h e bind helo = a /\
       Forall (fun h => transient (send h e bind helo)) before) /\
  (transient r <-> Forall (fun h => transient (send h e bind helo)) hosts).
Proof.
  cbv zeta. unfold TransportDeliver. generalize (#"no MX hosts for " ++ eDomain e).
  induction (mxHosts lookup_mx (eDomain e)) as [|h hosts IH]; intros t; cbn [deliver_hosts].
  { split; [intros a <- []; by exists t|]. split; [constructor|by exists t]. }
  destruct (send h e bind helo) as [[code msg|t']|] eqn:E.
  - split.
    + intros a <- _. by exists [], h, hosts.
    + split; [by intros [? [=]]|]. intros HF%Forall_inv. rewrite E in HF. by destruct HF as [? [=]].
  - destruct (IH t') as [IH1 IH2]. split.
    + intros a Ha Hn. destruct (IH1 a Ha Hn) as (b & h' & c & -> & Hs & HF).
      exists (h :: b), h', c. split; [done|]. split; [done|]. constructor; [by exists t'|done].
    + rewrite IH2, Forall_cons. split; [intros HF; split; [by exists t'|done]|by intros [_ ?]].
  - split.
    + intros a <- _. by exists [], h, hosts.
    + split; [by intros [? [=]]|]. intros HF%Forall_inv. rewrite E in HF. by destruct HF as [? [=]].
Qed.

(** The peer has taken responsibility for the message. *)
Definition accepted (d : dialogue) : Prop :=
  dlgDial d = None /\ first_error [dlgGreeting d; dlgHello d; default None (dlgTLS d); dlgMail d;
    dlgRcpt d; dlgData d; dlgWrite d; dlgClose d] = None.

(** A transaction the peer accepted is reported as a transient failure, and
    so sent again, when only the QUIT that follows it fails. *)
Lemma quit_failure_resends host e bind helo :
  let d := remote host (match bind with [] => None | _ => if valid_ip bind then Some bind else None end)
             (match helo with [] => hostname | _ => helo end) e in
  accepted d -> dlgQuit d <> None -> transient (send host e bind helo).
Proof.
  cbv zeta. intros [Hd Hf] Hq. unfold trySend. rewrite Hd, Hf.
  destruct (dlgQuit _) as [err|]; [|done]. by exists (net_text err).
Qed.
End Transport.

(** ** Bounces *)

Lemma has_prefix_take p s n : has_prefix p (take n s) = true -> has_prefix p s = true.
Proof.
  intros [t E]%has_prefix_spec. apply has_prefix_spec. exists (t ++ drop n s).
  by rewrite app_assoc, <- E, take_drop.
Qed.

Lemma index_None_take pat s n : index pat s = None -> index pat (take n s) = None.
Proof.
  revert n. induction s as [|x s IH]; intros n H; [by rewrite take_nil|].
  cbn [index] in H. destruct (has_prefix pat (x :: s)) eqn:E; [done|].
  destruct (index pat s) eqn:Ei; [done|]. destruct n as [|n].
  - cbn [take index]. destruct (has_prefix pat []) eqn:En; [|done].
    by destruct pat.
  - cbn [take index]. rewrite IH by done.
    destruct (has_prefix pat (x :: take n s)) eqn:E'; [|done].
    by rewrite (has_prefix_take pat (x :: s) (S n)) in E.
Qed.

Lemma index_take_before pat s i : pat <> [] -> index pat s = Some i -> index pat (take i s) = None.
Proof.
  intros Hp. revert i. induction s as [|x s IH]; intros i H; cbn [index] in H.
  - destruct (has_prefix pat []); [|done]. injection H as <-. by destruct pat.
  - destruct (has_prefix pat (x :: s)) eqn:E; [injection H as <-; by destruct pat|].
    destruct (index pat s) as [j|] eqn:Ej; [|done]. injection H as <-. cbn [take index].
    rewrite (IH j eq_refl). destruct (has_prefix pat (x :: take j s)) eqn:E'; [|done].
    by rewrite (has_prefix_take pat (x :: s) (S j)) in E.
Qed.

(** A notification is never bounced, every other message is; and the
    bounce carries back a prefix of the header block of the message, without
    the body, of 8 KiB at most. *)
Theorem bounce_contents hostname date e reason :
  (BuildBounce hostname date e reason = None <-> eFrom e = []) /\
  originalHeaders (eData e) `prefix_of` eData e /\
  (length (originalHeaders (eData e)) <= maxOriginalHeaders)%nat /\
  index (CRLF ++ CRLF) (originalHeaders (eData e)) = None.
Proof.
  split; [|split; [|split]].
  - unfold BuildBounce. by destruct (eFrom e).
  - unfold originalHeaders. eexists. symmetry. apply take_drop.
  - unfold originalHeaders. rewrite length_take.
    match goal with |- context [Nat.ltb ?a ?b] => destruct (Nat.ltb_spec a b) end; lia.
  - unfold originalHeaders. destruct (index (CRLF ++ CRLF) (eData e)) as [i|] eqn:E.
    + destruct (Nat.ltb_spec maxOriginalHeaders i); [|by apply index_take_before].
      replace maxOriginalHeaders with (Nat.min maxOriginalHeaders i) by lia.
      rewrite <- take_take. by apply index_None_take, index_take_before.
    + by apply index_None_take.
Qed.

(** ** Enqueue *)

Section Enqueue.
Context `{LawfulCodec} (qdir : path).

Lemma load_entries_ok ents w :
  wFaults w = [] ->
  exists out errs, load_entries qdir ents w = (Ok (out, errs), w) /\
    forall ent f e, ent ∈ ents -> has_suffix #".json" (deName ent) = true ->
      wFiles w !! join_path qdir (deName ent) = Some f -> unmarshal (fData f) = Some e -> e ∈ out.
Proof.
  intros Hw. induction ents as [|ent ents (out & errs & E & Hin)].
  { exists [], []. split; [done|]. by intros ? ? ? ?%elem_of_nil. }
  cbn [load_entries]. unfold load_entry at 1.
  destruct (has_suffix #".json" (deName ent)) eqn:Es; cycle 1.
  { erewrite bind_ok by reflexivity. erewrite bind_ok by exact E. exists out, errs. split; [done|].
    intros ent' f e [->|Hent]%elem_of_cons Hs; [congruence|]. by apply Hin. }
  assert (ReadFile (join_path qdir (deName ent)) w
    = (match wFiles w !! join_path qdir (deName ent) with Some f => Ok (fData f) | None => Err ENOENT end, w))
    as ER.
  { unfold ReadFile. rewrite syscall_ok by done. unfold mbind, M_bind, get_world.
    by destruct (wFiles w !! _). }
  erewrite bind_ok by (erewrite bind_ok by (apply try_eq, ER); reflexivity).
  erewrite bind_ok by exact E.
  destruct (wFiles w !! join_path qdir (deName ent)) as [f|] eqn:Ef.
  - destruct (unmarshal (fData f)) as [e|] eqn:Eu.
    + exists (e :: out), errs. split; [done|].
      intros ent' f' e' [->|Hent]%elem_of_cons Hs Hf Hu; [|right; by eapply Hin].
      assert (e' = e) as -> by congruence. by left.
    + exists out, (ErrText (deName ent) :: errs). split; [done|].
      intros ent' f' e' [->|Hent]%elem_of_cons Hs Hf Hu; [congruence|by eapply Hin].
  - exists out, (ENOENT :: errs). split; [done|].
    intros ent' f' e' [->|Hent]%elem_of_cons Hs Hf Hu; [congruence|by eapply Hin].
Qed.

Lemma Due_complete now name w f e :
  wFaults w = [] -> qdir ∈ wDirs w -> plain name -> has_suffix #".json" name = true ->
  wFiles w !! (qdir ++ [name]) = Some f -> unmarshal (fData f) = Some e -> eNextAttempt e <= now ->
  exists due errs, Due qdir now w = (Ok (due, errs), w) /\ e ∈ due.
Proof.
  intros Hw Hd Hp Hs Hf Hu Hn.
  set (ents := sort_slice (fun a b => str_ltb (deName a) (deName b)) (file_entries w qdir ++ dir_entries w qdir)).
  destruct (load_entries_ok ents w Hw) as (out & errs & E & Hin).
  assert (e ∈ out) as He.
  { apply (Hin (mkDirent name (Some f)) f e); try done.
    - unfold ents. rewrite elem_of_sort_slice. apply elem_of_app. left. apply elem_of_file_entries.
      by exists f.
    - cbn [deName]. by rewrite join_plain. }
  exists (List.filter (fun e => eNextAttempt e <=? now) (sort_by eCreated out)), errs.
  assert (load qdir w = (Ok (sort_by eCreated out, errs), w)) as EL.
  { unfold load. erewrite bind_ok; cycle 1.
    { apply try_eq. rewrite (ReadDir_ok w qdir Hw). by rewrite decide_True. }
    cbn beta iota. fold ents. erewrite bind_ok by exact E. done. }
  split; [unfold Due; by erewrite bind_ok by exact EL|].
  apply list_elem_of_In, List.filter_In. split; [|by apply Z.leb_le].
  apply list_elem_of_In. by rewrite sort_by_perm.
Qed.

Lemma newID_plain now w :
  exists id w', newID now w = (Ok id, w') /\ same_disk w w' /\ wNow w' = wNow w /\
    plain (id ++ #".json").
Proof.
  unfold newID, mbind, M_bind, rand_uint32.
  destruct (match wRand w with [] => (0, []) | d :: r => (u32 d, r) end) as [d r].
  eexists _, _. split; [reflexivity|]. split; [done|]. split; [done|]. apply plain_app.
  - rewrite !not_elem_of_app. split_and!; [apply slash_dec|by apply index_byte_None|apply slash_hex].
  - by apply index_byte_None.
  - rewrite !length_app. change (length #".json") with 5%nat. lia.
Qed.

(** A message that is queued is found by the scheduler: on a working
    file system [Enqueue] of a valid recipient succeeds, and from then on the
    scan for due envelopes returns it, addressed, untried and with the bytes
    it was given. *)
Theorem Enqueue_Due from rcpt data w local domain now :
  wFaults w = [] -> qdir ∈ wDirs w -> Split rcpt = Some (local, domain) ->
  in_years (wNow (time_now w).2) -> wNow (time_now w).2 <= now ->
  exists id w' due errs,
    Enqueue qdir from rcpt data w = (Ok tt, w') /\ Due qdir now w' = (Ok (due, errs), w') /\
    let t := wNow (time_now w).2 in
    clean_envelope clean (mkEnvelope id (to_lower from) (to_lower rcpt) domain 0 t t [] data) ∈ due.
Proof.
  intros Hw Hd Hs Hy Hn. unfold Enqueue. rewrite Hs.
  destruct (time_now_ok w) as (t & w1 & E1 & Hf1 & Hd1 & Hx1).
  assert (wNow (time_now w).2 = t) as Et.
  { unfold time_now in *. destruct (match wTicks w with [] => (0, []) | d :: r => (d, r) end).
    by injection E1 as <- <-. }
  rewrite Et in *. erewrite bind_ok by exact E1.
  destruct (newID_plain t w1) as (id & w2 & E2 & (Hf2 & Hd2 & Hx2) & _ & Hp).
  erewrite bind_ok by exact E2. unfold write. set (e := mkEnvelope id _ _ _ _ _ _ _ _).
  destruct (marshal_total e Hy Hy) as [b Hb]. rewrite Hb. cbv zeta.
  change (eID e) with id. unfold queue_path. rewrite join_plain by done.
  set (p := qdir ++ [id ++ #".json"]).
  destruct (replace_file_ok p b w2) as (w4 & E4 & Hf4 & Hd4 & Hx4).
  { congruence. }
  { unfold p. by destruct qdir. }
  { unfold p. by rewrite parent_snoc, Hd2, Hd1. }
  destruct (Due_complete now (id ++ #".json") w4 (mkFile b (wNow w2)) (clean_envelope clean e))
    as (due & errs & HD & Hin); try done.
  - by rewrite Hd4, Hd2, Hd1.
  - apply has_suffix_app.
  - rewrite Hf4. apply lookup_insert_eq.
  - by apply unmarshal_marshal.
  - by exists id, w4, due, errs.
Qed.
End Enqueue.

(** ** Examples *)

(** A codec that satisfies the law: the envelope as a number. *)
Definition to_tuple (e : Envelope) : str * str * str * str * Z * Z * Z * str * str :=
  (eID e, eFrom e, eRcpt e, eDomain e, eAttempts e, eNextAttempt e, eCreated e, eLastError e, eData e).
Definition of_tuple (t : str * str * str * str * Z * Z * Z * str * str) : Envelope :=
  let '(i, f, r, d, a, n, c, l, x) := t in mkEnvelope i f r d a n c l x.

#[export] Instance toy_codec : EnvelopeCodec := {
  marshal e := Some (pos_bits (encode (to_tuple e)));
  unmarshal s := of_tuple <$> decode (bits_pos s) }.

#[export, program] Instance toy_codec_lawful : LawfulCodec := { clean s := s }.
Next Obligation. done. Qed.
Next Obligation. by eexists. Qed.
Next Obligation.
  intros e b [= <-]. cbn [unmarshal toy_codec]. rewrite bits_pos_bits, decode_encode. by destruct e.
Qed.

Definition example_queue_world : world :=
  mkWorld ∅ {[ [ #"q"] ]} [] 1000 [] [77] 0 7 #"mx".
Definition example_sched (w : world) : SchedState := mkSched w None None 0 0 0 [].
(** A peer that never answers, and a callback that drops the bounce. *)
Definition no_peer (now : Z) (e : Envelope) (bind helo : str) : option send_error :=
  Some (Transient #"dial tcp: timeout").
Definition no_bounce (e : Envelope) (reason : str) : M unit := mret tt.

Lemma no_bounce_frame qdir e r : frame (fun q => parent q <> qdir) (no_bounce e r).
Proof. apply frame_ret. Qed.

(** With two attempts allowed: deferred once, then given up. *)
Example two_attempts :
  let w := (Enqueue [ #"q"] #"A@b.c" #"D@e.f" #"Hi" example_queue_world).2 in
  let s1 := Process [ #"q"] no_peer no_bounce 2 2000 (example_sched w) in
  let s2 := Process [ #"q"] no_peer no_bounce 2 (2000 + minute) s1 in
  ((fun ev => (ev_final ev, eAttempts (ev_env ev))) <$> ssLog s2) = [(false, 1); (true, 2)] /\
  size (wFiles (ssWorld s1)) = 1%nat /\ wFiles (ssWorld s2) = ∅.
Proof. vm_compute. done. Qed.

Example Enqueue_Due_witness :
  exists id w' due errs,
    Enqueue [ #"q"] #"A@b.c" #"D@e.f" #"Hi" example_queue_world = (Ok tt, w') /\
    Due [ #"q"] 2000 w' = (Ok (due, errs), w') /\
    mkEnvelope id #"a@b.c" #"d@e.f" #"e.f" 0 1000 1000 [] #"Hi" ∈ due.
Proof.
  destruct (Enqueue_Due [ #"q"] #"A@b.c" #"D@e.f" #"Hi" example_queue_world #"D" #"e.f" 2000)
    as (id & w' & due & errs & E & D & Hin).
  - done.
  - vm_compute. reflexivity.
  - by vm_compute.
  - split; vm_compute; done.
  - simpl. lia.
  - exists id, w', due, errs. split; [exact E|]. split; [exact D|exact Hin].
Defined.

(** A queue with one envelope, and a peer that refuses it for good: it is due,
    attempted, bounced and gone. *)
Definition waiting : SchedState := example_sched (Enqueue [ #"q"] #"A@b.c" #"D@e.f" #"Hi" example_queue_world).2.
Definition waiting_path : path := [ #"q"; #"1000-4d.json"].
Definition waiting_envelope : Envelope := mkEnvelope #"1000-4d" #"a@b.c" #"d@e.f" #"e.f" 0 1000 1000 [] #"Hi".
Definition refusing_peer (now : Z) (e : Envelope) (bind helo : str) : option send_error :=
  Some (Permanent 550 #"no such user").

Definition wf_world_b (w : world) : bool :=
  forallb (forallb plain_b) ((map_to_list (wFiles w)).*1 ++ elements (wDirs w)).
Lemma wf_world_b_ok w : wf_world_b w = true -> wf_world w.
Proof.
  intros Hb. unfold wf_world_b in Hb. rewrite forallb_forall in Hb.
  assert (forall q, q ∈ (map_to_list (wFiles w)).*1 ++ elements (wDirs w) -> Forall plain q) as HP.
  { intros q Hq. apply list_elem_of_In in Hq. specialize (Hb q Hq). rewrite forallb_forall in Hb.
    apply Forall_forall. intros n Hn. by apply plain_b_ok, Hb, list_elem_of_In. }
  split; intros q Hq; apply HP, elem_of_app.
  - left. destruct Hq as [f Hf]. apply list_elem_of_fmap. exists (q, f). split; [done|]. by apply elem_of_map_to_list.
  - right. by apply elem_of_elements.
Qed.

Lemma waiting_wf : wf_world (ssWorld waiting).
Proof. apply wf_world_b_ok. vm_compute. reflexivity. Qed.

Lemma waiting_queued : queued [ #"q"] waiting_path.
Proof. split; [exists #"1000-4d.json"; split; reflexivity|reflexivity]. Qed.
Lemma waiting_gone : files (Process [ #"q"] refusing_peer no_bounce 5 2000 waiting) !! waiting_path = None.
Proof. vm_compute. reflexivity. Qed.

Definition stored_b (w : world) (q : path) (e : Envelope) : bool :=
  match wFiles w !! q with
  | Some f => match unmarshal (fData f) with Some e' => bool_decide (to_tuple e' = to_tuple e) | None => false end
  | None => false
  end.
Lemma waiting_stored_b : stored_b (ssWorld waiting) waiting_path waiting_envelope = true.
Proof. vm_compute. reflexivity. Qed.
Lemma stored_b_ok qdir w q e : queued qdir q -> stored_b w q e = true -> stored qdir w e /\ is_Some (wFiles w !! q).
Proof.
  intros Hq. unfold stored_b. destruct (wFiles w !! q) as [f|] eqn:Ef; [|done].
  destruct (unmarshal (fData f)) as [e'|] eqn:Eu; [|done]. intros E%bool_decide_eq_true.
  split; [|by eexists]. exists q, f. split; [done|]. split; [done|]. rewrite Eu. f_equal.
  destruct e', e. unfold to_tuple in E. simpl in E. congruence.
Qed.

Example Process_no_loss_witness :
  let s' := Process [ #"q"] refusing_peer no_bounce 5 2000 waiting in
  is_Some (files waiting !! waiting_path) /\ files s' !! waiting_path = None /\
  (exists due s0, in_turn [ #"q"] refusing_peer no_bounce 5 2000 due s0 s' /\ waiting_envelope ∈ due) /\
  exists ev, ev ∈ ssLog s' /\ ev_final ev = true /\ queue_path [ #"q"] (eID (ev_env ev)) = waiting_path.
Proof.
  destruct (Process_no_loss [ #"q"] refusing_peer no_bounce 5 (no_bounce_frame [ #"q"]) 2000 waiting waiting_wf)
    as (due & s0 & _ & _ & Hrun & _ & _ & Hall & Hkept).
  cbv zeta. destruct (stored_b_ok _ _ _ _ waiting_queued waiting_stored_b) as [Hst Hs].
  split; [exact Hs|]. split; [exact waiting_gone|]. split.
  - exists due, s0. split; [exact Hrun|]. apply Hall; [vm_compute; reflexivity| |exact Hst|vm_compute; discriminate].
    apply (bool_decide_unpack _). vm_compute. exact I.
  - destruct (Hkept waiting_path waiting_queued Hs) as [Hk|Hev]; [|exact Hev].
    exfalso. rewrite waiting_gone in Hk. exact (is_Some_None Hk).
Defined.

Example Process_bounded_witness :
  bounded [ #"q"] 2 (files (Process [ #"q"] no_peer no_bounce 2 5 (example_sched example_queue_world))).
Proof.
  apply (Process_bounded [ #"q"] no_peer no_bounce 2 (no_bounce_frame [ #"q"]) 5
    (example_sched example_queue_world)).
  - split; [intros q [f Hq]; change ((∅ : gmap path file) !! q = Some f) in Hq; by rewrite lookup_empty in Hq|].
    intros q Hq. change (q ∈ ({[ [ #"q"] ]} : gset path)) in Hq. apply elem_of_singleton in Hq as ->.
    repeat constructor; [by apply index_byte_None|done..].
  - intros q f e _ Hq. change ((∅ : gmap path file) !! q = Some f) in Hq. by rewrite lookup_empty in Hq.
Defined.
