(* ===== verification/QueueLive.v ===== *)
(** * The queue empties

    On a working disk and without pacing an envelope leaves the queue: every
    pass at which it is due either ends its life, delivered or bounced, or
    counts one more attempt and sets the next one at most four hours ahead.  So
    after as many spaced passes as it has attempts left it is gone, whatever
    else happens to the queue in between. *)

From S2P Require Import Prelude GoStrings GoOS StorageResolver Queue Scheduler QueueProps.

#[global] Open Scope Z_scope.

Section Live.
Context `{LawfulCodec} (qdir : path).
Context (deliver : Z -> Envelope -> str -> str -> option send_error).
Context (bounce : Envelope -> str -> M unit) (maxAttempts : Z).

(** ** A queue in order *)

(** The disk works, and the queue directory is there. *)
Definition quiet (w : world) : Prop := wFaults w = [] /\ qdir ∈ wDirs w.

(** Every envelope file is named after its envelope. *)
Definition named (fs : gmap path file) : Prop :=
  forall q f, queued qdir q -> fs !! q = Some f ->
    (exists n, plain n /\ q = qdir ++ [n]) /\
    forall e, unmarshal (fData f) = Some e -> is_ascii (eID e) /\ queue_path qdir (eID e) = q.

Record live (s : SchedState) : Prop := {
  lv_quiet : quiet (ssWorld s);
  lv_named : named (files s);
  lv_dirs : forall n, has_suffix #".json" n = true -> qdir ++ [n] ∉ wDirs (ssWorld s);
  lv_unpaced : ssThrottle s = None }.

(** A bounce goes to a mailbox: no file of the queue, and no directory in it. *)
Definition outside (m : M unit) : Prop :=
  frame (fun q => parent q <> qdir) m /\
  forall w, quiet w -> quiet (m w).2 /\ forall d, parent d = qdir -> d ∈ wDirs (m w).2 -> d ∈ wDirs w.
Hypothesis bounce_outside : forall e r, outside (bounce e r).

Lemma bounce_framed e r : frame (fun q => parent q <> qdir) (bounce e r).
Proof. apply bounce_outside. Qed.

(** ** What calls keep *)

(** Nothing but files changes. *)
Definition kept (w w' : world) : Prop := wFaults w' = [] /\ wDirs w' = wDirs w.

Lemma Remove_kept p w : wFaults w = [] -> kept w (GoOS.Remove p w).2.
Proof.
  intros Hw. unfold GoOS.Remove. rewrite syscall_ok by done. unfold mbind, M_bind, get_world. by destruct (wFiles w !! p).
Qed.

Lemma replace_kept p b w : wFaults w = [] -> kept w (replace_file p b w).2.
Proof.
  intros Hw. unfold replace_file, WriteFile, mbind, M_bind, next_fault, get_world. rewrite Hw.
  destruct (decide _) as [Hd|Hd]; [|done]. cbn [store_file modify fst snd]. set (w1 := set_files _ w).
  unfold try. unfold Rename. rewrite syscall_ok by done. unfold mbind, M_bind, get_world.
  destruct (wFiles w1 !! _) as [f|]; cbn; [destruct (decide _); cbn; [done|]|];
    (pose proof (Remove_kept (append_ext p #".tmp") w1 Hw) as HR; destruct (GoOS.Remove _ w1); exact HR).
Qed.

Lemma Update_kept e w : wFaults w = [] -> kept w (Update qdir e w).2.
Proof. intros Hw. unfold Update, write. destruct (marshal e); [by apply replace_kept|done]. Qed.

Lemma live_kept s s' :
  live s -> kept (ssWorld s) (ssWorld s') -> named (files s') -> ssThrottle s' = None -> live s'.
Proof.
  intros [[Hf Hd] _ Hn _] [Kf Kd] Hnm Ht. split; [split; [done|by rewrite Kd]|done|by rewrite Kd|done].
Qed.

Lemma bounce_live e r s : live s -> live (io (bounce e r) s) /\ forall q, parent q = qdir -> files (io (bounce e r) s) !! q = files s !! q.
Proof.
  intros [Hq Hn Hd Ht]. destruct (bounce_outside e r) as [Hf Hw]. destruct (Hw (ssWorld s) Hq) as [Hq' Hd'].
  assert (forall q, parent q = qdir -> files (io (bounce e r) s) !! q = files s !! q) as Hfiles
    by (intros q Hp; by apply (bounce_files qdir bounce bounce_framed)).
  split; [|exact Hfiles]. split; cbn [io ssWorld set_world ssThrottle]; try done.
  - intros q f Hqq Hf'. apply Hn; [done|]. rewrite <- (Hfiles q) by apply Hqq. exact Hf'.
  - intros n Hs Hin. apply (Hd n Hs), Hd'; [by rewrite parent_snoc|done].
Qed.

(** ** The scan *)

Abbreviation read_entry := (read_entry qdir).
Abbreviation due_at := (due_at qdir).

(** An entry with the suffix that is not a file does not occur. *)
Lemma json_entry s ent : live s -> ent ∈ file_entries (ssWorld s) qdir ++ dir_entries (ssWorld s) qdir ->
  has_suffix #".json" (deName ent) = true -> ent ∈ file_entries (ssWorld s) qdir.
Proof.
  intros Hlv [Hent|Hent]%elem_of_app Es; [done|]. exfalso. apply (lv_dirs s Hlv (deName ent) Es).
  unfold dir_entries in Hent. apply list_elem_of_omap in Hent as (p & Hp & E).
  destruct (last p) as [m|] eqn:El; [|done]. case_decide as Ep; [|done]. injection E as <-. cbn [deName].
  apply last_Some in El as [p' ->]. rewrite parent_snoc in Ep. subst p'. by apply elem_of_elements.
Qed.

Lemma queued_name n : has_suffix #".json" n = true -> queued qdir (qdir ++ [n]).
Proof. intros Hs. split; [exists n; by rewrite last_snoc|apply parent_snoc]. Qed.

(** Where an envelope that is read comes from. *)
Lemma entry_stored s n f0 e : live s -> files s !! (qdir ++ [n]) = Some f0 ->
  read_entry (ssWorld s) (mkDirent n (Some f0)) = Some e ->
  plain n /\ has_suffix #".json" n = true /\ unmarshal (fData f0) = Some e /\ is_ascii (eID e) /\
  queue_path qdir (eID e) = qdir ++ [n].
Proof.
  intros Hlv Hf. unfold read_entry. cbn [deName]. destruct (has_suffix #".json" n) eqn:Es; [|done].
  destruct (lv_named s Hlv _ _ (queued_name n Es) Hf) as [(m & Hpl & E) Hun]. apply app_inj_tail in E as [_ <-].
  rewrite join_plain by done. unfold files in Hf. rewrite Hf. cbn [mbind option_bind]. intros Hr.
  destruct (Hun e Hr). by split_and!.
Qed.

Lemma file_entry s ent : ent ∈ file_entries (ssWorld s) qdir ->
  exists f, ent = mkDirent (deName ent) (Some f) /\ files s !! (qdir ++ [deName ent]) = Some f.
Proof.
  intros (f & E & Hf)%elem_of_file_entries. exists f. split; [|done]. destruct ent as [nm fl]. cbn [deName deFile] in *. by subst.
Qed.

Lemma due_stored s now e : live s -> e ∈ due_at now (ssWorld s) ->
  exists n f, files s !! (qdir ++ [n]) = Some f /\ unmarshal (fData f) = Some e /\
    queue_path qdir (eID e) = qdir ++ [n] /\ is_ascii (eID e) /\ plain n /\ has_suffix #".json" n = true /\
    eNextAttempt e <= now.
Proof.
  intros Hlv He. apply list_elem_of_In, List.filter_In in He as [He Hle].
  apply list_elem_of_In in He. rewrite sort_by_perm, sort_slice_perm in He.
  apply list_elem_of_omap in He as (ent & Hent & Hr).
  assert (has_suffix #".json" (deName ent) = true) as Es by (by eapply read_json).
  apply (json_entry s ent Hlv) in Hent; [|done]. apply file_entry in Hent as (f & E & Hf). rewrite E in Hr.
  destruct (entry_stored s _ _ _ Hlv Hf Hr) as (? & ? & ? & ? & ?). apply Z.leb_le in Hle. exists (deName ent), f. by split_and!.
Qed.

(** A due envelope is in the scan, and no other envelope has its file. *)
Lemma due_once s now n f e : live s -> files s !! (qdir ++ [n]) = Some f -> has_suffix #".json" n = true ->
  unmarshal (fData f) = Some e -> eNextAttempt e <= now ->
  exists l1 l2, due_at now (ssWorld s) = l1 ++ e :: l2 /\
    forall e', e' ∈ l1 ++ l2 -> queue_path qdir (eID e') <> qdir ++ [n].
Proof.
  intros Hlv Hf Hs Hu Hle. set (w := ssWorld s) in *. unfold files in Hf. fold w in Hf.
  destruct (lv_named s Hlv _ f (queued_name n Hs) Hf) as [(m & Hpl & E) _]. apply app_inj_tail in E as [_ <-].
  set (others := omap (fun kv : path * file =>
    match last kv.1 with
    | Some n => if decide (parent kv.1 = qdir) then Some (mkDirent n (Some kv.2)) else None
    | None => None
    end) (map_to_list (delete (qdir ++ [n]) (wFiles w)))).
  assert (file_entries w qdir ≡ₚ mkDirent n (Some f) :: others) as HP.
  { unfold file_entries, others. rewrite <- (map_to_list_delete (wFiles w) (qdir ++ [n]) f Hf).
    cbn [omap list_omap fst snd]. by rewrite last_snoc, parent_snoc, decide_True. }
  assert (due_at now w ≡ₚ e :: List.filter (fun e => eNextAttempt e <=? now) (omap (read_entry w) (others ++ dir_entries w qdir))) as HD.
  { assert (forall (P : Envelope -> bool) l l', l ≡ₚ l' -> List.filter P l ≡ₚ List.filter P l') as HF.
    { intros P l l'. induction 1 as [|x l l' _ IH|x y l|l1 l2 l3 _ IH1 _ IH2]; cbn [List.filter]; [done| | |by etrans].
      - by destruct (P x); rewrite IH.
      - destruct (P x), (P y); try done. apply perm_swap. }
    unfold due_at. etrans; [apply HF; rewrite sort_by_perm, sort_slice_perm, HP; reflexivity|].
    cbn [app omap list_omap]. unfold read_entry at 1. cbn [deName]. rewrite Hs, join_plain, Hf by done.
    cbn [mbind option_bind]. rewrite Hu. cbn [List.filter]. by rewrite (proj2 (Z.leb_le _ _) Hle). }
  assert (e ∈ due_at now w) as (l1 & l2 & E)%list_elem_of_split by (rewrite HD; by left).
  exists l1, l2. split; [done|]. rewrite E, <- Permutation_middle in HD. apply Permutation_cons_inv in HD.
  intros e' He'. rewrite HD in He'. apply list_elem_of_In, List.filter_In in He' as [He' _].
  apply list_elem_of_In, list_elem_of_omap in He' as (ent & Hent & Hr).
  assert (has_suffix #".json" (deName ent) = true) as Es by (by eapply read_json).
  assert (ent ∈ others) as Ho.
  { apply elem_of_app in Hent as [Hent|Hent]; [done|]. exfalso. apply (lv_dirs s Hlv (deName ent) Es).
    unfold dir_entries in Hent. apply list_elem_of_omap in Hent as (p & Hp & E').
    destruct (last p) as [m|] eqn:El; [|done]. case_decide as Ep; [|done]. injection E' as <-. cbn [deName].
    apply last_Some in El as [p' ->]. rewrite parent_snoc in Ep. subst p'. by apply elem_of_elements. }
  unfold others in Ho. apply list_elem_of_omap in Ho as ([k g] & Hk & E'). apply elem_of_map_to_list in Hk.
  cbn [fst snd] in E'. destruct (last k) as [m|] eqn:El; [|done]. case_decide as Ep; [|done]. injection E' as <-.
  apply last_Some in El as [p' ->]. rewrite parent_snoc in Ep. subst p'. cbn [deName] in *.
  apply lookup_delete_Some in Hk as [Hne Hk].
  destruct (entry_stored s m g e' Hlv Hk Hr) as (_ & _ & _ & _ & ->). congruence.
Qed.

(** ** One attempt *)

Lemma choose_source_world e s :
  ssWorld (choose_source e s).2 = ssWorld s /\ ssThrottle (choose_source e s).2 = ssThrottle s /\
  ssLog (choose_source e s).2 = ssLog s.
Proof.
  unfold choose_source. destruct (ssEgress s) as [sel|]; [|done].
  by destruct (Egress.select_source sel (eFrom e) (eDomain e)).
Qed.

Lemma reserve_unpaced e bind s : ssThrottle s = None -> reserve e bind s = (None, s).
Proof. intros Ht. unfold reserve. by rewrite Ht. Qed.

Abbreviation attempt := (attempt qdir deliver bounce maxAttempts).

(** The order of the queue but for its files. *)
Definition orderly (s : SchedState) : Prop :=
  quiet (ssWorld s) /\ (forall n, has_suffix #".json" n = true -> qdir ++ [n] ∉ wDirs (ssWorld s)) /\ ssThrottle s = None.

Lemma orderly_kept s s' : orderly s -> kept (ssWorld s) (ssWorld s') -> ssThrottle s' = None -> orderly s'.
Proof. intros ([Hf Hd] & Hn & _) [Kf Kd] Ht. split; [split; [done|by rewrite Kd]|split; [by rewrite Kd|done]]. Qed.

Lemma bounce_out_orderly e r s : orderly s -> orderly (bounce_out qdir bounce e r s).
Proof.
  intros (Hq & Hn & Ht). unfold bounce_out. set (s1 := io (bounce e r) _).
  destruct (bounce_outside e r) as [_ Hw]. destruct (Hw (ssWorld s) Hq) as [Hq1 Hd1].
  assert (orderly s1) as Ho.
  { split; [exact Hq1|split; [|exact Ht]]. intros n Hs Hin. apply (Hn n Hs), Hd1; [by rewrite parent_snoc|exact Hin]. }
  apply (orderly_kept s1); [done|apply Remove_kept, Ho|apply Ho].
Qed.

Lemma attempt_orderly e now s : orderly s -> orderly (attempt e now s).
Proof.
  intros Ho. unfold Scheduler.attempt. destruct (choose_source_world e s) as (Ew & Et & _).
  destruct (choose_source e s) as [[bind helo] s1]. cbn [snd] in *.
  assert (orderly s1) as Ho1 by (unfold orderly; by rewrite Ew, Et).
  rewrite reserve_unpaced by (by rewrite Et; apply Ho). clear Ho Ew Et s.
  destruct (deliver now e bind helo) as [[code msg|text]|].
  - by apply bounce_out_orderly.
  - destruct (_ <=? _); [by apply bounce_out_orderly|].
    apply (orderly_kept s1); [done|apply Update_kept, Ho1|apply Ho1].
  - apply (orderly_kept s1); [done|apply Remove_kept, Ho1|apply Ho1].
Qed.

(** An envelope of the queue: named after its file. *)
Definition entry (n : str) (e : Envelope) : Prop :=
  queue_path qdir (eID e) = qdir ++ [n] /\ is_ascii (eID e) /\ plain n /\ has_suffix #".json" n = true.

Lemma attempt_live n e now s : live s -> entry n e -> live (attempt e now s).
Proof.
  intros Hlv (Ep & Ha & Hpl & Hs). destruct (attempt_orderly e now s) as (Hq & Hn & Ht).
  { split; [apply Hlv|split; [apply Hlv|apply Hlv]]. }
  split; [done| |done|done]. intros q f Hqq Hf.
  destruct (attempt_effect qdir deliver bounce maxAttempts bounce_framed e now s) as (ev & _ & Hid & _ & Hfiles).
  destruct (Hfiles q Hqq) as [E|[-> [[_ E]|(_ & b & t & Hm & E)]]].
  - rewrite E in Hf. by apply Hlv.
  - congruence.
  - rewrite E in Hf. injection Hf as <-. rewrite Ep. split; [by exists n|]. cbn [fData]. intros e'.
    rewrite (unmarshal_marshal _ _ Hm). intros [= <-]. cbn [eID clean_envelope]. by rewrite Hid, clean_ascii.
Qed.

(** The file of an envelope that is not attempted stays. *)
Lemma attempt_other n e now s q : entry n e -> queued qdir q -> q <> qdir ++ [n] ->
  files (attempt e now s) !! q = files s !! q.
Proof.
  intros (Ep & _) Hqq Hne. destruct (attempt_effect qdir deliver bounce maxAttempts bounce_framed e now s) as (ev & _ & _ & _ & Hfiles).
  destruct (Hfiles q Hqq) as [E|[E _]]; [done|congruence].
Qed.

Lemma attempt_logs e now s : exists evs, ssLog (attempt e now s) = ssLog s ++ evs.
Proof.
  destruct (attempt_effect qdir deliver bounce maxAttempts bounce_framed e now s) as (ev & E & _). by exists [ev].
Qed.

(** The envelope of a file, with its attempts, next time and creation. *)
Definition holds (fs : gmap path file) (n id : str) (attempts next created : Z) : Prop :=
  exists f e, fs !! (qdir ++ [n]) = Some f /\ unmarshal (fData f) = Some e /\
    eID e = id /\ eAttempts e = attempts /\ eNextAttempt e = next /\ eCreated e = created.
(** The life of an envelope has ended. *)
Definition ended (id : str) (s : SchedState) : Prop :=
  exists ev, ev ∈ ssLog s /\ ev_final ev = true /\ eID (ev_env ev) = id.

Lemma bounce_out_ends n e r s : live s -> entry n e -> is_Some (files s !! (qdir ++ [n])) ->
  files (bounce_out qdir bounce e r s) !! (qdir ++ [n]) = None /\ ended (eID e) (bounce_out qdir bounce e r s).
Proof.
  intros Hlv (Ep & _ & _ & _) [f Hf]. unfold bounce_out. set (s0 := log _ _). split.
  - destruct (bounce_live e r s0) as [Hlv1 Hb]; [by destruct Hlv; split|]. set (s1 := io (bounce e r) s0) in *.
    unfold files, io, RemoveEnvelope. cbn [ssWorld set_world]. rewrite Ep.
    assert (wFiles (ssWorld s1) !! (qdir ++ [n]) = Some f) as Hf1 by (etrans; [apply (Hb (qdir ++ [n])), parent_snoc|exact Hf]).
    rewrite (Remove_ok _ _ f) by (done || apply Hlv1). cbn [snd wFiles set_files]. apply lookup_delete_eq.
  - exists (Bounced e r). split; [|done]. cbn [io set_world ssLog s0 log]. apply elem_of_app. right. by left.
Qed.

Lemma attempt_self n e now s :
  live s -> entry n e -> (exists f, files s !! (qdir ++ [n]) = Some f /\ unmarshal (fData f) = Some e) ->
  in_years (eCreated e) -> in_years (now + backoff (eAttempts e + 1)) ->
  (files (attempt e now s) !! (qdir ++ [n]) = None /\ ended (eID e) (attempt e now s)) \/
  (eAttempts e + 1 < maxAttempts /\
   holds (files (attempt e now s)) n (eID e) (eAttempts e + 1) (now + backoff (eAttempts e + 1)) (eCreated e)).
Proof.
  intros Hlv Hent (f & Hf & Hu) Hc Hy. unfold Scheduler.attempt.
  destruct (choose_source_world e s) as (Ew & Et & El). destruct (choose_source e s) as [[bind helo] s1]. cbn [snd] in *.
  assert (live s1) as Hlv1 by (destruct Hlv; split; unfold files in *; by rewrite ?Ew, ?Et).
  assert (files s1 !! (qdir ++ [n]) = Some f) as Hf1 by (unfold files in *; by rewrite Ew).
  rewrite reserve_unpaced by apply Hlv1. clear Hlv Ew Et El s Hf. pose proof Hent as (Ep & Ha & Hpl & Hs).
  destruct (deliver now e bind helo) as [[code msg|text]|].
  - left. apply bounce_out_ends; [done..|by eexists].
  - cbn [eAttempts failed_once]. destruct (Z.leb_spec maxAttempts (eAttempts e + 1)) as [Hm|Hm].
    + left. apply (bounce_out_ends n (failed_once e _)); [done..|by eexists].
    + right. split; [done|]. set (e1 := set_next (failed_once e (error_text (Transient text))) _).
      destruct (marshal_total e1 Hy Hc) as [b Hb]. unfold holds, files. cbn [log countDeferred io ssWorld set_world].
      unfold Update, write. rewrite Hb. change (eID e1) with (eID e). rewrite Ep.
      destruct (replace_file_ok (qdir ++ [n]) b (ssWorld s1)) as (w' & -> & Hw & _).
      { apply Hlv1. } { by destruct qdir. } { rewrite parent_snoc. apply Hlv1. }
      cbn [snd]. rewrite Hw, lookup_insert_eq. eexists _, (clean_envelope clean e1). split; [reflexivity|].
      cbn [fData]. split; [by apply unmarshal_marshal|]. split_and!; try done. cbn. by apply clean_ascii.
  - left. split.
    + unfold files, io, RemoveEnvelope. cbn [ssWorld set_world log countDelivered]. rewrite Ep.
      rewrite (Remove_ok _ _ f) by (done || apply Hlv1). cbn [snd wFiles set_files]. apply lookup_delete_eq.
    + exists (Delivered e). split; [|done]. cbn. apply elem_of_app. right. by left.
Qed.

(** ** A pass *)

Abbreviation Process := (Process qdir deliver bounce maxAttempts).

(** More has been logged. *)
Definition logged (s s' : SchedState) : Prop := exists evs, ssLog s' = ssLog s ++ evs.
#[local] Instance logged_trans : Transitive logged.
Proof. intros a b c [x E] [y F]. exists (x ++ y). by rewrite F, E, app_assoc. Qed.
Lemma ended_logged id s s' : ended id s -> logged s s' -> ended id s'.
Proof. intros (ev & Hin & ?) [evs E]. exists ev. split; [|done]. rewrite E. apply elem_of_app. by left. Qed.

Lemma others_attempted now n l : has_suffix #".json" n = true -> (forall e, e ∈ l -> exists m, entry m e /\ m <> n) -> forall s,
  live s ->
  let s' := fold_left (fun s e => attempt e now s) l s in
  live s' /\ files s' !! (qdir ++ [n]) = files s !! (qdir ++ [n]) /\ logged s s'.
Proof.
  intros Hs. induction l as [|e l IH]; intros Hl s Hlv; cbn [fold_left].
  { split_and!; [done..|]. exists []. by rewrite app_nil_r. }
  destruct (Hl e ltac:(by left)) as (m & Hent & Hne).
  destruct (IH (fun e' He => Hl e' ltac:(by right)) (attempt e now s)) as (H1 & H2 & H3); [by eapply attempt_live|].
  split_and!; [done| |etrans; [apply attempt_logs|done]].
  rewrite H2. apply (attempt_other m); [done|by apply queued_name|]. intros [_ ?]%app_inj_tail. congruence.
Qed.

Lemma due_entry s now e : live s -> e ∈ due_at now (ssWorld s) -> exists m, entry m e.
Proof.
  intros Hlv He. destruct (due_stored s now e Hlv He) as (m & f & _ & _ & Ep & Ha & Hpl & Hs & _). by exists m.
Qed.

Lemma Process_attempts now s : live s ->
  Process now s = fold_left (fun s e => attempt e now s) (due_at now (ssWorld s)) s.
Proof.
  intros Hlv. unfold Scheduler.Process, io. destruct (Due_quiet qdir now (ssWorld s) (lv_quiet s Hlv)) as [errs ->]. cbn [snd].
  by destruct s.
Qed.

(** A pass at which the envelope is due. *)
Lemma pass_due now n id k t c s :
  live s -> has_suffix #".json" n = true -> holds (files s) n id k t c -> t <= now ->
  in_years c -> in_years (now + backoff (k + 1)) ->
  live (Process now s) /\ logged s (Process now s) /\
  ((files (Process now s) !! (qdir ++ [n]) = None /\ ended id (Process now s)) \/
   (k + 1 < maxAttempts /\ holds (files (Process now s)) n id (k + 1) (now + backoff (k + 1)) c)).
Proof.
  intros Hlv Hs (f & e & Hf & Hu & <- & <- & <- & <-) Hle Hc Hy.
  destruct (due_once s now n f e Hlv Hf Hs Hu Hle) as (l1 & l2 & E & Hoth).
  assert (forall e', e' ∈ l1 ++ l2 -> exists m, entry m e' /\ m <> n) as Hent.
  { intros e' He'. destruct (due_entry s now e' Hlv) as [m Hm].
    - rewrite E. apply elem_of_app in He' as [?|?]; apply elem_of_app; [by left|right; by right].
    - exists m. split; [done|]. intros ->. apply (Hoth e' He'), Hm. }
  assert (entry n e) as Hen.
  { destruct (lv_named s Hlv _ f (queued_name n Hs) Hf) as [(m & Hpl & Em) Hun]. apply app_inj_tail in Em as [_ <-].
    destruct (Hun e Hu). by split_and!. }
  rewrite Process_attempts, E, fold_left_app by done. cbn [fold_left].
  destruct (others_attempted now n l1 Hs (fun e' h => Hent e' ltac:(apply elem_of_app; by left)) s Hlv) as (H1 & H2 & H3).
  set (s1 := fold_left _ l1 s) in *.
  pose proof (attempt_live n e now s1 H1 Hen) as H4.
  pose proof (attempt_self n e now s1 H1 Hen ltac:(exists f; by rewrite H2) Hc Hy) as H5.
  pose proof (attempt_logs e now s1) as H6. set (s2 := attempt e now s1) in *.
  destruct (others_attempted now n l2 Hs (fun e' h => Hent e' ltac:(apply elem_of_app; by right)) s2 H4) as (H7 & H8 & H9).
  split; [done|]. split; [etrans; [exact H3|etrans; [exact H6|exact H9]]|].
  destruct H5 as [[Hn Hend]|(Hm & g & e' & Hg & ?)]; [left|right].
  - rewrite H8. split; [done|]. by eapply ended_logged.
  - split; [done|]. exists g, e'. by rewrite H8.
Qed.

(** A pass after the envelope is gone. *)
Lemma pass_gone now n s : live s -> has_suffix #".json" n = true -> files s !! (qdir ++ [n]) = None ->
  live (Process now s) /\ logged s (Process now s) /\ files (Process now s) !! (qdir ++ [n]) = None.
Proof.
  intros Hlv Hs Hn. rewrite Process_attempts by done.
  destruct (others_attempted now n (due_at now (ssWorld s)) Hs) with (s := s) as (H1 & H2 & H3); [|done|].
  - intros e He. destruct (due_stored s now e Hlv He) as (m & f & Hf & _ & Ep & Ha & Hpl & Hsm & _).
    exists m. split; [done|]. intros ->. congruence.
  - by rewrite H2.
Qed.

(** ** Many passes *)

(** What may happen between two passes, seen from one envelope: anything that
    leaves its file alone and the queue in order. *)
Definition meanwhile (n : str) (s s' : SchedState) : Prop :=
  live s' /\ files s' !! (qdir ++ [n]) = files s !! (qdir ++ [n]) /\ logged s s'.

Inductive passes (n : str) : list Z -> SchedState -> SchedState -> Prop :=
| passes_nil s : passes n [] s s
| passes_cons t ts s s1 s2 : meanwhile n s s1 -> passes n ts (Process t s1) s2 -> passes n (t :: ts) s s2.

(** Passes four hours apart, the longest delay between two attempts. *)
Fixpoint spaced (from : Z) (ts : list Z) : Prop :=
  match ts with
  | [] => True
  | t :: r => from <= t /\ in_years t /\ in_years (t + 4 * hour) /\ spaced (t + 4 * hour) r
  end.

Lemma passes_gone n id ts s s' : has_suffix #".json" n = true -> passes n ts s s' ->
  files s !! (qdir ++ [n]) = None -> ended id s -> files s' !! (qdir ++ [n]) = None /\ ended id s'.
Proof.
  intros Hs. induction 1 as [|t ts s s1 s2 (Hlv & Hf & Hl) _ IH]; intros Hn He; [done|].
  destruct (pass_gone t n s1 Hlv Hs ltac:(by rewrite Hf)) as (_ & Hl2 & Hn2). apply IH; [done|].
  eapply ended_logged; [exact He|by etrans].
Qed.

Lemma spaced_weaken a b ts : a <= b -> spaced b ts -> spaced a ts.
Proof. destruct ts; [done|]. cbn [spaced]. intros Hab (? & ?). split; [lia|done]. Qed.

(** C5. Every message leaves the queue when pacing is off and no call fails
    during the passes: after as many passes as it has attempts left, the first
    when it is due and each of the others at least four hours after the one
    before, the file of an envelope is gone and the log says that it was
    delivered or bounced, whatever the network answers, whatever else is in
    the queue, and whatever happens to the other envelopes in between. *)
Theorem envelope_leaves n id k t c ts s s' :
  has_suffix #".json" n = true -> holds (files s) n id k t c -> in_years c -> 0 <= k < maxAttempts ->
  Z.of_nat (length ts) = maxAttempts - k -> spaced t ts -> passes n ts s s' ->
  files s' !! (qdir ++ [n]) = None /\ ended id s'.
Proof.
  intros Hs Hh Hc Hk Hlen Hsp Hp. revert k t Hh Hk Hlen Hsp.
  induction Hp as [s|u ts s s1 s2 (Hlv & Hf & Hl) Hp IH]; intros k t Hh Hk Hlen Hsp; cbn [length] in Hlen; [lia|].
  destruct Hsp as (Htu & Hy1 & Hy2 & Hsp).
  assert (holds (files s1) n id k t c) as Hh1.
  { destruct Hh as (f & e & Hfe & ?). exists f, e. by rewrite Hf. }
  pose proof (backoff_schedule (k + 1) ltac:(lia)) as (_ & Hb & _).
  assert (in_years (u + backoff (k + 1))) as Hy.
  { unfold in_years in *. unfold minute, second in Hb. lia. }
  destruct (pass_due u n id k t c s1 Hlv Hs Hh1 Htu Hc Hy) as (Hlv2 & Hl2 & [[Hn He]|[Hm Hh2]]).
  - by eapply passes_gone.
  - apply (IH (k + 1) (u + backoff (k + 1))); [done|lia|lia|]. apply (spaced_weaken _ (u + 4 * hour)); [lia|done].
Qed.
End Live.

(** ** An example *)

Section Decide.
Context `{EnvelopeCodec} (qdir : path).

Definition named_b (fs : gmap path file) : bool :=
  forallb (fun kv : path * file =>
    match last kv.1 with
    | Some n => plain_b n && bool_decide (kv.1 = qdir ++ [n]) &&
        match unmarshal (fData kv.2) with
        | Some e => forallb (fun c => (N_of_ascii c <? 128)%N) (eID e) && bool_decide (queue_path qdir (eID e) = kv.1)
        | None => true
        end
    | None => false
    end) (map_to_list fs).

Lemma named_b_ok fs : named_b fs = true -> named qdir fs.
Proof.
  intros Hb q f _ Hf. unfold named_b in Hb. rewrite forallb_forall in Hb.
  specialize (Hb (q, f) (proj1 (list_elem_of_In _ _) (proj2 (elem_of_map_to_list _ _ _) Hf))). cbn [fst snd] in Hb.
  destruct (last q) as [n|]; [|done]. to_prop. match goal with E : bool_decide _ = true |- _ => apply bool_decide_eq_true in E end.
  split; [exists n; split; [by apply plain_b_ok|done]|]. intros e He. rewrite He in *. to_prop.
  split; [|by eapply bool_decide_eq_true_1]. apply Forall_forall. intros c Hc. apply N.ltb_lt.
  match goal with E : forallb _ (eID e) = true |- _ => rewrite forallb_forall in E; by apply E, list_elem_of_In end.
Qed.

Definition live_b (s : SchedState) : bool :=
  bool_decide (wFaults (ssWorld s) = []) && bool_decide (qdir ∈ wDirs (ssWorld s)) && named_b (files s)
  && forallb (fun d => negb (bool_decide (parent d = qdir) && match last d with Some n => has_suffix #".json" n | None => false end))
       (elements (wDirs (ssWorld s)))
  && match ssThrottle s with None => true | Some _ => false end.
Lemma live_b_ok s : live_b s = true -> live qdir s.
Proof.
  unfold live_b. intros Hb. repeat (apply andb_true_iff in Hb as [Hb ?]).
  repeat match goal with E : bool_decide _ = true |- _ => apply bool_decide_eq_true in E end.
  split; [by split|by apply named_b_ok| |by destruct (ssThrottle s)].
  intros n Hn Hin. rewrite forallb_forall in H1. specialize (H1 (qdir ++ [n])).
  rewrite parent_snoc, last_snoc, Hn, bool_decide_eq_true_2 in H1 by done.
  discriminate H1. by apply list_elem_of_In, elem_of_elements.
Qed.

Definition holds_b (fs : gmap path file) (n id : str) (k t c : Z) : bool :=
  match fs !! (qdir ++ [n]) with
  | Some f => match unmarshal (fData f) with
              | Some e => (eID e =s id) && (eAttempts e =? k) && (eNextAttempt e =? t) && (eCreated e =? c)
              | None => false
              end
  | None => false
  end.
Lemma holds_b_ok fs n id k t c : holds_b fs n id k t c = true -> holds qdir fs n id k t c.
Proof.
  unfold holds_b. destruct (fs !! _) as [f|] eqn:Ef; [|done]. destruct (unmarshal _) as [e|] eqn:Eu; [|done].
  intros Hb. to_prop. exists f, e. split_and!; try done. by apply str_eqb_eq.
Qed.
End Decide.

Lemma no_bounce_outside qdir e r : outside qdir (no_bounce e r).
Proof. split; [apply no_bounce_frame|done]. Qed.

Definition one_queued : SchedState := example_sched (Enqueue [ #"q"] #"A@b.c" #"D@e.f" #"Hi" example_queue_world).2.

(** Nobody answers: the message is tried twice and bounced. *)
Example envelope_leaves_witness :
  let pass := Process [ #"q"] no_peer no_bounce 2 in
  let s2 := pass (2000 + 4 * hour) (pass 2000 one_queued) in
  files s2 !! [ #"q"; #"1000-4d.json"] = None /\ ended #"1000-4d" s2.
Proof.
  cbv zeta. apply (envelope_leaves [ #"q"] no_peer no_bounce 2 (no_bounce_outside [ #"q"]) #"1000-4d.json" #"1000-4d"
    0 1000 1000 [2000; 2000 + 4 * hour] one_queued).
  - reflexivity.
  - apply holds_b_ok. vm_compute. reflexivity.
  - split; vm_compute; [discriminate|reflexivity].
  - lia.
  - reflexivity.
  - cbn [spaced]. split_and!; try (split; vm_compute); try lia; try discriminate; reflexivity.
  - apply passes_cons with (s1 := one_queued);
      [|apply passes_cons with (s1 := Process [ #"q"] no_peer no_bounce 2 2000 one_queued); [|apply passes_nil]].
    + split; [apply live_b_ok; vm_compute; reflexivity|]. split; [done|]. exists []. by rewrite app_nil_r.
    + split; [apply live_b_ok; vm_compute; reflexivity|]. split; [done|]. exists []. by rewrite app_nil_r.
Defined.
