(* ===== verification/Quota.v ===== *)
(** * Disk quotas (internal/quota/quota.go, internal/config/quota.go)

    Sizes as the configuration writes them, the disk usage of a mailbox, and
    the manager that caches it.  The walk over a Maildir is one system call
    per directory and per file, each of which may fail; what cannot be read is
    skipped. *)

From S2P Require Import Prelude GoStrings GoOS Config RateLimit.

(** ** Sizes *)

Definition is_numeric (c : ascii) : bool := is_digit c || Ascii.eqb c ".".

(** [strconv.ParseFloat] of a text of digits and dots, exact; what rounds to
    infinity is a range error. *)
Definition max_float : Q := inject_Z (2 ^ 1024 - 2 ^ 970).
Definition parse_float (s : str) : option Q :=
  let '(whole, frac, _) := cut "."%char s in
  let digits := whole ++ frac in
  match digits, digits_value 0 digits with
  | _ :: _, Some n =>
      let q := (inject_Z (Z.of_N n) / inject_Z (10 ^ Z.of_nat (length frac)))%Q in
      if Qle_bool max_float q then None else Some q
  | _, _ => None
  end.

(** [int64] of a float that is not negative: truncated; out of range it is
    the smallest integer, as on amd64. *)
Definition float_to_int64 (q : Q) : Z :=
  let z := Qfloor q in if z <? 2 ^ 63 then z else - 2 ^ 63.

Definition unit_size (unit : str) : option Z :=
  if unit =s [] then Some 1
  else if unit =s #"K" then Some (2 ^ 10)
  else if unit =s #"M" then Some (2 ^ 20)
  else if unit =s #"G" then Some (2 ^ 30)
  else if unit =s #"T" then Some (2 ^ 40)
  else None.

(** [None] is the error, with which the code returns 0. *)
Definition ParseSize (s : str) : option Z :=
  let s := trim_space s in
  if s =s [] then Some 0
  else
    let rest := drop_while is_numeric s in
    let number := take (length s - length rest) s in
    match parse_float (trim_space number) with
    | None => None
    | Some n =>
        let unit := trim_suffix #"B" (trim_suffix #"IB" (to_upper (trim_space rest))) in
        match unit_size unit with
        | None => None
        | Some mult => Some (float_to_int64 (n * inject_Z mult))
        end
    end.

Definition QuotaBytes (u : User) : Z := default 0 (ParseSize (uQuota u)).

Definition UserQuota (c : Config) (email : str) : Z :=
  match List.find (fun u => equal_fold (uEmail u) email) (cUsers c) with
  | Some u => QuotaBytes u
  | None => 0
  end.

(** ** Usage *)

Definition size_of (f : file) : Z := Z.of_nat (length (fData f)).

(** [d.Info()] of a file and its size; an error counts nothing. *)
Definition file_size (f : file) : M Z :=
  r ← try (syscall (mret (size_of f)));
  mret (match r with Ok n => n | Err _ => 0 end).

Definition visit_entry (visit : path -> M Z) (d : path) (ent : dirent) : M Z :=
  match deFile ent with
  | Some f => file_size f
  | None => visit (join_path d (deName ent))
  end.

Fixpoint walk_entries (visit : path -> M Z) (d : path) (ents : list dirent) : M Z :=
  match ents with
  | [] => mret 0
  | ent :: rest =>
      n ← visit_entry visit d ent;
      m ← walk_entries visit d rest;
      mret (n + m)
  end.

(** [filepath.WalkDir] below a directory. *)
Fixpoint walk (fuel : nat) (d : path) : M Z :=
  match fuel with
  | 0%nat => mret 0
  | S f =>
      r ← try (ReadDir d);
      match r with
      | Err _ => mret 0
      | Ok ents => walk_entries (walk f) d ents
      end
  end.

(** No directory is deeper than that. *)
Definition depth (w : world) : nat := max_list (length <$> elements (wDirs w)).

Definition Usage (root : path) : M Z :=
  r ← try (Stat root);
  match r with
  | Err _ => mret 0
  | Ok _ =>
      w ← get_world;
      if decide (root ∈ wDirs w) then walk (S (depth w)) root
      else match wFiles w !! root with Some f => file_size f | None => mret 0 end
  end.

(** ** The manager *)

Record entry := mkUsage { enBytes : Z; enAt : Z }.
Record Manager := mkManager { qmTTL : Z; qmCache : gmap str entry }.
Definition New (ttl : Z) : Manager := mkManager ttl ∅.
Definition set_entry (m : Manager) (dir : str) (e : entry) : Manager :=
  mkManager (qmTTL m) (<[dir := e]> (qmCache m)).

(** [Get]; [usage] is the injectable measurement. *)
Definition Get (usage : str -> M Z) (m : Manager) (dir : str) : M (Z * Manager) :=
  now ← time_now;
  let measure :=
    r ← try (usage dir);
    mret (match r with
          | Ok b => (b, set_entry m dir (mkUsage b now))
          | Err _ => (match qmCache m !! dir with Some e => enBytes e | None => 0 end, m)
          end) in
  match qmCache m !! dir with
  | Some e => if now - enAt e <? qmTTL m then mret (enBytes e, m) else measure
  | None => measure
  end.

Definition Add (m : Manager) (dir : str) (delta : Z) : Manager :=
  match qmCache m !! dir with
  | Some e => set_entry m dir (mkUsage (enBytes e + delta) (enAt e))
  | None => m
  end.

(** ** What a walk measures *)

(** The bytes of the files at or below a path. *)
Definition counted (root : path) (kv : path * file) : Z :=
  if decide (root `prefix_of` kv.1) then size_of kv.2 else 0.
Definition usage_of (root : path) (fs : gmap path file) : Z := sumZ (counted root) (map_to_list fs).

(** A file system is a tree: what contains a file or a directory is a
    directory, and no path is both. *)
Record tree (w : world) : Prop := {
  tr_plain : wf_world w;
  tr_file : forall q f, wFiles w !! q = Some f -> q <> [] /\ parent q ∈ wDirs w;
  tr_dir : forall q, q ∈ wDirs w -> parent q ∈ wDirs w;
  tr_disjoint : forall q, q ∈ wDirs w -> wFiles w !! q = None }.

Lemma prefix_parent (d q : path) : d `prefix_of` q -> d <> q -> d `prefix_of` parent q.
Proof.
  intros [r ->] H. destruct r as [|x r _] using rev_ind; [by rewrite app_nil_r in H|].
  rewrite app_assoc. unfold parent. rewrite removelast_last. by exists r.
Qed.

Lemma tree_ancestor w d q : tree w -> q ∈ wDirs w -> d `prefix_of` q -> d ∈ wDirs w.
Proof.
  intros Ht. remember (length q) as n eqn:Hn. revert q Hn.
  induction n as [|n IH]; intros q Hn Hq Hd.
  - destruct q; [|done]. by apply prefix_nil_inv in Hd as ->.
  - destruct (decide (d = q)) as [->|Hne]; [done|].
    apply (IH (parent q)); [|by apply tr_dir|by apply prefix_parent].
    destruct q as [|x q _] using rev_ind; [done|]. rewrite parent_snoc. rewrite length_app in Hn. simpl in Hn. lia.
Qed.

Definition entry_size (w : world) (d : path) (ent : dirent) : Z :=
  match deFile ent with Some f => size_of f | None => usage_of (d ++ [deName ent]) (wFiles w) end.

(** A file below a directory is one of its entries or below exactly one. *)
Lemma counted_entries w d k f :
  tree w -> d ∈ wDirs w -> wFiles w !! k = Some f ->
  counted d (k, f)
  = (match last k with Some n => if decide (parent k = d) then size_of f else 0 | None => 0 end)
    + sumZ (fun p => match last p with
                     | Some n => if decide (parent p = d) then counted p (k, f) else 0
                     | None => 0
                     end) (elements (wDirs w)).
Proof.
  intros Ht Hd Hk. destruct (tr_file w Ht k f Hk) as [Hne Hpar].
  assert (d <> k) as Hdk by (intros <-; rewrite (tr_disjoint w Ht d Hd) in Hk; done).
  destruct k as [|x k' _] using rev_ind; [done|]. rewrite last_snoc, parent_snoc in *.
  unfold counted at 1. simpl. destruct (decide (k' = d)) as [->|Hk'].
  - rewrite decide_True by (by exists [x]). rewrite sumZ_zero; [lia|]. intros p Hp. apply elem_of_elements in Hp.
    destruct p as [|y p _] using rev_ind; [done|]. rewrite last_snoc, parent_snoc. case_decide; [subst p|done].
    unfold counted. simpl. rewrite decide_False; [done|]. intros Hpre.
    apply prefix_app_inv, prefix_cons_inv_1 in Hpre as ->. by rewrite (tr_disjoint w Ht _ Hp) in Hk.
  - case_decide as Hpre.
    + apply prefix_parent in Hpre; [|done]. rewrite parent_snoc in Hpre. destruct Hpre as [r ->].
      destruct r as [|y r]; [by rewrite app_nil_r in Hk'|].
      rewrite (sumZ_single _ _ (d ++ [y])).
      * rewrite last_snoc, parent_snoc, decide_True by done. unfold counted. simpl.
        rewrite decide_True; [done|]. exists (r ++ [x]). by rewrite <- !app_assoc.
      * apply NoDup_elements.
      * apply elem_of_elements. eapply tree_ancestor; [done|exact Hpar|]. exists r. by rewrite <- app_assoc.
      * intros p _ Hp. destruct p as [|z p _] using rev_ind; [done|]. rewrite last_snoc, parent_snoc.
        case_decide; [subst p|done]. unfold counted. simpl. rewrite decide_False; [done|]. intros Hpre.
        apply Hp. rewrite <- !app_assoc in Hpre. apply prefix_app_inv, prefix_cons_inv_1 in Hpre. by rewrite Hpre.
    + rewrite sumZ_zero; [done|]. intros p _. destruct p as [|z p _] using rev_ind; [done|].
      rewrite last_snoc, parent_snoc. case_decide; [subst p|done]. unfold counted. simpl. rewrite decide_False; [done|].
      intros Hpz. apply Hpre. etrans; [|exact Hpz]. by exists [z].
Qed.

Lemma usage_entries w d :
  tree w -> d ∈ wDirs w ->
  usage_of d (wFiles w) = sumZ (entry_size w d) (file_entries w d ++ dir_entries w d).
Proof.
  intros Ht Hd. unfold usage_of at 1.
  rewrite (sumZ_ext _ (fun kv => (match last kv.1 with Some n => if decide (parent kv.1 = d) then size_of kv.2 else 0 | None => 0 end)
    + sumZ (fun p => match last p with Some n => if decide (parent p = d) then counted p kv else 0 | None => 0 end)
           (elements (wDirs w)))).
  2:{ intros [k f] Hk. apply elem_of_map_to_list in Hk. by apply counted_entries. }
  rewrite sumZ_add, sumZ_app, sumZ_swap. unfold file_entries, dir_entries. rewrite !sumZ_omap. f_equal.
  - apply sumZ_ext. intros [k f] _. simpl. destruct (last k); [|done]. by case_decide.
  - apply sumZ_ext. intros p _. destruct p as [|z p _] using rev_ind; [simpl; by apply sumZ_zero|].
    rewrite last_snoc, parent_snoc. case_decide; [|by apply sumZ_zero]. subst. done.
Qed.

Lemma file_size_ok f w : wFaults w = [] -> file_size f w = (Ok (size_of f), w).
Proof. intros Hw. unfold file_size, try, mbind, M_bind. by rewrite syscall_ok. Qed.

Lemma walk_entries_ok visit d w ents :
  wFaults w = [] -> Forall (fun ent => plain (deName ent)) ents ->
  (forall ent, ent ∈ ents -> deFile ent = None ->
     visit (d ++ [deName ent]) w = (Ok (usage_of (d ++ [deName ent]) (wFiles w)), w)) ->
  walk_entries visit d ents w = (Ok (sumZ (entry_size w d) ents), w).
Proof.
  intros Hw Hp Hv. induction Hp as [|ent ents Hent Hp IH]; [done|]. cbn [walk_entries].
  erewrite bind_ok with (a := entry_size w d ent) (w' := w).
  - erewrite bind_ok; [done|]. apply IH. intros e He. apply Hv. set_solver.
  - unfold entry_size, visit_entry. destruct (deFile ent) as [f|] eqn:E; [by apply file_size_ok|].
    rewrite join_plain by done. apply Hv; [set_solver|done].
Qed.

Lemma entries_plain w d : wf_world w ->
  Forall (fun ent => plain (deName ent)) (file_entries w d ++ dir_entries w d).
Proof.
  intros [Hf Hd]. apply Forall_forall. intros ent [Hin|Hin]%elem_of_app.
  - apply elem_of_file_entries in Hin as (f & _ & Hin).
    pose proof (Hf _ (ex_intro _ _ Hin)) as Hp. apply Forall_app in Hp as [_ Hp]. by apply Forall_inv in Hp.
  - apply list_elem_of_omap in Hin as (p & Hp & E). destruct (last p) as [n|] eqn:El; [|done].
    case_decide; [|done]. injection E as <-. apply last_Some in El as [p' ->]. apply elem_of_elements in Hp.
    apply Hd, Forall_app in Hp as [_ Hp]. by apply Forall_inv in Hp.
Qed.

Lemma elem_of_dir_entries w d ent : ent ∈ dir_entries w d -> deFile ent = None -> d ++ [deName ent] ∈ wDirs w.
Proof.
  intros (p & Hp & E)%list_elem_of_omap _. destruct (last p) as [n|] eqn:El; [|done].
  case_decide as Hd; [|done]. injection E as <-. apply last_Some in El as [p' ->]. rewrite parent_snoc in Hd.
  subst. by apply elem_of_elements in Hp.
Qed.

(** Enough fuel walks a whole directory. *)
Lemma walk_ok fuel w d :
  wFaults w = [] -> tree w -> d ∈ wDirs w -> (depth w < length d + fuel)%nat ->
  walk fuel d w = (Ok (usage_of d (wFiles w)), w).
Proof.
  intros Hw Ht. revert d. induction fuel as [|fuel IH]; intros d Hd Hn.
  - exfalso. pose proof (max_list_elem_of_le (length d) (length <$> elements (wDirs w))) as Hmax.
    unfold depth in Hn. specialize (Hmax (list_elem_of_fmap_2 _ _ _ (proj2 (elem_of_elements _ _) Hd))). lia.
  - cbn [walk]. erewrite bind_ok; [|by apply try_eq, ReadDir_ok]. rewrite decide_True by done. cbv beta iota.
    rewrite walk_entries_ok; [|done|by rewrite sort_slice_perm; apply entries_plain, tr_plain|].
    + rewrite (usage_entries w d) by done. f_equal. f_equal. apply sumZ_perm. apply sort_slice_perm.
    + intros ent Hent Hnone. apply IH; [|rewrite length_app; simpl; lia].
      rewrite elem_of_sort_slice in Hent. apply elem_of_app in Hent as [Hf|Hf].
      * apply elem_of_file_entries in Hf as (f & Hf & _). congruence.
      * by eapply elem_of_dir_entries.
Qed.

(** What an entry counts for is not negative. *)
Lemma counted_nonneg d kv : 0 <= counted d kv.
Proof. unfold counted, size_of. case_decide; lia. Qed.
Lemma usage_of_nonneg d fs : 0 <= usage_of d fs.
Proof. apply sumZ_nonneg. intros kv _. apply counted_nonneg. Qed.

Lemma tree_world w w' : wFiles w' = wFiles w -> wDirs w' = wDirs w -> tree w -> tree w'.
Proof. intros Hf Hd [[H1 H2] H3 H4 H5]. by split; [split|..]; rewrite ?Hf, ?Hd. Qed.

(** The outcome of a measurement: between nothing and the whole. *)
Definition at_most (n : Z) (w : world) (r : result error Z) (w' : world) : Prop :=
  (exists m, r = Ok m /\ 0 <= m <= n) /\ wFiles w' = wFiles w /\ wDirs w' = wDirs w.

Lemma next_fault_cases w : exists f fs, next_fault w = (Ok f, set_faults fs w).
Proof.
  unfold next_fault. destruct w as [? ? [|f fs] ? ? ? ? ? ?]; simpl; [by exists NoFault, []|by exists f, fs].
Qed.

Lemma file_size_at_most f w : at_most (size_of f) w (file_size f w).1 (file_size f w).2.
Proof.
  unfold file_size, try, syscall, mbind, M_bind. destruct (next_fault_cases w) as (x & fs & ->).
  assert (0 <= size_of f) by (unfold size_of; lia).
  destruct x; simpl; (split; [eexists; split; [done|lia]|done]).
Qed.

Definition same_tree (w w' : world) : Prop := wFiles w' = wFiles w /\ wDirs w' = wDirs w.

Lemma walk_entries_at_most w0 visit d ents :
  (forall w ent, same_tree w0 w -> ent ∈ ents -> deFile ent = None ->
     at_most (usage_of (d ++ [deName ent]) (wFiles w0)) w (visit (d ++ [deName ent]) w).1 (visit (d ++ [deName ent]) w).2) ->
  Forall (fun ent => plain (deName ent)) ents ->
  forall w, same_tree w0 w ->
  at_most (sumZ (entry_size w0 d) ents) w (walk_entries visit d ents w).1 (walk_entries visit d ents w).2.
Proof.
  intros Hv Hp. induction Hp as [|ent ents Hent Hp IH]; intros w Hw; cbn [walk_entries].
  - split; [exists 0; done|done].
  - assert (at_most (entry_size w0 d ent) w (visit_entry visit d ent w).1 (visit_entry visit d ent w).2) as H1.
    { unfold entry_size, visit_entry. destruct (deFile ent) eqn:E; [apply file_size_at_most|].
      rewrite join_plain by done. apply Hv; [done|set_solver|done]. }
    unfold mbind, M_bind. destruct (visit_entry visit d ent w) as [r1 w1]. cbn [fst snd] in H1.
    destruct H1 as ((m1 & -> & Hm1) & Hf1 & Hd1). cbn [fst snd] in *.
    assert (same_tree w0 w1) as Hw1 by (destruct Hw; split; congruence).
    assert (H2 := IH ltac:(intros ? ? ? ?; apply Hv; [done|set_solver]) w1 Hw1).
    destruct (walk_entries visit d ents w1) as [r2 w2]. destruct H2 as ((m2 & E2 & Hm2) & Hf2 & Hd2).
    cbn [fst snd] in *. subst r2. split; [|split; simpl; congruence].
    exists (m1 + m2). split; [done|]. unfold sumZ in *. simpl. lia.
Qed.

(** A directory that is read. *)
Lemma ReadDir_cases d w :
  (exists e w', ReadDir d w = (Err e, w') /\ same_tree w w') \/
  (exists w', ReadDir d w = (Ok (sort_slice (fun a b => str_ltb (deName a) (deName b)) (file_entries w d ++ dir_entries w d)), w')
     /\ same_tree w w').
Proof.
  unfold ReadDir, syscall, mbind, M_bind. destruct (next_fault_cases w) as (x & fs & ->).
  destruct x; [|left; eexists _, _; split; [reflexivity|done]..]. cbn.
  case_decide; [right; eexists _|left; eexists _, _]; (split; [reflexivity|done]).
Qed.

Lemma walk_at_most fuel w d : tree w -> d ∈ wDirs w ->
  at_most (usage_of d (wFiles w)) w (walk fuel d w).1 (walk fuel d w).2.
Proof.
  revert w d. induction fuel as [|fuel IH]; intros w d Ht Hd.
  - split; [exists 0; split; [done|]|done]. split; [done|apply usage_of_nonneg].
  - cbn [walk]. unfold try, mbind, M_bind.
    destruct (ReadDir_cases d w) as [(e & w1 & -> & Hs)|(w1 & -> & Hs)]; cbn [fst snd].
    + split; [exists 0; split; [done|]|exact Hs]. split; [done|apply usage_of_nonneg].
    + destruct (walk_entries_at_most w (walk fuel) d
        (sort_slice (fun a b => str_ltb (deName a) (deName b)) (file_entries w d ++ dir_entries w d)))
        with (w := w1) as (Hm & Hf & Hdd).
      * intros w2 ent Hs2 Hent Hnone. destruct Hs2 as [Hf2 Hd2]. rewrite <- Hf2. apply IH.
        -- by apply (tree_world w).
        -- rewrite Hd2. rewrite elem_of_sort_slice in Hent. apply elem_of_app in Hent as [He|He].
           ++ apply elem_of_file_entries in He as (f & He & _). congruence.
           ++ by eapply elem_of_dir_entries.
      * rewrite sort_slice_perm. by apply entries_plain, tr_plain.
      * done.
      * rewrite (usage_entries w d) by done.
        rewrite <- (sumZ_perm _ _ _ (sort_slice_perm (fun a b => str_ltb (deName a) (deName b)) _)).
        destruct Hs. split; [exact Hm|split; congruence].
Qed.

(** A missing or unreadable root. *)
Lemma usage_of_missing w root : tree w -> root ∉ wDirs w ->
  usage_of root (wFiles w) = match wFiles w !! root with Some f => size_of f | None => 0 end.
Proof.
  intros Ht Hr. unfold usage_of.
  assert (forall k f, wFiles w !! k = Some f -> root `prefix_of` k -> k = root) as Hk.
  { intros k f Hk Hp. destruct (decide (root = k)) as [|Hne]; [done|]. exfalso. apply Hr.
    eapply tree_ancestor; [done|by eapply (tr_file w Ht k f)|by apply prefix_parent]. }
  destruct (wFiles w !! root) as [f|] eqn:E.
  - rewrite (sumZ_single _ _ (root, f)); [|apply NoDup_map_to_list|by apply elem_of_map_to_list|].
    + unfold counted. by rewrite decide_True.
    + intros [k g] Hin Hne. apply elem_of_map_to_list in Hin. unfold counted. simpl. case_decide; [|done].
      assert (k = root) as -> by by eapply Hk. congruence.
  - apply sumZ_zero. intros [k g] Hin. apply elem_of_map_to_list in Hin. unfold counted. simpl. case_decide; [|done].
    assert (k = root) as -> by by eapply Hk. congruence.
Qed.

(** Whatever calls fail, a measurement gives a number that is at most the sum
    of the sizes, and changes nothing. *)
Lemma Usage_bound root w : tree w -> at_most (usage_of root (wFiles w)) w (Usage root w).1 (Usage root w).2.
Proof.
  intros Ht. unfold Usage, try, Stat, syscall, mbind, M_bind. destruct (next_fault_cases w) as (x & fs & ->).
  assert (0 <= usage_of root (wFiles w)) as H0 by apply usage_of_nonneg.
  destruct x; [|split; [by exists 0|done]..]. cbn. case_decide as Hr; cbn.
  - rewrite decide_True by done. destruct (walk_at_most (S (depth (set_faults fs w))) (set_faults fs w) root) as (Hm & Hf & Hd).
    + by apply (tree_world w).
    + done.
    + split; [exact Hm|by split].
  - rewrite (usage_of_missing w root Ht Hr) in *. destruct (wFiles w !! root) as [f|] eqn:E; cbn.
    + rewrite decide_False by done. destruct (file_size_at_most f (set_faults fs w)) as (Hm & Hf & Hd).
      cbn. rewrite E. split; [exact Hm|by split].
    + split; [by exists 0|done].
Qed.

Lemma Usage_ok root w : wFaults w = [] -> tree w -> Usage root w = (Ok (usage_of root (wFiles w)), w).
Proof.
  intros Hw Ht. unfold Usage, try, Stat, mbind, M_bind. rewrite syscall_ok by done. cbn -[walk file_size].
  case_decide as Hr; cbn -[walk file_size].
  - rewrite decide_True by done. apply walk_ok; [done..|lia].
  - rewrite (usage_of_missing w root Ht Hr). destruct (wFiles w !! root) as [f|] eqn:E; cbn -[walk file_size]; [|done].
    rewrite decide_False by done. cbn -[walk file_size]. rewrite E. by apply file_size_ok.
Qed.

(** A measurement never fails and changes nothing; it finds the sum of
    the sizes of all files below the root, or less when calls fail. *)
Theorem Usage_spec root w :
  tree w ->
  exists n w', Usage root w = (Ok n, w') /\ same_tree w w' /\
    0 <= n <= usage_of root (wFiles w) /\ (wFaults w = [] -> n = usage_of root (wFiles w)).
Proof.
  intros Ht. destruct (Usage_bound root w Ht) as ((n & En & Hn) & Hs).
  destruct (Usage root w) as [r w'] eqn:E. cbn [fst snd] in *. subst r. exists n, w'.
  split; [done|]. split; [exact Hs|]. split; [exact Hn|].
  intros Hw. rewrite (Usage_ok root w Hw Ht) in E. congruence.
Qed.

(** ** The cache *)

Definition measure (dir : str) : M Z := Usage (abs_path dir).

(** What is cached is at least what a walk would find: mail arrives through
    deliveries that are recorded, and may leave in any way. *)
Definition covers (m : Manager) (fs : gmap path file) : Prop :=
  forall dir e, qmCache m !! dir = Some e -> usage_of (abs_path dir) fs <= enBytes e.

Lemma covers_set m fs dir b now :
  covers m fs -> usage_of (abs_path dir) fs <= b -> covers (set_entry m dir (mkUsage b now)) fs.
Proof.
  intros Hm Hb dir' e. unfold set_entry. cbn [qmCache].
  destruct (decide (dir' = dir)) as [->|Hne]; [rewrite lookup_insert_eq|rewrite lookup_insert_ne by done; apply Hm].
  by intros [= <-].
Qed.

Lemma time_now_host w : wHost (time_now w).2 = wHost w.
Proof. unfold time_now. by destruct (wTicks w). Qed.

(** On a working file system the answer is never below the usage. *)
Lemma Get_ok m dir w :
  wFaults w = [] -> tree w -> covers m (wFiles w) ->
  exists n m' w', Get measure m dir w = (Ok (n, m'), w') /\ usage_of (abs_path dir) (wFiles w) <= n /\
    same_disk w w' /\ wHost w' = wHost w /\ covers m' (wFiles w) /\ dom (qmCache m') ⊆ {[dir]} ∪ dom (qmCache m).
Proof.
  intros Hw Ht Hm. destruct (time_now_ok w) as (now & w1 & E1 & Hs). unfold Get. erewrite bind_ok by exact E1.
  assert (wHost w1 = wHost w) as Hh by (pose proof (time_now_host w) as H; by rewrite E1 in H).
  assert (tree w1) as Ht1 by (destruct Hs as (Hf & Hd & _); by apply (tree_world w)).
  set (u := usage_of (abs_path dir) (wFiles w)).
  assert ((r ← try (measure dir);
     mret (match r with
           | Ok b => (b, set_entry m dir (mkUsage b now))
           | Err _ => (match qmCache m !! dir with Some e => enBytes e | None => 0 end, m)
           end)) w1 = (Ok (u, set_entry m dir (mkUsage u now)), w1)) as E2.
  { destruct Hs as (Hf & _ & Hx).
    erewrite bind_ok; [|apply try_eq, Usage_ok; [congruence|done]]. rewrite Hf. reflexivity. }
  assert (covers (set_entry m dir (mkUsage u now)) (wFiles w)) as Hc by by apply covers_set.
  assert (dom (qmCache (set_entry m dir (mkUsage u now))) ⊆ {[dir]} ∪ dom (qmCache m)) as Hdom by (simpl; set_solver).
  cbv zeta. destruct (qmCache m !! dir) as [e|] eqn:Ee; [case_match|].
  - exists (enBytes e), m, w1. split; [done|]. split; [by apply (Hm dir e Ee)|]. split_and!; try done. set_solver.
  - by exists u, (set_entry m dir (mkUsage u now)), w1.
  - by exists u, (set_entry m dir (mkUsage u now)), w1.
Qed.

(** A file that is written counts for the directories above it. *)
Lemma usage_of_insert root fs p f :
  usage_of root (<[p := f]> fs) <= (if decide (root `prefix_of` p) then size_of f else 0) + usage_of root fs.
Proof.
  assert (forall fs, fs !! p = None ->
    usage_of root (<[p := f]> fs) = (if decide (root `prefix_of` p) then size_of f else 0) + usage_of root fs) as Hnew.
  { intros fs' Hp. unfold usage_of. by rewrite (sumZ_perm _ _ _ (map_to_list_insert fs' p f Hp)). }
  destruct (fs !! p) as [g|] eqn:E; [|rewrite Hnew by done; lia].
  rewrite <- (insert_delete_eq fs p f), Hnew by apply lookup_delete_eq.
  apply Z.add_le_mono_l. unfold usage_of.
  rewrite (sumZ_perm _ (map_to_list fs) ((p, g) :: map_to_list (delete p fs))).
  - simpl. pose proof (counted_nonneg root (p, g)). lia.
  - by rewrite <- map_to_list_insert, insert_delete_id by (done || apply lookup_delete_eq).
Qed.

(** Recording a delivery keeps the cache safe if no other cached directory
    lies above the new file. *)
Lemma Add_ok m dir fs p f :
  covers m fs ->
  (forall dir', dir' ∈ dom (qmCache m) -> dir' <> dir -> ~ abs_path dir' `prefix_of` p) ->
  covers (Add m dir (size_of f)) (<[p := f]> fs).
Proof.
  intros Hm Hother dir' e He. pose proof (usage_of_insert (abs_path dir') fs p f) as Hi.
  unfold Add in He. destruct (qmCache m !! dir) as [e0|] eqn:E0.
  - cbn in He. apply lookup_insert_Some in He as [[<- <-]|[Hne He]].
    + cbn. specialize (Hm dir e0 E0). case_decide; unfold size_of in *; lia.
    + rewrite decide_False in Hi by (apply Hother; [by apply elem_of_dom_2 in He|done]). specialize (Hm dir' e He). lia.
  - assert (dir' <> dir) as Hne by congruence.
    rewrite decide_False in Hi by (apply Hother; [by apply elem_of_dom_2 in He|done]). specialize (Hm dir' e He). lia.
Qed.
Lemma Add_dom m dir n : dom (qmCache (Add m dir n)) = dom (qmCache m).
Proof.
  unfold Add. destruct (qmCache m !! dir) as [e|] eqn:E; [|done]. cbn. rewrite dom_insert_L.
  apply elem_of_dom_2 in E. set_solver.
Qed.
