(* ===== verification/Reputation.v ===== *)
(** * Sending reputation (internal/reputation/reputation.go)

    Scores of senders and domains that decay toward the neutral one, and the
    warm-up schedule of a new domain.  Rationals stand for [float64]; each
    reading of the clock is an argument, in nanoseconds.  The JSON encoding of
    the store is the class [StoreCodec]. *)

From S2P Require Import Prelude GoStrings GoOS RateLimit.

#[global] Open Scope Z_scope.

(** ** Scores *)

Definition ScoreExcellent : Q := 100.
Definition ScoreNormal : Q := 50.
Definition ScoreSuspect : Q := 20.
Definition ScoreBlocked : Q := 0.

Inductive Event :=
| EventDelivered | EventAuthPass | EventBounce | EventSpamComplaint | EventBlacklisted | EventAnomaly.

Definition delta (e : Event) : Q :=
  match e with
  | EventDelivered => (5 / 10)%Q
  | EventAuthPass => (2 / 10)%Q
  | EventBounce => -2
  | EventSpamComplaint => -15
  | EventBlacklisted => -30
  | EventAnomaly => -25
  end.

Record record := mkRecord {
  rcScore : Q;
  rcUpdated : Z;
  rcFirst : Z;
  rcSent : Z;
  rcBounced : Z;
  rcReported : Z;
  rcDaySent : Z;
  rcDayFrom : Z }.

Record Store := mkStore {
  stPath : option path;              (** [None] is the empty path *)
  stRecords : gmap str record;
  stDirty : bool }.

Definition minf (a b : Q) : Q := if Qltb a b then a else b.
Definition maxf (a b : Q) : Q := if Qltb b a then a else b.
Definition clamp (v : Q) : Q := maxf ScoreBlocked (minf ScoreExcellent v).

Definition day : Z := 24 * 3600 * 10 ^ 9.
(** [d.Hours() / 24]. *)
Definition days (d : Z) : Q := inject_Z d / inject_Z day.

Definition set_record (s : Store) (key : str) (r : record) : Store :=
  mkStore (stPath s) (<[key := r]> (stRecords s)) true.

(** The decay of one point per day toward the neutral score. *)
Definition decayed (r : record) (now : Z) : record :=
  let d := days (now - rcUpdated r) in
  if Qle_bool 1 d then
    let score :=
      if Qltb (rcScore r) ScoreNormal then minf ScoreNormal (rcScore r + d)
      else if Qltb ScoreNormal (rcScore r) then maxf ScoreNormal (rcScore r - d)
      else rcScore r in
    mkRecord score now (rcFirst r) (rcSent r) (rcBounced r) (rcReported r) (rcDaySent r) (rcDayFrom r)
  else r.

(** The daily counter starts again when the day rolled over. *)
Definition rolled (r : record) (now : Z) : record :=
  if day <=? now - rcDayFrom r then
    mkRecord (rcScore r) (rcUpdated r) (rcFirst r) (rcSent r) (rcBounced r) (rcReported r) 0 now
  else r.

Definition fresh (now : Z) : record := mkRecord ScoreNormal now now 0 0 0 0 now.

Definition get (s : Store) (key : str) (now : Z) : record * Store :=
  match stRecords s !! key with
  | None => (fresh now, set_record s key (fresh now))
  | Some r =>
      let r' := rolled (decayed r now) now in
      let dirty := Qle_bool 1 (days (now - rcUpdated r)) || (day <=? now - rcDayFrom (decayed r now)) in
      (r', mkStore (stPath s) (<[key := r']> (stRecords s)) (stDirty s || dirty))
  end.

(** What an event does to a record, [t1] being the second reading. *)
Definition apply_event (r : record) (e : Event) (t1 : Z) : record :=
  let score := clamp (rcScore r + delta e) in
  match e with
  | EventDelivered => mkRecord score t1 (rcFirst r) (u64 (rcSent r + 1)) (rcBounced r) (rcReported r)
                        (u64 (rcDaySent r + 1)) (rcDayFrom r)
  | EventBounce => mkRecord score t1 (rcFirst r) (rcSent r) (u64 (rcBounced r + 1)) (rcReported r)
                        (rcDaySent r) (rcDayFrom r)
  | EventSpamComplaint => mkRecord score t1 (rcFirst r) (rcSent r) (rcBounced r) (u64 (rcReported r + 1))
                        (rcDaySent r) (rcDayFrom r)
  | _ => mkRecord score t1 (rcFirst r) (rcSent r) (rcBounced r) (rcReported r) (rcDaySent r) (rcDayFrom r)
  end.

(** [Record]. *)
Definition RecordEvent (s : Store) (key : str) (e : Event) (t0 t1 : Z) : Q * Store :=
  let '(r, s) := get s key t0 in
  let r := apply_event r e t1 in
  (rcScore r, set_record s key r).

Definition Score (s : Store) (key : str) (now : Z) : Q * Store :=
  let '(r, s) := get s key now in (rcScore r, s).

Definition Blocked (s : Store) (key : str) (now : Z) : bool * Store :=
  let '(score, s) := Score s key now in (Qle_bool score (ScoreSuspect / 2), s).

Definition Band (score : Q) : str :=
  if Qle_bool 80 score then #"excellent"
  else if Qle_bool 40 score then #"normal"
  else if Qltb (ScoreSuspect / 2) score then #"suspect"
  else #"blocked".

(** ** The snapshot *)

Record Stats := mkStats {
  ssKey : str; ssScore : Q; ssSent : Z; ssBounced : Z; ssReported : Z; ssDaySent : Z; ssFirstSeen : Z }.

Definition stats_of (kr : str * record) : Stats :=
  let '(k, r) := kr in
  mkStats k (rcScore r) (rcSent r) (rcBounced r) (rcReported r) (rcDaySent r) (rcFirst r).

(** [visited] are the records in the order in which the map is ranged over. *)
Definition Snapshot (visited : list (str * record)) : list Stats :=
  sort_slice (fun a b => Qltb (ssScore a) (ssScore b)) (map stats_of visited).

(** ** Persistence *)

Class StoreCodec := {
  marshal : gmap str record -> option str;
  unmarshal : str -> option (gmap str record) }.

(** What encoding/json documents: times of the years 0 to 9999 can be encoded,
    and a map with keys in ASCII comes back as it was. *)
Definition encodable (m : gmap str record) : Prop :=
  forall k r, m !! k = Some r ->
    is_ascii k /\ in_years (rcUpdated r) /\ in_years (rcFirst r) /\ in_years (rcDayFrom r).
Class LawfulStoreCodec `{StoreCodec} := {
  marshal_total : forall m, encodable m -> is_Some (marshal m);
  unmarshal_marshal : forall m b, encodable m -> marshal m = Some b -> unmarshal b = Some m }.

Section Persist.
Context `{StoreCodec}.

Definition Open (p : option path) : M Store :=
  match p with
  | None => mret (mkStore None ∅ false)
  | Some f =>
      b ← try (ReadFile f);
      match b with
      | Err e => if IsNotExist e then mret (mkStore p ∅ false) else throw e
      | Ok b => mret (mkStore p (default ∅ (unmarshal b)) false)
      end
  end.

Definition Save (s : Store) : M Store :=
  match stPath s with
  | None => mret s
  | Some p =>
      if negb (stDirty s) then mret s
      else
        MkdirAll (parent p) ≫= fun _ =>
        match marshal (stRecords s) with
        | None => throw (ErrText #"json: unsupported value")
        | Some b =>
            replace_file p b ≫= fun _ => mret (mkStore (stPath s) (stRecords s) false)
        end
  end.
End Persist.

(** ** Warm-up *)

Record WarmUp := mkWarmUp { wuEnabled : bool; wuDay1 : Z; wuDay7 : Z; wuFull : Z }.

(** [uint64(f * float64(d))]. *)
Definition part (f : Q) (d : Z) : Z := Qfloor (f * inject_Z (u64 d)).

Definition DailyLimit (w : WarmUp) (age : Z) : Z :=
  if negb (wuEnabled w) then 0
  else
    let d := days age in
    if Qle_bool d 1 then wuDay1 w
    else if Qle_bool 30 d then wuFull w
    else if Qle_bool d 7 then u64 (wuDay1 w + part ((d - 1) / 6) (wuDay7 w - wuDay1 w))
    else u64 (wuDay7 w + part ((d - 7) / 23) (wuFull w - wuDay7 w)).

Definition AllowSend (s : Store) (key : str) (w : WarmUp) (t0 t1 : Z) : (bool * Z) * Store :=
  if negb (wuEnabled w) then (true, 0, s)
  else
    let '(r, s) := get s key t0 in
    let limit := DailyLimit w (t1 - rcFirst r) in
    if limit =? 0 then (true, 0, s) else (rcDaySent r <? limit, limit, s).

(** ** Scores stay in range and move toward the neutral one *)

Lemma Qle_bool_false a b : Qle_bool a b = false <-> (b < a)%Q.
Proof. by rewrite <- Qltb_lt; unfold Qltb; rewrite negb_true_iff. Qed.

(** Case analysis on the comparisons of rationals. *)
Ltac qcases :=
  repeat match goal with
  | |- context [Qltb ?a ?b] => destruct (Qltb a b) eqn:?
  | |- context [Qle_bool ?a ?b] => destruct (Qle_bool a b) eqn:?
  end;
  rewrite ?Qltb_lt, ?Qltb_ge, ?Qle_bool_iff, ?Qle_bool_false in *.

Definition in_range (q : Q) : Prop := (ScoreBlocked <= q <= ScoreExcellent)%Q.

Lemma clamp_range v : in_range (clamp v).
Proof. unfold in_range, clamp, maxf, minf, ScoreBlocked, ScoreExcellent. qcases; lra. Qed.

(** The decay lies between the score and the neutral one, a point a day. *)
Lemma decayed_range r now : in_range (rcScore r) -> in_range (rcScore (decayed r now)).
Proof.
  unfold in_range, decayed, maxf, minf, ScoreBlocked, ScoreExcellent, ScoreNormal.
  intros H. qcases; cbn [rcScore]; lra.
Qed.

Lemma rolled_score r now : rcScore (rolled r now) = rcScore r.
Proof. unfold rolled. by destruct (day <=? _). Qed.

Definition store_ok (s : Store) : Prop := forall key r, stRecords s !! key = Some r -> in_range (rcScore r).

Lemma store_ok_insert s p d key r :
  store_ok s -> in_range (rcScore r) -> store_ok (mkStore p (<[key := r]> (stRecords s)) d).
Proof. intros Hs Hr k r'. cbn [stRecords]. intros [[-> <-]|[_ Hk]]%lookup_insert_Some; [done|by eapply Hs]. Qed.

Lemma get_spec s key now :
  store_ok s -> in_range (rcScore (get s key now).1) /\ store_ok (get s key now).2 /\
  stRecords (get s key now).2 !! key = Some (get s key now).1.
Proof.
  intros Hs. unfold get. destruct (stRecords s !! key) as [r|] eqn:E; cbn [fst snd].
  - assert (in_range (rcScore (rolled (decayed r now) now))) as Hr
      by (rewrite rolled_score; apply decayed_range; by eapply Hs).
    split; [done|]. split; [by apply store_ok_insert|]. cbn. apply lookup_insert_eq.
  - assert (in_range (rcScore (fresh now))) as Hr by done.
    split; [done|]. split; [by apply store_ok_insert|]. cbn. apply lookup_insert_eq.
Qed.

(** ** What can happen to a store *)

Inductive operation :=
| OpRecord (key : str) (e : Event) (t0 t1 : Z)
| OpScore (key : str) (t : Z)
| OpAllowSend (key : str) (w : WarmUp) (t0 t1 : Z).

Definition perform (s : Store) (o : operation) : Store :=
  match o with
  | OpRecord key e t0 t1 => (RecordEvent s key e t0 t1).2
  | OpScore key t => (Score s key t).2
  | OpAllowSend key w t0 t1 => (AllowSend s key w t0 t1).2
  end.

Lemma apply_event_score r e t : rcScore (apply_event r e t) = clamp (rcScore r + delta e).
Proof. by destruct e. Qed.

Lemma perform_ok s o : store_ok s -> store_ok (perform s o).
Proof.
  intros Hs. destruct o as [key e t0 t1|key t|key w t0 t1]; cbn [perform].
  - unfold RecordEvent. destruct (get_spec s key t0 Hs) as (Hr & Hg & _).
    destruct (get s key t0) as [r s1]. cbn [fst snd] in *. apply store_ok_insert; [done|].
    rewrite apply_event_score. apply clamp_range.
  - unfold Score. destruct (get_spec s key t Hs) as (Hr & Hg & _). by destruct (get s key t).
  - unfold AllowSend. destruct (negb (wuEnabled w)); [done|]. destruct (get_spec s key t0 Hs) as (Hr & Hg & _).
    destruct (get s key t0) as [r s1]. by destruct (_ =? 0).
Qed.

(** Whatever is recorded and asked, in whatever order and at whatever times,
    every score stays between 0 and 100. *)
Theorem scores_in_range ops s : store_ok s -> store_ok (fold_left perform ops s).
Proof. revert s. induction ops as [|o ops IH]; intros s Hs; [done|]. by apply IH, perform_ok. Qed.

(** ** Warm-up *)

Definition growing (w : WarmUp) : Prop :=
  wuEnabled w = true /\ 0 < wuDay1 w /\ wuDay1 w <= wuDay7 w /\ wuDay7 w <= wuFull w /\ wuFull w < 2 ^ 64.

Lemma part_mono f g d : (f <= g)%Q -> part f d <= part g d.
Proof.
  intros H. unfold part. apply Qfloor_resp_le. apply Qmult_le_compat_r; [done|].
  change 0%Q with (inject_Z 0). rewrite <- Zle_Qle. unfold u64. apply Z.mod_pos_bound. lia.
Qed.

Lemma part_range f d : (0 <= f)%Q -> (f <= 1)%Q -> 0 <= d < 2 ^ 64 -> 0 <= part f d <= d.
Proof.
  intros H0 H1 Hd. split.
  - replace 0 with (part 0 d) at 1; [by apply part_mono|]. unfold part. rewrite Qmult_0_l. done.
  - transitivity (part 1 d); [by apply part_mono|]. unfold part. rewrite Qmult_1_l, Qfloor_Z, u64_id by done. done.
Qed.

Lemma days_mono a b : a <= b -> (days a <= days b)%Q.
Proof.
  intros H. unfold days, Qdiv. apply Qmult_le_compat_r; [by rewrite <- Zle_Qle|]. done.
Qed.

Lemma share_range x n : (0 < n)%Q -> (0 <= x)%Q -> (x <= n)%Q -> (0 <= x / n)%Q /\ (x / n <= 1)%Q.
Proof.
  intros Hn H0 H1. split; [apply Qle_shift_div_l|apply Qle_shift_div_r]; lra.
Qed.

Lemma share_mono x y n : (0 < n)%Q -> (x <= y)%Q -> (x / n <= y / n)%Q.
Proof. intros Hn H. apply Qmult_le_compat_r; [done|]. by apply Qlt_le_weak, Qinv_lt_0_compat. Qed.

(** The two ramps as they are without overflow. *)
Lemma first_ramp w d : growing w -> (1 < d)%Q -> (d <= 7)%Q ->
  u64 (wuDay1 w + part ((d - 1) / 6) (wuDay7 w - wuDay1 w)) = wuDay1 w + part ((d - 1) / 6) (wuDay7 w - wuDay1 w) /\
  wuDay1 w <= wuDay1 w + part ((d - 1) / 6) (wuDay7 w - wuDay1 w) <= wuDay7 w.
Proof.
  intros (_ & H1 & H2 & H3 & H4) Hl Hu.
  destruct (share_range (d - 1) 6) as [Hs0 Hs1]; [done|lra..|].
  destruct (part_range ((d - 1) / 6) (wuDay7 w - wuDay1 w)); [done..|lia|].
  split; [apply u64_id; lia|lia].
Qed.

Lemma second_ramp w d : growing w -> (7 < d)%Q -> (d < 30)%Q ->
  u64 (wuDay7 w + part ((d - 7) / 23) (wuFull w - wuDay7 w)) = wuDay7 w + part ((d - 7) / 23) (wuFull w - wuDay7 w) /\
  wuDay7 w <= wuDay7 w + part ((d - 7) / 23) (wuFull w - wuDay7 w) <= wuFull w.
Proof.
  intros (_ & H1 & H2 & H3 & H4) Hl Hu.
  destruct (share_range (d - 7) 23) as [Hs0 Hs1]; [done|lra..|].
  destruct (part_range ((d - 7) / 23) (wuFull w - wuDay7 w)); [done..|lia|].
  split; [apply u64_id; lia|lia].
Qed.

Lemma DailyLimit_range w age : growing w -> wuDay1 w <= DailyLimit w age <= wuFull w.
Proof.
  intros Hw. pose proof Hw as (He & H1 & H2 & H3 & H4). unfold DailyLimit. rewrite He. cbn [negb].
  destruct (Qle_bool (days age) 1) eqn:E1; [lia|]. destruct (Qle_bool 30 (days age)) eqn:E2; [lia|].
  destruct (Qle_bool (days age) 7) eqn:E3; rewrite ?Qle_bool_iff, ?Qle_bool_false in *.
  - destruct (first_ramp w (days age)) as [-> ?]; [done..|lia].
  - destruct (second_ramp w (days age)) as [-> ?]; [done..|lia].
Qed.

(** The daily cap of a growing schedule goes from the cap of the first day
    to the full one and never falls as the domain grows older. *)
Theorem DailyLimit_grows w a b :
  growing w -> a <= b ->
  wuDay1 w <= DailyLimit w a /\ DailyLimit w a <= DailyLimit w b /\ DailyLimit w b <= wuFull w.
Proof.
  intros Hw Hab. split; [by apply DailyLimit_range|]. split; [|by apply DailyLimit_range].
  pose proof (days_mono a b Hab) as Hd. pose proof (DailyLimit_range w b Hw) as Hb.
  pose proof (DailyLimit_range w a Hw) as Ha.
  pose proof Hw as (He & H1 & H2 & H3 & H4). unfold DailyLimit in *. rewrite He in *. cbn [negb] in *.
  destruct (Qle_bool (days a) 1) eqn:Ea1; [lia|]. destruct (Qle_bool (days b) 1) eqn:Eb1; [rewrite Qle_bool_iff, Qle_bool_false in *; lra|].
  destruct (Qle_bool 30 (days b)) eqn:Eb30; [lia|]. destruct (Qle_bool 30 (days a)) eqn:Ea30; [rewrite Qle_bool_iff, Qle_bool_false in *; lra|].
  rewrite Qle_bool_false in *.
  destruct (Qle_bool (days a) 7) eqn:Ea7; destruct (Qle_bool (days b) 7) eqn:Eb7;
    rewrite ?Qle_bool_iff, ?Qle_bool_false in *.
  - rewrite (proj1 (first_ramp w (days a) Hw Ea1 Ea7)), (proj1 (first_ramp w (days b) Hw Eb1 Eb7)).
    apply Z.add_le_mono_l, part_mono, share_mono; [done|lra].
  - destruct (first_ramp w (days a) Hw Ea1 Ea7) as [-> ?], (second_ramp w (days b) Hw Eb7 Eb30) as [-> ?]. lia.
  - lra.
  - rewrite (proj1 (second_ramp w (days a) Hw Ea7 Ea30)), (proj1 (second_ramp w (days b) Hw Eb7 Eb30)).
    apply Z.add_le_mono_l, part_mono, share_mono; [done|lra].
Qed.

(** One attempt to send: the check, and the record of the delivery when it
    passes; the four readings of the clock are in order. *)
Record try_send := mkTry { tsCheck : Z; tsAge : Z; tsSent : Z; tsUpdated : Z }.

Definition send_once (key : str) (w : WarmUp) (s : Store) (t : try_send) : bool * Store :=
  let '(ok, _, s) := AllowSend s key w (tsCheck t) (tsAge t) in
  if ok : bool then (true, (RecordEvent s key EventDelivered (tsSent t) (tsUpdated t)).2) else (false, s).

(** The times of the deliveries. *)
Fixpoint sends (key : str) (w : WarmUp) (s : Store) (ts : list try_send) : list Z :=
  match ts with
  | [] => []
  | t :: r =>
      let '(ok, s) := send_once key w s t in
      if ok : bool then tsSent t :: sends key w s r else sends key w s r
  end.

(** How many of them fall on the 24 hours from [a]. *)
Definition during (a : Z) (l : list Z) : Z :=
  Z.of_nat (length (List.filter (fun t => (a <=? t) && (t <? a + day)) l)).

(** What the counter of a subject is and when its day began, at [t]. *)
Definition counter (s : Store) (key : str) (t : Z) : Z * Z :=
  match stRecords s !! key with None => (0, t) | Some r => (rcDaySent r, rcDayFrom r) end.
Definition roll (c : Z * Z) (t : Z) : Z * Z := if day <=? t - c.2 then (0, t) else c.

Lemma get_counter s key t :
  let '(r, s') := get s key t in
  (rcDaySent r, rcDayFrom r) = roll (counter s key t) t /\ stRecords s' !! key = Some r.
Proof.
  unfold get, counter, roll. destruct (stRecords s !! key) as [r|].
  - cbn [stRecords]. rewrite lookup_insert_eq. split; [|done]. unfold rolled, decayed.
    destruct (Qle_bool 1 (days (t - rcUpdated r))); cbn [rcDayFrom snd]; by destruct (day <=? t - rcDayFrom r).
  - cbn [set_record stRecords]. rewrite lookup_insert_eq. split; [|done]. cbn [snd fresh rcDaySent rcDayFrom].
    by destruct (day <=? t - t).
Qed.

(** The readings of the clock do not go back. *)
Fixpoint in_order (from : Z) (ts : list try_send) : Prop :=
  match ts with
  | [] => True
  | t :: r => from <= tsCheck t <= tsAge t /\ tsAge t <= tsSent t <= tsUpdated t /\ in_order (tsUpdated t) r
  end.

(** What is left to send in the 24 hours from [a], when [n] messages were
    counted since [f]. *)
Definition allowance (full a n f : Z) : Z :=
  if a + day <=? f then 0 else if a <=? f then full - n else if f + day <=? a then 2 * full else 2 * full - n.

Lemma allowance_roll full a c t :
  0 <= c.1 <= full -> c.2 <= t -> allowance full a (roll c t).1 (roll c t).2 <= allowance full a c.1 c.2.
Proof.
  intros Hn Hf. unfold roll. destruct (Z.leb_spec day (t - c.2)); [|done]. cbn [fst snd]. unfold allowance.
  assert (0 < day) by done. repeat case_match; to_prop; lia.
Qed.

Lemma allowance_send full a n f t :
  0 <= n < full -> f <= t -> t - f < day ->
  Z.b2z ((a <=? t) && (t <? a + day)) + allowance full a (n + 1) f <= allowance full a n f.
Proof.
  intros Hn Hf Ht. unfold allowance.
  destruct (Z.leb_spec a t), (Z.ltb_spec t (a + day)); simpl; repeat case_match; to_prop; lia.
Qed.

Lemma roll_spec c t full :
  c.2 <= t -> 0 <= c.1 <= full -> (roll c t).2 <= t /\ t - (roll c t).2 < day /\ 0 <= (roll c t).1 <= c.1.
Proof.
  intros Hf Hn. unfold roll. assert (0 < day) by done. destruct (Z.leb_spec day (t - c.2)); simpl; lia.
Qed.

Lemma during_cons a t l : during a (t :: l) = Z.b2z ((a <=? t) && (t <? a + day)) + during a l.
Proof. unfold during. cbn [List.filter]. destruct ((a <=? t) && (t <? a + day)); cbn [length Z.b2z]; lia. Qed.

(** What one attempt does to the counter. *)
Lemma send_once_counter key w s t :
  growing w -> 0 <= (counter s key (tsCheck t)).1 <= wuFull w ->
  let c1 := roll (counter s key (tsCheck t)) (tsCheck t) in
  let c2 := roll c1 (tsSent t) in
  let '(ok, s') := send_once key w s t in
  exists r, stRecords s' !! key = Some r /\ (ok = true -> c1.1 < wuFull w) /\
    (rcDaySent r, rcDayFrom r) = if ok then (u64 (c2.1 + 1), c2.2) else c1.
Proof.
  intros Hw Hc c1 c2. pose proof Hw as (He & _). unfold send_once, AllowSend. rewrite He. cbn [negb].
  pose proof (get_counter s key (tsCheck t)) as H1. destruct (get s key (tsCheck t)) as [r s1].
  destruct H1 as [H1 Hr]. fold c1 in H1.
  pose proof (DailyLimit_range w (tsAge t - rcFirst r) Hw) as Hl.
  destruct (Z.eqb_spec (DailyLimit w (tsAge t - rcFirst r)) 0) as [E|_]; [destruct Hw as (_ & ? & _); lia|].
  destruct (Z.ltb_spec (rcDaySent r) (DailyLimit w (tsAge t - rcFirst r))) as [Hlt|Hge]; [|by exists r].
  unfold RecordEvent. pose proof (get_counter s1 key (tsSent t)) as H2.
  destruct (get s1 key (tsSent t)) as [r2 s2]. destruct H2 as [H2 Hr2].
  assert (counter s1 key (tsSent t) = c1) as Ec by (unfold counter; by rewrite Hr).
  rewrite Ec in H2. fold c2 in H2. eexists. split; [cbn; apply lookup_insert_eq|]. split.
  - intros _. rewrite <- H1. cbn [fst]. lia.
  - cbn [apply_event rcDaySent rcDayFrom]. by rewrite <- H2.
Qed.

(** What a store allows in the 24 hours from [a]. *)
Definition remaining (key : str) (full a : Z) (s : Store) : Z :=
  match stRecords s !! key with None => 2 * full | Some r => allowance full a (rcDaySent r) (rcDayFrom r) end.
Definition counted_since (key : str) (full from : Z) (s : Store) : Prop :=
  forall r, stRecords s !! key = Some r -> rcDayFrom r <= from /\ 0 <= rcDaySent r <= full.

Lemma sends_remaining key w a ts : growing w -> forall from s,
  in_order from ts -> counted_since key (wuFull w) from s ->
  during a (sends key w s ts) <= remaining key (wuFull w) a s.
Proof.
  intros Hw. pose proof Hw as (_ & H1 & H2 & H3 & H4). induction ts as [|t ts IH]; intros from s Ho Hs.
  - unfold during, remaining, allowance. simpl.
    destruct (stRecords s !! key) as [r|] eqn:E; [destruct (Hs r E)|]; repeat case_match; lia.
  - cbn [sends]. destruct Ho as (Ho1 & Ho2 & Ho). set (c := counter s key (tsCheck t)).
    assert (c.2 <= tsCheck t /\ 0 <= c.1 <= wuFull w /\ allowance (wuFull w) a c.1 c.2 <= remaining key (wuFull w) a s)
      as (Hc2 & Hc1 & Hc).
    { unfold c, counter, remaining. destruct (stRecords s !! key) as [r|] eqn:E; cbn [fst snd].
      - destruct (Hs r E). lia.
      - unfold allowance. repeat case_match; lia. }
    pose proof (send_once_counter key w s t Hw Hc1) as Hsend. cbv zeta in Hsend. fold c in Hsend.
    destruct (roll_spec c (tsCheck t) (wuFull w) Hc2 Hc1) as (Hr2 & Hrd & Hr1).
    pose proof (allowance_roll (wuFull w) a c (tsCheck t) Hc1 Hc2) as Ha1.
    set (c1 := roll c (tsCheck t)) in *.
    destruct (roll_spec c1 (tsSent t) (wuFull w)) as (Hs2 & Hsd & Hs1); [lia..|].
    pose proof (allowance_roll (wuFull w) a c1 (tsSent t)) as Ha2. set (c2 := roll c1 (tsSent t)) in *.
    destruct (send_once key w s t) as [ok s']. destruct Hsend as (r & Hr & Hok & Er).
    assert (remaining key (wuFull w) a s' = allowance (wuFull w) a (rcDaySent r) (rcDayFrom r)) as Em
      by (unfold remaining; by rewrite Hr).
    pose proof (f_equal fst Er) as Hn. pose proof (f_equal snd Er) as Hf. destruct ok; cbn [fst snd] in Hn, Hf.
    + specialize (Hok eq_refl). rewrite u64_id in Hn by lia. rewrite during_cons.
      assert (counted_since key (wuFull w) (tsUpdated t) s') as Hs'.
      { intros r' Hr'. rewrite Hr in Hr'. injection Hr' as <-. lia. }
      specialize (IH (tsUpdated t) s' Ho Hs'). rewrite Em, Hn, Hf in IH. pose proof (allowance_send (wuFull w) a c2.1 c2.2 (tsSent t)). lia.
    + assert (counted_since key (wuFull w) (tsUpdated t) s') as Hs'.
      { intros r' Hr'. rewrite Hr in Hr'. injection Hr' as <-. rewrite Hn, Hf. lia. }
      specialize (IH (tsUpdated t) s' Ho Hs'). rewrite Em, Hn, Hf in IH. lia.
Qed.

(** The warm-up schedule is enforced: in any period of 24 hours a
    subject's deliveries, each allowed by [AllowSend] before it is recorded,
    are at most twice the full daily cap, the counter starting again once
    within the period. *)
Theorem warmup_cap key w s ts from a :
  growing w -> in_order from ts -> counted_since key (wuFull w) from s ->
  during a (sends key w s ts) <= 2 * wuFull w.
Proof.
  intros Hw Ho Hs. etrans; [by eapply sends_remaining|]. pose proof Hw as (_ & H1 & H2 & H3 & H4).
  unfold remaining, allowance. destruct (stRecords s !! key) as [r|] eqn:E; [destruct (Hs r E)|lia].
  repeat case_match; lia.
Qed.

(** ** Persistence *)

Section Persistence.
Context `{LawfulStoreCodec}.

Lemma MkdirAll_cases p w : exists r w', MkdirAll p w = (r, w') /\ wFiles w' = wFiles w.
Proof.
  unfold MkdirAll, syscall, mbind, M_bind, next_fault.
  destruct (wFaults w) as [|[] fs]; by eexists _, _.
Qed.

(** A store that is saved and opened again has the same records; if saving
    fails the file is as it was. *)
Theorem Save_Open s p w :
  stPath s = Some p -> stDirty s = true -> encodable (stRecords s) -> p <> [] -> wFaults w = [] ->
  exists w', Save s w = (Ok (mkStore (Some p) (stRecords s) false), w') /\
    Open (Some p) w' = (Ok (mkStore (Some p) (stRecords s) false), w').
Proof.
  intros Hp Hd He Hne Hw. unfold Save. rewrite Hp, Hd. cbn [negb].
  destruct (marshal_total _ He) as [b Hb]. rewrite Hb.
  erewrite bind_ok by (unfold MkdirAll; by rewrite syscall_ok).
  set (w1 := set_dirs _ w). destruct (replace_file_ok p b w1) as (w2 & E2 & Hf2 & Hd2 & Hx2); [done..| |].
  { unfold w1. cbn [wDirs set_dirs]. apply elem_of_union_l, elem_of_list_to_set, elem_of_prefixes. done. }
  exists w2. split; [by erewrite bind_ok by exact E2|]. unfold Open.
  erewrite bind_ok.
  2:{ apply try_eq. unfold ReadFile. rewrite syscall_ok by done. unfold mbind, M_bind, get_world.
      rewrite Hf2, lookup_insert_eq. reflexivity. }
  cbn [fData]. by rewrite (unmarshal_marshal _ b He Hb).
Qed.

(** Whatever fails, the file of the store is the old one or the new one. *)
Theorem Save_atomic s p w :
  stPath s = Some p ->
  let w' := (Save s w).2 in
  (wFiles w' !! p = wFiles w !! p \/ fData <$> wFiles w' !! p = marshal (stRecords s)) /\
  forall q, q <> p -> q <> append_ext p #".tmp" -> wFiles w' !! q = wFiles w !! q.
Proof.
  intros Hp. set (Q := fun (_ : result error Store) (w' : world) =>
    (wFiles w' !! p = wFiles w !! p \/ fData <$> wFiles w' !! p = marshal (stRecords s)) /\
    forall q, q <> p -> q <> append_ext p #".tmp" -> wFiles w' !! q = wFiles w !! q).
  assert (forall r w', wFiles w' = wFiles w -> Q r w') as Hsame
    by (intros r w' E; unfold Q; split; [left; by rewrite E|intros q _ _; by rewrite E]).
  cut (wp (Save s) w Q); [by intros HQ|]. unfold Save. rewrite Hp. destruct (negb (stDirty s)); [exact (Hsame (Ok s) w eq_refl)|].
  apply wp_bind. unfold wp at 1. destruct (MkdirAll_cases (parent p) w) as (r & w1 & -> & H1).
  cbn [fst snd]. destruct r as [[]|e]; [|exact (Hsame (Err e) w1 H1)].
  destruct (marshal (stRecords s)) as [b|] eqn:Eb; [|exact (Hsame (Err _) w1 H1)].
  assert (append_ext p #".tmp" <> p) as Hne by by apply append_ext_ne.
  apply wp_bind, wp_replace_file.
  - intros e w' Hq. split; [left; rewrite <- H1; by apply Hq|].
    intros q _ Ht. rewrite <- H1. by apply Hq.
  - intros t w' Hpw Hq. split; [right; cbn; by rewrite Hpw|].
    intros q Hqp Ht. rewrite <- H1. by apply Hq.
Qed.
End Persistence.

(** ** Examples *)

Definition empty_store : Store := mkStore (Some [ #"var"; #"rep"]) ∅ false.

Lemma empty_store_lookup k : stRecords empty_store !! k = None.
Proof. apply lookup_empty. Qed.

Lemma scores_in_range_witness :
  store_ok empty_store /\
  store_ok (fold_left perform [OpRecord #"user:a@b.c" EventSpamComplaint 0 0; OpScore #"user:a@b.c" day] empty_store).
Proof.
  assert (store_ok empty_store) as H by (intros k r Hk; by rewrite empty_store_lookup in Hk).
  split; [done|]. by apply (scores_in_range [_; _]).
Defined.

Definition ramp : WarmUp := mkWarmUp true 2 20 500.
Definition at_time (t : Z) : try_send := mkTry t t t t.

(** Two messages pass on the first day, a third is held. *)
Lemma warmup_cap_witness :
  sends #"domain:b.c" ramp empty_store (map at_time [1; 2; 3; 4]) = [1; 2] /\
  during 0 (sends #"domain:b.c" ramp empty_store (map at_time [1; 2; 3; 4])) <= 2 * wuFull ramp.
Proof.
  split; [by vm_compute|]. apply (warmup_cap _ ramp empty_store (map at_time [1; 2; 3; 4]) 0 0).
  - unfold growing; cbn [ramp wuEnabled wuDay1 wuDay7 wuFull]. split_and!; [done|lia..].
  - cbn. lia.
  - intros r Hr. by rewrite empty_store_lookup in Hr.
Defined.

Lemma DailyLimit_grows_witness :
  wuDay1 ramp <= DailyLimit ramp day /\ DailyLimit ramp day <= DailyLimit ramp (8 * day)
  /\ DailyLimit ramp (8 * day) <= wuFull ramp.
Proof.
  apply DailyLimit_grows; [|done]. unfold growing; cbn [ramp wuEnabled wuDay1 wuDay7 wuFull].
  split_and!; [done|lia..].
Defined.

(** A codec that satisfies the laws: the store as a number. *)
Definition record_tuple (r : record) : Z * Z * Z * Z * Z * Z * Z * Z * Z :=
  (Qnum (rcScore r), Z.pos (Qden (rcScore r)), rcUpdated r, rcFirst r, rcSent r, rcBounced r, rcReported r,
   rcDaySent r, rcDayFrom r).
Definition tuple_record (t : Z * Z * Z * Z * Z * Z * Z * Z * Z) : record :=
  let '(n, d, u, f, s, b, p, y, g) := t in mkRecord (Qmake n (Z.to_pos d)) u f s b p y g.
Lemma tuple_record_tuple r : tuple_record (record_tuple r) = r.
Proof. by destruct r as [[n d] ? ? ? ? ? ? ?]. Qed.

#[export] Instance toy_codec : StoreCodec := {
  marshal m := Some (pos_bits (encode (record_tuple <$> m : gmap str (Z * Z * Z * Z * Z * Z * Z * Z * Z))));
  unmarshal s :=
    match decode (bits_pos s) with
    | Some m => Some (tuple_record <$> (m : gmap str (Z * Z * Z * Z * Z * Z * Z * Z * Z)))
    | None => None
    end }.

#[export, program] Instance toy_codec_lawful : LawfulStoreCodec.
Next Obligation.
  rewrite bits_pos_bits, decode_encode. f_equal.
  rewrite <- map_fmap_compose. rewrite <- (map_fmap_id m) at 2. apply map_fmap_ext. intros k r _.
  apply tuple_record_tuple.
Qed.

Definition example_store : Store := (RecordEvent empty_store #"user:a@b.c" EventBounce 5 6).2.

Lemma Save_Open_witness :
  exists w', Save example_store (mkWorld ∅ ∅ [] 7 [] [] 0 1 #"h") = (Ok (mkStore (Some [ #"var"; #"rep"]) (stRecords example_store) false), w') /\
    Open (Some [ #"var"; #"rep"]) w' = (Ok (mkStore (Some [ #"var"; #"rep"]) (stRecords example_store) false), w').
Proof.
  apply (Save_Open example_store [ #"var"; #"rep"]); [done..| |done|done].
  intros k r. change (stRecords example_store) with
    (<[ #"user:a@b.c" := apply_event (fresh 5) EventBounce 6]> (<[ #"user:a@b.c" := fresh 5]> (∅ : gmap str record))).
  rewrite insert_insert_eq. intros [[<- <-]|[_ Hk]]%lookup_insert_Some.
  - split; [repeat constructor|]. unfold in_years. cbn. lia.
  - by rewrite lookup_empty in Hk.
Defined.
