(* ===== verification/Stats.v ===== *)
(** * Event counters (internal/stats/stats.go)

    Plain 64-bit atomics behind a pointer that may be nil ([None]). *)

From S2P Require Import Prelude.

Record Counters := mkCounters {
  ctReceived : Z; ctRejected : Z; ctSpam : Z; ctRelayDeny : Z;
  ctSubmitted : Z; ctAuthOK : Z; ctAuthFail : Z;
  ctDelivered : Z; ctBounced : Z; ctDeferred : Z }.

Definition zeroCounters : Counters := mkCounters 0 0 0 0 0 0 0 0 0 0.

(** [Add(1)]. *)
Definition add1 (z : Z) : Z := u64 (z + 1).

Definition IncReceived (c : option Counters) : option Counters :=
  match c with
  | None => None
  | Some (mkCounters a b s r u o f d n e) => Some (mkCounters (add1 a) b s r u o f d n e)
  end.
Definition IncRejected (c : option Counters) : option Counters :=
  match c with
  | None => None
  | Some (mkCounters a b s r u o f d n e) => Some (mkCounters a (add1 b) s r u o f d n e)
  end.
Definition IncSpam (c : option Counters) : option Counters :=
  match c with
  | None => None
  | Some (mkCounters a b s r u o f d n e) => Some (mkCounters a b (add1 s) r u o f d n e)
  end.
Definition IncRelayDeny (c : option Counters) : option Counters :=
  match c with
  | None => None
  | Some (mkCounters a b s r u o f d n e) => Some (mkCounters a b s (add1 r) u o f d n e)
  end.
Definition IncSubmitted (c : option Counters) : option Counters :=
  match c with
  | None => None
  | Some (mkCounters a b s r u o f d n e) => Some (mkCounters a b s r (add1 u) o f d n e)
  end.
Definition IncAuthOK (c : option Counters) : option Counters :=
  match c with
  | None => None
  | Some (mkCounters a b s r u o f d n e) => Some (mkCounters a b s r u (add1 o) f d n e)
  end.
Definition IncAuthFail (c : option Counters) : option Counters :=
  match c with
  | None => None
  | Some (mkCounters a b s r u o f d n e) => Some (mkCounters a b s r u o (add1 f) d n e)
  end.
Definition IncDelivered (c : option Counters) : option Counters :=
  match c with
  | None => None
  | Some (mkCounters a b s r u o f d n e) => Some (mkCounters a b s r u o f (add1 d) n e)
  end.
Definition IncBounced (c : option Counters) : option Counters :=
  match c with
  | None => None
  | Some (mkCounters a b s r u o f d n e) => Some (mkCounters a b s r u o f d (add1 n) e)
  end.
Definition IncDeferred (c : option Counters) : option Counters :=
  match c with
  | None => None
  | Some (mkCounters a b s r u o f d n e) => Some (mkCounters a b s r u o f d n (add1 e))
  end.

(** [Snapshot]: a copy of the values, zeros for a nil receiver. *)
Definition Snapshot (c : option Counters) : Counters := default zeroCounters c.
