(* ===== verification/Container.v ===== *)
(** * The public identity (internal/container/container.go)

    Which address goes into a trace header, and which hostnames give the
    container away.  [net.ParseIP] is a parameter: it gives the address in its
    16-byte form. *)

From S2P Require Import Prelude GoStrings.

Record Identity := mkIdentity {
  idEnabled : bool;
  idHostname : str;
  idPublicIP : str;
  idInternalIP : str }.

(** An address: its 16 bytes. *)
Abbreviation IP := (list Z).

(** [To4]: the four bytes of an IPv4 address. *)
Definition To4 (ip : IP) : option (list Z) :=
  if bool_decide (take 12 ip = replicate 10 0 ++ [255; 255]) then Some (drop 12 ip) else None.

Definition byte_at (ip : list Z) (i : nat) : Z := nth i ip 0.

Definition IsLoopback (ip : IP) : bool :=
  match To4 ip with
  | Some a => byte_at a 0 =? 127
  | None => bool_decide (ip = replicate 15 0 ++ [1])
  end.
Definition IsPrivate (ip : IP) : bool :=
  match To4 ip with
  | Some a => (byte_at a 0 =? 10)
              || ((byte_at a 0 =? 172) && (Z.land (byte_at a 1) 240 =? 16))
              || ((byte_at a 0 =? 192) && (byte_at a 1 =? 168))
  | None => Nat.eqb (length ip) 16 && (Z.land (byte_at ip 0) 254 =? 252)
  end.
Definition IsLinkLocalUnicast (ip : IP) : bool :=
  match To4 ip with
  | Some a => (byte_at a 0 =? 169) && (byte_at a 1 =? 254)
  | None => Nat.eqb (length ip) 16 && (byte_at ip 0 =? 254) && (Z.land (byte_at ip 1) 192 =? 128)
  end.
Definition IsLinkLocalMulticast (ip : IP) : bool :=
  match To4 ip with
  | Some a => (byte_at a 0 =? 224) && (byte_at a 1 =? 0) && (byte_at a 2 =? 0)
  | None => Nat.eqb (length ip) 16 && (byte_at ip 0 =? 255) && (Z.land (byte_at ip 1) 15 =? 2)
  end.
Definition IsUnspecified (ip : IP) : bool :=
  match To4 ip with
  | Some a => bool_decide (a = [0; 0; 0; 0])
  | None => bool_decide (ip = replicate 16 0)
  end.

Definition isInternal (ip : IP) : bool :=
  IsLoopback ip || IsPrivate ip || IsLinkLocalUnicast ip || IsLinkLocalMulticast ip || IsUnspecified ip.

Section Mask.
Context (ParseIP : str -> option IP).

Definition MaskIP (id : Identity) (ip : str) : str :=
  if negb (idEnabled id) || (idPublicIP id =s []) then ip
  else match ParseIP ip with
       | None => idPublicIP id
       | Some parsed => if isInternal parsed then idPublicIP id else ip
       end.

(** What is recorded is the public address or an address that is not of an
    internal range. *)
Lemma MaskIP_public id ip :
  idEnabled id = true -> idPublicIP id <> [] ->
  MaskIP id ip = idPublicIP id \/
  exists parsed, MaskIP id ip = ip /\ ParseIP ip = Some parsed /\ isInternal parsed = false.
Proof.
  intros He Hp. unfold MaskIP. rewrite He, (proj2 (str_eqb_neq _ _) Hp). simpl.
  destruct (ParseIP ip) as [p|]; [|by left]. destruct (isInternal p) eqn:E; [by left|right; eauto].
Qed.
End Mask.

Definition containerSuffixes : list str := [ #".lxd"; #".local"; #".internal"; #".localdomain"].

(** [LeaksContainerName]; [own] is [os.Hostname]'s answer. *)
Definition LeaksContainerName (own : option str) (hostname : str) : option str :=
  let h := to_lower (trim_space hostname) in
  if h =s [] then None
  else match List.find (fun suffix => has_suffix suffix h) containerSuffixes with
       | Some suffix => Some (#"hostname ends in " ++ suffix ++ #", which is not publicly resolvable")
       | None =>
           if negb (contains #"." h) then Some #"hostname is not fully qualified"
           else match own with
                | Some own =>
                    if equal_fold own h && negb (contains #"." own)
                    then Some (#"hostname equals the machine's unqualified name (" ++ own ++ #")")
                    else None
                | None => None
                end
       end.

(** ** The container runtime *)

Inductive Runtime := RuntimeNone | RuntimeLXC | RuntimeLXD | RuntimeDocker | RuntimeOther.
#[global] Instance Runtime_eq_dec : EqDecision Runtime.
Proof. solve_decision. Defined.
Definition runtime_text (r : Runtime) : str :=
  match r with
  | RuntimeNone => #"none" | RuntimeLXC => #"lxc" | RuntimeLXD => #"lxd" | RuntimeDocker => #"docker"
  | RuntimeOther => #"container"
  end.

(** The traces that a runtime leaves: the variable [container], the marker
    files and the cgroup of the first process. *)
Record Markers := mkMarkers { mrEnv : str; mrLXDMounts : bool; mrDockerEnv : bool; mrCgroup : option str }.

Definition Detect (m : Markers) : Runtime :=
  if negb (mrEnv m =s []) then (if to_lower (mrEnv m) =s #"lxc" then RuntimeLXC else RuntimeOther)
  else if mrLXDMounts m then RuntimeLXD
  else if mrDockerEnv m then RuntimeDocker
  else match mrCgroup m with
       | Some s => if contains #"/lxc/" s then RuntimeLXC
                   else if contains #"/docker/" s then RuntimeDocker else RuntimeNone
       | None => RuntimeNone
       end.
