(* ===== verification/Blacklist.v ===== *)
(** * DNS blacklists (internal/blacklist/blacklist.go)

    Which names are looked up for an address or a host name, what counts as a
    listing, and the cache of answers.  [net.ParseIP] and the resolver are
    parameters; each reading of the clock is an argument. *)

From S2P Require Import Prelude GoStrings Container.

Record entry := mkListing { liListed : bool; liOn : list str; liExpires : Z }.

Record Checker := mkChecker {
  ckDNSBL : list str;
  ckURIBL : list str;
  ckTTL : Z;
  ckCache : gmap str entry }.

Definition hour : Z := 3600 * 10 ^ 9.
Definition New (dnsbl uribl : list str) (ttl : Z) : Checker :=
  mkChecker dnsbl uribl (if ttl =? 0 then hour else ttl) ∅.

Definition cached (c : Checker) (key : str) (now : Z) : option entry :=
  match ckCache c !! key with
  | Some e => if liExpires e <? now then None else Some e
  | None => None
  end.

Definition maxCached : nat := Z.to_nat 65536.

(** [store], at [now]; a cache that is too large is dropped. *)
Definition store (c : Checker) (key : str) (listed : bool) (on : list str) (now : Z) : Checker :=
  let cache := if Nat.ltb maxCached (size (ckCache c)) then ∅ else ckCache c in
  mkChecker (ckDNSBL c) (ckURIBL c) (ckTTL c) (<[key := mkListing listed on (now + ckTTL c)]> cache).

(** ** Names *)

(** The loop of [itoa], on the digits not yet written. *)
Fixpoint itoa_loop (fuel : nat) (b : Z) (buf : str) : str :=
  match fuel with
  | 0%nat => buf
  | S f => if 0 <? b then itoa_loop f (b / 10) (digit (Z.to_N (b mod 10)) :: buf) else buf
  end.
Definition itoa (b : Z) : str := if b =? 0 then #"0" else itoa_loop 3 b [].

Definition hexdigits : str := #"0123456789abcdef".
Definition nibble (n : Z) : str := [nth (Z.to_nat n) hexdigits "0"%char].

(** The parts of an address, last byte first. *)
Fixpoint nibbles (l : list Z) : list str :=
  match l with
  | [] => []
  | b :: r => nibble (Z.land b 15) :: nibble (Z.shiftr b 4) :: nibbles r
  end.

Definition reverseIP (ip : IP) : str :=
  match To4 ip with
  | Some v4 => join #"." (map itoa [byte_at v4 3; byte_at v4 2; byte_at v4 1; byte_at v4 0])
  | None => if Nat.eqb (length ip) 16 then join #"." (nibbles (rev ip)) else []
  end.

(** ** Lookups *)

Section Lookups.
Context (ParseIP : str -> option IP).
(** [LookupHost]: the addresses of a name. *)
Context (LookupHost : str -> option (list str)).

(** An answer that is a listing: an address in 127.0.0.0/8. *)
Definition is_listing (a : str) : bool :=
  match ParseIP a with
  | Some ip => match To4 ip with Some v4 => byte_at v4 0 =? 127 | None => false end
  | None => false
  end.

Definition lookup_name (name : str) : bool :=
  match LookupHost name with
  | None => false
  | Some addrs => existsb is_listing addrs
  end.

Definition listed_on (name : str) (zones : list str) : list str :=
  List.filter (fun zone => lookup_name (name ++ #"." ++ zone)) zones.

(** [ListedIP]; [t0] and [t1] are the readings of [cached] and [store]. *)
Definition ListedIP (c : Checker) (ipStr : str) (t0 t1 : Z) : (bool * list str) * Checker :=
  match ckDNSBL c with
  | [] => (false, [], c)
  | _ =>
      match ParseIP ipStr with
      | None => (false, [], c)
      | Some ip =>
          if IsLoopback ip || IsPrivate ip then (false, [], c)
          else
            let key := #"ip:" ++ ipStr in
            match cached c key t0 with
            | Some e => (liListed e, liOn e, c)
            | None =>
                let rev := reverseIP ip in
                if rev =s [] then (false, [], c)
                else
                  let on := listed_on rev (ckDNSBL c) in
                  let listed := negb (Nat.eqb (length on) 0) in
                  (listed, on, store c key listed on t1)
            end
      end
  end.

Definition ListedDomain (c : Checker) (domain : str) (t0 t1 : Z) : bool * Checker :=
  match ckURIBL c with
  | [] => (false, c)
  | _ =>
      if domain =s [] then (false, c)
      else
        let domain := to_lower (trim_suffix #"." domain) in
        match ParseIP domain with
        | Some _ => (false, c)
        | None =>
            let key := #"dom:" ++ domain in
            match cached c key t0 with
            | Some e => (liListed e, c)
            | None =>
                let on := listed_on domain (ckURIBL c) in
                let listed := negb (Nat.eqb (length on) 0) in
                (listed, store c key listed on t1)
            end
        end
  end.
End Lookups.

(** ** Names of addresses *)

Definition bytes (l : list Z) : Prop := Forall (fun b => 0 <= b < 256) l.

(** [itoa] writes a byte in decimal. *)
Lemma itoa_dec b : 0 <= b < 256 -> itoa b = dec b.
Proof.
  intros Hb.
  assert (forallb (fun n => itoa (Z.of_nat n) =s dec (Z.of_nat n)) (seq 0 256) = true) as H by by vm_compute.
  rewrite forallb_forall in H. specialize (H (Z.to_nat b)). rewrite Z2Nat.id in H by lia.
  apply str_eqb_eq, H. apply in_seq. lia.
Qed.

Lemma nibble_inj a b : 0 <= a < 16 -> 0 <= b < 16 -> nibble a = nibble b -> a = b.
Proof.
  intros Ha Hb E.
  assert (forallb (fun x => forallb (fun y => negb (nibble (Z.of_nat x) =s nibble (Z.of_nat y)) || Nat.eqb x y) (seq 0 16)) (seq 0 16) = true)
    as H by by vm_compute.
  rewrite forallb_forall in H. specialize (H (Z.to_nat a) ltac:(apply in_seq; lia)).
  rewrite forallb_forall in H. specialize (H (Z.to_nat b) ltac:(apply in_seq; lia)).
  rewrite !Z2Nat.id, E in H by lia. rewrite (proj2 (str_eqb_eq _ _) eq_refl) in H. simpl in H.
  apply Nat.eqb_eq in H. lia.
Qed.

Lemma byte_halves b : 0 <= b < 256 -> 0 <= Z.land b 15 < 16 /\ 0 <= Z.shiftr b 4 < 16 /\ b = 16 * Z.shiftr b 4 + Z.land b 15.
Proof.
  intros Hb. change 15 with (Z.ones 4). rewrite Z.land_ones, Z.shiftr_div_pow2 by lia. change (2 ^ 4) with 16.
  pose proof (Z.mod_pos_bound b 16). pose proof (Z.div_mod b 16).
  split; [lia|]. split; [|lia]. split; [apply Z.div_pos; lia|apply Z.div_lt_upper_bound; lia].
Qed.

Lemma nibbles_inj l1 l2 : bytes l1 -> bytes l2 -> nibbles l1 = nibbles l2 -> l1 = l2.
Proof.
  intros H1. revert l2. induction H1 as [|a l1 Ha H1 IH]; intros [|b l2] H2 E; try done.
  apply Forall_cons in H2 as [Hb H2]. cbn [nibbles] in E.
  destruct (byte_halves a Ha) as (? & ? & Ea), (byte_halves b Hb) as (? & ? & Eb).
  pose proof (nibble_inj (Z.land a 15) (Z.land b 15) ltac:(done) ltac:(done) (f_equal (fun l => nth 0 l []) E)) as El.
  pose proof (nibble_inj (Z.shiftr a 4) (Z.shiftr b 4) ltac:(done) ltac:(done) (f_equal (fun l => nth 1 l []) E)) as Eh.
  rewrite (IH l2 H2 (f_equal (drop 2) E)). f_equal. lia.
Qed.

Lemma dec_inj a b : 0 <= a < 256 -> 0 <= b < 256 -> dec a = dec b -> a = b.
Proof.
  intros Ha Hb E. pose proof (parse_uint_dec 8 a ltac:(lia)) as H1.
  pose proof (parse_uint_dec 8 b ltac:(lia)) as H2. rewrite E in H1. congruence.
Qed.

Lemma nibble_no_dot n : 0 <= n < 16 -> "."%char ∉ nibble n.
Proof.
  intros Hn.
  assert (forallb (fun x => forallb (fun c => negb (Ascii.eqb c ".")) (nibble (Z.of_nat x))) (seq 0 16) = true) as H by by vm_compute.
  rewrite forallb_forall in H. specialize (H (Z.to_nat n) ltac:(apply in_seq; lia)). rewrite Z2Nat.id in H by lia.
  intros Hin. rewrite forallb_forall in H. apply list_elem_of_In in Hin. by specialize (H _ Hin).
Qed.

Lemma nibbles_no_dot l : bytes l -> Forall (fun p => "."%char ∉ p) (nibbles l).
Proof.
  induction 1 as [|b l Hb Hl IH]; [constructor|]. destruct (byte_halves b Hb) as (? & ? & _).
  cbn [nibbles]. repeat constructor; [by apply nibble_no_dot..|done].
Qed.

Lemma length_nibbles l : length (nibbles l) = (2 * length l)%nat.
Proof. induction l; cbn [nibbles length]; lia. Qed.

(** An address of the 16-byte form that [net.ParseIP] gives. *)
Definition ip_ok (ip : IP) : Prop := length ip = 16%nat /\ bytes ip.

(** The parts of the name of an address. *)
Definition name_parts (ip : IP) : list str :=
  match To4 ip with
  | Some v4 => map dec [byte_at v4 3; byte_at v4 2; byte_at v4 1; byte_at v4 0]
  | None => nibbles (rev ip)
  end.

Lemma bytes_nth l i : bytes l -> 0 <= byte_at l i < 256.
Proof.
  intros H. unfold byte_at. destruct (nth_in_or_default i l 0) as [Hin|E]; [|rewrite E; lia].
  unfold bytes in H. rewrite List.Forall_forall in H. by apply H.
Qed.

Lemma To4_spec ip v4 : ip_ok ip -> To4 ip = Some v4 ->
  ip = replicate 10 0 ++ [255; 255] ++ [byte_at v4 0; byte_at v4 1; byte_at v4 2; byte_at v4 3] /\ bytes v4.
Proof.
  intros [Hl Hb]. unfold To4. case_bool_decide as E; [|done]. intros [= <-].
  assert (length (drop 12 ip) = 4%nat) as H4 by (rewrite length_drop; lia).
  split; [|by apply Forall_drop]. rewrite <- (take_drop 12 ip) at 1. rewrite E.
  destruct (drop 12 ip) as [|a [|b [|c [|d [|? ?] ] ] ] ]; done.
Qed.

Lemma name_parts_ok ip : ip_ok ip -> reverseIP ip = join #"." (name_parts ip) /\
  name_parts ip <> [] /\ Forall (fun p => "."%char ∉ p) (name_parts ip).
Proof.
  intros Hip. pose proof Hip as [Hl Hb]. unfold reverseIP, name_parts. destruct (To4 ip) as [v4|] eqn:E.
  - destruct (To4_spec ip v4 Hip E) as [_ Hv]. cbn [map].
    rewrite !itoa_dec by by apply bytes_nth. split; [done|]. split; [done|].
    repeat constructor; apply dec_no_dot; by apply bytes_nth.
  - rewrite Hl. cbn [Nat.eqb]. split; [done|]. assert (bytes (rev ip)) as Hr by by apply Forall_rev. split.
    + intros En. apply (f_equal length) in En. rewrite length_nibbles, length_rev, Hl in En. done.
    + by apply nibbles_no_dot.
Qed.

(** No two addresses share a name on a list, so a listing of one never stands
    for another. *)
Theorem reverseIP_injective ip1 ip2 : ip_ok ip1 -> ip_ok ip2 -> reverseIP ip1 = reverseIP ip2 -> ip1 = ip2.
Proof.
  intros H1 H2 E. destruct (name_parts_ok ip1 H1) as (E1 & N1 & D1), (name_parts_ok ip2 H2) as (E2 & N2 & D2).
  rewrite E1, E2 in E. apply (f_equal (split ".")) in E. change #"." with ["."%char] in E.
  rewrite !split_join in E by done. unfold name_parts in E.
  destruct H1 as [L1 B1], H2 as [L2 B2].
  destruct (To4 ip1) as [a|] eqn:T1, (To4 ip2) as [b|] eqn:T2.
  - destruct (To4_spec ip1 a ltac:(done) T1) as [-> Ha], (To4_spec ip2 b ltac:(done) T2) as [-> Hb].
    cbn [map] in E. injection E as E3 E2' E1' E0.
    apply dec_inj in E3, E2', E1', E0; [|by apply bytes_nth..]. by rewrite E3, E2', E1', E0.
  - apply (f_equal length) in E. rewrite length_nibbles, length_rev, L2 in E. done.
  - apply (f_equal length) in E. rewrite length_nibbles, length_rev, L1 in E. done.
  - apply nibbles_inj in E; [|by apply Forall_rev..]. by apply rev_inj.
Qed.

(** ** The cache *)

(** Addresses of private and loopback ranges are answered without a query. *)
Lemma ListedIP_private P L c s ip t0 t1 :
  P s = Some ip -> IsLoopback ip || IsPrivate ip = true -> ListedIP P L c s t0 t1 = (false, [], c).
Proof. intros Hp Hi. unfold ListedIP. rewrite Hp, Hi. by destruct (ckDNSBL c). Qed.

Lemma cached_store c key listed on now t :
  t <= now + ckTTL c -> cached (store c key listed on now) key t = Some (mkListing listed on (now + ckTTL c)).
Proof.
  intros Ht. unfold cached, store. cbn [ckCache]. rewrite lookup_insert_eq. cbn [liExpires].
  destruct (Z.ltb_spec (now + ckTTL c) t); [lia|done].
Qed.

(** What was found out is answered again until it expires, whatever the lists
    say by then. *)
Lemma ListedIP_again P L L' c s t0 t1 t2 t3 :
  cached c (#"ip:" ++ s) t0 = None -> t0 <= t2 <= t1 + ckTTL c ->
  (ListedIP P L' (ListedIP P L c s t0 t1).2 s t2 t3).1 = (ListedIP P L c s t0 t1).1.
Proof.
  intros Hc Ht. unfold ListedIP. rewrite Hc. destruct (ckDNSBL c) as [|z zs] eqn:Ez; cbn [snd]; [by rewrite Ez|].
  destruct (P s) as [ip|] eqn:Ep; cbn [snd]; [|by rewrite Ez].
  destruct (IsLoopback ip || IsPrivate ip) eqn:Ei; cbn [snd]; [by rewrite Ez|].
  destruct (reverseIP ip =s []) eqn:Er; cbn [snd].
  - rewrite Ez. assert (cached c (#"ip:" ++ s) t2 = None) as ->; [|done].
    unfold cached in *. destruct (ckCache c !! (#"ip:" ++ s)) as [x|]; [|done].
    destruct (Z.ltb_spec (liExpires x) t0); [|done]. destruct (Z.ltb_spec (liExpires x) t2); [done|lia].
  - cbn [store ckDNSBL]. rewrite Ez. rewrite cached_store by lia. done.
Qed.

Lemma store_size c key listed on now :
  (size (ckCache c) <= S maxCached)%nat -> (size (ckCache (store c key listed on now)) <= S maxCached)%nat.
Proof.
  intros H. unfold store. cbn [ckCache]. destruct (Nat.ltb_spec maxCached (size (ckCache c))) as [Hl|Hl].
  - rewrite map_size_insert_None by apply lookup_empty. rewrite map_size_empty. lia.
  - destruct (ckCache c !! key) eqn:E.
    + rewrite map_size_insert_Some by done. lia.
    + rewrite map_size_insert_None by done. lia.
Qed.

(** The cache never holds more than 65537 answers. *)
Lemma cache_bounded P L c s t0 t1 :
  (size (ckCache c) <= S maxCached)%nat -> (size (ckCache (ListedIP P L c s t0 t1).2) <= S maxCached)%nat.
Proof.
  intros H. unfold ListedIP. destruct (ckDNSBL c); [done|]. destruct (P s) as [ip|]; [|done].
  destruct (_ || _); [done|]. destruct (cached _ _ _); [done|]. destruct (_ =s _); [done|]. by apply store_size.
Qed.
