(* ===== verification/MailAuth.v ===== *)
(** * Sender authentication (internal/mailauth/mailauth.go)

    What the results of SPF, DKIM and DMARC make of a message received on port
    25.  The checks themselves are libraries and parameters: SPF, DKIM
    verification, the lookup of a DMARC record, the public suffix list and the
    parser of [net/mail]. *)

From S2P Require Import Prelude GoStrings Filter.

Inductive Action := Accept | Quarantine | Reject.

Record Result := mkResult {
  reAction : Action;
  reReason : str;
  reAuthResults : str;
  reSPF : str;
  reDKIM : str;
  reDMARC : str }.

Record Checker := mkChecker { ckHostname : str; ckEnforce : bool }.

(** One verified signature. *)
Record dkimOutcome := mkDkim { dkDomain : str; dkPass : bool }.

(** A DMARC record, as the library gives it: the policies are ["none"],
    ["quarantine"] and ["reject"], the empty one being unset; an alignment is
    ["s"] or ["r"]. *)
Record dmarcRecord := mkDmarc {
  dmPolicy : str;
  dmSubdomainPolicy : str;
  dmSPFAlignment : str;
  dmDKIMAlignment : str;
  dmPercent : option Z }.

Definition PolicyNone : str := #"none".
Definition PolicyQuarantine : str := #"quarantine".
Definition PolicyReject : str := #"reject".
Definition AlignmentStrict : str := #"s".

Definition domainOf (addr : str) : str :=
  match last_index_byte "@" addr with
  | Some at_ => if Nat.eqb at_ (length addr - 1) then [] else to_lower (drop (S at_) addr)
  | None => []
  end.

Definition dkimSummary (dkims : list dkimOutcome) : str :=
  match dkims with
  | [] => #"none"
  | _ => if existsb dkPass dkims then #"pass" else #"fail"
  end.

(** [authResults]: the header line. *)
Definition authResults (c : Checker) (spfRes spfDomain : str) (dkims : list dkimOutcome) (dmarcRes fromDomain : str) : str :=
  #"Authentication-Results: " ++ ckHostname c ++ #";" ++ CRLF ++ [TAB] ++ #"spf=" ++ spfRes ++ #" smtp.mailfrom=" ++ spfDomain
  ++ (match dkims with [] => #";" ++ CRLF ++ [TAB] ++ #"dkim=none" | _ => [] end)
  ++ concat (map (fun d => #";" ++ CRLF ++ [TAB] ++ #"dkim=" ++ (if dkPass d then #"pass" else #"fail")
                           ++ #" header.d=" ++ dkDomain d) dkims)
  ++ (if fromDomain =s [] then [] else #";" ++ CRLF ++ [TAB] ++ #"dmarc=" ++ dmarcRes ++ #" header.from=" ++ fromDomain)
  ++ CRLF.

Section Check.
(** [spf.CheckHostWithSender] of the address, HELO name and sender. *)
Context (spf : option (list Z) -> str -> str -> str).
(** [dkim.VerifyWithOptions]: the domain of each signature, and whether it
    verified. *)
Context (verify : str -> option (list (str * bool))).
(** [dmarc.LookupWithOptions]; [None] for any error. *)
Context (lookup_record : str -> option dmarcRecord).
(** [publicsuffix.EffectiveTLDPlusOne]. *)
Context (tld_plus_one : str -> option str).
(** [mail.ReadMessage] and the addresses of [From]. *)
Context (from_addresses : str -> option (list str)).

Definition orgDomain (d : str) : str := default d (tld_plus_one d).

Definition aligned (d fromDomain mode : str) : bool :=
  let d := to_lower d in
  let fromDomain := to_lower fromDomain in
  if d =s fromDomain then true
  else if mode =s AlignmentStrict then false
  else orgDomain d =s orgDomain fromDomain.

Definition lookupDMARC (domain : str) : option dmarcRecord * bool :=
  match lookup_record domain with
  | Some r => (Some r, false)
  | None =>
      let org := orgDomain domain in
      if org =s domain then (None, false)
      else match lookup_record org with
           | Some r => (Some r, true)
           | None => (None, false)
           end
  end.

(** The policy of a message that failed; [roll] is [rand.IntN(100)]. *)
Definition failed_policy (rec : dmarcRecord) (usedOrg : bool) (roll : Z) : str :=
  let policy := if usedOrg && negb (dmSubdomainPolicy rec =s []) then dmSubdomainPolicy rec else dmPolicy rec in
  match dmPercent rec with
  | Some pct =>
      if (pct <? 100) && (pct <=? roll) then
        if policy =s PolicyReject then PolicyQuarantine else PolicyNone
      else policy
  | None => policy
  end.

Definition evaluateDMARC (fromDomain spfDomain spfResult : str) (dkims : list dkimOutcome) (roll : Z) : str * str :=
  if fromDomain =s [] then (#"none", PolicyNone)
  else
    match lookupDMARC fromDomain with
    | (None, _) => (#"none", PolicyNone)
    | (Some rec, usedOrg) =>
        let spfAligned := (spfResult =s #"pass") && aligned spfDomain fromDomain (dmSPFAlignment rec) in
        let dkimAligned := existsb (fun d => dkPass d && aligned (dkDomain d) fromDomain (dmDKIMAlignment rec)) dkims in
        if spfAligned || dkimAligned then (#"pass", dmPolicy rec)
        else (#"fail", failed_policy rec usedOrg roll)
    end.

Definition headerFromDomain (data : str) : str :=
  match from_addresses data with
  | Some [addr] => domainOf addr
  | _ => []
  end.

Definition Check (c : Checker) (ip : option (list Z)) (helo mailFrom data : str) (roll : Z) : Result :=
  let sender := if mailFrom =s [] then #"postmaster@" ++ helo else mailFrom in
  let spfResult := spf ip helo sender in
  let spfDomain := domainOf sender in
  let dkims := match verify data with
               | Some vs => map (fun v => mkDkim (to_lower v.1) v.2) vs
               | None => []
               end in
  let fromDomain := headerFromDomain data in
  let '(dmarcResult, policy) := evaluateDMARC fromDomain spfDomain spfResult dkims roll in
  let '(action, reason) :=
    if (dmarcResult =s #"fail") && ckEnforce c then
      if policy =s PolicyReject then (Reject, #"DMARC policy reject for " ++ fromDomain)
      else if policy =s PolicyQuarantine then (Quarantine, #"DMARC policy quarantine for " ++ fromDomain)
      else (Accept, [])
    else (Accept, []) in
  mkResult action reason (authResults c spfResult spfDomain dkims dmarcResult fromDomain)
    spfResult (dkimSummary dkims) dmarcResult.

(** ** When a message is refused *)

(** The message is vouched for by the domain of its author: an identifier that
    passed and is aligned with it. *)
Definition vouched (rec : dmarcRecord) (fromDomain spfDomain spfResult : str) (dkims : list dkimOutcome) : Prop :=
  (spfResult = #"pass" /\ aligned spfDomain fromDomain (dmSPFAlignment rec) = true) \/
  exists d, d ∈ dkims /\ dkPass d = true /\ aligned (dkDomain d) fromDomain (dmDKIMAlignment rec) = true.

Lemma vouched_spec rec fromDomain spfDomain spfResult dkims :
  (spfResult =s #"pass") && aligned spfDomain fromDomain (dmSPFAlignment rec)
  || existsb (fun d => dkPass d && aligned (dkDomain d) fromDomain (dmDKIMAlignment rec)) dkims = true
  <-> vouched rec fromDomain spfDomain spfResult dkims.
Proof.
  rewrite orb_true_iff, andb_true_iff, existsb_exists, str_eqb_eq. unfold vouched.
  split; intros [H|(d & Hd & H)]; try (by left); right; exists d; rewrite list_elem_of_In, andb_true_iff in *; tauto.
Qed.

(** The policy that a domain publishes for the author's domain. *)
Definition published (domain : str) (rec : dmarcRecord) (policy : str) : Prop :=
  (lookup_record domain = Some rec /\ policy = dmPolicy rec) \/
  (lookup_record domain = None /\ orgDomain domain <> domain /\ lookup_record (orgDomain domain) = Some rec /\
   policy = if dmSubdomainPolicy rec =s [] then dmPolicy rec else dmSubdomainPolicy rec).

Lemma lookupDMARC_spec domain rec usedOrg :
  lookupDMARC domain = (Some rec, usedOrg) <->
  published domain rec (if usedOrg && negb (dmSubdomainPolicy rec =s []) then dmSubdomainPolicy rec else dmPolicy rec)
  /\ usedOrg = match lookup_record domain with Some _ => false | None => true end.
Proof.
  unfold lookupDMARC, published. destruct (lookup_record domain) as [r|] eqn:E1.
  - split; [intros [= <- <-]; eauto|]. intros [[[[= ->] _]|[? _]] ->]; done.
  - destruct (orgDomain domain =s domain) eqn:Eo.
    + apply str_eqb_eq in Eo. split; [done|]. intros [[[? _]|(_ & ? & _)] _]; done.
    + apply str_eqb_neq in Eo. destruct (lookup_record (orgDomain domain)) as [r|] eqn:E2.
      * split; [intros [= <- <-]; split; [right|done]; by destruct (_ =s [])|].
        intros [[[? _]|(_ & _ & [= ->] & _)] ->]; done.
      * split; [done|]. intros [[[? _]|(_ & _ & ? & _)] _]; done.
Qed.

Lemma published_iff domain rec policy :
  published domain rec policy <->
  exists usedOrg, lookupDMARC domain = (Some rec, usedOrg) /\
    policy = if usedOrg && negb (dmSubdomainPolicy rec =s []) then dmSubdomainPolicy rec else dmPolicy rec.
Proof.
  split.
  - intros H. exists (match lookup_record domain with Some _ => false | None => true end). rewrite lookupDMARC_spec.
    destruct H as [[E ->]|(E & Ho & E2 & ->)]; rewrite E.
    + split; [split; [left|]|]; done.
    + split; [split; [right|done]|by destruct (_ =s [])]. split_and!; [done..|by destruct (_ =s [])].
  - intros (u & H & ->). by apply lookupDMARC_spec in H as [H _].
Qed.

(** Whether the draw enforces the policy ([pct=]). *)
Definition sampled (rec : dmarcRecord) (roll : Z) : Prop :=
  match dmPercent rec with Some pct => 100 <= pct \/ roll < pct | None => True end.

Lemma failed_policy_spec rec usedOrg roll :
  let p := if usedOrg && negb (dmSubdomainPolicy rec =s []) then dmSubdomainPolicy rec else dmPolicy rec in
  (sampled rec roll /\ failed_policy rec usedOrg roll = p) \/
  (~ sampled rec roll /\ failed_policy rec usedOrg roll = if p =s PolicyReject then PolicyQuarantine else PolicyNone).
Proof.
  cbv zeta. unfold failed_policy, sampled. destruct (dmPercent rec) as [pct|]; [|by left].
  destruct (Z.ltb_spec pct 100), (Z.leb_spec pct roll); cbn [andb]; [right|left..]; (split; [lia|done]).
Qed.

(** What the author's domain asks for: refusal or quarantine of a message
    nobody vouches for. *)
Definition asks (fromDomain spfDomain spfResult : str) (dkims : list dkimOutcome) (roll : Z) (a : Action) : Prop :=
  exists rec p, published fromDomain rec p /\ ~ vouched rec fromDomain spfDomain spfResult dkims /\
    match a with
    | Reject => p = PolicyReject /\ sampled rec roll
    | Quarantine => (p = PolicyQuarantine /\ sampled rec roll) \/ (p = PolicyReject /\ ~ sampled rec roll)
    | Accept => False
    end.

Definition verdict (enforce : bool) (eval : str * str) : Action :=
  if (eval.1 =s #"fail") && enforce then
    if eval.2 =s PolicyReject then Reject else if eval.2 =s PolicyQuarantine then Quarantine else Accept
  else Accept.

Lemma verdict_spec enforce fromDomain spfDomain spfResult dkims roll a :
  a <> Accept ->
  verdict enforce (evaluateDMARC fromDomain spfDomain spfResult dkims roll) = a <->
  enforce = true /\ fromDomain <> [] /\ asks fromDomain spfDomain spfResult dkims roll a.
Proof.
  intros Ha. unfold verdict, evaluateDMARC, asks. destruct (fromDomain =s []) eqn:E0.
  { apply str_eqb_eq in E0. cbn. split; [intros <-; done|intros (_ & ? & _); done]. }
  apply str_eqb_neq in E0. setoid_rewrite published_iff.
  destruct (lookupDMARC fromDomain) as [[rec|] u].
  2:{ cbn. split; [intros <-; done|]. intros (_ & _ & r & p & (u' & ? & _) & _); done. }
  destruct (_ || _) eqn:Ev.
  - apply vouched_spec in Ev. cbn. split; [intros <-; done|].
    intros (_ & _ & r & p & (u' & [= <- <-] & _) & Hn & _). done.
  - assert (~ vouched rec fromDomain spfDomain spfResult dkims) as Hn by (rewrite <- vouched_spec; congruence).
    cbn [fst snd]. change (#"fail" =s #"fail") with true. cbn [andb]. destruct enforce; [|split; [intros <-; done|intros [? _]; done]].
    set (p := if u && negb (dmSubdomainPolicy rec =s []) then dmSubdomainPolicy rec else dmPolicy rec).
    assert (forall Q : dmarcRecord -> str -> Prop,
      (exists r q, (exists u', (Some rec, u) = (Some r, u') /\
         q = if u' && negb (dmSubdomainPolicy r =s []) then dmSubdomainPolicy r else dmPolicy r) /\
         ~ vouched r fromDomain spfDomain spfResult dkims /\ Q r q) <-> Q rec p) as Hex.
    { intros Q. split; [by intros (r & q & (u' & [= <- <-] & ->) & _ & HQ)|]. intros HQ. exists rec, p. eauto. }
    rewrite (Hex (fun rec p => match a with
      | Reject => p = PolicyReject /\ sampled rec roll
      | Quarantine => (p = PolicyQuarantine /\ sampled rec roll) \/ (p = PolicyReject /\ ~ sampled rec roll)
      | Accept => False end)).
    destruct (failed_policy_spec rec u roll) as [[Hs ->]|[Hs ->]]; fold p.
    + destruct (p =s PolicyReject) eqn:Er; [apply str_eqb_eq in Er; rewrite Er|apply str_eqb_neq in Er].
      * destruct a; [done|split; [done|]|tauto]. intros (_ & _ & [[? _]|[_ ?]]); done.
      * destruct (p =s PolicyQuarantine) eqn:Eq; [apply str_eqb_eq in Eq; rewrite Eq|apply str_eqb_neq in Eq].
        -- destruct a; [done|tauto|split; [done|]]. intros (_ & _ & ? & _); done.
        -- destruct a; [done|split; [done|]|split; [done|]]; [intros (_ & _ & [[? _]|[? _]])|intros (_ & _ & ? & _)]; done.
    + destruct (p =s PolicyReject) eqn:Er; [apply str_eqb_eq in Er; rewrite Er|apply str_eqb_neq in Er].
      * change (PolicyQuarantine =s PolicyReject) with false. change (PolicyQuarantine =s PolicyQuarantine) with true.
        destruct a; [done|tauto|split; [done|]]. intros (_ & _ & _ & ?); done.
      * change (PolicyNone =s PolicyReject) with false. change (PolicyNone =s PolicyQuarantine) with false.
        destruct a; [done|split; [done|]|split; [done|]]; [intros (_ & _ & [[_ ?]|[? _]])|intros (_ & _ & _ & ?)]; done.
Qed.

(** The identifiers of a message. *)
Definition sender_of (helo mailFrom : str) : str := if mailFrom =s [] then #"postmaster@" ++ helo else mailFrom.
Definition signatures (data : str) : list dkimOutcome :=
  match verify data with Some vs => map (fun v => mkDkim (to_lower v.1) v.2) vs | None => [] end.

End Check.

(** ** Examples *)

Definition spf_none (ip : option (list Z)) (helo sender : str) : str := #"none".
Definition no_signature (data : str) : option (list (str * bool)) := Some [].
Definition bank_record (domain : str) : option dmarcRecord :=
  if domain =s #"bank.example" then Some (mkDmarc #"reject" [] #"r" #"r" None) else None.
Definition two_labels (d : str) : option str :=
  Some (join #"." (rev (take 2 (rev (split "." d))))).
Definition from_bank (data : str) : option (list str) := Some [ #"ceo@mail.bank.example"].


(** The sender's domain is copied into the header as it came: a client makes up
    results of its own, here for a domain without a DMARC record. *)
Lemma auth_results_injected :
  let r := Check spf_none no_signature (fun _ => None) two_labels from_bank (mkChecker #"mx.org" true) None #"h"
             #"a@evil.org; dmarc=pass header.from=mail.bank.example" [] 0 in
  reDMARC r = #"none" /\ contains #"; dmarc=pass header.from=mail.bank.example" (reAuthResults r) = true.
Proof. by vm_compute. Qed.

(** A lookup of a policy that fails does not always end in acceptance: here the
    subdomain asks for nothing, and when its record cannot be had for a moment
    the policy of the organizational domain has the message refused. *)
Definition lenient_subdomain (domain : str) : option dmarcRecord :=
  if domain =s #"mail.bank.example" then Some (mkDmarc PolicyNone [] #"r" #"r" None) else bank_record domain.
Lemma failed_lookup_refuses :
  let check lookup := reAction (Check spf_none no_signature lookup two_labels from_bank (mkChecker #"mx.org" true) None #"h"
                                  #"a@evil.org" [] 0) in
  check lenient_subdomain = Accept /\
  check (fun d => if d =s #"mail.bank.example" then None else lenient_subdomain d) = Reject.
Proof. by vm_compute. Qed.
