(* ===== verification/Bayes.v ===== *)
(** * The Bayesian classifier (internal/antispam/bayes.go)

    Tokens of a message, the corpus with its file format, and the combination
    of the decisive tokens.  Rationals stand for [float64]; the logarithms that
    the code sums are taken on real numbers, and the outcome is shown to be the
    rational one that the rest of the model computes with.  Which runes outside
    ASCII are letters or digits is a parameter. *)

From Stdlib Require Import Reals Lra Qreals.
From S2P Require Import Prelude GoStrings GoOS Lines RateLimit.

#[global] Open Scope Z_scope.

Definition minTokenLen : nat := 3.
Definition maxTokenLen : nat := 24.
Definition significant : nat := 15.
Definition minOccurrences : Z := 3.
Definition unknownProb : Q := 4 / 10.
Definition probFloor : Q := 1 / 100.
Definition probCeil : Q := 99 / 100.

Record counts := mkCounts { cHam : Z; cSpam : Z }.

Record Bayes := mkBayes {
  bPath : option path;             (** [None] is the empty path *)
  bTokens : gmap str counts;
  bHam : Z;
  bSpam : Z;
  bDirty : bool }.

(** ** Tokens *)

Section Tokens.
(** [unicode.IsLetter] or [unicode.IsDigit] of a rune outside ASCII. *)
Context (unicode_word : str -> bool).

Definition token_rune (r : str) : bool :=
  match r with
  | [c] => is_lower c || is_upper c || is_digit c || existsb (Ascii.eqb c) #"$'-.!"
  | _ => unicode_word r
  end.

Definition words (s : str) : list str :=
  List.filter (fun f => Nat.leb minTokenLen (length f) && Nat.leb (length f) maxTokenLen)
    (map (fun f => trim #".-'!" (to_lower f)) (fields_func token_rune s)).

Definition signal_fields : list str :=
  [ #"subject"; #"from"; #"to"; #"reply-to"; #"content-type"; #"x-mailer"; #"list-unsubscribe"].

Definition header_tokens (line : str) : list str :=
  let line := trim_right [CR] line in
  let '(name, value, ok) := cut ":"%char line in
  let name := to_lower (trim_space name) in
  if ok && existsb (str_eqb name) signal_fields then map (fun t => name ++ #"*" ++ t) (words value) else [].

Definition split_message (text : str) : str * str :=
  let '(header, body, found) := cut_str (CRLF ++ CRLF) text in
  if found : bool then (header, body)
  else let '(header, body, _) := cut_str [LF; LF] text in (header, body).

Definition Tokenize (data : str) : gset str :=
  let '(header, body) := split_message data in
  list_to_set (concat (map header_tokens (GoStrings.split LF header)) ++ words body).

(** ** Training and scoring *)

Definition Trained (b : Bayes) : Z * Z := (bHam b, bSpam b).
Definition Ready (b : Bayes) : bool := (20 <=? bHam b) && (20 <=? bSpam b).

Definition learn (isSpam : bool) (tokens : gmap str counts) (tok : str) : gmap str counts :=
  let c := default (mkCounts 0 0) (tokens !! tok) in
  <[tok := if isSpam then mkCounts (cHam c) (u32 (cSpam c + 1)) else mkCounts (u32 (cHam c + 1)) (cSpam c)]> tokens.

Definition Train (b : Bayes) (data : str) (isSpam : bool) : Bayes :=
  mkBayes (bPath b) (fold_left (learn isSpam) (elements (Tokenize data)) (bTokens b))
    (if isSpam then bHam b else u32 (bHam b + 1)) (if isSpam then u32 (bSpam b + 1) else bSpam b) true.

Definition qmin (a b : Q) : Q := if Qltb b a then b else a.
Definition qmax (a b : Q) : Q := if Qltb a b then b else a.

(** The spam probability of a token. *)
Definition token_prob (b : Bayes) (tok : str) : Q :=
  match bTokens b !! tok with
  | Some c =>
      if minOccurrences <=? u32 (cHam c + cSpam c) then
        let g := qmin 1 (inject_Z (cHam c) * 2 / qmax (inject_Z (bHam b)) 1) in
        let s := qmin 1 (inject_Z (cSpam c) / qmax (inject_Z (bSpam b)) 1) in
        let p := if Qltb 0 (g + s) then (s / (g + s))%Q else unknownProb in
        qmax probFloor (qmin probCeil p)
      else unknownProb
  | None => unknownProb
  end.

Definition distance (p : Q) : Q := let d := (p - 1 / 2)%Q in if Qltb d 0 then (- d)%Q else d.

(** The most decisive probabilities; [visited] are the tokens in the order in
    which the map is ranged over. *)
Definition decisive (b : Bayes) (visited : list str) : list Q :=
  take significant (sort_slice (fun p q => Qltb (distance q) (distance p)) (map (token_prob b) visited)).

(** The combination as the code computes it. *)
Definition log_sum (f : Q -> R) (ps : list Q) : R := fold_left (fun acc p => (acc + ln (f p))%R) ps 0%R.
Definition combine_log (ps : list Q) : R :=
  let logSpam := log_sum Q2R ps in
  let logHam := log_sum (fun p => 1 - Q2R p)%R ps in
  let maxLog := Rmax logSpam logHam in
  let es := exp (logSpam - maxLog) in
  let eh := exp (logHam - maxLog) in
  (es / (es + eh))%R.

(** The same on rationals, without logarithms. *)
Definition product (f : Q -> Q) (ps : list Q) : Q := foldr (fun p acc => (f p * acc)%Q) 1%Q ps.
Definition combine (ps : list Q) : Q :=
  let s := product (fun p => p) ps in
  let h := product (fun p => 1 - p)%Q ps in
  (s / (s + h))%Q.

Definition Score (b : Bayes) (visited : list str) : option Q :=
  if negb (Ready b) then None
  else match visited with [] => None | _ => Some (combine (decisive b visited)) end.
End Tokens.

(** ** The corpus file *)

Definition print_counts (kc : str * counts) : str :=
  dec (cHam kc.2) ++ #" " ++ dec (cSpam kc.2) ++ #" " ++ kc.1 ++ [LF].
Definition print_corpus (b : Bayes) : str :=
  #"H" ++ dec (bHam b) ++ #" S" ++ dec (bSpam b) ++ [LF]
  ++ concat (map print_counts
      (sort_slice (fun a b => str_ltb a.1 b.1) (map_to_list (bTokens b)))).

Definition Save (b : Bayes) : M Bayes :=
  match bPath b with
  | None => mret b
  | Some p =>
      if negb (bDirty b) then mret b
      else
        MkdirAll (parent p) ≫= fun _ =>
        replace_file p (print_corpus b) ≫= fun _ =>
        mret (mkBayes (bPath b) (bTokens b) (bHam b) (bSpam b) false)
  end.

Definition maxLine : Z := 4 * 1024 * 1024.

Definition parse_counts (tokens : gmap str counts) (line : str) : gmap str counts :=
  match split_n 3 " "%char line with
  | [h; s; tok] =>
      match parse_uint 32 h, parse_uint 32 s with
      | Some h, Some s => <[tok := mkCounts h s]> tokens
      | _, _ => tokens
      end
  | _ => tokens
  end.

(** What a corpus says; [failed] is an error of the file below it. *)
Definition parse_corpus (p : path) (content : str) (failed : bool) : result error Bayes :=
  match scan_lines maxLine content with
  | [] => Ok (mkBayes (Some p) ∅ 0 0 false)
  | line :: entries =>
      match fields line with
      | [h; s] =>
          if negb (has_prefix #"H" h) || negb (has_prefix #"S" s) then Err (ErrText #"bad header")
          else match parse_uint 32 (drop 1 h), parse_uint 32 (drop 1 s) with
               | Some nHam, Some nSpam =>
                   let tokens := fold_left parse_counts entries ∅ in
                   if failed || existsb (fun l : str => maxLine <=? Z.of_nat (length l)) (GoStrings.split LF content)
                   then Err EIO
                   else Ok (mkBayes (Some p) tokens nHam nSpam false)
               | _, _ => Err (ErrText #"bad header counts")
               end
      | _ => Err (ErrText #"bad header")
      end
  end.

(** [load]: reading may fail after some bytes. *)
Definition load (p : path) : M Bayes :=
  f ← next_fault;
  w ← get_world;
  match f with
  | Fault => throw EIO
  | _ =>
      match wFiles w !! p with
      | None => throw ENOENT
      | Some x =>
          of_result (match f with
                     | Short n => parse_corpus p (take n (fData x)) true
                     | _ => parse_corpus p (fData x) false
                     end)
      end
  end.

Definition NewBayes (p : option path) : M Bayes :=
  match p with
  | None => mret (mkBayes None ∅ 0 0 false)
  | Some f =>
      r ← try (load f);
      match r with
      | Ok b => mret b
      | Err e => if IsNotExist e then mret (mkBayes p ∅ 0 0 false) else throw e
      end
  end.

(** ** The combination *)

Definition inside (p : Q) : Prop := (0 < p)%Q /\ (p < 1)%Q.

Lemma clamp_inside p : inside (qmax probFloor (qmin probCeil p)).
Proof.
  unfold inside, qmax, qmin, probFloor, probCeil.
  destruct (Qltb p (99 / 100)) eqn:E1; destruct (Qltb (1 / 100) _) eqn:E2; rewrite ?Qltb_lt, ?Qltb_ge in *; split;
    try done; (eapply Qlt_trans; [|done]; done) || (eapply Qlt_trans; [done|]; done).
Qed.

Lemma token_prob_inside b tok : inside (token_prob b tok).
Proof.
  unfold token_prob. destruct (bTokens b !! tok) as [c|]; [|by split].
  destruct (minOccurrences <=? _); [|by split]. apply clamp_inside.
Qed.

Lemma product_pos f ps : Forall (fun p => (0 < f p)%Q) ps -> (0 < product f ps)%Q.
Proof. induction 1 as [|p ps Hp _ IH]; simpl; [done|]. by apply Qmult_lt_0_compat. Qed.

Lemma product_complement ps : Forall inside ps -> (0 < product (fun p => 1 - p) ps)%Q.
Proof. intros H. apply product_pos. eapply Forall_impl; [exact H|]. intros p [_ Hp]. cbn. lra. Qed.
Lemma product_inside ps : Forall inside ps -> (0 < product (fun p => p) ps)%Q.
Proof. intros H. apply product_pos. eapply Forall_impl; [exact H|]. by intros p [Hp _]. Qed.

Lemma combine_inside ps : Forall inside ps -> inside (combine ps).
Proof.
  intros H. pose proof (product_inside ps H). pose proof (product_complement ps H).
  unfold inside, combine. split; [apply Qlt_shift_div_l|apply Qlt_shift_div_r]; lra.
Qed.

Lemma log_sum_acc f ps acc : fold_left (fun acc p => acc + ln (f p))%R ps acc = (acc + log_sum f ps)%R.
Proof.
  unfold log_sum. revert acc. induction ps as [|p ps IH]; intros acc; simpl; [by rewrite Rplus_0_r|].
  rewrite IH, (IH (0 + _)%R). by rewrite Rplus_0_l, Rplus_assoc.
Qed.

Lemma log_sum_product (f : Q -> R) (g : Q -> Q) ps :
  (forall p, p ∈ ps -> f p = Q2R (g p) /\ (0 < g p)%Q) -> log_sum f ps = ln (Q2R (product g ps)).
Proof.
  intros H. induction ps as [|p ps IH]; [simpl; by rewrite RMicromega.Q2R_1, ln_1|].
  assert (forall q, q ∈ ps -> f q = Q2R (g q) /\ (0 < g q)%Q) as H' by (intros q Hq; apply H; set_solver).
  destruct (H p ltac:(set_solver)) as [Ef Hg].
  assert (0 < product g ps)%Q as Hp by (apply product_pos, Forall_forall; intros q Hq; by apply H').
  unfold log_sum. cbn [fold_left]. rewrite log_sum_acc, IH by done. cbn [product foldr].
  rewrite Rplus_0_l, Ef, Q2R_mult, ln_mult; [done|..]; rewrite <- RMicromega.Q2R_0; by apply Qlt_Rlt.
Qed.

Lemma softmax (s h : R) : (0 < s)%R -> (0 < h)%R -> forall m,
  (exp (ln s - m) / (exp (ln s - m) + exp (ln h - m)) = s / (s + h))%R.
Proof.
  intros Hs Hh m. unfold Rminus. rewrite !exp_plus, !exp_ln by done.
  pose proof (exp_pos (- m)) as He.
  assert (0 < s * exp (- m) + h * exp (- m))%R by (apply Rplus_lt_0_compat; by apply Rmult_lt_0_compat).
  assert (0 < s + h)%R by by apply Rplus_lt_0_compat.
  field. split; by apply Rgt_not_eq.
Qed.

(** Summing logarithms and taking the difference to the larger sum, as the
    code does lest products underflow, gives the quotient of the products: the
    probability that the classifier stands for. *)
Lemma combine_log_spec ps : Forall inside ps -> combine_log ps = Q2R (combine ps).
Proof.
  intros H. pose proof (product_inside ps H) as Hs. pose proof (product_complement ps H) as Hh.
  rewrite Forall_forall in H. unfold combine_log.
  rewrite (log_sum_product Q2R (fun p => p)) by (intros p Hp; split; [done|by apply H]).
  rewrite (log_sum_product (fun p => 1 - Q2R p)%R (fun p => 1 - p)%Q).
  2:{ intros p Hp. split; [by rewrite Q2R_minus, RMicromega.Q2R_1|]. destruct (H p Hp). lra. }
  rewrite softmax by (rewrite <- RMicromega.Q2R_0; by apply Qlt_Rlt).
  unfold combine. rewrite Q2R_div by (intros E; rewrite <- E in Hh; lra). by rewrite Q2R_plus.
Qed.

Lemma Forall_decisive b visited : Forall inside (decisive b visited).
Proof.
  unfold decisive. apply Forall_take. rewrite sort_slice_perm. apply Forall_forall.
  intros p (tok & -> & _)%list_elem_of_fmap. apply token_prob_inside.
Qed.

(** A score is a probability strictly between 0 and 1. *)
Lemma Score_inside b visited p : Score b visited = Some p -> inside p.
Proof.
  unfold Score. destruct (negb (Ready b)); [done|]. destruct visited; [done|]. intros [= <-].
  apply combine_inside, Forall_decisive.
Qed.

(** The score of a trained classifier is the naive Bayes quotient of the most
    decisive tokens, computed as in the code through logarithms, and lies
    strictly between 0 and 1: it neither overflows nor is ever certain. *)
Theorem Score_log b visited p :
  Score b visited = Some p ->
  Ready b = true /\ Q2R p = combine_log (decisive b visited) /\ inside p.
Proof.
  intros H. split; [unfold Score in H; by destruct (Ready b)|]. split; [|by eapply Score_inside].
  unfold Score in H. destruct (negb (Ready b)); [done|]. destruct visited; [done|]. injection H as <-.
  symmetry. apply combine_log_spec, Forall_decisive.
Qed.

(** A classifier that knows one spam word and one ham word. *)
Definition example_corpus : Bayes :=
  mkBayes None {[ #"casino" := mkCounts 0 30; #"meeting" := mkCounts 25 1 ]} 40 40 false.

Lemma Score_log_witness :
  exists p, Score example_corpus [ #"casino"; #"meeting"] = Some p /\
    Q2R p = combine_log (decisive example_corpus [ #"casino"; #"meeting"]).
Proof.
  eexists. split; [reflexivity|].
  apply (Score_log example_corpus [ #"casino"; #"meeting"]). reflexivity.
Defined.

(** ** The corpus file is read back *)

(** A token the file can hold: one line, no carriage return at its end. *)
Definition token_safe (tok : str) : Prop :=
  LF ∉ tok /\ last tok <> Some CR /\ Z.of_nat (length tok) < 4096.
Definition corpus_ok (b : Bayes) : Prop :=
  0 <= bHam b < 2 ^ 32 /\ 0 <= bSpam b < 2 ^ 32 /\
  map_Forall (fun tok c => token_safe tok /\ 0 <= cHam c < 2 ^ 32 /\ 0 <= cSpam c < 2 ^ 32) (bTokens b).

Definition counts_line (kc : str * counts) : str := dec (cHam kc.2) ++ SP :: dec (cSpam kc.2) ++ SP :: kc.1.

Lemma parse_counts_line tokens kc :
  0 <= cHam kc.2 < 2 ^ 32 -> 0 <= cSpam kc.2 < 2 ^ 32 -> parse_counts tokens (counts_line kc) = <[kc.1 := kc.2]> tokens.
Proof.
  intros Hh Hs. unfold parse_counts, counts_line.
  assert (forall z, 0 <= z -> SP ∉ dec z) as Hsp by (intros z Hz; apply not_in_digits; [done|by apply dec_digits]).
  cbn [split_n]. rewrite cut_app by (apply Hsp; lia). rewrite cut_app by (apply Hsp; lia).
  rewrite !parse_uint_dec by lia. by destruct kc as [k []].
Qed.

Lemma print_corpus_lines b :
  print_corpus b = unlines (two_counts "H" (bHam b) "S" (bSpam b)
    :: map counts_line (sort_slice (fun a b => str_ltb a.1 b.1) (map_to_list (bTokens b)))).
Proof.
  unfold print_corpus, two_counts. rewrite unlines_cons. set (l := sort_slice _ _).
  assert (concat (map print_counts l) = unlines (map counts_line l)) as ->.
  { induction l as [|kc l IH]; [done|]. simpl. rewrite unlines_cons, IH.
    unfold print_counts, counts_line. rewrite <- !app_assoc. simpl. by rewrite <- !app_assoc. }
  change #" S" with (SP :: ["S"%char]). change #"H" with ["H"%char]. by rewrite <- !app_assoc.
Qed.

Lemma fold_counts (l : list (str * counts)) m :
  Forall (fun kc => 0 <= cHam kc.2 < 2 ^ 32 /\ 0 <= cSpam kc.2 < 2 ^ 32) l ->
  fold_left parse_counts (map counts_line l) m = fold_left (fun m kc => <[kc.1 := kc.2]> m) l m.
Proof.
  intros HF. revert m. induction HF as [|kc l [H1 H2] HF IH]; intros m; [done|].
  cbn [map fold_left]. by rewrite parse_counts_line, IH.
Qed.

Lemma counts_line_safe kc :
  token_safe kc.1 -> 0 <= cHam kc.2 < 2 ^ 32 -> 0 <= cSpam kc.2 < 2 ^ 32 ->
  LF ∉ counts_line kc /\ last (counts_line kc) <> Some CR /\ Z.of_nat (length (counts_line kc)) < maxLine.
Proof.
  intros (Hlf & Hcr & Hlen) Hh Hs. unfold counts_line.
  destruct (digits_line_safe _ (dec_digits (cHam kc.2) ltac:(lia))) as [Hh1 _].
  destruct (digits_line_safe _ (dec_digits (cSpam kc.2) ltac:(lia))) as [Hs1 _].
  pose proof (dec_length (cHam kc.2) Hh). pose proof (dec_length (cSpam kc.2) Hs). split_and!.
  - rewrite !not_elem_of_app, !not_elem_of_cons, !not_elem_of_app, !not_elem_of_cons. done.
  - rewrite last_app_cons. change (last (SP :: ?l)) with (last ([SP] ++ l)).
    rewrite app_assoc, last_app_cons. destruct kc.1 as [|x t] eqn:E; [done|by rewrite last_cons_cons, <- E in *].
  - rewrite length_app. simpl. rewrite length_app. simpl. unfold maxLine. lia.
Qed.

Lemma two_counts_safe a v b n :
  a <> LF -> b <> LF -> 0 <= v < 2 ^ 32 -> 0 <= n < 2 ^ 32 ->
  LF ∉ two_counts a v b n /\ last (two_counts a v b n) <> Some CR /\ Z.of_nat (length (two_counts a v b n)) < maxLine.
Proof.
  intros Ha Hb Hv Hn. unfold two_counts.
  destruct (digits_line_safe _ (dec_digits v ltac:(lia))) as [Hv1 _].
  destruct (digits_line_safe _ (dec_digits n ltac:(lia))) as [Hn1 Hn2].
  pose proof (dec_length v Hv). pose proof (dec_length n Hn). split_and!.
  - rewrite not_elem_of_app, !not_elem_of_cons. done.
  - rewrite last_app_cons. change (SP :: b :: dec n) with ([SP; b] ++ dec n).
    destruct (dec n) as [|x l] eqn:E; [|by rewrite last_app_cons].
    unfold dec in E. destruct (Z.ltb_spec n 0); [lia|]. by apply dec_N_nonempty in E.
  - rewrite length_app. simpl. unfold maxLine. lia.
Qed.

(** A corpus that is written is read back as it was. *)
Lemma parse_print_corpus p b :
  corpus_ok b -> parse_corpus p (print_corpus b) false = Ok (mkBayes (Some p) (bTokens b) (bHam b) (bSpam b) false).
Proof.
  intros (Hh & Hs & Ht). rewrite print_corpus_lines.
  set (l := sort_slice (fun a b : str * counts => str_ltb a.1 b.1) (map_to_list (bTokens b))).
  assert (Permutation l (map_to_list (bTokens b))) as HP by apply sort_slice_perm.
  assert (Forall (fun kc => token_safe kc.1 /\ 0 <= cHam kc.2 < 2 ^ 32 /\ 0 <= cSpam kc.2 < 2 ^ 32) l) as HF.
  { rewrite HP. apply map_Forall_to_list in Ht. eapply Forall_impl; [exact Ht|]. by intros []. }
  set (lines := two_counts "H" (bHam b) "S" (bSpam b) :: map counts_line l).
  assert (Forall (fun line => LF ∉ line /\ last line <> Some CR /\ Z.of_nat (length line) < maxLine) lines) as HL.
  { constructor; [by apply two_counts_safe|]. apply Forall_fmap. eapply Forall_impl; [exact HF|].
    intros kc (H1 & H2 & H3). by apply counts_line_safe. }
  unfold parse_corpus. rewrite scan_lines_unlines by done. unfold lines.
  rewrite fields_two_counts by (done || lia). change ("H"%char :: ?x) with (#"H" ++ x).
  change ("S"%char :: ?x) with (#"S" ++ x). rewrite !has_prefix_app. cbn [negb orb].
  change (drop 1 (#"H" ++ ?x)) with (drop 0 x). change (drop 1 (#"S" ++ ?x)) with (drop 0 x).
  rewrite !drop_0, !parse_uint_dec by lia.
  rewrite fold_counts by (eapply Forall_impl; [exact HF|]; tauto).
  rewrite (fold_insert_map_to_list (bTokens b)) by done. fold lines.
  rewrite split_unlines by (eapply Forall_impl; [exact HL|]; tauto).
  destruct (existsb _ (lines ++ [ [] ])) eqn:E; [|done]. exfalso. apply existsb_exists in E as (x & Hx & Hl).
  apply list_elem_of_In, elem_of_app in Hx as [Hx|Hx%list_elem_of_singleton]; [|by subst].
  rewrite Forall_forall in HL. destruct (HL x Hx) as (_ & _ & H). to_prop. lia.
Qed.

(** A corpus that was saved is the one that a classifier opened on the same
    file starts with. *)
Lemma Save_NewBayes b p w :
  bPath b = Some p -> bDirty b = true -> corpus_ok b -> p <> [] -> wFaults w = [] ->
  exists w', Save b w = (Ok (mkBayes (Some p) (bTokens b) (bHam b) (bSpam b) false), w') /\
    NewBayes (Some p) w' = (Ok (mkBayes (Some p) (bTokens b) (bHam b) (bSpam b) false), w').
Proof.
  intros Hp Hd Hok Hne Hw. unfold Save. rewrite Hp, Hd. cbn [negb].
  erewrite bind_ok by (unfold MkdirAll; by rewrite syscall_ok).
  set (w1 := set_dirs _ w). destruct (replace_file_ok p (print_corpus b) w1) as (w2 & E2 & Hf2 & Hd2 & Hx2); [done..| |].
  { unfold w1. cbn [wDirs set_dirs]. apply elem_of_union_l, elem_of_list_to_set, elem_of_prefixes. done. }
  assert (load p w2 = (Ok (mkBayes (Some p) (bTokens b) (bHam b) (bSpam b) false), w2)) as El.
  { unfold load, next_fault, mbind, M_bind, get_world.
    rewrite Hx2, Hf2, lookup_insert_eq. cbn [fData]. unfold of_result. by rewrite parse_print_corpus. }
  exists w2. split; [by erewrite bind_ok by exact E2|]. unfold NewBayes.
  by erewrite bind_ok by (by apply try_eq).
Qed.

(** ** Tokens fit the file *)

Definition no_break (c : ascii) : Prop := c <> LF /\ c <> CR.

(** A rune is one byte, or bytes outside ASCII. *)
Lemma rune_cases s :
  (length (take (rune_width s) s) <= 1)%nat \/ Forall (fun c => (128 <= N_of_ascii c)%N) (take (rune_width s) s).
Proof.
  unfold rune_width. destruct s as [|a r]; [by left; simpl; lia|]. destruct r as [|b r]; [by left|].
  repeat match goal with
  | |- context [if ?c then _ else _] => destruct c eqn:?
  | |- context [match ?r with [] => _ | _ => _ end] => destruct r
  end; (left; simpl; lia) || (right; cbn [take];
    repeat match goal with
    | H : _ && _ = true |- _ => apply andb_true_iff in H; destruct H
    | H : (_ <=? _)%N = true |- _ => apply N.leb_le in H
    end; repeat constructor; lia).
Qed.

Lemma runes_fuel_cases fuel s r : r ∈ runes_fuel fuel s -> (length r <= 1)%nat \/ Forall (fun c => (128 <= N_of_ascii c)%N) r.
Proof.
  revert s. induction fuel as [|f IH]; intros [|c s]; simpl; try by intros ?%elem_of_nil.
  intros [->|Hr]%elem_of_cons; [apply (rune_cases (c :: s))|by eapply IH].
Qed.

Lemma runs_forall keep (P : ascii -> Prop) rs :
  (forall r, r ∈ rs -> keep r = true -> Forall P r) ->
  forall cur, Forall P cur -> Forall (Forall P) (runs keep cur rs).
Proof.
  intros H. induction rs as [|r rs IH]; intros cur Hc; simpl.
  - destruct cur; [by apply Forall_nil|by apply Forall_singleton].
  - assert (forall r0, r0 ∈ rs -> keep r0 = true -> Forall P r0) as H' by (intros; apply H; set_solver).
    destruct (keep r) eqn:E.
    + apply IH; [done|]. apply Forall_app. split; [done|]. apply H; [set_solver|done].
    + destruct cur; [by apply IH|]. constructor; [done|]. by apply IH.
Qed.

Section Safe.
Context (unicode_word : str -> bool).

Lemma token_rune_safe r :
  (length r <= 1)%nat \/ Forall (fun c => (128 <= N_of_ascii c)%N) r -> token_rune unicode_word r = true -> Forall no_break r.
Proof.
  intros [Hl|Hh] Hk.
  - destruct r as [|c [|d r] ]; [constructor| |simpl in Hl; lia]. repeat constructor; intros ->; done.
  - eapply Forall_impl; [exact Hh|]. intros c Hc. cbv beta in Hc. split; intros ->; by vm_compute in Hc.
Qed.

Lemma to_lower_safe s : Forall no_break s -> Forall no_break (to_lower s).
Proof.
  intros H. unfold to_lower. apply Forall_fmap. eapply Forall_impl; [exact H|].
  intros c [H1 H2]. split; intros E; apply lower_byte_nonletter in E; done.
Qed.

Lemma trim_safe cutset s : Forall no_break s -> Forall no_break (trim cutset s).
Proof.
  intros H. unfold trim, trim_right, drop_while_end.
  assert (forall f (l : str), Forall no_break l -> Forall no_break (drop_while f l)) as Hd.
  { intros f l Hl. destruct (drop_while_suffix f l) as [k E]. rewrite E in Hl. by apply Forall_app in Hl as [_ ?]. }
  by apply Forall_rev, Hd, Forall_rev, Hd.
Qed.

Lemma words_safe s t : t ∈ words unicode_word s -> Forall no_break t /\ (length t <= maxTokenLen)%nat.
Proof.
  unfold words. rewrite list_elem_of_In, filter_In, <- list_elem_of_In. intros [Ht Hl].
  apply andb_true_iff in Hl as [_ Hl%Nat.leb_le]. split; [|done].
  apply list_elem_of_fmap in Ht as (f & -> & Hf). apply trim_safe, to_lower_safe.
  assert (Forall (Forall no_break) (fields_func (token_rune unicode_word) s)) as HF.
  { apply runs_forall; [|constructor]. intros r Hr. apply token_rune_safe. by eapply runes_fuel_cases. }
  rewrite Forall_forall in HF. by apply HF.
Qed.

Lemma no_break_safe t : Forall no_break t -> (length t < 4096)%nat -> token_safe t.
Proof.
  intros H Hl. split; [|split; [|lia]].
  - intros Hin. rewrite Forall_forall in H. by destruct (H _ Hin).
  - intros E%last_Some_elem_of. rewrite Forall_forall in H. by destruct (H _ E).
Qed.

Lemma signal_field_safe name :
  existsb (str_eqb name) signal_fields = true -> Forall no_break name /\ (length name <= 20)%nat.
Proof.
  intros (x & Hx & E)%existsb_exists. apply str_eqb_eq in E as ->. revert x Hx.
  apply List.Forall_forall. repeat constructor; try done; simpl; lia.
Qed.

(** Every token of a message fits the corpus file. *)
Lemma Tokenize_safe data tok : tok ∈ Tokenize unicode_word data -> token_safe tok.
Proof.
  unfold Tokenize. destruct (split_message data) as [header body].
  rewrite elem_of_list_to_set, elem_of_app. intros [H|H].
  - rewrite list_elem_of_In, in_concat in H. destruct H as (l & Hl & H). apply in_map_iff in Hl as (line & <- & _).
    unfold header_tokens in H. destruct (cut ":"%char (trim_right [CR] line)) as [[name value] ok].
    destruct (ok && _) eqn:E; [|done]. apply andb_true_iff in E as [_ E].
    apply signal_field_safe in E as [Hn Hl]. apply in_map_iff in H as (t & <- & Ht).
    apply list_elem_of_In, words_safe in Ht as [Ht Hlt]. unfold maxTokenLen in Hlt. apply no_break_safe.
    + apply Forall_app. split; [done|]. by repeat constructor.
    + rewrite !length_app. simpl. lia.
  - apply words_safe in H as [Ht Hlt]. unfold maxTokenLen in Hlt. apply no_break_safe; [done|lia].
Qed.

(** Training keeps the corpus fit for its file. *)
Lemma Train_ok b data isSpam : corpus_ok b -> corpus_ok (Train unicode_word b data isSpam).
Proof.
  intros (Hh & Hs & Ht). unfold Train, corpus_ok. cbn [bHam bSpam bTokens].
  split; [destruct isSpam; [done|apply u32_range]|]. split; [destruct isSpam; [apply u32_range|done]|].
  assert (Forall token_safe (elements (Tokenize unicode_word data))) as HF.
  { apply Forall_forall. intros t Hin%elem_of_elements. by eapply Tokenize_safe. }
  revert Ht. generalize (bTokens b). induction HF as [|t l Hsafe HF IH]; intros m Hm; [done|].
  cbn [fold_left]. apply IH. unfold learn. apply map_Forall_insert_2; [|done].
  assert (0 <= cHam (default (mkCounts 0 0) (m !! t)) < 2 ^ 32 /\ 0 <= cSpam (default (mkCounts 0 0) (m !! t)) < 2 ^ 32) as [H1 H2].
  { destruct (m !! t) as [c|] eqn:E; [by destruct (Hm t c E)|done]. }
  split; [done|]. destruct isSpam; cbn [cHam cSpam]; (split; [done|apply u32_range]) || (split; [apply u32_range|done]).
Qed.

(** A series of messages learned. *)
Definition train_all (b : Bayes) (msgs : list (str * bool)) : Bayes :=
  fold_left (fun b m => Train unicode_word b m.1 m.2) msgs b.

Lemma train_all_ok b msgs : corpus_ok b ->
  corpus_ok (train_all b msgs) /\ bPath (train_all b msgs) = bPath b /\
  (msgs <> [] -> bDirty (train_all b msgs) = true).
Proof.
  revert b. induction msgs as [|m msgs IH]; intros b Hb; [done|]. unfold train_all in *. cbn [fold_left].
  destruct (IH _ (Train_ok b m.1 m.2 Hb)) as (H1 & H2 & H3). split; [done|]. split; [done|]. intros _.
  destruct msgs; [done|by apply H3].
Qed.

(** What is learned outlasts the process: whatever messages a classifier has
    been trained with, once it is saved a classifier opened on the same file
    starts with the same tokens and counts. *)
Theorem learned_persists p msgs w :
  p <> [] -> msgs <> [] -> wFaults w = [] ->
  let b := train_all (mkBayes (Some p) ∅ 0 0 false) msgs in
  let saved := mkBayes (Some p) (bTokens b) (bHam b) (bSpam b) false in
  exists w', Save b w = (Ok saved, w') /\ NewBayes (Some p) w' = (Ok saved, w').
Proof.
  intros Hp Hm Hw b saved.
  destruct (train_all_ok (mkBayes (Some p) ∅ 0 0 false) msgs) as (H1 & H2 & H3); [split; [done|split; [done|apply map_Forall_empty]]|].
  by apply Save_NewBayes; [|apply H3| | |].
Qed.
End Safe.

Lemma learned_persists_witness :
  let b := train_all (fun _ => false) (mkBayes (Some [ #"var"; #"corpus"]) ∅ 0 0 false) [(#"buy casino chips", true)] in
  let saved := mkBayes (Some [ #"var"; #"corpus"]) (bTokens b) (bHam b) (bSpam b) false in
  exists w', Save b (mkWorld ∅ ∅ [] 7 [] [] 0 1 #"h") = (Ok saved, w') /\
             NewBayes (Some [ #"var"; #"corpus"]) w' = (Ok saved, w').
Proof. apply (learned_persists (fun _ => false)); [discriminate|discriminate|reflexivity]. Defined.
