(* ===== verification/Antispam.v ===== *)
(** * Spam heuristics and the scoring engine (internal/antispam/rules.go, engine.go)

    The header and body heuristics, with the five regular expressions written
    out as matchers, and the engine that adds up heuristics, URI blacklists, the
    classifier, authentication and the virus scanner.  The parser of
    [net/mail] is a parameter; scores are rationals. *)

From S2P Require Import Prelude GoStrings Filter RateLimit Bayes.

#[global] Open Scope Z_scope.

Record Rule := mkHit { ruName : str; ruScore : Q }.

Record Analysis := mkAnalysis {
  anRules : list Rule;
  anURIDomains : list str;
  anBadAttachment : str }.

Definition Total (a : Analysis) : Q := fold_left (fun t r => (t + ruScore r)%Q) (anRules a) 0%Q.
Definition Names (a : Analysis) : list str := map ruName (anRules a).

Definition executableExtensions : list str :=
  [ #".exe"; #".scr"; #".pif"; #".com"; #".bat"; #".cmd"; #".vbs"; #".vbe"; #".js"; #".jse";
    #".wsf"; #".wsh"; #".msi"; #".jar"; #".lnk"; #".ps1"; #".hta"; #".cpl"; #".msc"; #".reg"].

(** ** Regular expressions

    A matcher gives what is left after a match at the start of the text, with
    the submatch if there is one. *)

(** [\s] of package regexp. *)
Definition re_space (c : ascii) : bool := existsb (Ascii.eqb c) [SP; TAB; LF; CR; "012"%char].
(** A literal without regard to case. *)
Definition re_literal (p s : str) : option str :=
  if equal_fold (take (length p) s) p then Some (drop (length p) s) else None.
(** The longest run of a class, at least one byte. *)
Fixpoint re_run (f : ascii -> bool) (s : str) : str * str :=
  match s with
  | c :: r => if f c then let '(a, b) := re_run f r in (c :: a, b) else ([], s)
  | [] => ([], [])
  end.

(** [FindAll]: matches from left to right, none inside another. *)
Fixpoint re_all {A} (m : str -> option (A * str)) (fuel : nat) (s : str) : list A :=
  match fuel, s with
  | S f, c :: r =>
      match m s with
      | Some (a, rest) => a :: re_all m f rest
      | None => re_all m f r
      end
  | _, _ => []
  end.

(** [(?i)https?://([a-z0-9.-]+)] *)
Definition host_byte (c : ascii) : bool :=
  is_lower c || is_upper c || is_digit c || Ascii.eqb c "." || Ascii.eqb c "-".
Definition match_url (s : str) : option (str * str) :=
  match re_literal #"http" s with
  | None => None
  | Some r =>
      let r := match r with c :: r' => if Ascii.eqb (lower_byte c) "s" then r' else r | [] => r end in
      match re_literal #"://" r with
      | None => None
      | Some r => let '(host, rest) := re_run host_byte r in
                  match host with [] => None | _ => Some (host, rest) end
      end
  end.

(** The file name parameter: [filename] or [name] without regard to case,
    blanks, an equals sign, blanks, a quote if there is one, then everything up
    to a quote, a semicolon or the end of the line, and the quote.  When nothing
    follows the blanks after the equals sign, the match gives the last of them
    back, and the name is that blank. *)
Definition name_byte (c : ascii) : bool := negb (existsb (Ascii.eqb c) [DQ; ";"%char; CR; LF]).
Definition skip_quote (s : str) : str := match s with c :: r => if Ascii.eqb c DQ then r else s | [] => s end.
Definition match_value (s : str) : option (str * str) :=
  let '(name, rest) := re_run name_byte s in
  match name with [] => None | _ => Some (name, skip_quote rest) end.
(** The name after the blanks [ws]. *)
Fixpoint match_blank (ws after : str) : option (str * str) :=
  match ws with
  | [] => None
  | c :: r =>
      match match_blank r after with
      | Some m => Some m
      | None => if name_byte c then Some ([c], skip_quote (r ++ after)) else None
      end
  end.
Definition match_filename (s : str) : option (str * str) :=
  let after_key :=
    match re_literal #"filename" s with Some r => Some r | None => re_literal #"name" s end in
  match after_key with
  | None => None
  | Some r =>
      let '(_, r) := re_run re_space r in
      match r with
      | c :: r =>
          if Ascii.eqb c "=" then
            let '(ws, r) := re_run re_space r in
            match match_value (skip_quote r) with
            | Some m => Some m
            | None => match_blank ws r
            end
          else None
      | [] => None
      end
  end.

(** [https?://\d{1,3}\.\d{1,3}\.\d{1,3}\.\d{1,3}] *)
Definition octet_dot (s : str) : option str :=
  let '(ds, r) := re_run is_digit s in
  if Nat.leb 1 (length ds) && Nat.leb (length ds) 3 then
    match r with c :: r' => if Ascii.eqb c "." then Some r' else None | [] => None end
  else None.
Definition match_ip_url (s : str) : bool :=
  if has_prefix #"http" s then
    let r := drop 4 s in
    let r := match r with c :: r' => if Ascii.eqb c "s" then r' else r | [] => r end in
    if has_prefix #"://" r then
      match octet_dot (drop 3 r) with
      | Some r => match octet_dot r with
                  | Some r => match octet_dot r with
                              | Some (c :: _) => is_digit c
                              | _ => false
                              end
                  | None => false
                  end
      | None => false
      end
    else false
  else false.
Fixpoint re_exists (m : str -> bool) (s : str) : bool :=
  m s || match s with [] => false | _ :: r => re_exists m r end.

(** [(?i)\b[a-z]\s+[a-z]\s+[a-z]\s+[a-z]\s+[a-z]\b] *)
Definition letter (c : ascii) : bool := is_lower c || is_upper c.
Definition word_byte (c : ascii) : bool := letter c || is_digit c || Ascii.eqb c "_".
(** [n] more letters, blanks before each. *)
Fixpoint spaced_letters (n : nat) (s : str) : bool :=
  match s with
  | c :: r =>
      letter c &&
      match n with
      | 0%nat => match r with d :: _ => negb (word_byte d) | [] => true end
      | S n => let '(ws, r) := re_run re_space r in
               match ws with [] => false | _ => spaced_letters n r end
      end
  | [] => false
  end.
(** [bounded] says that a word boundary may begin here. *)
Fixpoint match_obfuscated (bounded : bool) (s : str) : bool :=
  (bounded && spaced_letters 4 s) ||
  match s with [] => false | c :: r => match_obfuscated (negb (word_byte c)) r end.

(** ** Heuristics *)

Fixpoint count_byte (c : ascii) (s : str) : nat :=
  match s with [] => 0%nat | d :: r => if Ascii.eqb d c then S (count_byte c r) else count_byte c r end.

(** [filepath.Ext]. *)
Definition Ext (path : str) : str :=
  match last_index_byte "." path with
  | Some i => if existsb (Ascii.eqb "/") (drop i path) then [] else drop i path
  | None => []
  end.

Definition isShouty (s : str) : bool :=
  let letters := length (List.filter letter s) in
  let upper := length (List.filter is_upper s) in
  Nat.leb 12 letters && (3 * Z.of_nat letters <? 4 * Z.of_nat upper).

Definition bodyOf (data : str) : str :=
  match index (CRLF ++ CRLF) data with
  | Some i => drop (i + 4) data
  | None => match index [LF; LF] data with Some i => drop (i + 2) data | None => [] end
  end.

(** One file name: the attachment refused so far and the rules of this one. *)
Definition check_attachment (bad : str) (found : str) : str * list Rule :=
  let name := trim_space found in
  let ext := to_lower (Ext name) in
  if existsb (str_eqb ext) executableExtensions then
    let base := trim_suffix (Ext name) name in
    (name, mkHit #"EXECUTABLE_ATTACHMENT" 50 ::
           (if Ext base =s [] then [] else [mkHit #"DOUBLE_EXTENSION" 30]))
  else (bad, []).

Fixpoint check_attachments (bad : str) (names : list str) : str * list Rule :=
  match names with
  | [] => (bad, [])
  | n :: r =>
      let '(bad, rules) := check_attachment bad n in
      let '(bad, rest) := check_attachments bad r in (bad, rules ++ rest)
  end.

Definition when (b : bool) (name : str) (score : Q) : list Rule := if b then [mkHit name score] else [].

Definition find_urls (body : str) : list str :=
  map (fun h => to_lower (trim_suffix #"." h)) (re_all match_url (length body) body).
Definition find_names (data : str) : list str := re_all match_filename (length data) data.

Section Heuristics.
(** [mail.ReadMessage], and [AddressList]: the names and addresses of a field. *)
Context (ReadMessage : str -> option header).
Context (AddressList : header -> str -> option (list (str * str))).

Definition header_rules (h : header) : list Rule :=
  let from := header_get h #"From" in
  let subject := header_get h #"Subject" in
  when (header_get h #"Message-ID" =s []) #"NO_MESSAGE_ID" 8
  ++ when (header_get h #"Date" =s []) #"NO_DATE" 5
  ++ when (from =s []) #"NO_FROM" 12
  ++ when ((header_get h #"To" =s []) && (header_get h #"Cc" =s [])) #"NO_RECIPIENT_HEADER" 6
  ++ when (Nat.ltb 1 (count_byte "@" from)) #"MULTIPLE_FROM_ADDRESSES" 10
  ++ (match AddressList h #"From" with
      | Some [(name, address)] =>
          when (contains #"@" name && negb (equal_fold name address)) #"FROM_DISPLAY_NAME_SPOOF" 20
      | _ => []
      end)
  ++ (if subject =s [] then [mkHit #"NO_SUBJECT" 4]
      else when (isShouty subject) #"SUBJECT_ALL_CAPS" 6
           ++ when (contains #"!!!" subject) #"SUBJECT_EXCESS_EXCLAMATION" 5).

Definition body_rules (body : str) (uris : list str) : list Rule :=
  when (Nat.ltb 20 (length uris)) #"EXCESSIVE_LINKS" 6
  ++ when (re_exists match_ip_url body) #"URL_IS_RAW_IP" 12
  ++ when (match_obfuscated true body) #"SPACED_OUT_TEXT" 8
  ++ when (Nat.ltb 0 (length body) && isShouty body) #"BODY_ALL_CAPS" 5
  ++ when (Nat.ltb 0 (length uris) && Nat.ltb (length (trim_space (to_lower body))) 200) #"SHORT_BODY_WITH_LINK" 5.

Definition AnalyzeHeaders (data : str) : Analysis :=
  match ReadMessage data with
  | None => mkAnalysis [mkHit #"MALFORMED_HEADERS" 15] [] []
  | Some h =>
      let body := bodyOf data in
      let uris := find_urls body in
      let '(bad, attached) := check_attachments [] (find_names data) in
      mkAnalysis (header_rules h ++ body_rules body uris ++ attached) uris bad
  end.
End Heuristics.

(** ** The engine *)

Record Verdict := mkVerdict {
  vScore : Q;
  vRules : list str;
  vVirus : str;
  vBadAttachment : str;
  vBayes : option Q }.            (** [None] stands for -1, no opinion *)

(** [%.1f] of a number that is not negative: to the nearest tenth, a tie to
    the even one. *)
Definition tenths (q : Q) : Z :=
  let f := Qfloor (q * 10) in
  let rest := (q * 10 - inject_Z f)%Q in
  if Qltb rest (1 / 2) then f else if Qltb (1 / 2) rest then f + 1 else if Z.even f then f else f + 1.
Definition format1 (q : Q) : str := dec (tenths q / 10) ++ #"." ++ dec (tenths q mod 10).

(** [Verdict.Header]. *)
Definition Header (v : Verdict) (threshold : Q) : str :=
  #"X-Spam-Status: " ++ (if Qle_bool threshold (vScore v) then #"Yes" else #"No")
  ++ #", score=" ++ format1 (vScore v) ++ #" required=" ++ format1 threshold
  ++ (match vRules v with [] => [] | rules => #" tests=" ++ join #"," rules end) ++ CRLF.

(** [Auth]: what sender authentication found. *)
Record AuthOutcome := mkAuth { SPFPass : bool; DKIMPass : bool; DMARCPass : bool }.

Section Engine.
Context {E : Type}.
Context (ReadMessage : str -> option header).
Context (AddressList : header -> str -> option (list (str * str))).
Context (unicode_word : str -> bool).
(** The order in which a set of tokens is ranged over. *)
Context (range : gset str -> list str).

Record Engine := mkEngine {
  eBayes : option Bayes;
  eScanner : option (str -> option str);       (** [None] is an error, the empty name a clean message *)
  eURIBL : option (str -> E -> bool * E);
  eBayesWeight : Q }.

(** The loop over the host names of the body: whether one is listed. *)
Fixpoint any_listed (listed : str -> E -> bool * E) (seen : list str) (uris : list str) (st : E) : bool * E :=
  match uris with
  | [] => (false, st)
  | d :: r =>
      if existsb (str_eqb d) seen then any_listed listed seen r st
      else let '(l, st) := listed d st in
           if l : bool then (true, st) else any_listed listed (d :: seen) r st
  end.

Definition bayes_rule (p : Q) : list str :=
  if Qle_bool (9 / 10) p then [ #"BAYES_99"]
  else if Qle_bool (7 / 10) p then [ #"BAYES_80"]
  else if Qle_bool p (1 / 10) then [ #"BAYES_00"]
  else [].

Definition auth_credit (a : AuthOutcome) : Q * list str :=
  if DMARCPass a then (-15 : Q, [ #"DMARC_PASS"])
  else if DKIMPass a then (-10 : Q, [ #"DKIM_PASS"])
  else if SPFPass a then (-3 : Q, [ #"SPF_PASS"])
  else (0 : Q, []).

Definition clamp (q : Q) : Q :=
  let q := if Qltb q 0 then 0%Q else q in if Qltb 100 q then 100%Q else q.

Definition Check (e : Engine) (data : str) (auth : AuthOutcome) (st : E) : Verdict * E :=
  let analysis := AnalyzeHeaders ReadMessage AddressList data in
  let score := Total analysis in
  let rules := Names analysis in
  let '(listed, st) :=
    match eURIBL e with Some f => any_listed f [] (anURIDomains analysis) st | None => (false, st) end in
  let '(score, rules) := if listed : bool then ((score + 12)%Q, rules ++ [ #"URIBL_LISTED"]) else (score, rules) in
  let opinion := match eBayes e with
                 | Some b => Score b (range (Tokenize unicode_word data))
                 | None => None
                 end in
  let '(score, rules) :=
    match opinion with
    | Some p =>
        let weight := if Qeq_bool (eBayesWeight e) 0 then 60%Q else eBayesWeight e in
        ((score + (p - 1 / 2) * 2 * weight)%Q, rules ++ bayes_rule p)
    | None => (score, rules)
    end in
  let '(credit, r) := auth_credit auth in
  let '(score, rules) := ((score + credit)%Q, rules ++ r) in
  let virus := match eScanner e with
               | Some scan => match scan data with Some name => name | None => [] end
               | None => []
               end in
  let '(score, rules) := if virus =s [] then (score, rules) else (100%Q, rules ++ [ #"VIRUS_FOUND"]) in
  (mkVerdict (clamp score) rules virus (anBadAttachment analysis) opinion, st).
End Engine.
Arguments Engine : clear implicits.
Arguments mkEngine {E}.

(** ** Scores *)

Lemma spam_clamp_range q : (0 <= clamp q)%Q /\ (clamp q <= 100)%Q.
Proof.
  unfold clamp. destruct (Qltb q 0) eqn:E1; destruct (Qltb 100 _) eqn:E2; rewrite ?Qltb_lt, ?Qltb_ge in *;
    split; (done || lra).
Qed.

Lemma clamp_mono a b : (a <= b)%Q -> (clamp a <= clamp b)%Q.
Proof.
  intros H. unfold clamp. destruct (Qltb a 0) eqn:E1; destruct (Qltb b 0) eqn:E2;
    repeat match goal with |- context [Qltb 100 ?x] => destruct (Qltb 100 x) eqn:? end;
    rewrite ?Qltb_lt, ?Qltb_ge in *; lra.
Qed.

(** The outcome of authentication that vouches for more. *)
Definition weaker (a b : AuthOutcome) : Prop :=
  (SPFPass a = true -> SPFPass b = true) /\ (DKIMPass a = true -> DKIMPass b = true) /\
  (DMARCPass a = true -> DMARCPass b = true).

Lemma credit_mono a b : weaker a b -> ((auth_credit b).1 <= (auth_credit a).1)%Q.
Proof.
  intros (H1 & H2 & H3). destruct a as [s d m], b as [s' d' m']. cbn in *. unfold auth_credit; cbn.
  destruct m; [rewrite H3 by done; done|]. destruct m'; [by destruct d, s|].
  destruct d; [rewrite H2 by done; done|]. destruct d'; [by destruct s|].
  destruct s; [rewrite H1 by done; done|]. by destruct s'.
Qed.

Section Scores.
Context {E : Type}.
Context (ReadMessage : str -> option header) (AddressList : header -> str -> option (list (str * str))).
Context (unicode_word : str -> bool) (range : gset str -> list str) (e : Engine E) (data : str).

(** What the scanner says of the message, and the score before authentication
    and the scanner. *)
Definition virus_name : str :=
  match eScanner e with Some scan => default [] (scan data) | None => [] end.
Definition opinion : option Q :=
  match eBayes e with Some b => Score b (range (Tokenize unicode_word data)) | None => None end.
Definition raw_score (st : E) : Q :=
  let analysis := AnalyzeHeaders ReadMessage AddressList data in
  let listed := match eURIBL e with Some f => (any_listed f [] (anURIDomains analysis) st).1 | None => false end in
  let score := if listed : bool then (Total analysis + 12)%Q else Total analysis in
  match opinion with
  | Some p => (score + (p - 1 / 2) * 2 * (if Qeq_bool (eBayesWeight e) 0 then 60 else eBayesWeight e))%Q
  | None => score
  end.

Lemma Check_score auth st :
  let v := (Check ReadMessage AddressList unicode_word range e data auth st).1 in
  vScore v = clamp (if virus_name =s [] then (raw_score st + (auth_credit auth).1)%Q else 100%Q) /\ vVirus v = virus_name.
Proof.
  unfold Check, raw_score, virus_name, opinion. cbv zeta.
  set (o := match eBayes e with Some b => _ | None => _ end). clearbody o.
  set (l := match eURIBL e with Some f => any_listed f _ _ st | None => (false, st) end).
  assert ((match eURIBL e with Some f => (any_listed f [] (anURIDomains (AnalyzeHeaders ReadMessage AddressList data)) st).1
           | None => false end) = l.1) as -> by (unfold l; by destruct (eURIBL e)).
  destruct l as [listed st1]. cbn [fst]. destruct (auth_credit auth) as [c r]. cbn [fst].
  set (n := match eScanner e with Some scan => match scan data with Some name => name | None => [] end | None => [] end).
  assert ((match eScanner e with Some scan => default [] (scan data) | None => [] end) = n) as ->
    by (unfold n; destruct (eScanner e) as [scan|]; [|done]; by destruct (scan data)).
  destruct listed, o, (n =s []); done.
Qed.

(** The rest of the server changes by the lookups only. *)
Lemma Check_env auth st :
  (Check ReadMessage AddressList unicode_word range e data auth st).2 =
  match eURIBL e with
  | Some f => (any_listed f [] (anURIDomains (AnalyzeHeaders ReadMessage AddressList data)) st).2
  | None => st
  end.
Proof.
  unfold Check. cbv zeta.
  set (o := match eBayes e with Some b => _ | None => _ end). clearbody o.
  set (n := match eScanner e with Some scan => _ | None => _ end). clearbody n.
  destruct (eURIBL e) as [f|].
  - destruct (any_listed f [] _ st) as [[] st1], (auth_credit auth), o, (n =s []); done.
  - destruct (auth_credit auth), o, (n =s []); done.
Qed.
End Scores.

Lemma any_listed_keeps {E} (R : E -> E -> Prop) `{!PreOrder R} (listed : str -> E -> bool * E) :
  (forall d st, R st (listed d st).2) -> forall uris seen st, R st (any_listed listed seen uris st).2.
Proof.
  intros H uris. induction uris as [|d uris IH]; intros seen st; cbn [any_listed]; [done|].
  case_match; [done|]. pose proof (H d st) as Hd. destruct (listed d st) as [[] st1]; [done|].
  by transitivity st1.
Qed.

(** A score is between 0 and 100; a virus makes it 100, and otherwise a message
    that more authentication vouches for never scores more. *)
Theorem Check_score_range {E} ReadMessage AddressList unicode_word range (e : Engine E) data auth auth' st :
  weaker auth auth' ->
  let v := (Check ReadMessage AddressList unicode_word range e data auth st).1 in
  let v' := (Check ReadMessage AddressList unicode_word range e data auth' st).1 in
  (0 <= vScore v)%Q /\ (vScore v <= 100)%Q /\ (vScore v' <= vScore v)%Q /\
  (vVirus v <> [] -> vScore v = 100%Q).
Proof.
  intros Hw v v'. unfold v, v'.
  destruct (Check_score ReadMessage AddressList unicode_word range e data auth st) as [E1 E2].
  destruct (Check_score ReadMessage AddressList unicode_word range e data auth' st) as [E1' E2'].
  cbv zeta in *. rewrite E1, E1', E2. split; [apply spam_clamp_range|]. split; [apply spam_clamp_range|]. split.
  - apply clamp_mono. destruct (_ =s []); [|done]. apply Qplus_le_r. by apply credit_mono.
  - intros Hn. rewrite (proj2 (str_eqb_neq _ _) Hn). done.
Qed.

(** ** Refused attachments *)

(** A file name in the encoding of RFC 2231 is not seen, so an executable
    under such a name is not refused. *)
Lemma encoded_name_unseen :
  let data := #"Content-Disposition: attachment; filename*=utf-8''invoice.exe" in
  find_names data = [] /\ (check_attachments [] (find_names data)).1 = [] /\
  (check_attachments [] (find_names (#"Content-Disposition: attachment; filename=invoice.exe"))).1 = #"invoice.exe".
Proof. by vm_compute. Qed.
