(* ===== verification/Clamav.v ===== *)
(** * The virus scanner's client (internal/antivirus/clamav.go)

    One INSTREAM conversation with clamd: the message in chunks, each after
    its length, and the verdict read from the reply.  A connection keeps what
    was sent and which of the writes to come fail; a read returns the next
    segment that arrives. *)

From S2P Require Import Prelude GoStrings.

#[global] Open Scope Z_scope.

Definition chunkSize : nat := N.to_nat (32 * 1024).

Record ClamAV := mkClamAV { cvNetwork : str; cvAddress : str; cvTimeout : Z }.

Definition New (address : str) (timeout : Z) : ClamAV :=
  mkClamAV (if has_prefix #"/" address then #"unix" else #"tcp") address
           (if timeout =? 0 then 30 * 10 ^ 9 else timeout).

(** ** The connection *)

Record conn := mkConn {
  cnSent : str;
  cnWrites : list bool;     (** whether the next writes work; the rest do *)
  cnReads : list str }.     (** what arrives, one segment per read; then an error *)

Inductive scan_error := ErrDial | ErrWrite | ErrRead
| ErrServer (reply : str) | ErrUnexpected (reply : str).

Definition C (A : Type) : Type := conn -> result scan_error A * conn.
#[export] Instance C_ret : MRet C := fun A a c => (Ok a, c).
#[export] Instance C_bind : MBind C := fun A B f m c =>
  match m c with (Ok a, c) => f a c | (Err e, c) => (Err e, c) end.

Definition write (b : str) : C unit := fun c =>
  match cnWrites c with
  | false :: r => (Err ErrWrite, mkConn (cnSent c) r (cnReads c))
  | _ => (Ok tt, mkConn (cnSent c ++ b) (tail (cnWrites c)) (cnReads c))
  end.
Definition read (size : nat) : C str := fun c =>
  match cnReads c with
  | [] => (Err ErrRead, c)
  | s :: r => (Ok (take size s), mkConn (cnSent c) (cnWrites c) (match drop size s with [] => r | s => s :: r end))
  end.
Definition of_result {A} (r : result scan_error A) : C A := fun c => (r, c).

(** ** The conversation *)

(** [binary.BigEndian.PutUint32] *)
Definition PutUint32 (n : Z) : str :=
  map (fun k => ascii_of_N (Z.to_N (Z.shiftr (u32 n) k mod 256))) [24; 16; 8; 0].

(** The loop over the message; a chunk takes a byte at least. *)
Fixpoint send_chunks (fuel : nat) (data : str) : C unit :=
  match fuel, data with
  | _, [] | O, _ => mret tt
  | S fuel, _ =>
      let chunk := take chunkSize data in
      _ ← write (PutUint32 (Z.of_nat (length chunk)));
      _ ← write chunk;
      send_chunks fuel (drop chunkSize data)
  end.

(** What the reply says. *)
Definition verdict (buf : str) : result scan_error str :=
  let reply := trim_right [NUL; LF; SP] buf in
  if has_suffix #"OK" reply then Ok []
  else if has_suffix #"FOUND" reply then
    let name := trim_suffix #" FOUND" reply in
    match cut_str #": " name with
    | (_, after, true) => Ok after
    | _ => Ok name
    end
  else if contains #"ERROR" reply then Err (ErrServer reply)
  else Err (ErrUnexpected reply).

Definition zINSTREAM : str := #"zINSTREAM" ++ [NUL].
Definition zPING : str := #"zPING" ++ [NUL].

Definition conversation (data : str) : C str :=
  _ ← write zINSTREAM;
  _ ← send_chunks (length data) data;
  _ ← write [NUL; NUL; NUL; NUL];
  buf ← read 512;
  of_result (verdict buf).

Definition ping : C unit :=
  _ ← write zPING;
  buf ← read 32;
  of_result (if contains #"PONG" buf then Ok tt else Err (ErrUnexpected buf)).

Section Dial.
(** [net.DialTimeout]: a fresh connection, or none. *)
Context (Dial : ClamAV -> option conn).

Definition Scan (c : ClamAV) (data : str) : result scan_error str * option conn :=
  match Dial c with
  | None => (Err ErrDial, None)
  | Some cn => let '(r, cn) := conversation data cn in (r, Some cn)
  end.

Definition Ping (c : ClamAV) : result scan_error unit :=
  match Dial c with
  | None => Err ErrDial
  | Some cn =>
      (ping cn).1
  end.
End Dial.

#[local] Opaque chunkSize.

(** ** What clamd reads *)

Definition uint32_of (b : str) : Z := fold_left (fun n c => n * 256 + Z.of_N (N_of_ascii c)) b 0.

(** The stream as clamd documents it: chunks until one of length zero.  The
    message and what follows it. *)
Fixpoint instream (fuel : nat) (s : str) : option (str * str) :=
  match fuel with
  | O => None
  | S fuel =>
      if Nat.ltb (length s) 4 then None
      else
        let n := uint32_of (take 4 s) in
        let rest := drop 4 s in
        if n =? 0 then Some ([], rest)
        else if Z.of_nat (length rest) <? n then None
        else '(data, tail) ← instream fuel (drop (Z.to_nat n) rest); Some (take (Z.to_nat n) rest ++ data, tail)
  end.

(** The chunks of a message as they are written. *)
Fixpoint chunks (fuel : nat) (data : str) : str :=
  match fuel, data with
  | _, [] | O, _ => []
  | S fuel, _ =>
      let chunk := take chunkSize data in
      PutUint32 (Z.of_nat (length chunk)) ++ chunk ++ chunks fuel (drop chunkSize data)
  end.
Definition terminator : str := [NUL; NUL; NUL; NUL].

Lemma length_PutUint32 n : length (PutUint32 n) = 4%nat.
Proof. done. Qed.

Lemma byte_of n : 0 <= n < 256 -> Z.of_N (N_of_ascii (ascii_of_N (Z.to_N n))) = n.
Proof. intros H. rewrite N_ascii_embedding by lia. lia. Qed.

Lemma uint32_PutUint32 n : 0 <= n < 2 ^ 32 -> uint32_of (PutUint32 n) = n.
Proof.
  intros H. unfold PutUint32. rewrite u32_id by done. cbn [map]. unfold uint32_of. cbn [fold_left].
  rewrite !byte_of by (apply Z.mod_pos_bound; lia). rewrite !Z.shiftr_div_pow2 by lia.
  change (2 ^ 24) with (256 * 256 * 256). change (2 ^ 16) with (256 * 256). change (2 ^ 8) with 256. change (2 ^ 0) with 1.
  rewrite Z.div_1_r, <- !Z.div_div by lia.
  pose proof (Z.div_mod n 256). pose proof (Z.div_mod (n / 256) 256). pose proof (Z.div_mod (n / 256 / 256) 256).
  assert (n / 256 / 256 / 256 < 256) by (rewrite !Z.div_div by lia; apply Z.div_lt_upper_bound; lia).
  assert (0 <= n / 256 / 256 / 256) by (repeat apply Z.div_pos; lia).
  rewrite (Z.mod_small (n / 256 / 256 / 256)) by lia. lia.
Qed.

Lemma chunkSize_range : 0 < Z.of_nat chunkSize < 2 ^ 32.
Proof. by vm_compute. Qed.

Lemma instream_chunks fuel data tail : forall k, (length data <= fuel)%nat -> (fuel < k)%nat ->
  instream k (chunks fuel data ++ terminator ++ tail) = Some (data, tail).
Proof.
  revert data. pose proof chunkSize_range as Hc.
  induction fuel as [|fuel IH]; intros data k Hf Hk; (destruct k as [|k]; [lia|]);
    (destruct data as [|b data]; [reflexivity|]); cbn [length] in Hf; [lia|].
  cbn [chunks]. set (d := b :: data) in *. set (chunk := take chunkSize d).
  assert (0 < Z.of_nat (length chunk) <= Z.of_nat chunkSize) as Hl.
  { unfold chunk. rewrite length_take. unfold d. cbn [length]. lia. }
  cbn [instream]. rewrite <- !app_assoc. rewrite !length_app, length_PutUint32.
  rewrite (proj2 (Nat.ltb_ge _ _)) by lia. rewrite take_app_length', drop_app_length' by done.
  rewrite uint32_PutUint32 by lia. rewrite (proj2 (Z.eqb_neq _ _)) by lia.
  rewrite (proj2 (Z.ltb_ge _ _)) by (rewrite length_app; lia). rewrite Nat2Z.id.
  rewrite take_app_length, drop_app_length. rewrite IH; [|unfold d; rewrite length_drop; cbn [length]; lia|lia].
  cbn [mbind option_bind]. unfold chunk. by rewrite take_drop.
Qed.

(** ** What a conversation has done *)

Lemma write_Ok b c c' : write b c = (Ok tt, c') -> cnSent c' = cnSent c ++ b /\ cnReads c' = cnReads c.
Proof. unfold write. destruct (cnWrites c) as [|[] r]; [intros [= <-]..|done]; done. Qed.

Lemma send_chunks_Ok fuel : forall data c c',
  send_chunks fuel data c = (Ok tt, c') -> cnSent c' = cnSent c ++ chunks fuel data /\ cnReads c' = cnReads c.
Proof.
  assert (forall c c' : conn, (Ok tt : result scan_error unit, c) = (Ok tt, c') -> cnSent c' = cnSent c ++ [] /\ cnReads c' = cnReads c) as H0
    by (intros c c' [= <-]; by rewrite app_nil_r).
  induction fuel as [|fuel IH]; intros [|b data] c c'; cbn [send_chunks chunks]; [by apply H0..|].
  unfold mbind, C_bind. destruct (write _ c) as [[[]|] c1] eqn:E1; [|done].
  destruct (write (take _ _) c1) as [[[]|] c2] eqn:E2; [|done]. intros E3.
  apply write_Ok in E1 as [S1 R1]. apply write_Ok in E2 as [S2 R2]. apply IH in E3 as [S3 R3].
  split; [|congruence]. by rewrite S3, S2, S1, <- !app_assoc.
Qed.

Lemma conversation_Ok data c name c' : conversation data c = (Ok name, c') ->
  cnSent c' = cnSent c ++ zINSTREAM ++ chunks (length data) data ++ terminator /\
  exists seg, head (cnReads c) = Some seg /\ verdict (take 512 seg) = Ok name.
Proof.
  unfold conversation, mbind, C_bind. destruct (write zINSTREAM c) as [[[]|] c1] eqn:E1; [|done].
  destruct (send_chunks _ _ c1) as [[[]|] c2] eqn:E2; [|done].
  destruct (write _ c2) as [[[]|] c3] eqn:E3; [|done]. destruct (read 512 c3) as [[buf|] c4] eqn:E4; [|done].
  intros [= Hv <-]. apply write_Ok in E1 as [S1 R1]. apply send_chunks_Ok in E2 as [S2 R2]. apply write_Ok in E3 as [S3 R3].
  unfold read in E4. destruct (cnReads c3) as [|seg r]; [done|]. injection E4 as <- <-. cbn [cnSent].
  split; [by rewrite S3, S2, S1, <- !app_assoc|]. exists seg. split; [|done]. by rewrite <- R1, <- R2, <- R3.
Qed.

(** A verdict is never given for a message that was not scanned: when
    [Scan] answers, clamd has received the command and a stream that decodes
    to the whole message and nothing else, and its reply, as far as one read
    brought it, names what was found or says OK. *)
Theorem Scan_sound Dial c cn data name o :
  Dial c = Some cn -> cnSent cn = [] -> Scan Dial c data = (Ok name, o) ->
  exists cn' s seg, o = Some cn' /\ cnSent cn' = zINSTREAM ++ s /\ instream (S (length data)) s = Some (data, []) /\
    head (cnReads cn) = Some seg /\ verdict (take 512 seg) = Ok name.
Proof.
  intros Hd H0. unfold Scan. rewrite Hd. destruct (conversation data cn) as [r cn'] eqn:E. intros [= -> <-].
  apply conversation_Ok in E as (HS & seg & Hr & Hv). exists cn', (chunks (length data) data ++ terminator), seg.
  rewrite H0 in HS. split_and!; try done.
  rewrite <- (app_nil_r terminator). apply instream_chunks; lia.
Qed.

Lemma send_chunks_works fuel : forall data c, cnWrites c = [] ->
  send_chunks fuel data c = (Ok tt, mkConn (cnSent c ++ chunks fuel data) [] (cnReads c)).
Proof.
  assert (forall c, cnWrites c = [] -> (Ok tt : result scan_error unit, c) = (Ok tt, mkConn (cnSent c ++ []) [] (cnReads c))) as H0
    by (intros [? ? ?]; cbn; intros ->; by rewrite app_nil_r).
  induction fuel as [|fuel IH]; intros [|b data] c Hw; cbn [send_chunks chunks]; [by apply H0..|].
  unfold mbind, C_bind, write. rewrite Hw. cbn [cnSent cnWrites cnReads tail].
  rewrite IH by done. cbn [cnSent cnReads]. by rewrite <- !app_assoc.
Qed.

Lemma conversation_works data c seg r : cnWrites c = [] -> cnReads c = seg :: r ->
  (conversation data c).1 = verdict (take 512 seg).
Proof.
  intros Hw Hr. unfold conversation, mbind, C_bind, write at 1. rewrite Hw. cbn [tail].
  rewrite send_chunks_works by done. unfold write. cbn [cnWrites cnSent cnReads tail]. unfold read. cbn [cnReads].
  rewrite Hr. done.
Qed.


Lemma trim_right_reply cutset s c e : existsb (Ascii.eqb c) cutset = false -> Forall (fun x => x ∈ cutset) e ->
  trim_right cutset (s ++ [c] ++ e) = s ++ [c].
Proof.
  intros Hc He. unfold trim_right, drop_while_end. rewrite !rev_app_distr. cbn [rev app].
  assert (forall l r, Forall (fun x => x ∈ cutset) l ->
    drop_while (fun c => existsb (Ascii.eqb c) cutset) (l ++ r) = drop_while (fun c => existsb (Ascii.eqb c) cutset) r) as HD.
  { intros l r Hl. induction Hl as [|x l Hx _ IH]; [done|]. cbn [app drop_while].
    rewrite (proj2 (existsb_exists _ _)); [done|]. exists x. split; [by apply list_elem_of_In|apply Ascii.eqb_refl]. }
  rewrite <- app_assoc, HD by (by apply Forall_rev). cbn [rev app]. rewrite drop_while_cons_false by done. cbn [rev]. by rewrite rev_involutive.
Qed.

(** The end of line of a reply. *)
Definition eol (e : str) : Prop := Forall (fun x => x ∈ [NUL; LF; SP]) e.

Lemma verdict_ok s e : eol e -> verdict (s ++ #"OK" ++ e) = Ok [].
Proof.
  intros He. unfold verdict. change (s ++ #"OK" ++ e) with (s ++ [("O"%char : ascii)] ++ ["K"%char] ++ e).
  rewrite (app_assoc s), trim_right_reply by done. rewrite <- app_assoc. cbn [app].
  change ["O"%char; "K"%char] with (#"OK"). by rewrite has_suffix_app.
Qed.

Lemma verdict_found name e : eol e -> verdict (#"stream: " ++ name ++ #" FOUND" ++ e) = Ok name.
Proof.
  intros He. unfold verdict.
  replace (#"stream: " ++ name ++ #" FOUND" ++ e) with ((#"stream: " ++ name ++ #" FOUN") ++ ["D"%char] ++ e)
    by (rewrite <- !app_assoc; done).
  rewrite trim_right_reply by done. rewrite <- !app_assoc.
  change (#" FOUN" ++ ["D"%char]) with (#" FOUND").
  assert (has_suffix #"OK" (#"stream: " ++ name ++ #" FOUND") = false) as ->.
  { unfold has_suffix. rewrite !rev_app_distr. reflexivity. }
  assert (has_suffix #"FOUND" (#"stream: " ++ name ++ #" FOUND") = true) as ->.
  { unfold has_suffix. rewrite !rev_app_distr. reflexivity. }
  rewrite app_assoc, trim_suffix_app. reflexivity.
Qed.

(** When nothing fails and clamd answers in its documented form, the
    answer is reported as it is: a clean message as clean, a finding under
    its name whatever the name contains, an error as an error. *)
Theorem Scan_reports Dial c cn data seg r e :
  Dial c = Some cn -> cnWrites cn = [] -> cnReads cn = seg :: r -> (length seg <= 512)%nat -> eol e ->
  (seg = #"stream: OK" ++ e -> (Scan Dial c data).1 = Ok []) /\
  (forall name, seg = #"stream: " ++ name ++ #" FOUND" ++ e -> (Scan Dial c data).1 = Ok name) /\
  (forall why, seg = why ++ #" ERROR" ++ e -> exists x, (Scan Dial c data).1 = Err x).
Proof.
  intros Hd Hw Hr Hl He.
  assert ((Scan Dial c data).1 = verdict seg) as ->.
  { unfold Scan. rewrite Hd. pose proof (conversation_works data cn seg r Hw Hr) as H.
    destruct (conversation data cn). cbn [fst] in *. by rewrite H, take_ge. }
  split_and!.
  - intros ->. by apply (verdict_ok #"stream: ").
  - intros name ->. by apply verdict_found.
  - intros why ->. unfold verdict. replace (why ++ #" ERROR" ++ e) with ((why ++ #" ERRO") ++ ["R"%char] ++ e)
      by (rewrite <- !app_assoc; done).
    rewrite trim_right_reply by done. rewrite <- !app_assoc. change (#" ERRO" ++ ["R"%char]) with (#" ERROR").
    assert (forall p, has_suffix p (why ++ #" ERROR") = has_prefix (rev p) (#"RORRE " ++ rev why)) as HP
      by (intros p; unfold has_suffix; by rewrite rev_app_distr).
    rewrite !HP. cbn. destruct (contains _ _); by eexists.
Qed.

(** ** Examples *)

Definition quiet (reply : str) : conn := mkConn [] [] [reply].

Example a_scan :
  let '(r, c) := Scan (fun _ => Some (quiet (#"stream: Eicar-Test-Signature FOUND" ++ [NUL]))) (New #"/run/clamd" 0) #"virus" in
  r = Ok #"Eicar-Test-Signature" /\
  (cnSent <$> c) = Some (zINSTREAM ++ [NUL; NUL; NUL; "005"%char] ++ #"virus" ++ [NUL; NUL; NUL; NUL]).
Proof. vm_compute. by split. Qed.

(** A reply that arrives in two pieces is an error, not a verdict. *)
Example a_split_reply :
  (Scan (fun _ => Some (mkConn [] [] [ #"stream: Eicar-Test-"; #"Signature FOUND"])) (New #"/run/clamd" 0) #"virus").1
  = Err (ErrUnexpected #"stream: Eicar-Test-").
Proof. by vm_compute. Qed.

Example Scan_sound_witness :
  exists cn' s seg, Some (quiet #"stream: OK") <> None /\ cnSent cn' = zINSTREAM ++ s /\
    instream (S (length #"hello")) s = Some (#"hello", []) /\
    Some #"stream: OK" = Some seg /\ verdict (take 512 seg) = Ok [].
Proof.
  destruct (Scan (fun _ => Some (quiet #"stream: OK")) (New #"/s" 0) #"hello") as [r o] eqn:E.
  assert (r = Ok []) as -> by (vm_compute in E; congruence).
  destruct (Scan_sound (fun _ => Some (quiet #"stream: OK")) (New #"/s" 0) (quiet #"stream: OK") #"hello" [] o eq_refl eq_refl E)
    as (cn' & s & seg & _ & H1 & H2 & H3 & H4).
  exists cn', s, seg. split; [discriminate|]. exact (conj H1 (conj H2 (conj H3 H4))).
Defined.

Example Scan_reports_witness :
  (Scan (fun _ => Some (quiet (#"stream: A: B FOUND" ++ [LF]))) (New #"/s" 0) #"hello").1 = Ok #"A: B".
Proof.
  apply (Scan_reports (fun _ => Some (quiet (#"stream: A: B FOUND" ++ [LF]))) (New #"/s" 0)
           (quiet (#"stream: A: B FOUND" ++ [LF])) #"hello" (#"stream: A: B FOUND" ++ [LF]) [] [LF]); try reflexivity.
  - vm_compute. lia.
  - apply Forall_singleton. set_solver.
Defined.
