(* ===== verification/CertStore.v ===== *)
(** * Certificates (internal/tls/store.go)

    The store loads one wildcard certificate per domain and picks one by the
    name a client asks for.  Reading and parsing a pair of PEM files is an
    argument; times are nanoseconds. *)

From S2P Require Import Prelude GoStrings.

#[global] Open Scope Z_scope.

Section Store.
Context {Certificate : Type}.

Record entry := mkEntry { enCert : Certificate; enNotAfter : Z }.

Record Params := mkParams {
  paCertRoot : str;
  paHostname : str;
  paDomains : list str;
  paMinVersion : str;
  paExpiryWarnDays : Z }.

Inductive version := VersionTLS12 | VersionTLS13.

Record Store := mkStore {
  stParams : Params;
  stMinVer : version;
  stDomains : list str;
  stCerts : gmap str entry }.

(** A warning names the domain it is about. *)
Inductive warning :=
| LoadFailed (d : str) (e : str)
| Expired (d : str) (notAfter : Z)
| Expiring (d : str) (days notAfter : Z).
Definition about (w : warning) : str :=
  match w with LoadFailed d _ | Expired d _ | Expiring d _ _ => d end.

(** [tls.LoadX509KeyPair] with [x509.ParseCertificate] on the pair of files
    under a root for a domain: the certificate and its end. *)
Context (load_pair : str -> str -> result str entry).

Definition loadCert (root domain : str) : result str entry := load_pair root domain.

Fixpoint load_all (root : str) (domains : list str) (certs : gmap str entry) : gmap str entry * list warning :=
  match domains with
  | [] => (certs, [])
  | d :: r =>
      match loadCert root d with
      | Err e => let '(certs, ws) := load_all root r certs in (certs, LoadFailed d e :: ws)
      | Ok e => load_all root r (<[d := e]> certs)
      end
  end.

(** Longest name first. *)
Definition by_length : list str -> list str := sort_slice (fun a b => Nat.ltb (length b) (length a)).

Definition day : Z := 24 * 3600 * 10 ^ 9.
Definition wrap64 (z : Z) : Z := (z + 2 ^ 63) mod 2 ^ 64 - 2 ^ 63.

Definition expiry_warning (p : Params) (certs : gmap str entry) (now : Z) (d : str) : option warning :=
  let limit := now + wrap64 (paExpiryWarnDays p * day) in
  e ← certs !! d;
  if enNotAfter e <? now then Some (Expired d (enNotAfter e))
  else if enNotAfter e <? limit then Some (Expiring d (Z.quot (enNotAfter e - now) day) (enNotAfter e))
  else None.
Definition ExpiryWarnings (s : Store) (now : Z) : list warning :=
  omap (expiry_warning (stParams s) (stCerts s) now) (stDomains s).

(** [now] is read when the certificates are in place. *)
Definition Reload (p : Params) (now : Z) : Store * list warning :=
  let domains := by_length (paDomains p) in
  let '(certs, ws) := load_all (paCertRoot p) domains ∅ in
  let s := mkStore p (if paMinVersion p =s #"1.3" then VersionTLS13 else VersionTLS12) domains certs in
  (s, ws ++ ExpiryWarnings s now).
Definition New (p : Params) (now : Z) : Store * list warning := Reload p now.

(** A domain serves its own name and the names below it. *)
Definition covers (d name : str) : bool := (name =s d) || has_suffix (#"." ++ d) name.

Definition matchLocked (s : Store) (name : str) : str :=
  if name =s [] then [] else default [] (List.find (fun d => covers d name) (stDomains s)).
Definition Match (s : Store) (sni : str) : str := matchLocked s (trim_suffix #"." (to_lower (trim_space sni))).

Definition GetCertificate (s : Store) (serverName : str) : option Certificate :=
  let d := matchLocked s (trim_suffix #"." (to_lower serverName)) in
  let d := if d =s [] then matchLocked s (paHostname (stParams s)) else d in
  enCert <$> stCerts s !! d.

(** The part of [Config] that is not a call-back. *)
Definition MinVersion (s : Store) : version := stMinVer s.
Definition Loaded (s : Store) : list str := sort_slice str_ltb (elements (dom (stCerts s))).

(** ** Which domain serves a name *)

Lemma find_first {A} (f : A -> bool) l x : List.find f l = Some x ->
  exists l1 l2, l = l1 ++ x :: l2 /\ Forall (fun y => f y = false) l1 /\ f x = true.
Proof.
  induction l as [|y l IH]; cbn [List.find]; [done|]. destruct (f y) eqn:E.
  - intros [= <-]. by exists [], l.
  - intros (l1 & l2 & -> & H1 & H2)%IH. exists (y :: l1), l2. split_and!; [done|by constructor|done].
Qed.

Lemma by_length_sorted l : StronglySorted (fun a b => (length b <= length a)%nat) (by_length l).
Proof.
  apply (StronglySorted_weaken (not_less (fun a b : str => Nat.ltb (length b) (length a)))).
  - intros x y H. unfold not_less in H. apply Nat.ltb_ge in H. lia.
  - apply sort_slice_sorted; unfold not_less; intros *; rewrite ?Nat.ltb_ge, ?Nat.ltb_lt; lia.
Qed.

(** The domain of a name: the longest that covers it. *)
Definition serves (domains : list str) (name d : str) : Prop :=
  d ∈ domains /\ covers d name = true /\
  forall d', d' ∈ domains -> covers d' name = true -> (length d' <= length d)%nat.

Lemma find_longest domains name d :
  List.find (fun d => covers d name) (by_length domains) = Some d -> serves domains name d.
Proof.
  intros (l1 & l2 & E & H1 & Hd)%find_first. pose proof (by_length_sorted domains) as HS. rewrite E in HS.
  assert (forall d', d' ∈ domains <-> d' ∈ l1 ++ d :: l2) as Hin by (intros d'; rewrite <- E; symmetry; apply elem_of_sort_slice).
  split_and!; [apply Hin, elem_of_app; right; by left|done|]. intros d' Hd' Hc. apply Hin, elem_of_app in Hd' as [Hd'|Hd'].
  - rewrite Forall_forall in H1. apply H1 in Hd'. congruence.
  - apply elem_of_cons in Hd' as [->|Hd']; [done|].
    rewrite cons_middle, app_assoc in HS.
    apply (StronglySorted_app_inv_le _ _ _ HS d d'); [apply elem_of_app; right; by left|done].
Qed.

Lemma find_uncovered domains name :
  List.find (fun d => covers d name) (by_length domains) = None -> forall d, d ∈ domains -> covers d name = false.
Proof.
  intros H d Hd. eapply find_none in H; [exact H|]. apply list_elem_of_In. by apply elem_of_sort_slice.
Qed.

(** ** Loading *)

Lemma load_all_certs root domains : forall certs d e,
  (load_all root domains certs).1 !! d = Some e <->
  (d ∈ domains /\ load_pair root d = Ok e) \/ ((forall e', d ∈ domains -> load_pair root d <> Ok e') /\ certs !! d = Some e).
Proof.
  induction domains as [|x domains IH]; intros certs d e; cbn [load_all].
  - split; [intros H; right; split; [by intros ? ?%elem_of_nil|done]|intros [[H%elem_of_nil _]|[_ H]]; done].
  - unfold loadCert. destruct (load_pair root x) as [y|err] eqn:E.
    + rewrite IH. destruct (decide (d = x)) as [->|Hne].
      * rewrite lookup_insert_eq, elem_of_cons. split.
        -- intros [[_ H]|[_ H]]; left; [|split; [by left|congruence]]. by split; [left|].
        -- intros [[_ H]|[H _]]; [|exfalso; eapply H; [by left|done]].
           destruct (decide (x ∈ domains)); [by left|]. right. split; [done|congruence].
      * rewrite lookup_insert_ne by done. assert (d ∈ x :: domains <-> d ∈ domains) as Hx by (rewrite elem_of_cons; tauto).
        by setoid_rewrite Hx.
    + destruct (load_all root domains certs) as [cs ws] eqn:El. specialize (IH certs d e). rewrite El in IH.
      cbn [fst] in *. rewrite IH. setoid_rewrite elem_of_cons. split.
      * intros [[? ?]|[H ?]]; [left; by split; [right|]|]. right. split; [|done]. intros e' [->|?]; [congruence|by apply H].
      * intros [[[->|?] ?]|[H ?]]; [congruence|by left|]. right. split; [|done]. intros e' ?. by apply H; right.
Qed.

Lemma load_all_warned root domains : forall certs d err,
  d ∈ domains -> load_pair root d = Err err -> LoadFailed d err ∈ (load_all root domains certs).2.
Proof.
  induction domains as [|x domains IH]; intros certs d err Hd He; [by apply elem_of_nil in Hd|]. cbn [load_all]. unfold loadCert.
  destruct (load_pair root x) as [y|err'] eqn:E.
  - apply IH; [|done]. apply elem_of_cons in Hd as [->|]; [congruence|done].
  - destruct (load_all root domains certs) as [cs ws] eqn:El. cbn [snd]. apply elem_of_cons in Hd as [->|Hd].
    + rewrite E in He. injection He as ->. by left.
    + right. specialize (IH certs d err Hd He). by rewrite El in IH.
Qed.

Lemma Reload_store p now :
  stParams (Reload p now).1 = p /\ stDomains (Reload p now).1 = by_length (paDomains p) /\
  forall d e, stCerts (Reload p now).1 !! d = Some e <-> d ∈ paDomains p /\ load_pair (paCertRoot p) d = Ok e.
Proof.
  unfold Reload. pose proof (load_all_certs (paCertRoot p) (by_length (paDomains p)) ∅) as H.
  destruct (load_all _ _ ∅) as [cs ws]. cbn [fst stParams stDomains stCerts] in *. split_and!; [done..|].
  intros d e. rewrite H, lookup_empty. unfold by_length. rewrite elem_of_sort_slice. split; [intros [?|[_ ?]]; done|by left].
Qed.

Lemma wrap64_id z : - 2 ^ 63 <= z < 2 ^ 63 -> wrap64 z = z.
Proof. intros H. unfold wrap64. rewrite Z.mod_small; lia. Qed.

(** No certificate is lost in silence: after a load every configured domain
    is served by a certificate that is good for the whole warning period, or a
    warning names the domain. *)
Theorem served_or_warned p now d :
  0 <= paExpiryWarnDays p <= 106751 -> d ∈ paDomains p ->
  (exists e, stCerts (New p now).1 !! d = Some e /\ now + paExpiryWarnDays p * day <= enNotAfter e) \/
  exists w, w ∈ (New p now).2 /\ about w = d.
Proof.
  intros Hdays Hd. destruct (Reload_store p now) as (Ep & El & Ec). unfold New.
  destruct (load_pair (paCertRoot p) d) as [e|err] eqn:E.
  - assert (stCerts (Reload p now).1 !! d = Some e) as He by (by apply Ec).
    destruct (expiry_warning p (stCerts (Reload p now).1) now d) as [w|] eqn:Ew.
    + right. exists w. split.
      * unfold Reload in *. destruct (load_all _ _ ∅) as [cs ws]. cbn [fst snd stParams stDomains stCerts] in *.
        apply elem_of_app. right. apply list_elem_of_omap. exists d. split; [by apply elem_of_sort_slice|done].
      * unfold expiry_warning in Ew. rewrite He in Ew. cbn [mbind option_bind] in Ew.
        destruct (_ <? now); [by injection Ew as <-|]. destruct (_ <? _); [by injection Ew as <-|done].
    + left. exists e. split; [done|]. unfold expiry_warning in Ew. rewrite He in Ew. cbn [mbind option_bind] in Ew.
      rewrite wrap64_id in Ew by (unfold day; lia).
      destruct (_ <? now); [done|]. destruct (_ <? _) eqn:Eb; [done|]. by apply Z.ltb_ge in Eb.
  - right. exists (LoadFailed d err). split; [|done]. unfold Reload.
    pose proof (load_all_warned (paCertRoot p) (by_length (paDomains p)) ∅ d err) as H.
    destruct (load_all _ _ ∅) as [cs ws]. cbn [snd] in *. apply elem_of_app. left. apply H; [|done].
    by apply elem_of_sort_slice.
Qed.

(** What a client has asked for, as the store reads it. *)
Definition asked (serverName : str) : str := trim_suffix #"." (to_lower serverName).

(** C40. The certificate a client gets is the one of the longest configured
    domain that covers the name it asked for; only a name no domain covers is
    answered with the certificate for the server's own name.  If that domain's
    certificate did not load there is none, never the one of another domain. *)
Theorem GetCertificate_owner p now serverName :
  Forall (fun d => d <> []) (paDomains p) -> paHostname p <> [] ->
  let answer d := match load_pair (paCertRoot p) d with Ok e => Some (enCert e) | Err _ => None end in
  let got := GetCertificate (New p now).1 serverName in
  (exists d, asked serverName <> [] /\ serves (paDomains p) (asked serverName) d /\ got = answer d) \/
  ((asked serverName = [] \/ forall d, d ∈ paDomains p -> covers d (asked serverName) = false) /\
   ((exists d, serves (paDomains p) (paHostname p) d /\ got = answer d) \/
    ((forall d, d ∈ paDomains p -> covers d (paHostname p) = false) /\ got = None))).
Proof.
  intros Hne Hhost answer got. destruct (Reload_store p now) as (Ep & El & Ec). fold (New p now) in Ep, El, Ec.
  set (s := (New p now).1) in *.
  assert (forall d, d ∈ paDomains p -> enCert <$> stCerts s !! d = answer d) as Hans.
  { intros d Hd. unfold answer. destruct (load_pair _ d) as [e|err] eqn:E.
    - by rewrite (proj2 (Ec d e)).
    - destruct (stCerts s !! d) as [e|] eqn:Es; [|done]. apply Ec in Es as [_ Es]. congruence. }
  assert (stCerts s !! [] = None) as Hnil.
  { destruct (stCerts s !! []) as [e|] eqn:Es; [|done]. apply Ec in Es as [Es _].
    rewrite Forall_forall in Hne. by apply Hne in Es. }
  assert (forall name, name <> [] ->
    (exists d, serves (paDomains p) name d /\ d <> [] /\ matchLocked s name = d) \/
    ((forall d, d ∈ paDomains p -> covers d name = false) /\ matchLocked s name = [])) as Hm.
  { intros name Hn. unfold matchLocked. rewrite (proj2 (str_eqb_neq name [])), El by done.
    destruct (List.find _ _) as [d|] eqn:Ef.
    - left. apply find_longest in Ef. exists d. split_and!; [done| |done]. rewrite Forall_forall in Hne. by apply Hne, Ef.
    - right. split; [by apply find_uncovered|done]. }
  assert (got = enCert <$> stCerts s !! (if matchLocked s (asked serverName) =s []
    then matchLocked s (paHostname p) else matchLocked s (asked serverName))) as ->.
  { unfold got, GetCertificate, asked. cbv zeta. by rewrite Ep. }
  assert (asked serverName = [] -> matchLocked s (asked serverName) = []) as H0 by (intros ->; done).
  destruct (decide (asked serverName = [])) as [E|E]; [|destruct (Hm _ E) as [(d & Hd & Hdn & Em)|[Hno Em]]].
  - right. split; [by left|]. rewrite (H0 E). cbn [str_eqb].
    destruct (Hm _ Hhost) as [(d & Hd & _ & ->)|[Hno ->]]; [left; exists d; split; [done|apply Hans, Hd]|by right; rewrite Hnil].
  - left. exists d. split_and!; [done|done|]. rewrite Em, (proj2 (str_eqb_neq d [])) by done. apply Hans, Hd.
  - right. split; [by right|]. rewrite Em. cbn [str_eqb].
    destruct (Hm _ Hhost) as [(d & Hd & _ & ->)|[Hno' ->]]; [left; exists d; split; [done|apply Hans, Hd]|by right; rewrite Hnil].
Qed.
End Store.
Arguments entry : clear implicits.
Arguments Store : clear implicits.

(** ** Examples *)

(** One pair is missing, one ends soon. *)
Definition toy_pair (root d : str) : result str (entry str) :=
  if d =s #"ente.it" then Err #"no such file"
  else Ok (mkEntry (#"cert of " ++ d) (if d =s #"example.com" then 10 * day else 90 * day)).
Definition toy_params : Params :=
  mkParams #"/live" #"mail.example.com" [ #"ente.it"; #"example.com"; #"studenti.ente.it"] #"1.2" 14.

Example certificates :
  (New toy_pair toy_params 0).2 = [LoadFailed #"ente.it" #"no such file"; Expiring #"example.com" 10 (10 * day)] /\
  map (GetCertificate (New toy_pair toy_params 0).1)
    [ #"Mail.Studenti.ente.it."; #"ente.it"; #"mail.ente.it"; #"other.org"; []; #"notexample.com"]
  = [Some #"cert of studenti.ente.it"; None; None; Some #"cert of example.com"; Some #"cert of example.com";
     Some #"cert of example.com"].
Proof. vm_compute. by split. Qed.

Example served_or_warned_witness :
  (exists e, stCerts (New toy_pair toy_params 0).1 !! #"example.com" = Some e /\ 0 + 14 * day <= enNotAfter e) \/
  exists w, w ∈ (New toy_pair toy_params 0).2 /\ about w = #"example.com".
Proof.
  apply (served_or_warned toy_pair toy_params 0 #"example.com"); [vm_compute; split; discriminate|].
  apply (bool_decide_unpack _); vm_compute; exact I.
Defined.

Example GetCertificate_owner_witness :
  exists d, serves (paDomains toy_params) #"mail.studenti.ente.it" d /\
    GetCertificate (New toy_pair toy_params 0).1 #"mail.studenti.ente.it" = Some #"cert of studenti.ente.it".
Proof.
  destruct (GetCertificate_owner toy_pair toy_params 0 #"mail.studenti.ente.it") as [(d & _ & H & _)|[[H|H] _]].
  - apply (bool_decide_unpack _); vm_compute; exact I.
  - discriminate.
  - exists d. split; [exact H|vm_compute; reflexivity].
  - vm_compute in H. discriminate H.
  - specialize (H #"studenti.ente.it" ltac:(apply (bool_decide_unpack _); vm_compute; exact I)). vm_compute in H. discriminate H.
Defined.
