(* ===== verification/Smtp.v ===== *)
(** * The SMTP server (internal/smtp/server.go, internal/smtp/session.go)

    One session of a listener, inbound (port 25) or submission (587, 465): the
    reading of command lines, the handler of every verb, the reception of a
    message and its delivery.  A handler is a function on the state of the
    session, of its connection, of the settings with their rate limiters and
    of the rest of the server, which the [Backend] acts on.  Log lines are
    left out. *)

From S2P Require Import Prelude GoStrings GoOS GoNet StateM Filter Config StorageResolver Routing RateLimit Governor Base64 Auth Stats Container.

(** ** Settings and back end (server.go) *)

Inductive Mode := ModeInbound | ModeSubmission.
Definition is_submission (m : Mode) : bool := match m with ModeSubmission => true | _ => false end.

Record Settings := mkSettings {
  stHostname : str;
  stMaxSize : Z;
  stMaxRecipients : Z;
  stMode : Mode;
  stImplicitTLS : bool;
  stTLS : bool;                         (** a TLS configuration is there *)
  stLimits : option Inbound;
  stOutLimits : option Outbound;
  stGovernor : option Governor;
  stIdentity : Identity;
  stStats : option Counters }.

Inductive ScreenAction := ScreenAccept | ScreenQuarantine | ScreenReject.

Record ScreenResult := mkScreen {
  srAction : ScreenAction;
  srReason : str;
  srAuthResults : str;
  srSpamHeader : str }.

(** The hooks of the protocol; [E] is the state of the rest of the server,
    which they read and change.  A hook that may be nil is an option. *)
Record Backend (E : Type) := mkBackend {
  IsLocalDomain : str -> E -> bool * E;
  Route : str -> E -> option Plan * E;
  Store : Mailbox -> str -> str -> bool -> bool -> str -> E -> option error * E;
  Quota : option (Mailbox -> Z -> E -> (bool * str) * E);
  ForwardHook : option (str -> str -> str -> str -> E -> option error * E);
  Postmaster : E -> str * E;
  Authenticate : option (str -> str -> str -> E -> option auth_error * E);
  EnqueueHook : str -> str -> str -> E -> option error * E;
  Screen : option (str -> str -> str -> str -> E -> ScreenResult * E);
  Sign : option (str -> str -> E -> option str * E);
  MaySend : option (str -> str -> E -> (bool * str) * E);
  Sent : option (str -> str -> E -> E) }.
Arguments mkBackend {E}. Arguments IsLocalDomain {E}. Arguments Route {E}. Arguments Store {E}.
Arguments Quota {E}. Arguments ForwardHook {E}. Arguments Postmaster {E}. Arguments Authenticate {E}.
Arguments EnqueueHook {E}. Arguments Screen {E}. Arguments Sign {E}. Arguments MaySend {E}. Arguments Sent {E}.

(** What the code takes from libraries and from the machine: the TLS
    handshake on the bytes not yet read, the clock, the order in which a map
    is ranged over, [net.ParseIP], the header parser and the date format. *)
Record Services (E : Type) := mkServices {
  handshake : list str -> E -> option (list str) * E;
  clock : E -> Z * E;
  range_order : E -> list str * E;
  ParseIP : str -> option IP;
  readMessage : str -> option header;
  rfc1123z : Z -> str }.
Arguments mkServices {E}. Arguments handshake {E}. Arguments clock {E}. Arguments range_order {E}.
Arguments ParseIP {E}. Arguments readMessage {E}. Arguments rfc1123z {E}.

(** ** Parsing *)

(** [parsePath]: the address and the parameters of a MAIL or RCPT argument. *)
Definition parsePath (arg prefix : str) : result str (str * list str) :=
  if Nat.ltb (length arg) (length prefix) || negb (equal_fold (take (length prefix) arg) prefix)
  then Err #"syntax error"
  else
    let rest := trim_space (drop (length prefix) arg) in
    if negb (has_prefix #"<" rest) then Err #"syntax error: missing <"
    else match index_byte ">" rest with
         | None => Err #"syntax error: missing >"
         | Some end_ =>
             let addr := drop 1 (take end_ rest) in
             let addr := match last_index_byte ":" addr with
                         | Some i => if has_prefix #"@" addr then drop (S i) addr else addr
                         | None => addr
                         end in
             Ok (addr, fields (drop (S end_) rest))
         end.

(** [sizeParam]: [None] for an invalid value, 0 when absent. *)
Fixpoint sizeParam (params : list str) : option Z :=
  match params with
  | [] => Some 0
  | p :: r =>
      if has_prefix #"SIZE=" (to_upper p) then
        match parse_int (drop 5 (to_upper p)) with
        | Some n => if n <? 0 then None else Some n
        | None => None
        end
      else sizeParam r
  end.

Definition helo_byte (c : ascii) : bool :=
  is_lower c || is_upper c || is_digit c || existsb (Ascii.eqb c) #".-:[]_".

(** [strings.Map] with the function of [sanitizeHelo], rune by rune. *)
Fixpoint map_helo (fuel : nat) (s : str) : str :=
  match fuel, s with
  | S f, c :: _ => (if helo_byte c then c else "?"%char) :: map_helo f (drop (rune_width s) s)
  | _, _ => []
  end.

Definition sanitizeHelo (h : str) : str :=
  let h := if Nat.ltb 255 (length h) then take 255 h else h in map_helo (length h) h.

(** [splitAddr]: local part and lowercased domain, empty when invalid. *)
Definition splitAddr (email : str) : str * str * bool :=
  match last_index_byte "@" email with
  | Some at_ =>
      if Nat.leb at_ 0 || Nat.eqb at_ (length email - 1) then ([], [], false)
      else (take at_ email, to_lower (drop (S at_) email), true)
  | None => ([], [], false)
  end.

Definition splitRcptAddr (r : str) : str * str := (r, (splitAddr r).1.2).

(** [ensureCRLF]: the first loop looks for a bare LF, the second one writes
    the CR it lacks; [prev] is the byte before. *)
Fixpoint has_bare_lf (prev : option ascii) (s : str) : bool :=
  match s with
  | [] => false
  | c :: r => (Ascii.eqb c LF && negb (bool_decide (prev = Some CR))) || has_bare_lf (Some c) r
  end.
Fixpoint add_cr (prev : option ascii) (s : str) : str :=
  match s with
  | [] => []
  | c :: r =>
      if Ascii.eqb c LF && negb (bool_decide (prev = Some CR)) then CR :: c :: add_cr (Some c) r
      else c :: add_cr (Some c) r
  end.
Definition ensureCRLF (data : str) : str := if has_bare_lf None data then add_cr None data else data.

(** ** The session (session.go) *)

Definition maxLine : nat := Z.to_nat 2048.
Definition bufSize : nat := Z.to_nat 4096.

Record rcpt := mkRcpt {
  rAddr : str;
  rRemote : bool;
  rDomain : str;
  rPlan : Plan }.

Record session := mkSession {
  sHelo : str;
  sTls : bool;
  sAuthed : str;
  sFrom : str;
  sFromSet : bool;
  sRcpts : list rcpt }.

(** The state a handler works on.  The rate limiters and the counters are
    part of the settings, as in the code. *)
Record state (E : Type) := mkState {
  xSess : session;
  xConn : conn;
  xSet : Settings;
  xEnv : E }.
Arguments mkState {E}. Arguments xSess {E}. Arguments xConn {E}. Arguments xSet {E}. Arguments xEnv {E}.

Definition newSession (set : Settings) : session := mkSession [] (stImplicitTLS set) [] [] false [].

Abbreviation P E := (SM (state E)).

Definition sess {E} : P E session := fun st => (xSess st, st).
Definition set_sess {E} (f : session -> session) : P E unit := fun st =>
  (tt, mkState (f (xSess st)) (xConn st) (xSet st) (xEnv st)).
(** [s.set()]. *)
Definition settings {E} : P E Settings := fun st => (xSet st, st).
Definition on_conn {E A} (f : conn -> A * conn) : P E A := fun st =>
  let '(a, c) := f (xConn st) in (a, mkState (xSess st) c (xSet st) (xEnv st)).
Definition on_env {E A} (f : E -> A * E) : P E A := fun st =>
  let '(a, e) := f (xEnv st) in (a, mkState (xSess st) (xConn st) (xSet st) e).
Definition on_set {E A} (f : Settings -> A * Settings) : P E A := fun st =>
  let '(a, s) := f (xSet st) in (a, mkState (xSess st) (xConn st) s (xEnv st)).

Definition upd_limits (s : Settings) (l : option Inbound) : Settings :=
  mkSettings (stHostname s) (stMaxSize s) (stMaxRecipients s) (stMode s) (stImplicitTLS s) (stTLS s)
    l (stOutLimits s) (stGovernor s) (stIdentity s) (stStats s).
Definition upd_out (s : Settings) (l : option Outbound) : Settings :=
  mkSettings (stHostname s) (stMaxSize s) (stMaxRecipients s) (stMode s) (stImplicitTLS s) (stTLS s)
    (stLimits s) l (stGovernor s) (stIdentity s) (stStats s).
Definition upd_governor (s : Settings) (g : option Governor) : Settings :=
  mkSettings (stHostname s) (stMaxSize s) (stMaxRecipients s) (stMode s) (stImplicitTLS s) (stTLS s)
    (stLimits s) (stOutLimits s) g (stIdentity s) (stStats s).
Definition upd_stats (s : Settings) (c : option Counters) : Settings :=
  mkSettings (stHostname s) (stMaxSize s) (stMaxRecipients s) (stMode s) (stImplicitTLS s) (stTLS s)
    (stLimits s) (stOutLimits s) (stGovernor s) (stIdentity s) c.

Section Handlers.
Context {E : Type} (be : Backend E) (ex : Services E) (ip : str).

(** The limiter calls, each with the clock it reads. *)
Definition in_limit (f : option Inbound -> str -> Z -> bool * option Inbound) (key : str) : P E bool :=
  now ← on_env (clock ex);
  on_set (fun s => let '(ok, l) := f (stLimits s) key now in (ok, upd_limits s l)).
Definition out_limit (f : option Outbound -> str -> Z -> bool * option Outbound) (key : str) : P E bool :=
  now ← on_env (clock ex);
  on_set (fun s => let '(ok, l) := f (stOutLimits s) key now in (ok, upd_out s l)).
Definition governor (f : list str -> Z -> option Governor -> option str * option Governor) : P E bool :=
  now ← on_env (clock ex);
  order ← on_env (range_order ex);
  on_set (fun s => let '(denied, g) := f order now (stGovernor s) in
                   (match denied with None => true | Some _ => false end, upd_governor s g)).
Definition count (f : option Counters -> option Counters) : P E unit :=
  on_set (fun s => (tt, upd_stats s (f (stStats s)))).

(** [reply]: [false] is a write error. *)
Definition reply (line : str) : P E bool := on_conn (write_lines [line]).
(** A reply whose error is ignored, with the value the handler returns. *)
Definition answer {A} (line : str) (a : A) : P E A := _ ← reply line; mret a.

(** The rest of an oversized line. *)
Fixpoint drain (fuel : nat) (rd : reader) : reader :=
  match fuel with
  | 0%nat => rd
  | S f => match ReadSlice bufSize rd with
           | (_, Some ErrBufferFull, rd') => drain f rd'
           | (_, _, rd') => rd'
           end
  end.

(** [readLine]: [None] when the connection is gone. *)
Definition readLine : P E (option str) :=
  '(line, e) ← on_conn (fun c => let '(l, e, rd) := ReadSlice bufSize (cnReader c) in ((l, e), with_reader rd c));
  let too_long := Nat.ltb maxLine (length line) in
  match e with
  | Some ErrBufferFull =>
      _ ← on_conn (fun c => (tt, with_reader (drain (S (length (stream (cnReader c)))) (cnReader c)) c));
      answer #"500 5.5.2 line too long" (Some [])
  | Some ErrRead =>
      if too_long then answer #"500 5.5.2 line too long" (Some []) else mret None
  | None =>
      if too_long then answer #"500 5.5.2 line too long" (Some [])
      else mret (Some (trim_right CRLF line))
  end.

Definition resetTransaction : P E unit :=
  set_sess (fun s => mkSession (sHelo s) (sTls s) (sAuthed s) [] false []).

(** [cmdHelo]; the handlers that can end the session return whether they do. *)
Definition helo_caps (set : Settings) (tls : bool) : list str :=
  [ #"250-" ++ stHostname set; #"250-PIPELINING"; #"250-SIZE " ++ dec (stMaxSize set);
    #"250-8BITMIME"; #"250-SMTPUTF8"]
  ++ (if stTLS set && negb tls then [ #"250-STARTTLS"] else [])
  ++ (if is_submission (stMode set) && tls && match Authenticate be with Some _ => true | None => false end
      then [ #"250-AUTH PLAIN LOGIN"] else []).
Definition last_cap (caps : list str) : list str :=
  removelast caps ++ [ #"250 " ++ drop 4 (List.last caps [])].

Definition cmdHelo (arg : str) (extended : bool) : P E bool :=
  if arg =s [] then answer #"501 5.5.4 hostname required" false
  else
    _ ← set_sess (fun s => mkSession (sanitizeHelo arg) (sTls s) (sAuthed s) (sFrom s) (sFromSet s) (sRcpts s));
    _ ← resetTransaction;
    set ← settings;
    if negb extended then answer (#"250 " ++ stHostname set) false
    else
      s ← sess;
      _ ← on_conn (write_lines (last_cap (helo_caps set (sTls s))));
      mret false.

(** [cmdStartTLS]: the new reader starts empty, on the encrypted stream; what
    the old one had read ahead is dropped. *)
Definition cmdStartTLS : P E bool :=
  set ← settings;
  s ← sess;
  if negb (stTLS set) then answer #"454 4.7.0 TLS not available" false
  else if sTls s then answer #"503 5.5.1 already in TLS" false
  else
    ok ← reply #"220 2.0.0 ready to start TLS";
    if negb ok then mret true
    else
      raw ← on_conn (fun c => (rdIn (cnReader c), c));
      r ← on_env (handshake ex raw);
      match r with
      | None => mret true
      | Some clear =>
          _ ← on_conn (fun c => (tt, with_reader (mkReader [] clear) c));
          _ ← set_sess (fun s => mkSession [] true (sAuthed s) (sFrom s) (sFromSet s) (sRcpts s));
          _ ← resetTransaction;
          mret false
      end.

(** One prompt of a SASL dialogue: the line of the client unless it is gone
    or cancels. *)
Definition sasl_line (prompt : str) : P E (option str) :=
  ok ← reply prompt;
  if negb ok then mret None
  else
    l ← readLine;
    match l with
    | None => answer #"501 5.7.0 authentication cancelled" None
    | Some line => if line =s #"*" then answer #"501 5.7.0 authentication cancelled" None else mret (Some line)
    end.

Definition authPlain (initial : str) : P E (option (str * str)) :=
  resp ← (if initial =s [] then sasl_line #"334 " else mret (Some initial));
  match resp with
  | None => mret None
  | Some resp =>
      match decode_std resp with
      | None => answer #"501 5.5.2 invalid base64" None
      | Some raw =>
          match GoStrings.split NUL raw with
          | [_; user; pass] =>
              if user =s [] then answer #"501 5.5.2 invalid PLAIN response" None else mret (Some (user, pass))
          | _ => answer #"501 5.5.2 invalid PLAIN response" None
          end
      end
  end.

Definition login_step (prompt : str) : P E (option str) :=
  l ← sasl_line prompt;
  match l with
  | None => mret None
  | Some line => match decode_std line with
                 | None => answer #"501 5.5.2 invalid base64" None
                 | Some raw => mret (Some raw)
                 end
  end.
Definition authLogin : P E (option (str * str)) :=
  user ← login_step #"334 VXNlcm5hbWU6";
  match user with
  | None => mret None
  | Some user =>
      pass ← login_step #"334 UGFzc3dvcmQ6";
      match pass with
      | None => mret None
      | Some pass => mret (Some (user, pass))
      end
  end.

(** The verdict of [Authenticate] on the credentials. *)
Definition auth_verdict (authenticate : str -> str -> str -> E -> option auth_error * E) (cred : str * str)
    : P E unit :=
  v ← on_env (authenticate cred.1 cred.2 ip);
  match v with
  | None =>
      _ ← set_sess (fun s => mkSession (sHelo s) (sTls s) (to_lower cred.1) (sFrom s) (sFromSet s) (sRcpts s));
      _ ← count IncAuthOK;
      answer #"235 2.7.0 authentication successful" tt
  | Some ErrLocked => answer #"454 4.7.0 too many failed attempts, try again later" tt
  | Some _ => _ ← count IncAuthFail; answer #"535 5.7.8 authentication credentials invalid" tt
  end.

Definition cmdAuth (arg : str) : P E unit :=
  set ← settings;
  s ← sess;
  match (if is_submission (stMode set) then Authenticate be else None) with
  | None => answer #"503 5.5.1 authentication not available on this port" tt
  | Some authenticate =>
      if negb (sTls s) then answer #"530 5.7.0 must issue STARTTLS first" tt
      else if negb (sAuthed s =s []) then answer #"503 5.5.1 already authenticated" tt
      else
        let '(mech, rest, _) := cut SP arg in
        if to_upper mech =s #"PLAIN" then
          cred ← authPlain rest;
          match cred with None => mret tt | Some cred => auth_verdict authenticate cred end
        else if to_upper mech =s #"LOGIN" then
          cred ← authLogin;
          match cred with None => mret tt | Some cred => auth_verdict authenticate cred end
        else answer #"504 5.5.4 mechanism not supported" tt
  end.

Definition set_from (addr : str) : P E unit :=
  set_sess (fun s => mkSession (sHelo s) (sTls s) (sAuthed s) addr true (sRcpts s)).

Definition cmdMail (arg : str) : P E unit :=
  s ← sess;
  if sHelo s =s [] then answer #"503 5.5.1 send HELO/EHLO first" tt
  else if sFromSet s then answer #"503 5.5.1 nested MAIL command" tt
  else
    set ← settings;
    if is_submission (stMode set) && (sAuthed s =s []) then answer #"530 5.7.0 authentication required" tt
    else match parsePath arg #"FROM:" with
         | Err e => answer (#"501 5.5.4 " ++ e) tt
         | Ok (addr, params) =>
             match sizeParam params with
             | None => answer #"501 5.5.4 invalid SIZE parameter" tt
             | Some size =>
                 if stMaxSize set <? size then
                   answer (#"552 5.3.4 message exceeds maximum size " ++ dec (stMaxSize set)) tt
                 else
                   let addr := to_lower addr in
                   if is_submission (stMode set) && negb (addr =s sAuthed s) then
                     answer #"553 5.7.1 sender address must be the authenticated user" tt
                   else
                     _ ← set_from addr;
                     answer #"250 2.1.0 OK" tt
             end
         end.

(** [direction] and [limitValues]: what the rate-limit rules key on. *)
Definition direction (set : Settings) : str :=
  if is_submission (stMode set) then DirOutbound else DirInbound.

Definition limitValues (s : session) (rcptAddr rcptDomain : str) : Values :=
  let sender := if sAuthed s =s [] then sFrom s else sAuthed s in
  mkValues ip sender (splitAddr sender).1.2 rcptAddr rcptDomain.

Definition rcptAddrs (s : session) : list str := map rAddr (sRcpts s).

Definition add_rcpt (r : rcpt) : P E unit :=
  set_sess (fun s => mkSession (sHelo s) (sTls s) (sAuthed s) (sFrom s) (sFromSet s) (sRcpts s ++ [r])).

(** The per-listener part of RCPT: a refusal, if any.  The anti-relay check of
    the inbound listener comes first. *)
Definition rcpt_refused (local : bool) : P E (option str) :=
  set ← settings;
  s ← sess;
  if negb (is_submission (stMode set)) then
    if negb local then
      _ ← count IncRelayDeny;
      mret (Some #"554 5.7.1 relay access denied")
    else
      ok ← in_limit InRcptAllowed ip;
      mret (if ok : bool then None else Some #"452 4.4.5 too many recipients, slow down")
  else
    ok ← out_limit OutRcptAllowed (sAuthed s);
    mret (if ok : bool then None else Some #"452 4.4.5 recipient quota exceeded, try again later").

(** The address a RCPT names, after folding and the postmaster rule. *)
Definition rcpt_address (addr : str) : P E str :=
  let addr := to_lower (trim_space addr) in
  if addr =s #"postmaster" then
    pm ← on_env (Postmaster be);
    mret (if pm =s [] then addr else pm)
  else mret addr.

Definition cmdRcpt (arg : str) : P E unit :=
  s ← sess;
  if negb (sFromSet s) then answer #"503 5.5.1 need MAIL before RCPT" tt
  else
    set ← settings;
    if stMaxRecipients set <=? Z.of_nat (length (sRcpts s)) then answer #"452 4.5.3 too many recipients" tt
    else match parsePath arg #"TO:" with
         | Err e => answer (#"501 5.5.4 " ++ e) tt
         | Ok (addr, _) =>
             addr ← rcpt_address addr;
             let '(_, domain, ok) := splitAddr addr in
             if negb ok then answer #"501 5.1.3 invalid address" tt
             else
               local ← on_env (IsLocalDomain be domain);
               refused ← rcpt_refused local;
               match refused with
               | Some line => answer line tt
               | None =>
                   ok ← governor (fun order now =>
                          RcptAllowed order (direction set) (limitValues s addr domain) now);
                   if negb ok then answer #"452 4.4.5 recipient rate limit exceeded, try again later" tt
                   else if negb local then
                     _ ← add_rcpt (mkRcpt addr true [] noPlan);
                     answer #"250 2.1.5 OK" tt
                   else
                     plan ← on_env (Route be addr);
                     match plan with
                     | None => answer #"550 5.1.1 no such user here" tt
                     | Some plan =>
                         _ ← add_rcpt (mkRcpt addr false domain plan);
                         answer #"250 2.1.5 OK" tt
                     end
               end
         end.

(** [forward]. *)
Definition forward (forwardDomain rcpt msg : str) : P E (option error) :=
  s ← sess;
  match ForwardHook be with
  | None => mret None
  | Some f => on_env (f (sFrom s) forwardDomain rcpt msg)
  end.

Fixpoint forward_all (forwardDomain : str) (targets : list str) (msg : str) : P E unit :=
  match targets with
  | [] => mret tt
  | f :: r => _ ← forward forwardDomain f msg; forward_all forwardDomain r msg
  end.

Inductive delivery_error := OverQuota | Failed (e : error).

(** The variables of [deliverPlan]. *)
Record progress := mkProgress { gDelivered : bool; gOverQuota : bool; gErr : option error }.

(** One local mailbox of the plan. *)
Definition deliver_local (domain : str) (spam : bool) (msg : str) (l : Local) (g : progress) : P E progress :=
  let out := Apply (readMessage ex) (lFilters l) msg in
  if oDiscard out then mret (mkProgress true (gOverQuota g) (gErr g))
  else
    fits ← (match Quota be with
            | None => mret true
            | Some quota => r ← on_env (quota (lMailbox l) (Z.of_nat (length msg))); mret r.1
            end);
    if negb fits then mret (mkProgress (gDelivered g) true (gErr g))
    else
      let folder := if spam || oJunk out then #"Spam" else oFolder out in
      s ← sess;
      err ← on_env (Store be (lMailbox l) (sFrom s) folder (oSeen out) (oFlagged out) msg);
      match err with
      | Some e => mret (mkProgress (gDelivered g) (gOverQuota g) (Some e))
      | None =>
          _ ← forward_all domain (oForward out) msg;
          mret (mkProgress true (gOverQuota g) (gErr g))
      end.

Fixpoint deliver_locals (domain : str) (spam : bool) (msg : str) (ls : list Local) (g : progress) : P E progress :=
  match ls with
  | [] => mret g
  | l :: r => g ← deliver_local domain spam msg l g; deliver_locals domain spam msg r g
  end.

Fixpoint deliver_remotes (domain msg : str) (rs : list str) (g : progress) : P E progress :=
  match rs with
  | [] => mret g
  | rem :: r =>
      err ← forward domain rem msg;
      deliver_remotes domain msg r
        (match err with
         | Some e => mkProgress (gDelivered g) (gOverQuota g) (Some e)
         | None => mkProgress true (gOverQuota g) (gErr g)
         end)
  end.

Definition plan_verdict (g : progress) : option delivery_error :=
  if gDelivered g then None
  else match gErr g with
       | Some e => Some (Failed e)
       | None => if gOverQuota g then Some OverQuota else None
       end.

Definition deliverPlan (r : rcpt) (spam : bool) (msg : str) : P E (option delivery_error) :=
  g ← deliver_locals (rDomain r) spam msg (pLocal (rPlan r)) (mkProgress false false None);
  g ← deliver_remotes (rDomain r) msg (pRemote (rPlan r)) g;
  mret (plan_verdict g).

(** [assemble]: the trace header in front of the message. *)
Definition received_with (s : session) : str :=
  if negb (sAuthed s =s []) then #"ESMTPSA" else if sTls s then #"ESMTPS" else #"ESMTP".

Definition assemble (body extra : str) : P E str :=
  set ← settings;
  s ← sess;
  now ← on_env (clock ex);
  mret (extra
    ++ #"Received: from " ++ sHelo s ++ #" (" ++ MaskIP (ParseIP ex) (stIdentity set) ip ++ #")" ++ CRLF
    ++ [TAB] ++ #"by " ++ stHostname set ++ #" (Verta) with " ++ received_with s
    ++ (match sRcpts s with [r] => CRLF ++ [TAB] ++ #"for <" ++ rAddr r ++ #">" | _ => [] end)
    ++ #";" ++ CRLF ++ [TAB] ++ rfc1123z ex now ++ CRLF
    ++ body).

(** The limits on a message: the refusal and whether it ends the session. *)
Definition data_refused (set : Settings) : P E (option (str * bool)) :=
  s ← sess;
  refused ←
    (if negb (is_submission (stMode set)) then
       ok ← in_limit InMsgAllowed ip;
       mret (if ok : bool then None else Some (#"421 4.7.0 too many messages, closing connection", true))
     else
       ok ← out_limit OutMsgAllowed (sAuthed s);
       if negb ok then mret (Some (#"452 4.2.1 sending quota exceeded, try again later", false))
       else match MaySend be with
            | None => mret None
            | Some may =>
                r ← on_env (may (sAuthed s) (splitAddr (sAuthed s)).1.2);
                mret (if r.1 : bool then None else Some (#"450 4.7.1 " ++ r.2, false))
            end);
  match refused with
  | Some r => mret (Some r)
  | None =>
      ok ← governor (fun order now =>
             MsgAllowed order (direction set) (limitValues s [] []) (map splitRcptAddr (rcptAddrs s)) now);
      mret (if ok : bool then None else Some (#"452 4.4.5 message rate limit exceeded, try again later", false))
  end.

(** The body sent by the client, read to its end. *)
Definition read_body : P E (option str) :=
  on_conn (fun c => match ReadDot bufSize (cnReader c) with
                    | Some (body, rd) => (Some body, with_reader rd c)
                    | None => (None, with_reader (mkReader [] []) c)
                    end).

(** The inbound screening: a rejection's reason, or whether the message is
    spam and the headers to stamp on it. *)
Definition screen (set : Settings) (body : str) : P E (str + bool * str) :=
  match (if is_submission (stMode set) then None else Screen be) with
  | None => mret (inr (false, []))
  | Some f =>
      s ← sess;
      r ← on_env (f ip (sHelo s) (sFrom s) body);
      let extra := srAuthResults r ++ srSpamHeader r in
      match srAction r with
      | ScreenReject => _ ← count IncRejected; mret (inl (srReason r))
      | ScreenQuarantine => _ ← count IncSpam; mret (inr (true, extra))
      | ScreenAccept => mret (inr (false, extra))
      end
  end.

(** The DKIM signature of a submission; a failure leaves it unsigned. *)
Definition sign (set : Settings) (msg : str) : P E str :=
  match (if is_submission (stMode set) then Sign be else None) with
  | None => mret msg
  | Some f =>
      s ← sess;
      let '(_, domain, ok) := splitAddr (sFrom s) in
      if negb ok then mret msg
      else r ← on_env (f domain msg); mret (default msg r)
  end.

Definition deliver_one (spam : bool) (msg : str) (r : rcpt) : P E (option delivery_error) :=
  if rRemote r then
    s ← sess;
    err ← on_env (EnqueueHook be (sFrom s) (rAddr r) msg);
    mret (match err with None => None | Some e => Some (Failed e) end)
  else deliverPlan r spam msg.

(** The loop over the recipients: how many accepted, and whether one was over
    its quota. *)
Fixpoint deliver_all (spam : bool) (msg : str) (rs : list rcpt) (accepted : nat) (over : bool)
    : P E (nat * bool) :=
  match rs with
  | [] => mret (accepted, over)
  | r :: rest =>
      err ← deliver_one spam msg r;
      match err with
      | None => deliver_all spam msg rest (S accepted) over
      | Some OverQuota => deliver_all spam msg rest accepted true
      | Some (Failed _) => deliver_all spam msg rest accepted over
      end
  end.

(** The counters of an accepted message. *)
Definition accepted_hooks (set : Settings) : P E unit :=
  _ ← count IncReceived;
  if is_submission (stMode set) then
    _ ← count IncSubmitted;
    match Sent be with
    | None => mret tt
    | Some f => s ← sess; on_env (fun e => (tt, f (sAuthed s) (splitAddr (sAuthed s)).1.2 e))
    end
  else mret tt.

(** A final reply of the transaction. *)
Definition end_transaction (line : str) : P E bool := _ ← resetTransaction; answer line false.

(** From the received body to the final reply. *)
Definition accept_message (set : Settings) (raw : str) : P E bool :=
  let body := ensureCRLF raw in
  verdict ← screen set body;
  match verdict with
  | inl reason => end_transaction (#"550 5.7.1 " ++ reason)
  | inr (spam, extra) =>
      msg ← assemble body extra;
      msg ← sign set msg;
      s ← sess;
      '(accepted, over) ← deliver_all spam msg (sRcpts s) 0 false;
      if Nat.eqb accepted 0 then
        end_transaction (if over : bool then #"452 4.2.2 over quota, try again later"
                         else #"451 4.3.0 delivery failed, try again later")
      else
        _ ← accepted_hooks set;
        end_transaction #"250 2.0.0 OK message accepted for delivery"
  end.

(** [cmdData].  The body is read to its end whatever its size, as the code
    does with a limit of [MaxSize + 1] bytes and a second loop that discards
    the rest. *)
Definition cmdData : P E bool :=
  s ← sess;
  if Nat.eqb (length (sRcpts s)) 0 then answer #"503 5.5.1 need RCPT before DATA" false
  else
    set ← settings;
    refused ← data_refused set;
    match refused with
    | Some (line, quit) => answer line quit
    | None =>
        ok ← reply #"354 end data with <CRLF>.<CRLF>";
        if negb ok then mret true
        else
          body ← read_body;
          match body with
          | None => mret true
          | Some raw =>
              if stMaxSize set <? Z.of_nat (length raw) then
                end_transaction (#"552 5.3.4 message exceeds maximum size " ++ dec (stMaxSize set))
              else accept_message set raw
          end
    end.

(** One line of the command loop: whether the session ends. *)
Definition going_on {A} (m : P E A) : P E bool := _ ← m; mret false.

Definition dispatch (cmd arg : str) : P E bool :=
  let cmd := to_upper cmd in
  if cmd =s #"HELO" then cmdHelo arg false
  else if cmd =s #"EHLO" then cmdHelo arg true
  else if cmd =s #"STARTTLS" then cmdStartTLS
  else if cmd =s #"MAIL" then going_on (cmdMail arg)
  else if cmd =s #"RCPT" then going_on (cmdRcpt arg)
  else if cmd =s #"DATA" then cmdData
  else if cmd =s #"RSET" then _ ← resetTransaction; answer #"250 2.0.0 OK" false
  else if cmd =s #"NOOP" then answer #"250 2.0.0 OK" false
  else if cmd =s #"QUIT" then
    set ← settings; answer (#"221 2.0.0 " ++ stHostname set ++ #" closing connection") true
  else if (cmd =s #"VRFY") || (cmd =s #"EXPN") then answer #"502 5.5.1 command disabled" false
  else if cmd =s #"AUTH" then going_on (cmdAuth arg)
  else if cmd =s #"HELP" then answer #"214 2.0.0 see RFC 5321" false
  else answer #"500 5.5.1 command not recognized" false.

(** One turn of the loop of [run]. *)
Definition turn : P E bool :=
  l ← readLine;
  match l with
  | None => mret true
  | Some [] => mret false
  | Some line => let '(cmd, arg, _) := cut SP line in dispatch cmd arg
  end.

(** The loop; [false] when the fuel did not do. *)
Fixpoint run_loop (fuel : nat) : P E bool :=
  match fuel with
  | 0%nat => mret false
  | S f => quit ← turn; if quit : bool then mret true else run_loop f
  end.

Definition run (fuel : nat) : P E bool :=
  set ← settings;
  ok ← reply (#"220 " ++ stHostname set ++ #" ESMTP Verta");
  if negb ok then mret true else run_loop fuel.
End Handlers.

(** ** Accepting connections ([Server.Serve]) *)

(** What becomes of a new connection when [busy] of [workers] slots are
    taken: it is told why not, or it gets its session. *)
Inductive admission := TurnedAway (line : str) | Served (s : session).

Definition admit_conn (workers busy : nat) (set : Settings) (ip : str) (now : Z) : admission * Settings :=
  let '(ok, l) := ConnAllowed (stLimits set) ip now in
  let set' := upd_limits set l in
  if negb ok then
    (TurnedAway (#"421 4.7.0 " ++ stHostname set ++ #" too many connections, try again later"), set')
  else if Nat.ltb busy workers then (Served (newSession set'), set')
  else (TurnedAway (#"421 4.3.2 " ++ stHostname set ++ #" server busy, try again later"), set').
