(* ===== verification/SmtpProps.v ===== *)
(** * Properties of the SMTP server

    Who may relay, what a session can hold, what STARTTLS keeps, what a 250
    after DATA means, and that every session ends. *)

From S2P Require Import Prelude GoStrings GoOS GoNet StateM Filter Config StorageResolver Routing RateLimit Governor Base64 Auth Stats Container Smtp.

(** ** Relations that operations keep *)

(** The part of the settings that no operation of a session changes. *)
Definition same_conf (s s' : Settings) : Prop :=
  stHostname s' = stHostname s /\ stMaxSize s' = stMaxSize s /\
  stMaxRecipients s' = stMaxRecipients s /\ stMode s' = stMode s /\
  stImplicitTLS s' = stImplicitTLS s /\ stTLS s' = stTLS s /\ stIdentity s' = stIdentity s.

#[export] Instance same_conf_preorder : PreOrder same_conf.
Proof.
  split; [by intros s; repeat split|].
  intros a b c (?&?&?&?&?&?&?) (?&?&?&?&?&?&?). repeat split; congruence.
Qed.

Section Relations.
Context {E : Type} (I : E -> Prop).

(** Operations on the rest of the server only. *)
Definition inner (st st' : state E) : Prop :=
  xSess st' = xSess st /\ xConn st' = xConn st /\ same_conf (xSet st) (xSet st') /\
  (I (xEnv st) -> I (xEnv st')).

(** The reader of a connection only ever loses bytes. *)
Definition reader_le (rd rd' : reader) : Prop :=
  (length (rdBuf rd) <= bufSize)%nat ->
  (length (rdBuf rd') <= bufSize)%nat /\ (length (stream rd') <= length (stream rd))%nat.

(** Operations that may also talk to the client. *)
Definition quiet (st st' : state E) : Prop :=
  xSess st' = xSess st /\ reader_le (cnReader (xConn st)) (cnReader (xConn st')) /\
  same_conf (xSet st) (xSet st') /\ (I (xEnv st) -> I (xEnv st')).

(** Operations of every handler but STARTTLS. *)
Definition tame (st st' : state E) : Prop :=
  sTls (xSess st') = sTls (xSess st) /\ reader_le (cnReader (xConn st)) (cnReader (xConn st')) /\
  same_conf (xSet st) (xSet st').

#[export] Instance reader_le_preorder : PreOrder reader_le.
Proof.
  split; [by intros rd|]. intros a b c Hab Hbc Ha. destruct (Hab Ha) as [Hb ?].
  destruct (Hbc Hb). split; [done|lia].
Qed.

#[export] Instance inner_preorder : PreOrder inner.
Proof.
  split; [by intros st; repeat split|].
  intros a b c (?&?&?&?) (?&?&?&?). split_and!; [congruence|congruence|by etransitivity|auto].
Qed.
#[export] Instance quiet_preorder : PreOrder quiet.
Proof.
  split; [by intros st; repeat split|].
  intros a b c (?&?&?&?) (?&?&?&?). split_and!; [congruence|by etransitivity|by etransitivity|auto].
Qed.
#[export] Instance tame_preorder : PreOrder tame.
Proof.
  split; [by intros st; repeat split|].
  intros a b c (?&?&?) (?&?&?). split_and!; [congruence|by etransitivity|by etransitivity].
Qed.

Lemma inner_quiet : subrelation inner quiet.
Proof. intros st st' (?&Hc&?&?). split_and!; [done| |done|done]. rewrite Hc. reflexivity. Qed.
Lemma quiet_tame : subrelation quiet tame.
Proof. intros st st' (Hs&?&?&_). split_and!; [by rewrite Hs|done|done]. Qed.

(** An operation of the rest of the server that keeps [I]. *)
Definition ok_op {A} (f : E -> A * E) : Prop := forall e, I e -> I (f e).2.

Lemma inner_env {A} (f : E -> A * E) : ok_op f -> keeps inner (on_env f).
Proof.
  intros Hf st. unfold on_env. specialize (Hf (xEnv st)). destruct (f (xEnv st)) as [a e].
  by repeat split.
Qed.

Lemma inner_set {A} (f : Settings -> A * Settings) :
  (forall s, same_conf s (f s).2) -> keeps inner (on_set f).
Proof.
  intros Hf st. unfold on_set. specialize (Hf (xSet st)). destruct (f (xSet st)) as [a s].
  by split_and!.
Qed.

Lemma inner_count f : keeps inner (count f).
Proof. apply inner_set. intros s. by repeat split. Qed.

Lemma quiet_conn {A} (f : conn -> A * conn) :
  (forall c, reader_le (cnReader c) (cnReader (f c).2)) -> keeps quiet (on_conn f).
Proof.
  intros Hf st. unfold on_conn. specialize (Hf (xConn st)). destruct (f (xConn st)) as [a c].
  by split_and!.
Qed.

Lemma write_lines_reader ls c : cnReader (write_lines ls c).2 = cnReader c.
Proof. unfold write_lines. by destruct (cnWrites c) as [[|n]|]. Qed.

Lemma quiet_write ls : keeps quiet (on_conn (write_lines ls)).
Proof. apply quiet_conn. intros c. rewrite write_lines_reader. reflexivity. Qed.
End Relations.

#[export] Hint Resolve inner_count quiet_write : session.
#[export] Hint Extern 2 (keeps (quiet _) _) => (apply (keeps_weaken (inner _)); [apply inner_quiet|solve [eauto 2 with session]]) : session.

(** ** What each operation keeps *)

Lemma ReadSlice_le rd l e rd' : ReadSlice bufSize rd = (l, e, rd') -> reader_le rd rd'.
Proof.
  intros HR Hb. pose proof (ReadSlice_spec bufSize rd Hb) as H. rewrite HR in H. destruct H as [Hs Hb'].
  split; [done|]. apply slice_of_split in Hs. rewrite Hs, length_app. lia.
Qed.

Lemma drain_le fuel : forall rd, reader_le rd (drain fuel rd).
Proof.
  induction fuel as [|f IH]; intros rd; cbn [drain]; [reflexivity|].
  destruct (ReadSlice bufSize rd) as [[l e] rd'] eqn:ER. apply ReadSlice_le in ER.
  destruct e as [[]|]; [|done|done]. etransitivity; [done|apply IH].
Qed.

Lemma bufSize_pos : (0 < bufSize)%nat.
Proof. unfold bufSize. lia. Qed.

Section Operations.
Context {E : Type} (be : Backend E) (ex : Services E) (ip : str) (I : E -> Prop).

(** Every call out of the session keeps [I], [EnqueueHook] aside. *)
Record respects : Prop := {
  ok_local d : ok_op I (IsLocalDomain be d);
  ok_route a : ok_op I (Route be a);
  ok_store mb from folder seen flagged msg : ok_op I (Store be mb from folder seen flagged msg);
  ok_quota f mb n : Quota be = Some f -> ok_op I (f mb n);
  ok_forward f a b c m : ForwardHook be = Some f -> ok_op I (f a b c m);
  ok_postmaster : ok_op I (Postmaster be);
  ok_auth f u p a : Authenticate be = Some f -> ok_op I (f u p a);
  ok_screen f a b c d : Screen be = Some f -> ok_op I (f a b c d);
  ok_sign f d m : Sign be = Some f -> ok_op I (f d m);
  ok_maysend f u d : MaySend be = Some f -> ok_op I (f u d);
  ok_sent f u d : Sent be = Some f -> forall e, I e -> I (f u d e);
  ok_handshake raw : ok_op I (handshake ex raw);
  ok_clock : ok_op I (clock ex);
  ok_order : ok_op I (range_order ex) }.

Context (ok : respects).
Abbreviation inner := (inner I).
Abbreviation quiet := (quiet I).

Lemma quiet_inner {A} (m : P E A) : keeps inner m -> keeps quiet m.
Proof. apply keeps_weaken, inner_quiet. Qed.
Lemma quiet_count f : keeps quiet (count f).
Proof. apply quiet_inner, inner_count. Qed.
#[local] Hint Resolve quiet_count : session.

Lemma inner_in_limit f k : keeps inner (in_limit ex f k).
Proof.
  apply keeps_bind; [exact _|apply inner_env, ok_clock; done|intros now]. apply inner_set. intros s.
  destruct (f (stLimits s) k now). by repeat split.
Qed.
Lemma inner_out_limit f k : keeps inner (out_limit ex f k).
Proof.
  apply keeps_bind; [exact _|apply inner_env, ok_clock; done|intros now]. apply inner_set. intros s.
  destruct (f (stOutLimits s) k now). by repeat split.
Qed.
Lemma inner_governor f : keeps inner (governor ex f).
Proof.
  apply keeps_bind; [exact _|apply inner_env, ok_clock; done|intros now].
  apply keeps_bind; [exact _|apply inner_env, ok_order; done|intros order].
  apply inner_set. intros s. destruct (f order now (stGovernor s)). by repeat split.
Qed.

Lemma quiet_reply line : keeps quiet (reply line).
Proof. apply quiet_write. Qed.
Lemma quiet_answer {A} line (a : A) : keeps quiet (answer line a).
Proof. apply keeps_bind; [exact _|apply quiet_reply|intros; apply keeps_ret; exact _]. Qed.
#[local] Hint Resolve inner_in_limit inner_out_limit inner_governor quiet_reply quiet_answer : session.

Lemma quiet_readLine : keeps quiet readLine.
Proof.
  apply keeps_bind; [exact _| |intros [l e]].
  - apply quiet_conn. intros c. destruct (ReadSlice bufSize (cnReader c)) as [[l e] rd] eqn:ER.
    by apply ReadSlice_le in ER.
  - cbv zeta. destruct e as [[]|]; [|keeps_auto|keeps_auto].
    apply keeps_bind; [exact _| |intros; apply quiet_answer]. apply quiet_conn. intros c. apply drain_le.
Qed.
#[local] Hint Resolve quiet_readLine : session.

Lemma quiet_read_body : keeps quiet read_body.
Proof.
  apply quiet_conn. intros c Hb. pose proof (ReadDot_spec bufSize (cnReader c) bufSize_pos Hb) as H.
  destruct (ReadDot bufSize (cnReader c)) as [[body rd]|]; simpl.
  - destruct H as [H ?]. split; [done|by eapply dot_bytes_shrinks].
  - unfold stream. simpl. lia.
Qed.
#[local] Hint Resolve quiet_read_body : session.

Lemma quiet_sasl_line p : keeps quiet (sasl_line p).
Proof. unfold sasl_line. keeps_auto. Qed.
#[local] Hint Resolve quiet_sasl_line : session.
Lemma quiet_authPlain i : keeps quiet (authPlain i).
Proof. unfold authPlain. keeps_auto. Qed.
Lemma quiet_login_step p : keeps quiet (login_step p).
Proof. unfold login_step. keeps_auto. Qed.
#[local] Hint Resolve quiet_login_step : session.
Lemma quiet_authLogin : keeps quiet authLogin.
Proof. unfold authLogin. keeps_auto. Qed.
#[local] Hint Resolve quiet_authPlain quiet_authLogin : session.

Lemma inner_rcpt_refused local : keeps inner (rcpt_refused ex ip local).
Proof. unfold rcpt_refused. keeps_auto. Qed.

Lemma inner_rcpt_address a : keeps inner (rcpt_address be a).
Proof.
  pose proof (inner_env I _ (ok_postmaster ok)). unfold rcpt_address. keeps_auto.
Qed.

Lemma inner_forward d r m : keeps inner (forward be d r m).
Proof.
  unfold forward. apply keeps_bind; [exact _|apply keeps_get; exact _|intros s].
  destruct (ForwardHook be) eqn:E1; [|apply keeps_ret; exact _].
  apply inner_env. by eapply ok_forward.
Qed.
#[local] Hint Resolve inner_forward : session.
Lemma inner_forward_all d rs m : keeps inner (forward_all be d rs m).
Proof. induction rs; cbn [forward_all]; keeps_auto. Qed.
#[local] Hint Resolve inner_forward_all : session.

Lemma inner_deliver_local d spam m l g : keeps inner (deliver_local be ex d spam m l g).
Proof.
  unfold deliver_local. destruct (oDiscard _); [apply keeps_ret; exact _|].
  apply keeps_bind; [exact _| |intros fits].
  - destruct (Quota be) eqn:E1; [|apply keeps_ret; exact _].
    apply keeps_bind; [exact _|apply inner_env; by eapply ok_quota|intros; apply keeps_ret; exact _].
  - destruct (negb fits); [apply keeps_ret; exact _|].
    apply keeps_bind; [exact _|apply keeps_get; exact _|intros s].
    apply keeps_bind; [exact _|apply inner_env, ok_store; done|intros err]. keeps_auto.
Qed.
#[local] Hint Resolve inner_deliver_local : session.
Lemma inner_deliver_locals d spam m ls : forall g, keeps inner (deliver_locals be ex d spam m ls g).
Proof. induction ls; intros g; cbn [deliver_locals]; keeps_auto. Qed.
Lemma inner_deliver_remotes d m rs : forall g, keeps inner (deliver_remotes be d m rs g).
Proof. induction rs; intros g; cbn [deliver_remotes]; keeps_auto. Qed.
#[local] Hint Resolve inner_deliver_locals inner_deliver_remotes : session.
Lemma inner_deliverPlan r spam m : keeps inner (deliverPlan be ex r spam m).
Proof. unfold deliverPlan. keeps_auto. Qed.

Lemma inner_assemble b x : keeps inner (assemble ex ip b x).
Proof.
  pose proof (inner_env I _ (ok_clock ok)). unfold assemble. keeps_auto.
Qed.

Lemma inner_data_refused set : keeps inner (data_refused be ex ip set).
Proof.
  unfold data_refused. apply keeps_bind; [exact _|apply keeps_get; exact _|intros s].
  apply keeps_bind; [exact _| |intros; keeps_auto].
  destruct (negb _); [keeps_auto|]. apply keeps_bind; [exact _|auto with session|intros o].
  destruct (negb o); [keeps_auto|]. destruct (MaySend be) eqn:E1; [|keeps_auto].
  apply keeps_bind; [exact _|apply inner_env; by eapply ok_maysend|intros; keeps_auto].
Qed.

Lemma inner_screen set b : keeps inner (screen be ip set b).
Proof.
  unfold screen. destruct (is_submission (stMode set)); [keeps_auto|].
  destruct (Screen be) eqn:E1; [|keeps_auto].
  apply keeps_bind; [exact _|apply keeps_get; exact _|intros s].
  apply keeps_bind; [exact _|apply inner_env; by eapply ok_screen|intros; keeps_auto].
Qed.

Lemma inner_sign set m : keeps inner (sign be set m).
Proof.
  unfold sign. destruct (is_submission (stMode set)); [|keeps_auto].
  destruct (Sign be) eqn:E1; [|keeps_auto].
  apply keeps_bind; [exact _|apply keeps_get; exact _|intros s].
  destruct (splitAddr (sFrom s)) as [[a d] o]. destruct (negb o); [keeps_auto|].
  apply keeps_bind; [exact _|apply inner_env; by eapply ok_sign|intros; keeps_auto].
Qed.

Lemma inner_accepted_hooks set : keeps inner (accepted_hooks be set).
Proof.
  unfold accepted_hooks. apply keeps_bind; [exact _|auto with session|intros _].
  destruct (is_submission (stMode set)); [|keeps_auto].
  apply keeps_bind; [exact _|auto with session|intros _]. destruct (Sent be) as [f|] eqn:E1; [|keeps_auto].
  apply keeps_bind; [exact _|apply keeps_get; exact _|intros s].
  apply inner_env. intros e. simpl. by apply (ok_sent ok f).
Qed.

(** The sender of a relayed recipient matters, as [EnqueueHook] need not keep
    [I]. *)
Definition may_relay (allow : str -> Prop) (from : str) (r : rcpt) : Prop :=
  rRemote r = false \/ allow from.

Definition enqueue_allowed (allow : str -> Prop) : Prop :=
  forall from a m, allow from -> ok_op I (EnqueueHook be from a m).

Lemma inner_deliver_one allow spam m r st :
  enqueue_allowed allow -> may_relay allow (sFrom (xSess st)) r ->
  inner st (deliver_one be ex spam m r st).2.
Proof.
  intros Henq Hr. unfold deliver_one. destruct (rRemote r) eqn:Er.
  - destruct Hr as [|Hal]; [congruence|]. unfold mbind, SM_bind, sess.
    pose proof (inner_env I _ (Henq (sFrom (xSess st)) (rAddr r) m Hal) st) as H.
    destruct (on_env _ st) as [err st']. exact H.
  - apply inner_deliverPlan.
Qed.

Lemma inner_deliver_all allow spam m rs : forall n over st,
  enqueue_allowed allow -> Forall (may_relay allow (sFrom (xSess st))) rs ->
  inner st (deliver_all be ex spam m rs n over st).2.
Proof.
  induction rs as [|r rs IH]; intros n over st Henq HF; cbn [deliver_all]; [reflexivity|].
  inversion_clear HF as [|? ? Hr HF']. apply keeps_at_bind; [exact _|by eapply inner_deliver_one|].
  intros err st' Hst'. pose proof Hst' as (Es & _).
  destruct err as [[]|]; apply IH; (done || by rewrite Es).
Qed.

(** ** What a session can hold *)

Context (allow : str -> Prop).

(** [allow] holds of the addresses a session may send from. *)
Record sess_ok (m : Mode) (s : session) : Prop := {
  so_from : sFromSet s = true -> sHelo s <> [];
  so_rcpts : sRcpts s <> [] -> sFromSet s = true;
  so_inbound : m = ModeInbound -> sAuthed s = [] /\ Forall (fun r => rRemote r = false) (sRcpts s);
  so_auth : sAuthed s <> [] -> m = ModeSubmission /\ sTls s = true /\ allow (sAuthed s);
  so_sender : m = ModeSubmission -> sFromSet s = true -> sAuthed s <> [] /\ sFrom s = sAuthed s }.

Definition good (st : state E) : Prop := sess_ok (stMode (xSet st)) (xSess st) /\ I (xEnv st).

Lemma ends_env {A} (f : E -> A * E) (Q : A -> state E -> Prop) st :
  ok_op I f -> (forall a st', (f (xEnv st)).1 = a -> inner st st' -> Q a st') -> ends (on_env f) Q st.
Proof.
  intros Hf H. pose proof (inner_env I f Hf st) as Hq. unfold ends, on_env in *.
  destruct (f (xEnv st)) as [a e]. by apply H.
Qed.
Lemma good_quiet st st' : quiet st st' -> good st -> good st'.
Proof. intros (Hs & _ & (_&_&_&Hm&_) & Hi) [Hg Hi0]. split; [by rewrite Hs, Hm|auto]. Qed.

Lemma ends_answer {A} line (a : A) (Q : A -> state E -> Prop) st :
  (forall st', quiet st st' -> Q a st') -> ends (answer line a) Q st.
Proof.
  intros H. apply ends_bind. apply (ends_keeps quiet); [apply quiet_reply|]. intros st' Hst'. by apply ends_ret, H.
Qed.

(** An answer that ends a handler. *)
Lemma good_answer {A} line (a : A) st : good st -> ends (answer line a) (fun _ => good) st.
Proof. intros H. apply ends_answer. intros st' Hq. by eapply good_quiet. Qed.

Lemma good_keeps {A} (m : P E A) (Q : A -> state E -> Prop) st :
  keeps quiet m -> good st ->
  (forall a st', quiet st st' -> good st' -> Q a st') -> ends m Q st.
Proof.
  intros Hm Hg H. apply (ends_keeps quiet); [done|]. intros st' Hq. apply H; [done|by eapply good_quiet].
Qed.

Lemma good_set_sess (f : session -> session) st :
  good st -> sess_ok (stMode (xSet st)) (f (xSess st)) -> ends (set_sess f) (fun _ => good) st.
Proof. intros [_ Hi] H. by split. Qed.

Lemma sess_ok_reset m s :
  (sAuthed s <> [] -> m = ModeSubmission /\ sTls s = true /\ allow (sAuthed s)) ->
  (m = ModeInbound -> sAuthed s = []) ->
  sess_ok m (mkSession (sHelo s) (sTls s) (sAuthed s) [] false []).
Proof. intros Ha Hi. split; simpl; try done. intros Hm. by split; [apply Hi|]. Qed.

Lemma good_reset st : good st -> ends resetTransaction (fun _ => good) st.
Proof.
  intros Hg. apply good_set_sess; [done|]. destruct Hg as [Hg _]. apply sess_ok_reset; [apply Hg|].
  intros Hm. by apply (so_inbound _ _ Hg).
Qed.

Lemma sanitizeHelo_nonempty h : h <> [] -> sanitizeHelo h <> [].
Proof.
  intros Hh. unfold sanitizeHelo. destruct h as [|c h]; [done|].
  destruct (Nat.ltb 255 (length (c :: h))); by cbn.
Qed.

Lemma good_cmdHelo arg ext st : good st -> ends (cmdHelo be arg ext) (fun _ => good) st.
Proof.
  intros Hg. unfold cmdHelo. destruct (str_eqb_spec arg []) as [->|Ha]; [by apply good_answer|].
  apply ends_bind. set (f := fun s => mkSession _ _ _ _ _ _).
  assert (ends (set_sess f) (fun _ => good) st) as H1.
  { apply good_set_sess; [done|]. destruct Hg as [[H1 H2 H3 H4 H5] _]. split; simpl; try done.
    intros _. by apply sanitizeHelo_nonempty. }
  revert H1. apply ends_mono. clear. intros _ st Hg.
  apply ends_bind. revert Hg. intros Hg%good_reset. revert Hg. apply ends_mono. intros _ st' Hg.
  apply ends_bind, ends_get. destruct (negb ext); [by apply good_answer|].
  apply ends_bind, ends_get, ends_bind. apply good_keeps; [apply quiet_write|done|]. intros b st2 _ Hg2. by apply ends_ret.
Qed.

Lemma good_cmdStartTLS st : good st -> ends (cmdStartTLS ex) (fun _ => good) st.
Proof.
  intros Hg. unfold cmdStartTLS. apply ends_bind, ends_get, ends_bind, ends_get.
  destruct (negb (stTLS (xSet st))); [by apply good_answer|].
  destruct (sTls (xSess st)) eqn:Et; [by apply good_answer|].
  apply ends_bind, good_keeps; [apply quiet_reply|done|]. intros b st1 (Hs1&_&_&_) Hg1.
  destruct (negb b); [by apply ends_ret|].
  apply ends_bind, good_keeps; [apply quiet_conn; by intros c|done|]. intros raw st2 (Hs2&_&_&_) Hg2.
  apply ends_bind, good_keeps;
    [apply quiet_inner, inner_env, ok_handshake; done|done|].
  intros r st3 (Hs3&_&_&_) [Hg3 Hi3]. destruct r as [clear|]; [|by apply ends_ret].
  assert (sAuthed (xSess st3) = []) as Ha.
  { destruct (str_eqb_spec (sAuthed (xSess st3)) []) as [|Hn]; [done|].
    destruct (so_auth _ _ Hg3 Hn) as (_ & Ht & _). congruence. }
  split; [|done]. cbn. apply (sess_ok_reset _ (mkSession _ true _ _ _ _)); simpl; [by rewrite Ha|done].
Qed.

Lemma good_auth_verdict f cred st :
  (forall u p a e, (f u p a e).1 = None -> allow (to_lower u)) ->
  (forall u p a, ok_op I (f u p a)) ->
  good st -> stMode (xSet st) = ModeSubmission -> sTls (xSess st) = true -> sAuthed (xSess st) = [] ->
  ends (auth_verdict ip f cred) (fun _ => good) st.
Proof.
  intros Hf Hok Hg Hm Ht Ha. unfold auth_verdict. apply ends_bind, ends_env; [apply Hok|].
  intros v st1 Hv Hq. apply inner_quiet in Hq. pose proof (good_quiet _ _ Hq Hg) as Hg1.
  destruct Hq as (Hs & _ & (_&_&_&Hm1&_) & _). destruct v as [[]|].
  - apply ends_bind, good_keeps; [apply quiet_count|done|]. intros _ st2 _ Hg2. by apply good_answer.
  - by apply good_answer.
  - apply ends_bind. eapply ends_mono, good_set_sess; [|done|].
    + intros ? st2 Hg2. apply ends_bind, good_keeps; [apply quiet_count|done|]. intros _ st3 _ Hg3. by apply good_answer.
    + rewrite Hs, Hm1, Hm. destruct Hg as [[H1 H2 H3 H4 H5] _]. rewrite Hm in *. split; simpl; try done.
      * intros _. split_and!; [done|done|by eapply Hf].
      * intros _ HS. by destruct (H5 eq_refl HS).
Qed.

Lemma submission_or_not m : is_submission m = true <-> m = ModeSubmission.
Proof. by destruct m. Qed.

(** On submission [allow] holds of every address that [Authenticate] lets in. *)
Context (mode : Mode).
Context (vouched : forall f u p a e,
  mode = ModeSubmission -> Authenticate be = Some f -> (f u p a e).1 = None -> allow (to_lower u)).

Lemma good_cmdAuth arg st : stMode (xSet st) = mode -> good st -> ends (cmdAuth be ip arg) (fun _ => good) st.
Proof.
  intros Hmode Hg. unfold cmdAuth. apply ends_bind, ends_get, ends_bind, ends_get.
  destruct (is_submission (stMode (xSet st))) eqn:Em; [|by apply good_answer].
  destruct (Authenticate be) as [f|] eqn:Ea; [|by apply good_answer].
  destruct (sTls (xSess st)) eqn:Et; [|by apply good_answer].
  destruct (str_eqb_spec (sAuthed (xSess st)) []) as [Hn|]; [|by apply good_answer]. cbn [negb].
  assert (forall cred st', quiet st st' -> good st' -> ends (auth_verdict ip f cred) (fun _ => good) st') as Hv.
  { intros cred st' (Hs&_&(_&_&_&Hm&_)&_) Hg'. apply good_auth_verdict; rewrite ?Hs; try done.
    - intros u p a e. apply vouched; [|done]. rewrite <- Hmode. by apply submission_or_not.
    - intros u p a. by eapply ok_auth.
    - rewrite Hm. by destruct (stMode (xSet st)). }
  destruct (cut SP arg) as [[mech rest] b].
  destruct (to_upper mech =s #"PLAIN").
  { apply ends_bind, good_keeps; [apply quiet_authPlain|done|]. intros [cred|] st' Hq Hg'; [by apply Hv|by apply ends_ret]. }
  destruct (to_upper mech =s #"LOGIN"); [|by apply good_answer].
  apply ends_bind, good_keeps; [apply quiet_authLogin|done|]. intros [cred|] st' Hq Hg'; [by apply Hv|by apply ends_ret].
Qed.

Lemma good_cmdMail arg st : good st -> ends (cmdMail arg) (fun _ => good) st.
Proof.
  intros Hg. unfold cmdMail. apply ends_bind, ends_get.
  destruct (str_eqb_spec (sHelo (xSess st)) []) as [|Hh]; [by apply good_answer|].
  destruct (sFromSet (xSess st)) eqn:Ef; [by apply good_answer|].
  apply ends_bind, ends_get. destruct (_ && _) eqn:Ea; [by apply good_answer|].
  destruct (parsePath arg _) as [[addr params]|e]; [|by apply good_answer].
  destruct (sizeParam params) as [size|]; [|by apply good_answer].
  destruct (stMaxSize (xSet st) <? size); [by apply good_answer|]. cbv zeta.
  destruct (is_submission _ && negb _) eqn:Es; [by apply good_answer|].
  apply ends_bind. eapply ends_mono, good_set_sess; [intros ? st' Hg'; by apply good_answer|done|].
  destruct Hg as [[H1 H2 H3 H4 H5] _]. split; simpl; try done.
  intros Hm _. rewrite Hm in Ea, Es. simpl in Ea, Es. apply str_eqb_neq in Ea.
  apply negb_false_iff, str_eqb_eq in Es. done.
Qed.

Lemma rcpt_refused_relay st :
  (rcpt_refused ex ip false st).1 = None -> stMode (xSet st) = ModeSubmission.
Proof.
  unfold rcpt_refused, mbind, SM_bind, settings, sess. destruct (stMode (xSet st)); [|done]. simpl.
  by destruct (count IncRelayDeny st).
Qed.

Lemma good_add_rcpt r st :
  good st -> sFromSet (xSess st) = true ->
  (stMode (xSet st) = ModeInbound -> rRemote r = false) ->
  ends (add_rcpt r) (fun _ => good) st.
Proof.
  intros Hg Hf Hr. apply good_set_sess; [done|]. destruct Hg as [[H1 H2 H3 H4 H5] _]. split; simpl; try done.
  intros Hm. destruct (H3 Hm). split; [done|]. apply Forall_app. auto.
Qed.

Lemma good_cmdRcpt arg st : good st -> ends (cmdRcpt be ex ip arg) (fun _ => good) st.
Proof.
  intros Hg. unfold cmdRcpt. apply ends_bind, ends_get.
  destruct (sFromSet (xSess st)) eqn:Ef; [|by apply good_answer].
  apply ends_bind, ends_get. destruct (_ <=? _); [by apply good_answer|].
  destruct (parsePath arg _) as [[addr params]|e]; [|by apply good_answer].
  apply ends_bind, good_keeps; [by apply quiet_inner, inner_rcpt_address|done|]. intros addr1 st1 (Hs1&_&_) Hg1.
  destruct (splitAddr addr1) as [[lp domain] valid]. destruct (negb valid); [by apply good_answer|].
  apply ends_bind, good_keeps; [by apply quiet_inner, inner_env, ok_local|done|]. intros local st2 (Hs2&_&_) Hg2.
  apply ends_bind. eapply (ends_keeps quiet); [by apply quiet_inner, inner_rcpt_refused|]. intros st3 Hq3.
  pose proof (good_quiet _ _ Hq3 Hg2) as Hg3. destruct Hq3 as (Hs3&_&(_&_&_&Hm3&_)&_).
  destruct (rcpt_refused ex ip local st2).1 as [line|] eqn:Er; [by apply good_answer|].
  apply ends_bind, good_keeps; [by apply quiet_inner, inner_governor|done|].
  intros b st4 (Hs4&_&(_&_&_&Hm4&_)&_) Hg4. destruct (negb b); [by apply good_answer|].
  assert (sFromSet (xSess st4) = true) as Hf4 by congruence.
  destruct local; cbn [negb].
  - apply ends_bind, good_keeps; [by apply quiet_inner, inner_env, ok_route|done|].
    intros plan st5 (Hs5&_&_) Hg5. destruct plan as [plan|]; [|by apply good_answer].
    apply ends_bind. eapply ends_mono, good_add_rcpt; [|done|congruence|done].
    intros ? st6 Hg6. by apply good_answer.
  - apply rcpt_refused_relay in Er.
    apply ends_bind. eapply ends_mono, good_add_rcpt; [|done|done|].
    + intros ? st6 Hg6. by apply good_answer.
    + intros Hm. congruence.
Qed.

Lemma good_end_transaction line st : good st -> ends (end_transaction line) (fun _ => good) st.
Proof.
  intros Hg. apply ends_bind. eapply ends_mono, good_reset; [|done]. intros ? st' Hg'. by apply good_answer.
Qed.

Lemma good_relays st : good st -> Forall (may_relay allow (sFrom (xSess st))) (sRcpts (xSess st)).
Proof.
  intros [[H1 H2 H3 H4 H5] _]. destruct (stMode (xSet st)) eqn:Em.
  - eapply Forall_impl; [by apply H3|]. intros r Hr. by left.
  - destruct (sRcpts (xSess st)) as [|r rs] eqn:Er; [constructor|].
    destruct (H5 eq_refl (H2 ltac:(done))) as [Ha ->]. destruct (H4 Ha) as (_&_&Hall).
    apply Forall_true. intros x. by right.
Qed.

Context (enqueue : enqueue_allowed allow).

Lemma good_accept_message set raw st :
  good st -> ends (accept_message be ex ip set raw) (fun _ => good) st.
Proof.
  intros Hg. unfold accept_message. cbv zeta.
  apply ends_bind, good_keeps; [by apply quiet_inner, inner_screen|done|]. intros verdict st1 _ Hg1.
  destruct verdict as [reason|[spam extra]]; [by apply good_end_transaction|].
  apply ends_bind, good_keeps; [by apply quiet_inner, inner_assemble|done|]. intros msg st2 _ Hg2.
  apply ends_bind, good_keeps; [by apply quiet_inner, inner_sign|done|]. intros msg' st3 _ Hg3.
  apply ends_bind, ends_get, ends_bind.
  pose proof (inner_deliver_all allow spam msg' (sRcpts (xSess st3)) 0 false st3 enqueue
    (good_relays _ Hg3)) as Hd. apply inner_quiet in Hd.
  unfold ends at 1. destruct (deliver_all be ex spam msg' _ 0 false st3) as [[accepted over] st4]. simpl in *.
  pose proof (good_quiet _ _ Hd Hg3) as Hg4. change (ends (if Nat.eqb accepted 0 then
    end_transaction (if over then #"452 4.2.2 over quota, try again later" else #"451 4.3.0 delivery failed, try again later")
    else _ ← accepted_hooks be set; end_transaction #"250 2.0.0 OK message accepted for delivery") (fun _ => good) st4).
  destruct (Nat.eqb accepted 0); [by apply good_end_transaction|].
  apply ends_bind, good_keeps; [by apply quiet_inner, inner_accepted_hooks|done|]. intros _ st5 _ Hg5.
  by apply good_end_transaction.
Qed.

Lemma good_cmdData st : good st -> ends (cmdData be ex ip) (fun _ => good) st.
Proof.
  intros Hg. unfold cmdData. apply ends_bind, ends_get.
  destruct (Nat.eqb _ 0); [by apply good_answer|]. apply ends_bind, ends_get.
  apply ends_bind, good_keeps; [by apply quiet_inner, inner_data_refused|done|]. intros refused st1 _ Hg1.
  destruct refused as [[line quit]|]; [by apply good_answer|].
  apply ends_bind, good_keeps; [apply quiet_reply|done|]. intros b st2 _ Hg2.
  destruct (negb b); [by apply ends_ret|].
  apply ends_bind, good_keeps; [apply quiet_read_body|done|]. intros body st3 _ Hg3.
  destruct body as [raw|]; [|by apply ends_ret].
  destruct (_ <? _); [by apply good_end_transaction|by apply good_accept_message].
Qed.

Lemma good_going_on {A} (m : P E A) st :
  ends m (fun _ => good) st -> ends (going_on m) (fun _ => good) st.
Proof. intros H. apply ends_bind. eapply ends_mono; [|exact H]. intros a st' Hg. by apply ends_ret. Qed.

Lemma good_dispatch cmd arg st : stMode (xSet st) = mode -> good st -> ends (dispatch be ex ip cmd arg) (fun _ => good) st.
Proof.
  intros Hmode Hg. unfold dispatch. cbv zeta.
  repeat match goal with |- ends (if ?b then _ else _) _ _ => destruct b end;
    try solve [ by apply good_answer | by apply good_cmdHelo | by apply good_cmdStartTLS | by apply good_cmdData
              | by apply good_going_on, good_cmdMail | by apply good_going_on, good_cmdRcpt
              | by apply good_going_on, good_cmdAuth ].
  - apply ends_bind. eapply ends_mono, good_reset; [|done]. intros ? st' Hg'. by apply good_answer.
Qed.

(** One turn of the loop keeps what a session can hold. *)
Lemma good_turn st : stMode (xSet st) = mode -> good st -> good (turn be ex ip st).2.
Proof.
  intros Hmode Hg. apply (ends_bind readLine _ (fun _ => good)).
  apply good_keeps; [apply quiet_readLine|done|]. intros l st1 (_&_&(_&_&_&Hm&_)&_) Hg1.
  destruct l as [[|c l]|]; [by apply ends_ret| |by apply ends_ret].
  destruct (cut SP (c :: l)) as [[cmd arg] b]. apply good_dispatch; [congruence|done].
Qed.
End Operations.

Lemma respects_true {E} (be : Backend E) ex : respects be ex (fun _ => True).
Proof. by split; intros; repeat intro. Qed.

(** ** Reachable sessions *)

Section Sessions.
Context {E : Type} (be : Backend E) (ex : Services E) (ip : str).

(** Between two turns of a session the other sessions, a reload and the rest
    of the server may change everything but the mode of the listener. *)
Inductive reach : state E -> Prop :=
| reach_new set c env : reach (mkState (newSession set) c set env)
| reach_turn st : reach st -> reach (turn be ex ip st).2
| reach_other st set env :
    reach st -> stMode set = stMode (xSet st) -> reach (mkState (xSess st) (xConn st) set env).

(** The addresses of users whose credentials [Authenticate] accepted. *)
Definition authenticated (a : str) : Prop :=
  exists f u p addr e, Authenticate be = Some f /\ (f u p addr e).1 = None /\ a = to_lower u.

Lemma reach_sess_ok st : reach st -> sess_ok authenticated (stMode (xSet st)) (xSess st).
Proof.
  induction 1 as [set c env|st Hr IH|st set env Hr IH Hm]; simpl; [|
    |by rewrite Hm].
  - by split.
  - assert (good (fun _ : E => True) authenticated st) as Hg by by split.
    apply (good_turn be ex ip _ (respects_true be ex) _ (stMode (xSet st))) in Hg; [apply Hg| |done|done].
    intros f u p a e _ Hf Hn. by exists f, u, p, a, e.
Qed.

(** C3. Whatever the rest of the server does between the commands, a session has a
    recipient only after a sender and a sender only after a greeting; on an
    inbound listener nobody is authenticated and no recipient is to be
    relayed; an authenticated session is a submission over TLS whose user
    [Authenticate] accepted, and on submission the envelope sender is that
    user. *)
Theorem session_invariant st :
  reach st ->
  let s := xSess st in
  (sFromSet s = true -> sHelo s <> []) /\
  (sRcpts s <> [] -> sFromSet s = true) /\
  (stMode (xSet st) = ModeInbound -> sAuthed s = [] /\ Forall (fun r => rRemote r = false) (sRcpts s)) /\
  (sAuthed s <> [] -> stMode (xSet st) = ModeSubmission /\ sTls s = true /\ authenticated (sAuthed s)) /\
  (stMode (xSet st) = ModeSubmission -> sFromSet s = true -> sAuthed s <> [] /\ sFrom s = sAuthed s).
Proof. intros [H1 H2 H3 H4 H5]%reach_sess_ok. by split_and!. Qed.

(** C1. No open relay: on an inbound listener no turn of a session calls
    [Enqueue].  Every property of the server that the other calls keep is
    kept by the turn, whatever [Enqueue] does. *)
Theorem inbound_never_relays (I : E -> Prop) st :
  respects be ex I -> reach st -> stMode (xSet st) = ModeInbound ->
  I (xEnv st) -> I (xEnv (turn be ex ip st).2).
Proof.
  intros ok [H1 H2 H3 H4 H5]%reach_sess_ok Hm Hi.
  assert (good I (fun _ => False) st) as Hg.
  { split; [|done]. split; [done|done|done| |congruence]. intros Ha. destruct (H4 Ha). congruence. }
  apply (good_turn be ex ip I ok (fun _ => False) ModeInbound) in Hg; [apply Hg|done|by intros ? ? ? []|done].
Qed.

(** C2. On submission every call of [Enqueue] names as sender a user whom
    [Authenticate] accepted: a property of the server that such calls and all
    the others keep is kept by every turn. *)
Theorem submission_sender_authenticated (I : E -> Prop) st :
  respects be ex I -> enqueue_allowed be I authenticated -> reach st ->
  I (xEnv st) -> I (xEnv (turn be ex ip st).2).
Proof.
  intros ok Henq Hr%reach_sess_ok Hi. assert (good I authenticated st) as Hg by by split.
  apply (good_turn be ex ip I ok authenticated (stMode (xSet st))) in Hg; [apply Hg| |done|done].
  intros f u p a e _ Hf Hn. by exists f, u, p, a, e.
Qed.
End Sessions.

(** ** A small server to run sessions on *)

(** What it has done: a relayed message with its sender, or a stored one. *)
Inductive deed := Relayed (from rcpt : str) | Stored (mailbox : str).
Definition log : Type := list deed.

Definition example_mailbox : Mailbox := mkMailbox #"u@b.c" #"/var/mail/u" 1 1.

Definition example_backend : Backend log := mkBackend
  (fun d e => (d =s #"b.c", e))
  (fun a e => (if a =s #"u@b.c" then Some (mkPlan [mkLocal example_mailbox []] [] true) else None, e))
  (fun mb from folder seen flagged msg e => (None, e ++ [Stored (mbEmail mb)]))
  None
  None
  (fun e => ([], e))
  (Some (fun u p addr e => (if (to_lower u =s #"u@b.c") && (p =s #"pw") then None else Some ErrInvalid, e)))
  (fun from rcpt msg e => (None, e ++ [Relayed from rcpt]))
  None None None None.

Definition example_services : Services log := mkServices
  (fun raw e => (Some raw, e)) (fun e => (0, e)) (fun e => ([], e)) (fun _ => None) (fun _ => None) (fun _ => #"now").

Definition example_settings (m : Mode) (tls : bool) : Settings :=
  mkSettings #"mx.b.c" 1000 10 m tls true None None None (mkIdentity false [] [] []) None.

(** A session whose client sends the lines. *)
Definition example_state (m : Mode) (tls : bool) (ls : list str) : state log :=
  mkState (newSession (example_settings m tls))
    (mkConn (mkReader [] (map (fun l => l ++ CRLF) ls)) [] None) (example_settings m tls) [].

Abbreviation example_turn := (fun st => (turn example_backend example_services #"192.0.2.1" st).2).
Fixpoint turns (n : nat) (st : state log) : state log :=
  match n with 0%nat => st | S k => example_turn (turns k st) end.

Lemma reach_turns n m tls ls :
  reach example_backend example_services #"192.0.2.1" (turns n (example_state m tls ls)).
Proof. induction n as [|n IH]; [apply reach_new|by apply reach_turn]. Qed.

Lemma example_respects (I : log -> Prop) :
  (forall e mb, I e -> I (e ++ [Stored mb])) -> respects example_backend example_services I.
Proof.
  intros H. split; intros; try (intros e He); try done; try (by apply H).
  match goal with Hn : Authenticate _ = Some _ |- _ => injection Hn as <- end. done.
Qed.

Definition inbound_lines : list str :=
  [ #"EHLO client"; #"MAIL FROM:<x@y.z>"; #"RCPT TO:<u@b.c>"; #"RCPT TO:<v@else.where>"].
Definition submission_lines : list str :=
  [ #"EHLO client"; #"AUTH PLAIN AHVAYi5jAHB3"; #"MAIL FROM:<u@b.c>"; #"RCPT TO:<v@else.where>"; #"DATA"; #"hi"; #"."].

(** The inbound session holds the local recipient only; the submission relays. *)
Example inbound_session_runs :
  let st := turns 4 (example_state ModeInbound false inbound_lines) in
  map rAddr (sRcpts (xSess st)) = [ #"u@b.c"] /\ List.last (cnOut (xConn st)) [] = #"554 5.7.1 relay access denied".
Proof. split; vm_compute; reflexivity. Qed.
Example submission_session_runs :
  xEnv (turns 5 (example_state ModeSubmission true submission_lines)) = [Relayed #"u@b.c" #"v@else.where"].
Proof. vm_compute. reflexivity. Qed.

Lemma session_invariant_witness :
  let st := turns 3 (example_state ModeInbound false inbound_lines) in
  let s := xSess st in
  (sFromSet s = true -> sHelo s <> []) /\
  (sRcpts s <> [] -> sFromSet s = true) /\
  (stMode (xSet st) = ModeInbound -> sAuthed s = [] /\ Forall (fun r => rRemote r = false) (sRcpts s)) /\
  (sAuthed s <> [] -> stMode (xSet st) = ModeSubmission /\ sTls s = true /\ authenticated example_backend (sAuthed s)) /\
  (stMode (xSet st) = ModeSubmission -> sFromSet s = true -> sAuthed s <> [] /\ sFrom s = sAuthed s).
Proof. apply (session_invariant example_backend example_services #"192.0.2.1"), reach_turns. Defined.

Definition relays_nothing (e : log) : Prop := Forall (fun d => match d with Relayed _ _ => False | Stored _ => True end) e.

Lemma inbound_never_relays_witness :
  relays_nothing (xEnv (example_turn (turns 3 (example_state ModeInbound false inbound_lines)))).
Proof.
  apply (inbound_never_relays example_backend example_services).
  - apply example_respects. intros e mb He. apply Forall_app. split; [exact He|by repeat constructor].
  - apply reach_turns.
  - vm_compute. reflexivity.
  - vm_compute. constructor.
Defined.

(** Everything relayed has the user as its sender. *)
Definition relays_for_user (e : log) : Prop :=
  Forall (fun d => match d with Relayed from _ => from = #"u@b.c" | Stored _ => True end) e.

Lemma submission_sender_authenticated_witness :
  relays_for_user (xEnv (example_turn (turns 4 (example_state ModeSubmission true submission_lines)))).
Proof.
  apply (submission_sender_authenticated example_backend example_services).
  - apply example_respects. intros e mb He. apply Forall_app. split; [exact He|by repeat constructor].
  - intros from a m (f & u & p & addr & e0 & [= <-] & Hv & ->) e He.
    apply Forall_app. split; [exact He|]. constructor; [|constructor].
    destruct (str_eqb_spec (to_lower u) #"u@b.c") as [E|N]; [exact E|]. apply str_eqb_neq in N.
    change ((if (to_lower u =s #"u@b.c") && (p =s #"pw") then None else Some ErrInvalid) = None) in Hv.
    rewrite N in Hv. discriminate Hv.
  - apply reach_turns.
  - vm_compute. constructor.
Defined.
