(* ===== verification/SmtpFlow.v ===== *)
(** * The flow of an SMTP session

    Lines and bodies as they come off the wire, the fresh start after
    STARTTLS, the reply to a message, and the end of every session. *)

From S2P Require Import Prelude GoStrings GoOS GoNet StateM Filter Config StorageResolver Routing RateLimit Governor Base64 Auth Stats Container Smtp SmtpProps.

(** ** Command lines *)

Lemma trim_right_crlf l : CR ∉ l -> LF ∉ l -> forall t, t ∈ [ [LF]; CRLF ] -> trim_right CRLF (l ++ t) = l.
Proof.
  intros HC HL t Ht. unfold trim_right, drop_while_end.
  assert (drop_while (fun c => existsb (Ascii.eqb c) CRLF) (rev (l ++ t)) = rev l) as ->; [|apply rev_involutive].
  assert (drop_while (fun c => existsb (Ascii.eqb c) CRLF) (rev (l ++ t)) =
          drop_while (fun c => existsb (Ascii.eqb c) CRLF) (rev l)) as ->.
  { rewrite rev_app_distr. apply elem_of_cons in Ht as [->|Ht]; [reflexivity|].
    apply list_elem_of_singleton in Ht as ->. reflexivity. }
  apply drop_while_id. intros x Hx. cbn [existsb CRLF]. rewrite orb_false_r.
  assert (x ∈ l) as Hin.
  { rewrite list_elem_of_In, in_rev, <- list_elem_of_In. destruct (rev l); [done|]. injection Hx as ->. by left. }
  apply orb_false_iff; split; apply Ascii.eqb_neq; intros ->; done.
Qed.

(** A line longer than the buffer is read to its end. *)
Lemma drain_line fuel l rest : forall rd,
  LF ∉ l -> (length (rdBuf rd) <= bufSize)%nat -> stream rd = l ++ LF :: rest -> (length l < fuel)%nat ->
  stream (drain fuel rd) = rest /\ (length (rdBuf (drain fuel rd)) <= bufSize)%nat.
Proof.
  revert l. induction fuel as [|fuel IH]; intros l rd Hl Hb Hs Hf; [lia|]. cbn [drain].
  pose proof (ReadSlice_spec bufSize rd Hb) as HR. destruct (ReadSlice bufSize rd) as [[a e] rd']. destruct HR as [HR Hb'].
  rewrite Hs in HR. pose proof bufSize_pos. destruct (decide (length l < bufSize)%nat) as [Hlt|Hge].
  - rewrite slice_of_line in HR by done. by injection HR as <- <- <-.
  - unfold slice_of in HR.
    assert (index_byte LF (take bufSize (l ++ LF :: rest)) = None) as Hi.
    { apply index_byte_None. rewrite take_app_le by lia. intros Hin. apply Hl.
      rewrite <- (take_drop bufSize l). apply elem_of_app. by left. }
    rewrite Hi in HR. rewrite (proj2 (Nat.leb_le _ _)) in HR by (rewrite length_app; lia).
    injection HR as <- <- Hs'. rewrite drop_app_le in Hs' by lia.
    apply (IH (drop bufSize l)); [| done | done | rewrite length_drop; lia].
    intros Hin. apply Hl. rewrite <- (take_drop bufSize l). apply elem_of_app. by right.
Qed.

Lemma maxLine_bufSize : (maxLine < bufSize)%nat.
Proof. unfold maxLine, bufSize. apply Z2Nat.inj_lt; lia. Qed.

(** A command line comes back without its line ending when it has at most
    2048 bytes, and is refused with a 500 otherwise; either way it is consumed
    to its end, however it was cut into segments, so that the next line starts
    a command. *)
Theorem readLine_spec {E} l rest (st : state E) :
  plain_line l -> (length (rdBuf (cnReader (xConn st))) <= bufSize)%nat ->
  stream (cnReader (xConn st)) = l ++ CRLF ++ rest ->
  exists rd, stream rd = rest /\ (length (rdBuf rd) <= bufSize)%nat /\
  readLine st =
    if Nat.leb (length l + 2) maxLine
    then (Some l, mkState (xSess st) (with_reader rd (xConn st)) (xSet st) (xEnv st))
    else answer #"500 5.5.2 line too long" (Some [])
           (mkState (xSess st) (with_reader rd (xConn st)) (xSet st) (xEnv st)).
Proof.
  intros [HC HL] Hb Hs. destruct st as [se [rd out wr] set env]. simpl in *.
  set (l' := l ++ [CR]). assert (stream rd = l' ++ LF :: rest) as Hs'
    by (rewrite Hs; unfold l'; by rewrite <- app_assoc).
  assert (LF ∉ l') as HL'. { unfold l'. rewrite elem_of_app, list_elem_of_singleton. by intros [|[=]]. }
  assert (length l' = S (length l)) as El by (unfold l'; rewrite length_app; simpl; lia).
  unfold readLine, mbind, SM_bind, on_conn. cbn [xConn cnReader xSess xSet xEnv].
  pose proof (ReadSlice_spec bufSize rd Hb) as HR. destruct (ReadSlice bufSize rd) as [[a e] rd1]. destruct HR as [HR Hb1].
  rewrite Hs' in HR. pose proof maxLine_bufSize. destruct (decide (length l' < bufSize)%nat) as [Hlt|Hge].
  - rewrite slice_of_line in HR by done. injection HR as <- <- Hr. exists rd1. split_and!; [done|done|].
    assert (Nat.ltb maxLine (length (l' ++ [LF])) = negb (Nat.leb (length l + 2) maxLine)) as ->.
    { rewrite Nat.leb_antisym, negb_involutive, length_app, El. f_equal. simpl. lia. }
    destruct (Nat.leb (length l + 2) maxLine); cbn [negb]; [|reflexivity]. unfold mret, SM_ret. do 3 f_equal.
    unfold l'. rewrite <- app_assoc. change ([CR] ++ [LF]) with CRLF. rewrite (trim_right_crlf l HC HL CRLF); [done|].
    apply elem_of_cons. right. by apply list_elem_of_singleton.
  - assert (e = Some ErrBufferFull /\ stream rd1 = drop bufSize l' ++ LF :: rest) as [-> Hs1].
    { unfold slice_of in HR.
      assert (index_byte LF (take bufSize (l' ++ LF :: rest)) = None) as Hi.
      { apply index_byte_None. rewrite take_app_le by lia. intros Hin. apply HL'.
        rewrite <- (take_drop bufSize l'). apply elem_of_app. by left. }
      rewrite Hi in HR. rewrite (proj2 (Nat.leb_le _ _)) in HR by (rewrite length_app; lia).
      injection HR as _ <- Hs1. by rewrite drop_app_le in Hs1 by lia. }
    rewrite (proj2 (Nat.leb_gt _ _)) by lia.
    destruct (drain_line (S (length (stream rd1))) (drop bufSize l') rest rd1) as [Hd Hbd]; [|done|done| |].
    { intros Hin. apply HL'. rewrite <- (take_drop bufSize l'). apply elem_of_app. by right. }
    { rewrite Hs1, length_app. lia. }
    exists (drain (S (length (stream rd1))) rd1). split_and!; done.
Qed.

(** ** Message bodies *)

Lemma add_cr_no_bare s : forall prev, has_bare_lf prev (add_cr prev s) = false.
Proof.
  induction s as [|c s IH]; intros prev; cbn [add_cr]; [done|].
  destruct (Ascii.eqb c LF && negb (bool_decide (prev = Some CR))) eqn:Eb.
  - apply andb_true_iff in Eb as [->%Ascii.eqb_eq _]. cbn [has_bare_lf]. rewrite IH. done.
  - cbn [has_bare_lf]. by rewrite Eb, IH.
Qed.

Lemma has_bare_lf_plain l t prev : plain_line l -> has_bare_lf prev (l ++ CRLF ++ t) = has_bare_lf (Some LF) t.
Proof.
  intros [HC HL]. revert prev. induction l as [|c l IH]; intros prev.
  - reflexivity.
  - rewrite not_elem_of_cons in HC, HL. destruct HC, HL. cbn [app has_bare_lf].
    destruct (Ascii.eqb_spec c LF) as [->|]; [done|]. simpl. by apply IH.
Qed.

Lemma add_cr_plain l t prev :
  plain_line l -> prev <> Some CR -> add_cr prev (l ++ LF :: t) = l ++ CRLF ++ add_cr (Some LF) t.
Proof.
  intros [HC HL]. revert prev. induction l as [|c l IH]; intros prev Hp.
  - cbn [app add_cr]. by rewrite Ascii.eqb_refl, bool_decide_eq_false_2.
  - rewrite not_elem_of_cons in HC, HL. destruct HC as [Hc HC], HL as [Hl HL]. cbn [app add_cr].
    destruct (Ascii.eqb_spec c LF) as [->|]; [done|]. simpl. f_equal. apply IH; [done|done|]. intros [= ->]. done.
Qed.

Lemma ensureCRLF_lines ls :
  Forall plain_line ls ->
  ensureCRLF (concat (map (fun l => l ++ [LF]) ls)) = concat (map (fun l => l ++ CRLF) ls).
Proof.
  intros HF.
  assert (forall prev, prev <> Some CR ->
    add_cr prev (concat (map (fun l => l ++ [LF]) ls)) = concat (map (fun l => l ++ CRLF) ls)) as HA.
  { induction HF as [|l ls Hl _ IH]; intros prev Hp; cbn [map concat]; [done|].
    rewrite <- app_assoc. change ([LF] ++ concat (map (fun l => l ++ [LF]) ls)) with (LF :: concat (map (fun l => l ++ [LF]) ls)).
    rewrite add_cr_plain by done. rewrite IH by done. by rewrite <- app_assoc. }
  unfold ensureCRLF. destruct (has_bare_lf None _) eqn:Eb; [by apply HA|].
  destruct HF as [|l ls [HC HL] _]; [done|]. exfalso. clear HA. cbn [map concat] in Eb.
  rewrite <- app_assoc in Eb.
  assert (forall prev, prev <> Some CR -> has_bare_lf prev (l ++ [LF] ++ concat (map (fun l => l ++ [LF]) ls)) = true) as HB.
  { clear Eb. induction l as [|c l IH]; intros prev Hp.
    - cbn [app has_bare_lf]. by rewrite Ascii.eqb_refl, bool_decide_eq_false_2.
    - rewrite not_elem_of_cons in HC, HL. destruct HC, HL. cbn [app has_bare_lf].
      rewrite IH; [apply orb_true_r|done|done|]. congruence. }
  by rewrite HB in Eb.
Qed.

(** Normalising line endings leaves no bare LF, changes nothing in a text
    that has none, and is idempotent. *)
Theorem ensureCRLF_canonical s :
  has_bare_lf None (ensureCRLF s) = false /\
  (has_bare_lf None s = false -> ensureCRLF s = s) /\
  ensureCRLF (ensureCRLF s) = ensureCRLF s.
Proof.
  assert (has_bare_lf None (ensureCRLF s) = false) as H.
  { unfold ensureCRLF. destruct (has_bare_lf None s) eqn:E; [apply add_cr_no_bare|done]. }
  split_and!; [done| |]; unfold ensureCRLF at 1; [by intros ->|by rewrite H].
Qed.

(** The lines of a message that a client sends dot-encoded after DATA are
    stored exactly, each ended by CRLF, and the bytes that follow the final
    dot are the next command. *)
Theorem data_roundtrip {E} ls rest (st : state E) :
  Forall plain_line ls -> (length (rdBuf (cnReader (xConn st))) <= bufSize)%nat ->
  stream (cnReader (xConn st)) = dot_stuff ls ++ rest ->
  exists raw rd,
    read_body st = (Some raw, mkState (xSess st) (with_reader rd (xConn st)) (xSet st) (xEnv st)) /\
    ensureCRLF raw = concat (map (fun l => l ++ CRLF) ls) /\ stream rd = rest.
Proof.
  intros HF Hb Hs. unfold read_body, on_conn.
  pose proof (ReadDot_spec bufSize (cnReader (xConn st)) bufSize_pos Hb) as HR.
  rewrite Hs, dot_bytes_stuff in HR by done. destruct (ReadDot bufSize _) as [[body rd]|]; [|done].
  destruct HR as [[= <- Hr] _]. eexists _, rd. split_and!; [done|by apply ensureCRLF_lines|done].
Qed.

(** A body also ends at a dot between bare LFs, although the reply to DATA
    asks for CRLF on both sides: what follows is run as commands. *)
Example bare_lf_ends_data :
  dot_bytes BeginLine (#"Subject: x" ++ [LF] ++ #"." ++ [LF] ++ #"MAIL FROM:<root@localhost>" ++ CRLF)
  = Some (#"Subject: x" ++ [LF], #"MAIL FROM:<root@localhost>" ++ CRLF).
Proof. vm_compute. reflexivity. Qed.

(** ** STARTTLS *)

Section Flow.
Context {E : Type} (be : Backend E) (ex : Services E) (ip : str).

(** C31. After STARTTLS nothing of the plaintext phase is left: the session is as
    new but encrypted, and the bytes to come are exactly those of the TLS
    stream, whatever the client had sent ahead in clear. *)
Theorem starttls_fresh st :
  reach be ex ip st -> sTls (xSess st) = false ->
  sTls (xSess (cmdStartTLS ex st).2) = true ->
  let st' := (cmdStartTLS ex st).2 in
  (cmdStartTLS ex st).1 = false /\
  xSess st' = mkSession [] true [] [] false [] /\
  exists clear, (handshake ex (rdIn (cnReader (xConn st))) (xEnv st)).1 = Some clear /\
                cnReader (xConn st') = mkReader [] clear.
Proof.
  intros Hr Ht. apply session_invariant in Hr as (_ & _ & _ & Ha & _).
  assert (sAuthed (xSess st) = []) as Hn.
  { destruct (str_eqb_spec (sAuthed (xSess st)) []) as [|Hn]; [done|].
    destruct (Ha Hn) as (_ & H & _). congruence. }
  destruct st as [[he tl au fr fs rs] [rd out wr] set env]. simpl in *. subst tl au.
  unfold cmdStartTLS, mbind, SM_bind, settings, sess, answer, reply, on_conn, mret, SM_ret, write_lines. simpl.
  destruct (stTLS set); simpl; destruct wr as [[|n]|]; simpl; try done;
    unfold on_env; simpl; destruct (handshake ex (rdIn rd) env) as [[clear|] e]; simpl; try done;
    intros _; (split_and!; [done|done|by exists clear]).
Qed.

(** ** Every session ends *)

Notation tame := (@tame E).

Lemma tame_quiet {A} (m : P E A) : keeps (quiet (fun _ => True)) m -> keeps tame m.
Proof. apply keeps_weaken, quiet_tame. Qed.

Lemma tame_set_sess f : (forall s, sTls (f s) = sTls s) -> keeps tame (set_sess f).
Proof. intros Hf st. split_and!; [apply Hf|simpl; reflexivity|simpl; reflexivity]. Qed.

Let respects_any := respects_true be ex.

Lemma tame_answer {A} line (a : A) : keeps tame (answer line a).
Proof. apply tame_quiet, quiet_answer. Qed.
Lemma tame_reset : keeps tame resetTransaction.
Proof. by apply tame_set_sess. Qed.
Lemma tame_set_from a : keeps tame (set_from a).
Proof. by apply tame_set_sess. Qed.
Lemma tame_add_rcpt r : keeps tame (add_rcpt r).
Proof. by apply tame_set_sess. Qed.
Lemma tame_env {A} (f : E -> A * E) : keeps tame (on_env f).
Proof. apply tame_quiet, quiet_inner, inner_env. by intros e _. Qed.
Lemma tame_count f : keeps tame (count f).
Proof. apply tame_quiet, quiet_count. Qed.
Lemma tame_inner {A} (m : P E A) : keeps (inner (fun _ => True)) m -> keeps tame m.
Proof. intros H. by apply tame_quiet, quiet_inner. Qed.
#[local] Hint Resolve tame_answer tame_reset tame_set_from tame_add_rcpt tame_env tame_count : session.

Lemma tame_end_transaction line : keeps tame (end_transaction line).
Proof. unfold end_transaction. keeps_auto. Qed.
#[local] Hint Resolve tame_end_transaction : session.

Lemma tame_cmdHelo arg ext : keeps tame (cmdHelo be arg ext).
Proof.
  unfold cmdHelo. destruct (_ =s _); [keeps_auto|].
  apply keeps_bind; [exact _|by apply tame_set_sess|intros _]. keeps_auto. apply tame_quiet, quiet_write.
Qed.

Lemma tame_cmdMail arg : keeps tame (cmdMail arg).
Proof. unfold cmdMail. keeps_auto. Qed.

Lemma tame_cmdRcpt arg : keeps tame (cmdRcpt be ex ip arg).
Proof.
  pose proof (fun a => tame_inner _ (inner_rcpt_address be ex _ respects_any a)).
  pose proof (fun b => tame_inner _ (inner_rcpt_refused be ex ip _ respects_any b)).
  pose proof (fun f => tame_inner _ (inner_governor be ex _ respects_any f)).
  unfold cmdRcpt. keeps_auto.
Qed.

Lemma tame_auth_verdict f cred : keeps tame (auth_verdict ip f cred).
Proof.
  unfold auth_verdict. apply keeps_bind; [exact _|auto with session|intros [[]|]]; [keeps_auto|keeps_auto|].
  apply keeps_bind; [exact _|by apply tame_set_sess|intros _]. keeps_auto.
Qed.
#[local] Hint Resolve tame_auth_verdict : session.

Lemma tame_cmdAuth arg : keeps tame (cmdAuth be ip arg).
Proof.
  pose proof (fun i => tame_quiet _ (quiet_authPlain (fun _ : E => True) i)).
  pose proof (tame_quiet _ (quiet_authLogin (fun _ : E => True))).
  unfold cmdAuth. keeps_auto.
Qed.

Lemma tame_deliver_all spam msg rs : forall n over, keeps tame (deliver_all be ex spam msg rs n over).
Proof.
  intros n over. apply tame_inner. intros st.
  apply (inner_deliver_all be ex _ respects_any (fun _ => True)); [by intros ? ? ? _ ? _|].
  apply Forall_true. intros r. by right.
Qed.
#[local] Hint Resolve tame_deliver_all : session.

Lemma tame_cmdData : keeps tame (cmdData be ex ip).
Proof.
  pose proof (fun set => tame_inner _ (inner_data_refused be ex ip _ respects_any set)).
  pose proof (fun l => tame_quiet _ (quiet_reply (fun _ : E => True) l)).
  pose proof (tame_quiet _ (quiet_read_body (fun _ : E => True))).
  pose proof (fun set b => tame_inner _ (inner_screen be ex ip _ respects_any set b)).
  pose proof (fun b x => tame_inner _ (inner_assemble be ex ip _ respects_any b x)).
  pose proof (fun set m => tame_inner _ (inner_sign be ex _ respects_any set m)).
  pose proof (fun set => tame_inner _ (inner_accepted_hooks be ex _ respects_any set)).
  unfold cmdData, accept_message. keeps_auto.
Qed.

Definition buf_ok (st : state E) : Prop := (length (rdBuf (cnReader (xConn st))) <= bufSize)%nat.
Definition left (st : state E) : nat := length (stream (cnReader (xConn st))).

Lemma tame_going_on {A} (m : P E A) : keeps tame m -> keeps tame (going_on m).
Proof. intros Hm. unfold going_on. keeps_auto. Qed.

Section Turns.
(** What a client can send once the channel is encrypted. *)
Context (c : nat)
  (tls_octets : forall raw e clear e', handshake ex raw e = (Some clear, e') -> (length (concat clear) <= c)%nat).

(** The effect of a handler: it ends the session, or it is tame, or it starts
    the encrypted phase. *)
Definition effect (m : P E bool) (st : state E) : Prop :=
  let '(quit, st') := m st in
  quit = true \/ tame st st' \/
  (sTls (xSess st) = false /\ sTls (xSess st') = true /\ buf_ok st' /\ (left st' <= c)%nat).

Lemma effect_tame m st : keeps tame m -> effect m st.
Proof. intros Hm. specialize (Hm st). unfold effect. destruct (m st). by right; left. Qed.

Lemma cmdStartTLS_effect st : buf_ok st -> effect (cmdStartTLS ex) st.
Proof.
  intros Hb. pose proof (effect_tame _ st (tame_answer #"454 4.7.0 TLS not available" false)) as H1.
  pose proof (effect_tame _ st (tame_answer #"503 5.5.1 already in TLS" false)) as H2.
  unfold effect in *. unfold cmdStartTLS, mbind, SM_bind, settings, sess.
  destruct (negb (stTLS (xSet st))); [exact H1|].
  destruct (sTls (xSess st)) eqn:Et; [exact H2|]. clear H1 H2.
  destruct (reply _ st) as [b st1]. destruct (negb b); [by left|]. unfold on_conn, on_env. simpl.
  destruct (handshake ex _ _) as [[clear|] e] eqn:Eh; simpl; [|by left].
  right; right. split_and!; [done|done|unfold buf_ok; simpl; lia|].
  unfold left. cbn. by eapply tls_octets.
Qed.

Lemma dispatch_effect cmd arg st : buf_ok st -> effect (dispatch be ex ip cmd arg) st.
Proof.
  intros Hb. unfold dispatch. cbv zeta.
  repeat match goal with |- effect (if ?b then _ else _) st => destruct b end;
    try solve [ apply effect_tame, tame_answer | apply effect_tame, tame_cmdHelo | apply effect_tame, tame_cmdData
              | apply effect_tame, tame_going_on, tame_cmdMail | apply effect_tame, tame_going_on, tame_cmdRcpt
              | apply effect_tame, tame_going_on, tame_cmdAuth | by apply cmdStartTLS_effect ].
  - apply effect_tame. keeps_auto.
  - apply effect_tame. keeps_auto.
Qed.

(** Reading a line consumes something. *)
Lemma ReadSlice_consumes rd l e rd' :
  (length (rdBuf rd) <= bufSize)%nat -> ReadSlice bufSize rd = (l, e, rd') ->
  e <> Some ErrRead \/ (maxLine < length l)%nat -> (length (stream rd') < length (stream rd))%nat.
Proof.
  intros Hb HR He. pose proof (ReadSlice_spec bufSize rd Hb) as H. rewrite HR in H. destruct H as [H _].
  assert (0 < length l)%nat as Hl.
  { unfold slice_of in H. pose proof bufSize_pos. destruct (index_byte LF _) as [i|] eqn:Ei.
    - injection H as <- _ _. apply index_byte_lt in Ei. rewrite length_take in *. lia.
    - destruct (Nat.leb_spec bufSize (length (stream rd))); injection H as <- <- _; [rewrite length_take; lia|].
      destruct He as [He|He]; [done|]. pose proof maxLine_bufSize. lia. }
  apply slice_of_split in H. rewrite H, length_app. lia.
Qed.

Lemma readLine_consumes st :
  buf_ok st ->
  let '(l, st') := readLine (E := E) st in
  l = None \/ (left st' < left st)%nat /\ buf_ok st' /\ sTls (xSess st') = sTls (xSess st).
Proof.
  intros Hb. unfold readLine, mbind at 1, SM_bind at 1, on_conn at 1.
  destruct (ReadSlice bufSize (cnReader (xConn st))) as [[l e] rd] eqn:ER.
  pose proof (ReadSlice_consumes _ _ _ _ Hb ER) as HC. destruct (ReadSlice_le _ _ _ _ ER Hb) as [Hb1 _].
  set (st1 := mkState (xSess st) (with_reader rd (xConn st)) (xSet st) (xEnv st)).
  assert (forall m : P E (option str), keeps tame m -> (left st1 < left st)%nat ->
    let '(r, st') := m st1 in
    r = None \/ (left st' < left st)%nat /\ buf_ok st' /\ sTls (xSess st') = sTls (xSess st)) as HT.
  { intros m Hm Hlt. specialize (Hm st1). destruct (m st1) as [r st']. destruct Hm as (Ht & Hr & _).
    destruct (Hr Hb1) as [? ?]. right. split_and!; [unfold left, st1 in *; simpl in *; lia|done|done]. }
  cbv zeta. destruct e as [[]|].
  - apply HT; [|apply HC; by left].
    apply keeps_bind; [exact _|apply tame_quiet, quiet_conn; intros x; apply drain_le|intros; apply tame_answer].
  - destruct (Nat.ltb_spec maxLine (length l)); [|by left]. apply HT; [apply tame_answer|apply HC; by right].
  - destruct (Nat.ltb maxLine (length l)); (apply HT; [keeps_auto|apply HC; by left]).
Qed.

(** A turn ends the session, or starts the encrypted phase, or consumes
    input. *)
Lemma turn_progress st :
  buf_ok st ->
  let '(quit, st') := turn be ex ip st in
  quit = true \/
  buf_ok st' /\ ((sTls (xSess st) = false /\ sTls (xSess st') = true /\ (0 < left st)%nat /\ (left st' <= c)%nat) \/
                 (sTls (xSess st') = sTls (xSess st) /\ (left st' < left st)%nat)).
Proof.
  intros Hb. unfold turn, mbind at 1, SM_bind at 1. pose proof (readLine_consumes st Hb) as HR.
  destruct (readLine st) as [l st1]. destruct HR as [->|(Hlt & Hb1 & Ht)]; [by left|].
  destruct l as [[|x l]|]; [right; auto| |by left].
  destruct (cut SP (x :: l)) as [[cmd arg] b]. pose proof (dispatch_effect cmd arg st1 Hb1) as HD. unfold effect in HD.
  destruct (dispatch be ex ip cmd arg st1) as [quit st2].
  destruct HD as [->|[(Ht2 & Hr & _)|(H1 & H2 & H3 & H4)]]; [by left| |].
  - destruct (Hr Hb1) as [Hb2 Hs2]. right. split; [done|]. right. split; [congruence|unfold left in *; lia].
  - right. split; [done|]. left. split_and!; [congruence|done|lia|done].
Qed.

(** What a session can still be sent. *)
Definition ahead (st : state E) : nat := (left st + if sTls (xSess st) then 0 else c)%nat.

Lemma run_loop_ends n : forall st,
  buf_ok st -> (ahead st < n)%nat -> (run_loop be ex ip n st).1 = true.
Proof.
  induction n as [|n IH]; intros st Hb Hn; [lia|].
  cbn [run_loop]. unfold mbind, SM_bind. pose proof (turn_progress st Hb) as HT.
  destruct (turn be ex ip st) as [quit st1]. destruct quit; [done|].
  destruct HT as [|(Hb1 & HT)]; [done|]. apply IH; [done|]. unfold ahead in *.
  destruct HT as [(H1 & H2 & H3 & H4)|[H1 H2]]; [rewrite H2; rewrite H1 in Hn; lia|rewrite H1; lia].
Qed.

Lemma run_loop_more n : forall m st,
  (run_loop be ex ip n st).1 = true -> (n <= m)%nat -> run_loop be ex ip m st = run_loop be ex ip n st.
Proof.
  induction n as [|n IH]; intros m st H Hm; [done|]. destruct m as [|m]; [lia|].
  revert H. cbn [run_loop]. unfold mbind, SM_bind. destruct (turn be ex ip st) as [[] st1]; [done|].
  intros H. apply IH; [done|lia].
Qed.

(** C37. A session makes at most one turn for each octet its client sends and
    one more, whatever the octets are, in clear or, at most [c] of them, under
    TLS, and whatever the back end answers: no turn goes by without the client
    having sent something, so that a session lasts only as long as its client
    sends, and ends when the reader reports the end of the connection or the
    deadline.  From that number of turns on the loop has stopped, with one
    and the same result. *)
Theorem run_terminates st :
  buf_ok st ->
  let n := S (left st + if sTls (xSess st) then 0 else c) in
  (run be ex ip n st).1 = true /\ forall m, (n <= m)%nat -> run be ex ip m st = run be ex ip n st.
Proof.
  intros Hb n. unfold run, mbind, SM_bind, settings.
  pose proof (quiet_reply (fun _ => True) (#"220 " ++ stHostname (xSet st) ++ #" ESMTP Verta") st) as (Hs & Hr & _).
  destruct (reply _ st) as [b st1]. cbn [snd] in *. destruct (Hr Hb) as [Hb1 Hle]. destruct (negb b); [done|].
  assert ((run_loop be ex ip n st1).1 = true) as Hn.
  { apply run_loop_ends; [done|]. unfold ahead, n, left in *. rewrite Hs. lia. }
  split; [done|]. intros m Hm. by apply run_loop_more.
Qed.
End Turns.

(** ** The reply to a message *)

(** What the deliveries to the recipients return, one after the other. *)
Fixpoint outcomes (spam : bool) (msg : str) (rs : list rcpt) (st : state E) : list (option delivery_error) :=
  match rs with
  | [] => []
  | r :: rest => let '(o, st') := deliver_one be ex spam msg r st in o :: outcomes spam msg rest st'
  end.

Definition delivered (o : option delivery_error) : bool := match o with None => true | Some _ => false end.
Definition over_quota (o : option delivery_error) : bool := match o with Some OverQuota => true | _ => false end.

Definition verdict_line (outs : list (option delivery_error)) : str :=
  if existsb delivered outs then #"250 2.0.0 OK message accepted for delivery"
  else if existsb over_quota outs then #"452 4.2.2 over quota, try again later"
  else #"451 4.3.0 delivery failed, try again later".

Lemma deliver_all_outcomes spam msg rs : forall n over st,
  (deliver_all be ex spam msg rs n over st).1 =
  ((n + length (List.filter delivered (outcomes spam msg rs st)))%nat,
   over || existsb over_quota (outcomes spam msg rs st)).
Proof.
  induction rs as [|r rs IH]; intros n over st; cbn [deliver_all outcomes].
  - simpl. by rewrite Nat.add_0_r, orb_false_r.
  - unfold mbind, SM_bind. destruct (deliver_one be ex spam msg r st) as [o st1].
    destruct o as [[]|]; rewrite IH; simpl; f_equal; try lia.
Qed.

Lemma filter_delivered outs :
  Nat.eqb (length (List.filter delivered outs)) 0 = negb (existsb delivered outs).
Proof. induction outs as [|[e|] outs IH]; simpl; done. Qed.

(** The transaction that [st] was in has ended with one reply. *)
Definition closed_with (line : str) (st : state E) (r : bool * state E) : Prop :=
  r.1 = false /\
  xSess r.2 = mkSession (sHelo (xSess st)) (sTls (xSess st)) (sAuthed (xSess st)) [] false [] /\
  cnOut (xConn r.2) = cnOut (xConn st) ++ [line].

Lemma end_transaction_closes line st0 st :
  cnWrites (xConn st0) = None -> xSess st = xSess st0 -> xConn st = xConn st0 ->
  closed_with line st0 (end_transaction line st).
Proof.
  destruct st as [se [rd out wr] set env], st0 as [se0 [rd0 out0 wr0] set0 env0]. simpl.
  intros -> -> [= -> -> ->]. done.
Qed.

(** An operation on the rest of the server, seen from the session. *)
Lemma step_inner {A} (m : P E A) st :
  keeps (inner (fun _ => True)) m -> exists a st', m st = (a, st') /\ xSess st' = xSess st /\ xConn st' = xConn st.
Proof.
  intros Hm. specialize (Hm st). destruct (m st) as [a st']. destruct Hm as (?&?&_). by exists a, st'.
Qed.

(** What the screening hook answers on a message of the inbound listener;
    submissions are not screened. *)
Definition hook_answer (set : Settings) (raw : str) (st : state E) : option (ScreenResult * E) :=
  match stMode set, Screen be with
  | ModeInbound, Some f => Some (f ip (sHelo (xSess st)) (sFrom (xSess st)) (ensureCRLF raw) (xEnv st))
  | _, _ => None
  end.
Definition refused_by_hook (a : option (ScreenResult * E)) : option str :=
  match a with
  | Some (r, _) => match srAction r with ScreenReject => Some (srReason r) | _ => None end
  | None => None
  end.
Definition quarantined (a : option (ScreenResult * E)) : bool :=
  match a with
  | Some (r, _) => match srAction r with ScreenQuarantine => true | _ => false end
  | None => false
  end.
Definition stamps (a : option (ScreenResult * E)) : str :=
  match a with Some (r, _) => srAuthResults r ++ srSpamHeader r | None => [] end.

(** The message that is delivered, its trace and its signature made, and the
    state the deliveries start in. *)
Definition prepared (set : Settings) (raw : str) (st : state E) : str * state E :=
  let st1 := (screen be ip set (ensureCRLF raw) st).2 in
  let '(msg, st2) := assemble ex ip (ensureCRLF raw) (stamps (hook_answer set raw st)) st1 in
  sign be set msg st2.

Lemma screen_answer set raw st :
  (screen be ip set (ensureCRLF raw) st).1 =
  match refused_by_hook (hook_answer set raw st) with
  | Some reason => inl reason
  | None => inr (quarantined (hook_answer set raw st), stamps (hook_answer set raw st))
  end.
Proof.
  unfold screen, hook_answer, is_submission. destruct (stMode set); [|done]. destruct (Screen be) as [f|]; [|done].
  unfold mbind, SM_bind, sess, on_env. destruct (f _ _ _ _ _) as [r e].
  unfold refused_by_hook, quarantined, stamps. by destruct (srAction r).
Qed.

(** A refusal costs the rest of the server nothing but the hook's work. *)
Lemma screen_rejects_env set raw st reason :
  refused_by_hook (hook_answer set raw st) = Some reason ->
  snd <$> hook_answer set raw st = Some (xEnv (screen be ip set (ensureCRLF raw) st).2).
Proof.
  unfold screen, hook_answer, is_submission. destruct (stMode set); [|done]. destruct (Screen be) as [f|]; [|done].
  unfold mbind, SM_bind, sess, on_env. destruct (f _ _ _ _ _) as [r e]. unfold refused_by_hook.
  by destruct (srAction r).
Qed.

Lemma env_end_transaction line (st : state E) : xEnv (end_transaction line st).2 = xEnv st.
Proof.
  unfold end_transaction, mbind, SM_bind, resetTransaction, set_sess, answer, reply, mbind, SM_bind, on_conn.
  cbn [xEnv snd]. by destruct (write_lines _ _).
Qed.

(** The line that answers the message. *)
Definition data_line (set : Settings) (raw : str) (st : state E) : str :=
  match refused_by_hook (hook_answer set raw st) with
  | Some reason => #"550 5.7.1 " ++ reason
  | None =>
      let '(msg, st') := prepared set raw st in
      verdict_line (outcomes (quarantined (hook_answer set raw st)) msg (sRcpts (xSess st)) st')
  end.

(** C25. A received message is answered by exactly one line, and the transaction
    is over.  If the screening hook of the inbound listener rejects it, the
    line is the refusal with the hook's reason and the rest of the server is
    as the hook left it: nobody got the message.  Otherwise the message is
    delivered, marked as spam exactly if the hook said so, to the recipients
    in turn, and the line is 250 exactly if one of them was served, and a
    temporary error if none was. *)
Theorem data_verdict set raw st :
  cnWrites (xConn st) = None ->
  closed_with (data_line set raw st) st (accept_message be ex ip set raw st) /\
  (forall reason, refused_by_hook (hook_answer set raw st) = Some reason ->
     snd <$> hook_answer set raw st = Some (xEnv (accept_message be ex ip set raw st).2)).
Proof.
  intros Hw. unfold accept_message, data_line, prepared. cbv zeta. unfold mbind, SM_bind, sess.
  pose proof (screen_answer set raw st) as HR. pose proof (screen_rejects_env set raw st) as HE.
  destruct (step_inner _ st (inner_screen be ex ip _ respects_any set (ensureCRLF raw))) as (v & st1 & Hv & Hs1 & Hc1).
  rewrite Hv in *. cbn [fst snd] in *. subst v. destruct (refused_by_hook _) as [reason|].
  { split; [by apply end_transaction_closes|]. intros reason' E'. rewrite env_end_transaction. by eapply HE. }
  split; [|done].
  destruct (step_inner _ st1 (inner_assemble be ex ip _ respects_any (ensureCRLF raw) (stamps (hook_answer set raw st))))
    as (m & st2 & -> & Hs2 & Hc2).
  destruct (step_inner _ st2 (inner_sign be ex _ respects_any set m)) as (m' & st3 & -> & Hs3 & Hc3).
  set (spam := quarantined _) in *.
  pose proof (deliver_all_outcomes spam m' (sRcpts (xSess st3)) 0 false st3) as HD.
  pose proof (inner_deliver_all be ex _ respects_any (fun _ => True) spam m' (sRcpts (xSess st3)) 0 false st3
    ltac:(by intros ? ? ? _ ? _) ltac:(by apply Forall_true; right)) as (Hs4 & Hc4 & _).
  destruct (deliver_all be ex spam m' _ 0 false st3) as [[acc over] st4]. injection HD as -> ->.
  simpl in Hs4, Hc4. rewrite filter_delivered.
  assert (sRcpts (xSess st3) = sRcpts (xSess st)) as Er by congruence. rewrite Er.
  unfold verdict_line. destruct (existsb delivered _); cbn [negb].
  - destruct (step_inner _ st4 (inner_accepted_hooks be ex _ respects_any set)) as ([] & st5 & -> & Hs5 & Hc5).
    apply end_transaction_closes; congruence.
  - destruct (existsb over_quota _); apply end_transaction_closes; congruence.
Qed.
End Flow.

(** ** On the example server *)

Definition one_segment (s : str) : state log :=
  mkState (newSession (example_settings ModeInbound false)) (mkConn (mkReader [] [s]) [] None)
    (example_settings ModeInbound false) [].

Lemma plain_line_dec l : forallb (fun c => negb (Ascii.eqb c CR || Ascii.eqb c LF)) l = true -> plain_line l.
Proof.
  intros H. rewrite forallb_forall in H. split; intros Hin; apply list_elem_of_In in Hin; by specialize (H _ Hin).
Qed.

Lemma readLine_spec_witness :
  exists rd, stream rd = #"QUIT" ++ CRLF /\ (length (rdBuf rd) <= bufSize)%nat /\
  readLine (one_segment (#"NOOP" ++ CRLF ++ #"QUIT" ++ CRLF)) =
    (Some #"NOOP", mkState (newSession (example_settings ModeInbound false)) (mkConn rd [] None)
                     (example_settings ModeInbound false) []).
Proof.
  destruct (readLine_spec #"NOOP" (#"QUIT" ++ CRLF) (one_segment (#"NOOP" ++ CRLF ++ #"QUIT" ++ CRLF)))
    as (rd & H1 & H2 & H3).
  - apply plain_line_dec. reflexivity.
  - apply Nat.le_0_l.
  - reflexivity.
  - exists rd. split; [exact H1|split; [exact H2|exact H3]].
Defined.

Lemma data_roundtrip_witness :
  exists raw rd,
    read_body (one_segment (dot_stuff [ #"Hello"; #".dot"; []] ++ #"QUIT" ++ CRLF)) =
      (Some raw, mkState (newSession (example_settings ModeInbound false)) (mkConn rd [] None)
                   (example_settings ModeInbound false) []) /\
    ensureCRLF raw = #"Hello" ++ CRLF ++ #".dot" ++ CRLF ++ CRLF /\ stream rd = #"QUIT" ++ CRLF.
Proof.
  destruct (data_roundtrip [ #"Hello"; #".dot"; []] (#"QUIT" ++ CRLF)
    (one_segment (dot_stuff [ #"Hello"; #".dot"; []] ++ #"QUIT" ++ CRLF))) as (raw & rd & H1 & H2 & H3).
  - repeat (constructor; [apply plain_line_dec; reflexivity|]). constructor.
  - apply Nat.le_0_l.
  - vm_compute. reflexivity.
  - exists raw, rd. split; [exact H1|split; [exact H2|exact H3]].
Defined.

(** A session that has read STARTTLS, and in the same segment a command sent in
    clear behind it. *)
Definition injected : state log :=
  let set := mkSettings #"mx.b.c" 1000 10 ModeInbound false true None None None (mkIdentity false [] [] []) None in
  mkState (newSession set)
    (mkConn (mkReader (#"MAIL FROM:<evil@x.y>" ++ CRLF) [ #"EHLO a" ++ CRLF]) [] None) set [].

Lemma starttls_fresh_witness :
  exists clear, (handshake example_services [ #"EHLO a" ++ CRLF] []).1 = Some clear /\
                cnReader (xConn (cmdStartTLS example_services injected).2) = mkReader [] clear.
Proof.
  apply (starttls_fresh example_backend example_services #"192.0.2.1" injected).
  - apply reach_new.
  - reflexivity.
  - vm_compute. reflexivity.
Defined.

(** Services under which a client sends at most forty octets under TLS: the
    session that it opens with thirty in clear is over after seventy-one
    turns. *)
Definition brief_services : Services log :=
  mkServices (fun raw e => (Some [take 40 (concat raw)], e)) (clock example_services) (range_order example_services)
    (ParseIP example_services) (readMessage example_services) (rfc1123z example_services).

Lemma run_terminates_witness :
  let n := S (left injected + 40) in
  n = 71%nat /\ (run example_backend brief_services #"192.0.2.1" n injected).1 = true.
Proof.
  split; [by vm_compute|].
  refine (proj1 (run_terminates example_backend brief_services #"192.0.2.1" 40 _ injected _)).
  - intros raw e clear e' E. injection E as <- _. cbn [concat]. rewrite app_nil_r, length_take. apply Nat.le_min_l.
  - apply Nat.leb_le. vm_compute. reflexivity.
Defined.

Definition with_rcpts : state log :=
  let st := one_segment [] in
  mkState (mkSession #"client" false [] #"x@y.z" true
             [mkRcpt #"u@b.c" false #"b.c" (mkPlan [mkLocal example_mailbox []] [] true)])
    (xConn st) (xSet st) [].

(** A server whose screening rejects what mentions a virus, and files what
    mentions an offer as spam; it notes the folders it stores to. *)
Definition screening_backend : Backend log :=
  let b := example_backend in
  mkBackend (IsLocalDomain b) (Route b)
    (fun mb from folder seen flagged msg e => (None, e ++ [Stored folder]))
    (Quota b) (ForwardHook b) (Postmaster b) (Authenticate b) (EnqueueHook b)
    (Some (fun _ _ _ body e =>
       (if contains #"virus" body then mkScreen ScreenReject #"message contains a virus" [] []
        else if contains #"offer" body then mkScreen ScreenQuarantine [] [] (#"X-Spam: yes" ++ CRLF)
        else mkScreen ScreenAccept [] [] [], e)))
    None None None.

Lemma data_verdict_witness :
  let accept raw := accept_message screening_backend example_services #"192.0.2.1" (xSet with_rcpts) raw with_rcpts in
  closed_with #"550 5.7.1 message contains a virus" with_rcpts (accept #"a virus") /\
  xEnv (accept #"a virus").2 = [] /\
  closed_with #"250 2.0.0 OK message accepted for delivery" with_rcpts (accept #"hi") /\
  xEnv (accept #"an offer").2 = [Stored #"Spam"].
Proof.
  pose proof (data_verdict screening_backend example_services #"192.0.2.1" (xSet with_rcpts) #"a virus" with_rcpts
    eq_refl) as [H1 H2].
  pose proof (data_verdict screening_backend example_services #"192.0.2.1" (xSet with_rcpts) #"hi" with_rcpts
    eq_refl) as [H3 _].
  cbv zeta. split; [exact H1|]. split; [|split; [exact H3|vm_compute; reflexivity]].
  specialize (H2 #"message contains a virus" ltac:(vm_compute; reflexivity)).
  change (Some [] = Some (xEnv (accept_message screening_backend example_services #"192.0.2.1" (xSet with_rcpts)
    #"a virus" with_rcpts).2)) in H2. congruence.
Defined.
