(* ===== verification/GoValues.v ===== *)
(** * Values as a configuration writes them: [time.ParseDuration], [net.SplitHostPort]

    The two parsers of the standard library that read durations and listen
    addresses.  The [float64] arithmetic of a fraction is exact here. *)

From S2P Require Import Prelude GoStrings.
From Stdlib Require Import QArith Qround.

#[global] Open Scope Z_scope.

(** ** Durations *)

(** [leadingInt]: an overflow is an error. *)
Fixpoint leadingInt (x : Z) (s : str) : option (Z * str) :=
  match s with
  | c :: r =>
      if is_digit c then
        if 2 ^ 63 / 10 <? x then None
        else
          let x := x * 10 + Z.of_N (digit_value c) in
          if 2 ^ 63 <? x then None else leadingInt x r
      else Some (x, s)
  | [] => Some (x, [])
  end.

(** [leadingFraction]: the value and its scale; digits that no longer fit are
    dropped. *)
Fixpoint leadingFraction (x scale : Z) (overflow : bool) (s : str) : Z * Z * str :=
  match s with
  | c :: r =>
      if is_digit c then
        if overflow then leadingFraction x scale true r
        else if (2 ^ 63 - 1) / 10 <? x then leadingFraction x scale true r
        else
          let y := x * 10 + Z.of_N (digit_value c) in
          if 2 ^ 63 <? y then leadingFraction x scale true r
          else leadingFraction y (scale * 10) false r
      else (x, scale, s)
  | [] => (x, scale, [])
  end.

Definition unitMap (u : str) : option Z :=
  if u =s #"ns" then Some 1
  else if (u =s #"us") || (u =s #"µs") || (u =s #"μs") then Some (10 ^ 3)
  else if u =s #"ms" then Some (10 ^ 6)
  else if u =s #"s" then Some (10 ^ 9)
  else if u =s #"m" then Some (60 * 10 ^ 9)
  else if u =s #"h" then Some (3600 * 10 ^ 9)
  else None.

Fixpoint unit_span (s : str) : str * str :=
  match s with
  | c :: r => if Ascii.eqb c "." || is_digit c then ([], s)
              else let '(u, rest) := unit_span r in (c :: u, rest)
  | [] => ([], [])
  end.

(** One number with its unit, in nanoseconds. *)
Definition one_part (s : str) : option (Z * str) :=
  match s with
  | [] => None
  | c :: _ =>
      if negb (Ascii.eqb c "." || is_digit c) then None
      else
        '(v, s1) ← leadingInt 0 s;
        let pre := negb (Nat.eqb (length s1) (length s)) in
        let '(f, scale, post, s2) :=
          match s1 with
          | d :: r =>
              if Ascii.eqb d "." then
                let '(f, scale, s2) := leadingFraction 0 1 false r in
                (f, scale, negb (Nat.eqb (length s2) (length r)), s2)
              else (0, 1, false, s1)
          | [] => (0, 1, false, s1)
          end in
        if negb pre && negb post then None
        else
          let '(u, s3) := unit_span s2 in
          unit ← unitMap u;
          if 2 ^ 63 / unit <? v then None
          else
            let v := v * unit in
            let v := if 0 <? f then v + Qfloor (inject_Z f * (inject_Z unit / inject_Z scale)) else v in
            if (0 <? f) && (2 ^ 63 <? v) then None else Some (v, s3)
  end.

(** The sum of the parts; a part takes a byte at least. *)
Fixpoint parts_sum (fuel : nat) (d : Z) (s : str) : option Z :=
  match s with
  | [] => Some d
  | _ =>
      match fuel with
      | O => None
      | S fuel =>
          '(v, r) ← one_part s;
          let d := d + v in
          if 2 ^ 63 <? d then None else parts_sum fuel d r
      end
  end.

Definition ParseDuration (s : str) : option Z :=
  let '(neg, s) :=
    match s with
    | c :: r => if Ascii.eqb c "-" then (true, r) else if Ascii.eqb c "+" then (false, r) else (false, s)
    | [] => (false, s)
    end in
  if s =s #"0" then Some 0
  else match s with
       | [] => None
       | _ =>
           d ← parts_sum (length s) 0 s;
           if neg : bool then Some (- d) else if 2 ^ 63 - 1 <? d then None else Some d
       end.

Example durations :
  map ParseDuration [ #"1h30m"; #"5s"; #"1.5h"; #"-2m"; #"0"; #".5s"; #"1"; #"s"; #""; #"9223372036854775807ns";
                      #"9223372036854775808ns"; #"3000000h"; #"100µs"] =
  [Some (5400 * 10 ^ 9); Some (5 * 10 ^ 9); Some (5400 * 10 ^ 9); Some (-120 * 10 ^ 9); Some 0; Some (5 * 10 ^ 8);
   None; None; None; Some (2 ^ 63 - 1); None; None; Some 100000].
Proof. vm_compute. reflexivity. Qed.

(** A duration fits 64 bits. *)
Lemma leadingInt_bound s : forall x v r, 0 <= x -> leadingInt x s = Some (v, r) -> 0 <= v.
Proof.
  induction s as [|c s IH]; intros x v r Hx; cbn [leadingInt]; [congruence|].
  destruct (is_digit c); [|congruence]. destruct (_ <? x); [done|].
  destruct (_ <? _); [done|]. apply IH. lia.
Qed.

Lemma leadingFraction_bound s : forall x sc o, 0 <= x -> 0 < sc ->
  let '(f, scale, _) := leadingFraction x sc o s in 0 <= f /\ 0 < scale.
Proof.
  induction s as [|c s IH]; intros x sc o Hx Hs; cbn [leadingFraction]; [done|].
  destruct (is_digit c); [|done]. destruct o; [by apply IH|]. destruct (_ <? x); [by apply IH|].
  destruct (_ <? _); apply IH; lia.
Qed.

Lemma unitMap_pos u n : unitMap u = Some n -> 0 < n.
Proof. unfold unitMap. intros H. repeat case_match; simplify_eq; done. Qed.

Lemma one_part_nonneg s v r : one_part s = Some (v, r) -> 0 <= v.
Proof.
  unfold one_part. destruct s as [|c s]; [done|]. destruct (negb _); [done|].
  destruct (leadingInt 0 (c :: s)) as [[v0 s1]|] eqn:E1; [|done]. apply leadingInt_bound in E1; [|done].
  cbn [mbind option_bind]. set (t := match s1 with [] => _ | _ => _ end).
  assert (0 <= t.1.1.1 /\ 0 < t.1.1.2) as [Hf Hs].
  { unfold t. destruct s1 as [|d r1]; [done|]. destruct (Ascii.eqb d "."); [|done].
    pose proof (leadingFraction_bound r1 0 1 false ltac:(lia) ltac:(lia)) as H.
    by destruct (leadingFraction 0 1 false r1) as [[f sc] s2]. }
  destruct t as [[[f sc] post] s2]. cbn [fst snd] in *. destruct (_ && _); [done|].
  destruct (unit_span s2) as [u s3]. destruct (unitMap u) as [n|] eqn:Eu; [|done]. apply unitMap_pos in Eu.
  cbn [mbind option_bind]. destruct (_ <? v0); [done|]. destruct (_ && _); [done|]. intros [= <- _].
  destruct (0 <? f); [|nia].
  assert (0 <= inject_Z f * (inject_Z n / inject_Z sc))%Q as H.
  { apply Qmult_le_0_compat; [by rewrite <- (Zle_Qle 0)|]. apply Qle_shift_div_l; [by rewrite <- (Zlt_Qlt 0)|].
    rewrite Qmult_0_l. rewrite <- (Zle_Qle 0). lia. }
  pose proof (Qfloor_resp_le _ _ H) as HF. apply Z.add_nonneg_nonneg; [nia|exact HF].
Qed.

Lemma parts_sum_nonneg fuel : forall d s n, 0 <= d -> parts_sum fuel d s = Some n -> 0 <= n.
Proof.
  induction fuel as [|fuel IH]; intros d s n Hd; destruct s as [|c s]; cbn [parts_sum]; try congruence.
  destruct (one_part (c :: s)) as [[v r]|] eqn:E; [|done]. apply one_part_nonneg in E.
  cbn [mbind option_bind]. destruct (_ <? _); [done|]. apply IH. lia.
Qed.

(** ** Listen addresses *)

Inductive addr_error := MissingPort | TooManyColons | MissingBracket | UnexpectedOpen | UnexpectedClose.

Definition SplitHostPort (hostport : str) : result addr_error (str * str) :=
  match last_index_byte ":" hostport with
  | None => Err MissingPort
  | Some i =>
      let checked host j k :=
        if existsb (Ascii.eqb "[") (drop j hostport) then Err UnexpectedOpen
        else if existsb (Ascii.eqb "]") (drop k hostport) then Err UnexpectedClose
        else Ok (host, drop (S i) hostport) in
      match hostport with
      | c :: _ =>
          if Ascii.eqb c "[" then
            match index_byte "]" hostport with
            | None => Err MissingBracket
            | Some e =>
                if Nat.eqb (S e) (length hostport) then Err MissingPort
                else if Nat.eqb (S e) i then checked (take (e - 1) (drop 1 hostport)) 1%nat (S e)
                else if existsb (Ascii.eqb ":") (take 1 (drop (S e) hostport)) then Err TooManyColons
                else Err MissingPort
            end
          else
            let host := take i hostport in
            if existsb (Ascii.eqb ":") host then Err TooManyColons else checked host 0%nat 0%nat
      | [] => Err MissingPort
      end
  end.

Example addresses :
  map SplitHostPort [ #":25"; #"192.0.2.1:587"; #"[::1]:993"; #"::1:993"; #"localhost"; #"[::1]"; #"[::1"] =
  [Ok ([], #"25"); Ok (#"192.0.2.1", #"587"); Ok (#"::1", #"993"); Err TooManyColons; Err MissingPort;
   Err MissingPort; Err MissingBracket].
Proof. vm_compute. reflexivity. Qed.
