(* ===== verification/Settings.v ===== *)
(** * The main configuration file (internal/config/config.go)

    The sections of config.yaml with their defaults, and the validation, one
    function per section of [validate] and in its order.  Hard errors stop it,
    soft ones are collected as warnings; a message is kept as its format with
    those arguments that are text.  [Root] is the source's [Config] before the parts that the
    mail core reads are taken out of it. *)

From S2P Require Import Prelude GoStrings GoValues Filter Config.
From S2P Require Container Blacklist Reputation.
From Stdlib Require Import QArith.

#[global] Open Scope Z_scope.

(** ** Messages *)

Record message := mkMessage { msFormat : str; msArgs : list str }.

(** Warnings so far, and an error that ends the validation. *)
Definition V (A : Type) : Type := list message -> result message A * list message.
#[export] Instance V_ret : MRet V := fun A a ws => (Ok a, ws).
#[export] Instance V_bind : MBind V := fun A B f m ws =>
  match m ws with (Ok a, ws) => f a ws | (Err e, ws) => (Err e, ws) end.
Definition errorf {A} (format : str) (args : list str) : V A := fun ws => (Err (mkMessage format args), ws).
Definition warnf (format : str) (args : list str) : V unit := fun ws => (Ok tt, ws ++ [mkMessage format args]).
(** [if b { return fmt.Errorf(...) }] *)
Definition refuse (b : bool) (format : str) (args : list str) : V unit :=
  if b then errorf format args else mret tt.
Definition warn_if (b : bool) (format : str) (args : list str) : V unit :=
  if b then warnf format args else mret tt.

(** ** The sections *)

Record Server := mkServer { svHostname : str; svWorkers : Z }.
Record Listeners := mkListeners {
  lsSMTP : str; lsSMTPS : str; lsSubmission : str; lsIMAP : str; lsIMAPS : str; lsPOP3 : str; lsPOP3S : str }.
Record TLS := mkTLS { tlCertRoot : str; tlMinVersion : str; tlExpiryWarnDays : Z }.
Record SMTP := mkSMTP { smMaxSize : Z; smMaxRecipients : Z }.
Record MailAuth := mkMailAuth { maEnabled : option bool; maEnforce : option bool }.
Record Auth := mkAuth { auMaxFailures : Z; auLockoutMinutes : Z }.
Record ThrottleRule := mkThrottleRule {
  thTo : str; thInterval : str; thMessages : Z; thWindow : str; thBurst : Z; thPerIP : bool }.
Record Queue := mkQueue { quDir : str; quMaxAttempts : Z; quThrottle : list ThrottleRule }.
Record OutboundRate := mkOutboundRate { orMessagesPerHour : Z; orRecipientsPerHour : Z }.
Record OutboundPolicy := mkOutboundPolicy { opEgressIP : str; opRate : OutboundRate; opThrottle : list ThrottleRule }.
Record Antispam := mkAntispam {
  asEnabled : option bool; asBayesFile : str; asTagScore : Q; asQuarantineScore : Q; asRejectScore : Q;
  asRejectExecutables : option bool }.
Record Antivirus := mkAntivirus { avEnabled : bool; avSocket : str; avTimeoutSeconds : Z; avRejectOnError : bool }.
Record Blacklist := mkBlacklist {
  blEnabled : option bool; blDNSBL : list str; blURIBL : list str; blRejectListed : bool; blCacheMinutes : Z }.
Record Reputation := mkReputation { rpEnabled : option bool; rpFile : str; rpWarmUp : Reputation.WarmUp }.
Record Container := mkContainer { ctEnabled : bool; ctType : str; ctPublicIP : str; ctInternalIP : str }.
Record EgressAddress := mkEgressAddress { eaAddress : str; eaHELO : str; eaBind : str; eaDomains : list str }.
Record Egress := mkEgress { egStrategy : str; egAddresses : list EgressAddress }.
Record RateLimitRule := mkRateLimitRule {
  rrBy : str; rrMatch : str; rrDirection : str; rrWindow : str; rrMessages : Z; rrRecipients : Z }.
Record UserLimits := mkUserLimits { ulMessagesPerHour : Z; ulRecipientsPerHour : Z }.
Record Outbound := mkOutbound { ouEnabled : option bool; ouUser : UserLimits }.
Record IPLimits := mkIPLimits { ilConnections : Z; ilMessages : Z; ilRecipients : Z }.
Record Inbound := mkInbound { ibEnabled : option bool; ibIP : IPLimits }.
Record RateLimit := mkRateLimit { rlInbound : Inbound; rlOutbound : Outbound; rlRules : list RateLimitRule }.
Record API := mkAPI { apEnabled : bool; apAddress : str; apKeys : list str }.

(** A hosted domain and a mailbox with their outbound policies. *)
Record Hosted := mkHosted { hdDomain : Domain; hdOutbound : OutboundPolicy }.
Record Account := mkAccount { acUser : User; acOutbound : option OutboundPolicy }.

Record Root := mkRoot {
  cfServer : Server; cfListeners : Listeners; cfTLS : TLS; cfSMTP : SMTP; cfMailAuth : MailAuth; cfAuth : Auth;
  cfQueue : Queue; cfDKIMDir : str; cfAntispam : Antispam; cfAntivirus : Antivirus; cfBlacklist : Blacklist;
  cfReputation : Reputation; cfContainer : Container; cfRateLimit : RateLimit; cfSRSSecret : str; cfEgress : Egress;
  cfDomainsDir : str; cfDomains : list Hosted; cfUsers : list Account; cfAPI : API; cfLogDir : str }.

(** Switches that are on unless they are turned off. *)
Definition is_enabled (b : option bool) : bool := match b with None => true | Some b => b end.

(** ** Defaults (with internal/paths/paths.go) *)

Definition CertRoot : str := #"/etc/letsencrypt/live".
Definition StateDir : str := #"/var/lib/verta".
Definition QueueDir : str := StateDir ++ #"/queue".
Definition DKIMDir : str := StateDir ++ #"/dkim".
Definition LogDir : str := #"/var/log/verta".
Definition DefaultDNSBL : list str :=
  [ #"zen.spamhaus.org"; #"b.barracudacentral.org"; #"dnsbl.sorbs.net"; #"dnsbl-1.uceprotect.net"].
Definition DefaultURIBL : list str := [ #"dbl.spamhaus.org"; #"multi.uribl.com"].

Definition defaults : Root := {|
  cfServer := mkServer [] 50;
  cfListeners := mkListeners #":25" #":465" #":587" #":143" #":993" #":110" #":995";
  cfTLS := mkTLS CertRoot #"1.2" 14;
  cfSMTP := mkSMTP (25 * 1024 * 1024) 100;
  cfMailAuth := mkMailAuth None None;
  cfAuth := mkAuth 10 15;
  cfQueue := mkQueue QueueDir 10 [];
  cfDKIMDir := DKIMDir;
  cfAntispam := mkAntispam None (StateDir ++ #"/bayes") 5 10 20 None;
  cfAntivirus := mkAntivirus false #"/var/run/clamav/clamd.ctl" 30 false;
  cfBlacklist := mkBlacklist None DefaultDNSBL DefaultURIBL false 60;
  cfReputation := mkReputation None (StateDir ++ #"/reputation.json") (Reputation.mkWarmUp true 100 2000 50000);
  cfContainer := mkContainer false [] [] [];
  cfRateLimit := mkRateLimit (mkInbound None (mkIPLimits 30 100 500)) (mkOutbound None (mkUserLimits 500 1000)) [];
  cfSRSSecret := [];
  cfEgress := mkEgress [] [];
  cfDomainsDir := [];
  cfDomains := [];
  cfUsers := [];
  cfAPI := mkAPI false #":8443" [];
  cfLogDir := LogDir |}.

Definition HasHosted (ds : list Hosted) (name : str) : bool := existsb (fun d => dName (hdDomain d) =s name) ds.

(** ** Validation *)

Section Validate.
(** [net.ParseIP]. *)
Context (ParseIP : str -> option Container.IP).

Definition checkAddr (addr : str) : option message :=
  match SplitHostPort addr with
  | Err _ => Some (mkMessage #"invalid address %q: %w" [addr])
  | Ok (host, port) =>
      let bad_port := match parse_int port with Some n => (n <? 1) || (65535 <? n) | None => true end in
      if bad_port then Some (mkMessage #"invalid port %q" [port])
      else if negb (host =s []) && negb (bool_decide (is_Some (ParseIP host)))
           then Some (mkMessage #"invalid host %q: must be an IP or empty" [host])
           else None
  end.
(** A nested error is the last argument. *)
Definition check_address (name addr : str) : V unit :=
  match checkAddr addr with
  | Some e => errorf #"%s: %w" (name :: msFormat e :: msArgs e)
  | None => mret tt
  end.

Definition validateServer (s : Server) : V Server :=
  let host := normalizeHost (svHostname s) in
  _ ← refuse (host =s []) #"server.hostname is required" [];
  _ ← refuse (negb (contains #"." host)) #"server.hostname %q: must be a fully qualified name" [host];
  let workers := if svWorkers s =? 0 then 50 else svWorkers s in
  _ ← refuse (workers <? 0) #"server.workers: must be positive" [];
  mret (mkServer host workers).

Fixpoint check_listeners (ls : list (str * str)) : V unit :=
  match ls with
  | [] => mret tt
  | (name, addr) :: r =>
      _ ← (if addr =s [] then mret tt else check_address (#"listeners." ++ name) addr);
      check_listeners r
  end.
Definition validateListeners (l : Listeners) : V unit :=
  check_listeners
    [(#"smtp", lsSMTP l); (#"smtps", lsSMTPS l); (#"submission", lsSubmission l); (#"imap", lsIMAP l);
     (#"imaps", lsIMAPS l); (#"pop3", lsPOP3 l); (#"pop3s", lsPOP3S l)].

Definition or_default (s d : str) : str := if s =s [] then d else s.

Definition validateTLS (t : TLS) : V TLS :=
  _ ← refuse (negb ((tlMinVersion t =s #"1.2") || (tlMinVersion t =s #"1.3")))
        (#"tls.min_version %q: must be " ++ [DQ] ++ #"1.2" ++ [DQ] ++ #" or " ++ [DQ] ++ #"1.3" ++ [DQ]) [tlMinVersion t];
  let days := if tlExpiryWarnDays t =? 0 then 14 else tlExpiryWarnDays t in
  _ ← refuse (days <? 0) #"tls.expiry_warn_days: must be positive" [];
  mret (mkTLS (or_default (tlCertRoot t) CertRoot) (tlMinVersion t) days).

Definition validateSMTP (m : SMTP) : V unit :=
  _ ← refuse (smMaxSize m <=? 0) #"smtp.max_size: must be positive" [];
  refuse (smMaxRecipients m <=? 0) #"smtp.max_recipients: must be positive" [].

Definition validateAuth (a : Auth) : V unit :=
  _ ← refuse (auMaxFailures a <=? 0) #"auth.max_failures: must be positive" [];
  refuse (auLockoutMinutes a <=? 0) #"auth.lockout_minutes: must be positive" [].

Definition validateQueue (q : Queue) : V Queue :=
  _ ← refuse (quMaxAttempts q <=? 0) #"queue.max_attempts: must be positive" [];
  mret (mkQueue (or_default (quDir q) QueueDir) (quMaxAttempts q) (quThrottle q)).

Definition validateAntispam (a : Antispam) : V Antispam :=
  if negb (is_enabled (asEnabled a)) then mret a
  else
    _ ← refuse (Qle_bool (asTagScore a) 0 || Qle_bool (asQuarantineScore a) 0 || Qle_bool (asRejectScore a) 0)
          #"antispam: tag_score, quarantine_score and reject_score must be positive" [];
    _ ← refuse (negb (Qle_bool (asTagScore a) (asQuarantineScore a) && Qle_bool (asQuarantineScore a) (asRejectScore a)))
          #"antispam: thresholds must satisfy tag_score <= quarantine_score <= reject_score (got %.1f, %.1f, %.1f)" [];
    mret (mkAntispam (asEnabled a) (or_default (asBayesFile a) (StateDir ++ #"/bayes"))
            (asTagScore a) (asQuarantineScore a) (asRejectScore a) (asRejectExecutables a)).

Definition validateAntivirus (a : Antivirus) : V Antivirus :=
  if negb (avEnabled a) then mret a
  else
    _ ← refuse (avSocket a =s []) #"antivirus.enabled requires antivirus.socket" [];
    mret (mkAntivirus true (avSocket a) (if avTimeoutSeconds a <=? 0 then 30 else avTimeoutSeconds a) (avRejectOnError a)).

Definition validateBlacklist (b : Blacklist) : V Blacklist :=
  if negb (is_enabled (blEnabled b)) then mret b
  else
    _ ← warn_if (match blDNSBL b, blURIBL b with [], [] => true | _, _ => false end)
          #"blacklist enabled but no dnsbl/uribl zones configured: no lookups will happen" [];
    mret (mkBlacklist (blEnabled b) (blDNSBL b) (blURIBL b) (blRejectListed b)
            (if blCacheMinutes b <=? 0 then 60 else blCacheMinutes b)).

Definition validateReputation (r : Reputation) : V Reputation :=
  if negb (is_enabled (rpEnabled r)) then mret r
  else
    let w := rpWarmUp r in
    _ ← (if Reputation.wuEnabled w then
           _ ← refuse ((Reputation.wuDay1 w =? 0) || (Reputation.wuDay7 w =? 0) || (Reputation.wuFull w =? 0))
                 #"reputation.warmup: day1, day7 and full_per_day must be positive" [];
           refuse (negb ((Reputation.wuDay1 w <=? Reputation.wuDay7 w) && (Reputation.wuDay7 w <=? Reputation.wuFull w)))
             #"reputation.warmup: the ramp must grow (day1 <= day7 <= full_per_day)" []
         else mret tt);
    mret (mkReputation (rpEnabled r) (or_default (rpFile r) (StateDir ++ #"/reputation.json")) w).

Definition validateContainer (c : Container) : V unit :=
  if negb (ctEnabled c) then mret tt
  else
    _ ← refuse (ctPublicIP c =s [])
          #"container.enabled requires container.public_ip: without it verta cannot keep internal addresses out of trace headers" [];
    _ ← refuse (negb (bool_decide (is_Some (ParseIP (ctPublicIP c)))))
          #"container.public_ip %q: not a valid IP address" [ctPublicIP c];
    _ ← refuse (negb (ctInternalIP c =s []) && negb (bool_decide (is_Some (ParseIP (ctInternalIP c)))))
          #"container.internal_ip %q: not a valid IP address" [ctInternalIP c];
    warn_if (match ParseIP (ctPublicIP c) with
             | Some ip => Container.IsPrivate ip || Container.IsLoopback ip
             | None => false
             end)
      #"container.public_ip %s is a private address: outgoing mail will still carry an internal address" [ctPublicIP c].

Definition validateRateLimit (r : RateLimit) : V unit :=
  _ ← (if is_enabled (ibEnabled (rlInbound r)) then
         let ip := ibIP (rlInbound r) in
         refuse ((ilConnections ip <=? 0) || (ilMessages ip <=? 0) || (ilRecipients ip <=? 0))
           #"rate_limit.inbound.ip: all limits must be positive (or set enabled: false)" []
       else warnf #"inbound rate limiting is disabled: no flood protection" []);
  if is_enabled (ouEnabled (rlOutbound r)) then
    let u := ouUser (rlOutbound r) in
    refuse ((ulMessagesPerHour u <=? 0) || (ulRecipientsPerHour u <=? 0))
      #"rate_limit.outbound.user: all limits must be positive (or set enabled: false)" []
  else warnf #"outbound rate limiting is disabled: no compromised-account protection" [].

(** The storage of a domain, with the account's home and Maildir filled in. *)
Definition validateStorage (name : str) (st : Storage) : V Storage :=
  if (sType st =s []) || (sType st =s StorageVirtual) then mret st
  else if sType st =s StorageSystemUser then
    _ ← refuse (sUser st =s []) #"domain %s: storage.user is required for system_user" [name];
    _ ← refuse (negb (sPasswordHash st =s []) && negb (knownHash (sPasswordHash st)))
          #"domain %s: storage.password_hash: unknown format (argon2id or bcrypt required, never cleartext)" [name];
    mret (mkStorage (sType st) (sUser st) (or_default (sHome st) (#"/home/" ++ sUser st))
            (or_default (sMaildir st) #"{home}/mail") (sPasswordHash st))
  else errorf #"domain %s: storage.type %q: must be %q or %q" [name; sType st; StorageSystemUser; StorageVirtual].

Definition validateDomain (seen : gset str) (h : Hosted) : V Hosted :=
  let d := hdDomain h in
  let name := normalizeHost (dName d) in
  _ ← refuse (name =s []) #"domains[%d]: name is required" [];
  _ ← refuse (negb (contains #"." name)) #"domains[%d] %q: must contain a dot" [name];
  _ ← refuse (bool_decide (name ∈ seen)) #"domains[%d] %q: duplicate domain" [name];
  st ← validateStorage name (dStorage d);
  mret (mkHosted (mkDomain name st (dDKIMSelector d) (dAliases d) (dCatchAll d) (dQuotaBytes d)) (hdOutbound h)).

Fixpoint validateDomains (seen : gset str) (ds : list Hosted) : V (list Hosted) :=
  match ds with
  | [] => mret []
  | h :: r =>
      h ← validateDomain seen h;
      r ← validateDomains ({[dName (hdDomain h)]} ∪ seen) r;
      mret (h :: r)
  end.

Definition validateUser (ds : list Hosted) (a : Account) : V Account :=
  let u := acUser a in
  let email := to_lower (trim_space (uEmail u)) in
  match last_index_byte "@" email with
  | None => errorf #"users[%d] %q: invalid email address" [email]
  | Some at_ =>
      _ ← refuse (Nat.eqb at_ 0 || Nat.eqb at_ (length email - 1)) #"users[%d] %q: invalid email address" [email];
      let type := or_default (uType u) StorageVirtual in
      _ ← refuse (negb (type =s StorageVirtual)) #"user %s: type %q: only %q is valid here" [email; type; StorageVirtual];
      _ ← refuse (uMaildir u =s []) #"user %s: maildir is required" [email];
      let dom := drop (S at_) email in
      _ ← warn_if (negb (HasHosted ds dom)) #"user %s: domain %s is not configured" [email; dom];
      _ ← refuse (negb (uPasswordHash u =s []) && negb (knownHash (uPasswordHash u)))
            #"user %s: password_hash: unknown format (argon2id or bcrypt required, never cleartext)" [email];
      mret (mkAccount (mkUser email type (uMaildir u) (uPasswordHash u) (uForwardTo u) (uKeepLocal u) (uFilters u) (uQuota u))
              (acOutbound a))
  end.

Fixpoint validateUsers (ds : list Hosted) (us : list Account) : V (list Account) :=
  match us with
  | [] => mret []
  | u :: r => u ← validateUser ds u; r ← validateUsers ds r; mret (u :: r)
  end.

Fixpoint warn_keys (keys : list str) : V unit :=
  match keys with
  | [] => mret tt
  | k :: r =>
      _ ← warn_if (Nat.ltb (length k) 32) #"api.keys[%d]: shorter than 32 characters, consider a stronger key" [];
      warn_keys r
  end.

Definition validateAPI (a : API) : V API :=
  if negb (apEnabled a) then mret a
  else
    let addr := or_default (apAddress a) #":8443" in
    _ ← check_address #"api.address" addr;
    _ ← refuse (match apKeys a with [] => true | _ => false end) #"api.enabled requires at least one api.keys entry" [];
    _ ← warn_keys (apKeys a);
    mret (mkAPI true addr (apKeys a)).

Definition validate (c : Root) : V Root :=
  server ← validateServer (cfServer c);
  _ ← validateListeners (cfListeners c);
  tls ← validateTLS (cfTLS c);
  _ ← validateSMTP (cfSMTP c);
  _ ← validateAuth (cfAuth c);
  queue ← validateQueue (cfQueue c);
  antispam ← validateAntispam (cfAntispam c);
  antivirus ← validateAntivirus (cfAntivirus c);
  blacklist ← validateBlacklist (cfBlacklist c);
  reputation ← validateReputation (cfReputation c);
  _ ← validateContainer (cfContainer c);
  _ ← validateRateLimit (cfRateLimit c);
  domains ← validateDomains ∅ (cfDomains c);
  _ ← warn_if (match cfDomains c with [] => true | _ => false end)
        #"no domain files found in %s: verta will accept no mail" [cfDomainsDir c];
  users ← validateUsers domains (cfUsers c);
  api ← validateAPI (cfAPI c);
  mret {| cfServer := server; cfListeners := cfListeners c; cfTLS := tls; cfSMTP := cfSMTP c;
          cfMailAuth := cfMailAuth c; cfAuth := cfAuth c; cfQueue := queue; cfDKIMDir := or_default (cfDKIMDir c) DKIMDir;
          cfAntispam := antispam; cfAntivirus := antivirus; cfBlacklist := blacklist; cfReputation := reputation;
          cfContainer := cfContainer c; cfRateLimit := cfRateLimit c; cfSRSSecret := cfSRSSecret c;
          cfEgress := cfEgress c; cfDomainsDir := cfDomainsDir c; cfDomains := domains; cfUsers := users;
          cfAPI := api; cfLogDir := or_default (cfLogDir c) LogDir |}.
End Validate.
