(* ===== verification/ConfigLoad.v ===== *)
(** * Loading the configuration (internal/config: config.go, domains.go, manager.go, ratelimit.go, throttle.go)

    The main file, one file per hosted domain, the rules that are compiled from
    both, and the manager that keeps the running configuration.  Decoding YAML
    is the class [YamlCodec]. *)

From S2P Require Import Prelude GoStrings GoOS GoValues Filter Config Settings.
From S2P Require Quota Governor Pace Container.
From Stdlib Require Import QArith.

#[global] Open Scope Z_scope.

(** One file of the domains directory; the map of aliases in the order it is
    ranged over. *)
Record DomainFile := mkDomainFile {
  dfName : str;
  dfDKIMSelector : str;
  dfStorage : Storage;
  dfUsers : list Account;
  dfAliases : list (str * list str);
  dfCatchAll : list str;
  dfOutbound : OutboundPolicy;
  dfQuota : str }.

(** [yaml.Decoder] with [KnownFields]: over the defaults, or the error. *)
Class YamlCodec := {
  decode_root : Root -> str -> result str Root;
  decode_domain : str -> result str DomainFile }.

(** A path as a string. *)
Definition render (p : path) : str := #"/" ++ join #"/" p.

(** ** Domain files *)

(** The file name gives the domain its name. *)
Definition check_name (p : path) (df : DomainFile) : result message DomainFile :=
  let base := normalizeHost (trim_suffix #".yaml" (default [] (last p))) in
  let declared := normalizeHost (dfName df) in
  let name := if declared =s [] then base else declared in
  if negb (declared =s []) && negb (declared =s base) then
    Err (mkMessage #"%s: declares domain %q but the file is named %q.yaml; rename the file or fix the name"
           [render p; declared; base])
  else if name =s [] then Err (mkMessage #"%s: the file name does not give a domain name" [render p])
  else if negb (contains #"." name) then Err (mkMessage #"%s: %q is not a valid domain (no dot)" [render p; name])
  else Ok (mkDomainFile name (dfDKIMSelector df) (dfStorage df) (dfUsers df) (dfAliases df) (dfCatchAll df)
             (dfOutbound df) (dfQuota df)).

Section Load.
Context `{YamlCodec} (ParseIP : str -> option Container.IP).

Definition decode_file (p : path) (content : str) : result message DomainFile :=
  match decode_domain content with
  | Err e => Err (mkMessage #"%s: %w" [render p; e])
  | Ok df => check_name p df
  end.
Definition loadDomainFile (p : path) : M (result message DomainFile) :=
  r ← try (ReadFile p);
  mret (match r with
        | Err _ => Err (mkMessage #"%s: %w" [render p])
        | Ok content => decode_file p content
        end).

(** What [loadDomains] has gathered. *)
Record gathered := mkGathered {
  gaSeen : gset str;
  gaDomains : list Hosted;
  gaUsers : list Account;
  gaWarnings : list message }.
Definition warned (g : gathered) (ws : list message) : gathered :=
  mkGathered (gaSeen g) (gaDomains g) (gaUsers g) (gaWarnings g ++ ws).

Definition hosted_of (df : DomainFile) : Hosted :=
  mkHosted (mkDomain (dfName df) (dfStorage df) (dfDKIMSelector df) (normalizeAliases (dfAliases df)) (dfCatchAll df)
              (default 0 (Quota.ParseSize (dfQuota df)))) (dfOutbound df).
Definition quota_warnings (df : DomainFile) : list message :=
  (if bool_decide (is_Some (Quota.ParseSize (dfQuota df))) then []
   else [mkMessage #"domain %s: invalid quota %q, treated as unlimited" [dfName df; dfQuota df]])
  ++ omap (fun a => if bool_decide (is_Some (Quota.ParseSize (uQuota (acUser a)))) then None
                    else Some (mkMessage #"mailbox %s: invalid quota %q, treated as unlimited"
                                 [uEmail (acUser a); uQuota (acUser a)])) (dfUsers df).

(** What one file adds. *)
Definition gather (p : path) (g : gathered) (r : result message DomainFile) : gathered :=
  match r with
  | Err w => warned g [w]
  | Ok df =>
      if decide (dfName df ∈ gaSeen g) then
        warned g [mkMessage #"domain %s is defined more than once, %s ignored" [dfName df; render p]]
      else mkGathered ({[dfName df]} ∪ gaSeen g) (gaDomains g ++ [hosted_of df]) (gaUsers g ++ dfUsers df)
             (gaWarnings g ++ quota_warnings df)
  end.

Fixpoint load_files (dir : path) (names : list str) (g : gathered) : M gathered :=
  match names with
  | [] => mret g
  | n :: rest =>
      r ← loadDomainFile (join_path dir n);
      load_files dir rest (gather (join_path dir n) g r)
  end.

Definition domain_name (ent : dirent) : option str :=
  match deFile ent with
  | None => None
  | Some _ => let n := deName ent in
              if negb (has_suffix #".yaml" n) || has_prefix #"." n then None else Some n
  end.

Definition loadDomains (dir : str) (ws : list message) : M (result message gathered) :=
  r ← try (ReadDir (abs_path dir));
  match r with
  | Err e =>
      mret (if IsNotExist e
            then Ok (mkGathered ∅ [] [] (ws ++ [mkMessage #"domains directory %s does not exist: no domain is served" [dir]]))
            else Err (mkMessage #"domains directory %s: %w" [dir]))
  | Ok entries =>
      g ← load_files (abs_path dir) (sort_slice str_ltb (omap domain_name entries)) (mkGathered ∅ [] [] ws);
      mret (Ok g)
  end.

(** ** Compiled rules *)

Definition validRateLimitDims : list str :=
  [Governor.ByIP; Governor.BySenderDomain; Governor.BySenderMailbox; Governor.ByRecipient; Governor.ByRecipientDomain].

Definition hour : Z := 3600 * 10 ^ 9.

(** A window as written: an hour if it is empty. *)
Definition window_of (s : str) : option Z :=
  if s =s [] then Some hour
  else match ParseDuration s with Some d => if d <=? 0 then None else Some d | None => None end.

Definition compile_rule (r : RateLimitRule) : result message Governor.GovRule :=
  if negb (existsb (str_eqb (rrBy r)) validRateLimitDims) then
    Err (mkMessage #"rate_limit.rules[%d]: unknown 'by' %q, rule ignored" [rrBy r])
  else if negb (rrDirection r =s []) && negb (rrDirection r =s Governor.DirInbound)
          && negb (rrDirection r =s Governor.DirOutbound) then
    Err (mkMessage #"rate_limit.rules[%d]: 'direction' must be inbound or outbound, rule ignored" [])
  else match window_of (rrWindow r) with
       | None => Err (mkMessage #"rate_limit.rules[%d]: invalid 'window' %q, rule ignored" [rrWindow r])
       | Some window =>
           if (rrMessages r <=? 0) && (rrRecipients r <=? 0) then
             Err (mkMessage #"rate_limit.rules[%d]: neither 'messages' nor 'recipients' set, rule ignored" [])
           else Ok (Governor.mkGovRule (rrBy r) (rrMatch r) (rrDirection r) window (rrMessages r) (rrRecipients r))
       end.

(** The hourly caps of a domain or a mailbox. *)
Definition cap_rule (dim subject : str) (r : OutboundRate) : option Governor.GovRule :=
  if (0 <? orMessagesPerHour r) || (0 <? orRecipientsPerHour r) then
    Some (Governor.mkGovRule dim subject Governor.DirOutbound hour (orMessagesPerHour r) (orRecipientsPerHour r))
  else None.

Definition accepted {A} (r : result message A) : option A := match r with Ok a => Some a | Err _ => None end.
Definition rejected {A} (r : result message A) : option message := match r with Ok _ => None | Err e => Some e end.

Definition domain_caps (ds : list Hosted) : list Governor.GovRule :=
  omap (fun d => cap_rule Governor.BySenderDomain (dName (hdDomain d)) (opRate (hdOutbound d))) ds.
Definition mailbox_caps (us : list Account) : list Governor.GovRule :=
  omap (fun u => match acOutbound u with
                 | Some o => cap_rule Governor.BySenderMailbox (uEmail (acUser u)) (opRate o)
                 | None => None
                 end) us.
Definition compileRateLimitRules (c : Root) : list Governor.GovRule * list message :=
  let rules := map compile_rule (rlRules (cfRateLimit c)) in
  (omap accepted rules ++ domain_caps (cfDomains c) ++ mailbox_caps (cfUsers c), omap rejected rules).

(** [paceRule]. *)
Definition paceRule (context : str) (r : ThrottleRule) : result message Pace.Rule :=
  if thTo r =s [] then Err (mkMessage (#"%s[%d]: 'to' is required (a domain or " ++ [DQ] ++ #"*" ++ [DQ] ++ #"), rule ignored") [context])
  else if negb (thInterval r =s []) then
    match ParseDuration (thInterval r) with
    | Some d =>
        if d <=? 0 then Err (mkMessage #"%s[%d]: invalid 'interval' %q, rule ignored" [context; thInterval r])
        else Ok (Pace.mkRule (thTo r) (Pace.mkLimit (1 / Pace.seconds d)
                   (if thBurst r <=? 0 then 1 else inject_Z (thBurst r))))
    | None => Err (mkMessage #"%s[%d]: invalid 'interval' %q, rule ignored" [context; thInterval r])
    end
  else if 0 <? thMessages r then
    match window_of (thWindow r) with
    | Some window =>
        Ok (Pace.mkRule (thTo r) (Pace.mkLimit (inject_Z (thMessages r) / Pace.seconds window)
              (if thBurst r <=? 0 then inject_Z (thMessages r) else inject_Z (thBurst r))))
    | None => Err (mkMessage #"%s[%d]: invalid 'window' %q, rule ignored" [context; thWindow r])
    end
  else Err (mkMessage #"%s[%d]: set 'interval' or 'messages', rule ignored" [context]).

(** [append] to the entry of a map, once per accepted rule. *)
Definition add_rules (m : gmap str (list Pace.Rule)) (key : str) (rs : list Pace.Rule) : gmap str (list Pace.Rule) :=
  match rs with [] => m | _ => <[key := default [] (m !! key) ++ rs]> m end.

Definition domain_rules (d : Hosted) : list (result message Pace.Rule) :=
  map (paceRule (#"domain " ++ dName (hdDomain d) ++ #" outbound.throttle")) (opThrottle (hdOutbound d)).
Definition mailbox_rules (u : Account) : list (result message Pace.Rule) :=
  match acOutbound u with
  | Some o => map (paceRule (#"mailbox " ++ uEmail (acUser u) ++ #" outbound.throttle")) (opThrottle o)
  | None => []
  end.

Definition compileThrottle (c : Root) : Pace.Config * list message :=
  let global := map (fun r => (thPerIP r, paceRule #"queue.throttle" r)) (quThrottle (cfQueue c)) in
  let chosen (per_ip : bool) :=
    omap (fun x : bool * result message Pace.Rule => if Bool.eqb x.1 per_ip then accepted x.2 else None) global in
  let by_domain := fold_left (fun m d => add_rules m (dName (hdDomain d)) (omap accepted (domain_rules d))) (cfDomains c) ∅ in
  let by_mailbox := fold_left (fun m u => add_rules m (uEmail (acUser u)) (omap accepted (mailbox_rules u))) (cfUsers c) ∅ in
  (Pace.mkConfig (chosen false) (chosen true) (map_to_list by_domain) (map_to_list by_mailbox),
   omap (fun x => rejected x.2) global
   ++ omap rejected (concat (map domain_rules (cfDomains c)))
   ++ omap rejected (concat (map mailbox_rules (cfUsers c)))).

(** ** The whole *)

Record Loaded := mkLoaded {
  ldRoot : Root;
  ldWarnings : list message;
  ldGovRules : list Governor.GovRule;
  ldThrottle : Pace.Config }.

(** What the mail core reads. *)
Definition core (l : Loaded) : Config :=
  mkConfig (map hdDomain (cfDomains (ldRoot l))) (map acUser (cfUsers (ldRoot l))) (cfSRSSecret (ldRoot l)).

Definition domainsDir (c : Root) (cfgPath : path) : str :=
  if cfDomainsDir c =s [] then render (parent cfgPath ++ [ #"domains"]) else cfDomainsDir c.

Definition with_domains (c : Root) (dir : str) (ds : list Hosted) (us : list Account) : Root := {|
  cfServer := cfServer c; cfListeners := cfListeners c; cfTLS := cfTLS c; cfSMTP := cfSMTP c;
  cfMailAuth := cfMailAuth c; cfAuth := cfAuth c; cfQueue := cfQueue c; cfDKIMDir := cfDKIMDir c;
  cfAntispam := cfAntispam c; cfAntivirus := cfAntivirus c; cfBlacklist := cfBlacklist c;
  cfReputation := cfReputation c; cfContainer := cfContainer c; cfRateLimit := cfRateLimit c;
  cfSRSSecret := cfSRSSecret c; cfEgress := cfEgress c; cfDomainsDir := dir; cfDomains := ds; cfUsers := us;
  cfAPI := cfAPI c; cfLogDir := cfLogDir c |}.

(** From the domain files to the configuration. *)
Definition finish (cfgPath : path) (c : Root) (dir : str) (g : gathered) : result message Loaded :=
  match validate ParseIP (with_domains c dir (gaDomains g) (gaUsers g)) (gaWarnings g) with
  | (Err e, _) => Err (mkMessage #"%s: %w" (render cfgPath :: msFormat e :: msArgs e))
  | (Ok c, ws) =>
      let '(rules, ws1) := compileRateLimitRules c in
      let '(throttle, ws2) := compileThrottle c in
      Ok (mkLoaded c (ws ++ ws1 ++ ws2) rules throttle)
  end.

Definition Load (cfgPath : path) : M (result message Loaded) :=
  r ← try (ReadFile cfgPath);
  match r with
  | Err _ => mret (Err (mkMessage #"%w" [render cfgPath]))
  | Ok content =>
      match decode_root defaults content with
      | Err e => mret (Err (mkMessage #"%s: %w" [render cfgPath; e]))
      | Ok c =>
          let dir := domainsDir c cfgPath in
          match cfDomains c, cfUsers c with
          | [], [] =>
              r ← loadDomains dir [];
              mret (match r with Err e => Err e | Ok g => finish cfgPath c dir g end)
          | _, _ =>
              mret (Err (mkMessage #"%s: domains and users now live in one file per domain under %s" [render cfgPath; dir]))
          end
      end
  end.

(** ** The manager *)

Record Manager := mkManager { mgPath : path; mgCurrent : Loaded; mgError : option message }.

Definition NewManager (p : path) : M (result message Manager) :=
  r ← Load p;
  mret (match r with Ok l => Ok (mkManager p l None) | Err e => Err e end).
Definition Get (m : Manager) : Loaded := mgCurrent m.
Definition LastError (m : Manager) : option message := mgError m.
Definition Reload (m : Manager) : M (result message unit * Manager) :=
  r ← Load (mgPath m);
  mret (match r with
        | Ok l => (Ok tt, mkManager (mgPath m) l None)
        | Err e => (Err e, mkManager (mgPath m) (mgCurrent m) (Some e))
        end).
End Load.
