(* ===== verification/ConfigProps.v ===== *)
(** * What a loaded configuration is worth

    A configuration that [Load] returns meets the conditions under which the
    components work: names, storages, limits, thresholds and compiled rules.
    A domain file that does not decode leaves the others alone, and a reload
    that fails leaves the running configuration alone. *)

From S2P Require Import Prelude GoStrings GoOS GoValues Filter Config Settings ConfigLoad.
From S2P Require Quota Governor Pace Container Reputation.
From Stdlib Require Import QArith Lqa.

#[global] Open Scope Z_scope.

(** ** What holds of the value of a validation *)

Definition yields {A} (P : A -> Prop) (m : V A) : Prop := forall ws a ws', m ws = (Ok a, ws') -> P a.

Create HintDb validation.

Section Yields.
Context {A B : Type}.

Lemma yields_ret (P : A -> Prop) a : P a -> yields P (mret a).
Proof. by intros H ws b ws' [= <- _]. Qed.

Lemma yields_bind (Q : A -> Prop) (P : B -> Prop) m f :
  yields Q m -> (forall a, Q a -> yields P (f a)) -> yields P (m ≫= f).
Proof.
  intros Hm Hf ws b ws'. unfold mbind, V_bind. destruct (m ws) as [[a|e] ws1] eqn:E; [|done].
  apply Hf. by eapply Hm.
Qed.

Lemma yields_error (P : A -> Prop) format args : yields P (errorf format args).
Proof. by intros ws a ws'. Qed.

Lemma yields_weaken (P Q : A -> Prop) m : (forall a, P a -> Q a) -> yields P m -> yields Q m.
Proof. intros H Hm ws a ws' E. by eapply H, Hm. Qed.

Lemma yields_any (m : V A) : yields (fun _ => True) m.
Proof. done. Qed.
End Yields.

Lemma yields_refuse (P : unit -> Prop) b format args : (b = false -> P tt) -> yields P (refuse b format args).
Proof. intros H. destruct b; [apply yields_error|by apply yields_ret, H]. Qed.

(** The test a refusal has passed, then the rest. *)
Lemma refused {B} (P : B -> Prop) b format args (f : unit -> V B) :
  (b = false -> yields P (f tt)) -> yields P (refuse b format args ≫= f).
Proof. intros H. apply yields_bind with (Q := fun _ => b = false); [by apply yields_refuse|]. intros [] Hb. by apply H. Qed.

Lemma warned_of {B} (P : B -> Prop) b format args (f : unit -> V B) :
  yields P (f tt) -> yields P (warn_if b format args ≫= f).
Proof. intros H. eapply yields_bind; [apply yields_any|]. by intros [] _. Qed.

(** Goes through the refusals and warnings of a section. *)
Ltac validation :=
  repeat first
    [ apply refused; intro
    | apply warned_of
    | apply yields_error ].

(** ** The sections *)

Lemma or_default_nonempty s d : d <> [] -> or_default s d <> [].
Proof. unfold or_default. by destruct (str_eqb_spec s []). Qed.

Definition server_ok (s : Server) : Prop :=
  contains #"." (svHostname s) = true /\ to_lower (svHostname s) = svHostname s /\ 0 < svWorkers s.
Definition tls_ok (t : TLS) : Prop :=
  (tlMinVersion t = #"1.2" \/ tlMinVersion t = #"1.3") /\ 0 < tlExpiryWarnDays t /\ tlCertRoot t <> [].
Definition smtp_ok (m : SMTP) : Prop := 0 < smMaxSize m /\ 0 < smMaxRecipients m.
Definition auth_ok (a : Auth) : Prop := 0 < auMaxFailures a /\ 0 < auLockoutMinutes a.
Definition queue_ok (q : Queue) : Prop := quDir q <> [] /\ 0 < quMaxAttempts q.
Definition antispam_ok (a : Antispam) : Prop :=
  is_enabled (asEnabled a) = true ->
  asBayesFile a <> [] /\ Qlt 0 (asTagScore a) /\ Qle (asTagScore a) (asQuarantineScore a) /\
  Qle (asQuarantineScore a) (asRejectScore a).
Definition antivirus_ok (a : Antivirus) : Prop :=
  avEnabled a = true -> avSocket a <> [] /\ 0 < avTimeoutSeconds a.
Definition blacklist_ok (b : Blacklist) : Prop := is_enabled (blEnabled b) = true -> 0 < blCacheMinutes b.
(** The three counts are unsigned, so that not zero is positive. *)
Definition warm_up_ok (w : Reputation.WarmUp) : Prop :=
  Reputation.wuEnabled w = true ->
  Reputation.wuDay1 w <> 0 /\ Reputation.wuDay1 w <= Reputation.wuDay7 w <= Reputation.wuFull w.
Definition reputation_ok (r : Reputation) : Prop :=
  is_enabled (rpEnabled r) = true -> rpFile r <> [] /\ warm_up_ok (rpWarmUp r).
Definition rate_limit_ok (r : RateLimit) : Prop :=
  (is_enabled (ibEnabled (rlInbound r)) = true ->
   0 < ilConnections (ibIP (rlInbound r)) /\ 0 < ilMessages (ibIP (rlInbound r)) /\
   0 < ilRecipients (ibIP (rlInbound r))) /\
  (is_enabled (ouEnabled (rlOutbound r)) = true ->
   0 < ulMessagesPerHour (ouUser (rlOutbound r)) /\ 0 < ulRecipientsPerHour (ouUser (rlOutbound r))).
(** A known hash, or none. *)
Definition hash_ok (h : str) : Prop := h = [] \/ knownHash h = true.
Definition storage_ok (st : Storage) : Prop :=
  sType st = [] \/ sType st = StorageVirtual \/
  (sType st = StorageSystemUser /\ sUser st <> [] /\ sHome st <> [] /\ sMaildir st <> [] /\ hash_ok (sPasswordHash st)).
Definition domain_ok (d : Domain) : Prop :=
  contains #"." (dName d) = true /\ to_lower (dName d) = dName d /\ storage_ok (dStorage d).
(** A local part and a domain, in lower case, and a Maildir. *)
Definition user_ok (u : User) : Prop :=
  (exists lp dom, uEmail u = lp ++ ("@"%char :: dom) /\ (("@"%char : ascii) ∉ dom) /\ lp <> [] /\ dom <> []) /\
  to_lower (uEmail u) = uEmail u /\ uType u = StorageVirtual /\ uMaildir u <> [] /\ hash_ok (uPasswordHash u).

Lemma to_lower_trim_suffix p s : to_lower s = s -> to_lower (trim_suffix p s) = trim_suffix p s.
Proof.
  intros H. unfold trim_suffix. destruct (has_suffix p s) eqn:E; [|done].
  unfold to_lower. rewrite <- firstn_map. by f_equal.
Qed.

Lemma to_lower_normalizeHost h : to_lower (normalizeHost h) = normalizeHost h.
Proof. apply to_lower_trim_suffix, to_lower_idem. Qed.

Lemma validateServer_ok s : yields server_ok (validateServer s).
Proof.
  unfold validateServer. cbv zeta. validation. to_prop. apply yields_ret.
  split_and!; [done|apply to_lower_normalizeHost|]. cbn [svWorkers]. destruct (svWorkers s =? 0) eqn:E; to_prop; lia.
Qed.

Lemma validateTLS_ok t : yields tls_ok (validateTLS t).
Proof.
  unfold validateTLS. cbv zeta. validation. apply yields_ret. apply negb_false_iff, orb_true_iff in H.
  split_and!; cbn [tlMinVersion tlExpiryWarnDays tlCertRoot].
  - destruct H as [E|E]; apply str_eqb_eq in E; auto.
  - destruct (_ =? 0) eqn:E; to_prop; lia.
  - by apply or_default_nonempty.
Qed.

Lemma validateSMTP_ok m : yields (fun _ => smtp_ok m) (validateSMTP m).
Proof.
  unfold validateSMTP. validation. apply yields_refuse. intros H'. by to_prop.
Qed.

Lemma validateAuth_ok a : yields (fun _ => auth_ok a) (validateAuth a).
Proof.
  unfold validateAuth. validation. apply yields_refuse. intros H'. by to_prop.
Qed.

Lemma validateQueue_ok q : yields queue_ok (validateQueue q).
Proof.
  unfold validateQueue. validation. to_prop. apply yields_ret. split; [by apply or_default_nonempty|done].
Qed.

Lemma validateAntispam_ok a : yields antispam_ok (validateAntispam a).
Proof.
  unfold validateAntispam. destruct (is_enabled (asEnabled a)) eqn:E; cbn [negb].
  - validation. to_prop. apply yields_ret. intros _. cbn [asBayesFile asTagScore asQuarantineScore asRejectScore].
    split_and!; [by apply or_default_nonempty|by apply Reputation.Qle_bool_false|by apply Qle_bool_iff..].
  - apply yields_ret. intros E'. congruence.
Qed.

Lemma validateAntivirus_ok a : yields antivirus_ok (validateAntivirus a).
Proof.
  unfold validateAntivirus. destruct (avEnabled a) eqn:E; cbn [negb].
  - validation. apply yields_ret. intros _. split; [by apply str_eqb_neq|]. cbn [avTimeoutSeconds].
    destruct (_ <=? 0) eqn:E'; to_prop; lia.
  - apply yields_ret. intros E'. congruence.
Qed.

Lemma validateBlacklist_ok b : yields blacklist_ok (validateBlacklist b).
Proof.
  unfold validateBlacklist. destruct (is_enabled (blEnabled b)) eqn:E; cbn [negb].
  - validation. apply yields_ret. intros _. cbn [blCacheMinutes]. destruct (_ <=? 0) eqn:E'; to_prop; lia.
  - apply yields_ret. intros E'. congruence.
Qed.

Lemma validateReputation_ok r : yields reputation_ok (validateReputation r).
Proof.
  unfold validateReputation. destruct (is_enabled (rpEnabled r)) eqn:E; cbn [negb]; cbv zeta.
  2:{ apply yields_ret. intros E'. congruence. }
  eapply yields_bind with (Q := fun _ => warm_up_ok (rpWarmUp r)).
  - destruct (Reputation.wuEnabled (rpWarmUp r)) eqn:Ew; [|apply yields_ret; congruence].
    validation. apply yields_refuse. intros H' _. to_prop. done.
  - intros [] HQ. apply yields_ret. intros _. split; [by apply or_default_nonempty|done].
Qed.

Lemma validateRateLimit_ok r : yields (fun _ => rate_limit_ok r) (validateRateLimit r).
Proof.
  unfold validateRateLimit, rate_limit_ok. cbv zeta.
  apply yields_bind with (Q := fun _ => is_enabled (ibEnabled (rlInbound r)) = true ->
    0 < ilConnections (ibIP (rlInbound r)) /\ 0 < ilMessages (ibIP (rlInbound r)) /\
    0 < ilRecipients (ibIP (rlInbound r))).
  - destruct (is_enabled (ibEnabled _)); [|done].
    apply yields_refuse. intros H' _. by to_prop.
  - intros [] H1. destruct (is_enabled (ouEnabled _)); [|intros ? ? ? _; by split].
    apply yields_refuse. intros H'. split; [done|]. intros _. by to_prop.
Qed.

Lemma hash_known b h : negb (h =s []) && negb b = false -> b = knownHash h -> hash_ok h.
Proof.
  intros H ->. destruct (str_eqb_spec h []) as [E|_]; [by left|]. right. by destruct (knownHash h).
Qed.

Lemma validateStorage_ok name st : yields storage_ok (validateStorage name st).
Proof.
  unfold validateStorage, storage_ok.
  destruct (str_eqb_spec (sType st) []) as [E|_]; [apply yields_ret; auto|].
  destruct (str_eqb_spec (sType st) StorageVirtual) as [E|_]; [apply yields_ret; auto|]. cbn [orb].
  destruct (str_eqb_spec (sType st) StorageSystemUser) as [E|_]; [|apply yields_error].
  validation. apply yields_ret. right; right. cbn [sType sUser sHome sMaildir sPasswordHash].
  apply str_eqb_neq in H. split_and!; [done|done|by apply or_default_nonempty..|by eapply hash_known].
Qed.

Section Lists.
Context (ParseIP : str -> option Container.IP).

Definition addr_ok (addr : str) : Prop :=
  exists host port n, SplitHostPort addr = Ok (host, port) /\ parse_int port = Some n /\ 1 <= n <= 65535 /\
    (host = [] \/ is_Some (ParseIP host)).
(** Off, or an address. *)
Definition listener_ok (addr : str) : Prop := addr = [] \/ addr_ok addr.
Definition listeners_ok (l : Listeners) : Prop :=
  Forall listener_ok [lsSMTP l; lsSMTPS l; lsSubmission l; lsIMAP l; lsIMAPS l; lsPOP3 l; lsPOP3S l].
Definition container_ok (c : Container) : Prop :=
  ctEnabled c = true ->
  is_Some (ParseIP (ctPublicIP c)) /\ (ctInternalIP c = [] \/ is_Some (ParseIP (ctInternalIP c))).
Definition api_ok (a : API) : Prop := apEnabled a = true -> apKeys a <> [] /\ addr_ok (apAddress a).

Lemma empty_or_parsed s : negb (s =s []) && negb (bool_decide (is_Some (ParseIP s))) = false ->
  s = [] \/ is_Some (ParseIP s).
Proof.
  destruct (str_eqb_spec s []) as [E|_]; [by left|]. intros H%negb_false_iff%bool_decide_eq_true. by right.
Qed.

Lemma checkAddr_ok addr : checkAddr ParseIP addr = None -> addr_ok addr.
Proof.
  unfold checkAddr. destruct (SplitHostPort addr) as [[host port]|] eqn:E; [|done]. cbv zeta.
  destruct (parse_int port) as [n|] eqn:En; [|done]. destruct (_ || _) eqn:Hn; [done|]. to_prop.
  destruct (_ && _) eqn:Hh; [done|]. intros _. exists host, port, n.
  split_and!; [done..|lia|lia|by apply empty_or_parsed].
Qed.

Lemma check_address_ok name addr : yields (fun _ => addr_ok addr) (check_address ParseIP name addr).
Proof.
  unfold check_address. destruct (checkAddr _ _) eqn:E; [apply yields_error|].
  by apply yields_ret, checkAddr_ok.
Qed.

Lemma check_listeners_ok ls : yields (fun _ => Forall (fun x => listener_ok x.2) ls) (check_listeners ParseIP ls).
Proof.
  induction ls as [|[name addr] ls IH]; cbn [check_listeners]; [by apply yields_ret|].
  apply yields_bind with (Q := fun _ => listener_ok addr).
  - destruct (str_eqb_spec addr []) as [E|_]; [apply yields_ret; by left|].
    eapply yields_weaken; [|apply check_address_ok]. intros ? H. by right.
  - intros [] H. eapply yields_weaken; [|apply IH]. intros ? H'. by constructor.
Qed.

Lemma validateListeners_ok l : yields (fun _ => listeners_ok l) (validateListeners ParseIP l).
Proof.
  eapply yields_weaken; [|apply check_listeners_ok]. intros ? H. apply Forall_map in H. exact H.
Qed.

Lemma validateContainer_ok c : yields (fun _ => container_ok c) (validateContainer ParseIP c).
Proof.
  unfold validateContainer, container_ok. destruct (ctEnabled c); cbn [negb]; [|by apply yields_ret].
  validation. apply negb_false_iff, bool_decide_eq_true in H0. intros ? ? ? _ _. split; [done|by apply empty_or_parsed].
Qed.

Lemma validateAPI_ok a : yields api_ok (validateAPI ParseIP a).
Proof.
  unfold validateAPI, api_ok. destruct (apEnabled a) eqn:E; cbn [negb]; [|by apply yields_ret; rewrite E]. cbv zeta.
  eapply yields_bind; [apply check_address_ok|]. intros [] Ha. validation.
  eapply yields_bind; [apply yields_any|]. intros _ _. apply yields_ret. intros _. split; [|done].
  cbn [apKeys]. intros E'. by rewrite E' in H.
Qed.

Lemma validateDomain_ok seen h :
  yields (fun h' => domain_ok (hdDomain h') /\ dName (hdDomain h') ∉ seen) (validateDomain seen h).
Proof.
  unfold validateDomain. cbv zeta. validation. to_prop.
  eapply yields_bind; [apply validateStorage_ok|]. intros st Hst. apply yields_ret.
  cbn [hdDomain dName dStorage]. split; [|by apply bool_decide_eq_false in H1].
  split_and!; [done|apply to_lower_normalizeHost|done].
Qed.

Definition names (hs : list Hosted) : list str := map (fun h => dName (hdDomain h)) hs.

Lemma validateDomains_ok ds : forall seen,
  yields (fun hs => Forall (fun h => domain_ok (hdDomain h) /\ dName (hdDomain h) ∉ seen) hs /\ NoDup (names hs))
    (validateDomains seen ds).
Proof.
  induction ds as [|d ds IH]; intros seen; cbn [validateDomains].
  { apply yields_ret. split; [done|apply NoDup_nil_2]. }
  eapply yields_bind; [apply validateDomain_ok|]. intros h [Hh Hs].
  eapply yields_bind; [apply IH|]. intros hs [Hhs Hnd]. apply yields_ret. split.
  - constructor; [done|]. eapply Forall_impl; [exact Hhs|]. intros h' [? ?]. split; [done|set_solver].
  - cbn [names map]. apply NoDup_cons. split; [|done]. intros Hin. apply list_elem_of_In, in_map_iff in Hin as (h' & E & Hin). apply list_elem_of_In in Hin.
    rewrite Forall_forall in Hhs. apply Hhs in Hin as [_ Hin]. set_solver.
Qed.

Lemma validateUser_ok ds a : yields (fun a' => user_ok (acUser a')) (validateUser ds a).
Proof.
  unfold validateUser. cbv zeta. set (email := to_lower _).
  destruct (last_index_byte "@" email) as [i|] eqn:E; [|apply yields_error]. validation.
  to_prop. apply yields_ret. cbn [acUser]. unfold user_ok. cbn [uEmail uType uMaildir uPasswordHash].
  split_and!.
  - apply last_index_byte_Some in E as (lp & dom & E & Hl & Hd). exists lp, dom.
    apply Nat.eqb_neq in H. apply Nat.eqb_neq in H3.
    assert (length email = length lp + S (length dom))%nat as El by (rewrite E, length_app; done).
    split_and!; [done|done| |]; intros ->; simpl in *; lia.
  - apply to_lower_idem.
  - by apply str_eqb_eq.
  - by apply str_eqb_neq.
  - by eapply hash_known.
Qed.

Lemma validateUsers_ok ds us : yields (fun us' => Forall (fun a => user_ok (acUser a)) us') (validateUsers ds us).
Proof.
  induction us as [|u us IH]; cbn [validateUsers]; [by apply yields_ret|].
  eapply yields_bind; [apply validateUser_ok|]. intros u' Hu.
  eapply yields_bind; [apply IH|]. intros us' Hus. apply yields_ret. by constructor.
Qed.
End Lists.

(** ** The whole file *)

Record root_ok (ParseIP : str -> option Container.IP) (c : Root) : Prop := {
  ok_server : server_ok (cfServer c);
  ok_listeners : listeners_ok ParseIP (cfListeners c);
  ok_tls : tls_ok (cfTLS c);
  ok_smtp : smtp_ok (cfSMTP c);
  ok_auth : auth_ok (cfAuth c);
  ok_queue : queue_ok (cfQueue c);
  ok_antispam : antispam_ok (cfAntispam c);
  ok_antivirus : antivirus_ok (cfAntivirus c);
  ok_blacklist : blacklist_ok (cfBlacklist c);
  ok_reputation : reputation_ok (cfReputation c);
  ok_container : container_ok ParseIP (cfContainer c);
  ok_rate_limit : rate_limit_ok (cfRateLimit c);
  ok_domains : Forall (fun h => domain_ok (hdDomain h)) (cfDomains c);
  ok_names : NoDup (names (cfDomains c));
  ok_users : Forall (fun a => user_ok (acUser a)) (cfUsers c);
  ok_api : api_ok ParseIP (cfAPI c);
  ok_dirs : cfDKIMDir c <> [] /\ cfLogDir c <> [] }.

(** One more section, then the rest. *)
Ltac section_with L :=
  eapply yields_bind; [apply L|]; let x := fresh "x" in let Hx := fresh "Hx" in intros x Hx.

Lemma validate_ok ParseIP c : yields (root_ok ParseIP) (validate ParseIP c).
Proof.
  unfold validate.
  section_with validateServer_ok. section_with validateListeners_ok. section_with validateTLS_ok.
  section_with validateSMTP_ok. section_with validateAuth_ok. section_with validateQueue_ok.
  section_with validateAntispam_ok. section_with validateAntivirus_ok. section_with validateBlacklist_ok.
  section_with validateReputation_ok. section_with validateContainer_ok. section_with validateRateLimit_ok.
  section_with validateDomains_ok. apply warned_of. section_with validateUsers_ok. section_with validateAPI_ok.
  apply yields_ret. destruct Hx11 as [Hd Hn]. split; try done.
  - cbn [cfDomains]. eapply Forall_impl; [exact Hd|]. by intros h [? _].
  - split; by apply or_default_nonempty.
Qed.

(** ** The compiled rules *)

Definition gov_ok (r : Governor.GovRule) : Prop :=
  Governor.grBy r ∈ validRateLimitDims /\
  Governor.grDirection r ∈ [ []; Governor.DirInbound; Governor.DirOutbound] /\
  0 < Governor.grWindow r /\ (0 < Governor.grMessages r \/ 0 < Governor.grRecipients r).

Lemma window_of_pos s w : window_of s = Some w -> 0 < w.
Proof.
  unfold window_of. destruct (s =s []); [intros [= <-]; done|].
  destruct (ParseDuration s) as [d|]; [|done]. destruct (d <=? 0) eqn:E; [done|]. intros [= <-]. to_prop. done.
Qed.

Lemma compile_rule_ok r g : compile_rule r = Ok g -> gov_ok g.
Proof.
  unfold compile_rule. destruct (existsb _ _) eqn:Eb; [|done]. cbn [negb].
  destruct (_ && _ && _) eqn:Ed; [done|]. destruct (window_of _) as [w|] eqn:Ew; [|done].
  destruct ((_ <=? 0) && _) eqn:Ec; [done|]. intros [= <-]. apply window_of_pos in Ew.
  apply existsb_exists in Eb as (d & Hd & E). apply str_eqb_eq in E as <-.
  split_and!; [by apply list_elem_of_In| |done|]; cbn [Governor.grDirection Governor.grMessages Governor.grRecipients].
  - destruct (str_eqb_spec (rrDirection r) []) as [->|_]; [set_solver|].
    destruct (str_eqb_spec (rrDirection r) Governor.DirInbound) as [->|_]; [set_solver|].
    destruct (str_eqb_spec (rrDirection r) Governor.DirOutbound) as [->|_]; [set_solver|done].
  - apply andb_false_iff in Ec as [?|?]; to_prop; auto.
Qed.

Lemma cap_rule_ok dim s r g : dim ∈ validRateLimitDims -> cap_rule dim s r = Some g -> gov_ok g.
Proof.
  unfold cap_rule. intros Hd. destruct (_ || _) eqn:E; [|done]. intros [= <-].
  split_and!; [done|set_solver|done|]. apply orb_true_iff in E as [?|?]; to_prop; auto.
Qed.

Lemma Forall_omap {A B} (P : B -> Prop) (f : A -> option B) l :
  (forall a b, f a = Some b -> P b) -> Forall P (omap f l).
Proof. intros H. apply Forall_forall. intros b (a & _ & E)%list_elem_of_omap. eauto. Qed.

Lemma accepted_Some {A} (r : result message A) a : accepted r = Some a -> r = Ok a.
Proof. destruct r; simpl; congruence. Qed.

Lemma Forall_accepted {A B} (P : B -> Prop) (f : A -> result message B) l :
  (forall a b, f a = Ok b -> P b) -> Forall P (omap accepted (map f l)).
Proof.
  intros H. apply Forall_forall. intros b (r & Hr & E%accepted_Some)%list_elem_of_omap.
  apply list_elem_of_In, in_map_iff in Hr as (a & Ea & _). apply (H a). by rewrite Ea.
Qed.

Lemma compileRateLimitRules_ok c : Forall gov_ok (compileRateLimitRules c).1.
Proof.
  unfold compileRateLimitRules. cbn [fst]. rewrite !Forall_app. split_and!.
  - apply Forall_accepted, compile_rule_ok.
  - apply Forall_omap. intros d g. apply cap_rule_ok. set_solver +.
  - apply Forall_omap. intros u g. destruct (acOutbound u); [|done]. apply cap_rule_ok. set_solver +.
Qed.

(** Somewhere to go, a rate above zero and room for a message. *)
Definition pace_rule_ok (r : Pace.Rule) : Prop :=
  Pace.rlMatch r <> [] /\ Qlt 0 (Pace.lmRate (Pace.rlLimit r)) /\ Qle 1 (Pace.lmBurst (Pace.rlLimit r)).

Lemma seconds_pos d : 0 < d -> Qlt 0 (Pace.seconds d).
Proof.
  intros H. unfold Pace.seconds. apply Qlt_shift_div_l; [done|]. rewrite Qmult_0_l. by rewrite <- (Zlt_Qlt 0).
Qed.

Lemma ratio_pos n d : 0 < n -> 0 < d -> Qlt 0 (inject_Z n / Pace.seconds d).
Proof.
  intros Hn Hd. apply Qlt_shift_div_l; [by apply seconds_pos|]. rewrite Qmult_0_l. by rewrite <- (Zlt_Qlt 0).
Qed.

Lemma one_le n : 0 < n -> Qle 1 (inject_Z n).
Proof. intros H. change 1%Q with (inject_Z 1). rewrite <- Zle_Qle. lia. Qed.

Lemma paceRule_ok context r p : paceRule context r = Ok p -> pace_rule_ok p.
Proof.
  unfold paceRule. destruct (str_eqb_spec (thTo r) []) as [E|Hto]; [done|].
  destruct (str_eqb_spec (thInterval r) []) as [E|Hi]; cbn [negb].
  - destruct (0 <? thMessages r) eqn:Em; [|done]. destruct (window_of _) as [w|] eqn:Ew; [|done].
    apply window_of_pos in Ew. intros [= <-]. to_prop. split_and!; [done|by apply ratio_pos|].
    cbn [Pace.rlLimit Pace.lmBurst]. destruct (thBurst r <=? 0) eqn:Eb; to_prop; by apply one_le.
  - destruct (ParseDuration _) as [d|]; [|done]. destruct (d <=? 0) eqn:Ed; [done|]. intros [= <-]. to_prop.
    split_and!; [done|by apply (ratio_pos 1)|]. cbn [Pace.rlLimit Pace.lmBurst].
    destruct (thBurst r <=? 0) eqn:Eb; [done|]. to_prop. by apply one_le.
Qed.

Definition scopes_ok (l : list (str * list Pace.Rule)) : Prop := Forall (fun x => Forall pace_rule_ok x.2) l.
Definition pacing_ok (c : Pace.Config) : Prop :=
  Forall pace_rule_ok (Pace.pcGlobal c) /\ Forall pace_rule_ok (Pace.pcPerIP c) /\
  scopes_ok (Pace.pcByDomain c) /\ scopes_ok (Pace.pcByMailbox c).

Lemma add_rules_ok m key rs :
  map_Forall (fun _ l => Forall pace_rule_ok l) m -> Forall pace_rule_ok rs ->
  map_Forall (fun _ l => Forall pace_rule_ok l) (add_rules m key rs).
Proof.
  intros Hm Hr. unfold add_rules. destruct rs as [|r rs]; [done|]. apply map_Forall_insert_2; [|done].
  apply Forall_app. split; [|done]. destruct (m !! key) eqn:E; [by eapply Hm|done].
Qed.

Lemma fold_rules_ok {A} (key : A -> str) (rules : A -> list (result message Pace.Rule)) l :
  (forall a, Forall pace_rule_ok (omap accepted (rules a))) -> forall m,
  map_Forall (fun _ l => Forall pace_rule_ok l) m ->
  map_Forall (fun _ l => Forall pace_rule_ok l) (fold_left (fun m a => add_rules m (key a) (omap accepted (rules a))) l m).
Proof. intros Hr. induction l as [|a l IH]; intros m Hm; [done|]. by apply IH, add_rules_ok. Qed.

Lemma scopes_of_map (m : gmap str (list Pace.Rule)) :
  map_Forall (fun _ l => Forall pace_rule_ok l) m -> scopes_ok (map_to_list m).
Proof.
  intros Hm. apply Forall_forall. intros [k l] H. apply elem_of_map_to_list in H. by eapply Hm.
Qed.

Lemma compileThrottle_ok c : pacing_ok (compileThrottle c).1.
Proof.
  assert (forall per_ip, Forall pace_rule_ok (omap (fun x : bool * result message Pace.Rule =>
    if Bool.eqb x.1 per_ip then accepted x.2 else None)
    (map (fun r => (thPerIP r, paceRule #"queue.throttle" r)) (quThrottle (cfQueue c))))) as Hg.
  { intros per_ip. apply Forall_forall. intros p ([b r] & Hr & E)%list_elem_of_omap.
    apply list_elem_of_In, in_map_iff in Hr as (t & [= <- <-] & _). cbn [fst snd] in E.
    destruct (Bool.eqb _ _); [|done]. apply accepted_Some in E. by eapply paceRule_ok. }
  split_and!; [apply Hg..| |]; apply scopes_of_map, fold_rules_ok; [|apply map_Forall_empty| |apply map_Forall_empty].
  - intros d. apply Forall_accepted, paceRule_ok.
  - intros u. unfold mailbox_rules. destruct (acOutbound u); [|done]. apply Forall_accepted, paceRule_ok.
Qed.

(** ** Loading *)

(** The configuration that runs. *)
Record loaded_ok (ParseIP : str -> option Container.IP) (l : Loaded) : Prop := {
  lo_root : root_ok ParseIP (ldRoot l);
  lo_rules : Forall gov_ok (ldGovRules l);
  lo_throttle : pacing_ok (ldThrottle l) }.

Section Loading.
Context `{YamlCodec} (ParseIP : str -> option Container.IP).

Lemma finish_ok p c dir g l : finish ParseIP p c dir g = Ok l -> loaded_ok ParseIP l.
Proof.
  unfold finish. destruct (validate _ _ _) as [[c'|e] ws] eqn:E; [|done].
  pose proof (compileRateLimitRules_ok c') as Hr. pose proof (compileThrottle_ok c') as Ht.
  destruct (compileRateLimitRules c') as [rules ws1], (compileThrottle c') as [throttle ws2].
  intros [= <-]. split; [by eapply validate_ok|done|done].
Qed.

Lemma Load_ok p w l w' : Load ParseIP p w = (Ok (Ok l), w') -> loaded_ok ParseIP l.
Proof.
  unfold Load. unfold mbind, M_bind. destruct (try (ReadFile p) w) as [[[content|]|] w1]; try done.
  destruct (decode_root defaults content) as [c|e]; [|done]. cbv zeta.
  destruct (cfDomains c); [|done]. destruct (cfUsers c); [|done].
  destruct (loadDomains _ _ w1) as [[[g|]|] w2]; try done. intros [= E _]. by eapply finish_ok.
Qed.

(** C6. A configuration that loads is sound: the host name is qualified, every
    listener and the API have an address that binds, every limit is positive,
    the spam thresholds are ordered and the warm-up ramp grows, the domains
    are distinct, lower-case and with a storage that can be used, every
    mailbox has an address with both parts, a Maildir and no cleartext
    password, the API has a key, and every compiled rate or pacing rule has a
    known dimension, a window and a limit above zero. *)
Theorem Load_sound p w l w' : Load ParseIP p w = (Ok (Ok l), w') -> loaded_ok ParseIP l.
Proof. apply Load_ok. Qed.
End Loading.

(** ** Warnings decide nothing *)

Definition blind {A} (m : V A) : Prop := forall ws1 ws2, (m ws1).1 = (m ws2).1.

Lemma blind_bind {A B} (m : V A) (f : A -> V B) : blind m -> (forall a, blind (f a)) -> blind (m ≫= f).
Proof.
  intros Hm Hf ws1 ws2. unfold mbind, V_bind. specialize (Hm ws1 ws2).
  destruct (m ws1) as [r1 w1], (m ws2) as [r2 w2]. cbn [fst] in Hm. subst r2. by destruct r1; [apply Hf|].
Qed.
Lemma blind_if {A} (b : bool) (m1 m2 : V A) : blind m1 -> blind m2 -> blind (if b then m1 else m2).
Proof. by destruct b. Qed.

Ltac blind_auto :=
  repeat first
    [ done
    | apply blind_bind; [|intros ?]
    | apply blind_if
    | match goal with |- blind (match ?x with _ => _ end) => destruct x end
    | match goal with |- blind (?f _) => progress unfold f end
    | match goal with |- blind (?f _ _) => progress unfold f end
    | match goal with |- blind (?f _ _ _) => progress unfold f end
    | progress cbv zeta ].

Lemma validateDomains_blind ds : forall seen, blind (validateDomains seen ds).
Proof.
  induction ds as [|d ds IH]; intros seen; cbn [validateDomains]; [done|].
  apply blind_bind; [unfold validateDomain; cbv zeta; blind_auto|]. intros h. by apply blind_bind.
Qed.
Lemma validateUsers_blind ds us : blind (validateUsers ds us).
Proof.
  induction us as [|u us IH]; cbn [validateUsers]; [done|].
  apply blind_bind; [unfold validateUser; cbv zeta; blind_auto|]. intros h. by apply blind_bind.
Qed.
Lemma check_listeners_blind ParseIP ls : blind (check_listeners ParseIP ls).
Proof. induction ls as [|[n a] ls IH]; cbn [check_listeners]; [done|]. apply blind_bind; [|done]. blind_auto. Qed.
Lemma warn_keys_blind ks : blind (warn_keys ks).
Proof. induction ks as [|k ks IH]; cbn [warn_keys]; [done|]. apply blind_bind; [|done]. blind_auto. Qed.
Lemma validateAPI_blind ParseIP a : blind (validateAPI ParseIP a).
Proof.
  unfold validateAPI. apply blind_if; [done|]. cbv zeta. apply blind_bind; [blind_auto|]. intros _.
  apply blind_bind; [blind_auto|]. intros _. apply blind_bind; [apply warn_keys_blind|done].
Qed.

Lemma validate_blind ParseIP c : blind (validate ParseIP c).
Proof.
  unfold validate. apply blind_bind; [blind_auto|intros ?].
  apply blind_bind; [apply check_listeners_blind|intros ?].
  do 10 (apply blind_bind; [blind_auto|intros ?]).
  apply blind_bind; [apply validateDomains_blind|intros ?].
  apply blind_bind; [blind_auto|intros ?].
  apply blind_bind; [apply validateUsers_blind|intros ?].
  apply blind_bind; [apply validateAPI_blind|done].
Qed.

(** ** One broken domain file *)

(** The files of a directory that the server reads. *)
Definition domain_files (w : world) (d : path) : list str :=
  sort_slice str_ltb (omap domain_name
    (sort_slice (fun a b => str_ltb (deName a) (deName b)) (file_entries w d ++ dir_entries w d))).

Definition sorted_names : list str -> Prop := StronglySorted (not_less str_ltb).

Lemma sort_names_sorted l : sorted_names (sort_slice str_ltb l).
Proof.
  apply sort_slice_sorted; [apply str_ltb_asym|]. unfold not_less. intros x y z. apply str_ltb_trans.
Qed.

Lemma sorted_names_unique l1 l2 : sorted_names l1 -> sorted_names l2 -> l1 ≡ₚ l2 -> l1 = l2.
Proof.
  assert (AntiSymm (=) (not_less str_ltb)) by (intros x y ? ?; by apply str_ltb_antisym).
  by apply (StronglySorted_unique (not_less str_ltb)).
Qed.

Lemma sorted_names_cut l1 n l2 : sorted_names (l1 ++ n :: l2) -> sorted_names (l1 ++ l2).
Proof.
  intros H. induction l1 as [|x l1 IH]; simpl in *; apply StronglySorted_inv in H as [HS HF]; [done|].
  constructor; [by apply IH|]. apply Forall_app in HF as [? HF]. apply Forall_cons in HF as [_ ?]. by apply Forall_app.
Qed.

Lemma domain_files_perm w d :
  domain_files w d ≡ₚ omap domain_name (file_entries w d).
Proof.
  unfold domain_files. rewrite sort_slice_perm, sort_slice_perm, omap_app.
  assert (omap domain_name (dir_entries w d) = []) as ->; [|by rewrite app_nil_r].
  unfold dir_entries. induction (elements (wDirs w)) as [|q l IH]; [done|]. cbn [omap list_omap].
  destruct (last q) as [n|]; [|done]. by case_decide.
Qed.

(** Without one of its files, the others of a directory in their order. *)
Lemma domain_files_without w d n f :
  wFiles w !! (d ++ [n]) = Some f -> has_suffix #".yaml" n = true -> has_prefix #"." n = false ->
  exists l1 l2, domain_files w d = l1 ++ n :: l2 /\
    domain_files (set_files (delete (d ++ [n]) (wFiles w)) w) d = l1 ++ l2.
Proof.
  intros Hf Hs Hp. set (w' := set_files _ w).
  assert (domain_files w d ≡ₚ n :: domain_files w' d) as HP.
  { rewrite !domain_files_perm. unfold file_entries. cbn [wFiles w' set_files].
    rewrite <- (map_to_list_delete (wFiles w) (d ++ [n]) f) by done. cbn [omap list_omap fst snd].
    rewrite last_snoc, parent_snoc, decide_True by done. cbn [omap list_omap domain_name deFile deName].
    by rewrite Hs, Hp. }
  assert (n ∈ domain_files w d) as (l1 & l2 & E)%list_elem_of_split by (rewrite HP; left).
  exists l1, l2. split; [done|]. apply sorted_names_unique.
  - apply sort_names_sorted.
  - apply (sorted_names_cut l1 n l2). rewrite <- E. apply sort_names_sorted.
  - rewrite E, <- Permutation_middle in HP. by apply Permutation_cons_inv in HP.
Qed.

Section Isolation.
Context `{YamlCodec} (ParseIP : str -> option Container.IP).

(** Reading a file when nothing fails. *)
Definition read_domain (w : world) (p : path) : result message DomainFile :=
  match wFiles w !! p with
  | Some f => decode_file p (fData f)
  | None => Err (mkMessage #"%s: %w" [render p])
  end.

Lemma ReadFile_quiet p w : wFaults w = [] ->
  ReadFile p w = (match wFiles w !! p with Some f => Ok (fData f) | None => Err ENOENT end, w).
Proof.
  intros Hw. unfold ReadFile. rewrite syscall_ok by done. unfold mbind, M_bind, get_world.
  by destruct (wFiles w !! p).
Qed.

Lemma loadDomainFile_quiet p w : wFaults w = [] -> loadDomainFile p w = (Ok (read_domain w p), w).
Proof.
  intros Hw. unfold loadDomainFile, read_domain, mbind, M_bind, try. rewrite ReadFile_quiet by done.
  by destruct (wFiles w !! p).
Qed.

Definition gather_file (w : world) (d : path) (g : gathered) (n : str) : gathered :=
  gather (join_path d n) g (read_domain w (join_path d n)).

Lemma load_files_quiet d w : wFaults w = [] -> forall ns g,
  load_files d ns g w = (Ok (fold_left (gather_file w d) ns g), w).
Proof.
  intros Hw. induction ns as [|n ns IH]; intros g; cbn [load_files fold_left]; [done|].
  unfold mbind, M_bind. rewrite loadDomainFile_quiet by done. apply IH.
Qed.

(** What the server takes from the files, the warnings aside. *)
Definition taken (g : gathered) : gset str * list Hosted * list Account := (gaSeen g, gaDomains g, gaUsers g).

Lemma gather_taken p g1 g2 r : taken g1 = taken g2 -> taken (gather p g1 r) = taken (gather p g2 r).
Proof.
  destruct g1 as [s1 d1 u1 w1], g2 as [s2 d2 u2 w2]. unfold taken. cbn [gaSeen gaDomains gaUsers].
  intros [= -> -> ->]. destruct r as [df|e]; [|done]. unfold gather. cbn [gaSeen]. by case_decide.
Qed.

Lemma fold_taken w1 w2 d ns :
  (forall n, n ∈ ns -> read_domain w1 (join_path d n) = read_domain w2 (join_path d n)) -> forall g1 g2,
  taken g1 = taken g2 ->
  taken (fold_left (gather_file w1 d) ns g1) = taken (fold_left (gather_file w2 d) ns g2).
Proof.
  induction ns as [|n ns IH]; intros Hn g1 g2 Hg; [done|]. cbn [fold_left]. apply IH.
  - intros m Hm. apply Hn. by right.
  - unfold gather_file. rewrite <- Hn by (by left). by apply gather_taken.
Qed.

(** Two outcomes that differ in warnings at most. *)
Definition same_outcome (r1 r2 : result message Loaded) : Prop :=
  match r1, r2 with
  | Ok l1, Ok l2 => ldRoot l1 = ldRoot l2 /\ ldGovRules l1 = ldGovRules l2 /\ ldThrottle l1 = ldThrottle l2
  | Err e1, Err e2 => e1 = e2
  | _, _ => False
  end.

Lemma finish_taken p c dir g1 g2 : taken g1 = taken g2 -> same_outcome (finish ParseIP p c dir g1) (finish ParseIP p c dir g2).
Proof.
  destruct g1 as [s1 d1 u1 w1], g2 as [s2 d2 u2 w2]. unfold taken. cbn [gaSeen gaDomains gaUsers].
  intros [= -> -> ->]. unfold finish. cbn [gaDomains gaUsers gaWarnings].
  pose proof (validate_blind ParseIP (with_domains c dir d2 u2) w1 w2) as E.
  destruct (validate _ _ w1) as [r1 v1], (validate _ _ w2) as [r2 v2]. cbn [fst] in E. subst r2.
  destruct r1 as [c'|e]; [|done]. by destruct (compileRateLimitRules c'), (compileThrottle c').
Qed.

Lemma domain_file_in w d m : m ∈ domain_files w d -> is_Some (wFiles w !! (d ++ [m])).
Proof.
  rewrite domain_files_perm. intros (ent & Hin & Hn)%list_elem_of_omap.
  unfold file_entries in Hin. apply list_elem_of_omap in Hin as ([q f] & Hq & E). apply elem_of_map_to_list in Hq.
  cbn [fst snd] in E. destruct (last q) as [x|] eqn:El; [|done]. case_decide as Ed; [|done]. injection E as <-. subst d.
  unfold domain_name in Hn. cbn [deFile deName] in Hn. destruct (_ || _); [done|]. injection Hn as <-.
  apply last_Some in El as [l ->]. rewrite parent_snoc. by eexists.
Qed.

Lemma loadDomains_quiet dir w ws :
  wFaults w = [] -> abs_path dir ∈ wDirs w ->
  loadDomains dir ws w =
    (Ok (Ok (fold_left (gather_file w (abs_path dir)) (domain_files w (abs_path dir)) (mkGathered ∅ [] [] ws))), w).
Proof.
  intros Hw Hd. unfold loadDomains, mbind, M_bind, try. rewrite ReadDir_ok by done.
  rewrite decide_True by done. by rewrite load_files_quiet.
Qed.

(** The state after the files before and after a broken one. *)
Lemma gathered_without w d n f e g :
  let w' := set_files (delete (d ++ [n]) (wFiles w)) w in
  wf_world w -> wFiles w !! (d ++ [n]) = Some f -> has_suffix #".yaml" n = true -> has_prefix #"." n = false ->
  decode_file (d ++ [n]) (fData f) = Err e ->
  taken (fold_left (gather_file w d) (domain_files w d) g) =
  taken (fold_left (gather_file w' d) (domain_files w' d) g).
Proof.
  intros w' [Hpl _] Hf Hs Hp He. destruct (domain_files_without w d n f Hf Hs Hp) as (l1 & l2 & E & E').
  fold w' in E'. rewrite E, E'.
  assert (forall m, is_Some (wFiles w !! (d ++ [m])) -> plain m) as Hpl'.
  { intros m Hm%Hpl. apply Forall_app in Hm as [_ Hm]. exact (proj1 (Forall_singleton _ _) Hm). }
  assert (forall m, m ∈ l1 ++ l2 -> read_domain w (join_path d m) = read_domain w' (join_path d m)) as Hsame.
  { intros m Hm. rewrite <- E' in Hm. apply domain_file_in in Hm as [x Hx].
    assert (m <> n /\ wFiles w !! (d ++ [m]) = Some x) as [Hne Hx'].
    { cbn [w' set_files wFiles] in Hx. apply lookup_delete_Some in Hx as [Hne ?]. split; [|done]. intros ->. by apply Hne. }
    assert (plain m) as Hm by (by apply Hpl', (mk_is_Some _ _ Hx')).
    rewrite join_plain by done. unfold read_domain. by rewrite Hx, Hx'. }
  assert (plain n) as Hn by (by apply Hpl', (mk_is_Some _ _ Hf)).
  rewrite !fold_left_app. cbn [fold_left]. apply fold_taken; [intros m Hm; apply Hsame; set_solver +Hm|].
  transitivity (taken (fold_left (gather_file w d) l1 g)).
  - unfold gather_file at 1. rewrite join_plain by done. unfold read_domain. rewrite Hf, He. done.
  - apply fold_taken; [intros m Hm; apply Hsame; set_solver +Hm|done].
Qed.

(** C39. One broken domain file does not take the others down: with nothing
    failing underneath, a file of the domains directory that does not decode,
    or whose name does not agree with what it declares, leaves the loaded
    configuration as it would be without that file; only the warnings tell. *)
Theorem broken_domain_isolated p w n f e c content :
  let dir := domainsDir c p in
  let d := abs_path dir in
  let w' := set_files (delete (d ++ [n]) (wFiles w)) w in
  wFaults w = [] -> wf_world w -> wFiles w !! p = Some content -> decode_root defaults (fData content) = Ok c ->
  d ∈ wDirs w -> p <> d ++ [n] ->
  wFiles w !! (d ++ [n]) = Some f -> has_suffix #".yaml" n = true -> has_prefix #"." n = false ->
  decode_file (d ++ [n]) (fData f) = Err e ->
  exists r r', Load ParseIP p w = (Ok r, w) /\ Load ParseIP p w' = (Ok r', w') /\ same_outcome r r'.
Proof.
  intros dir d w' Hw Hwf Hc Hroot Hd Hne Hf Hs Hp He.
  assert (forall v, wFaults v = [] -> wDirs v = wDirs w -> wFiles v !! p = Some content ->
    Load ParseIP p v = (Ok (match cfDomains c, cfUsers c with
      | [], [] => finish ParseIP p c dir (fold_left (gather_file v d) (domain_files v d) (mkGathered ∅ [] [] []))
      | _, _ => Err (mkMessage #"%s: domains and users now live in one file per domain under %s" [render p; dir]) end), v)) as HL.
  { intros v Hv Hdv Hcv. unfold Load. unfold mbind at 1, M_bind at 1, try at 1. rewrite ReadFile_quiet, Hcv by done.
    cbn [fst snd]. rewrite Hroot. cbv zeta. destruct (cfDomains c); [|done]. destruct (cfUsers c); [|done].
    unfold mbind, M_bind. rewrite loadDomains_quiet by (rewrite ?Hdv; done). done. }
  eexists _, _. split; [by apply HL|]. split; [apply HL; [done|done|]|].
  { cbn [wFiles w' set_files]. by rewrite lookup_delete_ne. }
  destruct (cfDomains c); [|done]. destruct (cfUsers c); [|done].
  apply finish_taken. by apply (gathered_without w d n f e).
Qed.
End Isolation.

(** ** Reloads *)

Section Reloads.
Context `{YamlCodec} (ParseIP : str -> option Container.IP).

(** SIGHUPs, each on the disk as it then is. *)
Definition reloads (m : Manager) (disks : list world) : Manager :=
  fold_left (fun m w => match Reload ParseIP m w with (Ok (_, m), _) => m | (Err _, _) => m end) disks m.
(** What each of them loads. *)
Definition loads (p : path) (disks : list world) : list (result message Loaded) :=
  omap (fun w => match Load ParseIP p w with (Ok r, _) => Some r | (Err _, _) => None end) disks.

Lemma Load_answers p w : exists r w', Load ParseIP p w = (Ok r, w').
Proof.
  unfold Load, mbind, M_bind, try. destruct (ReadFile p w) as [[content|] w1]; [|by eexists _, _].
  destruct (decode_root defaults content) as [c|]; [|by eexists _, _]. cbv zeta.
  destruct (cfDomains c); [|by eexists _, _]. destruct (cfUsers c); [|by eexists _, _].
  unfold loadDomains, mbind, M_bind, try. destruct (ReadDir _ w1) as [[ents|] w2]; [|by eexists _, _].
  assert (forall d ns g w, exists g' w', load_files d ns g w = (Ok g', w')) as HF.
  { intros d ns. induction ns as [|n ns IH]; intros g w0; cbn [load_files]; [by eexists _, _|].
    unfold mbind, M_bind, loadDomainFile, mbind, M_bind, try. destruct (ReadFile _ w0) as [[?|] ?]; apply IH. }
  match goal with |- context [load_files ?d ?l ?g w2] => destruct (HF d l g w2) as (g' & w3 & ->) end.
  by eexists _, _.
Qed.

(** The running configuration is never a broken one: after any number of
    reloads, whatever is on disk at each of them, it is sound, it is the one
    that loaded last (the one the daemon started with if none has), and an
    error is kept for the status page exactly when the last reload failed. *)
Theorem reloads_keep_last_good p w m w' disks :
  NewManager ParseIP p w = (Ok (Ok m), w') ->
  loaded_ok ParseIP (Get (reloads m disks)) /\
  Get (reloads m disks) = default (Get m) (last (omap accepted (loads p disks))) /\
  LastError (reloads m disks) = match last (loads p disks) with Some (Err e) => Some e | _ => None end.
Proof.
  unfold NewManager, mbind, M_bind. destruct (Load ParseIP p w) as [[[l|]|] w1] eqn:EL; try done.
  intros [= <- _]. apply Load_ok in EL.
  induction disks as [|v disks IH] using rev_ind; [done|]. destruct IH as (Hok & Hcur & _).
  unfold reloads in *. rewrite fold_left_app. unfold loads in *. rewrite !omap_app.
  set (m := fold_left _ _ _) in *. assert (mgPath m = p) as Hp.
  { unfold m. clear. generalize (mkManager p l None), (eq_refl : mgPath (mkManager p l None) = p). induction disks as [|v disks IH]; intros m0 Hm0; [done|].
    cbn [fold_left]. apply IH. unfold Reload, mbind, M_bind. by destruct (Load _ _ _) as [[[?|?]|] ?]. }
  cbn [fold_left omap list_omap]. unfold Reload, mbind, M_bind. rewrite Hp.
  destruct (Load_answers p v) as (r & v' & E). rewrite E. cbn [omap list_omap].
  rewrite !last_snoc. destruct r as [l'|e]; cbn [mret M_ret accepted omap list_omap].
  - rewrite last_snoc. split_and!; [by eapply Load_ok|done|done].
  - rewrite app_nil_r. by split_and!.
Qed.
End Reloads.

(** ** Examples *)

Definition toy_root (r : Root) : Root := {|
  cfServer := mkServer #" Mail.Example.com. " 0; cfListeners := cfListeners r; cfTLS := cfTLS r; cfSMTP := cfSMTP r;
  cfMailAuth := cfMailAuth r; cfAuth := cfAuth r; cfQueue := cfQueue r; cfDKIMDir := cfDKIMDir r;
  cfAntispam := cfAntispam r; cfAntivirus := cfAntivirus r; cfBlacklist := cfBlacklist r;
  cfReputation := cfReputation r; cfContainer := cfContainer r;
  cfRateLimit := mkRateLimit (rlInbound (cfRateLimit r)) (rlOutbound (cfRateLimit r))
    [mkRateLimitRule #"ip" [] #"inbound" #"10m" 20 0; mkRateLimitRule #"colour" [] [] [] 20 0];
  cfSRSSecret := cfSRSSecret r; cfEgress := cfEgress r; cfDomainsDir := cfDomainsDir r; cfDomains := cfDomains r;
  cfUsers := cfUsers r; cfAPI := cfAPI r; cfLogDir := cfLogDir r |}.
Definition toy_user (email hash : str) : Account :=
  mkAccount (mkUser email [] #"/srv/mail" hash [] None [] []) None.
Definition toy_file (us : list Account) : DomainFile :=
  mkDomainFile [] [] (mkStorage [] [] [] [] []) us [] []
    (mkOutboundPolicy [] (mkOutboundRate 100 0) [mkThrottleRule #"gmail.com" #"5s" 0 [] 0 false]) #"10G".
(** Files of one line: the kind of their content. *)
#[export] Instance toy_yaml : YamlCodec := {|
  decode_root r s := if s =s #"main" then Ok (toy_root r) else Err #"yaml: line 1";
  decode_domain s :=
    if s =s #"empty" then Ok (toy_file [])
    else if s =s #"ann" then Ok (toy_file [toy_user #"Ann@B.example" #"$2b$10$x"])
    else if s =s #"cleartext" then Ok (toy_file [toy_user #"joe@c.example" #"hunter2"])
    else Err #"yaml: line 1" |}.

Definition toy_main : path := [ #"etc"; #"verta"; #"config.yaml"].
Definition toy_dir : path := [ #"etc"; #"verta"; #"domains"].
Definition toy_disk (domains : list (str * str)) : world :=
  mkWorld (list_to_map ((toy_main, mkFile #"main" 0)
             :: map (fun d => (toy_dir ++ [d.1 ++ #".yaml"], mkFile d.2 0)) domains))
          {[ []; [ #"etc"]; [ #"etc"; #"verta"]; toy_dir ]} [] 0 [] [] 0 0 #"host".
Lemma toy_disk_wf ds :
  forallb (forallb plain_b) ((map_to_list (wFiles (toy_disk ds))).*1 ++ elements (wDirs (toy_disk ds))) = true ->
  wf_world (toy_disk ds).
Proof.
  intros H. assert (forall q, q ∈ (map_to_list (wFiles (toy_disk ds))).*1 ++ elements (wDirs (toy_disk ds)) -> Forall plain q) as HF.
  { intros q Hq. rewrite forallb_forall in H. specialize (H q (proj1 (list_elem_of_In _ _) Hq)).
    apply Forall_forall. intros n Hn. rewrite forallb_forall in H. by apply plain_b_ok, H, list_elem_of_In. }
  split; intros q Hq; apply HF, elem_of_app.
  - left. destruct Hq as [f Hf]. apply list_elem_of_fmap. exists (q, f). split; [done|by apply elem_of_map_to_list].
  - right. by apply elem_of_elements.
Qed.
Definition toy_load (domains : list (str * str)) : result message Loaded :=
  match Load (fun _ => None) toy_main (toy_disk domains) with (Ok r, _) => r | (Err _, _) => Err (mkMessage [] []) end.
Definition served (r : result message Loaded) : option (list str * list str * nat) :=
  match r with
  | Ok l => Some (names (cfDomains (ldRoot l)), map (fun a => uEmail (acUser a)) (cfUsers (ldRoot l)), length (ldWarnings l))
  | Err _ => None
  end.

(** A file that does not decode is skipped with a warning (beside the one of
    the unknown dimension), but one that decodes and then does not validate
    stops every domain. *)
Example broken_files :
  served (toy_load [(#"b.example", #"ann"); (#"a.example", #"empty"); (#"c.example", #"not yaml")])
    = Some ([ #"a.example"; #"b.example"], [ #"ann@b.example"], 2%nat) /\
  served (toy_load [(#"b.example", #"ann"); (#"a.example", #"empty"); (#"c.example", #"cleartext")]) = None.
Proof. by split; vm_compute. Qed.

(** A mailbox of a domain may come from the file of another, and twice. *)
Example foreign_mailbox :
  served (toy_load [(#"a.example", #"ann"); (#"b.example", #"ann")])
    = Some ([ #"a.example"; #"b.example"], [ #"ann@b.example"; #"ann@b.example"], 1%nat).
Proof. by vm_compute. Qed.

Definition toy_loads : result error (result message Loaded) * world :=
  Load (fun _ => None) toy_main (toy_disk [(#"a.example", #"ann")]).
Definition toy_managed : result error (result message Manager) * world :=
  NewManager (fun _ => None) toy_main (toy_disk [(#"a.example", #"ann")]).
Definition answers {A} (x : result error (result message A) * world) : bool :=
  match x with (Ok (Ok _), _) => true | _ => false end.
Lemma toy_answers : answers toy_loads = true /\ answers toy_managed = true.
Proof. split; vm_compute; reflexivity. Qed.

Example Load_sound_witness :
  match toy_loads with (Ok (Ok l), _) => loaded_ok (fun _ => None) l | _ => False end.
Proof.
  pose proof (proj1 toy_answers) as H. destruct toy_loads as [[[l|e]|e] w'] eqn:E; try discriminate H.
  exact (Load_sound (fun _ => None) toy_main (toy_disk [(#"a.example", #"ann")]) l w' E).
Defined.

Example broken_domain_isolated_witness :
  let w := toy_disk [(#"a.example", #"ann"); (#"c.example", #"not yaml")] in
  exists r r', Load (fun _ => None) toy_main w = (Ok r, w) /\
    Load (fun _ => None) toy_main (set_files (delete (toy_dir ++ [ #"c.example.yaml"]) (wFiles w)) w)
      = (Ok r', set_files (delete (toy_dir ++ [ #"c.example.yaml"]) (wFiles w)) w) /\
    same_outcome r r'.
Proof.
  intros w. apply (broken_domain_isolated (fun _ => None) toy_main
           (toy_disk [(#"a.example", #"ann"); (#"c.example", #"not yaml")]) #"c.example.yaml" (mkFile #"not yaml" 0)
           (mkMessage #"%s: %w" [render (toy_dir ++ [ #"c.example.yaml"]); #"yaml: line 1"]) (toy_root defaults)
           (mkFile #"main" 0)); try (vm_compute; reflexivity).
  - apply toy_disk_wf. vm_compute. reflexivity.
  - apply (bool_decide_unpack _); vm_compute; exact I.
Defined.

Definition toy_disks : list world :=
  [toy_disk [(#"a.example", #"cleartext")]; toy_disk [(#"a.example", #"empty")]; toy_disk [(#"a.example", #"cleartext")]].
Example reloads_keep_last_good_witness :
  match toy_managed with
  | (Ok (Ok m), _) => loaded_ok (fun _ => None) (Get (reloads (fun _ => None) m toy_disks)) /\
      LastError (reloads (fun _ => None) m toy_disks)
      = match last (loads (fun _ => None) toy_main toy_disks) with Some (Err e) => Some e | _ => None end
  | _ => False
  end.
Proof.
  pose proof (proj2 toy_answers) as H. destruct toy_managed as [[[m|e]|e] w'] eqn:E; try discriminate H.
  destruct (reloads_keep_last_good (fun _ => None) toy_main (toy_disk [(#"a.example", #"ann")]) m w' toy_disks E)
    as (H1 & _ & H3).
  exact (conj H1 H3).
Defined.
