(* ===== verification/Daemon.v ===== *)
(** * The daemon's back end (cmd/verta/main.go)

    What the daemon hands to the protocol servers: the hooks of the SMTP server
    over the real components, the credentials and quotas of IMAP and POP3, and
    the bounces of the queue.  The state is the disk and clock, the running
    configuration and what the components keep in memory.  The libraries the
    components call are the fields of [Libraries]; log lines are left out. *)

From S2P Require Import Prelude GoStrings GoOS Filter Config StorageResolver MaildirFlags Maildir.
From S2P Require RateLimit SRS Routing Auth Quota Reputation Blacklist Bayes Antispam MailAuth Container.
From S2P Require Queue Scheduler Smtp.
From Stdlib Require Import QArith.

#[global] Open Scope Z_scope.

Record daemon := mkDaemon {
  dmWorld : world;
  dmConfig : Config;                          (** [mgr.Get()] *)
  dmGuard : Auth.Guard;
  dmUsage : Quota.Manager;
  dmRep : option Reputation.Store;            (** [None] when disabled *)
  dmLists : option Blacklist.Checker }.       (** [None] when disabled *)

Definition set_world (e : daemon) (w : world) : daemon :=
  mkDaemon w (dmConfig e) (dmGuard e) (dmUsage e) (dmRep e) (dmLists e).
Definition set_guard (e : daemon) (g : Auth.Guard) : daemon :=
  mkDaemon (dmWorld e) (dmConfig e) g (dmUsage e) (dmRep e) (dmLists e).
Definition set_usage (e : daemon) (m : Quota.Manager) : daemon :=
  mkDaemon (dmWorld e) (dmConfig e) (dmGuard e) m (dmRep e) (dmLists e).
Definition set_rep (e : daemon) (s : option Reputation.Store) : daemon :=
  mkDaemon (dmWorld e) (dmConfig e) (dmGuard e) (dmUsage e) s (dmLists e).
Definition set_lists (e : daemon) (c : option Blacklist.Checker) : daemon :=
  mkDaemon (dmWorld e) (dmConfig e) (dmGuard e) (dmUsage e) (dmRep e) c.

(** The settings of the configuration that only the hooks read. *)
Record Policies := mkPolicies {
  poHostname : str;
  poMailAuth : bool;
  poEnforce : bool;
  poRejectListed : bool;
  poAntispam : bool;
  poTagScore : Q;
  poQuarantineScore : Q;
  poRejectScore : Q;
  poRejectsExecutables : bool;
  poWarmUp : Reputation.WarmUp }.

(** Code outside the repository: the account database, HMAC, password hashes,
    [net.ParseIP], the resolver, SPF, DKIM, DMARC records, the public suffix
    list, mail headers, runes, the order of maps, the virus scanner, and the
    DKIM signer with the key of a domain and selector. *)
Record Libraries := mkLibraries {
  lbOwner : str -> option (Z * Z);
  lbMac : str -> str -> str;
  lbArgon2 : str -> str -> Z -> Z -> Z -> nat -> str;
  lbBcrypt : str -> str -> bool;
  lbParseIP : str -> option Container.IP;
  lbLookupHost : str -> option (list str);
  lbSPF : option (list Z) -> str -> str -> str;
  lbVerifyDKIM : str -> option (list (str * bool));
  lbDMARC : str -> option MailAuth.dmarcRecord;
  lbSuffix : str -> option str;
  lbReadMessage : str -> option header;
  lbAddressList : header -> str -> option (list (str * str));
  lbUnicode : str -> bool;
  lbRange : gset str -> list str;
  lbScanner : option (str -> option str);
  lbSign : str -> str -> option (str -> option str);
  lbDate : Z -> str }.

Section Hooks.
Context `{Queue.EnvelopeCodec} (lib : Libraries) (po : Policies) (bayes : option Bayes.Bayes) (qdir : path).

(** A program over the world, run by a hook. *)
Definition io {A} (m : M A) (e : daemon) : result error A * daemon :=
  let '(r, w) := m (dmWorld e) in (r, set_world e w).
Definition error_of {A} (r : result error A * daemon) : option error * daemon :=
  match r with (Ok _, e) => (None, e) | (Err x, e) => (Some x, e) end.

(** [time.Now], in nanoseconds, and in seconds as SRS reads it. *)
Definition now (e : daemon) : Z * daemon :=
  match io time_now e with (Ok t, e) => (t, e) | (Err _, e) => (0, e) end.
Definition unix (t : Z) : Z := t / 10 ^ 9.

Definition IsLocalDomain (d : str) (e : daemon) : bool * daemon := (HasDomain (dmConfig e) d, e).

Definition Route (email : str) (e : daemon) : option Routing.Plan * daemon :=
  let '(t, e) := now e in
  let p := Routing.Resolve (lbOwner lib) (lbMac lib) (unix t) (dmConfig e) (cSRSSecret (dmConfig e)) email in
  (if Routing.pFound p then Some p else None, e).

Definition return_path (from : str) : str := #"Return-Path: <" ++ from ++ #">" ++ CRLF.

(** The folder and the flags of a delivery. *)
Definition folder_of (mb : StorageResolver.Mailbox) (folder : str) : path :=
  let dir := abs_path (mbDir mb) in
  if folder =s [] then dir else join_path dir (#"." ++ folder).
Definition flags_of (seen flagged : bool) : Flags :=
  let flags := if seen then Add [] FlagSeen else [] in
  if flagged then Add flags FlagFlagged else flags.

Definition Store (mb : StorageResolver.Mailbox) (from folder : str) (seen flagged : bool) (msg : str) (e : daemon)
    : option error * daemon :=
  let full := return_path from ++ msg in
  match io (DeliverWithFlags (folder_of mb folder) full (flags_of seen flagged)) e with
  | (Err x, e) => (Some x, e)
  | (Ok _, e) => (None, set_usage e (Quota.Add (dmUsage e) (mbDir mb) (Z.of_nat (length full))))
  end.

(** [qm.Get]. *)
Definition usage (dir : str) (e : daemon) : Z * daemon :=
  match io (Quota.Get Quota.measure (dmUsage e) dir) e with
  | (Ok (n, m), e) => (n, set_usage e m)
  | (Err _, e) => (0, e)
  end.
Fixpoint total_usage (dirs : list str) (e : daemon) : Z * daemon :=
  match dirs with
  | [] => (0, e)
  | d :: r => let '(n, e) := usage d e in let '(m, e) := total_usage r e in (n + m, e)
  end.

(** The shared limit of the domain. *)
Definition domain_quota (mb : StorageResolver.Mailbox) (size : Z) (e : daemon) : (bool * str) * daemon :=
  match Split (mbEmail mb) with
  | Some (_, dom) =>
      let q := DomainQuota (dmConfig e) dom in
      if 0 <? q then
        let '(total, e) := total_usage (DomainMaildirs (dmConfig e) dom) e in
        if q <? total + size then (false, #"domain is full", e) else (true, [], e)
      else (true, [], e)
  | None => (true, [], e)
  end.
Definition QuotaHook (mb : StorageResolver.Mailbox) (size : Z) (e : daemon) : (bool * str) * daemon :=
  let q := Quota.UserQuota (dmConfig e) (mbEmail mb) in
  if 0 <? q then
    let '(used, e) := usage (mbDir mb) e in
    if q <? used + size then (false, #"mailbox is full", e) else domain_quota mb size e
  else domain_quota mb size e.

(** [imapQuota]. *)
Definition imapQuota (user : str) (e : daemon) : (Z * Z) * daemon :=
  match Resolve (lbOwner lib) (dmConfig e) user with
  | None => (0, 0, e)
  | Some mb =>
      let '(used, e) := usage (mbDir mb) e in
      let limit := Quota.UserQuota (dmConfig e) user in
      let limit := if limit =? 0 then
                     match Split user with Some (_, dom) => DomainQuota (dmConfig e) dom | None => limit end
                   else limit in
      (used, limit, e)
  end.

Definition EnqueueHook (from rcpt msg : str) (e : daemon) : option error * daemon :=
  error_of (io (Queue.Enqueue qdir from rcpt msg) e).

Definition Forward (from forwardDomain rcpt msg : str) (e : daemon) : option error * daemon :=
  let secret := cSRSSecret (dmConfig e) in
  if (secret =s []) || (from =s []) then EnqueueHook from rcpt msg e
  else
    let '(t, e) := now e in
    EnqueueHook (SRS.Forward (lbMac lib) secret forwardDomain from (unix t)) rcpt msg e.

Definition Postmaster (e : daemon) : str * daemon :=
  (match cDomains (dmConfig e) with d :: _ => #"postmaster@" ++ dName d | [] => [] end, e).

Definition Authenticate (email password ip : str) (e : daemon) : option Auth.auth_error * daemon :=
  let '(t0, e) := now e in
  let '(t1, e) := now e in
  let '(err, _, g) := Auth.Verify (lbArgon2 lib) (lbBcrypt lib) (PasswordHashFor (dmConfig e)) (dmGuard e) email password ip t0 t1 in
  (err, set_guard e g).

(** [accessAuth]: the credentials of IMAP and POP3, and the mailbox. *)
Definition accessAuth (email password ip : str) (e : daemon) : result str str * daemon :=
  match Authenticate email password ip e with
  | (Some err, e) =>
      (Err (match err with Auth.ErrInvalid => #"invalid credentials" | Auth.ErrLocked => #"temporarily locked" end), e)
  | (None, e) =>
      match Resolve (lbOwner lib) (dmConfig e) (to_lower email) with
      | None => (Err (#"no mailbox for " ++ email), e)
      | Some mb => (Ok (mbDir mb), e)
      end
  end.

(** ** Reputation *)

Definition user_key (user : str) : str := #"user:" ++ user.
Definition domain_key (domain : str) : str := #"domain:" ++ domain.

(** [rep.Record], with the two readings of the clock. *)
Definition record_event (key : str) (ev : Reputation.Event) (e : daemon) : daemon :=
  match dmRep e with
  | None => e
  | Some s =>
      let '(t0, e) := now e in
      let '(t1, e) := now e in
      set_rep e (Some (Reputation.RecordEvent s key ev t0 t1).2)
  end.

Definition blocked (key : str) (s : Reputation.Store) (e : daemon) : bool * Reputation.Store * daemon :=
  let '(t, e) := now e in
  let '(b, s) := Reputation.Blocked s key t in (b, s, set_rep e (Some s)).

Definition MaySend (user domain : str) (e : daemon) : (bool * str) * daemon :=
  match dmRep e with
  | None => (true, [], e)
  | Some s =>
      let '(b, s, e) := blocked (user_key user) s e in
      if b then (false, #"sending temporarily suspended, contact your administrator", e)
      else
        let '(b, s, e) := blocked (domain_key domain) s e in
        if b then (false, #"domain sending temporarily suspended", e)
        else
          let '(t0, e) := now e in
          let '(t1, e) := now e in
          let '(ok, limit, s) := Reputation.AllowSend s (domain_key domain) (poWarmUp po) t0 t1 in
          let e := set_rep e (Some s) in
          if negb ok then (false, #"daily sending limit reached (" ++ dec limit ++ #"), try again tomorrow", e)
          else (true, [], e)
  end.

Definition Sent (user domain : str) (e : daemon) : daemon :=
  record_event (domain_key domain) Reputation.EventDelivered
    (record_event (user_key user) Reputation.EventDelivered e).

(** ** Signing and screening *)

Definition Sign (fromDomain msg : str) (e : daemon) : option str * daemon :=
  let sel := DKIMSelectorFor (dmConfig e) fromDomain in
  (match lbSign lib fromDomain sel with None => Some msg | Some sign => sign msg end, e).

(** [bl.ListedIP] and [bl.ListedDomain], when there is a checker. *)
Definition listed_ip (ip : str) (e : daemon) : (bool * list str) * daemon :=
  match dmLists e with
  | None => (false, [], e)
  | Some c =>
      let '(t0, e) := now e in
      let '(t1, e) := now e in
      let '(r, c) := Blacklist.ListedIP (lbParseIP lib) (lbLookupHost lib) c ip t0 t1 in
      (r, set_lists e (Some c))
  end.
Definition listed_domain (d : str) (e : daemon) : bool * daemon :=
  match dmLists e with
  | None => (false, e)
  | Some c =>
      let '(t0, e) := now e in
      let '(t1, e) := now e in
      let '(r, c) := Blacklist.ListedDomain (lbParseIP lib) (lbLookupHost lib) c d t0 t1 in
      (r, set_lists e (Some c))
  end.

Definition spam_engine (e : daemon) : Antispam.Engine daemon :=
  Antispam.mkEngine bayes (lbScanner lib)
    (match dmLists e with Some _ => Some listed_domain | None => None end) 0%Q.

(** The result of sender authentication; [roll] is a draw for the sampling. *)
Definition authenticate_sender (ip helo from data : str) (roll : Z) : MailAuth.Result :=
  MailAuth.Check (lbSPF lib) (lbVerifyDKIM lib) (lbDMARC lib) (lbSuffix lib)
    (fun data => match lbReadMessage lib data with
                 | Some h => match lbAddressList lib h #"From" with
                             | Some l => Some (map snd l)
                             | None => None
                             end
                 | None => None
                 end)
    (MailAuth.mkChecker (poHostname po) (poEnforce po)) (lbParseIP lib ip) helo from data roll.

(** The part of the screening that follows sender authentication. *)
Definition screen_lists (ip : str) (e : daemon) : option str * daemon :=
  match dmLists e with
  | Some _ =>
      if poRejectListed po then
        let '(listed, zones, e) := listed_ip ip e in
        (if listed : bool then Some (#"your IP is listed on " ++ join #", " zones) else None, e)
      else (None, e)
  | None => (None, e)
  end.

Definition screen_content (data : str) (auth : Antispam.AuthOutcome) (out : Smtp.ScreenResult) (e : daemon)
    : Smtp.ScreenResult * daemon :=
  if negb (poAntispam po) then (out, e)
  else
    let '(v, e) := Antispam.Check (lbReadMessage lib) (lbAddressList lib) (lbUnicode lib) (lbRange lib)
                     (spam_engine e) data auth e in
    let result action reason :=
      Smtp.mkScreen action reason (Smtp.srAuthResults out) (Antispam.Header v (poTagScore po)) in
    (if negb (Antispam.vVirus v =s []) then
       result Smtp.ScreenReject (#"message contains " ++ Antispam.vVirus v)
     else if negb (Antispam.vBadAttachment v =s []) && poRejectsExecutables po then
       result Smtp.ScreenReject (#"executable attachment refused: " ++ Antispam.vBadAttachment v)
     else if Qle_bool (poRejectScore po) (Antispam.vScore v) then
       result Smtp.ScreenReject (#"message rejected, spam score " ++ Antispam.format1 (Antispam.vScore v))
     else if Qle_bool (poQuarantineScore po) (Antispam.vScore v) then
       result Smtp.ScreenQuarantine
         (if Smtp.srReason out =s [] then #"spam score " ++ Antispam.format1 (Antispam.vScore v) else Smtp.srReason out)
     else result (Smtp.srAction out) (Smtp.srReason out), e).

Definition Screen (ip helo from data : str) (e : daemon) : Smtp.ScreenResult * daemon :=
  let '(roll, e) := match io rand_uint32 e with (Ok r, e) => (r mod 100, e) | (Err _, e) => (0, e) end in
  let res := authenticate_sender ip helo from data roll in
  let '(out, auth) :=
    if poMailAuth po then
      (Smtp.mkScreen (match MailAuth.reAction res with
                      | MailAuth.Reject => Smtp.ScreenReject
                      | MailAuth.Quarantine => Smtp.ScreenQuarantine
                      | MailAuth.Accept => Smtp.ScreenAccept
                      end) (MailAuth.reReason res) (MailAuth.reAuthResults res) [],
       Antispam.mkAuth (MailAuth.reSPF res =s #"pass") (MailAuth.reDKIM res =s #"pass") (MailAuth.reDMARC res =s #"pass"))
    else (Smtp.mkScreen Smtp.ScreenAccept [] [] [], Antispam.mkAuth false false false) in
  match Smtp.srAction out with
  | Smtp.ScreenReject => (out, e)
  | _ =>
      let '(listed, e) := screen_lists ip e in
      match listed with
      | Some reason => (Smtp.mkScreen Smtp.ScreenReject reason (Smtp.srAuthResults out) [], e)
      | None => screen_content data auth out e
      end
  end.

(** ** The whole back end *)

Definition backend : Smtp.Backend daemon :=
  Smtp.mkBackend IsLocalDomain Route Store (Some QuotaHook) (Some Forward) Postmaster (Some Authenticate)
    EnqueueHook (Some Screen) (Some Sign) (Some MaySend) (Some Sent).

(** [bounceFn]: the bounce of an envelope into its sender's mailbox. *)
Definition bounceFn (env : Queue.Envelope) (reason : str) (e : daemon) : daemon :=
  let from := Queue.eFrom env in
  let e := if from =s [] then e
           else
             let e := record_event (user_key from) Reputation.EventBounce e in
             match Split from with
             | Some (_, domain) => record_event (domain_key domain) Reputation.EventBounce e
             | None => e
             end in
  let '(t, e) := now e in
  match Scheduler.BuildBounce (poHostname po) (lbDate lib t) env reason with
  | None => e
  | Some data =>
      match Resolve (lbOwner lib) (dmConfig e) from with
      | None => e
      | Some mb => (io (Deliver (abs_path (mbDir mb)) (#"Return-Path: <>" ++ CRLF ++ data)) e).2
      end
  end.
End Hooks.
