(* ===== verification/DaemonProps.v ===== *)
(** * What the daemon guarantees

    Theorems about the components put together: quotas against the real disk
    usage, what happens to a message with a virus, and that a message
    accepted for a mailbox is in it. *)

From S2P Require Import Prelude GoStrings GoOS GoNet StateM Filter Config StorageResolver MaildirFlags Maildir MaildirUID MaildirProps Daemon.
From S2P Require Quota Antispam Smtp SmtpProps SmtpFlow Queue QueueProps Routing Blacklist Reputation Auth.

(** ** Paths of folders *)

Lemma clean_step_plain p c : Forall plain p -> ("/"%char : ascii) ∉ c -> Forall plain (clean_step p c).
Proof.
  intros Hp Hc. unfold clean_step.
  destruct (c =s []) eqn:E1; [done|]. destruct (c =s #".") eqn:E2; [done|]. cbn [orb].
  destruct (c =s #"..") eqn:E3.
  - destruct p as [|x p _] using rev_ind; [done|]. rewrite removelast_last. by apply Forall_app in Hp as [? _].
  - apply Forall_app. split; [done|]. apply Forall_singleton.
    apply str_eqb_neq in E1, E2, E3. done.
Qed.

Lemma join_path_plain p s : Forall plain p -> Forall plain (join_path p s).
Proof.
  unfold join_path. intros Hp. pose proof (split_parts_no_sep "/" s) as Hs. revert p Hp.
  induction Hs as [|c l Hc Hs IH]; intros p Hp; [done|]. cbn [fold_left]. by apply IH, clean_step_plain.
Qed.

Lemma abs_path_plain s : Forall plain (abs_path s).
Proof. by apply join_path_plain. Qed.

Lemma folder_of_plain mb folder : Forall plain (folder_of mb folder).
Proof. unfold folder_of. destruct (folder =s []); [apply abs_path_plain|apply join_path_plain, abs_path_plain]. Qed.

Lemma flags_of_ok seen flagged : forallb is_flag (flags_of seen flagged) = true.
Proof. by destruct seen, flagged. Qed.

(** ** A daemon on a working disk *)

(** A Maildir folder: its three directories, and none inside [new] or [cur]. *)
Definition folder_ready (w : world) (dir : path) : Prop :=
  (forall sub, sub ∈ maildir_subs -> join_path dir sub ∈ wDirs w) /\
  forall n, dir ++ [ #"new"; n] ∉ wDirs w /\ dir ++ [ #"cur"; n] ∉ wDirs w.

(** The mailboxes [D] lie apart, the disk works and the cache of usages, of
    these mailboxes only, is safe. *)
Record healthy (D : list str) (e : daemon) : Prop := {
  hl_faults : wFaults (dmWorld e) = [];
  hl_host : "/"%char ∉ wHost (dmWorld e);
  hl_tree : Quota.tree (dmWorld e);
  hl_covers : Quota.covers (dmUsage e) (wFiles (dmWorld e));
  hl_known : forall d, d ∈ dom (Quota.qmCache (dmUsage e)) -> d ∈ D;
  hl_apart : forall d1 d2, d1 ∈ D -> d2 ∈ D -> d1 <> d2 -> ~ abs_path d1 `prefix_of` abs_path d2 }.

Lemma apart_below D e d d' (r : path) :
  healthy D e -> d ∈ D -> d' ∈ D -> d' <> d -> ~ abs_path d' `prefix_of` abs_path d ++ r.
Proof.
  intros H Hd Hd' Hne Hp. destruct (prefix_weak_total (abs_path d') (abs_path d) (abs_path d ++ r)) as [Hq|Hq].
  - done.
  - by exists r.
  - by apply (hl_apart D e H d' d).
  - by apply (hl_apart D e H d d').
Qed.

(** A file put into a directory of the tree. *)
Lemma tree_put w w' p f :
  Quota.tree w -> wDirs w' = wDirs w -> wFiles w' = <[p := f]> (wFiles w) ->
  Forall plain p -> p <> [] -> parent p ∈ wDirs w -> p ∉ wDirs w -> Quota.tree w'.
Proof.
  intros [[H1 H2] H3 H4 H5] Hd Hf Hp Hne Hpar Hnd. split; [split| | |]; rewrite ?Hd; intros q.
  - rewrite Hf. intros [g Hq]. apply lookup_insert_Some in Hq as [[<- _]|[_ Hq]]; [done|]. apply H1. by exists g.
  - apply H2.
  - intros g. rewrite Hf. intros [[<- _]|[_ Hq]]%lookup_insert_Some; [done|]. by eapply H3.
  - apply H4.
  - intros Hq. rewrite Hf. apply lookup_insert_None. split; [by apply H5|]. by intros ->.
Qed.

Lemma landing_sub base flags : (landing base flags).1 = #"new" \/ (landing base flags).1 = #"cur".
Proof. destruct flags; [by left|by right]. Qed.

Section Deliveries.
Context `{Queue.EnvelopeCodec} (lib : Libraries) (po : Policies) (bayes : option Bayes.Bayes) (qdir : path) (D : list str).

(** A delivery into a ready folder of a mailbox: the mail is there, nothing
    else changed and the daemon is as healthy as before; or it failed and
    nothing changed. *)
Lemma Store_ok mb from folder seen flagged msg e :
  healthy D e -> mbDir mb ∈ D -> abs_path (mbDir mb) `prefix_of` folder_of mb folder ->
  folder_ready (dmWorld e) (folder_of mb folder) ->
  let '(err, e') := Store mb from folder seen flagged msg e in
  healthy D e' /\ dmConfig e' = dmConfig e /\ wDirs (dmWorld e') = wDirs (dmWorld e) /\
  match err with
  | None => exists base t, plain base /\
      wFiles (dmWorld e') = <[folder_of mb folder ++ [(landing base (flags_of seen flagged)).1; (landing base (flags_of seen flagged)).2]
                              := mkFile (return_path from ++ msg) t]> (wFiles (dmWorld e))
  | Some _ => wFiles (dmWorld e') = wFiles (dmWorld e) /\
      exists q, parent q = folder_of mb folder ++ [ #"tmp"] /\ is_Some (wFiles (dmWorld e) !! q)
  end.
Proof.
  intros He HD Hin [Hdirs Hsub]. set (dir := folder_of mb folder) in *. set (flags := flags_of seen flagged) in *.
  unfold Store. fold dir flags. set (full := return_path from ++ msg).
  destruct (deliver_ok dir full flags (dmWorld e) (hl_faults D e He) (hl_host D e He) (flags_of_ok seen flagged))
    as (base & w' & Hb & Hx & Hh & Hd & Hcases).
  assert (wDirs w' = wDirs (dmWorld e)) as Hd'.
  { apply set_eq. intros q. rewrite Hd. split; [|by left]. intros [|(sub & Hs & Hq)]; [done|].
    eapply Quota.tree_ancestor; [apply (hl_tree D e He)|by apply (Hdirs sub)|done]. }
  set (p := dir ++ [(landing base flags).1; (landing base flags).2]) in *.
  destruct (landing_plain base flags Hb (flags_of_ok seen flagged)) as (Hln & Hls & _).
  assert (Forall plain p) as Hpp.
  { apply Forall_app. split; [apply folder_of_plain|]. apply Forall_cons_2; [done|]. by apply Forall_singleton. }
  assert (p = (dir ++ [(landing base flags).1]) ++ [(landing base flags).2]) as Ep by (unfold p; by rewrite <- app_assoc).
  unfold io. destruct Hcases as [(_ & t & -> & Hf)|(Htmp & x & -> & Hf)]; cbn [dmWorld set_world set_usage dmUsage dmConfig].
  - assert (Quota.tree w') as Ht.
    { apply (tree_put (dmWorld e) w' p (mkFile full t)); [apply (hl_tree D e He)|done|done|done|by rewrite Ep; destruct dir| |].
      - rewrite Ep, parent_snoc, <- join_plain by done. apply Hdirs.
        destruct (landing_sub base flags) as [-> | ->]; unfold maildir_subs; set_solver.
      - unfold p. destruct (landing_sub base flags) as [-> | ->]; apply Hsub. }
    split; [|split; [done|split; [done|by exists base, t]]]. split; cbn [dmWorld set_world set_usage dmUsage]; [done|by rewrite Hh; apply (hl_host D e He)|done| | |apply (hl_apart D e He)].
    + rewrite Hf. change (Z.of_nat (length full)) with (Quota.size_of (mkFile full t)).
      apply Quota.Add_ok; [apply (hl_covers D e He)|]. intros d' Hd1 Hne. destruct Hin as [r Hr].
      assert (p = abs_path (mbDir mb) ++ (r ++ [(landing base flags).1; (landing base flags).2])) as ->
        by (unfold p; rewrite Hr; by rewrite <- app_assoc).
      apply (apart_below D e); [done|done|by apply (hl_known D e He)|done].
    + intros d. rewrite Quota.Add_dom. apply (hl_known D e He).
  - split; [|split; [done|split; [done|split; [done|]]]].
    + split; cbn [dmWorld set_world dmUsage]; rewrite ?Hf; [done|by rewrite Hh; apply (hl_host D e He)| |apply (hl_covers D e He)|apply (hl_known D e He)|apply (hl_apart D e He)].
      apply (Quota.tree_world (dmWorld e)); [done|done|apply (hl_tree D e He)].
    + exists (dir ++ [ #"tmp"; base]). split; [|done].
      change [ #"tmp"; base] with ([ #"tmp"] ++ [base]). rewrite app_assoc. apply parent_snoc.
Qed.

(** The same disk and configuration, still healthy. *)
Definition unchanged (e e' : daemon) : Prop :=
  healthy D e' /\ dmConfig e' = dmConfig e /\ wFiles (dmWorld e') = wFiles (dmWorld e) /\
  wDirs (dmWorld e') = wDirs (dmWorld e).

Definition size_below (dir : str) (e : daemon) : Z := Quota.usage_of (abs_path dir) (wFiles (dmWorld e)).

Lemma usage_ok dir e : healthy D e -> dir ∈ D ->
  let '(n, e') := usage dir e in unchanged e e' /\ size_below dir e <= n.
Proof.
  intros He HD. unfold usage, io.
  destruct (Quota.Get_ok (dmUsage e) dir (dmWorld e) (hl_faults D e He) (hl_tree D e He) (hl_covers D e He))
    as (n & m' & w' & -> & Hn & (Hf & Hd & Hx) & Hh & Hc & Hdom).
  split; [|done]. split; [|by repeat split]. split; cbn [dmWorld set_world set_usage dmUsage].
  - rewrite Hx. apply (hl_faults D e He).
  - rewrite Hh. apply (hl_host D e He).
  - apply (Quota.tree_world (dmWorld e)); [done|done|apply (hl_tree D e He)].
  - by rewrite Hf.
  - intros d Hd'. specialize (Hdom d Hd'). apply elem_of_union in Hdom as [->%elem_of_singleton|Hdom]; [done|].
    by apply (hl_known D e He).
  - apply (hl_apart D e He).
Qed.

Lemma unchanged_trans e1 e2 e3 : unchanged e1 e2 -> unchanged e2 e3 -> unchanged e1 e3.
Proof. intros (? & ? & ? & ?) (? & ? & ? & ?). split; [done|]. split_and!; congruence. Qed.

Lemma total_usage_ok dirs e : healthy D e -> (forall d, d ∈ dirs -> d ∈ D) ->
  let '(n, e') := total_usage dirs e in unchanged e e' /\ sumZ (fun d => size_below d e) dirs <= n.
Proof.
  revert e. induction dirs as [|d dirs IH]; intros e He HD; cbn [total_usage]; [done|].
  pose proof (usage_ok d e He ltac:(apply HD; set_solver)) as H1. destruct (usage d e) as [n e1].
  destruct H1 as [H1 Hn]. pose proof H1 as (He1 & _ & Hf1 & _).
  pose proof (IH e1 He1 ltac:(intros; apply HD; set_solver)) as H2. destruct (total_usage dirs e1) as [m e2].
  destruct H2 as [H2 Hm]. split; [by eapply unchanged_trans|].
  assert (sumZ (fun d => size_below d e1) dirs = sumZ (fun d => size_below d e) dirs) as Es
    by (apply sumZ_ext; intros x _; unfold size_below; by rewrite Hf1).
  cbn [sumZ foldr]. unfold sumZ in *. lia.
Qed.

(** The mailboxes of the domain of [mb] are among those known. *)
Definition domain_known (mb : StorageResolver.Mailbox) (e : daemon) : Prop :=
  forall a dom, Split (mbEmail mb) = Some (a, dom) ->
  forall d, d ∈ DomainMaildirs (dmConfig e) dom -> d ∈ D.

(** The limits on [mb] with [n] more bytes. *)
Definition mailbox_fits (mb : StorageResolver.Mailbox) (n : Z) (e : daemon) : Prop :=
  let q := Quota.UserQuota (dmConfig e) (mbEmail mb) in 0 < q -> size_below (mbDir mb) e + n <= q.
Definition domain_fits (mb : StorageResolver.Mailbox) (n : Z) (e : daemon) : Prop :=
  forall a dom, Split (mbEmail mb) = Some (a, dom) ->
  let q := DomainQuota (dmConfig e) dom in
  0 < q -> sumZ (fun d => size_below d e) (DomainMaildirs (dmConfig e) dom) + n <= q.

Lemma unchanged_fits mb n e e' : unchanged e e' ->
  (mailbox_fits mb n e -> mailbox_fits mb n e') /\ (domain_fits mb n e -> domain_fits mb n e').
Proof.
  intros (_ & Hc & Hf & _). unfold mailbox_fits, domain_fits, size_below. by rewrite Hc, Hf.
Qed.

Lemma domain_quota_ok mb n e : healthy D e -> domain_known mb e ->
  let '(ok, _, e') := domain_quota mb n e in unchanged e e' /\ (ok = true -> domain_fits mb n e').
Proof.
  intros He HD. unfold domain_quota, domain_fits.
  destruct (Split (mbEmail mb)) as [[a dom]|] eqn:Es; [|by split].
  destruct (Z.ltb_spec 0 (DomainQuota (dmConfig e) dom)) as [Hq|Hq].
  - pose proof (total_usage_ok (DomainMaildirs (dmConfig e) dom) e He (HD a dom Es)) as H1.
    destruct (total_usage _ e) as [total e1]. destruct H1 as [Hu Ht]. pose proof Hu as (_ & Hc & Hf & _).
    destruct (Z.ltb_spec (DomainQuota (dmConfig e) dom) (total + n)) as [Eq|Eq]; (split; [done|]); [done|].
    intros _ a' dom' [= <- <-] _. rewrite Hc. unfold size_below in *. rewrite Hf. lia.
  - split; [done|]. intros _ a' dom' [= <- <-] ?. cbv zeta in *. lia.
Qed.

(** A message that the hook lets in fits. *)
Lemma QuotaHook_ok mb n e : healthy D e -> mbDir mb ∈ D -> domain_known mb e ->
  let '(ok, _, e') := QuotaHook mb n e in
  unchanged e e' /\ (ok = true -> mailbox_fits mb n e' /\ domain_fits mb n e').
Proof.
  intros He HD Hdom. unfold QuotaHook. destruct (Z.ltb_spec 0 (Quota.UserQuota (dmConfig e) (mbEmail mb))) as [Hq|Hq].
  - pose proof (usage_ok (mbDir mb) e He HD) as H1. destruct (usage (mbDir mb) e) as [used e1].
    destruct H1 as [Hu Hn]. pose proof Hu as (He1 & Hc & Hf & _). destruct (Z.ltb_spec (Quota.UserQuota (dmConfig e) (mbEmail mb)) (used + n)) as [Eq|Eq]; [by split|].
    assert (domain_known mb e1) as Hd1 by (unfold domain_known; by rewrite Hc).
    pose proof (domain_quota_ok mb n e1 He1 Hd1) as H2. destruct (domain_quota mb n e1) as [[ok r] e2].
    destruct H2 as [Hu2 H2]. split; [by eapply unchanged_trans|]. intros Hok. split; [|by apply H2].
    eapply unchanged_fits; [done|]. unfold mailbox_fits, size_below. rewrite Hc, Hf. intros _.
    unfold size_below in Hn. lia.
  - pose proof (domain_quota_ok mb n e He Hdom) as H2. destruct (domain_quota mb n e) as [[ok r] e2].
    destruct H2 as [Hu2 H2]. split; [done|]. intros Hok. split; [|by apply H2].
    eapply unchanged_fits; [done|]. unfold mailbox_fits. lia.
Qed.

(** A delivery adds to its own mailbox only, and at most the message with its
    return path. *)
Lemma Store_grows mb from folder seen flagged msg e d :
  healthy D e -> mbDir mb ∈ D -> abs_path (mbDir mb) `prefix_of` folder_of mb folder ->
  folder_ready (dmWorld e) (folder_of mb folder) -> d ∈ D ->
  size_below d (Store mb from folder seen flagged msg e).2 <=
  size_below d e + (if decide (d = mbDir mb) then Z.of_nat (length (return_path from ++ msg)) else 0).
Proof.
  intros He HD Hin Hr Hd. pose proof (Store_ok mb from folder seen flagged msg e He HD Hin Hr) as HS.
  destruct (Store mb from folder seen flagged msg e) as [[x|] e']; destruct HS as (_ & _ & _ & HS); cbn [snd].
  - destruct HS as [Hf _]. unfold size_below. rewrite Hf. case_decide; lia.
  - destruct HS as (base & t & _ & Hf). unfold size_below. rewrite Hf.
    destruct Hin as [r Hr']. rewrite Hr', <- app_assoc. etrans; [apply Quota.usage_of_insert|].
    destruct (decide (d = mbDir mb)) as [->|Hne].
    + rewrite decide_True by (by eexists). unfold Quota.size_of. simpl. lia.
    + rewrite decide_False by (by apply (apart_below D e)). lia.
Qed.

Lemma sum_growth d0 (g e : daemon) n dirs :
  0 <= n -> NoDup dirs ->
  (forall d, d ∈ dirs -> size_below d g <= size_below d e + (if decide (d = d0) then n else 0)) ->
  sumZ (fun d => size_below d g) dirs <= sumZ (fun d => size_below d e) dirs + n.
Proof.
  intros Hn Hd Hle. etrans; [exact (sumZ_le _ _ _ Hle)|]. rewrite sumZ_add. apply Z.add_le_mono_l.
  destruct (decide (d0 ∈ dirs)) as [Hin|Hin].
  - rewrite (sumZ_single _ _ d0); [by rewrite decide_True|done..|]. intros y _ Hy. by rewrite decide_False.
  - rewrite sumZ_zero; [done|]. intros y Hy. rewrite decide_False; [done|]. by intros ->.
Qed.

End Deliveries.

(** ** What screening leaves alone *)

(** The daemon but for the clock, the random source and the answers of the
    block lists. *)
Definition still (e e' : daemon) : Prop :=
  same_disk (dmWorld e) (dmWorld e') /\ wHost (dmWorld e') = wHost (dmWorld e) /\
  dmConfig e' = dmConfig e /\ dmUsage e' = dmUsage e.

#[global] Instance still_preorder : PreOrder still.
Proof.
  split; [done|]. intros e1 e2 e3 (Ha & ? & ? & ?) (Hb & ? & ? & ?). split; [by eapply same_disk_trans|].
  split_and!; congruence.
Qed.

Lemma healthy_still D e e' : still e e' -> healthy D e -> healthy D e'.
Proof.
  intros ((Hf & Hd & Hx) & Hh & _ & Hu) [H1 H2 H3 H4 H5 H6]. split; rewrite ?Hf, ?Hx, ?Hh, ?Hu; try done.
  by apply (Quota.tree_world (dmWorld e)).
Qed.

Lemma now_still e : still e (now e).2.
Proof.
  unfold now, io. destruct (time_now_ok (dmWorld e)) as (t & w & E & Hs).
  pose proof (Quota.time_now_host (dmWorld e)) as Hh. rewrite E in *. by split_and!.
Qed.

Section Screening.
Context (lib : Libraries) (po : Policies) (bayes : option Bayes.Bayes).

Lemma listed_ip_still ip e : still e (listed_ip lib ip e).2.
Proof.
  unfold listed_ip. destruct (dmLists e) as [c|]; [|done].
  pose proof (now_still e) as H1. destruct (now e) as [t0 e1]. pose proof (now_still e1) as H2.
  destruct (now e1) as [t1 e2]. destruct (Blacklist.ListedIP _ _ _ _ _ _). transitivity e1; [done|]. exact H2.
Qed.

Lemma listed_domain_still d e : still e (listed_domain lib d e).2.
Proof.
  unfold listed_domain. destruct (dmLists e) as [c|]; [|done].
  pose proof (now_still e) as H1. destruct (now e) as [t0 e1]. pose proof (now_still e1) as H2.
  destruct (now e1) as [t1 e2]. destruct (Blacklist.ListedDomain _ _ _ _ _ _). transitivity e1; [done|]. exact H2.
Qed.

Lemma screen_lists_still ip e : still e (screen_lists lib po ip e).2.
Proof.
  unfold screen_lists. destruct (dmLists e); [|done]. destruct (poRejectListed po); [|done].
  pose proof (listed_ip_still ip e) as H. by destruct (listed_ip lib ip e) as [[l z] e1].
Qed.

Lemma screen_content_still data auth out e : still e (screen_content lib po bayes data auth out e).2.
Proof.
  unfold screen_content. destruct (poAntispam po); [|done]. cbn [negb].
  pose proof (Antispam.Check_env (lbReadMessage lib) (lbAddressList lib) (lbUnicode lib) (lbRange lib)
    (spam_engine lib bayes e) data auth e) as HE.
  destruct (Antispam.Check _ _ _ _ _ data auth e) as [v e1]. cbn [snd] in *. subst e1.
  unfold spam_engine. cbn [Antispam.eURIBL]. destruct (dmLists e); [|done].
  apply Antispam.any_listed_keeps; [apply _|apply listed_domain_still].
Qed.

(** A message in which the scanner finds something is rejected. *)
Lemma screen_content_virus data auth out e scan name :
  poAntispam po = true -> lbScanner lib = Some scan -> scan data = Some name -> name <> [] ->
  Smtp.srAction (screen_content lib po bayes data auth out e).1 = Smtp.ScreenReject.
Proof.
  intros Ha Hs Hd Hn. unfold screen_content. rewrite Ha. cbn [negb].
  destruct (Antispam.Check_score (lbReadMessage lib) (lbAddressList lib) (lbUnicode lib) (lbRange lib)
    (spam_engine lib bayes e) data auth e) as [_ Hv].
  destruct (Antispam.Check _ _ _ _ _ data auth e) as [v e1]. cbn [fst] in *.
  unfold Antispam.virus_name in Hv. cbn [spam_engine Antispam.eScanner] in Hv. rewrite Hs, Hd in Hv. cbn [default from_option id] in Hv.
  rewrite Hv, (proj2 (str_eqb_neq _ _) Hn). done.
Qed.

Lemma rand_still e : exists r e1, io rand_uint32 e = (Ok r, e1) /\ still e e1.
Proof. unfold io, rand_uint32. destruct (wRand (dmWorld e)); by eexists _, _. Qed.

Lemma Screen_still ip helo from data e : still e (Screen lib po bayes ip helo from data e).2.
Proof.
  unfold Screen. destruct (rand_still e) as (r & e1 & -> & H1). destruct (if poMailAuth po then _ else _) as [out auth].
  destruct (Smtp.srAction out); [| |exact H1]; pose proof (screen_lists_still ip e1) as H2;
    destruct (screen_lists lib po ip e1) as [[reason|] e2]; (transitivity e1; [done|]); try exact H2;
    (transitivity e2; [exact H2|]); apply screen_content_still.
Qed.

Lemma Screen_virus ip helo from data e scan name :
  poAntispam po = true -> lbScanner lib = Some scan -> scan data = Some name -> name <> [] ->
  Smtp.srAction (Screen lib po bayes ip helo from data e).1 = Smtp.ScreenReject.
Proof.
  intros Ha Hs Hd Hn. unfold Screen. destruct (rand_still e) as (r & e1 & -> & H1).
  destruct (if poMailAuth po then _ else _) as [out auth].
  destruct (Smtp.srAction out) eqn:Ea; [| |exact Ea]; destruct (screen_lists lib po ip e1) as [[reason|] e2]; try done;
    by eapply screen_content_virus.
Qed.
End Screening.


(** ** Messages received *)

Section Messages.
Context `{Queue.EnvelopeCodec} (lib : Libraries) (po : Policies) (bayes : option Bayes.Bayes) (qdir : path).
Context (ex : Smtp.Services daemon) (ip : str).

#[local] Notation be := (backend lib po bayes qdir).

Lemma end_transaction_env line (st : Smtp.state daemon) :
  Smtp.xEnv (Smtp.end_transaction line st).2 = Smtp.xEnv st.
Proof.
  unfold Smtp.end_transaction, Smtp.resetTransaction, Smtp.answer, Smtp.reply, Smtp.on_conn, mbind, SM_bind.
  cbn. by destruct (write_lines _ _).
Qed.

Lemma screen_env set body st :
  Smtp.stMode set = Smtp.ModeInbound ->
  Smtp.xEnv (Smtp.screen be ip set body st).2 =
  (Screen lib po bayes ip (Smtp.sHelo (Smtp.xSess st)) (Smtp.sFrom (Smtp.xSess st)) body (Smtp.xEnv st)).2.
Proof.
  intros Hm. unfold Smtp.screen. rewrite Hm. cbn [Smtp.is_submission backend Smtp.Screen].
  unfold mbind, SM_bind, Smtp.sess, Smtp.on_env. destruct (Screen _ _ _ _ _ _ _ _) as [r e].
  by destruct (Smtp.srAction r).
Qed.

(** An inbound message in which the scanner finds something is refused with
    550, and no file of the disk changes: it is delivered nowhere. *)
Theorem virus_refused set raw st scan name :
  Smtp.stMode set = Smtp.ModeInbound -> cnWrites (Smtp.xConn st) = None ->
  poAntispam po = true -> lbScanner lib = Some scan -> scan (Smtp.ensureCRLF raw) = Some name -> name <> [] ->
  let r := Smtp.accept_message be ex ip set raw st in
  (exists reason, SmtpFlow.closed_with (#"550 5.7.1 " ++ reason) st r) /\ still (Smtp.xEnv st) (Smtp.xEnv r.2).
Proof.
  intros Hm Hw Ha Hs Hd Hn r. unfold r, Smtp.accept_message, Smtp.screen. cbv zeta. rewrite Hm.
  cbn [Smtp.is_submission backend Smtp.Screen]. unfold mbind, SM_bind, Smtp.sess, Smtp.on_env.
  pose proof (Screen_virus lib po bayes ip (Smtp.sHelo (Smtp.xSess st)) (Smtp.sFrom (Smtp.xSess st))
    (Smtp.ensureCRLF raw) (Smtp.xEnv st) scan name Ha Hs Hd Hn) as HR.
  pose proof (Screen_still lib po bayes ip (Smtp.sHelo (Smtp.xSess st)) (Smtp.sFrom (Smtp.xSess st))
    (Smtp.ensureCRLF raw) (Smtp.xEnv st)) as HS.
  destruct (Screen _ _ _ _ _ _ _ _) as [v e]. cbn [fst snd] in *. rewrite HR.
  unfold Smtp.count, Smtp.on_set, mret, SM_ret. split; [|by rewrite end_transaction_env].
  exists (Smtp.srReason v). by apply SmtpFlow.end_transaction_closes.
Qed.
(** The folder that a message goes to. *)
Definition target (spam : bool) (l : Routing.Local) (msg : str) : str :=
  let out := Apply (Smtp.readMessage ex) (Routing.lFilters l) msg in
  if spam || oJunk out then #"Spam" else oFolder out.

(** A local mailbox in working order, whose filters neither discard nor
    forward. *)
Record served (D : list str) (l : Routing.Local) (e : daemon) : Prop := {
  sv_known : mbDir (Routing.lMailbox l) ∈ D;
  sv_domain : domain_known D (Routing.lMailbox l) e;
  sv_keeps : forall msg, let out := Apply (Smtp.readMessage ex) (Routing.lFilters l) msg in
      oDiscard out = false /\ oForward out = [];
  sv_inside : forall spam msg, abs_path (mbDir (Routing.lMailbox l)) `prefix_of` folder_of (Routing.lMailbox l) (target spam l msg);
  sv_folders : forall spam msg, folder_ready (dmWorld e) (folder_of (Routing.lMailbox l) (target spam l msg)) }.

Lemma served_as D l e e' :
  dmConfig e' = dmConfig e -> wDirs (dmWorld e') = wDirs (dmWorld e) -> served D l e -> served D l e'.
Proof.
  intros Hc Hd [H1 H2 H3 H4 H5]. split; try done; [unfold domain_known in *; by rewrite Hc|].
  intros spam msg. unfold folder_ready. rewrite Hd. apply H5.
Qed.

(** One message is in one folder of a mailbox, and nothing else has changed. *)
Definition stored (mb : StorageResolver.Mailbox) (from msg : str) (e e' : daemon) : Prop :=
  exists folder sub base t, (sub = #"new" \/ sub = #"cur") /\ plain base /\
    wFiles (dmWorld e') = <[folder_of mb folder ++ [sub; base] := mkFile (return_path from ++ msg) t]> (wFiles (dmWorld e)).

(** What a step of the deliveries guarantees. *)
Definition delivers (D : list str) (mb : StorageResolver.Mailbox) (from msg : str) (done : bool) (e e' : daemon) : Prop :=
  healthy D e' /\ (if done then stored mb from msg e e' else wFiles (dmWorld e') = wFiles (dmWorld e)).

Lemma stored_in mb from folder flags base msg t e e' :
  plain base ->
  wFiles (dmWorld e') = <[folder_of mb folder ++ [(landing base flags).1; (landing base flags).2] :=
                          mkFile (return_path from ++ msg) t]> (wFiles (dmWorld e)) ->
  forallb is_flag flags = true -> stored mb from msg e e'.
Proof.
  intros Hb Hf Hok. exists folder, (landing base flags).1, (landing base flags).2, t.
  split; [apply landing_sub|]. split; [by apply (landing_plain base flags Hb Hok)|done].
Qed.

Lemma deliver_local_ok D domain spam msg l st :
  healthy D (Smtp.xEnv st) -> served D l (Smtp.xEnv st) ->
  let '(g, st') := Smtp.deliver_local be ex domain spam msg l (Smtp.mkProgress false false None) st in
  delivers D (Routing.lMailbox l) (Smtp.sFrom (Smtp.xSess st)) msg (SmtpFlow.delivered (Smtp.plan_verdict g))
    (Smtp.xEnv st) (Smtp.xEnv st').
Proof.
  intros He [H1 H2 H3 H4 H5]. specialize (H4 spam msg). specialize (H5 spam msg).
  unfold Smtp.deliver_local. cbn [backend Smtp.Quota Smtp.Store]. fold (target spam l msg).
  destruct (H3 msg) as [-> ->]. unfold mbind, SM_bind, Smtp.on_env, Smtp.sess, mret, SM_ret. cbv zeta.
  pose proof (QuotaHook_ok D (Routing.lMailbox l) (Z.of_nat (length msg)) (Smtp.xEnv st) He H1 H2) as HQ.
  destruct (QuotaHook _ _ _) as [[ok why] e1]. destruct HQ as [(He1 & Hc1 & Hf1 & Hd1) _]. cbn [fst].
  destruct ok; cbn [negb]; [|by split].
  cbn [Smtp.xEnv Smtp.xSess]. set (out := Apply _ _ _).
  pose proof (Store_ok D (Routing.lMailbox l) (Smtp.sFrom (Smtp.xSess st)) (target spam l msg) (oSeen out) (oFlagged out) msg e1
    He1 H1 H4 ltac:(unfold folder_ready; by rewrite Hd1)) as HS.
  unfold target in *. fold out in HS |- *.
  destruct (Store _ _ _ _ _ _ _) as [[x|] e2]; destruct HS as (He2 & _ & _ & HS); cbn.
  - split; [done|]. cbn. destruct HS as [Hf2 _]. congruence.
  - split; [done|]. destruct HS as (base & t & Hb & Hf). rewrite Hf1 in Hf. by eapply stored_in, flags_of_ok.
Qed.

(** The only recipient of a message is a mailbox here. *)
Definition one_local (r : Smtp.rcpt) (l : Routing.Local) : Prop :=
  Smtp.rRemote r = false /\ Smtp.rPlan r = Routing.mkPlan [l] [] true.

Lemma deliver_all_ok D spam msg r l st :
  healthy D (Smtp.xEnv st) -> served D l (Smtp.xEnv st) -> one_local r l ->
  let '(accepted, _, st') := Smtp.deliver_all be ex spam msg [r] 0 false st in
  delivers D (Routing.lMailbox l) (Smtp.sFrom (Smtp.xSess st)) msg (negb (Nat.eqb accepted 0)) (Smtp.xEnv st) (Smtp.xEnv st').
Proof.
  intros He Hl [Hr Hp]. cbn [Smtp.deliver_all]. unfold Smtp.deliver_one. rewrite Hr. unfold Smtp.deliverPlan. rewrite Hp.
  cbn [Routing.pLocal Routing.pRemote Smtp.deliver_locals Smtp.deliver_remotes]. unfold mbind, SM_bind, mret, SM_ret.
  pose proof (deliver_local_ok D (Smtp.rDomain r) spam msg l st He Hl) as HD.
  destruct (Smtp.deliver_local _ _ _ _ _ _ _ _) as [g st1].
  by destruct (Smtp.plan_verdict g) as [[]|].
Qed.

Lemma accepted_hooks_env set (st : Smtp.state daemon) :
  Smtp.stMode set = Smtp.ModeInbound -> Smtp.xEnv (Smtp.accepted_hooks be set st).2 = Smtp.xEnv st.
Proof. intros Hm. unfold Smtp.accepted_hooks. by rewrite Hm. Qed.

Lemma served_still D l e e' : still e e' -> served D l e -> served D l e'.
Proof. intros ((_ & Hd & _) & _ & Hc & _). by apply served_as. Qed.

(** The screening and the trace header, before the deliveries. *)
Lemma prepared set raw st :
  Smtp.stMode set = Smtp.ModeInbound -> Smtp.clock ex = now ->
  let body := Smtp.ensureCRLF raw in
  match Smtp.screen be ip set body st with
  | (inl _, st1) => still (Smtp.xEnv st) (Smtp.xEnv st1)
  | (inr (spam, extra), st1) => still (Smtp.xEnv st) (Smtp.xEnv st1) /\
      exists head, (Smtp.assemble ex ip body extra st1).1 = head ++ body /\
        Smtp.sign be set (head ++ body) (Smtp.assemble ex ip body extra st1).2 =
          (head ++ body, (Smtp.assemble ex ip body extra st1).2) /\
        still (Smtp.xEnv st1) (Smtp.xEnv (Smtp.assemble ex ip body extra st1).2)
  end.
Proof.
  intros Hm Hc body. pose proof (screen_env set body st Hm) as HE.
  pose proof (Screen_still lib po bayes ip (Smtp.sHelo (Smtp.xSess st)) (Smtp.sFrom (Smtp.xSess st)) body (Smtp.xEnv st)) as HS.
  destruct (Smtp.screen be ip set body st) as [[reason|[spam extra]] st1]; cbn [snd] in HE; rewrite <- HE in HS; [done|].
  split; [done|]. unfold Smtp.sign. rewrite Hm. cbn [Smtp.is_submission].
  unfold Smtp.assemble, mbind, SM_bind, Smtp.settings, Smtp.sess, Smtp.on_env, mret, SM_ret. rewrite Hc.
  pose proof (now_still (Smtp.xEnv st1)) as HN. destruct (now (Smtp.xEnv st1)) as [t e2]. cbn [fst snd Smtp.xEnv] in *.
  eexists. split; [|split; [done|done]]. rewrite !app_assoc. done.
Qed.

(** A message for one mailbox: accepted and stored, or refused for one of three
    reasons with no file changed. *)
Lemma accept_stores D set raw st r l :
  Smtp.stMode set = Smtp.ModeInbound -> cnWrites (Smtp.xConn st) = None -> Smtp.clock ex = now ->
  healthy D (Smtp.xEnv st) -> served D l (Smtp.xEnv st) -> Smtp.sRcpts (Smtp.xSess st) = [r] -> one_local r l ->
  let res := Smtp.accept_message be ex ip set raw st in
  exists line, SmtpFlow.closed_with line st res /\ healthy D (Smtp.xEnv res.2) /\
    ((line = #"250 2.0.0 OK message accepted for delivery" /\
      exists head, stored (Routing.lMailbox l) (Smtp.sFrom (Smtp.xSess st)) (head ++ Smtp.ensureCRLF raw)
                     (Smtp.xEnv st) (Smtp.xEnv res.2)) \/
     (((exists reason, line = #"550 5.7.1 " ++ reason) \/ line = #"452 4.2.2 over quota, try again later" \/
         line = #"451 4.3.0 delivery failed, try again later") /\
      wFiles (dmWorld (Smtp.xEnv res.2)) = wFiles (dmWorld (Smtp.xEnv st)))).
Proof.
  intros Hm Hw Hc He Hl Hr Hone res. unfold res, Smtp.accept_message. cbv zeta. unfold mbind, SM_bind, Smtp.sess.
  pose proof (prepared set raw st Hm Hc) as HP. cbv zeta in HP.
  destruct (SmtpFlow.step_inner _ st (SmtpProps.inner_screen be ex ip _ (SmtpProps.respects_true be ex) set (Smtp.ensureCRLF raw)))
    as (v & st1 & Hv & Hs1 & Hc1).
  rewrite Hv in *. destruct v as [reason|[spam extra]].
  { exists (#"550 5.7.1 " ++ reason). split; [by apply SmtpFlow.end_transaction_closes|]. rewrite end_transaction_env.
    split; [by eapply healthy_still|]. right. split; [left; by exists reason|]. by destruct HP as [(? & _) _]. }
  destruct HP as (HP1 & head & Ha & Hg & HP2).
  destruct (SmtpFlow.step_inner _ st1 (SmtpProps.inner_assemble be ex ip _ (SmtpProps.respects_true be ex) (Smtp.ensureCRLF raw) extra))
    as (m & st2 & E2 & Hs2 & Hc2).
  rewrite E2 in *. cbn [fst snd] in Ha, Hg, HP2. subst m. rewrite Hg.
  assert (still (Smtp.xEnv st) (Smtp.xEnv st2)) as HS by by transitivity (Smtp.xEnv st1).
  assert (Smtp.sRcpts (Smtp.xSess st2) = [r]) as -> by congruence.
  pose proof (deliver_all_ok D spam (head ++ Smtp.ensureCRLF raw) r l st2 (healthy_still _ _ _ HS He)
    (served_still _ _ _ _ HS Hl) Hone) as HD.
  pose proof (SmtpProps.inner_deliver_all be ex _ (SmtpProps.respects_true be ex) (fun _ => True) spam (head ++ Smtp.ensureCRLF raw)
    [r] 0 false st2 ltac:(by intros ? ? ? _ ? _) ltac:(by apply Forall_true; right)) as (Hs3 & Hc3 & _).
  destruct (Smtp.deliver_all be ex spam _ [r] 0 false st2) as [[acc over] st3]. cbn [snd] in Hs3, Hc3.
  destruct HD as [He3 HD]. destruct HS as ((Hf & _) & _). destruct (Nat.eqb acc 0); cbn [negb] in HD.
  - eexists. split; [apply SmtpFlow.end_transaction_closes; congruence|]. rewrite end_transaction_env.
    split; [done|]. right. split; [destruct over; auto|congruence].
  - destruct (SmtpFlow.step_inner _ st3 (SmtpProps.inner_accepted_hooks be ex _ (SmtpProps.respects_true be ex) set)) as ([] & st4 & E4 & Hs4 & Hc4).
    pose proof (accepted_hooks_env set st3 Hm) as H4. rewrite E4 in *. cbn [snd] in H4.
    eexists. split; [apply SmtpFlow.end_transaction_closes; congruence|]. rewrite end_transaction_env, H4.
    split; [done|]. left. split; [done|]. exists head. rewrite Hs2, Hs1 in HD. unfold stored in *. by rewrite Hf in HD.
Qed.
End Messages.

(** ** A daemon with one mailbox *)

Definition example_dirs : list path :=
  [ [ ]; [ #"m"]; [ #"m"; #"new"]; [ #"m"; #"cur"]; [ #"m"; #"tmp"];
    [ #"m"; #".Spam"]; [ #"m"; #".Spam"; #"new"]; [ #"m"; #".Spam"; #"cur"]; [ #"m"; #".Spam"; #"tmp"] ].

Definition example_config : Config :=
  mkConfig [mkDomain #"b.c" (mkStorage StorageVirtual [] [] [] []) #"s1" ∅ [] 1000]
    [mkUser #"u@b.c" [] #"/m" [] [] None [] #"400"] [].

Definition example_daemon : daemon :=
  mkDaemon (mkWorld ∅ (list_to_set example_dirs) [] (10 ^ 9) [] [] 0 7 #"mx") example_config
    (Auth.NewGuard 5 60) (Quota.New 60) None None.

Definition example_mailbox : StorageResolver.Mailbox := StorageResolver.mkMailbox #"u@b.c" #"/m" 0 0.

(** The scanner finds a virus in a message that starts like the test file. *)
Definition example_libs : Libraries :=
  mkLibraries (fun _ => None) (fun _ _ => []) (fun _ _ _ _ _ _ => []) (fun _ _ => false) (fun _ => None)
    (fun _ => None) (fun _ _ _ => #"none") (fun _ => None) (fun _ => None) (fun _ => None) (fun _ => None)
    (fun _ _ => None) (fun _ => false) elements
    (Some (fun data => Some (if has_prefix #"X5O!" data then #"Eicar" else []))) (fun _ _ => None) (fun _ => []).

Definition example_policies : Policies :=
  mkPolicies #"mx.b.c" false false false true (QArith_base.inject_Z 20) (QArith_base.inject_Z 60) (QArith_base.inject_Z 90) true (Reputation.mkWarmUp false 0 0 0).

Lemma example_dirs_spec q : q ∈ wDirs (dmWorld example_daemon) <-> q ∈ example_dirs.
Proof. apply elem_of_list_to_set. Qed.

Lemma example_dirs_length q : q ∈ example_dirs -> (length q <= 3)%nat.
Proof. revert q. apply Forall_forall. repeat (apply Forall_cons; split; [simpl; lia|]). by apply Forall_nil. Qed.

Definition plainb (s : str) : bool :=
  negb (s =s []) && negb (s =s #".") && negb (s =s #"..") && forallb (fun c => negb (Ascii.eqb c "/")) s.
Lemma plainb_plain s : plainb s = true -> plain s.
Proof.
  unfold plainb. intros (((H1 & H2)%andb_prop & H3)%andb_prop & H4)%andb_prop. rewrite negb_true_iff in H1, H2, H3.
  apply str_eqb_neq in H1, H2, H3. split_and!; try done. rewrite forallb_forall in H4. intros Hin%list_elem_of_In.
  by specialize (H4 _ Hin).
Qed.

Lemma example_dirs_tree q : q ∈ example_dirs -> Forall plain q /\ parent q ∈ example_dirs.
Proof.
  assert (forallb (fun q => forallb plainb q && bool_decide (parent q ∈ example_dirs)) example_dirs = true) as H
    by (vm_compute; reflexivity).
  intros Hq. rewrite forallb_forall in H. apply list_elem_of_In, H, andb_prop in Hq as [H1 H2].
  apply bool_decide_eq_true in H2. split; [|done]. apply Forall_forall. intros s Hs. apply plainb_plain.
  rewrite forallb_forall in H1. by apply H1, list_elem_of_In.
Qed.

Lemma example_healthy : healthy [ #"/m"] example_daemon.
Proof.
  split.
  - done.
  - vm_compute. intros Hin%list_elem_of_In. by repeat destruct Hin as [Hin|Hin].
  - split; [split| | |].
    + intros q [f Hq]. done.
    + intros q. rewrite example_dirs_spec. apply example_dirs_tree.
    + intros q f Hq. done.
    + intros q. rewrite !example_dirs_spec. apply example_dirs_tree.
    + done.
  - intros d e He. done.
  - intros d [x Hx]%elem_of_dom. done.
  - intros d1 d2 ->%list_elem_of_singleton ->%list_elem_of_singleton. done.
Qed.

Lemma example_ready folder : folder = [] \/ folder = #"Spam" ->
  folder_ready (dmWorld example_daemon) (folder_of example_mailbox folder).
Proof.
  intros Hf. assert (exists d : path, folder_of example_mailbox folder = d /\ (1 <= length d)%nat /\
    Forall (fun sub => join_path d sub ∈ example_dirs) maildir_subs /\
    (forall n, d ++ [ #"new"; n] ∉ example_dirs /\ d ++ [ #"cur"; n] ∉ example_dirs)) as (d & -> & _ & Hs & Hn).
  { destruct Hf as [-> | ->]; eexists; (split; [vm_compute; reflexivity|]); (split; [simpl; lia|]).
    - split; [apply (bool_decide_unpack _); vm_compute; exact I|].
      intros n. unfold example_dirs. split; set_solver.
    - split; [apply (bool_decide_unpack _); vm_compute; exact I|].
      intros n. split; intros Hin%example_dirs_length; simpl in Hin; lia. }
  split; [|intros n; rewrite !example_dirs_spec; apply Hn].
  intros sub Hsub. rewrite example_dirs_spec. rewrite Forall_forall in Hs. by apply Hs.
Qed.

Lemma example_domain : domain_known [ #"/m"] example_mailbox example_daemon.
Proof. intros a dom [= <- <-] d Hd. vm_compute in Hd. exact Hd. Qed.

Definition example_msg : str := repeat "a"%char 250.
(** The daemon after the quota hook, and after the delivery. *)
Definition example_asked : daemon := (QuotaHook example_mailbox (Z.of_nat (length example_msg)) example_daemon).2.
Definition example_filled : daemon := (Store example_mailbox #"x@y.z" [] false false example_msg example_asked).2.


(** Two mailfuls later the hook refuses. *)
Example quota_refuses :
  (QuotaHook example_mailbox 250 example_filled).1 = (false, #"mailbox is full").
Proof. vm_compute. reflexivity. Qed.

(** What IMAP appends is not in the cached usage: for as long as the entry is
    fresh the hook lets messages into a mailbox that is full. *)
Definition example_appended : daemon :=
  set_world example_filled (Deliver (folder_of example_mailbox []) (repeat "a"%char 600) (dmWorld example_filled)).2.
Example append_behind_the_cache :
  Quota.UserQuota example_config (mbEmail example_mailbox) = 400 /\
  (400 <? size_below #"/m" example_appended) = true /\
  (QuotaHook example_mailbox 100 example_appended).1.1 = true.
Proof. vm_compute. by split_and!. Qed.

Definition example_services : Smtp.Services daemon :=
  Smtp.mkServices (fun _ e => (None, e)) now (fun e => ([], e)) (fun _ => None) (fun _ => None) (fun _ => []).
Definition example_settings : Smtp.Settings :=
  Smtp.mkSettings #"mx.b.c" 1000 10 Smtp.ModeInbound false true None None None (Container.mkIdentity false [] [] []) None.
Definition example_local : Routing.Local := Routing.mkLocal example_mailbox [].
Definition example_rcpt : Smtp.rcpt := Smtp.mkRcpt #"u@b.c" false #"b.c" (Routing.mkPlan [example_local] [] true).
Definition example_state : Smtp.state daemon :=
  Smtp.mkState (Smtp.mkSession #"client" false [] #"x@y.z" true [example_rcpt]) (mkConn (mkReader [] []) [] None)
    example_settings example_daemon.

#[local] Existing Instance QueueProps.toy_codec.
#[local] Notation example_backend := (backend example_libs example_policies None [ #"q"]).

Lemma example_served : served example_services [ #"/m"] example_local example_daemon.
Proof.
  split.
  - by apply list_elem_of_singleton.
  - apply example_domain.
  - done.
  - intros [] msg; apply (bool_decide_unpack _); vm_compute; exact I.
  - intros [] msg; apply example_ready; [by right|by left].
Qed.

Lemma virus_refused_witness :
  let r := Smtp.accept_message example_backend example_services #"192.0.2.1" example_settings #"X5O!P%" example_state in
  (exists reason, SmtpFlow.closed_with (#"550 5.7.1 " ++ reason) example_state r) /\
  still example_daemon (Smtp.xEnv r.2).
Proof.
  apply (virus_refused example_libs example_policies None [ #"q"] example_services #"192.0.2.1" example_settings
    #"X5O!P%" example_state (fun data => Some (if has_prefix #"X5O!" data then #"Eicar" else [])) #"Eicar").
  all: try reflexivity. discriminate.
Defined.


(** Its message is stored; one that no longer fits is refused for now. *)
Example mail_stored_runs :
  let run e := Smtp.accept_message example_backend example_services #"192.0.2.1" example_settings #"hi"
                 (Smtp.mkState (Smtp.xSess example_state) (Smtp.xConn example_state) example_settings e) in
  (cnOut (Smtp.xConn (run example_daemon).2) = [ #"250 2.0.0 OK message accepted for delivery"] /\
   map fst (map_to_list (wFiles (dmWorld (Smtp.xEnv (run example_daemon).2)))) =
     [[ #"m"; #"new"; #"1.M0P7Q1R0.mx"]]) /\
  cnOut (Smtp.xConn (run example_filled).2) = [ #"452 4.2.2 over quota, try again later"].
Proof. vm_compute. auto. Qed.
