(* ===== verification/Pop3.v ===== *)
(** * The POP3 server (internal/pop3/pop3.go)

    The commands of a session over an INBOX snapshot that stays the same from
    the login to QUIT: message numbers, deletion marks, retrieval with dot
    stuffing, and the removal of the marked messages.  The slice [s.msgs] is
    the one of the open mailbox, whose messages [SetFlags] updates in place:
    both are [bxMessages] here.  [Authenticate], the TLS handshake and MD5 are
    parameters; log lines are left out. *)

From S2P Require Import Prelude GoStrings GoOS GoNet StateM MaildirFlags Maildir.

Record Settings := mkSettings { pHostname : str; pTLS : bool; pImplicitTLS : bool }.

Definition maxLine : nat := Z.to_nat 1024.
Definition bufSize : nat := Z.to_nat 1024.

Record session := mkSession {
  psTls : bool;
  psUser : str;
  psMbox : option Mailbox;
  psDel : gset Z;
  psAuthd : bool }.

Record state := mkState {
  psSess : session;
  psConn : conn;
  psSet : Settings;
  psWorld : world }.

Definition newSession (set : Settings) : session := mkSession (pImplicitTLS set) [] None ∅ false.

Abbreviation PM := (SM state).

Definition sess : PM session := fun st => (psSess st, st).
Definition set_sess (f : session -> session) : PM unit := fun st =>
  (tt, mkState (f (psSess st)) (psConn st) (psSet st) (psWorld st)).
Definition settings : PM Settings := fun st => (psSet st, st).
Definition on_conn {A} (f : conn -> A * conn) : PM A := fun st =>
  let '(a, c) := f (psConn st) in (a, mkState (psSess st) c (psSet st) (psWorld st)).
(** A block on the file system. *)
Definition on_disk {A} (m : M A) : PM (result error A) := fun st =>
  let '(r, w) := m (psWorld st) in (r, mkState (psSess st) (psConn st) (psSet st) w).

Definition send (ls : list str) : PM unit := _ ← on_conn (write_lines ls); mret tt.
Definition ok (text : str) : PM unit := send [ #"+OK " ++ text].
Definition err (text : str) : PM unit := send [ #"-ERR " ++ text].

(** [readLine]: [None] ends the session. *)
Definition readLine : PM (option str) :=
  '(line, good) ← on_conn (fun c => let '(l, good, rd) := ReadString bufSize (cnReader c) in ((l, good), with_reader rd c));
  mret (if negb good then None
        else if Nat.ltb maxLine (length line) then None
        else Some (trim_right CRLF line)).

Definition msgs (s : session) : list Message :=
  match psMbox s with Some mb => bxMessages mb | None => [] end.

(** The messages with their numbers, those not marked for deletion. *)
Definition with_numbers (l : list Message) : list (Z * Message) :=
  imap (fun i m => (Z.of_nat i + 1, m)) l.
Definition unmarked (s : session) : list (Z * Message) :=
  List.filter (fun nm : Z * Message => bool_decide (nm.1 ∉ psDel s)) (with_numbers (msgs s)).
Definition marked (s : session) : list (Z * Message) :=
  List.filter (fun nm : Z * Message => bool_decide (nm.1 ∈ psDel s)) (with_numbers (msgs s)).

Definition totalSize (s : session) : Z :=
  foldr (fun (nm : Z * Message) n => mSize nm.2 + n) 0 (unmarked s).

Section Handlers.
(** [Backend.Authenticate], the handshake and the hex digest of [md5.Sum]. *)
Context (Authenticate : str -> str -> M str).
Context (handshake : list str -> option (list str)).
Context (md5_hex : str -> str).

Definition cmdCapa : PM unit :=
  s ← sess;
  set ← settings;
  send ([ #"+OK capability list follows"; #"TOP"; #"UIDL"; #"USER"; #"RESP-CODES"]
        ++ (if negb (psTls s) && pTLS set then [ #"STLS"] else []) ++ [ #"."]).

Definition cmdSTLS : PM bool :=
  set ← settings;
  s ← sess;
  if negb (pTLS set) then _ ← err #"TLS not available"; mret false
  else if psTls s then _ ← err #"already in TLS"; mret false
  else
    good ← on_conn (write_lines [ #"+OK begin TLS negotiation"]);
    if negb good then mret true
    else
      raw ← on_conn (fun c => (rdIn (cnReader c), c));
      match handshake raw with
      | None => mret true
      | Some clear =>
          _ ← on_conn (fun c => (tt, with_reader (mkReader [] clear) c));
          _ ← set_sess (fun s => mkSession true [] (psMbox s) (psDel s) false);
          mret false
      end.

Definition cmdUser (arg : str) : PM unit :=
  s ← sess;
  if negb (psTls s) then err #"[AUTH] STLS required before authentication"
  else if arg =s [] then err #"USER needs a username"
  else
    _ ← set_sess (fun s => mkSession (psTls s) arg (psMbox s) (psDel s) (psAuthd s));
    ok #"send PASS".

Definition set_mbox (mb : Mailbox) : PM unit :=
  set_sess (fun s => mkSession (psTls s) (psUser s) (Some mb) (psDel s) (psAuthd s)).

Definition cmdPass (arg : str) : PM unit :=
  s ← sess;
  if negb (psTls s) then err #"[AUTH] STLS required before authentication"
  else if psUser s =s [] then err #"send USER first"
  else
    r ← on_disk (Authenticate (psUser s) arg);
    match r with
    | Err _ =>
        _ ← set_sess (fun s => mkSession (psTls s) [] (psMbox s) (psDel s) (psAuthd s));
        err #"[AUTH] authentication failed"
    | Ok root =>
        r ← on_disk (OpenMailbox (abs_path root) Inbox);
        match r with
        | Err _ => err #"cannot open mailbox"
        | Ok mb =>
            _ ← set_sess (fun s => mkSession (psTls s) (psUser s) (Some mb) (psDel s) true);
            s ← sess;
            ok (#"mailbox ready, " ++ dec (Z.of_nat (length (msgs s))) ++ #" messages ("
                ++ dec (totalSize s) ++ #" octets)")
        end
    end.

(** [requireAuth] in front of a command. *)
Definition authed (m : PM unit) : PM unit :=
  s ← sess; if negb (psAuthd s) then err #"not authenticated" else m.

(** [message]: the number and the message it names, or the error sent. *)
Definition message (arg : str) : PM (option (Z * Message)) :=
  s ← sess;
  match parse_int arg with
  | None => _ ← err #"no such message"; mret None
  | Some n =>
      if (n <? 1) || (Z.of_nat (length (msgs s)) <? n) then _ ← err #"no such message"; mret None
      else if bool_decide (n ∈ psDel s) then
        _ ← err (#"message " ++ dec n ++ #" already deleted"); mret None
      else mret ((fun m => (n, m)) <$> (msgs s !! Z.to_nat (n - 1)))
  end.

Definition with_message (arg : str) (f : Z -> Message -> PM unit) : PM unit :=
  r ← message arg; match r with None => mret tt | Some (n, m) => f n m end.

Definition cmdStat : PM unit :=
  authed (s ← sess; ok (dec (Z.of_nat (length (unmarked s))) ++ #" " ++ dec (totalSize s))).

Definition size_line (nm : Z * Message) : str := dec nm.1 ++ #" " ++ dec (mSize nm.2).
Definition cmdList (arg : str) : PM unit :=
  authed
    (if negb (arg =s []) then with_message arg (fun n m => ok (size_line (n, m)))
     else
       s ← sess;
       send ([ #"+OK " ++ dec (Z.of_nat (length (msgs s)) - Z.of_nat (size (psDel s))) ++ #" messages"]
             ++ map size_line (unmarked s) ++ [ #"."])).

Definition uidl (m : Message) : str := md5_hex (BaseName (mName m)).
Definition uidl_line (nm : Z * Message) : str := dec nm.1 ++ #" " ++ uidl nm.2.
Definition cmdUidl (arg : str) : PM unit :=
  authed
    (if negb (arg =s []) then with_message arg (fun n m => ok (uidl_line (n, m)))
     else
       s ← sess;
       send ([ #"+OK unique-id listing follows"] ++ map uidl_line (unmarked s) ++ [ #"."])).

(** [writeDotted]: the lines written for a message. *)
Definition dotted_line (line : str) : str :=
  let line := trim_suffix [CR] line in (if has_prefix #"." line then #"." else []) ++ line.
Definition dotted_block (block : str) : list str := map dotted_line (GoStrings.split LF block).
Definition header_body (data : str) : str * str :=
  let '(header, body, found) := cut_str (CRLF ++ CRLF) data in
  if found : bool then (header, body) else (data, []).
Definition dotted (data : str) (maxBodyLines : Z) : list str :=
  let '(header, body) := header_body data in
  dotted_block header
  ++ (if negb (maxBodyLines =? 0) then
        let lines := GoStrings.split LF body in
        let lines := if (0 <? maxBodyLines) && (maxBodyLines <? Z.of_nat (length lines))
                     then take (Z.to_nat maxBodyLines) lines else lines in
        [ []] ++ dotted_block (join [LF] lines)
      else [])
  ++ [ #"."].

(** The flag that retrieval sets; its error is ignored. *)
Definition mark_seen (n : Z) (m : Message) : PM unit :=
  if Has (mFlags m) FlagSeen then mret tt
  else
    s ← sess;
    match psMbox s with
    | None => mret tt
    | Some mb =>
        r ← on_disk (SetFlags mb (Z.to_nat (n - 1)) (Add (mFlags m) FlagSeen));
        match r with Ok mb' => set_mbox mb' | Err _ => mret tt end
    end.

Definition cmdRetr (arg : str) : PM unit :=
  authed (with_message arg (fun n m =>
    r ← on_disk (Read m);
    match r with
    | Err _ => err #"cannot read message"
    | Ok data =>
        _ ← mark_seen n m;
        send ([ #"+OK " ++ dec (Z.of_nat (length data)) ++ #" octets"] ++ dotted data (-1))
    end)).

Definition cmdTop (arg : str) : PM unit :=
  authed
    (let '(numStr, linesStr, found) := cut SP arg in
     if negb found then err #"TOP needs a message number and a line count"
     else match parse_int (trim_space linesStr) with
          | None => err #"invalid line count"
          | Some n =>
              if n <? 0 then err #"invalid line count"
              else with_message (trim_space numStr) (fun _ m =>
                r ← on_disk (Read m);
                match r with
                | Err _ => err #"cannot read message"
                | Ok data => send ([ #"+OK top of message follows"] ++ dotted data n)
                end)
          end).

Definition cmdDele (arg : str) : PM unit :=
  authed (with_message arg (fun n _ =>
    _ ← set_sess (fun s => mkSession (psTls s) (psUser s) (psMbox s) ({[n]} ∪ psDel s) (psAuthd s));
    ok (#"message " ++ dec n ++ #" deleted"))).

Definition cmdRset : PM unit :=
  authed (
    _ ← set_sess (fun s => mkSession (psTls s) (psUser s) (psMbox s) ∅ (psAuthd s));
    s ← sess;
    ok (#"maildrop has " ++ dec (Z.of_nat (length (msgs s))) ++ #" messages (" ++ dec (totalSize s) ++ #" octets)")).

(** The flagging loop of [cmdQuit]: the mailbox and how many were flagged. *)
Fixpoint flag_marked (l : list (Z * Message)) (mb : Mailbox) (removed : Z) : PM (Mailbox * Z) :=
  match l with
  | [] => mret (mb, removed)
  | (n, m) :: r =>
      res ← on_disk (SetFlags mb (Z.to_nat (n - 1)) (Add (mFlags m) FlagDeleted));
      match res with
      | Ok mb' => flag_marked r mb' (removed + 1)
      | Err _ => flag_marked r mb removed
      end
  end.

Definition cmdQuit : PM unit :=
  s ← sess;
  set ← settings;
  match psMbox s with
  | Some mb =>
      if negb (psAuthd s) || bool_decide (psDel s = ∅) then ok (pHostname set ++ #" closing connection")
      else
        '(mb, removed) ← flag_marked (marked s) mb 0;
        _ ← set_mbox mb;
        r ← on_disk (Expunge mb);
        match r with
        | Err _ => err #"some messages were not removed"
        | Ok (_, mb) =>
            _ ← set_mbox mb;
            ok (pHostname set ++ #" closing connection, " ++ dec removed ++ #" messages deleted")
        end
  | None => ok (pHostname set ++ #" closing connection")
  end.

Definition going_on (m : PM unit) : PM bool := _ ← m; mret false.

(** The verb and what it runs; [true] ends the session. *)
Definition dispatch (cmd arg : str) : PM bool :=
  let cmd := to_upper cmd in
  if cmd =s #"CAPA" then going_on cmdCapa
  else if cmd =s #"STLS" then cmdSTLS
  else if cmd =s #"USER" then going_on (cmdUser arg)
  else if cmd =s #"PASS" then going_on (cmdPass arg)
  else if cmd =s #"STAT" then going_on cmdStat
  else if cmd =s #"LIST" then going_on (cmdList arg)
  else if cmd =s #"UIDL" then going_on (cmdUidl arg)
  else if cmd =s #"RETR" then going_on (cmdRetr arg)
  else if cmd =s #"TOP" then going_on (cmdTop arg)
  else if cmd =s #"DELE" then going_on (cmdDele arg)
  else if cmd =s #"RSET" then going_on cmdRset
  else if cmd =s #"NOOP" then going_on (ok [])
  else if cmd =s #"QUIT" then _ ← cmdQuit; mret true
  else going_on (err #"unknown command").

Definition turn : PM bool :=
  l ← readLine;
  match l with
  | None => mret true
  | Some line =>
      if trim_space line =s [] then mret false
      else let '(cmd, arg, _) := cut SP line in dispatch cmd (trim_space arg)
  end.

(** The loop of [run]; [false] when the fuel did not do. *)
Fixpoint run_loop (fuel : nat) : PM bool :=
  match fuel with
  | 0%nat => mret false
  | S f => quit ← turn; if quit : bool then mret true else run_loop f
  end.

Definition run (fuel : nat) : PM bool :=
  set ← settings;
  good ← on_conn (write_lines [ #"+OK " ++ pHostname set ++ #" Verta POP3 ready"]);
  if negb good then mret true else run_loop fuel.
End Handlers.
