(* ===== verification/Pop3Props.v ===== *)
(** * Properties of the POP3 server

    Retrieval gives the client the message back; a login happens under TLS
    only; until QUIT numbers keep their meaning and no message is removed; QUIT
    removes what was marked. *)

From S2P Require Import Prelude GoStrings GoOS GoNet StateM MaildirFlags Maildir MaildirUID MaildirProps Pop3.

(** ** Retrieval *)

(** The bytes on the wire of lines written one by one. *)
Definition wire (ls : list str) : str := concat (map (fun l => l ++ CRLF) ls).

Lemma wire_app a b : wire (a ++ b) = wire a ++ wire b.
Proof. unfold wire. by rewrite map_app, concat_app. Qed.


(** The end of the header is found where it is. *)
Lemma header_end hs b :
  hs <> [] -> Forall (fun l => plain_line l /\ l <> []) hs ->
  index (CRLF ++ CRLF) (join CRLF hs ++ (CRLF ++ CRLF) ++ b) = Some (length (join CRLF hs)).
Proof.
  intros Hn HF. destruct hs as [|h hs]; [done|]. clear Hn. revert h HF.
  induction hs as [|h2 hs IH]; intros h HF.
  - inversion_clear HF as [|? ? [[HC _] _] _]. cbn [join]. induction h as [|c h IHh].
    + destruct b; reflexivity.
    + apply not_elem_of_cons in HC as [Hc HC]. specialize (IHh HC). cbn [app index has_prefix CRLF] in *.
      destruct (Ascii.eqb_spec CR c) as [<-|]; [done|]. cbn [andb]. by rewrite IHh.
  - inversion_clear HF as [|? ? [[HC _] _] HF2]. specialize (IH h2 HF2).
    inversion_clear HF2 as [|? ? [[HC2 _] Hn2] _].
    change (join CRLF (h :: h2 :: hs)) with (h ++ CRLF ++ join CRLF (h2 :: hs)).
    assert (exists c r, join CRLF (h2 :: hs) = c :: r /\ c <> CR) as (c2 & r2 & E2 & Hc2).
    { destruct h2 as [|c r]; [done|]. apply not_elem_of_cons in HC2 as [Hc _].
      destruct hs; cbn [join app]; eexists _, _; (split; [reflexivity|congruence]). }
    rewrite E2 in *. induction h as [|c h IHh].
    + cbn [app index has_prefix CRLF] in *. destruct (Ascii.eqb_spec CR c2) as [<-|]; [done|].
      cbn. cbn in IH. rewrite IH. done.
    + apply not_elem_of_cons in HC as [Hc HC]. specialize (IHh HC). cbn [app index has_prefix CRLF length] in *.
      destruct (Ascii.eqb_spec CR c) as [<-|]; [done|]. cbn [andb]. rewrite IHh. done.
Qed.

(** A text of CRLF lines, cut at LF, gives the lines back. *)
Lemma dotted_block_lines ls :
  ls <> [] -> Forall plain_line ls ->
  dotted_block (join CRLF ls) = map (fun l => (if has_prefix #"." l then #"." else []) ++ l) ls.
Proof.
  intros Hn HF. unfold dotted_block. destruct ls as [|l ls]; [done|]. clear Hn. revert l HF.
  induction ls as [|l2 ls IH]; intros l HF; inversion_clear HF as [|? ? [HC HL] HF2].
  - cbn [join]. rewrite split_no_sep by done. cbn [map]. unfold dotted_line.
    assert (trim_suffix [CR] l = l) as ->; [|done]. unfold trim_suffix.
    destruct (has_suffix [CR] l) eqn:E; [|done]. apply has_suffix_spec in E as [t ->]. set_solver.
  - change (join CRLF (l :: l2 :: ls)) with (l ++ [CR] ++ LF :: join CRLF (l2 :: ls)).
    rewrite app_assoc, split_app by (rewrite elem_of_app, list_elem_of_singleton; by intros [|[=]]).
    cbn [map]. rewrite IH by done. f_equal. unfold dotted_line. by rewrite trim_suffix_app.
Qed.

Lemma wire_dots ls :
  wire (map (fun l => (if has_prefix #"." l then #"." else []) ++ l) ls ++ [ #"."]) = dot_stuff ls.
Proof.
  rewrite wire_app. unfold dot_stuff. change (wire [ #"."]) with (#"." ++ CRLF). f_equal.
  unfold wire. rewrite map_map. f_equal. apply map_ext. intros l. unfold stuff_line. by rewrite <- app_assoc.
Qed.

(** A client that undoes the dot encoding of what RETR sends gets the header
    lines, the blank line and the body lines of the message, and is then at the
    next reply; a body that ends with CRLF is followed by one empty line. *)
Theorem retr_roundtrip hs bs rest :
  hs <> [] -> Forall (fun l => plain_line l /\ l <> []) hs -> bs <> [] -> Forall plain_line bs ->
  dot_bytes BeginLine (wire (dotted (join CRLF hs ++ (CRLF ++ CRLF) ++ join CRLF bs) (-1)) ++ rest)
  = Some (concat (map (fun l => l ++ [LF]) (hs ++ [[]] ++ bs)), rest).
Proof.
  intros Hh Hhf Hb Hbf. rewrite <- (dot_bytes_stuff (hs ++ [[]] ++ bs) rest).
  - f_equal. f_equal. rewrite <- wire_dots. f_equal. unfold dotted, header_body, cut_str.
    rewrite header_end by done. rewrite take_app_length.
    assert (drop (length (join CRLF hs) + length (CRLF ++ CRLF)) (join CRLF hs ++ (CRLF ++ CRLF) ++ join CRLF bs)
            = join CRLF bs) as -> by (by rewrite <- drop_drop, drop_app_length, drop_app_length).
    change (-1 =? 0) with false. change (0 <? -1) with false. cbn [negb andb].
    rewrite !map_app, <- !app_assoc. f_equal.
    { apply dotted_block_lines; [done|]. eapply Forall_impl; [exact Hhf|]. by intros l []. }
    f_equal. rewrite join_split. f_equal. by apply dotted_block_lines.
  - apply Forall_app. split; [eapply Forall_impl; [exact Hhf|]; by intros l []|].
    apply Forall_app. split; [|done]. constructor; [|done]. split; set_solver.
Qed.

Lemma retr_roundtrip_witness :
  dot_bytes BeginLine (wire (dotted (#"Subject: x" ++ (CRLF ++ CRLF) ++ #".hi" ++ CRLF) (-1)) ++ #"+OK")
  = Some (#"Subject: x" ++ [LF; LF] ++ #".hi" ++ [LF; LF], #"+OK").
Proof.
  assert (forall l, forallb (fun c => negb (Ascii.eqb c CR || Ascii.eqb c LF)) l = true -> plain_line l) as HP.
  { intros l H. rewrite forallb_forall in H. split; intros Hin; apply list_elem_of_In in Hin; by specialize (H _ Hin). }
  apply (retr_roundtrip [ #"Subject: x"] [ #".hi"; []] #"+OK").
  - discriminate.
  - constructor; [|constructor]. split; [by apply HP|discriminate].
  - discriminate.
  - constructor; [by apply HP|]. constructor; [by apply HP|constructor].
Defined.

(** ** What handlers leave alone *)

(** What a message number means to the client. *)
Definition key (m : Message) : str * Z * Z := (msg_base m, mUID m, mSize m).
Definition view (st : state) : list (str * Z * Z) := map key (msgs (psSess st)).

(** Handlers that neither change the view nor the files. *)
Definition calm (st st' : state) : Prop :=
  view st' = view st /\ wFiles (psWorld st') = wFiles (psWorld st) /\
  psTls (psSess st') = psTls (psSess st) /\ psAuthd (psSess st') = psAuthd (psSess st) /\
  psMbox (psSess st') = psMbox (psSess st).

#[export] Instance calm_preorder : PreOrder calm.
Proof.
  split; [by intros st|]. intros a b c (?&?&?&?&?) (?&?&?&?&?). split_and!; congruence.
Qed.

Lemma calm_conn {A} (f : conn -> A * conn) : keeps calm (on_conn f).
Proof. intros st. unfold on_conn. by destruct (f (psConn st)). Qed.
Lemma calm_send ls : keeps calm (send ls).
Proof. unfold send. apply keeps_bind; [exact _|apply calm_conn|intros; apply keeps_ret; exact _]. Qed.
Lemma calm_ok t : keeps calm (ok t).
Proof. apply calm_send. Qed.
Lemma calm_err t : keeps calm (err t).
Proof. apply calm_send. Qed.

Lemma calm_set_sess f :
  (forall s, psMbox (f s) = psMbox s /\ psTls (f s) = psTls s /\ psAuthd (f s) = psAuthd s) ->
  keeps calm (set_sess f).
Proof.
  intros Hf st. destruct (Hf (psSess st)) as (Hm & Ht & Ha). unfold calm, view, msgs. simpl. by rewrite Hm.
Qed.

Lemma calm_disk {A} (m : M A) : (forall w, wFiles (m w).2 = wFiles w) -> keeps calm (on_disk m).
Proof.
  intros Hm st. unfold on_disk. specialize (Hm (psWorld st)). by destruct (m (psWorld st)).
Qed.

Lemma Read_files m w : wFiles (Read m w).2 = wFiles w.
Proof. apply (wp_ReadFile (Path m) w (fun _ w' => wFiles w' = wFiles w)); intros; done. Qed.
#[export] Hint Resolve calm_send calm_ok calm_err : session.

Lemma calm_message arg : keeps calm (message arg).
Proof. unfold message. keeps_auto. Qed.
#[export] Hint Resolve calm_message : session.

Lemma calm_with_message arg f : (forall n m, keeps calm (f n m)) -> keeps calm (with_message arg f).
Proof. intros Hf. unfold with_message. apply keeps_bind; [exact _|auto with session|intros [[n m]|]]; [apply Hf|keeps_auto]. Qed.

Lemma calm_authed m : keeps calm m -> keeps calm (authed m).
Proof. intros Hm. unfold authed. keeps_auto. Qed.

Section Handlers.
Context (Authenticate : str -> str -> M str) (handshake : list str -> option (list str)) (md5_hex : str -> str).

Lemma calm_readLine : keeps calm readLine.
Proof.
  unfold readLine. apply keeps_bind; [exact _|apply calm_conn|intros [l g]]. keeps_auto.
Qed.

(** The commands of the transaction state that only look. *)
Lemma calm_cmdTop arg : keeps calm (cmdTop arg).
Proof.
  unfold cmdTop. apply calm_authed. destruct (cut SP arg) as [[num lines] found].
  destruct (negb found); [keeps_auto|]. destruct (parse_int _) as [n|]; [|keeps_auto].
  destruct (n <? 0); [keeps_auto|]. apply calm_with_message. intros k m.
  apply keeps_bind; [exact _|apply calm_disk, Read_files|intros r]. keeps_auto.
Qed.

Lemma calm_cmdList arg : keeps calm (cmdList arg).
Proof.
  unfold cmdList. apply calm_authed. destruct (negb _); [apply calm_with_message; keeps_auto|keeps_auto].
Qed.
Lemma calm_cmdUidl arg : keeps calm (cmdUidl md5_hex arg).
Proof.
  unfold cmdUidl. apply calm_authed. destruct (negb _); [apply calm_with_message; keeps_auto|keeps_auto].
Qed.
Lemma calm_cmdStat : keeps calm cmdStat.
Proof. unfold cmdStat. apply calm_authed. keeps_auto. Qed.

(** The ones that mark. *)
Lemma calm_cmdDele arg : keeps calm (cmdDele arg).
Proof.
  unfold cmdDele. apply calm_authed, calm_with_message. intros n m.
  apply keeps_bind; [exact _|by apply calm_set_sess|intros; auto with session].
Qed.
Lemma calm_cmdRset : keeps calm cmdRset.
Proof.
  unfold cmdRset. apply calm_authed. apply keeps_bind; [exact _|by apply calm_set_sess|intros _]. keeps_auto.
Qed.
Lemma calm_cmdUser arg : keeps calm (cmdUser arg).
Proof.
  unfold cmdUser. apply keeps_bind; [exact _|apply keeps_get; exact _|intros s].
  destruct (negb (psTls s)); [keeps_auto|]. destruct (arg =s []); [keeps_auto|].
  apply keeps_bind; [exact _|by apply calm_set_sess|intros _]. keeps_auto.
Qed.
Lemma calm_cmdCapa : keeps calm cmdCapa.
Proof. unfold cmdCapa. keeps_auto. Qed.
Lemma calm_going_on m : keeps calm m -> keeps calm (going_on m).
Proof. intros Hm. unfold going_on. keeps_auto. Qed.

(** STLS changes the phase of the connection, and nothing of the mailbox. *)
Lemma cmdSTLS_view st :
  let st' := (cmdSTLS handshake st).2 in view st' = view st /\ wFiles (psWorld st') = wFiles (psWorld st).
Proof.
  destruct st as [s [rd out wr] set w]. unfold cmdSTLS, mbind, SM_bind, settings, sess, err, send, on_conn, write_lines.
  simpl. destruct (pTLS set), (psTls s), wr as [[|n]|]; simpl; try done; by destruct (handshake (rdIn rd)).
Qed.
End Handlers.

(** ** Retrieval and the view *)

(** Setting flags keeps what the numbers mean, and moves at most one file. *)
Lemma SetFlags_view mb i f w :
  let r := SetFlags mb i f w in
  match r.1 with
  | Ok mb' => map key (bxMessages mb') = map key (bxMessages mb)
  | Err _ => True
  end /\
  (wFiles r.2 = wFiles w \/
   exists m file new, bxMessages mb !! i = Some m /\ wFiles w !! (join_path (join_path (folderDir (bxRoot mb) (bxFolder mb)) (mDir m)) (mName m)) = Some file /\
     wFiles r.2 = <[new := file]> (delete (join_path (join_path (folderDir (bxRoot mb) (bxFolder mb)) (mDir m)) (mName m)) (wFiles w))).
Proof.
  cbv zeta. unfold SetFlags. destruct (bxMessages mb !! i) as [m|] eqn:Ei; [|split; [done|by left]]. cbv zeta.
  set (m' := mkMessage _ _ _ _ _ _ _ _ _ _). set (old := join_path _ (mName m)). set (new := join_path _ (FileName _ _)).
  assert (map key (<[i:=m']> (bxMessages mb)) = map key (bxMessages mb)) as Hk.
  { change (map key) with (fmap (M := list) key). rewrite list_fmap_insert. apply list_insert_id.
    rewrite list_lookup_fmap, Ei. change (Some (key m) = Some (key m')). unfold key, msg_base.
    change (mName m') with (FileName (BaseName (mName m)) f). by rewrite BaseName_FileName by apply BaseName_no_info. }
  case_decide; [split; [exact Hk|by left]|].
  apply (wp_bind (Rename old new) _ w (fun r w' => match r with Ok mb' => map key (bxMessages mb') = map key (bxMessages mb) | Err _ => True end /\
    (wFiles w' = wFiles w \/ exists m0 file new0, Some m = Some m0 /\ wFiles w !! _ = Some file /\ wFiles w' = _))).
  apply wp_Rename.
  - intros e w' Hw. split; [done|by left].
  - intros file w' Hl Hw. split; [exact Hk|]. right. by exists m, file, new.
Qed.

(** At most one file has another name, with the same contents. *)
Definition moved (st st' : state) : Prop :=
  view st' = view st /\
  (wFiles (psWorld st') = wFiles (psWorld st) \/
   exists old new file, wFiles (psWorld st) !! old = Some file /\
     wFiles (psWorld st') = <[new := file]> (delete old (wFiles (psWorld st)))).

Lemma calm_moved : subrelation calm moved.
Proof. intros st st' (Hv&Hw&_). split; [done|by left]. Qed.

Lemma moved_after {A B} (m : PM A) (f : A -> PM B) :
  keeps calm m -> (forall a, keeps moved (f a)) -> keeps moved (m ≫= f).
Proof.
  intros Hm Hf st. unfold mbind, SM_bind. specialize (Hm st). destruct (m st) as [a st1].
  destruct Hm as (Hv&Hw&_). destruct (Hf a st1) as [Hv2 Hw2]. simpl in *. rewrite Hw in Hw2.
  split; [congruence|done].
Qed.
Lemma moved_before {A B} (m : PM A) (f : A -> PM B) :
  keeps moved m -> (forall a, keeps calm (f a)) -> keeps moved (m ≫= f).
Proof.
  intros Hm Hf st. unfold mbind, SM_bind. specialize (Hm st). destruct (m st) as [a st1].
  destruct Hm as (Hv&Hw). destruct (Hf a st1) as (Hv2&Hw2&_). simpl in *. unfold moved. rewrite Hw2.
  split; [congruence|done].
Qed.

Lemma moved_mark_seen n m : keeps moved (mark_seen n m).
Proof.
  unfold mark_seen. destruct (Has (mFlags m) FlagSeen).
  { apply (keeps_weaken calm); [apply calm_moved|keeps_auto]. }
  intros st. unfold mbind, SM_bind, sess. destruct (psMbox (psSess st)) as [mb|] eqn:Em;
    [|split; [done|by left]].
  unfold on_disk. pose proof (SetFlags_view mb (Z.to_nat (n - 1)) (Add (mFlags m) FlagSeen) (psWorld st)) as [Hv Hw].
  destruct (SetFlags mb _ _ (psWorld st)) as [[mb'|e] w']; simpl in *; unfold moved, view, msgs; simpl.
  - rewrite Em. split; [done|]. destruct Hw as [Hw|(m1 & file & new & _ & Hl & Hw)]; [by left|right; eauto].
  - split; [done|]. destruct Hw as [Hw|(m1 & file & new & _ & Hl & Hw)]; [by left|right; eauto].
Qed.

Lemma moved_cmdRetr arg : keeps moved (cmdRetr arg).
Proof.
  unfold cmdRetr, authed. apply moved_after; [apply keeps_get; exact _|intros s].
  destruct (negb (psAuthd s)); [apply (keeps_weaken calm); [apply calm_moved|auto with session]|].
  unfold with_message. apply moved_after; [auto with session|]. intros [[n m]|];
    [|apply (keeps_weaken calm); [apply calm_moved|keeps_auto]].
  apply moved_after; [apply calm_disk, Read_files|]. intros [data|e];
    [|apply (keeps_weaken calm); [apply calm_moved|auto with session]].
  apply moved_before; [apply moved_mark_seen|auto with session].
Qed.

Lemma moved_going_on m : keeps moved m -> keeps moved (going_on m).
Proof. intros Hm. apply moved_before; [done|intros; apply keeps_ret; exact _]. Qed.

Section Session.
Context (Authenticate : str -> str -> M str) (handshake : list str -> option (list str)) (md5_hex : str -> str).

(** Until QUIT a message number means the same message, whatever is marked,
    and no message is removed: a command other than PASS and QUIT leaves all
    files as they are, or (RETR) renames the one it marks as seen. *)
Theorem until_quit_nothing_removed cmd arg st :
  to_upper cmd <> #"PASS" -> to_upper cmd <> #"QUIT" ->
  let st' := (dispatch Authenticate handshake md5_hex cmd arg st).2 in
  view st' = view st /\
  (wFiles (psWorld st') = wFiles (psWorld st) \/
   (to_upper cmd = #"RETR" /\ exists old new file, wFiles (psWorld st) !! old = Some file /\
      wFiles (psWorld st') = <[new := file]> (delete old (wFiles (psWorld st))))).
Proof.
  intros Hp Hq. apply str_eqb_neq in Hp, Hq. unfold dispatch. cbv zeta. rewrite Hp, Hq.
  assert (forall m : PM bool, keeps calm m -> view (m st).2 = view st /\
    (wFiles (psWorld (m st).2) = wFiles (psWorld st) \/
     (to_upper cmd = #"RETR" /\ exists old new file, wFiles (psWorld st) !! old = Some file /\
        wFiles (psWorld (m st).2) = <[new := file]> (delete old (wFiles (psWorld st)))))) as HC.
  { intros m Hm. destruct (Hm st) as (Hv&Hw&_). split; [done|by left]. }
  destruct (str_eqb_spec (to_upper cmd) #"RETR") as [->|_].
  { destruct (moved_going_on _ (moved_cmdRetr arg) st) as [Hv Hw].
    split; [exact Hv|]. destruct Hw as [Hw|Hw]; [left; exact Hw|right; split; [reflexivity|exact Hw]]. }
  repeat match goal with |- context [(if ?b then _ else _) st] => destruct b end;
    try solve [ apply HC, calm_going_on; first [apply calm_cmdCapa|apply calm_cmdUser|apply calm_cmdStat|apply calm_cmdList
               |apply calm_cmdUidl|apply calm_cmdTop|apply calm_cmdDele|apply calm_cmdRset|apply calm_ok|apply calm_err] ].
  destruct (cmdSTLS_view handshake st) as [Hv Hw]. split; [done|by left].
Qed.

(** ** Logging in *)

(** Between two turns the settings and the files may change. *)
Inductive reach : state -> Prop :=
| reach_new set c w : reach (mkState (newSession set) c set w)
| reach_turn st : reach st -> reach (turn Authenticate handshake md5_hex st).2
| reach_other st set w : reach st -> reach (mkState (psSess st) (psConn st) set w).

(** Logged in means under TLS, with a mailbox. *)
Definition login_ok (s : session) : Prop := psAuthd s = true -> psTls s = true /\ psMbox s <> None.
Definition keeps_login (st st' : state) : Prop := login_ok (psSess st) -> login_ok (psSess st').

#[local] Instance keeps_login_preorder : PreOrder keeps_login.
Proof. split; [by intros st H|intros a b c; unfold keeps_login; auto]. Qed.

Lemma calm_login : subrelation calm keeps_login.
Proof. intros st st' (_&_&Ht&Ha&Hm). unfold keeps_login, login_ok. by rewrite Ht, Ha, Hm. Qed.

Lemma login_disk {A} (m : M A) : keeps keeps_login (on_disk m).
Proof. intros st H. unfold on_disk. by destruct (m (psWorld st)). Qed.
Lemma login_calm {A} (m : PM A) : keeps calm m -> keeps keeps_login m.
Proof. apply keeps_weaken, calm_login. Qed.
Lemma login_set_mbox mb : keeps keeps_login (set_mbox mb).
Proof. intros st H Ha. destruct (H Ha). done. Qed.
Lemma login_send ls : keeps keeps_login (send ls).
Proof. apply login_calm, calm_send. Qed.
Lemma login_ok_reply t : keeps keeps_login (ok t).
Proof. apply login_send. Qed.
Lemma login_err t : keeps keeps_login (err t).
Proof. apply login_send. Qed.
#[local] Hint Resolve login_disk login_set_mbox login_send login_ok_reply login_err : session.

Lemma login_flag_marked l : forall mb n, keeps keeps_login (flag_marked l mb n).
Proof. induction l as [|[k m] l IH]; intros mb n; cbn [flag_marked]; keeps_auto. Qed.
#[local] Hint Resolve login_flag_marked : session.
Lemma login_cmdQuit : keeps keeps_login cmdQuit.
Proof. unfold cmdQuit. keeps_auto. Qed.

Lemma login_cmdRetr arg : keeps keeps_login (cmdRetr arg).
Proof.
  assert (forall n m, keeps keeps_login (mark_seen n m)) as H by (intros; unfold mark_seen; keeps_auto).
  pose proof (fun a => login_calm _ (calm_message a)). unfold cmdRetr, authed, with_message. keeps_auto.
Qed.

Lemma login_cmdPass arg : keeps keeps_login (cmdPass Authenticate arg).
Proof.
  intros st H. unfold cmdPass, mbind, SM_bind, sess. destruct (psTls (psSess st)) eqn:Et; [|by apply login_err].
  cbn [negb]. destruct (psUser (psSess st) =s []); [by apply login_err|].
  unfold on_disk at 1. destruct (Authenticate _ _ (psWorld st)) as [[root|e] w]; cbn [psWorld psSess psConn psSet].
  - unfold on_disk. cbn [psWorld]. destruct (OpenMailbox _ _ w) as [[mb|e] w2]; cbn [psWorld psSess psConn psSet]; [|by apply login_err].
    unfold set_sess. cbn [psSess]. apply login_ok_reply. cbn [psSess]. intros _. done.
  - unfold set_sess. cbn [psSess]. apply login_err. exact H.
Qed.

Lemma login_cmdSTLS : keeps keeps_login (cmdSTLS handshake).
Proof.
  intros st H. destruct st as [s [rd out wr] set w]. unfold cmdSTLS, mbind, SM_bind, settings, sess, err, send, on_conn, write_lines.
  simpl in *. destruct (pTLS set), (psTls s), wr as [[|n]|]; simpl; try done; by destruct (handshake (rdIn rd)).
Qed.

Lemma login_turn : keeps keeps_login (turn Authenticate handshake md5_hex).
Proof.
  assert (forall m, keeps keeps_login m -> keeps keeps_login (going_on m)) as HG by (intros m Hm; unfold going_on; keeps_auto).
  unfold turn. apply keeps_bind; [exact _|apply login_calm, calm_readLine|intros [line|]]; [|keeps_auto].
  destruct (trim_space line =s []); [keeps_auto|]. destruct (cut SP line) as [[cmd arg] f]. unfold dispatch. cbv zeta.
  repeat match goal with |- keeps _ (if ?b then _ else _) => destruct b end;
    try solve [ apply HG, login_calm; first [apply calm_cmdCapa|apply calm_cmdUser|apply calm_cmdStat|apply calm_cmdList
               |apply calm_cmdUidl|apply calm_cmdTop|apply calm_cmdDele|apply calm_cmdRset|apply calm_ok|apply calm_err]
              | apply HG, login_cmdRetr | apply HG, login_cmdPass | apply login_cmdSTLS ].
  apply keeps_bind; [exact _|apply login_cmdQuit|keeps_auto].
Qed.

(** A reachable session is logged in only under TLS and with an open mailbox,
    and on a plaintext channel PASS reaches neither [Authenticate] nor the
    files: nothing but the reply changes. *)
Theorem login_needs_tls st arg :
  reach st ->
  login_ok (psSess st) /\
  (psTls (psSess st) = false ->
   cmdPass Authenticate arg st = err #"[AUTH] STLS required before authentication" st /\
   cmdUser arg st = err #"[AUTH] STLS required before authentication" st).
Proof.
  intros Hr. split.
  - induction Hr as [set c w|st Hr IH|st set w Hr IH]; [done| |done]. by apply login_turn.
  - intros Ht. unfold cmdPass, cmdUser, mbind, SM_bind, sess. by rewrite Ht.
Qed.
End Session.
