(* ===== verification/Pop3Quit.v ===== *)
(** * The end of a POP3 session

    What QUIT removes, on a working file system, and two ways in which it
    removes more than the session asked for. *)

From S2P Require Import Prelude GoStrings GoOS GoNet StateM MaildirFlags Maildir MaildirUID MaildirProps Pop3 Pop3Props.

(** ** Flagging a message *)

(** The message after QUIT has flagged it. *)
Definition flagged (m : Message) : Message :=
  let f := Add (mFlags m) FlagDeleted in
  mkMessage (mUID m) (mSeq m) (FileName (BaseName (mName m)) f) #"cur" f false (mSize m) (mInternal m)
    (mRoot m) (mFolder m).

Lemma flagged_deleted m : deleted (flagged m) = true.
Proof. apply Has_true, elem_of_Add. by left. Qed.

Lemma flagged_base m : msg_base (flagged m) = msg_base m.
Proof. apply BaseName_FileName, BaseName_no_info. Qed.

(** A message of an open mailbox: in its folder, under a plain name, with the
    flags its name says. *)
Record in_folder (root : path) (folder : str) (m : Message) : Prop := {
  if_root : mRoot m = root;
  if_folder : mFolder m = folder;
  if_name : plain (mName m);
  if_flags : wf_flags (mFlags m) }.

Lemma flagged_plain root folder m : in_folder root folder m -> plain (mName (flagged m)).
Proof. intros H. apply FileName_plain; [apply H|]. apply Add_wf; [done|apply H]. Qed.

(** Two plain paths are equal only for messages of the same base name. *)
Lemma Path_base m m' : plain (mName m) -> plain (mName m') -> Path m = Path m' -> msg_base m = msg_base m'.
Proof.
  intros Hp Hp' E. unfold Path in E. rewrite (join_plain _ _ Hp), (join_plain _ _ Hp') in E. apply app_inj_tail in E as [_ E].
  unfold msg_base. by rewrite E.
Qed.

(** Flagging message [i] of a snapshot. *)
Lemma SetFlags_flag mb i m file w :
  wFaults w = [] -> bxMessages mb !! i = Some m -> in_folder (bxRoot mb) (bxFolder mb) m ->
  folderDir (bxRoot mb) (bxFolder mb) ++ [ #"cur"] ∈ wDirs w -> wFiles w !! Path m = Some file ->
  SetFlags mb i (Add (mFlags m) FlagDeleted) w =
    (Ok (set_messages mb (<[i := flagged m]> (bxMessages mb))),
     set_files (<[Path (flagged m) := file]> (delete (Path m) (wFiles w))) w).
Proof.
  intros Hw Hi [Hr Hf Hp Hfl] Hcur Hfile. unfold SetFlags. rewrite Hi. cbv zeta.
  change (mkMessage _ _ (FileName _ _) _ _ _ _ _ _ _) with (flagged m).
  assert (Path m = join_path (join_path (folderDir (bxRoot mb) (bxFolder mb)) (mDir m)) (mName m)) as <-
    by (unfold Path; by rewrite Hr, Hf).
  assert (Path (flagged m) = join_path (join_path (folderDir (bxRoot mb) (bxFolder mb)) #"cur")
            (FileName (BaseName (mName m)) (Add (mFlags m) FlagDeleted))) as E by (unfold Path; simpl; by rewrite Hr, Hf).
  rewrite <- E. case_decide as Heq.
  - unfold mret, M_ret. f_equal. rewrite <- Heq, insert_delete_eq, insert_id by done. by destruct w.
  - erewrite bind_ok; [done|]. apply Rename_ok; [done|done|].
    rewrite E, join_plain by (apply FileName_plain; [done|]; apply Add_wf; done).
    rewrite parent_snoc. by rewrite (join_plain _ _ (proj1 (proj2 plain_subs))).
Qed.

(** ** The flagging loop *)

Definition place (nm : Z * Message) : nat := Z.to_nat (nm.1 - 1).
Definition flag_at (ms : list Message) (nm : Z * Message) : list Message := <[place nm := flagged nm.2]> ms.

(** What the loop needs of the messages still to flag. *)
Record to_flag (l : list (Z * Message)) (mb : Mailbox) (w : world) : Prop := {
  tf_work : wFaults w = [];
  tf_cur : folderDir (bxRoot mb) (bxFolder mb) ++ [ #"cur"] ∈ wDirs w;
  tf_at : Forall (fun nm => bxMessages mb !! place nm = Some nm.2) l;
  tf_in : Forall (fun nm => in_folder (bxRoot mb) (bxFolder mb) nm.2) l;
  tf_file : Forall (fun nm => is_Some (wFiles w !! Path nm.2)) l;
  tf_bases : NoDup (map (fun nm : Z * Message => msg_base nm.2) l);
  tf_places : NoDup (map place l) }.

(** The paths a message has before and after. *)
Definition paths_of (l : list (Z * Message)) : list path := flat_map (fun nm => [Path nm.2; Path (flagged nm.2)]) l.

Lemma paths_of_base l q : q ∈ paths_of l ->
  exists nm, nm ∈ l /\ (q = Path nm.2 \/ q = Path (flagged nm.2)).
Proof.
  intros Hq. apply list_elem_of_In, in_flat_map in Hq as (nm & Hnm & Hq). exists nm.
  split; [by apply list_elem_of_In|]. simpl in Hq. naive_solver.
Qed.

Lemma not_in_paths root folder l m :
  in_folder root folder m -> Forall (fun nm => in_folder root folder nm.2) l ->
  msg_base m ∉ map (fun nm : Z * Message => msg_base nm.2) l ->
  Path m ∉ paths_of l /\ Path (flagged m) ∉ paths_of l.
Proof.
  intros Hm HF Hn. assert (forall m', msg_base m' = msg_base m -> plain (mName m') -> Path m' ∉ paths_of l) as H.
  { intros m' Hb Hp Hin. destruct (paths_of_base _ _ Hin) as (nm & Hnm & Hq).
    rewrite Forall_forall in HF. specialize (HF nm Hnm). apply Hn.
    apply list_elem_of_fmap. exists nm. split; [|done]. rewrite <- Hb.
    destruct Hq as [Hq|Hq]; apply Path_base in Hq; rewrite ?flagged_base in Hq; try done; [apply HF|by eapply flagged_plain]. }
  split; [by apply H; [done|apply Hm]|apply H; [apply flagged_base|by eapply flagged_plain]].
Qed.

Lemma flag_marked_effect l : forall mb n st,
  to_flag l mb (psWorld st) ->
  exists mb' w', flag_marked l mb n st =
      ((mb', n + Z.of_nat (length l)), mkState (psSess st) (psConn st) (psSet st) w') /\
    wFaults w' = [] /\ bxRoot mb' = bxRoot mb /\ bxFolder mb' = bxFolder mb /\
    bxMessages mb' = fold_left flag_at l (bxMessages mb) /\
    (forall q, q ∉ paths_of l -> wFiles w' !! q = wFiles (psWorld st) !! q) /\
    Forall (fun nm => Path nm.2 = Path (flagged nm.2) \/ wFiles w' !! Path nm.2 = None) l.
Proof.
  induction l as [|[k m] l IH]; intros mb n [s c se w] [Hw Hc Ha Hi Hf Hb Hp]; simpl in *.
  { exists mb, w. rewrite Z.add_0_r. by repeat split. }
  apply Forall_cons in Ha as [Ha Ha'], Hi as [Hi Hi'], Hf as [[file Hf] Hf']. simpl in Ha, Hi, Hf.
  apply NoDup_cons in Hb as [Hb Hb'], Hp as [Hp Hp'].
  destruct (not_in_paths _ _ l m Hi Hi' Hb) as [Hn1 Hn2].
  unfold mbind at 1, SM_bind at 1, on_disk. cbn [psWorld].
  change (Z.to_nat (k - 1)) with (place (k, m)). rewrite (SetFlags_flag _ _ _ _ _ Hw Ha Hi Hc Hf). cbn [psSess psConn psSet].
  set (mb1 := set_messages mb (flag_at (bxMessages mb) (k, m))).
  change (set_messages mb (<[place (k, m) := flagged m]> (bxMessages mb))) with mb1.
  set (w1 := set_files (<[Path (flagged m) := file]> (delete (Path m) (wFiles w))) w).
  assert (forall q, q <> Path m -> q <> Path (flagged m) -> wFiles w1 !! q = wFiles w !! q) as Hq1
    by (intros q ? ?; simpl; by rewrite lookup_insert_ne, lookup_delete_ne).
  destruct (IH mb1 (n + 1) (mkState s c se w1)) as (mb2 & w2 & E & Hw2 & Hr2 & Hf2 & Hm2 & Hq2 & Hg2).
  { split; simpl; [done|done| |done| |done|done].
    - rewrite Forall_forall in Ha' |- *. intros nm Hnm. unfold flag_at. rewrite list_lookup_insert_ne; [by apply Ha'|].
      intros Ek. apply Hp. apply list_elem_of_fmap. by exists nm.
    - rewrite Forall_forall in Hf', Hi' |- *. intros nm Hnm. fold w1. change (is_Some (wFiles w1 !! Path nm.2)).
      rewrite Hq1; [by apply Hf'| |]; intros Ep; [apply Hn1|apply Hn2]; rewrite <- Ep;
        apply list_elem_of_In, in_flat_map; exists nm; (split; [by apply list_elem_of_In|by left]). }
  exists mb2, w2. rewrite E. split_and!; try done.
  - do 2 f_equal. lia.
  - intros q Hq. cbn [paths_of flat_map] in Hq. rewrite Hq2 by set_solver. apply Hq1; set_solver.
  - constructor; [|done]. simpl. destruct (decide (Path m = Path (flagged m))) as [|Hne]; [by left|right].
    rewrite Hq2 by done. simpl. by rewrite lookup_insert_ne, lookup_delete_eq by done.
Qed.

(** ** The mailbox after the loop *)

Definition after_flag (d : gset Z) (nm : Z * Message) : Message :=
  if bool_decide (nm.1 ∈ d) then flagged nm.2 else nm.2.

Lemma with_numbers_lookup l i : with_numbers l !! i = (fun m => (Z.of_nat i + 1, m)) <$> l !! i.
Proof. unfold with_numbers. by rewrite list_lookup_imap. Qed.

Lemma elem_of_with_numbers l nm : nm ∈ with_numbers l <-> l !! place nm = Some nm.2 /\ nm.1 = Z.of_nat (place nm) + 1.
Proof.
  unfold place. rewrite list_elem_of_lookup. split.
  - intros [i Hi]. rewrite with_numbers_lookup in Hi. destruct (l !! i) as [m|] eqn:E; [|done].
    injection Hi as <-. simpl. replace (Z.to_nat (Z.of_nat i + 1 - 1)) with i by lia. done.
  - intros [Hl Hn]. exists (Z.to_nat (nm.1 - 1)). rewrite with_numbers_lookup, Hl. simpl. rewrite <- Hn. by destruct nm.
Qed.

Lemma fold_flag_lookup l : forall (ms : list Message) (i : nat),
  Forall (fun nm => is_Some (ms !! place nm)) l -> NoDup (map place l) ->
  fold_left flag_at l ms !! i =
  match List.find (fun nm => Nat.eqb (place nm) i) l with Some nm => Some (flagged nm.2) | None => ms !! i end.
Proof.
  induction l as [|nm l IH]; intros ms i Hs Hn; [done|]. cbn [fold_left List.find].
  apply Forall_cons in Hs as [[m0 Hs] Hs']. apply NoDup_cons in Hn as [Hn Hn'].
  unfold flag_at at 2. rewrite IH; [|eapply Forall_impl; [exact Hs'|]; intros x Hx;
    destruct (decide (place nm = place x)) as [->|]; [rewrite list_lookup_insert_eq by (eapply lookup_lt_is_Some; exact Hx); by eexists|by rewrite list_lookup_insert_ne]|done].
  destruct (Nat.eqb_spec (place nm) i) as [<-|Hne].
  - destruct (List.find _ l) as [x|] eqn:Ef.
    + apply find_some in Ef as [Hx Hp]. apply Nat.eqb_eq in Hp. exfalso. apply Hn.
      apply list_elem_of_fmap. exists x. split; [by rewrite Hp|by apply list_elem_of_In].
    + rewrite list_lookup_insert_eq; [done|]. by eapply lookup_lt_Some.
  - destruct (List.find _ l); [done|]. by rewrite list_lookup_insert_ne.
Qed.

Lemma with_numbers_places l : NoDup (map place (with_numbers l)).
Proof.
  assert (map place (with_numbers l) = seq 0 (length l)) as ->; [|apply NoDup_seq].
  apply list_eq. intros i. change (map place) with (fmap (M := list) place).
  rewrite list_lookup_fmap, with_numbers_lookup. destruct (l !! i) as [m|] eqn:E; simpl.
  - rewrite lookup_seq_lt by (by eapply lookup_lt_Some). unfold place. simpl. f_equal. lia.
  - symmetry. apply lookup_seq_ge. by apply lookup_ge_None.
Qed.

Lemma NoDup_map_filter {A B} (f : A -> B) (p : A -> bool) l : NoDup (map f l) -> NoDup (map f (List.filter p l)).
Proof.
  induction l as [|x l IH]; [done|]. cbn [map List.filter]. intros [Hx Hn]%NoDup_cons.
  destruct (p x); [|by apply IH]. cbn [map]. apply NoDup_cons. split; [|by apply IH].
  intros Hin. apply Hx. apply list_elem_of_fmap in Hin as (y & -> & Hy). apply list_elem_of_fmap.
  exists y. split; [done|]. apply list_elem_of_In, filter_In in Hy as [Hy _]. by apply list_elem_of_In.
Qed.

Definition marks (d : gset Z) (l : list Message) : list (Z * Message) :=
  List.filter (fun nm : Z * Message => bool_decide (nm.1 ∈ d)) (with_numbers l).

Lemma elem_of_marks d l nm : nm ∈ marks d l <-> nm.1 ∈ d /\ nm ∈ with_numbers l.
Proof.
  unfold marks. rewrite list_elem_of_In, filter_In, <- list_elem_of_In, bool_decide_eq_true. tauto.
Qed.

Lemma after_loop d l :
  fold_left flag_at (marks d l) l = map (after_flag d) (with_numbers l).
Proof.
  apply list_eq. intros i. rewrite fold_flag_lookup; cycle 1.
  { apply Forall_forall. intros nm [_ Hnm]%elem_of_marks. apply elem_of_with_numbers in Hnm as [-> _]. by eexists. }
  { apply NoDup_map_filter, with_numbers_places. }
  change (map (after_flag d)) with (fmap (M := list) (after_flag d)).
  rewrite list_lookup_fmap, with_numbers_lookup. destruct (List.find _ (marks d l)) as [nm|] eqn:Ef.
  - apply find_some in Ef as [Hnm Hp]. apply Nat.eqb_eq in Hp as <-.
    apply list_elem_of_In, elem_of_marks in Hnm as [Hd Hnm]. apply elem_of_with_numbers in Hnm as [-> Hn].
    simpl. unfold after_flag. rewrite <- Hn. simpl. by rewrite bool_decide_eq_true_2.
  - destruct (l !! i) as [m|] eqn:E; [|done]. simpl. unfold after_flag. simpl.
    case_bool_decide as Hd; [|done]. exfalso.
    pose proof (find_none _ _ Ef (Z.of_nat i + 1, m)) as H. unfold place in H. simpl in H.
    replace (Z.to_nat (Z.of_nat i + 1 - 1)) with i in H by lia. rewrite Nat.eqb_refl in H.
    apply diff_true_false, H. apply list_elem_of_In, elem_of_marks. split; [done|].
    apply list_elem_of_lookup. exists i. by rewrite with_numbers_lookup, E.
Qed.

(** ** QUIT *)

(** The messages that survive: neither marked in the session nor flagged
    deleted when the mailbox was opened. *)
Definition survives (d : gset Z) (nm : Z * Message) : bool := bool_decide (nm.1 ∉ d) && negb (deleted nm.2).

Lemma after_flag_deleted d nm : deleted (after_flag d nm) = negb (survives d nm).
Proof.
  unfold after_flag, survives. case_bool_decide as H.
  - rewrite flagged_deleted, bool_decide_eq_false_2 by tauto. done.
  - rewrite bool_decide_eq_true_2 by done. simpl. by rewrite negb_involutive.
Qed.

Lemma renumber_key l : map key (renumber l) = map key l.
Proof.
  unfold renumber. apply list_eq. intros i. change (map key) with (fmap (M := list) key).
  rewrite !list_lookup_fmap, list_lookup_imap. by destruct (l !! i).
Qed.

Lemma survivors_view d l :
  map key (List.filter (fun m => negb (deleted m)) (map (after_flag d) l)) =
  map (fun nm : Z * Message => key nm.2) (List.filter (survives d) l).
Proof.
  induction l as [|nm l IH]; [done|]. cbn [map List.filter]. rewrite after_flag_deleted, negb_involutive.
  destruct (survives d nm) eqn:Es; [|done]. cbn [map]. rewrite IH. f_equal.
  unfold after_flag. apply andb_true_iff in Es as [Es%bool_decide_eq_true _]. by rewrite bool_decide_eq_false_2.
Qed.

Lemma expunged_nil_view l :
  expunged l = [] -> map key l = map key (List.filter (fun m => negb (deleted m)) l).
Proof.
  intros H. apply (f_equal length) in H. unfold expunged in H.
  rewrite length_sort_slice, length_map in H. apply nil_length_inv in H.
  induction l as [|m l IH]; [done|]. cbn [List.filter] in *. destruct (deleted m); [done|]. cbn [map negb].
  by rewrite <- IH.
Qed.

(** The open mailbox of the session is the folder on disk. *)
Record opened (mb : Mailbox) (w : world) : Prop := {
  op_work : wFaults w = [];
  op_cur : folderDir (bxRoot mb) (bxFolder mb) ++ [ #"cur"] ∈ wDirs w;
  op_in : Forall (in_folder (bxRoot mb) (bxFolder mb)) (bxMessages mb);
  op_file : Forall (fun m => is_Some (wFiles w !! Path m)) (bxMessages mb);
  op_bases : NoDup (map msg_base (bxMessages mb)) }.

Lemma with_numbers_snd l : map snd (with_numbers l) = l.
Proof.
  apply list_eq. intros i. change (map (snd (B := Message))) with (fmap (M := list) (snd (A := Z) (B := Message))).
  rewrite list_lookup_fmap, with_numbers_lookup. by destruct (l !! i).
Qed.

Lemma opened_to_flag mb d w : opened mb w -> to_flag (marks d (bxMessages mb)) mb w.
Proof.
  intros [Hw Hc Hi Hf Hb].
  assert (forall P : Message -> Prop, Forall P (bxMessages mb) -> Forall (fun nm => P nm.2) (marks d (bxMessages mb))) as HP.
  { intros Q HQ. apply Forall_forall. intros nm [_ Hnm]%elem_of_marks. apply elem_of_with_numbers in Hnm as [Hl _].
    rewrite Forall_forall in HQ. apply HQ. by eapply list_elem_of_lookup_2. }
  split; [done|done| |by apply (HP (in_folder _ _))|by apply (HP (fun m => is_Some (wFiles w !! Path m)))| |].
  - apply Forall_forall. intros nm [_ Hnm]%elem_of_marks. by apply elem_of_with_numbers in Hnm as [Hl _].
  - apply NoDup_map_filter. rewrite <- (map_map snd msg_base), with_numbers_snd. done.
  - apply NoDup_map_filter, with_numbers_places.
Qed.

(** Messages with the same path are the same message. *)
Lemma opened_apart mb w nm nm' x :
  opened mb w -> nm ∈ with_numbers (bxMessages mb) -> nm' ∈ with_numbers (bxMessages mb) ->
  msg_base x = msg_base nm'.2 -> plain (mName x) -> Path nm.2 = Path x -> nm = nm'.
Proof.
  intros [_ _ Hi _ Hb] H1 H2 Hx Hp E. apply elem_of_with_numbers in H1 as [H1 N1], H2 as [H2 N2].
  rewrite Forall_forall in Hi. apply Path_base in E; [|apply (if_name _ _ _ (Hi _ (list_elem_of_lookup_2 _ _ _ H1)))|done].
  assert (place nm = place nm') as Ep.
  { apply (NoDup_lookup _ _ _ (msg_base nm.2) Hb); change (map msg_base) with (fmap (M := list) msg_base);
      rewrite list_lookup_fmap; [by rewrite H1|rewrite H2; simpl; by rewrite <- Hx, <- E]. }
  rewrite Ep in H1, N1. rewrite H1 in H2. injection H2 as H2. rewrite (surjective_pairing nm), (surjective_pairing nm'). congruence.
Qed.

Lemma opened_in mb w nm : opened mb w -> nm ∈ with_numbers (bxMessages mb) -> in_folder (bxRoot mb) (bxFolder mb) nm.2.
Proof.
  intros Ho [Hl _]%elem_of_with_numbers. pose proof (op_in _ _ Ho) as Hi. rewrite Forall_forall in Hi.
  apply Hi. by eapply list_elem_of_lookup_2.
Qed.

(** The files after the loop and the expunge. *)
Lemma quit_files mb w w1 w2 d :
  opened mb w ->
  (forall q, q ∉ paths_of (marks d (bxMessages mb)) -> wFiles w1 !! q = wFiles w !! q) ->
  Forall (fun nm => Path nm.2 = Path (flagged nm.2) \/ wFiles w1 !! Path nm.2 = None) (marks d (bxMessages mb)) ->
  (forall q, wFiles w2 !! q =
     if decide (q ∈ Path <$> List.filter deleted (map (after_flag d) (with_numbers (bxMessages mb)))) then None else wFiles w1 !! q) ->
  forall nm, nm ∈ with_numbers (bxMessages mb) ->
    wFiles w2 !! Path nm.2 = if survives d nm then wFiles w !! Path nm.2 else None.
Proof.
  intros Ho Hq1 Hg1 Hq2 nm Hnm. rewrite Hq2. destruct (survives d nm) eqn:Es.
  - rewrite decide_False; cycle 1.
    { intros (x & Ex & Hx)%list_elem_of_fmap. apply list_elem_of_In, filter_In in Hx as [Hx Hdx].
      apply in_map_iff in Hx as (nm' & <- & Hnm'%list_elem_of_In). rewrite after_flag_deleted in Hdx.
      pose proof (opened_in _ _ _ Ho Hnm') as Hin'.
      assert (nm = nm') as <-; [|by rewrite Es in Hdx]. unfold after_flag in Ex.
      case_bool_decide; eapply (opened_apart _ _ nm nm' _ Ho Hnm Hnm'); try exact Ex;
        [apply flagged_base|exact (flagged_plain _ _ _ Hin')|done|apply Hin']. }
    apply Hq1. intros (nm' & Hnm' & Hq)%paths_of_base. apply elem_of_marks in Hnm' as [Hd Hnm'].
    pose proof (opened_in _ _ _ Ho Hnm') as Hin'.
    assert (nm = nm') as <-; [|unfold survives in Es; by rewrite bool_decide_eq_false_2 in Es by tauto].
    destruct Hq as [Hq|Hq]; eapply (opened_apart _ _ nm nm' _ Ho Hnm Hnm'); try exact Hq;
      [done|apply Hin'|apply flagged_base|exact (flagged_plain _ _ _ Hin')].
  - case_decide as Hdec; [done|].
    assert (forall x, after_flag d nm = x -> Path x <> Path nm.2) as Hne.
    { intros x <- E. apply Hdec. rewrite <- E. apply list_elem_of_fmap. exists (after_flag d nm). split; [done|].
      apply list_elem_of_In, filter_In. split; [by apply in_map, list_elem_of_In|]. by rewrite after_flag_deleted, Es. }
    destruct (decide (nm.1 ∈ d)) as [Hd|Hd].
    + rewrite Forall_forall in Hg1. destruct (Hg1 nm) as [E|]; [by apply elem_of_marks| |done].
      exfalso. apply (Hne (flagged nm.2)); [|done]. unfold after_flag. by rewrite bool_decide_eq_true_2.
    + exfalso. apply (Hne nm.2); [|done]. unfold after_flag. by rewrite bool_decide_eq_false_2.
Qed.

(** The paths a message that is removed had, and would have had left: the
    marked ones get the flag, and a name that shows it, first. *)
Definition removed_path (mb : Mailbox) (d : gset Z) (q : path) : Prop :=
  exists nm, nm ∈ with_numbers (bxMessages mb) /\ survives d nm = false /\
    (q = Path nm.2 \/ (nm.1 ∈ d /\ q = Path (flagged nm.2))).

Lemma marked_gone d nm : nm.1 ∈ d -> survives d nm = false.
Proof. intros H. unfold survives. by rewrite bool_decide_eq_false_2 by tauto. Qed.

(** No other file changes. *)
Lemma quit_disk mb w w1 w2 d :
  opened mb w ->
  (forall q, q ∉ paths_of (marks d (bxMessages mb)) -> wFiles w1 !! q = wFiles w !! q) ->
  Forall (fun nm => Path nm.2 = Path (flagged nm.2) \/ wFiles w1 !! Path nm.2 = None) (marks d (bxMessages mb)) ->
  (forall q, wFiles w2 !! q =
     if decide (q ∈ Path <$> List.filter deleted (map (after_flag d) (with_numbers (bxMessages mb)))) then None else wFiles w1 !! q) ->
  (forall q, removed_path mb d q -> wFiles w2 !! q = None) /\
  (forall q, ~ removed_path mb d q -> wFiles w2 !! q = wFiles w !! q).
Proof.
  intros Ho Hq1 Hg1 Hq2. split; intros q Hq.
  - destruct Hq as (nm & Hnm & Hs & [->|[Hd ->]]).
    + by rewrite (quit_files mb w w1 w2 d Ho Hq1 Hg1 Hq2 nm Hnm), Hs.
    + rewrite Hq2, decide_True; [done|]. apply list_elem_of_fmap. exists (after_flag d nm).
      split; [unfold after_flag; by rewrite bool_decide_eq_true_2|].
      apply list_elem_of_In, filter_In. split; [by apply in_map, list_elem_of_In|]. by rewrite after_flag_deleted, Hs.
  - rewrite Hq2, decide_False.
    + apply Hq1. intros (nm & Hnm & Eq)%paths_of_base. apply elem_of_marks in Hnm as [Hd Hnm]. apply Hq.
      exists nm. split; [done|]. split; [by apply marked_gone|]. destruct Eq as [->| ->]; [by left|by right].
    + intros (x & -> & Hx)%list_elem_of_fmap. apply list_elem_of_In, filter_In in Hx as [Hx Hdx].
      apply in_map_iff in Hx as (nm & <- & Hnm%list_elem_of_In). apply Hq. exists nm.
      rewrite after_flag_deleted in Hdx. apply negb_true_iff in Hdx. split; [done|]. split; [done|].
      unfold after_flag. case_bool_decide; [by right|by left].
Qed.

(** QUIT as a sequence: flag the marked messages, expunge, say so. *)
Lemma cmdQuit_steps st mb mb1 n w1 mb2 seqs w2 :
  psAuthd (psSess st) = true -> psMbox (psSess st) = Some mb -> psDel (psSess st) <> ∅ ->
  flag_marked (marks (psDel (psSess st)) (bxMessages mb)) mb 0 st = ((mb1, n), mkState (psSess st) (psConn st) (psSet st) w1) ->
  Expunge mb1 w1 = (Ok (seqs, mb2), w2) ->
  exists t s, cmdQuit st = ok t (mkState s (psConn st) (psSet st) w2) /\ psMbox s = Some mb2.
Proof.
  intros Ha Hm Hd E E2. unfold cmdQuit, mbind at 1 2, SM_bind at 1 2, sess, settings.
  rewrite Hm, Ha, bool_decide_eq_false_2 by done. cbn [negb orb].
  assert (marked (psSess st) = marks (psDel (psSess st)) (bxMessages mb)) as -> by (unfold marked, msgs; by rewrite Hm).
  unfold mbind at 1, SM_bind at 1. rewrite E.
  unfold mbind, SM_bind, set_mbox, set_sess, on_disk. cbn [psWorld psSess psConn psSet]. rewrite E2.
  eexists _, _. split; [reflexivity|]. done.
Qed.

(** C32. On a working file system QUIT, when the session has marked something,
    removes the messages that it marked and those already flagged deleted, and
    no others: the mailbox keeps the entries of the rest, their files are
    still there, a removed message has no file left, under the name it had or
    the one that the flag gave it, and no other file of the disk has
    changed. *)
Theorem quit_removes st mb :
  psAuthd (psSess st) = true -> psMbox (psSess st) = Some mb -> psDel (psSess st) <> ∅ ->
  opened mb (psWorld st) ->
  let st' := (cmdQuit st).2 in
  let d := psDel (psSess st) in
  view st' = map (fun nm : Z * Message => key nm.2) (List.filter (survives d) (with_numbers (bxMessages mb))) /\
  (forall nm, nm ∈ with_numbers (bxMessages mb) -> survives d nm = true ->
     wFiles (psWorld st') !! Path nm.2 = wFiles (psWorld st) !! Path nm.2) /\
  (forall q, removed_path mb d q -> wFiles (psWorld st') !! q = None) /\
  (forall q, ~ removed_path mb d q -> wFiles (psWorld st') !! q = wFiles (psWorld st) !! q).
Proof.
  intros Ha Hm Hd Ho. cbv zeta. set (d := psDel (psSess st)).
  destruct (flag_marked_effect (marks d (bxMessages mb)) mb 0 st (opened_to_flag mb d _ Ho)) as
    (mb1 & w1 & E & Hw1 & Hr1 & Hf1 & Hm1 & Hq1 & Hg1).
  rewrite after_loop in Hm1. destruct (Expunge_removes mb1 w1 Hw1) as (w2 & E2 & Hq2). rewrite Hm1 in Hq2.
  set (mb2 := match expunged (bxMessages mb1) with [] => mb1 | _ => _ end) in E2.
  destruct (cmdQuit_steps st mb mb1 _ w1 mb2 _ w2 Ha Hm Hd E E2) as (t & s & -> & Hs).
  destruct (calm_ok t (mkState s (psConn st) (psSet st) w2)) as (HK1 & HK2 & _). rewrite HK1, HK2. split; [|split].
  - unfold view, msgs. cbn [psSess]. rewrite Hs, <- survivors_view, <- Hm1.
    unfold mb2. destruct (expunged (bxMessages mb1)) eqn:Ee; [by apply expunged_nil_view|apply renumber_key].
  - intros nm Hnm Hsv. cbn [psWorld]. by rewrite (quit_files mb (psWorld st) w1 w2 d Ho Hq1 Hg1 Hq2 nm Hnm), Hsv.
  - by apply (quit_disk mb (psWorld st) w1 w2).
Qed.

(** ** Two accounts on a small disk *)

Definition alice : Message := mkMessage 1 1 #"1.a" #"new" [] true 2 0 [ #"alice"] Inbox.
(** Flagged deleted by another client, not by this session. *)
Definition old_a : Message := mkMessage 2 2 #"2.a:2,T" #"cur" #"T" false 2 0 [ #"alice"] Inbox.
Definition keep_a : Message := mkMessage 3 3 #"3.a" #"new" [] true 2 0 [ #"alice"] Inbox.
Definition alice_box : Mailbox := mkMailbox [ #"alice"] Inbox [alice; old_a; keep_a] 1 4.

Definition pop_world : world :=
  mkWorld (list_to_map [ ([ #"alice"; #"new"; #"1.a"], mkFile #"A1" 5);
                         ([ #"alice"; #"cur"; #"2.a:2,T"], mkFile #"A2" 6);
                         ([ #"alice"; #"new"; #"3.a"], mkFile #"A3" 7);
                         ([ #"bob"; #"new"; #"1.b"], mkFile #"B1" 5)])
    (list_to_set [ [ #"alice"]; [ #"alice"; #"cur"]; [ #"alice"; #"new"]; [ #"bob"]; [ #"bob"; #"cur"]; [ #"bob"; #"new"] ])
    [] 0 [] [] 0 7 #"mx".

Definition pop_set : Settings := mkSettings #"pop.b.c" true true.
(** Logged in as alice, with message 1 marked. *)
Definition logged_in (d : gset Z) (ls : list str) : state :=
  mkState (mkSession true #"alice" (Some alice_box) d true)
    (mkConn (mkReader [] (map (fun l => l ++ CRLF) ls)) [] None) pop_set pop_world.

Definition pop_auth (u p : str) : M str :=
  if p =s #"pw" then mret (#"/" ++ u) else throw (ErrText #"no").
Definition no_tls (raw : list str) : option (list str) := None.

Lemma alice_opened : opened alice_box pop_world.
Proof.
  split.
  - reflexivity.
  - apply (bool_decide_unpack _). vm_compute. exact I.
  - assert (forall s : str, forallb (fun c => negb (Ascii.eqb c "/")) s = true -> (2 < length s)%nat -> plain s) as HP.
    { intros s H Hl. rewrite <- (app_nil_r s). apply plain_app; [|set_solver|by rewrite app_nil_r].
      rewrite forallb_forall in H. intros Hin. apply list_elem_of_In in Hin. by specialize (H _ Hin). }
    assert (wf_flags [] /\ wf_flags #"T") as [H0 HT] by (split; split; repeat constructor).
    repeat constructor; try (apply HP; [reflexivity|simpl; lia]); done.
  - repeat constructor; eexists; vm_compute; reflexivity.
  - apply (bool_decide_unpack _). vm_compute. exact I.
Qed.

Lemma quit_removes_witness :
  let st' := (cmdQuit (logged_in {[1]} [])).2 in
  view st' = [ (#"3.a", 3, 2)] /\ wFiles (psWorld st') !! Path alice = None /\
  Path (flagged alice) = [ #"alice"; #"cur"; #"1.a:2,T"] /\ wFiles (psWorld st') !! Path (flagged alice) = None /\
  wFiles (psWorld st') !! Path keep_a = Some (mkFile #"A3" 7).
Proof.
  destruct (quit_removes (logged_in {[1]} []) alice_box) as (H1 & H2 & H3 & _).
  - reflexivity.
  - reflexivity.
  - intros E. by apply (non_empty_singleton_L 1 (C := gset Z)).
  - exact alice_opened.
  - assert ((1, alice) ∈ with_numbers (bxMessages alice_box)) as Ha by (apply list_elem_of_In; left; reflexivity).
    assert (survives {[1]} (1, alice) = false) as Hs by (vm_compute; reflexivity).
    split; [rewrite H1; vm_compute; reflexivity|].
    split; [apply (H3 (Path alice)); exists (1, alice); split; [exact Ha|]; split; [exact Hs|by left]|].
    split; [vm_compute; reflexivity|].
    split; [apply (H3 (Path (flagged alice))); exists (1, alice); split; [exact Ha|]; split; [exact Hs|right];
              split; [apply (bool_decide_unpack _); vm_compute; exact I|reflexivity]|].
    etransitivity; [apply (H2 (3, keep_a)); [apply list_elem_of_In; right; right; left; reflexivity|]|];
      vm_compute; reflexivity.
Defined.

Lemma until_quit_nothing_removed_witness :
  let st' := (dispatch pop_auth no_tls (fun _ => []) #"retr" #"3" (logged_in ∅ [])).2 in
  view st' = view (logged_in ∅ []) /\
  (wFiles (psWorld st') = wFiles pop_world \/
   (#"RETR" = #"RETR" /\ exists old new file, wFiles pop_world !! old = Some file /\
      wFiles (psWorld st') = <[new := file]> (delete old (wFiles pop_world)))).
Proof.
  apply (until_quit_nothing_removed pop_auth no_tls (fun _ => []) #"retr" #"3" (logged_in ∅ [])); vm_compute; discriminate.
Defined.

Lemma login_needs_tls_witness :
  login_ok (newSession (mkSettings #"pop.b.c" true false)) /\
  cmdPass pop_auth #"pw" (mkState (newSession (mkSettings #"pop.b.c" true false)) (mkConn (mkReader [] []) [] None)
    (mkSettings #"pop.b.c" true false) pop_world) =
  err #"[AUTH] STLS required before authentication"
    (mkState (newSession (mkSettings #"pop.b.c" true false)) (mkConn (mkReader [] []) [] None)
       (mkSettings #"pop.b.c" true false) pop_world).
Proof.
  destruct (login_needs_tls pop_auth no_tls (fun _ => []) (mkState (newSession (mkSettings #"pop.b.c" true false))
    (mkConn (mkReader [] []) [] None) (mkSettings #"pop.b.c" true false) pop_world) #"pw") as [H1 H2].
  - apply reach_new.
  - split; [exact H1|]. apply H2. reflexivity.
Defined.

(** A session that only marks message 1 also removes message 2, which another
    client had flagged deleted without expunging it. *)
Example quit_removes_foreign_deleted :
  let st := run_loop pop_auth no_tls (fun _ => []) 3 (logged_in ∅ [ #"DELE 1"; #"QUIT"]) in
  wFiles pop_world !! Path old_a = Some (mkFile #"A2" 6) /\
  wFiles (psWorld st.2) !! Path old_a = None /\
  List.last (cnOut (psConn st.2)) [] = #"+OK pop.b.c closing connection, 1 messages deleted".
Proof. split_and!; vm_compute; reflexivity. Qed.

(** Deletion marks outlive a second login: bob's first message is removed
    because alice's first message was marked. *)
Example pass_keeps_deletions :
  let st := run_loop pop_auth no_tls (fun _ => []) 5 (logged_in ∅ [ #"DELE 1"; #"USER bob"; #"PASS pw"; #"QUIT"]) in
  wFiles pop_world !! [ #"bob"; #"new"; #"1.b"] = Some (mkFile #"B1" 5) /\
  wFiles (psWorld st.2) !! [ #"bob"; #"new"; #"1.b"] = None /\
  wFiles (psWorld st.2) !! Path alice = Some (mkFile #"A1" 5).
Proof. split_and!; vm_compute; reflexivity. Qed.
