(* ===== verification/GoTime.v ===== *)
(** * Dates: the parts of [time] in use

    Instants are nanoseconds since the epoch.  A date in a zone is formatted
    and parsed with the two layouts of the IMAP server.  The zone of the
    server gives the offset of each instant in seconds east of UTC. *)

From S2P Require Import Prelude GoStrings.

(** ** The calendar *)

Definition is_leap (y : Z) : bool :=
  (y mod 4 =? 0) && (negb (y mod 100 =? 0) || (y mod 400 =? 0)).
Definition month_lengths (leap : bool) : list Z :=
  [31; if leap then 29 else 28; 31; 30; 31; 30; 31; 31; 30; 31; 30; 31].
Definition sum (l : list Z) : Z := foldr Z.add 0 l.

Definition daysPerYear : Z := 365.
Definition daysPer4Years : Z := 365 * 4 + 1.
Definition daysPer100Years : Z := 365 * 100 + 24.
Definition daysPer400Years : Z := 365 * 400 + 97.
(** Days from 1 January of year 1 to the epoch. *)
Definition epochDays : Z := 719162.

Record civil := mkCivil { cYear : Z; cMonth : Z; cDay : Z }.

(** The month that holds a day of the year, and the day in it, from 0. *)
Fixpoint month_search (m : Z) (lens : list Z) (yday : Z) : Z * Z :=
  match lens with
  | [] => (m, yday)
  | n :: r => if yday <? n then (m, yday) else month_search (m + 1) r (yday - n)
  end.

(** The date of a day counted from the epoch: the cycles of 400, 100, 4 and 1
    years are cut off one after the other, where the last cycle of each kind
    has one more day. *)
Definition civil_of_days (days : Z) : civil :=
  let d := days + epochDays in
  let n400 := d / daysPer400Years in
  let d := d - daysPer400Years * n400 in
  let n100 := Z.min 3 (d / daysPer100Years) in
  let d := d - daysPer100Years * n100 in
  let n4 := d / daysPer4Years in
  let d := d - daysPer4Years * n4 in
  let n1 := Z.min 3 (d / daysPerYear) in
  let d := d - daysPerYear * n1 in
  let y := 400 * n400 + 100 * n100 + 4 * n4 + n1 + 1 in
  let '(m, dd) := month_search 1 (month_lengths (is_leap y)) d in
  mkCivil y m (dd + 1).

Definition days_of_civil (c : civil) : Z :=
  let y := cYear c - 1 in
  365 * y + y / 4 - y / 100 + y / 400
  + sum (take (Z.to_nat (cMonth c - 1)) (month_lengths (is_leap (cYear c))))
  + (cDay c - 1) - epochDays.

Definition days_in (y m : Z) : Z := nth (Z.to_nat (m - 1)) (month_lengths (is_leap y)) 0.

Definition civil_ok (c : civil) : Prop :=
  1 <= cMonth c <= 12 /\ 1 <= cDay c <= days_in (cYear c) (cMonth c).

Definition second : Z := 10 ^ 9.
Definition day_seconds : Z := 86400.

(** [t.Date()] in the zone of [offset]. *)
Definition date_of (offset t : Z) : civil := civil_of_days ((t / second + offset) / day_seconds).

(** ** Formatting and parsing *)

Definition month_names : list str :=
  [ #"Jan"; #"Feb"; #"Mar"; #"Apr"; #"May"; #"Jun"; #"Jul"; #"Aug"; #"Sep"; #"Oct"; #"Nov"; #"Dec"].

(** [appendInt] of a non-negative number. *)
Definition pad (w : nat) (z : Z) : str := let s := dec z in replicate (w - length s) "0"%char ++ s.

Definition format_zone (offset : Z) : str :=
  let z := Z.quot offset 60 in
  (if z <? 0 then #"-" else #"+") ++ pad 2 (Z.abs z / 60) ++ pad 2 (Z.abs z mod 60).

(** [t.Format("02-Jan-2006 15:04:05 -0700")] in the zone of [offset]. *)
Definition format_internal (offset t : Z) : str :=
  let c := date_of offset t in
  let k := (t / second + offset) mod day_seconds in
  pad 2 (cDay c) ++ #"-" ++ nth (Z.to_nat (cMonth c - 1)) month_names [] ++ #"-" ++ pad 4 (cYear c)
  ++ #" " ++ pad 2 (k / 3600) ++ #":" ++ pad 2 (k mod 3600 / 60) ++ #":" ++ pad 2 (k mod 60)
  ++ #" " ++ format_zone offset.

(** [getnum]: two digits; a single one too unless [fixed]. *)
Definition getnum (fixed : bool) (s : str) : option (Z * str) :=
  match s with
  | a :: r =>
      if negb (is_digit a) then None
      else match r with
           | b :: r' =>
               if is_digit b then Some (Z.of_N (digit_value a * 10 + digit_value b), r')
               else if fixed then None else Some (Z.of_N (digit_value a), r)
           | [] => if fixed then None else Some (Z.of_N (digit_value a), r)
           end
  | [] => None
  end.

(** [skip] of a one-byte prefix; a blank stands for any number of them. *)
Definition skip (c : ascii) (s : str) : option str :=
  if Ascii.eqb c SP then
    match s with
    | x :: _ => if Ascii.eqb x SP then Some (drop_while (fun c => Ascii.eqb c SP) s) else None
    | [] => Some []
    end
  else match s with
       | x :: r => if Ascii.eqb x c then Some r else None
       | [] => None
       end.

(** The month whose name starts the text, from 1. *)
Fixpoint lookup_month (m : Z) (names : list str) (s : str) : option Z :=
  match names with
  | [] => None
  | n :: r => if equal_fold n (take 3 s) then Some m else lookup_month (m + 1) r s
  end.

Definition get_year (s : str) : option (Z * str) :=
  match digits_value 0 (take 4 s) with
  | Some n => if Nat.ltb (length s) 4 then None else Some (Z.of_N n, drop 4 s)
  | None => None
  end.

(** The common start of both layouts. *)
Definition parse_day (s : str) : option (civil * str) :=
  '(d, s) ← getnum true s;
  s ← skip "-" s;
  m ← lookup_month 1 month_names s;
  s ← skip "-" (drop 3 s);
  '(y, s) ← get_year s;
  if (d <? 1) || (days_in y m <? d) then None else Some (mkCivil y m d, s).

(** [time.Parse("02-Jan-2006", s)]. *)
Definition parse_date (s : str) : option Z :=
  '(c, s) ← parse_day s;
  match s with [] => Some (days_of_civil c * day_seconds * second) | _ => None end.

(** A fraction is accepted after the seconds though the layout has none. *)
Fixpoint digit_span (s : str) : str * str :=
  match s with
  | c :: r => if is_digit c then let '(a, b) := digit_span r in (c :: a, b) else ([], s)
  | [] => ([], [])
  end.
Definition get_fraction (s : str) : Z * str :=
  match s with
  | c :: r =>
      if Ascii.eqb c "." || Ascii.eqb c "," then
        match digit_span r with
        | ([], _) => (0, s)
        | (ds, rest) =>
            let ds := take 9 ds in
            (Z.of_N (default 0%N (digits_value 0 ds)) * 10 ^ (9 - Z.of_nat (length ds)), rest)
        end
      else (0, s)
  | [] => (0, s)
  end.

Definition get_zone (s : str) : option (Z * str) :=
  match s with
  | sign :: s' =>
      if Nat.ltb (length s) 5 then None
      else
        '(hr, _) ← getnum true (take 2 s');
        '(mm, _) ← getnum true (take 2 (drop 2 s'));
        if (24 <? hr) || (60 <? mm) then None
        else
          let off := (hr * 60 + mm) * 60 in
          if Ascii.eqb sign "+" then Some (off, drop 4 s')
          else if Ascii.eqb sign "-" then Some (- off, drop 4 s')
          else None
  | [] => None
  end.

(** [time.Parse("02-Jan-2006 15:04:05 -0700", s)]. *)
Definition parse_internal (s : str) : option Z :=
  '(c, s) ← parse_day s;
  s ← skip SP s;
  '(hh, s) ← getnum false s;
  s ← skip ":" s;
  '(mi, s) ← getnum true s;
  s ← skip ":" s;
  '(ss, s) ← getnum true s;
  let '(ns, s) := get_fraction s in
  s ← skip SP s;
  '(off, s) ← get_zone s;
  if (23 <? hh) || (59 <? mi) || (59 <? ss) then None
  else match s with
       | [] => Some ((days_of_civil c * day_seconds + hh * 3600 + mi * 60 + ss - off) * second + ns)
       | _ => None
       end.

(** [Truncate(24 * time.Hour)]. *)
Definition truncate_day (t : Z) : Z := t / (day_seconds * second) * (day_seconds * second).

(** ** The calendar is consistent *)

Lemma month_search_spec lens : forall m d, Forall (fun n => 0 < n) lens -> 0 <= d < sum lens ->
  let '(m', dd) := month_search m lens d in
  m <= m' < m + Z.of_nat (length lens) /\ 0 <= dd < nth (Z.to_nat (m' - m)) lens 0 /\
  sum (take (Z.to_nat (m' - m)) lens) + dd = d.
Proof.
  induction lens as [|n r IH]; intros m d HF Hd; cbn [month_search sum foldr length] in *; [lia|].
  inversion_clear HF as [|? ? Hn HF']. fold (sum r) in Hd.
  destruct (Z.ltb_spec d n) as [Hlt|Hge].
  - rewrite Z.sub_diag. change (Z.to_nat 0) with 0%nat. unfold sum. cbn [nth take foldr]. split_and!; lia.
  - specialize (IH (m + 1) (d - n) HF' ltac:(lia)).
    destruct (month_search (m + 1) r (d - n)) as [m' dd]. destruct IH as (H1 & H2 & H3).
    assert (Z.to_nat (m' - m) = S (Z.to_nat (m' - (m + 1)))) as -> by lia.
    cbn [nth take sum foldr]. unfold sum in *. lia.
Qed.

Lemma month_lengths_sum leap : sum (month_lengths leap) = 365 + (if leap then 1 else 0).
Proof. by destruct leap. Qed.
Lemma month_lengths_pos leap : Forall (fun n => 0 < n) (month_lengths leap).
Proof. destruct leap; repeat constructor. Qed.

(** Each year's first day is counted right, whatever its place in the cycles. *)
Lemma year_cycles a b c e : 0 <= b <= 3 -> 0 <= c <= 24 -> 0 <= e <= 3 ->
  let y := 400 * a + 100 * b + 4 * c + e in
  y / 4 = 100 * a + 25 * b + c /\ y / 100 = 4 * a + b /\ y / 400 = a.
Proof. cbv zeta. intros. split_and!; Z.to_euclidean_division_equations; lia. Qed.

Lemma is_leap_cycles a b c e : 0 <= b <= 3 -> 0 <= c <= 24 -> 0 <= e <= 3 ->
  is_leap (400 * a + 100 * b + 4 * c + e + 1) = (e =? 3) && (negb (c =? 24) || (b =? 3)).
Proof.
  intros Hb Hc He. unfold is_leap.
  assert (forall k m, 0 < k -> (m =? 0) = true <-> m = 0) as _ by (intros; apply Z.eqb_eq).
  destruct (Z.eqb_spec e 3), (Z.eqb_spec c 24), (Z.eqb_spec b 3); cbn [negb andb orb];
    repeat match goal with |- context [?x mod ?k =? 0] => destruct (Z.eqb_spec (x mod k) 0) end; cbn;
    try done; exfalso; Z.to_euclidean_division_equations; lia.
Qed.

Lemma civil_of_days_ok days :
  let c := civil_of_days days in civil_ok c /\ days_of_civil c = days.
Proof.
  cbv zeta. unfold civil_of_days. set (D := days + epochDays). unfold daysPer400Years, daysPer100Years, daysPer4Years, daysPerYear.
  set (a := D / _). set (D1 := D - _ * a). assert (0 <= D1 < 146097) as H1 by (unfold D1, a; Z.to_euclidean_division_equations; lia).
  set (b := Z.min 3 (D1 / _)). set (D2 := D1 - _ * b).
  assert (0 <= b <= 3 /\ 0 <= D2 < 36524 + (if b =? 3 then 1 else 0)) as [Hb H2].
  { unfold D2, b. destruct (Z.eqb_spec (Z.min 3 (D1 / (365 * 100 + 24))) 3); Z.to_euclidean_division_equations; lia. }
  set (c := D2 / _). set (D3 := D2 - _ * c).
  assert (0 <= c <= 24 /\ 0 <= D3 < 1461 /\ (c = 24 -> b <> 3 -> D3 < 1460)) as (Hc & H3 & H3').
  { unfold D3, c. destruct (Z.eqb_spec b 3); Z.to_euclidean_division_equations; lia. }
  set (e := Z.min 3 (D3 / _)). set (D4 := D3 - _ * e).
  assert (0 <= e <= 3 /\ 0 <= D4 < 365 + (if (e =? 3) && (negb (c =? 24) || (b =? 3)) then 1 else 0)) as [He H4].
  { unfold D4, e. destruct (Z.eqb_spec (Z.min 3 (D3 / 365)) 3), (Z.eqb_spec c 24), (Z.eqb_spec b 3); cbn [negb andb orb];
      Z.to_euclidean_division_equations; lia. }
  pose proof (is_leap_cycles a b c e Hb Hc He) as HL. pose proof (year_cycles a b c e Hb Hc He) as (Y1 & Y2 & Y3).
  rewrite HL. set (leap := (e =? 3) && _) in *. rewrite <- month_lengths_sum in H4.
  pose proof (month_search_spec (month_lengths leap) 1 D4 (month_lengths_pos leap) H4) as HM.
  destruct (month_search 1 (month_lengths leap) D4) as [m dd]. destruct HM as (M1 & M2 & M3).
  unfold civil_ok, days_of_civil, days_in. cbn [cYear cMonth cDay]. rewrite HL.
  assert (Z.of_nat (length (month_lengths leap)) = 12) as E12 by (by destruct leap). rewrite E12 in M1.
  split; [split; [lia|split; lia]|].
  replace (400 * a + 100 * b + 4 * c + e + 1 - 1) with (400 * a + 100 * b + 4 * c + e) by lia.
  rewrite Y1, Y2, Y3. unfold D4, D3, D2, D1, D in *. lia.
Qed.

(** ** Dates are read back *)

Lemma dec_fuel_length f : forall k n, (n < 10 ^ N.of_nat (S k))%N -> (length (dec_fuel f n) <= S k)%nat.
Proof.
  induction f as [|f IH]; intros k n Hn; cbn [dec_fuel]; [cbn; lia|].
  destruct (N.ltb_spec n 10); [cbn; lia|]. rewrite length_app. cbn [length].
  destruct k as [|k]; [change (10 ^ N.of_nat 1)%N with 10%N in Hn; lia|].
  assert (n / 10 < 10 ^ N.of_nat (S k))%N as Hq.
  { apply N.Div0.div_lt_upper_bound. replace (N.of_nat (S (S k))) with (N.succ (N.of_nat (S k))) in Hn by lia.
    by rewrite N.pow_succ_r' in Hn. }
  specialize (IH k _ Hq). lia.
Qed.

Lemma digits_value_zeros k s : digits_value 0 (replicate k "0"%char ++ s) = digits_value 0 s.
Proof. induction k as [|k IH]; [done|]. cbn. done. Qed.

Record padded (w : nat) (z : Z) (s : str) : Prop := {
  padded_length : length s = w;
  padded_digits : forallb is_digit s = true;
  padded_value : digits_value 0 s = Some (Z.to_N z) }.

Lemma pad_padded k z : 0 <= z < 10 ^ Z.of_nat (S k) -> padded (S k) z (pad (S k) z).
Proof.
  intros Hz. pose proof (dec_fuel_length (S (N.size_nat (Z.to_N z))) k (Z.to_N z)) as Hl.
  assert (Z.to_N z < 10 ^ N.of_nat (S k))%N as Hn.
  { apply N2Z.inj_lt. rewrite N2Z.inj_pow, Z2N.id, nat_N_Z by lia. apply Hz. }
  specialize (Hl Hn). unfold pad. cbv zeta.
  assert (dec z = dec_N (Z.to_N z)) as E by (unfold dec; destruct (Z.ltb_spec z 0); [lia|done]).
  assert (length (dec z) <= S k)%nat as Hd by (rewrite E; apply Hl).
  split.
  - rewrite length_app, length_replicate. lia.
  - rewrite forallb_app, dec_digits by lia. rewrite andb_true_r. by induction (S k - length (dec z))%nat.
  - rewrite digits_value_zeros, E. apply dec_N_value.
Qed.

Lemma getnum_padded fixed z s r : 0 <= z -> padded 2 z s -> getnum fixed (s ++ r) = Some (z, r).
Proof.
  intros Hz [Hl Hd Hv]. destruct s as [|a [|b [|]]]; try done. cbn [forallb] in Hd. apply andb_true_iff in Hd as [Ha Hb].
  rewrite andb_true_r in Hb. cbn [digits_value] in Hv. rewrite Ha, Hb in Hv. injection Hv as Hv.
  cbn [app getnum]. rewrite Ha, Hb. cbn [negb]. f_equal. f_equal. rewrite N.add_0_l, N.mul_comm in Hv. lia.
Qed.

Lemma getnum_pad fixed z r : 0 <= z < 100 -> getnum fixed (pad 2 z ++ r) = Some (z, r).
Proof. intros Hz. apply getnum_padded; [lia|]. by apply (pad_padded 1). Qed.

Lemma get_year_pad y r : 0 <= y < 10000 -> get_year (pad 4 y ++ r) = Some (y, r).
Proof.
  intros Hy. destruct (pad_padded 3 y Hy) as [Hl _ Hv]. unfold get_year.
  rewrite take_app_length' by done. rewrite Hv, length_app, Hl. cbn [Nat.ltb Nat.leb Nat.add].
  rewrite drop_app_length' by done. by rewrite Z2N.id by lia.
Qed.

Lemma skip_digits w z r : (0 < w)%nat -> 0 <= z < 10 ^ Z.of_nat w -> skip SP (#" " ++ pad w z ++ r) = Some (pad w z ++ r).
Proof.
  intros Hw Hz. destruct w as [|w]; [lia|]. destruct (pad_padded w z Hz) as [Hl Hd _].
  destruct (pad (S w) z) as [|c s]; [done|]. cbn [forallb] in Hd. apply andb_true_iff in Hd as [Hc _].
  assert (Ascii.eqb c SP = false) as Hn by (destruct (Ascii.eqb_spec c SP) as [->|]; [by vm_compute in Hc|done]).
  change (skip SP (#" " ++ (c :: s) ++ r)) with (Some (if Ascii.eqb c SP then drop_while (fun c => Ascii.eqb c SP) (s ++ r) else (c :: s) ++ r)).
  by rewrite Hn.
Qed.

Lemma lookup_month_name m r : 1 <= m <= 12 ->
  lookup_month 1 month_names (nth (Z.to_nat (m - 1)) month_names [] ++ r) = Some m
  /\ drop 3 (nth (Z.to_nat (m - 1)) month_names [] ++ r) = r.
Proof.
  intros Hm. assert (exists k : nat, (k < 12)%nat /\ m = Z.of_nat k + 1) as (k & Hk & ->) by (exists (Z.to_nat (m - 1)); lia).
  replace (Z.to_nat (Z.of_nat k + 1 - 1)) with k by lia.
  do 12 (destruct k as [|k]; [done|]). lia.
Qed.

Lemma days_in_range y m : days_in y m <= 31.
Proof.
  unfold days_in. destruct (is_leap y); generalize (Z.to_nat (m - 1)); intros k; unfold month_lengths;
    do 12 (destruct k as [|k]; [cbn; lia|]); destruct k; cbn; lia.
Qed.

Lemma parse_day_format c r : civil_ok c -> 0 <= cYear c < 10000 ->
  parse_day (pad 2 (cDay c) ++ #"-" ++ nth (Z.to_nat (cMonth c - 1)) month_names [] ++ #"-" ++ pad 4 (cYear c) ++ r)
  = Some (c, r).
Proof.
  intros [Hm Hd] Hy. pose proof (days_in_range (cYear c) (cMonth c)). unfold parse_day.
  rewrite getnum_pad by lia. cbn [mbind option_bind].
  destruct (lookup_month_name (cMonth c) (#"-" ++ pad 4 (cYear c) ++ r) Hm) as [Hl Hdr].
  match goal with |- context [skip "-" (#"-" ++ ?x)] => change (skip "-" (#"-" ++ x)) with (Some x) end.
  cbn [mbind option_bind]. rewrite Hl. cbn [mbind option_bind]. rewrite Hdr.
  match goal with |- context [skip "-" (#"-" ++ ?x)] => change (skip "-" (#"-" ++ x)) with (Some x) end.
  cbn [mbind option_bind]. rewrite get_year_pad by done. cbn [mbind option_bind].
  destruct (Z.ltb_spec (cDay c) 1); [lia|]. destruct (Z.ltb_spec (days_in (cYear c) (cMonth c)) (cDay c)); [lia|].
  by destruct c.
Qed.

Lemma get_zone_format off : Z.abs off <= 24 * 3600 -> off mod 60 = 0 -> get_zone (format_zone off) = Some (off, []).
Proof.
  intros Ha Hm. assert (exists k, off = 60 * k) as [k ->] by (exists (off / 60); Z.to_euclidean_division_equations; lia).
  unfold format_zone. assert (Z.quot (60 * k) 60 = k) as -> by (rewrite Z.mul_comm; by apply Z.quot_mul). cbv zeta.
  assert (0 <= Z.abs k / 60 <= 24) as Hh by (Z.to_euclidean_division_equations; lia).
  assert (0 <= Z.abs k mod 60 < 60) as Hmm by (Z.to_euclidean_division_equations; lia).
  destruct (pad_padded 1 (Z.abs k / 60) ltac:(lia)) as [L1 _ _]. destruct (pad_padded 1 (Z.abs k mod 60) ltac:(lia)) as [L2 _ _].
  assert (take 2 (pad 2 (Z.abs k / 60) ++ pad 2 (Z.abs k mod 60)) = pad 2 (Z.abs k / 60)) as T1 by (by apply take_app_length').
  assert (take 2 (drop 2 (pad 2 (Z.abs k / 60) ++ pad 2 (Z.abs k mod 60))) = pad 2 (Z.abs k mod 60)) as T2
    by (rewrite drop_app_length' by done; apply take_ge; lia).
  assert (drop 4 (pad 2 (Z.abs k / 60) ++ pad 2 (Z.abs k mod 60)) = []) as T3 by (apply drop_ge; rewrite length_app; lia).
  pose proof (getnum_pad true (Z.abs k / 60) [] ltac:(lia)) as G1. pose proof (getnum_pad true (Z.abs k mod 60) [] ltac:(lia)) as G2.
  rewrite app_nil_r in G1, G2.
  assert (forall sign : ascii, get_zone (sign :: pad 2 (Z.abs k / 60) ++ pad 2 (Z.abs k mod 60)) =
    if Ascii.eqb sign "+" then Some (60 * Z.abs k, []) else if Ascii.eqb sign "-" then Some (- (60 * Z.abs k), []) else None) as HZ.
  { intros sign. cbn [get_zone length]. rewrite length_app, L1, L2. cbn [Nat.add Nat.ltb Nat.leb]. rewrite T1, T2, T3, G1. cbn [mbind option_bind].
    rewrite G2. cbn [mbind option_bind]. destruct (Z.ltb_spec 24 (Z.abs k / 60)); [lia|]. destruct (Z.ltb_spec 60 (Z.abs k mod 60)); [lia|].
    cbn [orb]. replace ((Z.abs k / 60 * 60 + Z.abs k mod 60) * 60) with (60 * Z.abs k) by (Z.to_euclidean_division_equations; lia).
    by repeat case_match. }
  destruct (Z.ltb_spec k 0); cbn [lit list_ascii_of_string app]; rewrite HZ; cbn; f_equal; f_equal; lia.
Qed.

Lemma skip_byte c x : Ascii.eqb c SP = false -> skip c (c :: x) = Some x.
Proof. intros H. unfold skip. by rewrite H, Ascii.eqb_refl. Qed.

Lemma parse_internal_fields c hh mi ss off :
  civil_ok c -> 0 <= cYear c < 10000 -> 0 <= hh <= 23 -> 0 <= mi <= 59 -> 0 <= ss <= 59 ->
  Z.abs off <= 24 * 3600 -> off mod 60 = 0 ->
  parse_internal (pad 2 (cDay c) ++ #"-" ++ nth (Z.to_nat (cMonth c - 1)) month_names [] ++ #"-" ++ pad 4 (cYear c)
    ++ #" " ++ pad 2 hh ++ #":" ++ pad 2 mi ++ #":" ++ pad 2 ss ++ #" " ++ format_zone off)
  = Some ((days_of_civil c * day_seconds + hh * 3600 + mi * 60 + ss - off) * second + 0).
Proof.
  intros Hc Hy H1 H2 H3 Ho Hm. unfold parse_internal. rewrite parse_day_format by done. cbn [mbind option_bind].
  rewrite (skip_digits 2) by (cbn; lia). cbn [mbind option_bind]. rewrite getnum_pad by lia. cbn [mbind option_bind].
  cbn [lit list_ascii_of_string app]. rewrite skip_byte by done. cbn [mbind option_bind].
  rewrite getnum_pad by lia. cbn [mbind option_bind]. rewrite skip_byte by done. cbn [mbind option_bind].
  rewrite getnum_pad by lia. cbn [mbind option_bind].
  assert (skip SP (" "%char :: format_zone off) = Some (format_zone off)) as HS
    by (unfold format_zone; cbv zeta; by destruct (_ <? 0)).
  assert (get_fraction (" "%char :: format_zone off) = (0, " "%char :: format_zone off)) as -> by reflexivity.
  rewrite HS. cbn [mbind option_bind]. rewrite get_zone_format by done. cbn [mbind option_bind].
  destruct (Z.ltb_spec 23 hh); [lia|]. destruct (Z.ltb_spec 59 mi); [lia|]. by destruct (Z.ltb_spec 59 ss); [lia|].
Qed.

Lemma clock_split k s : k = s mod day_seconds ->
  (0 <= k / 3600 <= 23 /\ 0 <= k mod 3600 / 60 <= 59 /\ 0 <= k mod 60 <= 59) /\
  s / day_seconds * day_seconds + k / 3600 * 3600 + k mod 3600 / 60 * 60 + k mod 60 = s.
Proof. intros ->. unfold day_seconds. Z.to_euclidean_division_equations. lia. Qed.

Lemma format_internal_eq offset t :
  let c := date_of offset t in
  let k := (t / second + offset) mod day_seconds in
  format_internal offset t =
  pad 2 (cDay c) ++ #"-" ++ nth (Z.to_nat (cMonth c - 1)) month_names [] ++ #"-" ++ pad 4 (cYear c)
  ++ #" " ++ pad 2 (k / 3600) ++ #":" ++ pad 2 (k mod 3600 / 60) ++ #":" ++ pad 2 (k mod 60)
  ++ #" " ++ format_zone offset.
Proof. reflexivity. Qed.

Lemma date_of_ok offset t :
  civil_ok (date_of offset t) /\ days_of_civil (date_of offset t) = (t / second + offset) / day_seconds.
Proof. apply civil_of_days_ok. Qed.

(** An instant formatted in a zone of whole minutes is read back to the second. *)
Lemma parse_format_internal offset t :
  Z.abs offset <= 24 * 3600 -> offset mod 60 = 0 ->
  0 <= cYear (date_of offset t) < 10000 ->
  parse_internal (format_internal offset t) = Some (t / second * second).
Proof.
  intros Ho Hm Hy. rewrite format_internal_eq.
  destruct (date_of_ok offset t) as [Hc HD].
  destruct (clock_split _ (t / second + offset) eq_refl) as [(H1 & H2 & H3) HE].
  rewrite (parse_internal_fields _ _ _ _ _ Hc Hy H1 H2 H3 Ho Hm).
  by rewrite HD, HE, Z.add_0_r, Z.add_simpl_r.
Qed.
