(* ===== verification/ImapParse.v ===== *)
(** * IMAP command lines (internal/imap/parse.go)

    The tokenizer, sequence sets and the rendering of strings.  A [parser] is
    the part of the line from [p.pos] on.  Reading a literal goes through the
    session, so the operations run in its monad, over any [readLiteral]. *)

From S2P Require Import Prelude GoStrings StateM.

(** ** Tokens *)

Inductive token := mkToken (s : str) (l : list token) (isList isLiteral : bool).

Definition tkStr (t : token) : str := let '(mkToken s _ _ _) := t in s.
Definition tkList (t : token) : list token := let '(mkToken _ l _ _) := t in l.
Definition tkIsList (t : token) : bool := let '(mkToken _ _ b _) := t in b.
Definition tkIsLiteral (t : token) : bool := let '(mkToken _ _ _ b) := t in b.
Definition upper (t : token) : str := to_upper (tkStr t).

(** What atoms and quoted strings, and lists, become. *)
Definition word (s : str) : token := mkToken s [] false false.
Definition listing (l : list token) : token := mkToken [] l true false.

(** [errParse], an error of [readLiteral], and a loop cut short, which
    [next_enough] rules out. *)
Inductive parse_error := ErrParse | ErrLiteral | OutOfFuel.

Definition maxLiteral : Z := 64 * 1024 * 1024.

Definition skipSpace (p : str) : str := drop_while (fun c => Ascii.eqb c SP) p.

Definition atom_end (c : ascii) : bool :=
  Ascii.eqb c SP || Ascii.eqb c "(" || Ascii.eqb c ")".
Fixpoint atom_span (p : str) : str * str :=
  match p with
  | [] => ([], [])
  | c :: r => if atom_end c then ([], p) else let '(a, rest) := atom_span r in (c :: a, rest)
  end.
Definition parseAtom (p : str) : result parse_error token * str :=
  match atom_span p with
  | ([], _) => (Err ErrParse, p)
  | (a, rest) => (Ok (word a), rest)
  end.

(** The loop of [parseQuoted], after the opening quote. *)
Fixpoint quoted_loop (p b : str) : result parse_error token * str :=
  match p with
  | [] => (Err ErrParse, [])
  | c :: r =>
      if Ascii.eqb c BSL then
        match r with
        | [] => (Err ErrParse, p)
        | d :: r' => quoted_loop r' (b ++ [d])
        end
      else if Ascii.eqb c DQ then (Ok (word b), r)
      else quoted_loop r (b ++ [c])
  end.
Definition parseQuoted (p : str) : result parse_error token * str := quoted_loop (drop 1 p) [].

Section Parser.
Context {St : Type} (readLiteral : Z -> SM St (option str)).

(** The rest of the line after a literal's size is dropped. *)
Definition parseLiteral (p : str) : SM St (result parse_error token * str) :=
  match index_byte "}" p with
  | None => mret (Err ErrParse, p)
  | Some e =>
      match parse_int (trim_suffix #"+" (take (e - 1) (drop 1 p))) with
      | None => mret (Err ErrParse, p)
      | Some n =>
          if (n <? 0) || (maxLiteral <? n) then mret (Err ErrParse, p)
          else
            r ← readLiteral n;
            mret (match r with
                  | None => Err ErrLiteral
                  | Some s => Ok (mkToken s [] false true)
                  end, [])
      end
  end.

(** [next] and the loop of [parseList]. *)
Fixpoint next_fuel (fuel : nat) (p : str) : SM St (result parse_error token * str) :=
  match fuel with
  | 0%nat => mret (Err OutOfFuel, p)
  | S f =>
      let p := skipSpace p in
      match p with
      | [] => mret (Err ErrParse, p)
      | c :: _ =>
          if Ascii.eqb c "(" then list_fuel f (drop 1 p) []
          else if Ascii.eqb c DQ then mret (parseQuoted p)
          else if Ascii.eqb c "{" then parseLiteral p
          else mret (parseAtom p)
      end
  end
with list_fuel (fuel : nat) (p : str) (out : list token) : SM St (result parse_error token * str) :=
  match fuel with
  | 0%nat => mret (Err OutOfFuel, p)
  | S f =>
      let p := skipSpace p in
      match p with
      | [] => mret (Err ErrParse, p)
      | c :: _ =>
          if Ascii.eqb c ")" then mret (Ok (listing out), drop 1 p)
          else
            '(t, p) ← next_fuel f p;
            match t with
            | Err e => mret (Err e, p)
            | Ok t => list_fuel f p (out ++ [t])
            end
      end
  end.

(** Each step of the two loops takes at least one byte or ends. *)
Definition fuel_for (p : str) : nat := (2 * length p + 2)%nat.
Definition next (p : str) : SM St (result parse_error token * str) := next_fuel (fuel_for p) p.

Definition rest (p : str) : str := skipSpace p.

Fixpoint all_fuel (fuel : nat) (p : str) (out : list token) : SM St (result parse_error (list token)) :=
  match fuel with
  | 0%nat => mret (Err OutOfFuel)
  | S f =>
      match skipSpace p with
      | [] => mret (Ok out)
      | p =>
          '(t, p) ← next p;
          match t with
          | Err e => mret (Err e)
          | Ok t => all_fuel f p (out ++ [t])
          end
      end
  end.
Definition all (p : str) : SM St (result parse_error (list token)) := all_fuel (S (length p)) p [].
End Parser.

(** ** Sequence sets *)

Abbreviation seqSet := (list (Z * Z)).

Definition parseSeqNum (s : str) : option Z :=
  if s =s #"*" then Some max_u32
  else match parse_uint 32 s with
       | Some n => if n =? 0 then None else Some n
       | None => None
       end.

Definition parse_range (part : str) : option (Z * Z) :=
  let '(lo, hi, found) := cut ":" part in
  a ← parseSeqNum lo;
  b ← (if found : bool then parseSeqNum hi else Some a);
  Some (if b <? a then (b, a) else (a, b)).

Fixpoint parse_ranges (parts : list str) : option seqSet :=
  match parts with
  | [] => Some []
  | part :: r => x ← parse_range part; l ← parse_ranges r; Some (x :: l)
  end.

Definition parseSeqSet (s : str) : option seqSet :=
  if s =s [] then None else parse_ranges (GoStrings.split "," s).

Definition in_range (n max : Z) (r : Z * Z) : bool :=
  let '(lo, hi) := r in
  let lo := if lo =? max_u32 then max else lo in
  let hi := if hi =? max_u32 then max else hi in
  let '(lo, hi) := if hi <? lo then (hi, lo) else (lo, hi) in
  (lo <=? n) && (n <=? hi).
Definition contains (s : seqSet) (n max : Z) : bool := existsb (in_range n max) s.

(** ** Rendering *)

Definition escape (s : str) : str :=
  concat (map (fun c => if Ascii.eqb c DQ || Ascii.eqb c BSL then [BSL; c] else [c]) s).
Definition quote (s : str) : str := DQ :: escape s ++ [DQ].
Definition literal (s : str) : str := #"{" ++ dec (Z.of_nat (length s)) ++ #"}" ++ CRLF ++ s.

(** ** The tokenizer consumes *)

Lemma skipSpace_length p : (length (skipSpace p) <= length p)%nat.
Proof. destruct (drop_while_suffix (fun c => Ascii.eqb c SP) p) as [k E]. rewrite E at 2. rewrite length_app. unfold skipSpace. lia. Qed.

Lemma skipSpace_head c r p : skipSpace p = c :: r -> Ascii.eqb c SP = false.
Proof. intros E. pose proof (drop_while_head (fun c => Ascii.eqb c SP) p) as H. unfold skipSpace in E. by rewrite E in H. Qed.

Lemma skipSpace_id c r : Ascii.eqb c SP = false -> skipSpace (c :: r) = c :: r.
Proof. intros H. unfold skipSpace. by apply drop_while_cons_false. Qed.

Lemma atom_span_app p : forall a rest, atom_span p = (a, rest) -> p = a ++ rest.
Proof.
  induction p as [|c p IH]; intros a rest; cbn [atom_span]; [by intros [= <- <-]|].
  destruct (atom_end c); [by intros [= <- <-]|]. destruct (atom_span p) as [a' r'].
  intros [= <- <-]. cbn [app]. f_equal. by apply IH.
Qed.

Lemma quoted_loop_length n : forall p b, (length p <= n)%nat ->
  (length (quoted_loop p b).2 <= length p)%nat.
Proof.
  induction n as [|n IH]; intros p b Hn; destruct p as [|c r]; cbn [quoted_loop length snd] in *; try lia.
  destruct (Ascii.eqb c BSL); [|destruct (Ascii.eqb c DQ); cbn [snd]; [lia|specialize (IH r (b ++ [c])); lia]].
  destruct r as [|d r']; [done|]. cbn [length] in *. specialize (IH r' (b ++ [d])). lia.
Qed.

(** Quoting: what a client's parser of the same grammar gets back. *)
Lemma escape_cons c s : escape (c :: s) = (if Ascii.eqb c DQ || Ascii.eqb c BSL then [BSL; c] else [c]) ++ escape s.
Proof. done. Qed.

Lemma quoted_loop_escape s : forall b r, quoted_loop (escape s ++ DQ :: r) b = (Ok (word (b ++ s)), r).
Proof.
  induction s as [|c s IH]; intros b r; [by rewrite app_nil_r|]. rewrite escape_cons, <- app_assoc.
  replace (b ++ c :: s) with ((b ++ [c]) ++ s) by (by rewrite <- app_assoc).
  destruct (Ascii.eqb c DQ || Ascii.eqb c BSL) eqn:E; cbn [app quoted_loop].
  - rewrite Ascii.eqb_refl. apply IH.
  - apply orb_false_iff in E as [-> ->]. apply IH.
Qed.

Section Enough.
Context {St : Type} (readLiteral : Z -> SM St (option str)).

(** A token takes at least one byte, and no error but [readLiteral]'s or a
    syntax error is reported. *)
Definition consumed (p : str) (r : result parse_error token * str) : Prop :=
  (length r.2 <= length p)%nat /\
  match r.1 with
  | Ok _ => (length r.2 < length p)%nat
  | Err e => e <> OutOfFuel
  end.

Lemma consumed_weaken p p' r : (length p <= length p')%nat -> consumed p r -> consumed p' r.
Proof. unfold consumed. intros Hl [H1 H2]. split; [lia|]. destruct r.1; [lia|done]. Qed.

Lemma parseAtom_consumed p : consumed p (parseAtom p).
Proof.
  unfold parseAtom, consumed. destruct (atom_span p) as [a rest] eqn:E. apply atom_span_app in E as ->.
  destruct a; cbn [fst snd]; [split; [done|discriminate]|]. rewrite length_app. cbn [length]. lia.
Qed.

Lemma parseQuoted_consumed c p : consumed (c :: p) (parseQuoted (c :: p)).
Proof.
  unfold parseQuoted, consumed. cbn [drop length]. change (drop 0 p) with p.
  pose proof (quoted_loop_length (length p) p [] ltac:(lia)) as H. split; [lia|].
  destruct (quoted_loop p []) as [[t|e] q] eqn:E; cbn [fst snd] in *; [lia|].
  revert E. generalize (@nil ascii) as b. clear H. intros b E.
  assert (forall n p b, (length p <= n)%nat -> (quoted_loop p b).1 <> Err OutOfFuel) as HL.
  { clear. induction n as [|n IH]; intros p b Hn; destruct p as [|d r]; cbn [quoted_loop length] in *; try discriminate; [lia|].
    destruct (Ascii.eqb d BSL); [destruct r as [|d' r']; [discriminate|apply IH; cbn [length] in Hn; lia]|].
    destruct (Ascii.eqb d DQ); [discriminate|]. apply IH. lia. }
  specialize (HL (length p) p b ltac:(lia)). rewrite E in HL. cbn [fst] in HL. congruence.
Qed.

Lemma parseLiteral_consumed c p st : consumed (c :: p) (parseLiteral readLiteral (c :: p) st).1.
Proof.
  unfold parseLiteral, consumed. destruct (index_byte "}" (c :: p)); [|cbn; split; [lia|discriminate]].
  destruct (parse_int _) as [z|]; [|cbn; split; [lia|discriminate]].
  destruct ((z <? 0) || (maxLiteral <? z)); [cbn; split; [lia|discriminate]|].
  unfold mbind, SM_bind. destruct (readLiteral z st) as [[s|] st']; cbn; (split; [lia|]); [lia|discriminate].
Qed.

Lemma next_fuel_S f p : next_fuel readLiteral (S f) p =
  let p := skipSpace p in
  match p with
  | [] => mret (Err ErrParse, p)
  | c :: _ =>
      if Ascii.eqb c "(" then list_fuel readLiteral f (drop 1 p) []
      else if Ascii.eqb c DQ then mret (parseQuoted p)
      else if Ascii.eqb c "{" then parseLiteral readLiteral p
      else mret (parseAtom p)
  end.
Proof. reflexivity. Qed.

Lemma list_fuel_S f p out : list_fuel readLiteral (S f) p out =
  let p := skipSpace p in
  match p with
  | [] => mret (Err ErrParse, p)
  | c :: _ =>
      if Ascii.eqb c ")" then mret (Ok (listing out), drop 1 p)
      else
        '(t, p) ← next_fuel readLiteral f p;
        match t with
        | Err e => mret (Err e, p)
        | Ok t => list_fuel readLiteral f p (out ++ [t])
        end
  end.
Proof. reflexivity. Qed.

(** With enough fuel both loops end by themselves. *)
Lemma next_list_consumed f :
  (forall p st, (2 * length p + 1 <= f)%nat -> consumed p (next_fuel readLiteral f p st).1) /\
  (forall p out st, (2 * length p + 2 <= f)%nat ->
     (length (list_fuel readLiteral f p out st).1.2 <= length p)%nat /\
     (list_fuel readLiteral f p out st).1.1 <> Err OutOfFuel).
Proof.
  induction f as [|f [IHn IHl]]; [split; intros; lia|].
  split.
  - intros p st Hf. rewrite next_fuel_S. cbv zeta. pose proof (skipSpace_length p) as Hs.
    destruct (skipSpace p) as [|c r] eqn:E; [cbn; split; [cbn; lia|discriminate]|]. cbn [length] in Hs.
    apply consumed_weaken with (c :: r); [done|]. destruct (Ascii.eqb c "("); [|destruct (Ascii.eqb c DQ); [|destruct (Ascii.eqb c "{")]].
    + cbn [drop]. change (drop 0 r) with r. specialize (IHl r [] st ltac:(lia)) as [H1 H2].
      destruct (list_fuel readLiteral f r [] st) as [[[t|e] q] st']; unfold consumed; cbn [fst snd length] in *; split; try lia. intros ->. by apply H2.
    + apply parseQuoted_consumed.
    + apply parseLiteral_consumed.
    + apply parseAtom_consumed.
  - intros p out st Hf. rewrite list_fuel_S. cbv zeta. pose proof (skipSpace_length p) as Hs.
    destruct (skipSpace p) as [|c r] eqn:E; [cbn; split; [lia|discriminate]|]. cbn [length] in Hs.
    destruct (Ascii.eqb c ")"); [cbn [drop mret SM_ret fst snd]; change (drop 0 r) with r; split; [lia|discriminate]|].
    unfold mbind, SM_bind. destruct f as [|f']; [lia|].
    assert (consumed (c :: r) (next_fuel readLiteral (S f') (c :: r) st).1) as [H1 H2].
    { apply IHn. cbn [length]. lia. }
    destruct (next_fuel readLiteral (S f') (c :: r) st) as [[[t|e] q] st']; cbn [fst snd length] in *.
    + specialize (IHl q (out ++ [t]) st' ltac:(lia)) as [H3 H4]. split; [lia|done].
    + cbn [mret SM_ret fst snd]. split; [lia|]. by intros [= ->].
Qed.

Lemma next_consumed p st : consumed p (next readLiteral p st).1.
Proof. apply next_list_consumed. unfold fuel_for. lia. Qed.

(** More fuel changes nothing. *)
Lemma next_list_more f : forall f',
  (forall p st, (2 * length p + 1 <= f)%nat -> (2 * length p + 1 <= f')%nat ->
     next_fuel readLiteral f p st = next_fuel readLiteral f' p st) /\
  (forall p out st, (2 * length p + 2 <= f)%nat -> (2 * length p + 2 <= f')%nat ->
     list_fuel readLiteral f p out st = list_fuel readLiteral f' p out st).
Proof.
  induction f as [|f IH]; intros f'; [split; intros; lia|]. destruct f' as [|f']; [split; intros; lia|].
  destruct (IH f') as [IHn IHl].
  split.
  - intros p st Hf Hf'. rewrite !next_fuel_S. cbv zeta. pose proof (skipSpace_length p) as Hs.
    destruct (skipSpace p) as [|c r]; [done|]. cbn [length] in Hs. destruct (Ascii.eqb c "("); [|done].
    cbn [drop]. change (drop 0 r) with r. apply IHl; lia.
  - intros p out st Hf Hf'. rewrite !list_fuel_S. cbv zeta. pose proof (skipSpace_length p) as Hs.
    destruct (skipSpace p) as [|c r]; [done|]. cbn [length] in Hs. destruct (Ascii.eqb c ")"); [done|].
    unfold mbind, SM_bind. rewrite <- IHn by (cbn [length]; lia).
    pose proof (next_list_consumed f) as [HN _]. specialize (HN (c :: r) st ltac:(cbn [length]; lia)) as [H1 H2].
    destruct (next_fuel readLiteral f (c :: r) st) as [[[t|e] q] st']; [|done]. cbn [fst snd length] in *.
    apply IHl; lia.
Qed.

(** The list items from a position on, given those before. *)
Definition items (p : str) (out : list token) : SM St (result parse_error token * str) :=
  list_fuel readLiteral (2 * length p + 2) p out.

Lemma items_fuel f p out st : (2 * length p + 2 <= f)%nat -> list_fuel readLiteral f p out st = items p out st.
Proof. intros Hf. by apply (next_list_more f). Qed.

Lemma items_step p out : items p out =
  let q := skipSpace p in
  match q with
  | [] => mret (Err ErrParse, q)
  | c :: _ =>
      if Ascii.eqb c ")" then mret (Ok (listing out), drop 1 q)
      else
        '(t, q) ← next_fuel readLiteral (2 * length p + 1) q;
        match t with
        | Err e => mret (Err e, q)
        | Ok t => list_fuel readLiteral (2 * length p + 1) q (out ++ [t])
        end
  end.
Proof. unfold items. replace (2 * length p + 2)%nat with (S (2 * length p + 1)) by lia. apply list_fuel_S. Qed.

Lemma items_close r out st : items (")"%char :: r) out st = ((Ok (listing out), r), st).
Proof. by rewrite items_step. Qed.

(** An item: the fuel for what is left does not matter. *)
Lemma items_skip p c r out st :
  skipSpace p = c :: r -> Ascii.eqb c ")" = false ->
  items p out st =
  (let '((t, q), st') := next readLiteral (c :: r) st in
   match t with Err e => ((Err e, q), st') | Ok t => items q (out ++ [t]) st' end).
Proof.
  intros Hp Hc. pose proof (skipSpace_length p) as Hs. rewrite Hp in Hs. cbn [length] in Hs.
  rewrite items_step. cbv zeta. rewrite Hp, Hc. unfold mbind, SM_bind.
  destruct (next_list_more (2 * length p + 1) (fuel_for (c :: r))) as [HN _].
  rewrite HN by (unfold fuel_for; cbn [length]; lia). fold (next readLiteral (c :: r)).
  pose proof (next_consumed (c :: r) st) as [H1 H2].
  destruct (next readLiteral (c :: r) st) as [[[t|e] q] st']; [|done]. cbn [fst snd length] in *. apply items_fuel. lia.
Qed.

Lemma items_space p out st : items (SP :: p) out st = items p out st.
Proof.
  destruct (skipSpace p) as [|c r] eqn:E.
  - rewrite !items_step. cbv zeta. change (skipSpace (SP :: p)) with (skipSpace p). by rewrite E.
  - destruct (Ascii.eqb c ")") eqn:Hc.
    + rewrite !items_step. cbv zeta. change (skipSpace (SP :: p)) with (skipSpace p). by rewrite E, Hc.
    + by rewrite !(items_skip _ c r).
Qed.

Lemma items_token c s t r out st :
  Ascii.eqb c SP = false -> Ascii.eqb c ")" = false ->
  next readLiteral (c :: s) st = ((Ok t, r), st) ->
  items (c :: s) out st = items r (out ++ [t]) st.
Proof.
  intros Hs Hc Hn. rewrite (items_skip _ c s) by (done || by apply skipSpace_id). by rewrite Hn.
Qed.

Lemma next_open s st : next readLiteral ("("%char :: s) st = items s [] st.
Proof.
  unfold next, fuel_for. rewrite Nat.add_comm. cbn [Nat.add length]. rewrite next_fuel_S. cbv zeta.
  change (skipSpace ("("%char :: s)) with ("("%char :: s). cbv iota. change (Ascii.eqb "(" "(") with true. cbv iota.
  change (drop 1 ("("%char :: s)) with s. apply items_fuel. lia.
Qed.

(** [s] is a token's text: it is read as [t] whatever delimiter follows. *)
Definition delimited (r : str) : Prop := match r with [] => True | c :: _ => atom_end c = true end.
Definition reads (s : str) (t : token) : Prop :=
  (exists c s', s = c :: s' /\ Ascii.eqb c SP = false /\ Ascii.eqb c ")" = false) /\
  forall r st, delimited r -> next readLiteral (s ++ r) st = ((Ok t, r), st).

Lemma reads_item s t r out st : reads s t -> delimited r -> items (s ++ r) out st = items r (out ++ [t]) st.
Proof.
  intros [(c & s' & -> & Hs & Hc) Hn] Hr. cbn [app]. apply items_token; [done|done|]. by apply Hn.
Qed.

Lemma next_quote s r st : next readLiteral (quote s ++ r) st = ((Ok (word s), r), st).
Proof.
  unfold next, fuel_for. rewrite Nat.add_comm. cbn [Nat.add]. rewrite next_fuel_S.
  unfold quote. cbv zeta. cbn [app]. rewrite skipSpace_id by done. rewrite <- app_assoc. cbn [app].
  change (Ascii.eqb DQ "(") with false. change (Ascii.eqb DQ DQ) with true. cbv iota.
  unfold parseQuoted. change (drop 1 (DQ :: escape s ++ DQ :: r)) with (escape s ++ DQ :: r).
  by rewrite quoted_loop_escape.
Qed.

Lemma reads_quote s : reads (quote s) (word s).
Proof. split; [by eexists _, _|]. intros r st _. apply next_quote. Qed.

Lemma atom_span_plain a r : forallb (fun c => negb (atom_end c)) a = true -> delimited r -> atom_span (a ++ r) = (a, r).
Proof.
  intros Ha Hr. induction a as [|c a IH]; cbn [app atom_span].
  - destruct r as [|c r]; [done|]. cbn [delimited] in Hr. cbn [atom_span]. by rewrite Hr.
  - cbn [forallb] in Ha. apply andb_true_iff in Ha as [Hc Ha]. apply negb_true_iff in Hc. by rewrite Hc, IH.
Qed.

(** An atom: none of the delimiters, and not the start of another token. *)
Definition plain_atom (a : str) : bool :=
  match a with
  | [] => false
  | c :: _ => negb (Ascii.eqb c DQ) && negb (Ascii.eqb c "{") && forallb (fun c => negb (atom_end c)) a
  end.

Lemma reads_atom a : plain_atom a = true -> reads a (word a).
Proof.
  destruct a as [|c a]; [done|]. cbn [plain_atom]. intros [[Hq Hl]%andb_true_iff Ha]%andb_true_iff.
  apply negb_true_iff in Hq, Hl. pose proof Ha as Hc. cbn [forallb] in Hc. apply andb_true_iff in Hc as [Hc _].
  apply negb_true_iff, orb_false_iff in Hc as [[Hs Ho]%orb_false_iff Hcl].
  split; [by eexists _, _|]. intros r st Hr. unfold next, fuel_for. rewrite Nat.add_comm. cbn [Nat.add]. rewrite next_fuel_S.
  cbv zeta. cbn [app]. rewrite skipSpace_id by done. rewrite Ho, Hq, Hl. unfold parseAtom.
  change (c :: a ++ r) with ((c :: a) ++ r). by rewrite atom_span_plain.
Qed.

Lemma reads_join ss ts : Forall2 reads ss ts -> forall r out st,
  ss <> [] -> items (join [SP] ss ++ ")"%char :: r) out st = ((Ok (listing (out ++ ts)), r), st).
Proof.
  induction 1 as [|s t ss ts Hst HF IH]; intros r out st Hn; [done|]. destruct ss as [|s2 ss].
  - inversion HF; subst. cbn [join]. rewrite (reads_item s t) by done. apply items_close.
  - change (join [SP] (s :: s2 :: ss)) with (s ++ [SP] ++ join [SP] (s2 :: ss)). rewrite <- !app_assoc.
    rewrite (reads_item s t) by done. cbn [app]. rewrite items_space. rewrite IH by done. by rewrite <- app_assoc.
Qed.

(** A list of tokens, separated by blanks, is read as such. *)
Lemma reads_list ss ts : ss <> [] -> Forall2 reads ss ts -> reads (#"(" ++ join [SP] ss ++ #")") (listing ts).
Proof.
  intros Hn HF. split; [by eexists _, _|]. intros r st _. cbn [lit list_ascii_of_string app]. rewrite next_open.
  rewrite <- app_assoc. cbn [app]. by rewrite (reads_join ss ts).
Qed.

(** Lists need no blank between them. *)
Lemma reads_concat ss ts : Forall2 reads ss ts -> Forall (fun s => head s = Some "("%char) ss -> forall r out st,
  delimited r -> items (concat ss ++ r) out st = items r (out ++ ts) st.
Proof.
  induction 1 as [|s t ss ts Hst _ IH]; intros Hp r out st Hr; [by rewrite app_nil_r|].
  inversion_clear Hp as [|? ? _ Hp']. cbn [concat]. rewrite <- app_assoc. rewrite (reads_item s t); [|done|].
  - rewrite IH by done. by rewrite <- app_assoc.
  - destruct ss as [|s2 ss]; [done|]. inversion_clear Hp' as [|? ? H2 _]. by destruct s2 as [|c s2]; [|injection H2 as ->].
Qed.

Lemma all_fuel_enough f : forall p out st, (length p < f)%nat ->
  (all_fuel readLiteral f p out st).1 <> Err OutOfFuel.
Proof.
  induction f as [|f IH]; intros p out st Hf; [lia|]. cbn [all_fuel].
  pose proof (skipSpace_length p) as Hs. destruct (skipSpace p) as [|c r]; [discriminate|].
  unfold mbind, SM_bind. pose proof (next_consumed (c :: r) st) as [H1 H2].
  destruct (next readLiteral (c :: r) st) as [[[t|e] q] st']; cbn [fst snd length] in *; [apply IH; lia|].
  by intros [= ->].
Qed.
End Enough.

(** ** Sequence sets *)

(** A bound as a client writes it. *)
Inductive bound := Num (n : Z) | Star.
Definition print_bound (b : bound) : str := match b with Num n => dec n | Star => #"*" end.
Definition print_range (r : bound * option bound) : str :=
  print_bound r.1 ++ match r.2 with Some b => #":" ++ print_bound b | None => [] end.
Definition print_set (l : list (bound * option bound)) : str := join #"," (map print_range l).

Definition bound_ok (b : bound) : Prop := match b with Num n => 0 < n < max_u32 | Star => True end.
Definition range_ok (r : bound * option bound) : Prop := bound_ok r.1 /\ from_option bound_ok True r.2.

(** What a bound and a range stand for in a mailbox whose last number is [max]. *)
Definition value (max : Z) (b : bound) : Z := match b with Num n => n | Star => max end.
Definition between (max n : Z) (r : bound * option bound) : Prop :=
  let lo := value max r.1 in
  let hi := value max (default r.1 r.2) in
  Z.min lo hi <= n <= Z.max lo hi.

Definition code (b : bound) : Z := match b with Num n => n | Star => max_u32 end.

Lemma parseSeqNum_print b : bound_ok b -> parseSeqNum (print_bound b) = Some (code b).
Proof.
  destruct b as [n|]; cbn; [|done]. unfold max_u32. intros Hn. unfold parseSeqNum.
  destruct (str_eqb_spec (dec n) #"*") as [E|_].
  - pose proof (dec_digits n ltac:(lia)) as Hd. by rewrite E in Hd.
  - rewrite parse_uint_dec by lia. destruct (Z.eqb_spec n 0); [lia|done].
Qed.

Lemma print_bound_no c b : bound_ok b -> is_digit c = false -> c <> "*"%char -> c ∉ print_bound b.
Proof.
  destruct b as [n|]; cbn; intros Hb Hc Hs.
  - apply not_in_digits; [done|]. apply dec_digits. lia.
  - set_solver.
Qed.

Lemma parse_range_print r : range_ok r ->
  exists x, parse_range (print_range r) = Some x /\ (x = (code r.1, code (default r.1 r.2)) \/ x = (code (default r.1 r.2), code r.1)).
Proof.
  destruct r as [a o]. intros [Ha Ho]. cbn [fst snd] in *. unfold parse_range, print_range. cbn [fst snd].
  assert (":"%char ∉ print_bound a) as Hc by (by apply print_bound_no).
  destruct o as [b|]; cbn [default from_option] in *.
  - change (#":" ++ print_bound b) with (":"%char :: print_bound b). rewrite cut_app by done.
    rewrite !parseSeqNum_print by done. cbn [mbind option_bind]. eexists. split; [reflexivity|].
    destruct (code b <? code a); auto.
  - rewrite app_nil_r, cut_none by done. rewrite parseSeqNum_print by done. cbn [mbind option_bind].
    eexists. split; [reflexivity|]. destruct (code a <? code a); auto.
Qed.

Lemma code_value max b : bound_ok b -> (if code b =? max_u32 then max else code b) = value max b.
Proof. destruct b as [n|]; cbn; [|done]. intros H. destruct (Z.eqb_spec n max_u32); [lia|done]. Qed.

Lemma in_range_between max n r x : range_ok r ->
  x = (code r.1, code (default r.1 r.2)) \/ x = (code (default r.1 r.2), code r.1) ->
  in_range n max x = true <-> between max n r.
Proof.
  intros [Ha Ho] Hx. assert (bound_ok (default r.1 r.2)) as Hb by (by destruct r as [a [b|]]).
  unfold between. cbv zeta. destruct Hx as [-> | ->]; unfold in_range; rewrite !code_value by done;
    match goal with |- context [?a <? ?b] => destruct (Z.ltb_spec a b) end;
    rewrite andb_true_iff, !Z.leb_le; lia.
Qed.

Lemma print_range_no_comma r : range_ok r -> ","%char ∉ print_range r.
Proof.
  destruct r as [a o]. intros [Ha Ho]. unfold print_range. cbn [fst snd] in *. rewrite elem_of_app. intros [Hin|Hin].
  - by apply (print_bound_no "," a) in Hin.
  - destruct o as [b|]; [|set_solver]. cbn in Hin. apply elem_of_cons in Hin as [?|Hin]; [done|].
    by apply (print_bound_no "," b) in Hin.
Qed.

Lemma parse_ranges_print max n l : Forall range_ok l ->
  exists s, parse_ranges (map print_range l) = Some s /\ (contains s n max = true <-> Exists (between max n) l).
Proof.
  induction 1 as [|r l Hr _ (s & Hs & IH)]; cbn [map parse_ranges].
  - exists []. split; [done|]. rewrite Exists_nil. done.
  - destruct (parse_range_print r Hr) as (x & -> & Hx). rewrite Hs. cbn [mbind option_bind].
    eexists. split; [reflexivity|]. unfold contains in *. cbn [existsb].
    rewrite orb_true_iff, Exists_cons, IH, (in_range_between max n r x Hr Hx). done.
Qed.

Lemma print_bound_nonempty b : bound_ok b -> print_bound b <> [].
Proof.
  destruct b as [n|]; cbn; [|done]. intros H. unfold dec. destruct (Z.ltb_spec n 0); [lia|]. apply dec_N_nonempty.
Qed.

Lemma parseSeqSet_print max n l : l <> [] -> Forall range_ok l ->
  exists s, parseSeqSet (print_set l) = Some s /\ (contains s n max = true <-> Exists (between max n) l).
Proof.
  intros Hl HF. destruct (parse_ranges_print max n l HF) as (s & Hs & Hc). exists s. split; [|done].
  unfold parseSeqSet, print_set. rewrite split_join.
  - destruct (str_eqb_spec (join #"," (map print_range l)) []) as [E|_]; [|done].
    exfalso. destruct l as [|r l]; [done|]. inversion_clear HF as [|? ? [Hr _] _].
    apply (print_bound_nonempty _ Hr). destruct l; cbn in E; unfold print_range in E; apply app_nil in E as [E _]; [done|].
    by apply app_nil in E as [E _].
  - by destruct l.
  - clear -HF. induction HF; cbn; constructor; [by apply print_range_no_comma|done].
Qed.

(** The tokenizer always ends with a token, a syntax error or an error of
    the literal's reader, never for want of fuel, and a token that is returned
    has taken at least one byte of the line; so does reading all tokens. *)
Theorem next_terminates {St} (readLiteral : Z -> SM St (option str)) p st :
  consumed p (next readLiteral p st).1 /\ (all readLiteral p st).1 <> Err OutOfFuel.
Proof. split; [apply next_consumed|apply all_fuel_enough; lia]. Qed.

(** A sequence set a client writes is accepted, and then contains exactly the
    numbers between the two bounds of one of its ranges, in either order, where
    ["*"] is the last number of the mailbox. *)
Theorem seqset_spec max n l :
  l <> [] -> Forall range_ok l ->
  exists s, parseSeqSet (print_set l) = Some s /\ (contains s n max = true <-> Exists (between max n) l).
Proof. apply parseSeqSet_print. Qed.

(** ["2,7:*,*:4"] in a mailbox of 9. *)
Lemma seqset_spec_witness :
  exists s, parseSeqSet #"2,7:*,*:4" = Some s /\
    (contains s 5 9 = true <-> Exists (between 9 5) [(Num 2, None); (Num 7, Some Star); (Star, Some (Num 4))]).
Proof.
  apply (seqset_spec 9 5 [(Num 2, None); (Num 7, Some Star); (Star, Some (Num 4))]); [discriminate|].
  repeat constructor; unfold bound_ok, max_u32; simpl; try lia.
Defined.
