(* ===== verification/ImapMime.v ===== *)
(** * MIME structure of messages (internal/imap/mime.go)

    The part tree of a message, its BODYSTRUCTURE and the parts that section
    numbers address.  The parsers of header blocks, media types and multipart
    bodies ([net/textproto], [mime], [mime/multipart]) are parameters. *)

From S2P Require Import Prelude GoStrings StateM ImapParse.

Inductive mimePart := mkPart
  (ctype csub : str) (params : gmap str str) (encoding disp dispName : str)
  (rawHeader body : str) (children : list mimePart).

Definition pCtype (p : mimePart) : str := let '(mkPart x _ _ _ _ _ _ _ _) := p in x.
Definition pCsub (p : mimePart) : str := let '(mkPart _ x _ _ _ _ _ _ _) := p in x.
Definition pParams (p : mimePart) : gmap str str := let '(mkPart _ _ x _ _ _ _ _ _) := p in x.
Definition pEncoding (p : mimePart) : str := let '(mkPart _ _ _ x _ _ _ _ _) := p in x.
Definition pDisp (p : mimePart) : str := let '(mkPart _ _ _ _ x _ _ _ _) := p in x.
Definition pDispName (p : mimePart) : str := let '(mkPart _ _ _ _ _ x _ _ _) := p in x.
Definition pRawHeader (p : mimePart) : str := let '(mkPart _ _ _ _ _ _ x _ _) := p in x.
Definition pBody (p : mimePart) : str := let '(mkPart _ _ _ _ _ _ _ x _) := p in x.
Definition pChildren (p : mimePart) : list mimePart := let '(mkPart _ _ _ _ _ _ _ _ x) := p in x.

(** [textproto.MIMEHeader], in the order its map is ranged over. *)
Abbreviation MIMEHeader := (list (str * list str)).
Definition Get (h : MIMEHeader) (key : str) : str :=
  match List.find (fun kv : str * list str => kv.1 =s key) h with
  | Some (_, v :: _) => v
  | _ => []
  end.

Definition splitHeaderBody (data : str) : str * str :=
  match index (CRLF ++ CRLF) data with
  | Some i => (take (i + 4) data, drop (i + 4) data)
  | None =>
      match index [LF; LF] data with
      | Some i => (take (i + 2) data, drop (i + 2) data)
      | None => (data, [])
      end
  end.

(** The header block up to its blank line, and what follows. *)
Definition headerOf (data : str) : str :=
  match index (CRLF ++ CRLF) data with
  | Some i => take (i + 4) data
  | None => match index [LF; LF] data with Some i => take (i + 2) data | None => data end
  end.
Definition bodyOf (data : str) : str :=
  match index (CRLF ++ CRLF) data with
  | Some i => drop (i + 4) data
  | None => match index [LF; LF] data with Some i => drop (i + 2) data | None => [] end
  end.

Definition rawHeaderOf (h : MIMEHeader) : str :=
  concat (map (fun kv : str * list str => concat (map (fun v => kv.1 ++ #": " ++ v ++ CRLF) kv.2)) h) ++ CRLF.

(** Media type parameters have lower-case names, so none collide. *)
Definition upperKeys (m : gmap str str) : gmap str str :=
  list_to_map (map (fun kv : str * str => (to_upper kv.1, kv.2)) (map_to_list m)).

Definition text_params : gmap str str := {[ #"CHARSET" := #"US-ASCII" ]}.

Section Build.
Context (ReadMIMEHeader : str -> MIMEHeader).
Context (ParseMediaType : str -> option (str * gmap str str)).
(** The parts of a multipart body with a boundary, up to the first error. *)
Context (raw_parts : str -> str -> list (MIMEHeader * str)).

(** The content type, in capitals, with its parameters. *)
Definition content_type (h : MIMEHeader) : str * str * gmap str str :=
  let ct := Get h #"Content-Type" in
  match (if ct =s [] then None else ParseMediaType ct) with
  | Some (mediaType, params) =>
      let '(t, st, found) := cut "/" mediaType in
      if found : bool then (to_upper t, to_upper st, upperKeys params)
      else (#"TEXT", #"PLAIN", upperKeys params)
  | None => (#"TEXT", #"PLAIN", text_params)
  end.
Definition encoding_of (h : MIMEHeader) : str :=
  let e := Get h #"Content-Transfer-Encoding" in
  if e =s [] then #"7BIT" else to_upper (trim_space e).
Definition disposition_of (h : MIMEHeader) : str * str :=
  let cd := Get h #"Content-Disposition" in
  match (if cd =s [] then None else ParseMediaType cd) with
  | Some (disp, params) => (to_upper disp, default [] (params !! #"filename"))
  | None => ([], [])
  end.

(** The recursion into parts; a part is shorter than what holds it. *)
Fixpoint buildPart (fuel : nat) (rawHeader body : str) : mimePart :=
  let h := ReadMIMEHeader rawHeader in
  let '(ctype, csub, params) := content_type h in
  let '(disp, dispName) := disposition_of h in
  let boundary := default [] (params !! #"BOUNDARY") in
  let children :=
    if (ctype =s #"MULTIPART") && negb (boundary =s []) then
      match fuel with
      | 0%nat => []
      | S f => map (fun part : MIMEHeader * str => buildPart f (rawHeaderOf part.1) part.2) (raw_parts boundary body)
      end
    else [] in
  let '(ctype, csub, params) :=
    match children with
    | [] => if ctype =s #"MULTIPART" then (#"TEXT", #"PLAIN", text_params) else (ctype, csub, params)
    | _ => (ctype, csub, params)
    end in
  mkPart ctype csub params (encoding_of h) disp dispName rawHeader body children.

Definition parseMessage (data : str) : mimePart :=
  let '(hdr, body) := splitHeaderBody data in buildPart (length body) hdr body.

(** ** Enough fuel *)

Lemma buildPart_enough :
  (forall boundary body part, part ∈ raw_parts boundary body -> (length part.2 < length body)%nat) ->
  forall f f' h b, (length b <= f)%nat -> (length b <= f')%nat -> buildPart f h b = buildPart f' h b.
Proof.
  intros Hs. induction f as [|f IH]; intros f' h b Hf Hf'; destruct f' as [|f']; cbn [buildPart];
    destruct (content_type _) as [[ct cs] ps]; destruct (disposition_of _) as [d dn]; try done.
  - set (bd := default [] _). assert (raw_parts bd b = []) as ->; [|by destruct (_ && _)].
    destruct (raw_parts bd b) as [|p l] eqn:E; [done|]. specialize (Hs bd b p ltac:(rewrite E; left)). lia.
  - set (bd := default [] _). assert (raw_parts bd b = []) as ->; [|by destruct (_ && _)].
    destruct (raw_parts bd b) as [|p l] eqn:E; [done|]. specialize (Hs bd b p ltac:(rewrite E; left)). lia.
  - set (bd := default [] _).
    assert (map (fun part : MIMEHeader * str => buildPart f (rawHeaderOf part.1) part.2) (raw_parts bd b)
            = map (fun part : MIMEHeader * str => buildPart f' (rawHeaderOf part.1) part.2) (raw_parts bd b)) as ->; [|done].
    apply map_ext_in. intros part Hin. apply list_elem_of_In, Hs in Hin. apply IH; lia.
Qed.
End Build.

(** ** BODYSTRUCTURE *)

Definition countLines (body : str) : Z := Z.of_nat (length (List.filter (Ascii.eqb LF) body)).

(** [sortStrings], insertion by swaps. *)
Definition sortStrings : list str -> list str := sort_slice str_ltb.

Definition paramList (params : gmap str str) : str :=
  if decide (size params = 0%nat) then #"NIL"
  else #"(" ++ join [SP] (map (fun k => quote k ++ #" " ++ quote (default [] (params !! k)))
                             (sortStrings (map fst (map_to_list params)))) ++ #")".

Definition disposition (p : mimePart) : str :=
  if pDisp p =s [] then #"NIL"
  else
    let params := if pDispName p =s [] then #"NIL"
                  else #"(" ++ quote #"FILENAME" ++ #" " ++ quote (pDispName p) ++ #")" in
    #"(" ++ quote (pDisp p) ++ #" " ++ params ++ #")".

Fixpoint structure (p : mimePart) (extended : bool) : str :=
  match pChildren p with
  | [] =>
      #"(" ++ quote (pCtype p) ++ #" " ++ quote (pCsub p) ++ #" " ++ paramList (pParams p)
      ++ #" NIL NIL " ++ quote (pEncoding p) ++ #" " ++ dec (Z.of_nat (length (pBody p)))
      ++ (if pCtype p =s #"TEXT" then #" " ++ dec (countLines (pBody p)) else [])
      ++ (if extended then #" NIL " ++ disposition p ++ #" NIL NIL" else [])
      ++ #")"
  | _ =>
      #"("
      ++ (let '(mkPart _ _ _ _ _ _ _ _ children) := p in concat (map (fun c => structure c extended) children))
      ++ #" " ++ quote (pCsub p)
      ++ (if extended then #" " ++ paramList (pParams p) ++ #" NIL NIL NIL" else [])
      ++ #")"
  end.

(** ** Sections *)

(** The loop over the numbers; [single] says there is one number only. *)
Fixpoint walk (single : bool) (node : mimePart) (l : list str) : option mimePart :=
  match l with
  | [] => Some node
  | f :: r =>
      match parse_int f with
      | None => None
      | Some idx =>
          if idx <? 1 then None
          else match pChildren node with
               | [] => if negb (idx =? 1) || negb single then None else walk single node r
               | children => node ← children !! Z.to_nat (idx - 1); walk single node r
               end
      end
  end.

Definition section_suffix (field : str) : option str :=
  let u := to_upper field in
  if (u =s #"MIME") || (u =s #"HEADER") || (u =s #"TEXT") then Some u else None.

Definition resolveSection (root : mimePart) (section : str) : str :=
  let fields := GoStrings.split "." section in
  let '(fields, suffix) :=
    match section_suffix (default [] (last fields)) with
    | Some u => (removelast fields, u)
    | None => (fields, [])
    end in
  match walk (Nat.leb (length fields) 1) root fields with
  | None => []
  | Some node =>
      if suffix =s #"MIME" then pRawHeader node
      else if suffix =s #"HEADER" then headerOf (pBody node)
      else if suffix =s #"TEXT" then bodyOf (pBody node)
      else pBody node
  end.

(** The part a path of numbers addresses: a part that is not multipart is its
    own part 1, at the top only. *)
Fixpoint descend (node : mimePart) (path : list Z) : option mimePart :=
  match path with
  | [] => Some node
  | i :: r => c ← pChildren node !! Z.to_nat (i - 1); descend c r
  end.
Definition part_at (root : mimePart) (path : list Z) : option mimePart :=
  match pChildren root, path with
  | [], [i] => if i =? 1 then Some root else None
  | _, _ => descend root path
  end.

(** ** Header and body *)

Lemma headerOf_bodyOf data : headerOf data ++ bodyOf data = data.
Proof.
  unfold headerOf, bodyOf. repeat case_match; rewrite ?take_drop, ?app_nil_r; done.
Qed.
