(* ===== verification/ImapMimeProps.v ===== *)
(** * Properties of the MIME structure

    A BODYSTRUCTURE is read back by the tokenizer as the tree of the message,
    and a section number gives the part at that place of the tree. *)

From S2P Require Import Prelude GoStrings StateM ImapParse ImapMime.

(** ** The tokens of a BODYSTRUCTURE *)

Definition NIL : token := word #"NIL".

Definition param_token (params : gmap str str) : token :=
  if decide (size params = 0%nat) then NIL
  else listing (concat (map (fun k => [word k; word (default [] (params !! k))])
                            (sortStrings (map fst (map_to_list params))))).

Definition disposition_token (p : mimePart) : token :=
  if pDisp p =s [] then NIL
  else listing [word (pDisp p);
                if pDispName p =s [] then NIL else listing [word #"FILENAME"; word (pDispName p)]].

Fixpoint structure_token (p : mimePart) (extended : bool) : token :=
  match pChildren p with
  | [] =>
      listing ([word (pCtype p); word (pCsub p); param_token (pParams p); NIL; NIL; word (pEncoding p);
                word (dec (Z.of_nat (length (pBody p))))]
               ++ (if pCtype p =s #"TEXT" then [word (dec (countLines (pBody p)))] else [])
               ++ (if extended then [NIL; disposition_token p; NIL; NIL] else []))
  | _ =>
      listing ((let '(mkPart _ _ _ _ _ _ _ _ children) := p in map (fun c => structure_token c extended) children)
               ++ word (pCsub p) :: (if extended then [param_token (pParams p); NIL; NIL; NIL] else []))
  end.

Lemma join_cons sep s l : l <> [] -> join sep (s :: l) = s ++ sep ++ join sep l.
Proof. by destruct l. Qed.

Lemma join_app sep a b : a <> [] -> b <> [] -> join sep (a ++ b) = join sep a ++ sep ++ join sep b.
Proof.
  intros Ha Hb. induction a as [|s a IH]; [done|]. destruct a as [|s2 a].
  - cbn [app]. by rewrite join_cons.
  - specialize (IH ltac:(done)). change ((s :: s2 :: a) ++ b) with (s :: ((s2 :: a) ++ b)).
    rewrite (join_cons sep s (s2 :: a)), (join_cons sep s ((s2 :: a) ++ b)), IH by done. by rewrite <- !app_assoc.
Qed.

(** Induction over the parts. *)
Lemma mimePart_tree_ind (P : mimePart -> Prop) :
  (forall ctype csub params enc disp name hdr body children,
     Forall P children -> P (mkPart ctype csub params enc disp name hdr body children)) ->
  forall p, P p.
Proof.
  intros H. fix IH 1. intros [ctype csub params enc disp name hdr body children]. apply H.
  induction children as [|c l IHl]; constructor; [apply IH|exact IHl].
Qed.

Section Reads.
Context {St : Type} (readLiteral : Z -> SM St (option str)).

Lemma reads_NIL : reads readLiteral #"NIL" NIL.
Proof. by apply reads_atom. Qed.

Lemma reads_dec z : 0 <= z -> reads readLiteral (dec z) (word (dec z)).
Proof.
  intros Hz. apply reads_atom. pose proof (dec_digits z Hz) as Hd.
  assert (forall c, is_digit c = true -> negb (atom_end c) = true /\ negb (Ascii.eqb c DQ) = true /\ negb (Ascii.eqb c "{") = true) as HC
    by (intros c; by all_bytes c).
  destruct (dec z) as [|c s] eqn:E.
  { unfold dec in E. destruct (Z.ltb_spec z 0); [lia|]. by apply dec_N_nonempty in E. }
  unfold plain_atom. cbn [forallb] in Hd. apply andb_true_iff in Hd as [Hc Hd]. destruct (HC c Hc) as (H1 & H2 & H3).
  rewrite H2, H3. cbn [andb forallb]. rewrite H1. cbn [andb]. apply forallb_forall. intros x Hx.
  rewrite forallb_forall in Hd. by apply HC, Hd.
Qed.

Lemma join_pairs (f : str -> str) (l : list str) :
  join [SP] (concat (map (fun k => [quote k; quote (f k)]) l))
  = join [SP] (map (fun k => quote k ++ #" " ++ quote (f k)) l).
Proof.
  induction l as [|k l IH]; [done|]. cbn [map concat app]. destruct l as [|k2 l].
  - done.
  - rewrite (join_cons _ (_ ++ _)) by done. rewrite <- IH. cbn [map concat app].
    rewrite !(join_cons _ (quote k)) by done. rewrite (join_cons _ (quote (f k))) by done. by rewrite <- !app_assoc.
Qed.

Lemma reads_pairs (f : str -> str) l :
  Forall2 (reads readLiteral) (concat (map (fun k => [quote k; quote (f k)]) l))
    (concat (map (fun k => [word k; word (f k)]) l)).
Proof. induction l as [|k l IH]; cbn [map concat app]; [constructor|]. repeat (constructor; [apply reads_quote|]). exact IH. Qed.

Lemma reads_params params : reads readLiteral (paramList params) (param_token params).
Proof.
  unfold paramList, param_token. case_decide as Hs; [apply reads_NIL|].
  set (l := sortStrings _). assert (l <> []) as Hl.
  { intros E. apply (f_equal length) in E. unfold l, sortStrings in E. rewrite length_sort_slice, length_map in E.
    rewrite length_map_to_list in E. done. }
  rewrite <- (join_pairs (fun k => default [] (params !! k))). apply reads_list; [by destruct l|apply reads_pairs].
Qed.

Lemma reads_two a b ta tb : reads readLiteral a ta -> reads readLiteral b tb ->
  reads readLiteral (#"(" ++ a ++ #" " ++ b ++ #")") (listing [ta; tb]).
Proof.
  intros Ha Hb. change (#" ") with [SP].
  replace (a ++ [SP] ++ b ++ #")") with (join [SP] [a; b] ++ #")") by (cbn [join]; by rewrite <- !app_assoc).
  apply reads_list; [done|]. repeat (constructor; [done|]); constructor.
Qed.

Lemma reads_disposition p : reads readLiteral (disposition p) (disposition_token p).
Proof.
  unfold disposition, disposition_token. cbv zeta. destruct (pDisp p =s []); [apply reads_NIL|].
  apply reads_two; [apply reads_quote|]. destruct (pDispName p =s []); [apply reads_NIL|].
  apply reads_two; apply reads_quote.
Qed.

(** The items of a part after its type and those after its children. *)
Definition leaf_strings (p : mimePart) (extended : bool) : list str :=
  [quote (pCtype p); quote (pCsub p); paramList (pParams p); #"NIL"; #"NIL"; quote (pEncoding p);
   dec (Z.of_nat (length (pBody p)))]
  ++ (if pCtype p =s #"TEXT" then [dec (countLines (pBody p))] else [])
  ++ (if extended then [ #"NIL"; disposition p; #"NIL"; #"NIL"] else []).
Definition tail_strings (p : mimePart) (extended : bool) : list str :=
  quote (pCsub p) :: (if extended then [paramList (pParams p); #"NIL"; #"NIL"; #"NIL"] else []).

Lemma structure_leaf p extended : pChildren p = [] ->
  structure p extended = #"(" ++ join [SP] (leaf_strings p extended) ++ #")".
Proof.
  destruct p as [ct cs ps en di dn hd bo ch]. intros Hc. cbn [pChildren] in Hc. subst ch. cbn [structure pChildren].
  unfold leaf_strings. cbn [pCtype pCsub pParams pEncoding pBody].
  destruct (ct =s #"TEXT"), extended; cbn [app join]; repeat (progress (rewrite <- ?app_assoc; cbn [app])); reflexivity.
Qed.

Lemma structure_multi p extended : pChildren p <> [] ->
  structure p extended =
  #"(" ++ (concat (map (fun c => structure c extended) (pChildren p)) ++ [SP] ++ join [SP] (tail_strings p extended) ++ #")").
Proof.
  destruct p as [ct cs ps en di dn hd bo [|c ch]]; [done|]. intros _. cbn [structure pChildren].
  unfold tail_strings. cbn [pCsub pParams]. destruct extended; cbn [app join]; repeat (progress (rewrite <- ?app_assoc; cbn [app])); reflexivity.
Qed.

Lemma structure_open p extended : head (structure p extended) = Some "("%char.
Proof. destruct p as [ct cs ps en di dn hd bo [|c ch]]; reflexivity. Qed.

Lemma reads_structure p extended : reads readLiteral (structure p extended) (structure_token p extended).
Proof.
  induction p as [ct cs ps en di dn hd bo ch IH] using mimePart_tree_ind. destruct ch as [|c ch].
  - rewrite structure_leaf by done. cbn [structure_token pChildren]. apply reads_list; [done|].
    pose proof reads_NIL. unfold leaf_strings. cbn [pCtype pCsub pParams pEncoding pBody].
    repeat (constructor; [first [apply reads_quote|apply reads_params|apply reads_dec; lia|done]|]).
    apply Forall2_app.
    + destruct (ct =s #"TEXT"); [|constructor]. constructor; [|constructor]. apply reads_dec. unfold countLines. lia.
    + destruct extended; [|constructor]. constructor; [done|]. constructor; [apply reads_disposition|]. repeat (constructor; [done|]); constructor.
  - rewrite structure_multi by done. cbn [structure_token pChildren]. split; [by eexists _, _|]. intros r st _.
    cbn [lit list_ascii_of_string app]. rewrite next_open. rewrite <- app_assoc.
    rewrite (reads_concat readLiteral _ (map (fun c => structure_token c extended) (c :: ch))); [| | |done].
    + cbn [app]. rewrite items_space. rewrite <- app_assoc. cbn [app].
      rewrite (reads_join readLiteral (tail_strings _ extended)
        (word cs :: (if extended then [param_token ps; NIL; NIL; NIL] else []))); [done| |done].
      unfold tail_strings. cbn [pCsub pParams]. constructor; [apply reads_quote|].
      pose proof reads_NIL. destruct extended; [|constructor]. constructor; [apply reads_params|]. repeat (constructor; [done|]); constructor.
    + clear r st. revert IH. generalize (c :: ch) as l. induction 1; cbn [map]; by constructor.
    + apply Forall_forall. intros s (x & <- & _)%list_elem_of_In%in_map_iff. apply structure_open.
Qed.
End Reads.

(** ** Sections *)

Definition index_ok (i : Z) : Prop := 1 <= i < 2 ^ 63.

Lemma parse_int_dec i : 0 <= i < 2 ^ 63 -> parse_int (dec i) = Some i.
Proof.
  intros Hi. pose proof (dec_digits i ltac:(lia)) as Hd. unfold parse_int.
  assert (dec i = dec_N (Z.to_N i)) as E by (unfold dec; destruct (Z.ltb_spec i 0); [lia|done]).
  pose proof (dec_N_value (Z.to_N i)) as Hv. rewrite <- E in Hv.
  destruct (dec i) as [|c s] eqn:Ed; [symmetry in E; by apply dec_N_nonempty in E|].
  cbn [forallb] in Hd. apply andb_true_iff in Hd as [Hc _].
  destruct (Ascii.eqb_spec c "-") as [->|_]; [done|]. destruct (Ascii.eqb_spec c "+") as [->|_]; [done|].
  cbv iota. rewrite Hv, Z2N.id by lia. destruct (Z.leb_spec (- 2 ^ 63) i), (Z.ltb_spec i (2 ^ 63)); try lia. done.
Qed.

Lemma walk_descend node path : Forall index_ok path ->
  walk false node (map dec path) = descend node path.
Proof.
  intros HF. revert node. induction HF as [|i path Hi _ IH]; intros node; [done|]. destruct Hi as [H1 H2]. cbn [map walk descend].
  rewrite parse_int_dec by lia. destruct (Z.ltb_spec i 1); [lia|].
  destruct (pChildren node) as [|c ch] eqn:E; [by rewrite orb_true_r|].
  destruct ((c :: ch) !! Z.to_nat (i - 1)) as [n|]; [apply IH|done].
Qed.

Lemma walk_part_at root path : Forall index_ok path ->
  walk (Nat.leb (length (map dec path)) 1) root (map dec path) = part_at root path.
Proof.
  intros HF. rewrite length_map. unfold part_at. destruct path as [|i [|j path]].
  - by destruct (pChildren root).
  - inversion_clear HF as [|? ? [H1 H2] _]. cbn [map length Nat.leb walk descend]. rewrite parse_int_dec by lia.
    destruct (Z.ltb_spec i 1); [lia|]. destruct (pChildren root) as [|c ch].
    + rewrite orb_false_r. by destruct (i =? 1).
    + by destruct ((c :: ch) !! Z.to_nat (i - 1)).
  - cbn [length Nat.leb]. rewrite walk_descend by done. by destruct (pChildren root).
Qed.

(** What is returned of the part found. *)
Definition part_text (suffix : option str) (p : mimePart) : str :=
  match suffix with
  | Some u => if u =s #"MIME" then pRawHeader p
              else if u =s #"HEADER" then headerOf (pBody p) else bodyOf (pBody p)
  | None => pBody p
  end.

Lemma section_suffix_dec i : 0 <= i -> section_suffix (dec i) = None.
Proof.
  intros Hi. pose proof (dec_digits i Hi) as Hd. unfold section_suffix. cbv zeta.
  assert (forall w, existsb (fun c => negb (is_digit c)) w = true -> forallb is_lower (to_lower w) = true -> (to_upper (dec i) =s w) = false) as HN.
  { intros w Hw _. destruct (str_eqb_spec (to_upper (dec i)) w) as [<-|]; [|done]. exfalso.
    assert (forall s, forallb is_digit s = true -> existsb (fun c => negb (is_digit c)) (to_upper s) = false) as HU.
    { clear. induction s as [|c s IH]; [done|]. cbn [forallb to_upper map existsb]. intros [Hc Hs]%andb_true_iff. fold (to_upper s). rewrite (IH Hs), orb_false_r.
      revert Hc. by all_bytes c. }
    by rewrite HU in Hw. }
  by rewrite !HN.
Qed.

Lemma resolveSection_path root path :
  path <> [] -> Forall index_ok path ->
  resolveSection root (join #"." (map dec path)) = from_option (part_text None) [] (part_at root path).
Proof.
  intros Hn HF. unfold resolveSection.
  assert (Forall (fun p => "."%char ∉ p) (map dec path)) as Hd.
  { clear Hn. induction HF as [|i l [H1 H2] _ IH]; constructor; [apply dec_no_dot; lia|exact IH]. }
  rewrite split_join by (done || by destruct path).
  assert (section_suffix (default [] (last (map dec path))) = None) as ->.
  { destruct (exists_last Hn) as (l & i & ->). rewrite map_app. cbn [map]. rewrite last_snoc. cbn [default].
    apply Forall_app in HF as [_ HF]. inversion_clear HF as [|? ? [H1 _] _]. apply section_suffix_dec. lia. }
  rewrite walk_part_at by done. by destruct (part_at root path).
Qed.

Lemma resolveSection_suffix root path s u :
  Forall index_ok path -> "."%char ∉ s -> section_suffix s = Some u ->
  resolveSection root (join #"." (map dec path ++ [s])) = from_option (part_text (Some u)) [] (part_at root path).
Proof.
  intros HF Hs Hu. unfold resolveSection.
  assert (Forall (fun p => "."%char ∉ p) (map dec path ++ [s])) as Hd.
  { apply Forall_app. split; [|by repeat constructor]. clear -HF.
    induction HF as [|i l [H1 H2] _ IH]; constructor; [apply dec_no_dot; lia|exact IH]. }
  rewrite split_join by (done || by destruct (map dec path)).
  rewrite last_snoc. change (default [] (Some s)) with s. rewrite Hu, removelast_last. rewrite walk_part_at by done.
  destruct (part_at root path); [|done]. cbn [from_option part_text].
  unfold section_suffix in Hu. cbv zeta in Hu.
  destruct (str_eqb_spec (to_upper s) #"MIME") as [E|N1]; [injection Hu as <-; by rewrite E|].
  destruct (str_eqb_spec (to_upper s) #"HEADER") as [E|N2]; [injection Hu as <-; by rewrite E|].
  destruct (str_eqb_spec (to_upper s) #"TEXT") as [E|N3]; [injection Hu as <-; by rewrite E|done].
Qed.

(** ** Theorems *)

(** C36. What FETCH gives for BODY and BODYSTRUCTURE is one well-formed list
    whatever the headers of the message hold: a client with the grammar of this
    server's tokenizer reads back the tree of the parts, in order and at their
    depth, with their types, parameters and sizes. *)
Theorem structure_reads {St} (readLiteral : Z -> SM St (option str)) p extended rest st :
  next readLiteral (structure p extended ++ #" " ++ rest) st
  = ((Ok (structure_token p extended), #" " ++ rest), st) /\
  next readLiteral (structure p extended ++ #")" ++ rest) st
  = ((Ok (structure_token p extended), #")" ++ rest), st).
Proof. destruct (reads_structure readLiteral p extended) as [_ H]. split; by apply H. Qed.

(** A section number resolves to the part at that place of the tree, with
    ["MIME"], ["HEADER"] and ["TEXT"] in any case for its header, and the two
    halves of its body; a number for which there is no part gives nothing. *)
Theorem resolveSection_spec root path suffix :
  Forall index_ok path ->
  match suffix with
  | None => path <> []
  | Some s => "."%char ∉ s /\ section_suffix s <> None
  end ->
  resolveSection root (join #"." (map dec path ++ match suffix with Some s => [s] | None => [] end))
  = from_option (part_text (suffix ≫= section_suffix)) [] (part_at root path).
Proof.
  intros HF Hs. destruct suffix as [s|].
  - destruct Hs as [Hd Hu]. cbn [mbind option_bind]. destruct (section_suffix s) as [u|] eqn:E; [|done].
    by apply resolveSection_suffix.
  - rewrite app_nil_r. by apply resolveSection_path.
Qed.

Definition example_leaf (body : str) : mimePart := mkPart #"TEXT" #"HTML" ∅ #"7BIT" [] [] #"H" body [].
Definition example_tree : mimePart :=
  mkPart #"MULTIPART" #"MIXED" ∅ #"7BIT" [] [] [] #"all"
    [example_leaf #"one"; mkPart #"MULTIPART" #"ALTERNATIVE" ∅ #"7BIT" [] [] [] #"two" [example_leaf #"deep"]].

Lemma resolveSection_spec_witness :
  resolveSection example_tree #"2.1" = #"deep" /\ resolveSection example_tree #"1.mime" = #"H".
Proof.
  split.
  - apply (resolveSection_spec example_tree [2; 1] None); [|discriminate].
    repeat constructor; unfold index_ok; lia.
  - apply (resolveSection_spec example_tree [1] (Some #"mime")).
    + repeat constructor; unfold index_ok; lia.
    + split; [|discriminate]. apply (bool_decide_unpack _). vm_compute. exact I.
Defined.
