(* ===== verification/ImapFetch.v ===== *)
(** * FETCH, SEARCH and LIST data (internal/imap/fetch.go, session.go, quota.go)

    What is computed for a message: the data items of FETCH, the criteria of
    SEARCH, mailbox name patterns.  A selected message is denoted by its index
    in the snapshot.  Message headers are parsed by [net/mail], a parameter;
    [zone] is the offset of the server's time zone at an instant. *)

From S2P Require Import Prelude GoStrings GoOS GoTime MaildirFlags Maildir ImapParse ImapMime.

(** ** Selecting messages *)

Definition last_uid (msgs : list Message) : Z := match last msgs with Some m => mUID m | None => 0 end.

(** Whether a message of the snapshot is in the set. *)
Definition in_set (set : seqSet) (uidMode : bool) (msgs : list Message) (m : Message) : bool :=
  if uidMode then contains set (mUID m) (last_uid msgs)
  else contains set (mSeq m) (u32 (Z.of_nat (length msgs))).

Definition selected (set : seqSet) (uidMode : bool) (mb : Mailbox) : list nat :=
  let msgs := bxMessages mb in
  List.filter (fun i => match msgs !! i with Some m => in_set set uidMode msgs m | None => false end)
              (seq 0 (length msgs)).

(** ** FETCH items *)

(** Items with a literal go last. *)
Definition has_literal (it : str) : bool := GoStrings.contains CRLF it.
Definition literalsLast (items : list str) : list str :=
  List.filter (fun it => negb (has_literal it)) items ++ List.filter has_literal items.

(** The loop of [splitItems]: [cur] is [spec[start:i]]. *)
Fixpoint split_loop (s cur : str) (depth : Z) : list str :=
  match s with
  | [] => match cur with [] => [] | _ => [cur] end
  | c :: r =>
      if Ascii.eqb c "[" || Ascii.eqb c "(" then split_loop r (cur ++ [c]) (depth + 1)
      else if Ascii.eqb c "]" || Ascii.eqb c ")" then split_loop r (cur ++ [c]) (depth - 1)
      else if Ascii.eqb c SP && (depth =? 0) then
        match cur with [] => split_loop r [] depth | _ => cur :: split_loop r [] depth end
      else split_loop r (cur ++ [c]) depth
  end.
Definition splitItems (spec : str) : list str :=
  split_loop (trim_suffix #")" (trim_prefix #"(" (trim_space spec))) [] 0.

(** [fieldList]: the names in the parentheses. *)
Definition fieldList (section : str) : list str :=
  match index_byte "(" section, last_index_byte ")" section with
  | Some o, Some c =>
      if Nat.leb c o then []
      else map (fun f => to_lower (trim [DQ] f)) (fields (take (c - S o) (drop (S o) section)))
  | _, _ => []
  end.

(** [strings.SplitAfter(s, "\n")]. *)
Fixpoint split_after (c : ascii) (s : str) : list str :=
  match s with
  | [] => [[]]
  | x :: r =>
      if Ascii.eqb x c then [x] :: split_after c r
      else match split_after c r with h :: t => (x :: h) :: t | [] => [[x]] end
  end.

(** The loop of [filterHeaders] over the lines. *)
Fixpoint filter_lines (want : list str) (exclude keeping : bool) (lines : list str) : str :=
  match lines with
  | [] => []
  | line :: r =>
      let trimmed := trim_right CRLF line in
      if trimmed =s [] then filter_lines want exclude keeping r
      else
        match line with
        | [] => filter_lines want exclude keeping r
        | c :: _ =>
            if Ascii.eqb c SP || Ascii.eqb c TAB then
              (if keeping then line else []) ++ filter_lines want exclude keeping r
            else
              let '(name, _, _) := cut ":" trimmed in
              let keeping := xorb (existsb (str_eqb (to_lower (trim_space name))) want) exclude in
              (if keeping then line else []) ++ filter_lines want exclude keeping r
        end
  end.
Definition filterHeaders (data : str) (fields : list str) (exclude : bool) : str :=
  filter_lines fields exclude false (split_after LF (headerOf data)) ++ CRLF.

(** A partial [<offset>] or [<offset.length>], and the text of the item. *)
Definition body_item (section rest content : str) : str :=
  if has_prefix #"<" rest && has_suffix #">" rest then
    let '(offStr, lenStr, hasLen) := cut "." (drop 1 (take (length rest - 1) rest)) in
    let off := match parse_int offStr with Some n => if n <? 0 then 0 else n | None => 0 end in
    let content := if Z.of_nat (length content) <=? off then [] else drop (Z.to_nat off) content in
    let content :=
      if hasLen : bool then
        match parse_int lenStr with
        | Some n => if (0 <=? n) && (n <? Z.of_nat (length content)) then take (Z.to_nat n) content else content
        | None => content
        end
      else content in
    #"BODY[" ++ section ++ #"]<" ++ dec off ++ #"> " ++ literal content
  else #"BODY[" ++ section ++ #"] " ++ literal content.

Definition flags_item (m : Message) : str := #"FLAGS (" ++ join [SP] (IMAPFlags (mFlags m) (mRecent m)) ++ #")".

(** [net/mail]: the value of a field and the addresses (name and address) in
    it, of a message whose header could be read. *)
Record mail_header := mkHeader {
  hGet : str -> str;
  hAddressList : str -> option (list (str * str)) }.

Definition nil_or_quote (v : str) : str := if v =s [] then #"NIL" else quote v.

Definition address_text (a : str * str) : str :=
  let '(local, domain, _) := cut "@" a.2 in
  #"(" ++ nil_or_quote a.1 ++ #" NIL " ++ quote local ++ #" " ++ quote domain ++ #")".
Definition addrList (h : mail_header) (key : str) : str :=
  match hAddressList h key with
  | None | Some [] => #"NIL"
  | Some l => #"(" ++ concat (map address_text l) ++ #")"
  end.

Section Items.
Context (ReadMessage : str -> option mail_header).
Context (parseMessage : str -> mimePart).
Context (zone : Z -> Z).

Definition envelope_text (h : mail_header) : str :=
  let from := addrList h #"From" in
  let sender := addrList h #"Sender" in
  let replyTo := addrList h #"Reply-To" in
  let sender := if sender =s #"NIL" then from else sender in
  let replyTo := if replyTo =s #"NIL" then from else replyTo in
  #"(" ++ join [SP]
    [nil_or_quote (hGet h #"Date"); nil_or_quote (hGet h #"Subject"); from; sender; replyTo;
     addrList h #"To"; addrList h #"Cc"; addrList h #"Bcc";
     nil_or_quote (hGet h #"In-Reply-To"); nil_or_quote (hGet h #"Message-ID")] ++ #")".

(** A file that cannot be read is [NIL]. *)
Definition envelope (m : Message) : M str :=
  r ← try (Read m);
  mret (match r with
        | Err _ => #"NIL"
        | Ok data => match ReadMessage data with Some h => envelope_text h | None => #"NIL" end
        end).

Definition bodyStructure (m : Message) (extended : bool) : M str :=
  r ← try (Read m);
  mret (match r with Err _ => #"NIL" | Ok data => structure (parseMessage data) extended end).

Definition section_text (data section : str) : str :=
  let up := to_upper (trim_space section) in
  if up =s [] then data
  else if up =s #"HEADER" then headerOf data
  else if up =s #"TEXT" then bodyOf data
  else if has_prefix #"HEADER.FIELDS.NOT" up then filterHeaders data (fieldList section) true
  else if has_prefix #"HEADER.FIELDS" up then filterHeaders data (fieldList section) false
  else resolveSection (parseMessage data) section.

Definition section (m : Message) (sec : str) : M str :=
  r ← try (Read m); mret (match r with Err _ => [] | Ok data => section_text data sec end).

Definition fetchBody (m : Message) (item : str) : M str :=
  match index_byte "[" item, index_byte "]" item with
  | Some o, Some c =>
      if Nat.ltb c o then mret (#"BODY[] " ++ literal [])
      else
        let sec := take (c - S o) (drop (S o) item) in
        content ← section m sec;
        mret (body_item sec (drop (S c) item) content)
  | _, _ => mret (#"BODY[] " ++ literal [])
  end.

(** The bytes of the file, none on error. *)
Definition read_or_empty (m : Message) : M str :=
  r ← try (Read m); mret (match r with Ok data => data | Err _ => [] end).

Definition internaldate (m : Message) : str :=
  #"INTERNALDATE " ++ quote (format_internal (zone (mInternal m)) (mInternal m)).
Definition size_item (m : Message) : str := #"RFC822.SIZE " ++ dec (mSize m).

(** One item: what it adds, whether it marks the message as seen and whether
    it asks for the UID. *)
Definition fetch_item (m : Message) (item : str) : M (list str * bool * bool) :=
  let up := to_upper item in
  if (up =s #"ALL") || (up =s #"FAST") || (up =s #"FULL") then
    env ← (if up =s #"FAST" then mret [] else e ← envelope m; mret [ #"ENVELOPE " ++ e]);
    bod ← (if up =s #"FULL" then b ← bodyStructure m false; mret [ #"BODY " ++ b] else mret []);
    mret ([flags_item m; internaldate m; size_item m] ++ env ++ bod, false, false)
  else if up =s #"UID" then mret ([], false, true)
  else if up =s #"FLAGS" then mret ([flags_item m], false, false)
  else if up =s #"INTERNALDATE" then mret ([internaldate m], false, false)
  else if up =s #"RFC822.SIZE" then mret ([size_item m], false, false)
  else if up =s #"ENVELOPE" then e ← envelope m; mret ([ #"ENVELOPE " ++ e], false, false)
  else if up =s #"BODYSTRUCTURE" then b ← bodyStructure m true; mret ([ #"BODYSTRUCTURE " ++ b], false, false)
  else if up =s #"BODY" then b ← bodyStructure m false; mret ([ #"BODY " ++ b], false, false)
  else if up =s #"RFC822" then data ← read_or_empty m; mret ([ #"RFC822 " ++ literal data], true, false)
  else if up =s #"RFC822.HEADER" then
    data ← read_or_empty m; mret ([ #"RFC822.HEADER " ++ literal (headerOf data)], false, false)
  else if up =s #"RFC822.TEXT" then
    data ← read_or_empty m; mret ([ #"RFC822.TEXT " ++ literal (bodyOf data)], true, false)
  else if has_prefix #"BODY.PEEK[" up then b ← fetchBody m item; mret ([b], false, false)
  else if has_prefix #"BODY[" up then b ← fetchBody m item; mret ([b], true, false)
  else mret ([], false, false).

Fixpoint fetch_loop (m : Message) (items out : list str) (markSeen needUID : bool) : M (list str * bool) :=
  match items with
  | [] => mret (out ++ (if needUID then [ #"UID " ++ dec (mUID m)] else []), markSeen)
  | it :: r =>
      x ← fetch_item m it;
      let '(o, seen, uid) := x in
      fetch_loop m r (out ++ o) (markSeen || seen) (needUID || uid)
  end.
Definition fetchItems (m : Message) (spec : str) (uidMode : bool) : M (list str * bool) :=
  fetch_loop m (splitItems spec) [] false uidMode.

(** ** SEARCH *)

Definition containsHeader (data name value : str) : bool :=
  match ReadMessage data with
  | None => false
  | Some h =>
      let got := hGet h name in
      if value =s [] then negb (got =s []) else GoStrings.contains (to_lower value) (to_lower got)
  end.

(** The keys that look at flags only: whether the message passes. *)
Definition flag_criterion (key : str) (m : Message) : option bool :=
  let has f := Has (mFlags m) f in
  if key =s #"ALL" then Some true
  else if key =s #"ANSWERED" then Some (has FlagAnswered)
  else if key =s #"UNANSWERED" then Some (negb (has FlagAnswered))
  else if key =s #"DELETED" then Some (has FlagDeleted)
  else if key =s #"UNDELETED" then Some (negb (has FlagDeleted))
  else if key =s #"DRAFT" then Some (has FlagDraft)
  else if key =s #"UNDRAFT" then Some (negb (has FlagDraft))
  else if key =s #"FLAGGED" then Some (has FlagFlagged)
  else if key =s #"UNFLAGGED" then Some (negb (has FlagFlagged))
  else if key =s #"SEEN" then Some (has FlagSeen)
  else if key =s #"UNSEEN" then Some (negb (has FlagSeen))
  else if key =s #"NEW" then Some (mRecent m && negb (has FlagSeen))
  else if key =s #"OLD" then Some (negb (mRecent m))
  else if key =s #"RECENT" then Some (mRecent m)
  else None.

(** [strconv.ParseInt] with its error ignored: 0 for what is not a number, the
    nearest bound for one out of range. *)
Definition parse_int_or (s : str) : Z :=
  match s with
  | [] => 0
  | c :: r =>
      let '(neg, ds) := if Ascii.eqb c "-" then (true, r)
                        else if Ascii.eqb c "+" then (false, r) else (false, s) in
      match ds, digits_value 0 ds with
      | _ :: _, Some n =>
          let z := if neg : bool then - Z.of_N n else Z.of_N n in
          Z.max (- 2 ^ 63) (Z.min (2 ^ 63 - 1) z)
      | _, _ => 0
      end
  end.

#[export] Instance civil_eq_dec : EqDecision civil.
Proof. solve_decision. Defined.
Definition sameDay (t d : Z) : bool := bool_decide (date_of (zone t) t = date_of 0 d).

Definition date_criterion (key : str) (m : Message) (arg : str) : bool :=
  match parse_date (trim [DQ] arg) with
  | None => false
  | Some d =>
      let mt := truncate_day (mInternal m) in
      if key =s #"BEFORE" then mt <? d
      else if key =s #"SINCE" then negb (mt <? d)
      else sameDay (mInternal m) d
  end.

(** The argument of a criterion: the next token, if there is one. *)
Definition arg (rest : list token) : str * list token :=
  match rest with t :: r => (tkStr t, r) | [] => ([], []) end.

(** The message, read once. *)
Definition load (m : Message) (data : option str) : M (str * option str) :=
  match data with
  | Some d => mret (d, data)
  | None => r ← try (Read m); mret (match r with Ok d => (d, Some d) | Err _ => ([], None) end)
  end.

Fixpoint matches_fuel (fuel : nat) (msgs : list Message) (m : Message) (crit : list token) (data : option str) : M bool :=
  match fuel, crit with
  | S f, t :: r =>
      let key := upper t in
      match flag_criterion key m with
      | Some pass => if pass then matches_fuel f msgs m r data else mret false
      | None =>
          let and_then (pass : bool) r data := if pass then matches_fuel f msgs m r data else mret false in
          if existsb (str_eqb key) [ #"FROM"; #"TO"; #"CC"; #"BCC"; #"SUBJECT"] then
            x ← load m data;
            let '(a, r) := arg r in and_then (containsHeader x.1 key a) r x.2
          else if key =s #"HEADER" then
            let '(name, r) := arg r in
            let '(value, r) := arg r in
            x ← load m data; and_then (containsHeader x.1 name value) r x.2
          else if key =s #"BODY" then
            x ← load m data;
            let '(a, r) := arg r in
            and_then (GoStrings.contains (to_lower a) (to_lower (bodyOf x.1))) r x.2
          else if key =s #"TEXT" then
            x ← load m data;
            let '(a, r) := arg r in
            and_then (GoStrings.contains (to_lower a) (to_lower x.1)) r x.2
          else if key =s #"LARGER" then
            let '(a, r) := arg r in and_then (parse_int_or a <? mSize m) r data
          else if key =s #"SMALLER" then
            let '(a, r) := arg r in and_then (mSize m <? parse_int_or a) r data
          else if existsb (str_eqb key) [ #"BEFORE"; #"SINCE"; #"ON"] then
            let '(a, r) := arg r in and_then (date_criterion key m a) r data
          else if key =s #"UID" then
            let '(a, r) := arg r in
            and_then (match parseSeqSet a with Some set => contains set (mUID m) (last_uid msgs) | None => false end) r data
          else if key =s #"NOT" then
            match r with
            | t' :: r => b ← matches_fuel f msgs m [t'] None; and_then (negb b) r data
            | [] => mret true
            end
          else
            and_then (match parseSeqSet (tkStr t) with
                      | Some set => contains set (mSeq m) (u32 (Z.of_nat (length msgs)))
                      | None => true
                      end) r data
      end
  | _, _ => mret true
  end.
(** Each step takes a criterion; [NOT] goes one deeper for the next. *)
Definition matches (msgs : list Message) (m : Message) (crit : list token) : M bool :=
  matches_fuel (S (S (length crit))) msgs m crit None.

Fixpoint search_loop (all l : list Message) (crit : list token) : M (list Message) :=
  match l with
  | [] => mret []
  | m :: r => b ← matches all m crit; out ← search_loop all r crit; mret (if b : bool then m :: out else out)
  end.
Definition search (mb : Mailbox) (crit : list token) : M (list Message) :=
  search_loop (bxMessages mb) (bxMessages mb) crit.
End Items.

(** ** Mailbox names *)

Definition normalizeMailbox (name : str) : str :=
  let name := trim_space name in
  if equal_fold name Inbox then Inbox else trim #"." name.

Fixpoint wildcard (pat s : str) : bool :=
  match pat with
  | [] => match s with [] => true | _ => false end
  | c :: p =>
      if Ascii.eqb c "*" then
        match p with
        | [] => true
        | _ => (fix any (s : str) := wildcard p s || match s with [] => false | _ :: r => any r end) s
        end
      else if Ascii.eqb c "%" then
        (fix any (s : str) :=
           wildcard p s || match s with [] => false | x :: r => if Ascii.eqb x "." then false else any r end) s
      else match s with
           | x :: r => if Ascii.eqb x c then wildcard p r else false
           | [] => false
           end
  end.
Definition matchPattern (pattern name : str) : bool :=
  if pattern =s [] then name =s []
  else if equal_fold pattern name then true
  else wildcard pattern name.

(** ** Quota *)

Definition kib (b : Z) : Z := if b <? 0 then 0 else (b + 1023) / 1024.
