(* ===== verification/ImapFetchProps.v ===== *)
(** * Properties of FETCH, SEARCH and LIST data

    Mailbox patterns match as their relational definition says; the pieces a
    client fetches one by one make up the whole; a message stored with an
    internal date reports that date. *)

From S2P Require Import Prelude GoStrings GoOS GoTime StateM MaildirFlags Maildir ImapParse ImapMime ImapMimeProps ImapFetch.

(** ** Patterns *)

(** ["*"] stands for any text, ["%"] for any text without the delimiter. *)
Inductive glob : str -> str -> Prop :=
| glob_nil : glob [] []
| glob_star p x s : glob p s -> glob ("*"%char :: p) (x ++ s)
| glob_percent p x s : "."%char ∉ x -> glob p s -> glob ("%"%char :: p) (x ++ s)
| glob_char c p s : c <> "*"%char -> c <> "%"%char -> glob p s -> glob (c :: p) (c :: s).

Definition any_tail (f : str -> bool) : str -> bool :=
  fix any (s : str) := f s || match s with [] => false | _ :: r => any r end.
Definition any_undotted_tail (f : str -> bool) : str -> bool :=
  fix any (s : str) := f s || match s with [] => false | x :: r => if Ascii.eqb x "." then false else any r end.

Lemma any_tail_spec f s : any_tail f s = true <-> exists x y, s = x ++ y /\ f y = true.
Proof.
  split.
  - induction s as [|c s IH]; cbn [any_tail]; [rewrite orb_false_r; intros H; by exists [], []|].
    intros [H|H]%orb_true_iff; [by exists [], (c :: s)|]. destruct (IH H) as (x & y & -> & Hy). by exists (c :: x), y.
  - intros (x & y & -> & Hy). induction x as [|c x IH]; [destruct y; cbn [app any_tail]; by rewrite Hy|].
    cbn [app any_tail]. fold (any_tail f). by rewrite IH, orb_true_r.
Qed.

Lemma any_undotted_tail_spec f s :
  any_undotted_tail f s = true <-> exists x y, s = x ++ y /\ "."%char ∉ x /\ f y = true.
Proof.
  split.
  - induction s as [|c s IH]; cbn [any_undotted_tail];
      [rewrite orb_false_r; intros H; exists [], []; split_and!; [done|set_solver|done]|].
    intros [H|H]%orb_true_iff; [exists [], (c :: s); split_and!; [done|set_solver|done]|].
    destruct (Ascii.eqb_spec c "."); [done|]. destruct (IH H) as (x & y & -> & Hx & Hy).
    exists (c :: x), y. split_and!; [done|set_solver|done].
  - intros (x & y & -> & Hx & Hy). induction x as [|c x IH]; [destruct y; cbn [app any_undotted_tail]; by rewrite Hy|].
    rewrite not_elem_of_cons in Hx. destruct Hx as [Hc Hx]. cbn [app any_undotted_tail]. fold (any_undotted_tail f).
    destruct (Ascii.eqb_spec c "."); [congruence|]. by rewrite IH, orb_true_r.
Qed.

Lemma wildcard_cons c p s : wildcard (c :: p) s =
  if Ascii.eqb c "*" then match p with [] => true | _ => any_tail (wildcard p) s end
  else if Ascii.eqb c "%" then any_undotted_tail (wildcard p) s
  else match s with x :: r => if Ascii.eqb x c then wildcard p r else false | [] => false end.
Proof. destruct p; reflexivity. Qed.

(** The recursive matcher of LIST decides the meaning of patterns: ["*"]
    crosses hierarchy delimiters, ["%"] stops at them, all else is literal. *)
Theorem wildcard_spec p s : wildcard p s = true <-> glob p s.
Proof.
  split.
  - revert s. induction p as [|c p IH]; intros s.
    + destruct s; [constructor|done].
    + rewrite wildcard_cons. destruct (Ascii.eqb_spec c "*") as [->|Hs]; [|destruct (Ascii.eqb_spec c "%") as [->|Hp]].
      * intros H. assert (exists x y, s = x ++ y /\ wildcard p y = true) as (x & y & -> & Hy).
        { destruct p as [|c p]; [exists s, []; by rewrite app_nil_r|by apply any_tail_spec in H]. }
        by apply glob_star, IH.
      * intros (x & y & -> & Hx & Hy)%any_undotted_tail_spec. by apply glob_percent, IH.
      * destruct s as [|x r]; [done|]. destruct (Ascii.eqb_spec x c) as [->|]; [|done]. intros H. by apply glob_char, IH.
  - induction 1 as [|p x s _ IH|p x s Hx _ IH|c p s Hs Hp _ IH]; [done|rewrite wildcard_cons..].
    + destruct p as [|c p]; [done|]. apply any_tail_spec. by exists x, s.
    + apply any_undotted_tail_spec. by exists x, s.
    + destruct (Ascii.eqb_spec c "*"); [done|]. destruct (Ascii.eqb_spec c "%"); [done|]. by rewrite Ascii.eqb_refl.
Qed.

(** ** Fetching in pieces *)

Definition partial_item (off n : Z) : str := #"<" ++ dec off ++ #"." ++ dec n ++ #">".

Lemma partial_bounds off n : 0 <= off -> 0 <= n ->
  has_prefix #"<" (partial_item off n) = true /\ has_suffix #">" (partial_item off n) = true /\
  drop 1 (take (length (partial_item off n) - 1) (partial_item off n)) = dec off ++ #"." ++ dec n.
Proof.
  intros Ho Hn. split; [done|].
  assert (partial_item off n = (#"<" ++ dec off ++ #"." ++ dec n) ++ #">") as -> by (unfold partial_item; by rewrite <- !app_assoc).
  split; [apply has_suffix_app|]. rewrite length_app. cbn [length].
  rewrite take_app_length' by (change (length (#">")) with 1%nat; lia). done.
Qed.

(** One piece: its origin is echoed and the text is the bytes asked for, as
    far as there are any. *)
Lemma body_item_partial sec content off n : 0 <= off < 2 ^ 63 -> 0 <= n < 2 ^ 63 ->
  body_item sec (partial_item off n) content =
  #"BODY[" ++ sec ++ #"]<" ++ dec off ++ #"> " ++ literal (take (Z.to_nat n) (drop (Z.to_nat off) content)).
Proof.
  intros Ho Hn. destruct (partial_bounds off n) as (Hp & Hs & Hm); [lia..|]. unfold body_item. rewrite Hp, Hs. cbn [andb].
  rewrite Hm. change (#"." ++ dec n) with ("."%char :: dec n). rewrite cut_app by (apply dec_no_dot; lia).
  rewrite !parse_int_dec by lia. destruct (Z.ltb_spec off 0); [lia|].
  assert ((if Z.of_nat (length content) <=? off then [] else drop (Z.to_nat off) content) = drop (Z.to_nat off) content) as ->.
  { destruct (Z.leb_spec (Z.of_nat (length content)) off); [|done]. symmetry. apply drop_ge. lia. }
  cbv iota. do 5 f_equal. destruct (Z.leb_spec 0 n); [|lia]. cbn [andb].
  destruct (Z.ltb_spec n (Z.of_nat (length (drop (Z.to_nat off) content)))); [done|]. by rewrite take_ge by lia.
Qed.

Lemma pieces_concat {A} (l : list A) n k :
  concat (map (fun i => take n (drop (i * n) l)) (seq 0 k)) = take (k * n) l.
Proof.
  induction k as [|k IH]; [done|]. rewrite seq_S, map_app, concat_app, IH. cbn [map concat Nat.add]. rewrite app_nil_r.
  replace (S k * n)%nat with (k * n + n)%nat by lia. by rewrite take_drop_app || rewrite <- take_take_drop.
Qed.

(** A client that fetches a section in pieces of [n] bytes gets each piece
    with its origin, and the pieces put together are the section, without a
    byte lost or repeated, as soon as there are enough of them; what is asked
    for beyond the end is empty. *)
Theorem partial_fetch sec content n k :
  (0 < n)%nat -> Z.of_nat (k * n) < 2 ^ 63 -> (length content <= k * n)%nat ->
  (forall i, (i < k)%nat ->
     body_item sec (partial_item (Z.of_nat (i * n)) (Z.of_nat n)) content =
     #"BODY[" ++ sec ++ #"]<" ++ dec (Z.of_nat (i * n)) ++ #"> " ++ literal (take n (drop (i * n) content))) /\
  concat (map (fun i => take n (drop (i * n) content)) (seq 0 k)) = content.
Proof.
  intros Hn Hk Hl. split; [|rewrite pieces_concat; by apply take_ge].
  intros i Hi. assert (i * n < k * n /\ n <= k * n)%nat as [H1 H2] by nia.
  rewrite body_item_partial by lia. by rewrite !Nat2Z.id.
Qed.

Lemma partial_fetch_witness :
  body_item #"TEXT" #"<3.3>" #"Hello" = #"BODY[TEXT]<3> {2}" ++ CRLF ++ #"lo" /\
  #"Hel" ++ #"lo" = #"Hello".
Proof.
  destruct (partial_fetch #"TEXT" #"Hello" 3 2) as [H1 H2]; [lia|simpl; lia|simpl; lia|].
  split; [exact (H1 1%nat ltac:(lia))|exact H2].
Defined.

(** ** Internal dates *)

(** The INTERNALDATE of a message, given back in an APPEND, is read as the
    same instant, to the second: quoting, the calendar and the zone of the
    server agree. *)
Theorem internaldate_roundtrip {St} (readLiteral : Z -> SM St (option str)) zone m rest st :
  Z.abs (zone (mInternal m)) <= 24 * 3600 -> zone (mInternal m) mod 60 = 0 ->
  0 <= cYear (date_of (zone (mInternal m)) (mInternal m)) < 10000 ->
  exists text,
    next readLiteral (drop (length #"INTERNALDATE ") (internaldate zone m) ++ rest) st = ((Ok (word text), rest), st) /\
    parse_internal text = Some (mInternal m / second * second).
Proof.
  intros Ho Hm Hy. exists (format_internal (zone (mInternal m)) (mInternal m)). split.
  - unfold internaldate. rewrite drop_app_length. apply next_quote.
  - by apply parse_format_internal.
Qed.

Definition dated (t : Z) : Message := mkMessage 1 1 [] [] [] false 0 t [] [].

(** 29 February 2024, 23:30 UTC, in a zone two hours and a half to the east. *)
Lemma internaldate_roundtrip_witness :
  internaldate (fun _ => 9000) (dated 1709249400000000000) = #"INTERNALDATE " ++ quote #"01-Mar-2024 02:00:00 +0230" /\
  exists text,
    next (fun _ => mret None : SM unit (option str))
      (drop (length #"INTERNALDATE ") (internaldate (fun _ => 9000) (dated 1709249400000000000)) ++ #")") tt
      = ((Ok (word text), #")"), tt) /\
    parse_internal text = Some (1709249400000000000 / second * second).
Proof.
  split; [vm_compute; reflexivity|].
  apply (internaldate_roundtrip (fun _ => mret None : SM unit (option str)) (fun _ => 9000) (dated 1709249400000000000) #")" tt).
  - cbn. lia.
  - vm_compute. reflexivity.
  - vm_compute. split; [discriminate|reflexivity].
Defined.

(** ** Smaller facts *)

Lemma literalsLast_permutation items : Permutation (literalsLast items) items.
Proof.
  unfold literalsLast. induction items as [|it items IH]; [done|]. cbn [List.filter].
  destruct (has_literal it); cbn [negb app]; [|by constructor]. rewrite <- Permutation_middle. by constructor.
Qed.

Lemma arg_length r : (length (arg r).2 <= length r)%nat.
Proof. destruct r; simpl; lia. Qed.

(** The fuel of [matches] is enough: more gives the same. *)
Lemma matches_more ReadMessage zone msgs m : forall f f' crit data w,
  (length crit < f)%nat -> (length crit < f')%nat ->
  matches_fuel ReadMessage zone f msgs m crit data w = matches_fuel ReadMessage zone f' msgs m crit data w.
Proof.
  induction f as [|f IH]; intros f' crit data w Hf Hf'; [lia|]. destruct f' as [|f']; [lia|].
  destruct crit as [|t r]; [done|]. cbn [length] in *. cbn [matches_fuel]. cbv zeta.
  assert (forall (pass : bool) r' data' w', (length r' <= length r)%nat ->
    (if pass then matches_fuel ReadMessage zone f msgs m r' data' else mret false) w'
    = (if pass then matches_fuel ReadMessage zone f' msgs m r' data' else mret false) w') as HA.
  { intros [] r' data' w' Hr; [|done]. apply IH; lia. }
  pose proof (arg_length r) as H1.
  destruct (flag_criterion (upper t) m) as [pass|]; [by apply HA|].
  destruct (arg r) as [a r1] eqn:Ea. cbn [snd] in H1. pose proof (arg_length r1) as H2. destruct (arg r1) as [b r2]. cbn [snd] in H2.
  repeat match goal with |- (if ?c then _ else _) _ = (if ?c then _ else _) _ => destruct c end;
    unfold mbind, M_bind; try (destruct (load m data w) as [[x|e] w']; [|done]); try (apply HA; lia); try (apply IH; lia); try done.
  destruct r as [|t' r']; [done|]. cbn [length] in *. rewrite (IH f') by (cbn [length]; lia).
  destruct (matches_fuel ReadMessage zone f' msgs m [t'] None w) as [[b'|e] w']; [|done]. apply HA. lia.
Qed.

(** Searching for a date with one digit for the day finds nothing, though the
    grammar of IMAP allows it. *)
Example one_digit_day : parse_date #"1-Mar-2024" = None /\ parse_date #"01-Mar-2024" <> None.
Proof. split; [vm_compute; reflexivity|by vm_compute]. Qed.

(** The space-padded day of an APPEND is not read either. *)
Example padded_day : parse_internal #" 1-Mar-2024 10:00:00 +0000" = None.
Proof. vm_compute. reflexivity. Qed.

(** [NOT] negates a key without its argument, and [OR] is taken for nothing. *)
Definition header_of (from : str) : mail_header := mkHeader (fun k => if k =s #"FROM" then from else []) (fun _ => None).
Definition search_world : world :=
  mkWorld {[ [ #"u"; #"new"; #"a"] := mkFile #"mail" 0 ]} ∅ [] 0 [] [] 0 0 [].
Definition found_message : Message := mkMessage 1 1 #"a" #"new" [] false 4 0 [ #"u"] Inbox.
Example search_not_from :
  let run crit := (matches (fun _ => Some (header_of #"carol")) (fun _ => 0) [found_message] found_message crit search_world).1 in
  run [word #"NOT"; word #"FROM"; word #"bob"] = Ok false /\
  run [word #"OR"; word #"FROM"; word #"bob"; word #"FROM"; word #"carol"] = Ok false.
Proof. vm_compute. by split. Qed.
