(* ===== verification/Imap.v ===== *)
(** * The IMAP server (internal/imap/session.go, fetch.go, quota.go)

    A session: its state machine, TLS, and the commands over Maildir folders.
    The open mailbox and the messages selected from it are shared by reference
    in the code; here the session holds the snapshot and messages are indices
    into it, so what one step changes the next one sees.  Output through the
    buffered writer is recorded line by line, without the final CRLF.  While
    the session idles, ticks interleave with what other processes do to the
    disk.  [Authenticate], [Quota], the TLS handshake and the parsers of
    [net/mail] and MIME are parameters; log lines are left out. *)

From S2P Require Import Prelude GoStrings GoOS GoNet GoTime StateM Base64 MaildirFlags Maildir ImapParse ImapMime ImapFetch.

Record Settings := mkSettings { iHostname : str; iTLS : bool; iImplicitTLS : bool; iMaxSize : Z }.

Definition bufSize : nat := Z.to_nat 4096.
Definition maxLine : nat := Z.to_nat 8192.

Inductive phase := NotAuthenticated | Authenticated | Selected.
#[export] Instance phase_eq_dec : EqDecision phase.
Proof. solve_decision. Defined.

Record session := mkSession {
  isState : phase;
  isTls : bool;
  isUser : str;
  isRoot : str;
  isMbox : option Mailbox;
  isReadOnly : bool }.

(** What ends a wait while idling: a tick, after others changed the disk; the
    end of the idle window, when the given number of segments has come in;
    the client's input. *)
Inductive idle_event := Tick (others : world -> world) | Deadline (segments : nat) | Input.

Record state := mkState {
  imSess : session;
  imConn : conn;
  imSet : Settings;
  imWorld : world;
  imIdle : list idle_event }.

Definition newSession (set : Settings) : session :=
  mkSession NotAuthenticated (iImplicitTLS set) [] [] None false.

Abbreviation IM := (SM state).

Definition sess : IM session := fun st => (imSess st, st).
Definition set_sess (f : session -> session) : IM unit := fun st =>
  (tt, mkState (f (imSess st)) (imConn st) (imSet st) (imWorld st) (imIdle st)).
Definition settings : IM Settings := fun st => (imSet st, st).
Definition on_conn {A} (f : conn -> A * conn) : IM A := fun st =>
  let '(a, c) := f (imConn st) in (a, mkState (imSess st) c (imSet st) (imWorld st) (imIdle st)).
(** A block on the file system. *)
Definition on_disk {A} (m : M A) : IM (result error A) := fun st =>
  let '(r, w) := m (imWorld st) in (r, mkState (imSess st) (imConn st) (imSet st) w (imIdle st)).

(** [out] and [raw]: the first reports whether the write succeeded. *)
Definition out (line : str) : IM bool := on_conn (write_lines [line]).
Definition send (line : str) : IM unit := _ ← out line; mret tt.

Definition readLine : IM (option str) :=
  '(line, good) ← on_conn (fun c => let '(l, good, rd) := ReadString bufSize (cnReader c) in ((l, good), with_reader rd c));
  mret (if negb good then None
        else if Nat.ltb maxLine (length line) then None
        else Some (trim_right CRLF line)).

Definition readLiteral (n : Z) : IM (option str) :=
  set ← settings;
  if iMaxSize set <? n then mret None
  else
    good ← out #"+ ready for literal";
    if negb good then mret None
    else on_conn (fun c => let '(r, rd) := ReadFull (Z.to_nat n) bufSize (cnReader c) in (r, with_reader rd c)).

Definition next_token (p : str) : IM (result parse_error token * str) := next readLiteral p.

(** [t, err := p.next(); if err != nil] with the error branch first. *)
Definition with_token (p : str) (bad : IM unit) (f : token -> str -> IM unit) : IM unit :=
  '(t, p) ← next_token p; match t with Err _ => bad | Ok t => f t p end.

Section Handlers.
Context (Authenticate : str -> str -> M str).
Context (Quota : option (str -> Z * Z)).
Context (handshake : list str -> option (list str)).
Context (ReadMessage : str -> option mail_header).
Context (parseMessage : str -> mimePart).
Context (zone : Z -> Z).

Definition capabilities (s : session) (set : Settings) : str :=
  join [SP] ([ #"IMAP4rev1"; #"IDLE"; #"UIDPLUS"; #"MOVE"; #"NAMESPACE"; #"CHILDREN"; #"SPECIAL-USE"]
    ++ (match Quota with Some _ => [ #"QUOTA"] | None => [] end)
    ++ (if negb (isTls s) && iTLS set then [ #"STARTTLS"] else [])
    ++ (if negb (isTls s) then [ #"LOGINDISABLED"]
        else if decide (isState s = NotAuthenticated) then [ #"AUTH=PLAIN"; #"AUTH=LOGIN"] else [])).

Definition requireAuth (tag : str) (fn : IM unit) : IM unit :=
  s ← sess;
  if decide (isState s = NotAuthenticated) then send (tag ++ #" NO not authenticated") else fn.

(** Runs on the open mailbox; there is one whenever the state is selected. *)
Definition requireSelected (tag : str) (fn : Mailbox -> IM unit) : IM unit :=
  s ← sess;
  if decide (isState s = Selected) then
    match isMbox s with Some mb => fn mb | None => mret tt end
  else send (tag ++ #" NO no mailbox selected").

Definition set_mbox (mb : Mailbox) : IM unit :=
  set_sess (fun s => mkSession (isState s) (isTls s) (isUser s) (isRoot s) (Some mb) (isReadOnly s)).
Definition unselect : IM unit :=
  set_sess (fun s => mkSession Authenticated (isTls s) (isUser s) (isRoot s) None (isReadOnly s)).

(** ** Any state *)

(** [s.mbox.Refresh()]: the snapshot is updated as far as it gets; the new one
    unless there was an error. *)
Definition refresh : IM (option Mailbox) :=
  s ← sess;
  match isMbox s with
  | None => mret None
  | Some mb =>
      r ← on_disk (Refresh mb);
      match r with
      | Ok (mb', e) => _ ← set_mbox mb'; mret (match e with None => Some mb' | Some _ => None end)
      | Err _ => mret None
      end
  end.

Definition pollAndReport : IM unit :=
  s ← sess;
  match isMbox s with
  | None => mret tt
  | Some mb =>
      r ← refresh;
      match r with
      | None => mret tt
      | Some mb' =>
          if Count mb' =? Count mb then mret tt
          else
            _ ← send (#"* " ++ dec (Count mb') ++ #" EXISTS");
            send (#"* " ++ dec (Recent mb') ++ #" RECENT")
      end
  end.

Definition cmdNoop (tag : str) : IM unit :=
  s ← sess;
  _ ← (if decide (isState s = Selected) then pollAndReport else mret tt);
  send (tag ++ #" OK NOOP completed").

(** [true] ends the session. *)
Definition cmdStartTLS (tag : str) : IM bool :=
  set ← settings;
  s ← sess;
  if negb (iTLS set) then _ ← send (tag ++ #" NO TLS not available"); mret false
  else if isTls s then _ ← send (tag ++ #" BAD already in TLS"); mret false
  else
    good ← out (tag ++ #" OK begin TLS negotiation");
    if negb good then mret true
    else
      raw ← on_conn (fun c => (rdIn (cnReader c), c));
      match handshake raw with
      | None => mret true
      | Some clear =>
          _ ← on_conn (fun c => (tt, with_reader (mkReader [] clear) c));
          _ ← set_sess (fun s => mkSession (isState s) true (isUser s) (isRoot s) (isMbox s) (isReadOnly s));
          mret false
      end.

(** ** Authentication *)

Definition authenticate (tag user pass : str) : IM unit :=
  r ← on_disk (Authenticate user pass);
  match r with
  | Err _ => send (tag ++ #" NO [AUTHENTICATIONFAILED] authentication failed")
  | Ok root =>
      _ ← set_sess (fun s => mkSession Authenticated (isTls s) (to_lower user) root (isMbox s) (isReadOnly s));
      _ ← on_disk (EnsureStandardFolders (abs_path root));
      s ← sess;
      set ← settings;
      send (tag ++ #" OK [CAPABILITY " ++ capabilities s set ++ #"] LOGIN completed")
  end.

Definition cmdLogin (tag p : str) : IM unit :=
  s ← sess;
  if negb (isTls s) then send (tag ++ #" NO [PRIVACYREQUIRED] STARTTLS required before LOGIN")
  else if negb (bool_decide (isState s = NotAuthenticated)) then send (tag ++ #" BAD already authenticated")
  else
    '(user, p) ← next_token p;
    '(pass, p) ← next_token p;
    match user, pass with
    | Ok user, Ok pass => authenticate tag (tkStr user) (tkStr pass)
    | _, _ => send (tag ++ #" BAD LOGIN needs a username and a password")
    end.

(** [readResp]: the prompt, and the decoded answer of the client. *)
Definition readResp (tag prompt : str) : IM (option str) :=
  good ← out (#"+ " ++ prompt);
  if negb good then mret None
  else
    line ← readLine;
    match (match line with Some l => if l =s #"*" then None else Some l | None => None end) with
    | None => _ ← send (tag ++ #" BAD authentication cancelled"); mret None
    | Some line =>
        match decode_std (trim_space line) with
        | None => _ ← send (tag ++ #" BAD invalid base64"); mret None
        | Some raw => mret (Some raw)
        end
    end.

(** The PLAIN response: inline or asked for. *)
Definition plain_response (tag p : str) : IM (option str) :=
  '(ir, _) ← next_token p;
  match (match ir with Ok t => if tkStr t =s #"=" then None else Some (tkStr t) | Err _ => None end) with
  | Some ir =>
      match decode_std ir with
      | None => _ ← send (tag ++ #" BAD invalid base64"); mret None
      | Some raw => mret (Some raw)
      end
  | None => readResp tag []
  end.

Definition auth_plain (tag p : str) : IM unit :=
  r ← plain_response tag p;
  match r with
  | None => mret tt
  | Some resp =>
      match GoStrings.split NUL resp with
      | [_; user; pass] =>
          if user =s [] then send (tag ++ #" BAD invalid PLAIN response") else authenticate tag user pass
      | _ => send (tag ++ #" BAD invalid PLAIN response")
      end
  end.
Definition auth_login (tag : str) : IM unit :=
  user ← readResp tag #"VXNlcm5hbWU6";
  match user with
  | None => mret tt
  | Some user =>
      pass ← readResp tag #"UGFzc3dvcmQ6";
      match pass with
      | None => mret tt
      | Some pass => authenticate tag user pass
      end
  end.
Definition cmdAuthenticate (tag p : str) : IM unit :=
  s ← sess;
  if negb (isTls s) then send (tag ++ #" NO [PRIVACYREQUIRED] STARTTLS required before AUTHENTICATE")
  else if negb (bool_decide (isState s = NotAuthenticated)) then send (tag ++ #" BAD already authenticated")
  else
    with_token p (send (tag ++ #" BAD AUTHENTICATE needs a mechanism")) (fun mech p =>
      if upper mech =s #"PLAIN" then auth_plain tag p
      else if upper mech =s #"LOGIN" then auth_login tag
      else send (tag ++ #" NO unsupported authentication mechanism")).

(** ** Mailboxes *)

Definition openMailbox (name : str) : IM (result error Mailbox) :=
  s ← sess; on_disk (OpenMailbox (abs_path (isRoot s)) (normalizeMailbox name)).

Definition select_verb (examine : bool) : str := if examine then #"EXAMINE" else #"SELECT".
Definition standard_flags : str := BSL :: #"Answered " ++ BSL :: #"Flagged " ++ BSL :: #"Deleted " ++ BSL :: #"Seen " ++ BSL :: #"Draft".

Definition select_report (tag : str) (mb : Mailbox) (examine : bool) : list str :=
  [ #"* " ++ dec (Count mb) ++ #" EXISTS"; #"* " ++ dec (Recent mb) ++ #" RECENT"]
  ++ (if 0 <? FirstUnseen mb then [ #"* OK [UNSEEN " ++ dec (FirstUnseen mb) ++ #"] first unseen message"] else [])
  ++ [ #"* FLAGS (" ++ standard_flags ++ #")";
       if examine then #"* OK [PERMANENTFLAGS ()] read-only mailbox"
       else #"* OK [PERMANENTFLAGS (" ++ standard_flags ++ #")] limited";
       #"* OK [UIDVALIDITY " ++ dec (bxUIDValidity mb) ++ #"] UIDs valid";
       #"* OK [UIDNEXT " ++ dec (bxUIDNext mb) ++ #"] predicted next UID";
       tag ++ #" OK [" ++ (if examine then #"READ-ONLY" else #"READ-WRITE") ++ #"] " ++ select_verb examine ++ #" completed"].

Fixpoint send_all (ls : list str) : IM unit :=
  match ls with [] => mret tt | l :: r => _ ← send l; send_all r end.

Definition cmdSelect (tag p : str) (examine : bool) : IM unit :=
  requireAuth tag (with_token p (send (tag ++ #" BAD " ++ select_verb examine ++ #" needs a mailbox name")) (fun name _ =>
    r ← openMailbox (tkStr name);
    match r with
    | Err _ => send (tag ++ #" NO mailbox does not exist")
    | Ok mb =>
        _ ← set_sess (fun s => mkSession Selected (isTls s) (isUser s) (isRoot s) (Some mb) examine);
        send_all (select_report tag mb examine)
    end)).

Definition list_line (verb f : str) : str :=
  #"* " ++ verb ++ #" (" ++ SpecialUse f ++ #") " ++ quote #"." ++ #" " ++ quote f.
Definition cmdList (tag verb p : str) : IM unit :=
  requireAuth tag (
    '(ref, p) ← next_token p;
    '(pat, p) ← next_token p;
    match ref, pat with
    | Ok ref, Ok pat =>
        if tkStr pat =s [] then
          _ ← send (#"* " ++ verb ++ #" (" ++ BSL :: #"Noselect) " ++ quote #"." ++ #" " ++ quote []);
          send (tag ++ #" OK " ++ verb ++ #" completed")
        else
          s ← sess;
          r ← on_disk (Folders (abs_path (isRoot s)));
          match r with
          | Err _ => send (tag ++ #" NO cannot list mailboxes")
          | Ok folders =>
              _ ← send_all (map (list_line verb) (List.filter (matchPattern (tkStr ref ++ tkStr pat)) folders));
              send (tag ++ #" OK " ++ verb ++ #" completed")
          end
    | _, _ => send (tag ++ #" BAD " ++ verb ++ #" needs a reference and a pattern")
    end).

Definition status_item (mb : Mailbox) (it : token) : list str :=
  let u := upper it in
  if u =s #"MESSAGES" then [ #"MESSAGES " ++ dec (Count mb)]
  else if u =s #"RECENT" then [ #"RECENT " ++ dec (Recent mb)]
  else if u =s #"UIDNEXT" then [ #"UIDNEXT " ++ dec (bxUIDNext mb)]
  else if u =s #"UIDVALIDITY" then [ #"UIDVALIDITY " ++ dec (bxUIDValidity mb)]
  else if u =s #"UNSEEN" then [ #"UNSEEN " ++ dec (Unseen mb)]
  else [].

Definition cmdStatus (tag p : str) : IM unit :=
  requireAuth tag (with_token p (send (tag ++ #" BAD STATUS needs a mailbox")) (fun name p =>
    '(items, _) ← next_token p;
    match (match items with Ok t => if tkIsList t then Some t else None | Err _ => None end) with
    | None => send (tag ++ #" BAD STATUS needs an item list")
    | Some items =>
        r ← openMailbox (tkStr name);
        match r with
        | Err _ => send (tag ++ #" NO mailbox does not exist")
        | Ok mb =>
            _ ← send (#"* STATUS " ++ quote (normalizeMailbox (tkStr name)) ++ #" ("
                      ++ join [SP] (concat (map (status_item mb) (tkList items))) ++ #")");
            send (tag ++ #" OK STATUS completed")
        end
    end)).

(** The text of an error in a reply. *)
Definition error_text (e : error) : str := match e with ErrText t => t | _ => #"error" end.

Definition cmdCreate (tag p : str) : IM unit :=
  requireAuth tag (with_token p (send (tag ++ #" BAD CREATE needs a mailbox name")) (fun name _ =>
    s ← sess;
    r ← on_disk (CreateFolder (abs_path (isRoot s)) (normalizeMailbox (tkStr name)));
    match r with
    | Err e => send (tag ++ #" NO " ++ error_text e)
    | Ok _ => send (tag ++ #" OK CREATE completed")
    end)).
Definition cmdDelete (tag p : str) : IM unit :=
  requireAuth tag (with_token p (send (tag ++ #" BAD DELETE needs a mailbox name")) (fun name _ =>
    s ← sess;
    r ← on_disk (DeleteFolder (abs_path (isRoot s)) (normalizeMailbox (tkStr name)));
    match r with
    | Err e => send (tag ++ #" NO " ++ error_text e)
    | Ok _ => send (tag ++ #" OK DELETE completed")
    end)).
Definition cmdSubscribe (tag p : str) : IM unit :=
  requireAuth tag (with_token p (send (tag ++ #" BAD needs a mailbox name")) (fun name _ =>
    r ← openMailbox (tkStr name);
    match r with
    | Err _ => send (tag ++ #" NO mailbox does not exist")
    | Ok _ => send (tag ++ #" OK completed")
    end)).

(** ** Removing messages *)

(** [s.mbox.Expunge()]: the numbers removed. *)
Definition expunge : IM (option (list Z)) :=
  s ← sess;
  match isMbox s with
  | None => mret (Some [])
  | Some mb =>
      r ← on_disk (Expunge mb);
      match r with
      | Err _ => mret None
      | Ok (seqs, mb') => _ ← set_mbox mb'; mret (Some seqs)
      end
  end.
Definition expunge_lines (seqs : list Z) : list str := map (fun n => #"* " ++ dec n ++ #" EXPUNGE") seqs.

Definition cmdClose (tag : str) : IM unit :=
  requireSelected tag (fun _ =>
    s ← sess;
    _ ← (if isReadOnly s then mret None else expunge);
    _ ← unselect;
    send (tag ++ #" OK CLOSE completed")).
Definition cmdExpunge (tag : str) : IM unit :=
  requireSelected tag (fun _ =>
    s ← sess;
    if isReadOnly s then send (tag ++ #" NO mailbox is read-only")
    else
      r ← expunge;
      match r with
      | None => send (tag ++ #" NO expunge failed")
      | Some seqs => _ ← send_all (expunge_lines seqs); send (tag ++ #" OK EXPUNGE completed")
      end).

(** ** APPEND *)

(** The flags of a list of tokens, the unknown ones left out. *)
Definition flags_of (l : list token) : Flags :=
  fold_left (fun f t => match FlagFromIMAP (tkStr t) with Some x => Add f x | None => f end) l [].

(** The zero time, which [Append] takes for none. *)
Definition zeroTime : Z := - epochDays * day_seconds * second.

Record append_args := mkArgs { aFlags : Flags; aInternal : option Z; aData : option str }.

Definition append_arg (a : append_args) (t : token) : append_args :=
  if tkIsLiteral t then mkArgs (aFlags a) (aInternal a) (Some (tkStr t))
  else if tkIsList t then
    mkArgs (fold_left (fun f t => match FlagFromIMAP (tkStr t) with Some x => Add f x | None => f end)
                      (tkList t) (aFlags a)) (aInternal a) (aData a)
  else match parse_internal (tkStr t) with
       | Some d => mkArgs (aFlags a) (if d =? zeroTime then None else Some d) (aData a)
       | None => a
       end.
(** The loop over the arguments, up to the first error; each token takes at
    least a byte. *)
Fixpoint append_loop (fuel : nat) (p : str) (a : append_args) : IM append_args :=
  match fuel with
  | 0%nat => mret a
  | S f =>
      '(t, p) ← next_token p;
      match t with
      | Err _ => mret a
      | Ok t => append_loop f p (append_arg a t)
      end
  end.

Definition cmdAppend (tag p : str) : IM unit :=
  requireAuth tag (with_token p (send (tag ++ #" BAD APPEND needs a mailbox")) (fun name p =>
    a ← append_loop (S (length p)) p (mkArgs [] None None);
    match aData a with
    | None => send (tag ++ #" BAD APPEND needs message data")
    | Some data =>
        r ← openMailbox (tkStr name);
        match r with
        | Err _ => send (tag ++ #" NO [TRYCREATE] mailbox does not exist")
        | Ok mb =>
            r ← on_disk (Append mb data (aFlags a) (aInternal a));
            match r with
            | Err _ => send (tag ++ #" NO append failed")
            | Ok (m, mb) =>
                s ← sess;
                _ ← match isMbox s with
                    | Some sel =>
                        if bool_decide (isState s = Selected) && (bxFolder sel =s bxFolder mb) then
                          _ ← refresh;
                          s ← sess;
                          send (#"* " ++ dec (match isMbox s with Some b => Count b | None => 0 end) ++ #" EXISTS")
                        else mret tt
                    | None => mret tt
                    end;
                send (tag ++ #" OK [APPENDUID " ++ dec (bxUIDValidity mb) ++ #" " ++ dec (mUID m) ++ #"] APPEND completed")
            end
        end
    end)).

(** ** FETCH, STORE, COPY, SEARCH *)

(** [s.mbox.SetFlags(m, f)] on the message at an index: the message after it. *)
Definition setFlags (i : nat) (f : Flags) : IM (option Message) :=
  s ← sess;
  match isMbox s with
  | None => mret None
  | Some mb =>
      r ← on_disk (SetFlags mb i f);
      match r with
      | Ok mb' => _ ← set_mbox mb'; mret (bxMessages mb' !! i)
      | Err _ => mret None
      end
  end.
(** The message at an index of the open mailbox. *)
Definition message_at (i : nat) : IM (option Message) :=
  s ← sess; mret (mb ← isMbox s; bxMessages mb !! i).

Definition fetch_line (m : Message) (payload : list str) : str :=
  #"* " ++ dec (mSeq m) ++ #" FETCH (" ++ join [SP] (literalsLast payload) ++ #")".

Definition fetch_one (items : str) (uidMode : bool) (i : nat) : IM unit :=
  m ← message_at i;
  match m with
  | None => mret tt
  | Some m =>
      r ← on_disk (fetchItems ReadMessage parseMessage zone m items uidMode);
      match r with
      | Err _ => mret tt
      | Ok (payload, markSeen) =>
          s ← sess;
          if markSeen && negb (isReadOnly s) && negb (Has (mFlags m) FlagSeen) then
            r ← setFlags i (Add (mFlags m) FlagSeen);
            match r with
            | Some m' => send (fetch_line m' (payload ++ [flags_item m']))
            | None => send (fetch_line m payload)
            end
          else send (fetch_line m payload)
      end
  end.
Fixpoint for_all {A} (l : list A) (f : A -> IM unit) : IM unit :=
  match l with [] => mret tt | x :: r => _ ← f x; for_all r f end.

(** A sequence set, and the messages it selects. *)
Definition with_set (tag p name : str) (f : seqSet -> str -> IM unit) : IM unit :=
  with_token p (send (tag ++ #" BAD " ++ name ++ #" needs a sequence set")) (fun t p =>
    match parseSeqSet (tkStr t) with
    | None => send (tag ++ #" BAD invalid sequence set")
    | Some set => f set p
    end).

Definition cmdFetch (tag p : str) (uidMode : bool) : IM unit :=
  requireSelected tag (fun mb => with_set tag p #"FETCH" (fun set p =>
    let items := trim_space (rest p) in
    if items =s [] then send (tag ++ #" BAD FETCH needs data items")
    else
      _ ← for_all (selected set uidMode mb) (fetch_one items uidMode);
      send (tag ++ #" OK FETCH completed"))).

(** The flags of STORE: a list or a single one. *)
Definition store_flags (t : token) : Flags :=
  if tkIsList t then flags_of (tkList t) else flags_of [t].

Definition store_op (op : str) (old wanted : Flags) : option Flags :=
  if op =s #"FLAGS" then Some wanted
  else if op =s #"+FLAGS" then Some (fold_left Add wanted old)
  else if op =s #"-FLAGS" then Some (fold_left MaildirFlags.Remove wanted old)
  else None.

Definition store_line (m : Message) (uidMode : bool) : str :=
  #"* " ++ dec (mSeq m) ++ #" FETCH (" ++ flags_item m ++ (if uidMode then #" UID " ++ dec (mUID m) else []) ++ #")".

(** The loop of [cmdStore]; [false] when the operation is unknown. *)
Fixpoint store_loop (tag op : str) (silent uidMode : bool) (wanted : Flags) (l : list nat) : IM bool :=
  match l with
  | [] => mret true
  | i :: r =>
      m ← message_at i;
      match m with
      | None => store_loop tag op silent uidMode wanted r
      | Some m =>
          match store_op op (mFlags m) wanted with
          | None => _ ← send (tag ++ #" BAD unknown STORE operation"); mret false
          | Some f =>
              res ← setFlags i f;
              _ ← match res with
                  | Some m' => if silent then mret tt else send (store_line m' uidMode)
                  | None => mret tt
                  end;
              store_loop tag op silent uidMode wanted r
          end
      end
  end.

Definition cmdStore (tag p : str) (uidMode : bool) : IM unit :=
  requireSelected tag (fun mb =>
    s ← sess;
    if isReadOnly s then send (tag ++ #" NO mailbox is read-only")
    else with_set tag p #"STORE" (fun set p =>
      with_token p (send (tag ++ #" BAD STORE needs an operation")) (fun op p =>
        let op := upper op in
        let silent := has_suffix #".SILENT" op in
        let op := trim_suffix #".SILENT" op in
        with_token p (send (tag ++ #" BAD STORE needs flags")) (fun flags _ =>
          done ← store_loop tag op silent uidMode (store_flags flags) (selected set uidMode mb);
          if done : bool then send (tag ++ #" OK STORE completed") else mret tt)))).

(** The copies of COPY and MOVE: [false] at the first that fails. *)
Fixpoint copy_loop (dst : str) (l : list nat) : IM bool :=
  match l with
  | [] => mret true
  | i :: r =>
      s ← sess;
      match isMbox s with
      | Some mb =>
          match bxMessages mb !! i with
          | Some m =>
              res ← on_disk (CopyTo mb m dst);
              match res with Err _ => mret false | Ok _ => copy_loop dst r end
          | None => copy_loop dst r
          end
      | None => copy_loop dst r
      end
  end.
(** The deletion marks of MOVE. *)
Fixpoint mark_loop (l : list nat) : IM bool :=
  match l with
  | [] => mret true
  | i :: r =>
      m ← message_at i;
      match m with
      | None => mark_loop r
      | Some m =>
          res ← setFlags i (Add (mFlags m) FlagDeleted);
          match res with Some _ => mark_loop r | None => mret false end
      end
  end.

(** What MOVE does once the messages are copied. *)
Definition move_sources (tag : str) (l : list nat) : IM bool :=
  marked ← mark_loop l;
  if negb marked then _ ← send (tag ++ #" NO MOVE failed"); mret false
  else
    r ← expunge;
    match r with
    | None => _ ← send (tag ++ #" NO MOVE failed"); mret false
    | Some seqs => _ ← send_all (expunge_lines seqs); mret true
    end.

Definition copy_verb (move : bool) : str := if move then #"MOVE" else #"COPY".
(** The part of [cmdCopyMove] after its arguments. *)
Definition copy_or_move (tag : str) (uidMode move : bool) (set : seqSet) (dst : str) (mb : Mailbox) : IM unit :=
  s ← sess;
  r ← on_disk (OpenMailbox (abs_path (isRoot s)) dst);
  match r with
  | Err _ => send (tag ++ #" NO [TRYCREATE] destination does not exist")
  | Ok _ =>
      if move && isReadOnly s then send (tag ++ #" NO mailbox is read-only")
      else
        let msgs := selected set uidMode mb in
        copied ← copy_loop dst msgs;
        if negb copied then send (tag ++ #" NO " ++ copy_verb move ++ #" failed")
        else
          ok ← (if move then move_sources tag msgs else mret true);
          if ok : bool then send (tag ++ #" OK " ++ copy_verb move ++ #" completed") else mret tt
  end.
Definition cmdCopyMove (tag p : str) (uidMode move : bool) : IM unit :=
  requireSelected tag (fun mb => with_set tag p (copy_verb move) (fun set p =>
    with_token p (send (tag ++ #" BAD " ++ copy_verb move ++ #" needs a destination")) (fun dstTok _ =>
      copy_or_move tag uidMode move set (normalizeMailbox (tkStr dstTok)) mb))).

Definition search_line (ids : list Z) : str :=
  match ids with [] => #"* SEARCH" | _ => #"* SEARCH " ++ join [SP] (map dec ids) end.
Definition cmdSearch (tag p : str) (uidMode : bool) : IM unit :=
  requireSelected tag (fun mb =>
    crit ← all readLiteral p;
    match crit with
    | Err _ | Ok [] => send (tag ++ #" BAD SEARCH needs criteria")
    | Ok crit =>
        r ← on_disk (search ReadMessage zone mb crit);
        match r with
        | Err _ => mret tt
        | Ok found =>
            _ ← send (search_line (map (fun m => if uidMode then mUID m else mSeq m) found));
            send (tag ++ #" OK SEARCH completed")
        end
    end).

(** ** IDLE *)

Definition next_event : IM idle_event := fun st =>
  match imIdle st with
  | [] => (Input, st)
  | e :: r => (e, mkState (imSess st) (imConn st) (imSet st) (imWorld st) r)
  end.
Definition disk_changes (others : world -> world) : IM unit := fun st =>
  (tt, mkState (imSess st) (imConn st) (imSet st) (others (imWorld st)) (imIdle st)).
(** The read of the other goroutine, over the segments that come in time: what
    it reads is lost when the window ends. *)
Definition idle_read (segments : option nat) : IM (option str) :=
  on_conn (fun c =>
    let rd := cnReader c in
    let n := default (length (rdIn rd)) segments in
    let '(l, good, rd') := ReadString bufSize (mkReader (rdBuf rd) (take n (rdIn rd))) in
    (if good : bool then Some l else None, with_reader (mkReader (rdBuf rd') (rdIn rd' ++ drop n (rdIn rd))) c)).

(** The select loop; every round takes an event. *)
Fixpoint idle_loop (fuel : nat) (tag : str) : IM unit :=
  match fuel with
  | 0%nat => mret tt
  | S f =>
      e ← next_event;
      match e with
      | Input =>
          l ← idle_read None;
          match l with
          | Some line => if equal_fold (trim_space line) #"DONE" then send (tag ++ #" OK IDLE terminated") else mret tt
          | None => mret tt
          end
      | Tick others => _ ← disk_changes others; _ ← pollAndReport; idle_loop f tag
      | Deadline n =>
          _ ← send #"* BYE idle timeout";
          _ ← send (tag ++ #" OK IDLE terminated");
          _ ← idle_read (Some n);
          mret tt
      end
  end.
Definition cmdIdle (tag : str) : IM unit :=
  requireSelected tag (fun _ =>
    good ← out #"+ idling";
    if negb good then mret tt
    else
      events ← (fun st => (length (imIdle st), st));
      idle_loop (S events) tag).

(** ** Quota *)

Definition writeQuota : IM unit :=
  s ← sess;
  match Quota with
  | None => send (#"* QUOTA " ++ quote [] ++ #" ()")
  | Some quota =>
      let '(used, limit) := quota (isUser s) in
      if limit <=? 0 then send (#"* QUOTA " ++ quote [] ++ #" ()")
      else send (#"* QUOTA " ++ quote [] ++ #" (STORAGE " ++ dec (kib used) ++ #" " ++ dec (kib limit) ++ #")")
  end.
Definition cmdGetQuotaRoot (tag p : str) : IM unit :=
  requireAuth tag (with_token p (send (tag ++ #" BAD GETQUOTAROOT needs a mailbox")) (fun name _ =>
    _ ← send (#"* QUOTAROOT " ++ quote (tkStr name) ++ #" " ++ quote []);
    _ ← writeQuota;
    send (tag ++ #" OK GETQUOTAROOT completed"))).
Definition cmdGetQuota (tag p : str) : IM unit :=
  requireAuth tag (with_token p (send (tag ++ #" BAD GETQUOTA needs a quota root")) (fun _ _ =>
    _ ← writeQuota;
    send (tag ++ #" OK GETQUOTA completed"))).

(** ** Dispatch *)

Definition going_on (m : IM unit) : IM bool := _ ← m; mret false.

(** The commands, with the arguments and the UID mode; [true] ends the session. *)
Definition run_command (tag cmd p : str) (uidMode : bool) : IM bool :=
  if cmd =s #"CAPABILITY" then
    s ← sess; set ← settings;
    _ ← send (#"* CAPABILITY " ++ capabilities s set);
    going_on (send (tag ++ #" OK CAPABILITY completed"))
  else if cmd =s #"NOOP" then going_on (cmdNoop tag)
  else if cmd =s #"LOGOUT" then
    _ ← send #"* BYE logging out"; _ ← send (tag ++ #" OK LOGOUT completed"); mret true
  else if cmd =s #"STARTTLS" then cmdStartTLS tag
  else if cmd =s #"LOGIN" then going_on (cmdLogin tag p)
  else if cmd =s #"AUTHENTICATE" then going_on (cmdAuthenticate tag p)
  else if (cmd =s #"SELECT") || (cmd =s #"EXAMINE") then going_on (cmdSelect tag p (cmd =s #"EXAMINE"))
  else if (cmd =s #"LIST") || (cmd =s #"LSUB") then going_on (cmdList tag cmd p)
  else if cmd =s #"STATUS" then going_on (cmdStatus tag p)
  else if cmd =s #"CREATE" then going_on (cmdCreate tag p)
  else if cmd =s #"DELETE" then going_on (cmdDelete tag p)
  else if (cmd =s #"SUBSCRIBE") || (cmd =s #"UNSUBSCRIBE") then going_on (cmdSubscribe tag p)
  else if cmd =s #"NAMESPACE" then
    _ ← send (#"* NAMESPACE ((" ++ quote [] ++ #" " ++ quote #"." ++ #")) NIL NIL");
    going_on (send (tag ++ #" OK NAMESPACE completed"))
  else if cmd =s #"CHECK" then going_on (requireSelected tag (fun _ => send (tag ++ #" OK CHECK completed")))
  else if cmd =s #"CLOSE" then going_on (cmdClose tag)
  else if cmd =s #"UNSELECT" then
    going_on (requireSelected tag (fun _ => _ ← unselect; send (tag ++ #" OK UNSELECT completed")))
  else if cmd =s #"EXPUNGE" then going_on (cmdExpunge tag)
  else if cmd =s #"APPEND" then going_on (cmdAppend tag p)
  else if cmd =s #"FETCH" then going_on (cmdFetch tag p uidMode)
  else if cmd =s #"STORE" then going_on (cmdStore tag p uidMode)
  else if cmd =s #"SEARCH" then going_on (cmdSearch tag p uidMode)
  else if cmd =s #"COPY" then going_on (cmdCopyMove tag p uidMode false)
  else if cmd =s #"MOVE" then going_on (cmdCopyMove tag p uidMode true)
  else if cmd =s #"IDLE" then going_on (cmdIdle tag)
  else if cmd =s #"GETQUOTAROOT" then going_on (cmdGetQuotaRoot tag p)
  else if cmd =s #"GETQUOTA" then going_on (cmdGetQuota tag p)
  else if cmd =s #"SETQUOTA" then going_on (requireAuth tag (send (tag ++ #" NO quota is managed by the server")))
  else going_on (send (tag ++ #" BAD unknown command " ++ cmd)).

Definition uid_command (cmd : str) : bool :=
  existsb (str_eqb cmd) [ #"FETCH"; #"STORE"; #"SEARCH"; #"COPY"; #"MOVE"; #"EXPUNGE"].

Definition dispatch (line : str) : IM bool :=
  '(tag, p) ← next_token line;
  match tag with
  | Err _ => going_on (send #"* BAD invalid command line")
  | Ok tag =>
      let tag := tkStr tag in
      '(cmd, p) ← next_token p;
      match cmd with
      | Err _ => going_on (send (tag ++ #" BAD missing command"))
      | Ok cmd =>
          if upper cmd =s #"UID" then
            '(sub, p) ← next_token p;
            match sub with
            | Err _ => going_on (send (tag ++ #" BAD UID needs a command"))
            | Ok sub =>
                if uid_command (upper sub) then run_command tag (upper sub) p true
                else going_on (send (tag ++ #" BAD UID does not apply to " ++ upper sub))
            end
          else run_command tag (upper cmd) p false
      end
  end.

Definition turn : IM bool :=
  l ← readLine;
  match l with
  | None => mret true
  | Some line => if trim_space line =s [] then mret false else dispatch line
  end.

(** The loop of [run]; [false] when the fuel did not do. *)
Fixpoint run_loop (fuel : nat) : IM bool :=
  match fuel with
  | 0%nat => mret false
  | S f => quit ← turn; if quit : bool then mret true else run_loop f
  end.

Definition run (fuel : nat) : IM bool :=
  s ← sess;
  set ← settings;
  good ← out (#"* OK [CAPABILITY " ++ capabilities s set ++ #"] " ++ iHostname set ++ #" Verta IMAP4rev1 ready");
  if negb good then mret true else run_loop fuel.
End Handlers.
