(* ===== verification/ImapProps.v ===== *)
(** * Properties of the IMAP session

    Which states a session reaches, and what a command can change on disk. *)

From S2P Require Import Prelude GoStrings GoOS GoNet GoTime StateM MaildirFlags Maildir MaildirUID MaildirProps ImapParse ImapMime ImapFetch Imap.

(** ** Mailboxes keep their root and folder *)

(** What a successful run returns. *)
Definition returns {A} (m : M A) (Q : A -> Prop) : Prop :=
  forall w, match (m w).1 with Ok a => Q a | Err _ => True end.

Lemma returns_bind {A B} (m : M A) (f : A -> M B) Q :
  (forall a, returns (f a) Q) -> returns (m ≫= f) Q.
Proof. intros Hf w. unfold mbind, M_bind. destruct (m w) as [[a|e] w']; [apply Hf|done]. Qed.
Lemma returns_bind_with {A B} (m : M A) (f : A -> M B) P Q :
  returns m P -> (forall a, P a -> returns (f a) Q) -> returns (m ≫= f) Q.
Proof.
  intros Hm Hf w. unfold mbind, M_bind. specialize (Hm w). destruct (m w) as [[a|e] w']; [by apply Hf|done].
Qed.
Lemma returns_ret {A} (a : A) (Q : A -> Prop) : Q a -> returns (mret a) Q.
Proof. intros H w. exact H. Qed.
Lemma returns_throw {A} e (Q : A -> Prop) : returns (throw e) Q.
Proof. intros w. exact I. Qed.

(** A mailbox over the same folder. *)
Definition same_place (mb mb' : Mailbox) : Prop := bxRoot mb' = bxRoot mb /\ bxFolder mb' = bxFolder mb.

Ltac returns_auto :=
  repeat match goal with
  | |- returns (throw _) _ => apply returns_throw
  | |- returns (mret _) _ => apply returns_ret
  | |- returns (_ ≫= _) _ => apply returns_bind; intros
  | |- returns (match ?x with _ => _ end) _ => destruct x
  end.

Lemma Refresh_place mb : returns (Refresh mb) (fun r => same_place mb r.1).
Proof. unfold Refresh. cbv zeta. returns_auto; done. Qed.
Lemma refreshed_place mb : returns (refreshed mb) (same_place mb).
Proof.
  unfold refreshed. eapply returns_bind_with; [apply Refresh_place|]. intros [mb' [e|]] H; [apply returns_throw|by apply returns_ret].
Qed.
Lemma OpenMailbox_place root folder : returns (OpenMailbox root folder) (fun mb => bxRoot mb = root /\ bxFolder mb = folder).
Proof. unfold OpenMailbox. apply returns_bind. intros _. apply refreshed_place. Qed.
Lemma SetFlags_place mb i f : returns (SetFlags mb i f) (same_place mb).
Proof. unfold SetFlags. returns_auto; done. Qed.
Lemma Expunge_place mb : returns (Expunge mb) (fun r => same_place mb r.2).
Proof. unfold Expunge. returns_auto; done. Qed.

(** ** Steady handlers *)

(** The parts of a session the state machine is about. *)
Definition shape (s : session) : phase * bool * str * str * bool * option (path * str) :=
  (isState s, isTls s, isUser s, isRoot s, isReadOnly s, (fun mb => (bxRoot mb, bxFolder mb)) <$> isMbox s).
Definition steady (st st' : state) : Prop := shape (imSess st') = shape (imSess st).

#[export] Instance steady_preorder : PreOrder steady.
Proof. split; [by intros st|]. unfold steady. intros a b c -> ->. done. Qed.

Lemma steady_conn {A} (f : conn -> A * conn) : keeps steady (on_conn f).
Proof. intros st. unfold on_conn. by destruct (f (imConn st)). Qed.
Lemma steady_disk {A} (m : M A) : keeps steady (on_disk m).
Proof. intros st. unfold on_disk. by destruct (m (imWorld st)). Qed.
#[export] Hint Resolve steady_conn steady_disk : session.
Lemma steady_out l : keeps steady (out l).
Proof. apply steady_conn. Qed.
#[export] Hint Resolve steady_out : session.
Lemma steady_send l : keeps steady (send l).
Proof. unfold send. keeps_auto. Qed.
#[export] Hint Resolve steady_send : session.
Lemma steady_send_all ls : keeps steady (send_all ls).
Proof. induction ls; cbn [send_all]; keeps_auto. Qed.
Lemma steady_readLine : keeps steady readLine.
Proof. unfold readLine. apply keeps_bind; [exact _|apply steady_conn|]. intros [l g]. keeps_auto. Qed.
Lemma steady_readLiteral n : keeps steady (readLiteral n).
Proof. unfold readLiteral. keeps_auto. Qed.
#[export] Hint Resolve steady_send_all steady_readLine steady_readLiteral : session.

(** What reading a literal keeps, reading tokens keeps. *)
Section Tokens.
Context {St : Type} (readLiteral : Z -> SM St (option str)) (R : relation St) `{!PreOrder R}.
Hypothesis literal_keeps : forall n, keeps R (readLiteral n).

Lemma keeps_parseLiteral p : keeps R (parseLiteral readLiteral p).
Proof.
  unfold parseLiteral. destruct (index_byte "}" p); [|apply keeps_ret; exact _].
  destruct (parse_int _); [|apply keeps_ret; exact _]. destruct (_ || _); [apply keeps_ret; exact _|].
  apply keeps_bind; [exact _|apply literal_keeps|intros; apply keeps_ret; exact _].
Qed.

Lemma keeps_next_fuel f :
  (forall p, keeps R (next_fuel readLiteral f p)) /\ (forall p out, keeps R (list_fuel readLiteral f p out)).
Proof.
  induction f as [|f [IHn IHl]]; [split; intros; apply keeps_ret; exact _|]. split.
  - intros p. rewrite next_fuel_S. cbv zeta. destruct (skipSpace p); [apply keeps_ret; exact _|].
    destruct (Ascii.eqb _ _); [apply IHl|]. destruct (Ascii.eqb _ _); [apply keeps_ret; exact _|].
    destruct (Ascii.eqb _ _); [apply keeps_parseLiteral|apply keeps_ret; exact _].
  - intros p out. rewrite list_fuel_S. cbv zeta. destruct (skipSpace p); [apply keeps_ret; exact _|].
    destruct (Ascii.eqb _ _); [apply keeps_ret; exact _|].
    apply keeps_bind; [exact _|apply IHn|]. intros [[t|e] q]; [apply IHl|apply keeps_ret; exact _].
Qed.
Lemma keeps_next p : keeps R (next readLiteral p).
Proof. apply keeps_next_fuel. Qed.
Lemma keeps_all_fuel f : forall p out, keeps R (all_fuel readLiteral f p out).
Proof.
  induction f as [|f IH]; intros p out; cbn [all_fuel]; [apply keeps_ret; exact _|].
  destruct (skipSpace p) as [|c r]; [apply keeps_ret; exact _|].
  apply keeps_bind; [exact _|apply keeps_next|]. intros [[t|e] q]; [apply IH|apply keeps_ret; exact _].
Qed.
End Tokens.

Lemma steady_next p : keeps steady (next_token p).
Proof. apply keeps_next; [exact _|apply steady_readLiteral]. Qed.
Lemma steady_all p : keeps steady (all readLiteral p).
Proof. apply keeps_all_fuel; [exact _|apply steady_readLiteral]. Qed.
#[export] Hint Resolve steady_next steady_all : session.

(** Handlers built from tokens, over any relation that the steady ones keep. *)
Section Combinators.
Context (R : relation state) `{!PreOrder R} (HR : subrelation steady R).

Lemma keeps_with_token p bad f :
  keeps R bad -> (forall t p, keeps R (f t p)) -> keeps R (with_token p bad f).
Proof.
  intros Hb Hf. unfold with_token. apply keeps_bind; [exact _|eapply keeps_weaken; [exact HR|apply steady_next]|].
  intros [[t|e] q]; [apply Hf|exact Hb].
Qed.
Lemma keeps_requireAuth tag fn : keeps R fn -> keeps R (requireAuth tag fn).
Proof.
  intros Hf. unfold requireAuth. apply keeps_bind; [exact _|apply keeps_get; exact _|]. intros s.
  case_decide; [eapply keeps_weaken; [exact HR|apply steady_send]|exact Hf].
Qed.
Lemma keeps_requireSelected tag fn : (forall mb, keeps R (fn mb)) -> keeps R (requireSelected tag fn).
Proof.
  intros Hf. unfold requireSelected. apply keeps_bind; [exact _|apply keeps_get; exact _|]. intros s.
  case_decide; [|eapply keeps_weaken; [exact HR|apply steady_send]].
  destruct (isMbox s); [apply Hf|apply keeps_ret; exact _].
Qed.
Lemma keeps_with_set tag p name f : (forall set p, keeps R (f set p)) -> keeps R (with_set tag p name f).
Proof.
  intros Hf. unfold with_set. apply keeps_with_token; [eapply keeps_weaken; [exact HR|apply steady_send]|].
  intros t q. destruct (parseSeqSet (tkStr t)); [apply Hf|eapply keeps_weaken; [exact HR|apply steady_send]].
Qed.
Lemma keeps_going_on m : keeps R m -> keeps R (going_on m).
Proof. intros Hm. unfold going_on. apply keeps_bind; [exact _|exact Hm|intros; apply keeps_ret; exact _]. Qed.
Lemma keeps_for_all {A} (l : list A) f : (forall x, keeps R (f x)) -> keeps R (for_all l f).
Proof. intros Hf. induction l; cbn [for_all]; [apply keeps_ret; exact _|]. apply keeps_bind; [exact _|apply Hf|intros _; done]. Qed.
End Combinators.

Ltac session_step :=
  first [ apply keeps_with_token; [exact _|done| |intros ? ?]
        | apply keeps_requireAuth; [exact _|done|]
        | apply keeps_requireSelected; [exact _|done|intros ?]
        | apply keeps_with_set; [exact _|done|intros ? ?]
        | apply keeps_going_on; [exact _|]
        | apply keeps_for_all; [exact _|intros ?]
        | match goal with |- keeps _ ((match ?x with _ => _ end) _) => destruct x; cbv beta end
        | keeps_step ].
Ltac session_auto := repeat (first [solve [eauto with session]|session_step]).

(** The operations that store a new snapshot of the open mailbox. *)
Lemma steady_set_mbox st mb mb' : isMbox (imSess st) = Some mb -> same_place mb mb' -> steady st (set_mbox mb' st).2.
Proof. intros E [Hr Hf]. unfold steady, shape, set_mbox, set_sess. simpl. rewrite E. simpl. by rewrite Hr, Hf. Qed.

Lemma steady_refresh : keeps steady refresh.
Proof.
  intros st. unfold refresh, mbind, SM_bind, sess. destruct (isMbox (imSess st)) as [mb|] eqn:E; [|done].
  unfold on_disk. pose proof (Refresh_place mb (imWorld st)) as H.
  destruct (Refresh mb (imWorld st)) as [[[mb' e]|e] w']; [|done]. simpl in H.
  exact (steady_set_mbox (mkState (imSess st) (imConn st) (imSet st) w' (imIdle st)) mb mb' E H).
Qed.
Lemma steady_expunge : keeps steady expunge.
Proof.
  intros st. unfold expunge, mbind, SM_bind, sess. destruct (isMbox (imSess st)) as [mb|] eqn:E; [|done].
  unfold on_disk. pose proof (Expunge_place mb (imWorld st)) as H.
  destruct (Expunge mb (imWorld st)) as [[[seqs mb']|e] w']; [|done]. simpl in H.
  exact (steady_set_mbox (mkState (imSess st) (imConn st) (imSet st) w' (imIdle st)) mb mb' E H).
Qed.
Lemma steady_setFlags i f : keeps steady (setFlags i f).
Proof.
  intros st. unfold setFlags, mbind, SM_bind, sess. destruct (isMbox (imSess st)) as [mb|] eqn:E; [|done].
  unfold on_disk. pose proof (SetFlags_place mb i f (imWorld st)) as H.
  destruct (SetFlags mb i f (imWorld st)) as [[mb'|e] w']; [|done]. simpl in H.
  exact (steady_set_mbox (mkState (imSess st) (imConn st) (imSet st) w' (imIdle st)) mb mb' E H).
Qed.
#[export] Hint Resolve steady_refresh steady_expunge steady_setFlags : session.

Lemma steady_pollAndReport : keeps steady pollAndReport.
Proof. unfold pollAndReport. session_auto. Qed.
Lemma steady_message_at i : keeps steady (message_at i).
Proof. unfold message_at. session_auto. Qed.
Lemma steady_openMailbox name : keeps steady (openMailbox name).
Proof. unfold openMailbox. session_auto. Qed.
#[export] Hint Resolve steady_pollAndReport steady_message_at steady_openMailbox : session.

Lemma steady_append_loop f : forall p a, keeps steady (append_loop f p a).
Proof. induction f as [|f IH]; intros p a; cbn [append_loop]; session_auto. Qed.
Lemma steady_store_loop tag op silent uid wanted l : keeps steady (store_loop tag op silent uid wanted l).
Proof. induction l as [|i l IH]; cbn [store_loop]; session_auto. Qed.
Lemma steady_copy_loop dst l : keeps steady (copy_loop dst l).
Proof. induction l as [|i l IH]; cbn [copy_loop]; session_auto. Qed.
Lemma steady_mark_loop l : keeps steady (mark_loop l).
Proof. induction l as [|i l IH]; cbn [mark_loop]; session_auto. Qed.
#[export] Hint Resolve steady_append_loop steady_store_loop steady_copy_loop steady_mark_loop : session.
Lemma steady_move_sources tag l : keeps steady (move_sources tag l).
Proof. unfold move_sources. session_auto. Qed.

Lemma steady_idle_read n : keeps steady (idle_read n).
Proof. apply steady_conn. Qed.
Lemma steady_next_event : keeps steady next_event.
Proof. intros st. unfold next_event. by destruct (imIdle st). Qed.
Lemma steady_disk_changes f : keeps steady (disk_changes f).
Proof. by intros st. Qed.
#[export] Hint Resolve steady_move_sources steady_idle_read steady_next_event steady_disk_changes : session.
Lemma steady_idle_loop f tag : keeps steady (idle_loop f tag).
Proof. induction f as [|f IH]; cbn [idle_loop]; session_auto. Qed.
#[export] Hint Resolve steady_idle_loop : session.

Section Session.
Context (Authenticate : str -> str -> M str) (Quota : option (str -> Z * Z)).
Context (handshake : list str -> option (list str)).
Context (ReadMessage : str -> option mail_header) (parseMessage : str -> mimePart) (zone : Z -> Z).

Lemma steady_fetch_one items uid i : keeps steady (fetch_one ReadMessage parseMessage zone items uid i).
Proof. unfold fetch_one. session_auto. Qed.
#[local] Hint Resolve steady_fetch_one : session.
Lemma steady_writeQuota : keeps steady (writeQuota Quota).
Proof. unfold writeQuota. session_auto. Qed.
#[local] Hint Resolve steady_writeQuota : session.
Lemma steady_readResp tag prompt : keeps steady (readResp tag prompt).
Proof. unfold readResp. session_auto. Qed.
#[local] Hint Resolve steady_readResp : session.

(** The commands that leave the state of the session alone. *)
Lemma steady_cmdNoop tag : keeps steady (cmdNoop tag).
Proof. unfold cmdNoop. session_auto. Qed.
Lemma steady_cmdList tag verb p : keeps steady (cmdList tag verb p).
Proof. unfold cmdList. session_auto. Qed.
Lemma steady_cmdStatus tag p : keeps steady (cmdStatus tag p).
Proof. unfold cmdStatus. session_auto. Qed.
Lemma steady_cmdCreate tag p : keeps steady (cmdCreate tag p).
Proof. unfold cmdCreate. session_auto. Qed.
Lemma steady_cmdDelete tag p : keeps steady (cmdDelete tag p).
Proof. unfold cmdDelete. session_auto. Qed.
Lemma steady_cmdSubscribe tag p : keeps steady (cmdSubscribe tag p).
Proof. unfold cmdSubscribe. session_auto. Qed.
Lemma steady_cmdExpunge tag : keeps steady (cmdExpunge tag).
Proof. unfold cmdExpunge. session_auto. Qed.
Lemma steady_cmdAppend tag p : keeps steady (cmdAppend tag p).
Proof. unfold cmdAppend. session_auto. Qed.
Lemma steady_cmdFetch tag p uid : keeps steady (cmdFetch ReadMessage parseMessage zone tag p uid).
Proof. unfold cmdFetch. session_auto. Qed.
Lemma steady_cmdStore tag p uid : keeps steady (cmdStore tag p uid).
Proof. unfold cmdStore. session_auto. Qed.
Lemma steady_cmdCopyMove tag p uid move : keeps steady (cmdCopyMove tag p uid move).
Proof. unfold cmdCopyMove, copy_or_move. session_auto. Qed.
Lemma steady_cmdSearch tag p uid : keeps steady (cmdSearch ReadMessage zone tag p uid).
Proof. unfold cmdSearch. session_auto. Qed.
Lemma steady_cmdIdle tag : keeps steady (cmdIdle tag).
Proof. unfold cmdIdle. session_auto. Qed.
Lemma steady_cmdGetQuotaRoot tag p : keeps steady (cmdGetQuotaRoot Quota tag p).
Proof. unfold cmdGetQuotaRoot. session_auto. Qed.
Lemma steady_cmdGetQuota tag p : keeps steady (cmdGetQuota Quota tag p).
Proof. unfold cmdGetQuota. session_auto. Qed.

(** ** The state machine *)

Record session_ok (s : session) : Prop := {
  ok_tls : isState s <> NotAuthenticated -> isTls s = true;
  ok_mbox : isState s = Selected <-> is_Some (isMbox s);
  ok_root : forall mb, isMbox s = Some mb -> bxRoot mb = abs_path (isRoot s);
  ok_account : isState s <> NotAuthenticated ->
    exists user pass w, (Authenticate user pass w).1 = Ok (isRoot s) /\ isUser s = to_lower user }.

Lemma session_ok_shape s s' : shape s' = shape s -> session_ok s -> session_ok s'.
Proof.
  destruct s as [ph tls user root mb ro], s' as [ph' tls' user' root' mb' ro']. unfold shape. simpl.
  intros [= -> -> -> -> _ Hm] [Ht Hb Hr Ha]. simpl in *. split; simpl; [done| | |done].
  - rewrite Hb. destruct mb, mb'; simpl in Hm; try done.
  - intros b ->. destruct mb as [b0|]; [|done]. simpl in Hm. injection Hm as -> _. by apply Hr.
Qed.

Definition keeps_ok (st st' : state) : Prop := session_ok (imSess st) -> session_ok (imSess st').
#[local] Instance keeps_ok_preorder : PreOrder keeps_ok.
Proof. split; [by intros st H|]. unfold keeps_ok. intros a b c. auto. Qed.
Lemma steady_ok : subrelation steady keeps_ok.
Proof. intros st st' H Ho. by eapply session_ok_shape. Qed.

(** Logging in starts under TLS, without an open mailbox. *)
Definition keeps_login (st st' : state) : Prop :=
  session_ok (imSess st) -> isTls (imSess st) = true -> isMbox (imSess st) = None ->
  session_ok (imSess st') /\ isTls (imSess st') = true /\ isMbox (imSess st') = None.
#[local] Instance keeps_login_preorder : PreOrder keeps_login.
Proof. split; [by intros st ? ? ?|]. unfold keeps_login. intros a b c H1 H2 Ho Ht Hm. destruct (H1 Ho Ht Hm) as (?&?&?). auto. Qed.
Lemma steady_login : subrelation steady keeps_login.
Proof.
  intros st st' H Ho Ht Hm. split; [by eapply session_ok_shape|]. unfold steady, shape in H. injection H as _ Ht' _ _ _ Hb.
  rewrite Hm in Hb. split; [congruence|]. by destruct (isMbox (imSess st')).
Qed.
Lemma login_steady {A} (m : IM A) : keeps steady m -> keeps keeps_login m.
Proof. apply keeps_weaken, steady_login. Qed.

Lemma login_authenticate tag user pass : keeps keeps_login (authenticate Authenticate Quota tag user pass).
Proof.
  intros st Ho Htls Hm. unfold authenticate, mbind, SM_bind, on_disk, set_sess.
  destruct (Authenticate user pass (imWorld st)) as [[root|e] w] eqn:E.
  2: { apply (login_steady _ (steady_send _)); [|done|done]. by eapply session_ok_shape; [|exact Ho]. }
  set (st1 := mkState _ _ _ w _).
  assert (keeps keeps_login (_ ← on_disk (EnsureStandardFolders (abs_path root)); s ← sess; set ← settings;
    send (tag ++ #" OK [CAPABILITY " ++ capabilities Quota s set ++ #"] LOGIN completed"))) as HK
    by (apply login_steady; session_auto).
  apply (HK (mkState (mkSession Authenticated (isTls (imSess st1)) (to_lower user) root (isMbox (imSess st1))
    (isReadOnly (imSess st1))) (imConn st1) (imSet st1) (imWorld st1) (imIdle st1))); [|done|done].
  split; simpl; [done| | |].
  - rewrite Hm. split; [done|by intros []].
  - by rewrite Hm.
  - intros _. exists user, pass, (imWorld st). by rewrite E.
Qed.

Lemma login_cmdLogin tag p st : session_ok (imSess st) -> session_ok (imSess (cmdLogin Authenticate Quota tag p st).2).
Proof.
  intros Ho. unfold cmdLogin. unfold mbind at 1, SM_bind at 1, sess.
  destruct (isTls (imSess st)) eqn:Et; [|by apply (steady_ok _ _ (steady_send _ st))].
  cbn [negb]. case_bool_decide as Es; [|by apply (steady_ok _ _ (steady_send _ st))]. cbn [negb].
  assert (isMbox (imSess st) = None) as Hm.
  { destruct (isMbox (imSess st)) eqn:Em; [|done]. destruct Ho as [_ Hb _ _]. rewrite Em in Hb.
    destruct Hb as [_ Hb]. rewrite Hb in Es by eauto. done. }
  match goal with |- session_ok (imSess (?m st).2) => assert (keeps keeps_login m) as HK end; [|by apply HK].
  apply keeps_bind; [exact _|apply login_steady; auto with session|]. intros [user q].
  apply keeps_bind; [exact _|apply login_steady; auto with session|]. intros [pass q'].
  destruct user; [|apply login_steady; auto with session]. destruct pass; [|apply login_steady; auto with session].
  apply login_authenticate.
Qed.

Lemma login_cmdAuthenticate tag p st :
  session_ok (imSess st) -> session_ok (imSess (cmdAuthenticate Authenticate Quota tag p st).2).
Proof.
  intros Ho. unfold cmdAuthenticate. unfold mbind at 1, SM_bind at 1, sess.
  destruct (isTls (imSess st)) eqn:Et; [|by apply (steady_ok _ _ (steady_send _ st))].
  cbn [negb]. case_bool_decide as Es; [|by apply (steady_ok _ _ (steady_send _ st))]. cbn [negb].
  assert (isMbox (imSess st) = None) as Hm.
  { destruct (isMbox (imSess st)) eqn:Em; [|done]. destruct Ho as [_ Hb _ _]. rewrite Em in Hb.
    destruct Hb as [_ Hb]. rewrite Hb in Es by eauto. done. }
  match goal with |- session_ok (imSess (?m st).2) => assert (keeps keeps_login m) as HK end; [|by apply HK].
  pose proof login_authenticate.
  apply keeps_with_token; [exact _|exact steady_login|apply login_steady; auto with session|]. intros mech q.
  destruct (_ =s _); [|destruct (_ =s _); [|apply login_steady; auto with session]].
  - unfold auth_plain. apply keeps_bind; [exact _|apply login_steady; unfold plain_response; session_auto|]. intros [resp|]; [|apply login_steady; session_auto].
    destruct (GoStrings.split NUL resp) as [|a [|b [|c [|d l]]]]; try solve [apply login_steady; auto with session].
    destruct (b =s []); [apply login_steady; auto with session|done].
  - unfold auth_login. apply keeps_bind; [exact _|apply login_steady; auto with session|]. intros [user|]; [|apply login_steady; session_auto].
    apply keeps_bind; [exact _|apply login_steady; auto with session|]. intros [pass|]; [done|apply login_steady; session_auto].
Qed.

(** Once authenticated. *)
Definition keeps_in (st st' : state) : Prop :=
  session_ok (imSess st) -> isState (imSess st) <> NotAuthenticated ->
  session_ok (imSess st') /\ isState (imSess st') <> NotAuthenticated.
#[local] Instance keeps_in_preorder : PreOrder keeps_in.
Proof. split; [by intros st ? ?|]. unfold keeps_in. intros a b c H1 H2 Ho Ht. destruct (H1 Ho Ht). auto. Qed.
Lemma steady_in : subrelation steady keeps_in.
Proof.
  intros st st' H Ho Ht. split; [by eapply session_ok_shape|]. unfold steady, shape in H. by injection H as -> _ _ _ _ _.
Qed.
Lemma in_steady {A} (m : IM A) : keeps steady m -> keeps keeps_in m.
Proof. apply keeps_weaken, steady_in. Qed.

Lemma in_requireAuth tag fn : keeps keeps_in fn -> keeps keeps_ok (requireAuth tag fn).
Proof.
  intros Hf st Ho. unfold requireAuth, mbind, SM_bind, sess. case_decide as Es.
  - by apply (steady_ok _ _ (steady_send _ st)).
  - by apply Hf.
Qed.
Lemma in_requireSelected tag fn : (forall mb, keeps keeps_in (fn mb)) -> keeps keeps_ok (requireSelected tag fn).
Proof.
  intros Hf st Ho. unfold requireSelected, mbind, SM_bind, sess. case_decide as Es.
  - destruct (isMbox (imSess st)) as [mb|]; [|done]. apply (Hf mb); [done|]. by rewrite Es.
  - by apply (steady_ok _ _ (steady_send _ st)).
Qed.

Lemma in_unselect : keeps keeps_in unselect.
Proof. intros st Ho Ht. split; [|done]. destruct Ho as [H1 _ _ H4].
  split; simpl; [by intros _; apply H1| |done|by intros _; apply H4]. split; [done|by intros []].
Qed.

Lemma ok_cmdSelect tag p examine : keeps keeps_ok (cmdSelect tag p examine).
Proof.
  unfold cmdSelect. apply in_requireAuth, keeps_with_token; [exact _|exact steady_in|apply in_steady; auto with session|].
  intros name _ st Ho Ht. unfold openMailbox, mbind, SM_bind, sess, on_disk. cbv beta iota.
  pose proof (OpenMailbox_place (abs_path (isRoot (imSess st))) (normalizeMailbox (tkStr name)) (imWorld st)) as HO.
  destruct (OpenMailbox _ _ (imWorld st)) as [[mb|e] w'].
  - destruct HO as [HR HF]. unfold set_sess. apply (in_steady _ (steady_send_all _)); [|done].
    destruct Ho as [H1 _ _ H4]. split; simpl; [by intros _; apply H1|split; [by eauto|done]| |by intros _; apply H4].
    by intros b [= <-].
  - by apply (in_steady _ (steady_send _)).
Qed.

Lemma ok_cmdClose tag : keeps keeps_ok (cmdClose tag).
Proof.
  unfold cmdClose. apply in_requireSelected. intros _. apply keeps_bind; [exact _|apply keeps_get; exact _|]. intros s.
  apply keeps_bind; [exact _|apply in_steady; session_auto|]. intros _.
  apply keeps_bind; [exact _|apply in_unselect|intros _; apply in_steady; auto with session].
Qed.
Lemma ok_unselect tag : keeps keeps_ok (requireSelected tag (fun _ => _ ← unselect; send (tag ++ #" OK UNSELECT completed"))).
Proof.
  apply in_requireSelected. intros _.
  apply keeps_bind; [exact _|apply in_unselect|intros _; apply in_steady; auto with session].
Qed.

Lemma ok_cmdStartTLS tag : keeps keeps_ok (cmdStartTLS handshake tag).
Proof.
  assert (forall A (m : IM A), keeps steady m -> keeps keeps_ok m) as HS by (intros A m; apply keeps_weaken, steady_ok).
  unfold cmdStartTLS. apply keeps_bind; [exact _|apply keeps_get; exact _|]. intros set.
  apply keeps_bind; [exact _|apply keeps_get; exact _|]. intros s.
  destruct (negb (iTLS set)); [apply HS; session_auto|]. destruct (isTls s); [apply HS; session_auto|].
  apply keeps_bind; [exact _|apply HS; auto with session|]. intros good. destruct (negb good); [apply HS; session_auto|].
  apply keeps_bind; [exact _|apply HS; auto with session|]. intros raw. destruct (handshake raw); [|apply HS; session_auto].
  apply keeps_bind; [exact _|apply HS; auto with session|]. intros _.
  apply keeps_bind; [exact _| |intros _; apply HS; session_auto].
  intros st [Ht Hb Hr Ha]. by split.
Qed.

#[local] Hint Resolve steady_cmdNoop steady_cmdList steady_cmdStatus steady_cmdCreate steady_cmdDelete
  steady_cmdSubscribe steady_cmdExpunge steady_cmdAppend steady_cmdFetch steady_cmdStore steady_cmdCopyMove
  steady_cmdSearch steady_cmdIdle steady_cmdGetQuotaRoot steady_cmdGetQuota : session.

Definition dispatch_all := dispatch Authenticate Quota handshake ReadMessage parseMessage zone.
Definition turn_all := turn Authenticate Quota handshake ReadMessage parseMessage zone.
Definition command_all := run_command Authenticate Quota handshake ReadMessage parseMessage zone.

Lemma ok_run_command tag cmd p uid : keeps keeps_ok (command_all tag cmd p uid).
Proof.
  assert (forall A (m : IM A), keeps steady m -> keeps keeps_ok m) as HS by (intros A m; apply keeps_weaken, steady_ok).
  assert (forall m, keeps keeps_ok m -> keeps keeps_ok (going_on m)) as HG
    by (intros m Hm; by apply keeps_going_on; [exact _|]).
  unfold command_all, run_command.
  repeat match goal with |- keeps _ (if ?b then _ else _) => destruct b end;
    try solve [ apply HS; session_auto
              | apply ok_cmdStartTLS | apply HG, ok_cmdSelect | apply HG, ok_cmdClose | apply HG, ok_unselect
              | apply HG; intros st Ho; by apply login_cmdLogin
              | apply HG; intros st Ho; by apply login_cmdAuthenticate ].
Qed.

Lemma ok_dispatch line : keeps keeps_ok (dispatch_all line).
Proof.
  assert (forall A (m : IM A), keeps steady m -> keeps keeps_ok m) as HS by (intros A m; apply keeps_weaken, steady_ok).
  pose proof ok_run_command as HC. unfold command_all in HC.
  unfold dispatch_all, dispatch. apply keeps_bind; [exact _|apply HS; auto with session|]. intros [[tag|e] q]; [|apply HS; session_auto].
  apply keeps_bind; [exact _|apply HS; auto with session|]. intros [[cmd|e] q2]; [|apply HS; session_auto].
  destruct (upper cmd =s #"UID"); [|apply HC].
  apply keeps_bind; [exact _|apply HS; auto with session|]. intros [[sub|e] q3]; [|apply HS; session_auto].
  destruct (uid_command (upper sub)); [apply HC|apply HS; session_auto].
Qed.

Lemma ok_turn : keeps keeps_ok turn_all.
Proof.
  unfold turn_all, turn. apply keeps_bind; [exact _|eapply keeps_weaken; [exact steady_ok|auto with session]|].
  intros [line|]; [|apply keeps_ret; exact _]. destruct (trim_space line =s []); [apply keeps_ret; exact _|apply ok_dispatch].
Qed.

(** Between two turns the settings, the disk and what comes next may change. *)
Inductive reach : state -> Prop :=
| reach_new set c w idle : reach (mkState (newSession set) c set w idle)
| reach_turn st : reach st -> reach (turn_all st).2
| reach_other st set w idle : reach st -> reach (mkState (imSess st) (imConn st) set w idle).

(** C33. Whatever the client sends, a session is authenticated only under TLS,
    its account and Maildir are those that the credentials it presented were
    accepted for, it has an open mailbox exactly when it is selected, and the
    mailbox was opened under that Maildir: a folder name that is one path
    component lies in it, and no other name is kept out of it by anything but
    the path that [folderDir] makes (mailbox.go:78).  On a plaintext channel
    LOGIN and AUTHENTICATE are answered with a refusal and nothing else
    happens: no credential is read or checked. *)
Theorem imap_session_invariant st tag p :
  reach st ->
  session_ok (imSess st) /\
  (forall mb, isMbox (imSess st) = Some mb -> plain (#"." ++ bxFolder mb) ->
     abs_path (isRoot (imSess st)) `prefix_of` folderDir (bxRoot mb) (bxFolder mb)) /\
  (isTls (imSess st) = false ->
   isState (imSess st) = NotAuthenticated /\
   cmdLogin Authenticate Quota tag p st = send (tag ++ #" NO [PRIVACYREQUIRED] STARTTLS required before LOGIN") st /\
   cmdAuthenticate Authenticate Quota tag p st
     = send (tag ++ #" NO [PRIVACYREQUIRED] STARTTLS required before AUTHENTICATE") st).
Proof.
  intros Hr. assert (session_ok (imSess st)) as Ho.
  { induction Hr as [set c w idle|st Hr IH|st set w idle Hr IH]; [|by apply ok_turn|done].
    split; simpl; [done| |done|done]. split; [done|by intros []]. }
  split; [done|]. split.
  { intros mb Hm Hp. rewrite (ok_root _ Ho mb Hm). by apply folderDir_confined. }
  intros Ht. unfold cmdLogin, cmdAuthenticate, mbind, SM_bind, sess. rewrite Ht. cbn [negb].
  split; [|done]. destruct (isState (imSess st)) eqn:Es; [done| |]; destruct Ho as [H _ _ _]; rewrite Es in H; by rewrite H in Ht.
Qed.

End Session.
