(* ===== verification/ImapSafe.v ===== *)
(** * What IMAP commands change on disk

    A read-only session changes no message file; copying touches the
    destination folder only, and a move that cannot copy removes nothing. *)

From S2P Require Import Prelude GoStrings GoOS GoNet GoTime StateM MaildirFlags Maildir MaildirUID MaildirProps ImapParse ImapMime ImapFetch Imap ImapProps.

(** ** Files that may change *)

(** Only files of [P] change; the host name stays, and is one path element. *)
Definition within (P : path -> Prop) (w w' : world) : Prop :=
  "/"%char ∉ wHost w ->
  wHost w' = wHost w /\ forall q, ~ P q -> wFiles w' !! q = wFiles w !! q.

#[export] Instance within_preorder P : PreOrder (within P).
Proof.
  split; [by intros w|]. intros a b c H1 H2 Ha. destruct (H1 Ha) as [E1 F1]. rewrite <- E1 in Ha. destruct (H2 Ha) as [E2 F2].
  split; [congruence|]. intros q Hq. by rewrite F2, F1.
Qed.

Section Within.
Context (P : path -> Prop).

Lemma within_syscall {A} (f : world -> M A) :
  (forall w, within P w (f w w).2) -> leads (within P) (syscall (w ← get_world; f w)).
Proof.
  intros Hf w. unfold syscall, mbind, M_bind, next_fault, get_world, throw.
  destruct (wFaults w) as [|[| |n] fs]; cbn [fst snd]; [apply Hf| |done|done].
  intros Hh. destruct (Hf (set_faults fs w) Hh) as [E F]. done.
Qed.
Lemma within_syscall_any {A} (m : M A) : leads (within P) m -> leads (within P) (syscall m).
Proof.
  intros Hm w. unfold syscall, mbind, M_bind, next_fault, throw.
  destruct (wFaults w) as [|[| |n] fs]; cbn [fst snd]; [apply Hm| |done|done].
  intros Hh. destruct (Hm (set_faults fs w) Hh) as [E F]. done.
Qed.
Lemma within_ReadFile p : leads (within P) (ReadFile p).
Proof. apply within_syscall. intros w. by destruct (wFiles w !! p). Qed.
Lemma within_ReadDir p : leads (within P) (ReadDir p).
Proof. apply within_syscall. intros w. by case_decide. Qed.
Lemma within_Stat p : leads (within P) (Stat p).
Proof. apply within_syscall. intros w. case_decide; [done|]. by destruct (wFiles w !! p). Qed.
Lemma within_MkdirAll p : leads (within P) (MkdirAll p).
Proof. by apply within_syscall_any. Qed.
Lemma within_time_now : leads (within P) time_now.
Proof. intros w. unfold time_now. by destruct (wTicks w). Qed.
Lemma within_OpenScan p : leads (within P) (OpenScan p).
Proof.
  intros w. unfold OpenScan, mbind, M_bind, next_fault, get_world, throw.
  destruct (wFaults w) as [|[| |n] fs]; cbn [fst snd]; try done; by destruct (_ !! p).
Qed.
Lemma within_WriteFile p data : P p -> leads (within P) (WriteFile p data).
Proof.
  intros Hp w. unfold WriteFile, mbind, M_bind, next_fault, get_world, throw, store_file, modify.
  destruct (wFaults w) as [|[| |n] fs]; cbn [fst snd]; case_decide; try done;
    intros Hh; (split; [done|]); intros q Hq; simpl; apply lookup_insert_ne; by intros ->.
Qed.
Lemma within_Rename old new : P old -> P new -> leads (within P) (Rename old new).
Proof.
  intros Ho Hn. apply within_syscall. intros w. destruct (wFiles w !! old); [|done]. case_decide; [|done].
  intros _. split; [done|]. intros q Hq. simpl. rewrite lookup_insert_ne by (by intros ->). apply lookup_delete_ne. by intros ->.
Qed.
Lemma within_Remove p : P p -> leads (within P) (GoOS.Remove p).
Proof.
  intros Hp. apply within_syscall. intros w. destruct (wFiles w !! p); [|done].
  intros _. split; [done|]. intros q Hq. simpl. apply lookup_delete_ne. by intros ->.
Qed.
Lemma within_Chtimes p t : P p -> leads (within P) (Chtimes p t).
Proof.
  intros Hp. apply within_syscall_any. intros w _. split; [done|]. intros q Hq. simpl. apply lookup_alter_ne. by intros ->.
Qed.
End Within.

#[export] Hint Resolve within_ReadFile within_ReadDir within_Stat within_MkdirAll
  within_time_now within_OpenScan within_WriteFile within_Rename within_Remove within_Chtimes : disk.

(** ** The UID list *)

Definition uid_file (dir : path) (q : path) : Prop :=
  q = dir ++ [uidListFile] \/ q = dir ++ [uidListFile ++ #".tmp"].
(** A UID list, of any folder. *)
Definition uid_list_file (q : path) : Prop := exists dir, uid_file dir q.

Section UID.
Context (P : path -> Prop) (mb : Mailbox).
Hypothesis HP : forall q, uid_file (folderDir (bxRoot mb) (bxFolder mb)) q -> P q.

Lemma within_writeUIDList uids v n : leads (within P) (writeUIDList mb uids v n).
Proof.
  assert (P (uid_list_path mb) /\ P (join_path (folderDir (bxRoot mb) (bxFolder mb)) (uidListFile ++ #".tmp"))) as [H1 H2].
  { unfold uid_list_path. rewrite !join_plain by (apply (bool_decide_unpack _); vm_compute; exact I).
    split; apply HP; [by left|by right]. }
  unfold writeUIDList. leads_auto.
Qed.

Lemma within_collect sub ents : leads (within P) (collect sub ents).
Proof.
  induction ents as [|e ents IH]; cbn [collect]; [apply leads_ret; exact _|]. destruct (deFile e); [|exact IH].
  destruct (has_prefix _ _); [exact IH|]. apply leads_bind; [exact _| |intros r].
  - apply leads_try, within_syscall_any, leads_ret. exact _.
  - apply leads_bind; [exact _|exact IH|intros; apply leads_ret; exact _].
Qed.
Lemma within_scan_sub dir sub : leads (within P) (scan_sub dir sub).
Proof. pose proof within_collect. unfold scan_sub. leads_auto. Qed.
Lemma within_readUIDList : leads (within P) (readUIDList mb).
Proof. unfold readUIDList, fresh_uid_list, newUIDValidity. leads_auto. Qed.
End UID.

Lemma within_Refresh P mb : (forall q, uid_file (folderDir (bxRoot mb) (bxFolder mb)) q -> P q) ->
  leads (within P) (Refresh mb).
Proof.
  intros HP. pose proof (within_readUIDList P mb). pose proof (within_scan_sub P).
  assert (forall mb', bxRoot mb' = bxRoot mb -> bxFolder mb' = bxFolder mb -> forall u v n, leads (within P) (writeUIDList mb' u v n)) as HW.
  { intros mb' Hr Hf u v n. apply within_writeUIDList. by rewrite Hr, Hf. }
  unfold Refresh. leads_auto.
Qed.
Lemma within_refreshed P mb : (forall q, uid_file (folderDir (bxRoot mb) (bxFolder mb)) q -> P q) ->
  leads (within P) (refreshed mb).
Proof. intros HP. pose proof (within_Refresh P mb HP). unfold refreshed. leads_auto. Qed.
Lemma within_OpenMailbox P root folder : (forall q, uid_file (folderDir root folder) q -> P q) ->
  leads (within P) (OpenMailbox root folder).
Proof. intros HP. pose proof (within_refreshed P (mkMailbox root folder [] 0 0) HP). unfold OpenMailbox. leads_auto. Qed.

(** ** Storing a message *)

(** The files of a folder, without those of the folders inside it. *)
Definition folder_file (dir : path) (q : path) : Prop :=
  parent q = dir \/ parent q = dir ++ [ #"tmp"] \/ parent q = dir ++ [ #"new"] \/ parent q = dir ++ [ #"cur"].

Lemma uid_file_folder dir q : uid_file dir q -> folder_file dir q.
Proof. intros [->| ->]; left; apply parent_snoc. Qed.

Section Anything.
(** The host name stays. *)
Let P : path -> Prop := fun _ => True.

Lemma host_CreateExcl p : leads (within P) (CreateExcl p).
Proof.
  apply within_syscall. intros w. destruct (wFiles w !! p); [done|]. case_decide; [|done].
  intros _. split; [done|]. intros q []. exact I.
Qed.
Lemma host_FileWrite p data : leads (within P) (FileWrite p data).
Proof.
  intros w. unfold FileWrite, mbind, M_bind, next_fault, throw, store_file, modify.
  destruct (wFaults w) as [|[| |n] fs]; cbn [fst snd]; try done;
    intros Hh; (split; [done|]); intros q []; exact I.
Qed.
Lemma host_noop : leads (within P) (syscall (mret tt)).
Proof. apply within_syscall_any, leads_ret. exact _. Qed.
Lemma host_delivery_name : leads (within P) delivery_name.
Proof.
  unfold delivery_name. do 2 (apply leads_bind; [exact _|apply within_time_now|intros]).
  apply leads_bind; [exact _|by intros w|intros]. apply leads_bind; [exact _| |intros].
  - intros w. unfold rand_uint32. by destruct (wRand w).
  - apply leads_bind; [exact _|by intros w|intros]. apply leads_ret. exact _.
Qed.
Lemma host_Deliver dir msg : leads (within P) (Deliver dir msg).
Proof.
  pose proof host_CreateExcl. pose proof host_FileWrite. pose proof host_noop as HN. pose proof host_delivery_name.
  assert (forall p, leads (within P) (GoOS.Remove p)) by (intros p; by apply within_Remove).
  assert (forall p q, leads (within P) (Rename p q)) by (intros p q; by apply within_Rename).
  unfold Deliver, DeliverWithFlags, write_and_move. unfold FileSync, FileClose. leads_auto.
Qed.
End Anything.

Lemma within_Deliver dir msg w : "/"%char ∉ wHost w ->
  within (folder_file dir) w (Deliver dir msg w).2 /\
  match (Deliver dir msg w).1 with
  | Ok p => exists base, plain base /\ p = dir ++ [ #"new"; base]
  | Err _ => True
  end.
Proof.
  intros Hh. pose proof (wp_DeliverWithFlags dir msg [] w Hh eq_refl) as H. unfold wp, delivered in H.
  fold (Deliver dir msg) in H. destruct (host_Deliver dir msg w Hh) as [Eh _].
  destruct (Deliver dir msg w) as [[p|e] w']; cbn [fst snd] in *.
  - destruct H as ((base & Hb & Hp) & _ & Hf). cbn [landing fst snd] in Hp. split; [|by exists base].
    intros _. split; [done|]. intros q Hq. apply Hf; [|intros ->]; [|apply Hq]; [intros E; apply Hq; by right; left|].
    right; right; left. subst p. change [ #"new"; base] with ([ #"new"] ++ [base]). by rewrite app_assoc, parent_snoc.
  - split; [|done]. intros _. split; [done|]. intros q Hq. apply H. intros E. apply Hq. by right; left.
Qed.

Lemma leads_bind_at R `{!PreOrder R} {A B} (m : M A) (f : A -> M B) w :
  R w (m w).2 -> (forall a w', m w = (Ok a, w') -> R w' (f a w').2) -> R w ((m ≫= f) w).2.
Proof.
  intros Hm Hf. unfold mbind, M_bind. destruct (m w) as [[a|e] w'] eqn:E; [|exact Hm].
  etransitivity; [exact Hm|by apply Hf].
Qed.

Lemma within_Append mb data f t :
  wf_flags f -> leads (within (folder_file (folderDir (bxRoot mb) (bxFolder mb)))) (Append mb data f t).
Proof.
  intros Hf w. set (dir := folderDir (bxRoot mb) (bxFolder mb)) in *.
  cut ("/"%char ∉ wHost w -> within (folder_file dir) w (Append mb data f t w).2).
  { intros H Hh. exact (H Hh Hh). }
  intros Hh. destruct (within_Deliver dir data w Hh) as [HD Hp]. unfold Append. cbv zeta. fold dir.
  apply leads_bind_at; [exact _|exact HD|]. intros p w1 Ep. rewrite Ep in Hp. cbn [fst] in Hp.
  destruct Hp as (base & Hb & ->). destruct plain_subs as (_ & Hcur & _).
  assert (folder_file dir (dir ++ [ #"new"; base])) as H1.
  { right; right; left. change [ #"new"; base] with ([ #"new"] ++ [base]). by rewrite app_assoc, parent_snoc. }
  assert (leads (within (folder_file dir)) (refreshed mb)) as HR
    by (apply within_refreshed; intros q; apply uid_file_folder).
  apply leads_bind; [exact _| |intros _].
  { destruct t; [apply leads_try; by apply within_Chtimes|apply leads_ret; exact _]. }
  apply leads_bind; [exact _| |intros _; leads_auto].
  destruct f as [|x f]; [apply leads_ret; exact _|]. apply within_Rename; [exact H1|].
  change [ #"new"; base] with ([ #"new"] ++ [base]). rewrite app_assoc, last_snoc. cbn [default].
  rewrite (join_plain dir) by done. rewrite join_plain by (apply FileName_plain; [done|apply Hf]).
  right; right; right. apply parent_snoc.
Qed.

Lemma within_CopyTo mb m folder :
  wf_flags (mFlags m) -> leads (within (folder_file (folderDir (bxRoot mb) folder))) (CopyTo mb m folder).
Proof.
  intros Hf. unfold CopyTo. apply leads_bind; [exact _|apply within_ReadFile|]. intros data w.
  pose proof (OpenMailbox_place (bxRoot mb) folder w) as HO. apply leads_bind_at; [exact _| |].
  - apply within_OpenMailbox, uid_file_folder.
  - intros dst w1 E. rewrite E in HO. destruct HO as [HR HF].
    pose proof (within_Append dst data (mFlags m) (Some (mInternal m)) Hf) as HA. rewrite HR, HF in HA.
    revert w1 E. intros w1 _. revert w1. apply leads_bind; [exact _|exact HA|intros; apply leads_ret; exact _].
Qed.

(** ** COPY and MOVE *)

(** The session stays, and only files of [P] change. *)
Definition apart (P : path -> Prop) (st st' : state) : Prop :=
  imSess st' = imSess st /\ within P (imWorld st) (imWorld st').
#[export] Instance apart_preorder P : PreOrder (apart P).
Proof.
  split; [by intros st|]. intros a b c [E1 W1] [E2 W2]. split; [congruence|]. by etransitivity.
Qed.

Lemma apart_send P l : keeps (apart P) (send l).
Proof.
  unfold send, out. apply keeps_bind; [exact _| |intros; apply keeps_ret; exact _].
  intros st. unfold on_conn. by destruct (write_lines [l] (imConn st)).
Qed.
Lemma apart_disk P {A} (m : M A) : leads (within P) m -> keeps (apart P) (on_disk m).
Proof. intros Hm st. unfold on_disk. specialize (Hm (imWorld st)). by destruct (m (imWorld st)). Qed.

Lemma apart_copy_loop P dst l : forall st mb,
  isMbox (imSess st) = Some mb -> Forall (fun m => wf_flags (mFlags m)) (bxMessages mb) ->
  (forall q, folder_file (folderDir (bxRoot mb) dst) q -> P q) ->
  apart P st (copy_loop dst l st).2.
Proof.
  intros st mb Hm Hf HP. revert st Hm. induction l as [|i l IH]; intros st Hm; [done|].
  cbn [copy_loop]. unfold mbind, SM_bind, sess. rewrite Hm.
  destruct (bxMessages mb !! i) as [m|] eqn:Ei; [|by apply IH].
  assert (leads (within P) (CopyTo mb m dst)) as HC.
  { rewrite Forall_forall in Hf. intros w Hh. destruct (within_CopyTo mb m dst (Hf _ (list_elem_of_lookup_2 _ _ _ Ei)) w Hh) as [E F].
    split; [done|]. intros q Hq. apply F. intros H. by apply Hq, HP. }
  pose proof (apart_disk P _ HC st) as HD. destruct (on_disk (CopyTo mb m dst) st) as [[[]|e] st1]; [|exact HD].
  etransitivity; [exact HD|]. apply IH. cbn [snd] in HD. by rewrite (proj1 HD).
Qed.

(** C34. COPY, and a MOVE that stops because a copy is reported as failed or the
    session is read only, change no file outside the destination folder: no
    message of the source or of any other folder is flagged, renamed or
    removed, whichever system calls fail.  A copy whose write falls short
    without an error is not reported (maildir.go:86): MOVE then goes on. *)
Theorem copy_move_safe tag uidMode move set dst mb st :
  "/"%char ∉ wHost (imWorld st) ->
  isMbox (imSess st) = Some mb -> bxRoot mb = abs_path (isRoot (imSess st)) ->
  Forall (fun m => wf_flags (mFlags m)) (bxMessages mb) ->
  move = false \/ isReadOnly (imSess st) = true \/
    (copy_loop dst (selected set uidMode mb)
       (on_disk (OpenMailbox (abs_path (isRoot (imSess st))) dst) st).2).1 = false ->
  forall q, ~ folder_file (folderDir (abs_path (isRoot (imSess st))) dst) q ->
    wFiles (imWorld (copy_or_move tag uidMode move set dst mb st).2) !! q = wFiles (imWorld st) !! q.
Proof.
  intros Hh Hm Hr Hf Hmove. set (P := folder_file (folderDir (abs_path (isRoot (imSess st))) dst)).
  cut (apart P st (copy_or_move tag uidMode move set dst mb st).2).
  { intros [_ W]. by destruct (W Hh). }
  unfold copy_or_move. unfold mbind at 1, SM_bind at 1, sess. unfold mbind at 1, SM_bind at 1.
  pose proof (apart_disk P _ (within_OpenMailbox P (abs_path (isRoot (imSess st))) dst (uid_file_folder _)) st) as HO.
  destruct (on_disk (OpenMailbox (abs_path (isRoot (imSess st))) dst) st) as [[dstb|e] st1]; cbn [fst snd] in *;
    [|etransitivity; [exact HO|apply apart_send]].
  destruct (move && isReadOnly (imSess st)) eqn:Emr; [etransitivity; [exact HO|apply apart_send]|].
  cbv zeta. unfold mbind at 1, SM_bind at 1.
  pose proof (apart_copy_loop P dst (selected set uidMode mb) st1 mb) as HL. rewrite (proj1 HO), Hr in HL.
  specialize (HL Hm Hf (fun q H => H)).
  destruct (copy_loop dst (selected set uidMode mb) st1) as [copied st2]; cbn [fst snd] in *.
  destruct copied; cbn [negb]; [|etransitivity; [exact HO|]; etransitivity; [exact HL|apply apart_send]].
  assert (move = false) as ->.
  { destruct Hmove as [H|[H|H]]; [done| |done]. rewrite H, andb_true_r in Emr. done. }
  unfold mbind, SM_bind, mret, SM_ret. etransitivity; [exact HO|]. etransitivity; [exact HL|apply apart_send].
Qed.

(** ** Read-only sessions *)

(** As long as the session is read only it stays so, and only UID lists change. *)
Definition readonly (st st' : state) : Prop :=
  isReadOnly (imSess st) = true ->
  isReadOnly (imSess st') = true /\ within uid_list_file (imWorld st) (imWorld st').
#[export] Instance readonly_preorder : PreOrder readonly.
Proof.
  split; [by intros st|]. intros a b c H1 H2 Ha. destruct (H1 Ha) as [Hb W1]. destruct (H2 Hb) as [Hc W2].
  split; [done|]. by etransitivity.
Qed.

Lemma ro_conn {A} (f : conn -> A * conn) : keeps readonly (on_conn f).
Proof. intros st Hr. unfold on_conn. by destruct (f (imConn st)). Qed.
Lemma ro_disk {A} (m : M A) : leads (within uid_list_file) m -> keeps readonly (on_disk m).
Proof. intros Hm st Hr. unfold on_disk. specialize (Hm (imWorld st)). by destruct (m (imWorld st)). Qed.
Lemma ro_set_mbox mb : keeps readonly (set_mbox mb).
Proof. by intros st Hr. Qed.
Lemma ro_unselect : keeps readonly unselect.
Proof. by intros st Hr. Qed.
(** A handler may rely on the flag it reads. *)
Lemma ro_sess {A} (f : session -> IM A) :
  (forall s, isReadOnly s = true -> keeps readonly (f s)) -> keeps readonly (s ← sess; f s).
Proof. intros Hf st Hr. exact (Hf _ Hr st Hr). Qed.
Create HintDb readonly.
#[export] Hint Resolve ro_conn ro_set_mbox ro_unselect : readonly.

Lemma ro_out l : keeps readonly (out l).
Proof. apply ro_conn. Qed.
Lemma ro_send l : keeps readonly (send l).
Proof. unfold send. apply keeps_bind; [exact _|apply ro_out|intros; apply keeps_ret; exact _]. Qed.
#[export] Hint Resolve ro_out ro_send : readonly.
Lemma ro_send_all ls : keeps readonly (send_all ls).
Proof.
  induction ls; cbn [send_all]; [apply keeps_ret; exact _|]. apply keeps_bind; [exact _|apply ro_send|intros _; done].
Qed.
Lemma ro_readLiteral n : keeps readonly (readLiteral n).
Proof.
  unfold readLiteral. apply keeps_bind; [exact _|apply keeps_get; exact _|intros set].
  destruct (_ <? _); [apply keeps_ret; exact _|]. apply keeps_bind; [exact _|apply ro_out|intros good].
  destruct (negb good); [apply keeps_ret; exact _|apply ro_conn].
Qed.
Lemma ro_next p : keeps readonly (next_token p).
Proof. apply keeps_next; [exact _|apply ro_readLiteral]. Qed.
Lemma ro_all p : keeps readonly (all readLiteral p).
Proof. apply keeps_all_fuel; [exact _|apply ro_readLiteral]. Qed.
#[export] Hint Resolve ro_send_all ro_next ro_all : readonly.

Lemma ro_with_token p bad f : keeps readonly bad -> (forall t p, keeps readonly (f t p)) -> keeps readonly (with_token p bad f).
Proof.
  intros Hb Hf. unfold with_token. apply keeps_bind; [exact _|apply ro_next|]. intros [[t|e] q]; [apply Hf|exact Hb].
Qed.
Lemma ro_requireAuth tag fn : keeps readonly fn -> keeps readonly (requireAuth tag fn).
Proof. intros Hf. unfold requireAuth. apply ro_sess. intros s _. case_decide; [apply ro_send|exact Hf]. Qed.
Lemma ro_requireSelected tag fn : (forall mb, keeps readonly (fn mb)) -> keeps readonly (requireSelected tag fn).
Proof.
  intros Hf. unfold requireSelected. apply ro_sess. intros s _. case_decide; [|apply ro_send].
  destruct (isMbox s); [apply Hf|apply keeps_ret; exact _].
Qed.
Lemma ro_with_set tag p name f : (forall set p, keeps readonly (f set p)) -> keeps readonly (with_set tag p name f).
Proof.
  intros Hf. unfold with_set. apply ro_with_token; [apply ro_send|]. intros t q.
  destruct (parseSeqSet (tkStr t)); [apply Hf|apply ro_send].
Qed.
Lemma ro_for_all {A} (l : list A) f : (forall x, keeps readonly (f x)) -> keeps readonly (for_all l f).
Proof.
  intros Hf. induction l; cbn [for_all]; [apply keeps_ret; exact _|]. apply keeps_bind; [exact _|apply Hf|intros _; done].
Qed.
Lemma ro_going_on m : keeps readonly m -> keeps readonly (going_on m).
Proof. intros Hm. apply keeps_bind; [exact _|exact Hm|intros; apply keeps_ret; exact _]. Qed.

Ltac ro_step :=
  cbv zeta;
  match goal with
  | |- keeps _ (mret _) => apply keeps_ret; exact _
  | |- keeps _ (with_token _ _ _) => apply ro_with_token; [|intros ? ?]
  | |- keeps _ (requireAuth _ _) => apply ro_requireAuth
  | |- keeps _ (requireSelected _ _) => apply ro_requireSelected; intros ?
  | |- keeps _ (with_set _ _ _ _) => apply ro_with_set; intros ? ?
  | |- keeps _ (going_on _) => apply ro_going_on
  | |- keeps _ (for_all _ _) => apply ro_for_all; intros ?
  | |- keeps _ (on_disk _) => apply ro_disk
  | |- keeps _ (mbind _ sess) => apply ro_sess; intros ? ?
  | |- keeps _ (_ ≫= _) => apply keeps_bind; [exact _| |intros]
  | |- keeps _ (match ?x with _ => _ end) => destruct x
  | |- keeps _ ((match ?x with _ => _ end) _) => destruct x; cbv beta
  | |- keeps _ _ => apply keeps_get; exact _
  end.
Ltac ro_auto := repeat (first [solve [eauto with readonly disk]|ro_step]).

Lemma uid_file_list dir q : uid_file dir q -> uid_list_file q.
Proof. by exists dir. Qed.
Lemma ro_OpenMailbox root folder : leads (within uid_list_file) (OpenMailbox root folder).
Proof. apply within_OpenMailbox, uid_file_list. Qed.
Lemma ro_Refresh mb : leads (within uid_list_file) (Refresh mb).
Proof. apply within_Refresh, uid_file_list. Qed.
#[export] Hint Resolve ro_OpenMailbox ro_Refresh : disk.

Lemma ro_openMailbox name : keeps readonly (openMailbox name).
Proof. unfold openMailbox. ro_auto. Qed.
Lemma ro_refresh : keeps readonly refresh.
Proof. unfold refresh. ro_auto. Qed.
#[export] Hint Resolve ro_openMailbox ro_refresh : readonly.
Lemma ro_pollAndReport : keeps readonly pollAndReport.
Proof. unfold pollAndReport. ro_auto. Qed.
#[export] Hint Resolve ro_pollAndReport : readonly.

Section Commands.
Context (Authenticate : str -> str -> M str) (Quota : option (str -> Z * Z)).
Context (handshake : list str -> option (list str)).
Context (ReadMessage : str -> option mail_header) (parseMessage : str -> mimePart) (zone : Z -> Z).

Lemma leads_Read P m : leads (within P) (Read m).
Proof. apply within_ReadFile. Qed.
#[local] Hint Resolve leads_Read : disk.

Lemma leads_fetch_item P m it : leads (within P) (fetch_item ReadMessage parseMessage zone m it).
Proof.
  unfold fetch_item, envelope, bodyStructure, read_or_empty, fetchBody, section. leads_auto.
Qed.
Lemma leads_fetchItems P m spec uid : leads (within P) (fetchItems ReadMessage parseMessage zone m spec uid).
Proof.
  unfold fetchItems. generalize (splitItems spec). intros items. generalize (@nil str) as out, false as seen. revert uid.
  induction items as [|it items IH]; intros uid out seen; cbn [fetch_loop]; [apply leads_ret; exact _|].
  apply leads_bind; [exact _|apply leads_fetch_item|]. intros [[o s] u]. apply IH.
Qed.

Lemma leads_matches P f : forall msgs m crit data, leads (within P) (matches_fuel ReadMessage zone f msgs m crit data).
Proof.
  induction f as [|f IH]; intros msgs m crit data; cbn [matches_fuel]; [apply leads_ret; exact _|].
  destruct crit as [|t r]; [apply leads_ret; exact _|]. cbv zeta. unfold load, arg. leads_auto.
Qed.
Lemma leads_search P mb crit : leads (within P) (search ReadMessage zone mb crit).
Proof.
  unfold search. generalize (bxMessages mb) at 2. intros l. induction l as [|m l IH]; cbn [search_loop]; [apply leads_ret; exact _|].
  apply leads_bind; [exact _|apply leads_matches|]. intros b.
  apply leads_bind; [exact _|exact IH|intros; apply leads_ret; exact _].
Qed.
Lemma leads_Folders P root : leads (within P) (Folders root).
Proof. unfold Folders. leads_auto. Qed.
Lemma leads_CreateFolder P root f : leads (within P) (CreateFolder root f).
Proof. unfold CreateFolder, mkdirs. leads_auto. Qed.
#[local] Hint Resolve leads_fetchItems leads_search leads_Folders leads_CreateFolder : disk.

Lemma ro_fetch_one items uid i : keeps readonly (fetch_one ReadMessage parseMessage zone items uid i).
Proof.
  unfold fetch_one, message_at. apply keeps_bind; [exact _|ro_auto|]. intros [m|]; [|apply keeps_ret; exact _].
  apply keeps_bind; [exact _|ro_auto|]. intros [[payload seen]|e]; [|apply keeps_ret; exact _].
  apply ro_sess. intros s Hs. rewrite Hs. cbn [negb]. rewrite andb_false_r. cbn [andb]. ro_auto.
Qed.
#[local] Hint Resolve ro_fetch_one : readonly.

Lemma ro_cmdStore tag p uid : keeps readonly (cmdStore tag p uid).
Proof. unfold cmdStore. apply ro_requireSelected. intros mb. apply ro_sess. intros s ->. apply ro_send. Qed.
Lemma ro_cmdExpunge tag : keeps readonly (cmdExpunge tag).
Proof. unfold cmdExpunge. apply ro_requireSelected. intros mb. apply ro_sess. intros s ->. apply ro_send. Qed.
Lemma ro_cmdClose tag : keeps readonly (cmdClose tag).
Proof. unfold cmdClose. apply ro_requireSelected. intros mb. apply ro_sess. intros s ->. ro_auto. Qed.
Lemma ro_cmdFetch tag p uid : keeps readonly (cmdFetch ReadMessage parseMessage zone tag p uid).
Proof. unfold cmdFetch. ro_auto. Qed.
Lemma ro_cmdStartTLS tag : keeps readonly (cmdStartTLS handshake tag).
Proof.
  unfold cmdStartTLS. ro_auto.
Qed.
Lemma world_cmdSelect tag p examine st : within uid_list_file (imWorld st) (imWorld (cmdSelect tag p examine st).2).
Proof.
  (* from where the new mailbox is stored on only replies are sent *)
  assert (forall ls st, imWorld (send_all ls st).2 = imWorld st) as HS.
  { clear. induction ls as [|l ls IH]; intros st; [done|]. cbn [send_all]. unfold send, out, mbind, SM_bind, on_conn.
    destruct (write_lines [l] (imConn st)) as [g c]. etransitivity; [apply IH|reflexivity]. }
  assert (keeps (fun a b => within uid_list_file (imWorld a) (imWorld b)) (cmdSelect tag p examine)) as HK; [|apply HK].
  assert (PreOrder (fun a b : state => within uid_list_file (imWorld a) (imWorld b))) as HP
    by (split; [intros a; reflexivity|intros a b c H1 H2; by etransitivity]).
  set (W := fun a b : state => within uid_list_file (imWorld a) (imWorld b)) in *.
  assert (forall l, keeps W (send l)) as H1.
  { intros l st0. unfold send, out, mbind, SM_bind, on_conn. by destruct (write_lines [l] (imConn st0)). }
  assert (forall n, keeps W (readLiteral n)) as H2.
  { intros n st0. unfold readLiteral, mbind, SM_bind, settings, out, on_conn. destruct (_ <? n); [done|].
    destruct (write_lines _ (imConn st0)) as [[] c]; cbn [negb imConn]; [|done]. by destruct (ReadFull _ _ _). }
  unfold cmdSelect, requireAuth. apply keeps_bind; [exact _|apply keeps_get; exact _|]. intros s. case_decide; [apply H1|].
  unfold with_token. apply keeps_bind; [exact _|apply keeps_next; [exact _|exact H2]|]. intros [[t|e] q]; [|apply H1].
  apply keeps_bind; [exact _| |].
  - unfold openMailbox. apply keeps_bind; [exact _|apply keeps_get; exact _|]. intros s0 st0. unfold on_disk.
    pose proof (ro_OpenMailbox (abs_path (isRoot s0)) (normalizeMailbox (tkStr t)) (imWorld st0)) as HO.
    by destruct (OpenMailbox _ _ (imWorld st0)).
  - intros [mb|e]; [|apply H1]. apply keeps_bind; [exact _|by intros st0|]. intros _ st0. unfold W. by rewrite HS.
Qed.

(** SELECT and EXAMINE leave the session alone or say whether it is read
    only. *)
Definition flagged (examine : bool) (st st' : state) : Prop :=
  (isReadOnly (imSess st') = isReadOnly (imSess st) /\ isState (imSess st') = isState (imSess st)) \/
  isReadOnly (imSess st') = examine.
#[local] Instance flagged_preorder examine : PreOrder (flagged examine).
Proof.
  split; [by left|]. intros a b c [[H1 H2]|H1] [[H3 H4]|H3]; [left; by split; congruence|by right| |by right].
  right. congruence.
Qed.
Lemma flagged_steady examine {A} (m : IM A) : keeps steady m -> keeps (flagged examine) m.
Proof. apply keeps_weaken. intros st st' E. unfold steady, shape in E. injection E as E1 _ _ _ E2 _. by left. Qed.
Lemma flagged_cmdSelect tag p examine : keeps (flagged examine) (cmdSelect tag p examine).
Proof.
  unfold cmdSelect, requireAuth. apply keeps_bind; [exact _|apply keeps_get; exact _|]. intros s.
  case_decide; [apply flagged_steady, steady_send|]. unfold with_token.
  apply keeps_bind; [exact _|apply flagged_steady; auto with session|]. intros [[t|e] q]; [|apply flagged_steady, steady_send].
  apply keeps_bind; [exact _|apply flagged_steady; auto with session|].
  intros [mb|e]; [|apply flagged_steady, steady_send].
  apply keeps_bind; [exact _|by right|intros _; apply flagged_steady, steady_send_all].
Qed.
Lemma ro_examine tag p : keeps readonly (cmdSelect tag p true).
Proof.
  intros st Hr. split; [|apply world_cmdSelect]. destruct (flagged_cmdSelect tag p true st) as [[E _]|E]; congruence.
Qed.

(** The commands that write to a mailbox they name (APPEND to the open one
    too), remove one or open one for writing, IDLE, during which others write,
    and those that hand over to the account database. *)
Definition writing : list str :=
  [ #"APPEND"; #"COPY"; #"MOVE"; #"DELETE"; #"IDLE"; #"SELECT"; #"LOGIN"; #"AUTHENTICATE"].

(** A command with its tag, its arguments and the UID mode. *)
Record request := mkRequest { rqTag : str; rqCmd : str; rqArgs : str; rqUid : bool }.
Fixpoint serve_requests (l : list request) (st : state) : state :=
  match l with
  | [] => st
  | r :: l => serve_requests l
      (command_all Authenticate Quota handshake ReadMessage parseMessage zone (rqTag r) (rqCmd r) (rqArgs r) (rqUid r) st).2
  end.

Lemma ro_command tag cmd p uidMode :
  cmd ∉ writing -> keeps readonly (command_all Authenticate Quota handshake ReadMessage parseMessage zone tag cmd p uidMode).
Proof.
  intros Hc. assert (forall w, w ∈ writing -> (cmd =s w) = false) as HN by (intros w Hw; apply str_eqb_neq; by intros ->).
  unfold writing in HN. unfold command_all, run_command.
  rewrite (HN #"APPEND"), (HN #"COPY"), (HN #"MOVE"), (HN #"DELETE"), (HN #"IDLE"), (HN #"SELECT"), (HN #"LOGIN"),
    (HN #"AUTHENTICATE") by (apply (bool_decide_unpack _); vm_compute; exact I).
  cbn [orb]. destruct (cmd =s #"EXAMINE");
  repeat match goal with |- keeps _ (if ?b then _ else _) => destruct b end;
    first
      [ apply ro_cmdStartTLS | apply ro_going_on, ro_examine | apply ro_going_on, ro_cmdStore | apply ro_going_on, ro_cmdExpunge
      | apply ro_going_on, ro_cmdClose | apply ro_going_on, ro_cmdFetch
      | unfold cmdNoop, cmdList, cmdStatus, cmdCreate, cmdSubscribe, cmdSearch, cmdGetQuotaRoot, cmdGetQuota, writeQuota;
        solve [ro_auto] ].
Qed.

Lemma ro_requests l : Forall (fun r => rqCmd r ∉ writing) l -> forall st, readonly st (serve_requests l st).
Proof.
  induction 1 as [|r l Hr _ IH]; intros st; [reflexivity|]. cbn [serve_requests].
  etransitivity; [by apply ro_command|apply IH].
Qed.

(** C35. When EXAMINE has opened a mailbox, neither it nor any commands that
    follow, other than APPEND, COPY, MOVE, DELETE, SELECT, IDLE and the logins,
    add, change, rename or remove a file, the UID lists apart: STORE, EXPUNGE,
    CLOSE and a FETCH that would mark messages as seen do not either.  The
    session stays read only meanwhile. *)
Theorem examine_readonly st tag p l q :
  let st1 := (cmdSelect tag p true st).2 in
  isState (imSess st) <> Selected -> isState (imSess st1) = Selected ->
  "/"%char ∉ wHost (imWorld st) -> Forall (fun r => rqCmd r ∉ writing) l -> ~ uid_list_file q ->
  isReadOnly (imSess (serve_requests l st1)) = true /\
  wFiles (imWorld (serve_requests l st1)) !! q = wFiles (imWorld st) !! q.
Proof.
  intros st1 Hs Hs1 Hh Hl Hq. destruct (world_cmdSelect tag p true st Hh) as [Eh H1].
  assert (isReadOnly (imSess st1) = true) as Hr.
  { destruct (flagged_cmdSelect tag p true st) as [[_ E]|E]; [|exact E]. unfold st1 in Hs1. congruence. }
  destruct (ro_requests l Hl st1 Hr) as [Hr' W]. split; [done|].
  assert ("/"%char ∉ wHost (imWorld st1)) as Hh1 by (unfold st1; by rewrite Eh).
  destruct (W Hh1) as [_ H2]. by rewrite H2, H1.
Qed.
End Commands.
