(* ===== verification/ImapRuns.v ===== *)
(** * IMAP sessions on concrete inputs

    Witnesses of the session theorems, and runs that show how the server
    behaves where its comments or the protocol say otherwise. *)

From S2P Require Import Prelude GoStrings GoOS GoNet GoTime StateM MaildirFlags Maildir ImapParse ImapMime ImapFetch Imap ImapProps ImapSafe.

Definition authenticates (user pass : str) : M str :=
  if pass =s #"secret" then mret #"/u" else throw (ErrText #"denied").
Definition no_handshake (raw : list str) : option (list str) := Some raw.
Definition no_header (data : str) : option mail_header := None.
Definition one_part (data : str) : mimePart := mkPart #"TEXT" #"PLAIN" ∅ #"7BIT" [] [] [] data [].
Definition utc (t : Z) : Z := 0.

Definition starttls_settings : Settings := mkSettings #"mx" true false 1000.
Definition tls_settings : Settings := mkSettings #"mx" true true 1000.

Definition client (lines : list str) : conn := mkConn (mkReader [] (map (fun l => l ++ CRLF) lines)) [] None.
Definition disk (files : list (path * str)) : world :=
  mkWorld (list_to_map (map (fun pd : path * str => (pd.1, mkFile pd.2 0)) files))
    {[ []; [ #"u"]; [ #"u"; #"new"]; [ #"u"; #"cur"]; [ #"u"; #"tmp"]]} [] 10000000000 [] [] 0 7 #"mx".

(** A connection after a number of turns. *)
Fixpoint turns (n : nat) (st : state) : state :=
  match n with 0%nat => st | S k => turns k (turn_all authenticates None no_handshake no_header one_part utc st).2 end.
Definition start (set : Settings) (lines : list str) (w : world) : state :=
  mkState (newSession set) (client lines) set w [].
Definition replies (st : state) : list str := cnOut (imConn st).

Lemma reach_after n st :
  reach authenticates None no_handshake no_header one_part utc st ->
  reach authenticates None no_handshake no_header one_part utc (turns n st).
Proof. revert st. induction n as [|n IH]; intros st H; [done|]. cbn [turns]. apply IH. by constructor. Qed.

(** ** Witnesses *)

(** A plaintext session that tries to log in and asks for the capabilities, and
    one under TLS that has selected a folder. *)
Definition plaintext : state := turns 2 (start starttls_settings [ #"a LOGIN bob secret"; #"b CAPABILITY"] (disk [])).
Definition in_folder : state := turns 2 (start tls_settings [ #"a LOGIN Bob secret"; #"b SELECT Work"] (disk [])).
Definition work : Mailbox := mkMailbox [ #"u"] #"Work" [] 1410065408 1.

Lemma imap_session_invariant_witness :
  isTls (imSess plaintext) = false /\ isState (imSess plaintext) = NotAuthenticated /\
  replies plaintext =
    [ #"a NO [PRIVACYREQUIRED] STARTTLS required before LOGIN";
      #"* CAPABILITY IMAP4rev1 IDLE UIDPLUS MOVE NAMESPACE CHILDREN SPECIAL-USE STARTTLS LOGINDISABLED";
      #"b OK CAPABILITY completed"] /\
  isMbox (imSess in_folder) = Some work /\ [ #"u"] `prefix_of` folderDir (bxRoot work) (bxFolder work) /\
  exists user pass w, (authenticates user pass w).1 = Ok (isRoot (imSess in_folder)) /\ #"bob" = to_lower user.
Proof.
  assert (reach authenticates None no_handshake no_header one_part utc plaintext) as Hp
    by (apply reach_after; constructor).
  assert (reach authenticates None no_handshake no_header one_part utc in_folder) as Hf
    by (apply reach_after; constructor).
  assert (isMbox (imSess in_folder) = Some work) as Hm by (vm_compute; reflexivity).
  pose proof (imap_session_invariant authenticates None no_handshake no_header one_part utc plaintext [] [] Hp)
    as (_ & _ & Hplain).
  pose proof (imap_session_invariant authenticates None no_handshake no_header one_part utc in_folder [] [] Hf)
    as (Hok & Hdir & _).
  assert (isTls (imSess plaintext) = false) as Ht by (vm_compute; reflexivity).
  split; [exact Ht|]. split; [exact (proj1 (Hplain Ht))|]. split; [vm_compute; reflexivity|]. split; [exact Hm|].
  split; [apply (Hdir work Hm); apply (bool_decide_unpack _); vm_compute; exact I|].
  destruct (ok_account _ _ Hok ltac:(vm_compute; discriminate)) as (user & pass & w & E & Eu).
  exists user, pass, w. split; [exact E|]. etransitivity; [|exact Eu]. vm_compute. reflexivity.
Defined.

(** A message without its file, and another one. *)
Definition gone : Message := mkMessage 1 1 #"gone:2,S" #"cur" #"S" false 4 0 [ #"u"] Inbox.
Definition there : Message := mkMessage 2 2 #"there:2,S" #"cur" #"S" false 4 0 [ #"u"] Inbox.
Definition two_messages : Mailbox := mkMailbox [ #"u"] Inbox [there; gone] 1 3.
Definition there_path : path := [ #"u"; #"cur"; #"there:2,S"].
Definition selected_state (readOnly : bool) : state :=
  mkState (mkSession Selected true #"bob" #"/u" (Some two_messages) readOnly) (client []) tls_settings
    (disk [(there_path, #"mail")]) [].

Lemma copy_move_safe_witness :
  (copy_loop #"Archive" (selected [(1, 2)] false two_messages)
    (on_disk (OpenMailbox [ #"u"] #"Archive") (selected_state false)).2).1 = false /\
  wFiles (imWorld (copy_or_move #"a" false true [(1, 2)] #"Archive" two_messages (selected_state false)).2) !! there_path
  = wFiles (imWorld (selected_state false)) !! there_path.
Proof.
  assert ((copy_loop #"Archive" (selected [(1, 2)] false two_messages)
    (on_disk (OpenMailbox [ #"u"] #"Archive") (selected_state false)).2).1 = false) as Hc by (vm_compute; reflexivity).
  split; [exact Hc|].
  apply (copy_move_safe #"a" false true [(1, 2)] #"Archive" two_messages (selected_state false)).
  - apply (bool_decide_unpack _). vm_compute. exact I.
  - reflexivity.
  - reflexivity.
  - constructor; [|constructor; [|constructor]]; (split; [repeat constructor|reflexivity]).
  - right. right. exact Hc.
  - intros H. revert H. unfold folder_file. apply (bool_decide_unpack _). vm_compute. exact I.
Defined.

(** EXAMINE, and then everything that would change a message. *)
Definition logged_in : state :=
  mkState (mkSession Authenticated true #"bob" #"/u" None false) (client []) tls_settings
    (disk [(there_path, #"mail")]) [].
Definition attempts : list request :=
  [ mkRequest #"b" #"STORE" #"1 +FLAGS (\Deleted)" false; mkRequest #"c" #"FETCH" #"1 BODY[]" false;
    mkRequest #"d" #"EXPUNGE" [] false; mkRequest #"e" #"CLOSE" [] false].
Definition examined : state := (cmdSelect #"a" #"INBOX" true logged_in).2.

Lemma examine_readonly_witness :
  let st := serve_requests authenticates None no_handshake no_header one_part utc attempts examined in
  last (replies examined) = Some #"a OK [READ-ONLY] EXAMINE completed" /\
  last (replies st) = Some #"e OK CLOSE completed" /\
  #"b NO mailbox is read-only" ∈ replies st /\
  wFiles (imWorld st) !! there_path = wFiles (imWorld logged_in) !! there_path.
Proof.
  cbv zeta. split; [vm_compute; reflexivity|]. split; [vm_compute; reflexivity|].
  split; [apply (bool_decide_unpack _); vm_compute; exact I|].
  refine (proj2 (examine_readonly authenticates None no_handshake no_header one_part utc logged_in #"a" #"INBOX"
    attempts there_path _ _ _ _ _)).
  - discriminate.
  - vm_compute. reflexivity.
  - apply (bool_decide_unpack _). vm_compute. exact I.
  - apply (bool_decide_unpack _). vm_compute. exact I.
  - intros (dir & [E|E]); apply (f_equal last) in E; rewrite last_snoc in E; vm_compute in E; discriminate E.
Defined.

(** ** What the server does *)

(** Under TLS the account opens its mailbox and stores a flag. *)
Example session_stores :
  let st := turns 3 (start tls_settings [ #"a LOGIN bob secret"; #"b SELECT inbox"; #"c STORE 1 +FLAGS (\Seen)"]
                       (disk [([ #"u"; #"new"; #"m1"], #"mail")])) in
  isState (imSess st) = Selected /\ last (replies st) = Some #"c OK STORE completed" /\
  fData <$> wFiles (imWorld st) !! [ #"u"; #"cur"; #"m1:2,S"] = Some #"mail".
Proof. vm_compute. done. Qed.

(** A literal ends its line, so the second argument of LOGIN cannot follow it,
    and what follows is taken for a command. *)
Example login_with_literals :
  let st := turns 2 (start tls_settings [ #"a LOGIN {3}"; #"bob secret"; #"b NOOP"] (disk [])) in
  isState (imSess st) = NotAuthenticated /\
  replies st = [ #"+ ready for literal"; #"a BAD LOGIN needs a username and a password"; #"secret BAD missing command"].
Proof. vm_compute. done. Qed.

(** UID EXPUNGE removes every message marked as deleted, whatever UIDs it names. *)
Example uid_expunge_ignores_set :
  let st := turns 3 (start tls_settings [ #"a LOGIN bob secret"; #"b SELECT INBOX"; #"c UID EXPUNGE 7"]
                       (disk [([ #"u"; #"cur"; #"m1:2,T"], #"mail")])) in
  wFiles (imWorld st) !! [ #"u"; #"cur"; #"m1:2,T"] = None /\
  list_find (fun l => l = #"* 1 EXPUNGE") (replies st) <> None.
Proof. vm_compute. done. Qed.

(** Selecting a mailbox that does not exist creates it: the answer that it does
    not exist is never given for want of a folder. *)
Example select_creates :
  let st := turns 2 (start tls_settings [ #"a LOGIN bob secret"; #"b EXAMINE Nowhere"] (disk [])) in
  isState (imSess st) = Selected /\ [ #"u"; #".Nowhere"; #"cur"] ∈ wDirs (imWorld st).
Proof. split; [vm_compute; reflexivity|]. apply (bool_decide_unpack _). vm_compute. exact I. Qed.

(** The BYE that ends a long IDLE does not end the session. *)
Example idle_bye_goes_on :
  let st := turns 3 (mkState (newSession tls_settings)
                       (client [ #"a LOGIN bob secret"; #"b SELECT INBOX"; #"c IDLE"; #"d NOOP"]) tls_settings (disk []) [Deadline 0]) in
  let st' := turns 1 st in
  drop (length (replies st) - 2) (replies st) = [ #"* BYE idle timeout"; #"c OK IDLE terminated"] /\
  last (replies st') = Some #"d OK NOOP completed".
Proof. vm_compute. done. Qed.
