(* ===== verification/Supervisor.v ===== *)
(** * The daemon's supervisor (cmd/verta/main.go, [runDaemon])

    What the daemon builds from its configuration when it starts, which
    listeners it binds and with which settings, and its loop over certificate
    refreshes, SIGHUPs and reloads asked for through the API.  Whether an
    address can be bound is part of an event, as is what the disk holds.  A
    set of limiters is shared by the servers that use it; it carries the number
    of its allocation. *)

From S2P Require Import Prelude GoStrings GoOS Config Settings ConfigLoad.
From S2P Require CertStore RateLimit Governor Container Reputation Auth Pace Egress Blacklist Stats Smtp Imap Pop3 Daemon Clamav.

#[global] Open Scope Z_scope.

(** ** Settings from a configuration *)

Definition minute : Z := 60 * 10 ^ 9.

Record limitSet := mkLimitSet {
  lmNumber : nat;
  lmIn : option RateLimit.Inbound;
  lmOut : option RateLimit.Outbound;
  lmGov : option Governor.Governor }.

Definition newLimits (n : nat) (l : Loaded) : limitSet :=
  let c := cfRateLimit (ldRoot l) in
  let ip := ibIP (rlInbound c) in
  let user := ouUser (rlOutbound c) in
  mkLimitSet n
    (if is_enabled (ibEnabled (rlInbound c))
     then Some (RateLimit.NewInbound (ilConnections ip) (ilMessages ip) (ilRecipients ip)) else None)
    (if is_enabled (ouEnabled (rlOutbound c))
     then Some (RateLimit.NewOutbound (ulMessagesPerHour user) (ulRecipientsPerHour user)) else None)
    (Governor.NewGovernor (ldGovRules l)).

Definition identity (c : Root) : Container.Identity :=
  Container.mkIdentity (ctEnabled (cfContainer c)) (svHostname (cfServer c))
    (ctPublicIP (cfContainer c)) (ctInternalIP (cfContainer c)).

Definition tlsParams (c : Root) : CertStore.Params :=
  CertStore.mkParams (tlCertRoot (cfTLS c)) (svHostname (cfServer c)) (map (fun h => dName (hdDomain h)) (cfDomains c))
    (tlMinVersion (cfTLS c)) (tlExpiryWarnDays (cfTLS c)).

Definition warmUp (c : Root) : Reputation.WarmUp := rpWarmUp (cfReputation c).

(** What the hooks of the back end read of the configuration. *)
Definition policies (c : Root) : Daemon.Policies :=
  Daemon.mkPolicies (svHostname (cfServer c)) (is_enabled (maEnabled (cfMailAuth c))) (is_enabled (maEnforce (cfMailAuth c)))
    (blRejectListed (cfBlacklist c)) (is_enabled (asEnabled (cfAntispam c))) (asTagScore (cfAntispam c))
    (asQuarantineScore (cfAntispam c)) (asRejectScore (cfAntispam c)) (is_enabled (asRejectExecutables (cfAntispam c)))
    (warmUp c).

(** What is built once, when the daemon starts. *)
Definition auth_guard (c : Root) : Auth.Guard :=
  Auth.NewGuard (auMaxFailures (cfAuth c)) (CertStore.wrap64 (auLockoutMinutes (cfAuth c) * minute)).
Definition blacklist (c : Root) : option Blacklist.Checker :=
  if is_enabled (blEnabled (cfBlacklist c)) then
    Some (Blacklist.New (blDNSBL (cfBlacklist c)) (blURIBL (cfBlacklist c))
            (CertStore.wrap64 (blCacheMinutes (cfBlacklist c) * minute)))
  else None.
Definition antivirus (c : Root) : option Clamav.ClamAV :=
  if avEnabled (cfAntivirus c) then
    Some (Clamav.New (avSocket (cfAntivirus c)) (CertStore.wrap64 (avTimeoutSeconds (cfAntivirus c) * 10 ^ 9)))
  else None.
(** The scanner is a part of the antispam engine. *)
Definition engine_scanner (c : Root) : option Clamav.ClamAV :=
  if is_enabled (asEnabled (cfAntispam c)) then antivirus c else None.
Definition egress (c : Root) : option Egress.Selector :=
  Egress.egressSelector (egStrategy (cfEgress c))
    (map (fun a => Egress.mkAddress (eaAddress a) (eaHELO a) (eaBind a) (eaDomains a)) (egAddresses (cfEgress c)))
    (omap (fun a => (fun o => (uEmail (acUser a), opEgressIP o)) <$> acOutbound a) (cfUsers c))
    (map (fun h => (dName (hdDomain h), opEgressIP (hdOutbound h))) (cfDomains c)).
Definition pacing (l : Loaded) : option Pace.Throttle := Pace.New (ldThrottle l).

Section Listeners.
(** The counters are shared by all servers. *)
Context {Certificate : Type} (counters : option Stats.Counters).
Abbreviation Store := (CertStore.Store Certificate).

Inductive settings :=
| SetSMTP (s : Smtp.Settings)
| SetIMAP (s : Imap.Settings)
| SetPOP3 (s : Pop3.Settings).

Definition offers_tls (implicit : bool) (store : Store) : bool :=
  negb implicit && negb (bool_decide (CertStore.Loaded store = [])).

Definition smtpSettings (l : Loaded) (store : Store) (mode : Smtp.Mode) (implicit : bool) (lim : limitSet) : Smtp.Settings :=
  let c := ldRoot l in
  Smtp.mkSettings (svHostname (cfServer c)) (smMaxSize (cfSMTP c)) (smMaxRecipients (cfSMTP c)) mode implicit
    (offers_tls implicit store) (lmIn lim) (lmOut lim) (lmGov lim) (identity c) counters.
Definition imapSettings (l : Loaded) (store : Store) (implicit : bool) : Imap.Settings :=
  Imap.mkSettings (svHostname (cfServer (ldRoot l))) (offers_tls implicit store) implicit (smMaxSize (cfSMTP (ldRoot l))).
Definition pop3Settings (l : Loaded) (store : Store) (implicit : bool) : Pop3.Settings :=
  Pop3.mkSettings (svHostname (cfServer (ldRoot l))) (offers_tls implicit store) implicit.

(** ** Listeners *)

Inductive kind := KSMTP (mode : Smtp.Mode) | KIMAP | KPOP3.
Record spec := mkSpec { spName : str; spAddr : str; spKind : kind; spImplicit : bool }.

(** The listeners in the order of [ensureListeners]. *)
Definition specs (c : Root) : list spec :=
  let l := cfListeners c in
  [mkSpec #"smtp" (lsSMTP l) (KSMTP Smtp.ModeInbound) false;
   mkSpec #"submission" (lsSubmission l) (KSMTP Smtp.ModeSubmission) false;
   mkSpec #"smtps" (lsSMTPS l) (KSMTP Smtp.ModeSubmission) true;
   mkSpec #"imap" (lsIMAP l) KIMAP false;
   mkSpec #"imaps" (lsIMAPS l) KIMAP true;
   mkSpec #"pop3" (lsPOP3 l) KPOP3 false;
   mkSpec #"pop3s" (lsPOP3S l) KPOP3 true].

(** The protocols that carry credentials. *)
Definition needs_certificate (k : kind) : bool :=
  match k with KSMTP Smtp.ModeInbound => false | _ => true end.

Definition settings_of (l : Loaded) (store : Store) (lim : limitSet) (k : kind) (implicit : bool) : settings :=
  match k with
  | KSMTP mode => SetSMTP (smtpSettings l store mode implicit lim)
  | KIMAP => SetIMAP (imapSettings l store implicit)
  | KPOP3 => SetPOP3 (pop3Settings l store implicit)
  end.

(** A running server.  An implicit TLS listener keeps the minimum version it
    was bound with, the settings are replaced. *)
Record running := mkRunning {
  rnSpec : spec;
  rnVersion : CertStore.version;
  rnSettings : settings }.

Record api := mkAPI { aiAddr : str; aiKeys : list str }.

Record daemon := mkDaemon {
  daManager : Manager;
  daStore : Store;
  daLimits : limitSet;
  daRunning : list running;
  daBound : gmap str str;
  daAPI : option api }.

Definition has_certificate (store : Store) : bool := negb (bool_decide (CertStore.Loaded store = [])).
Definition is_bound (d : daemon) (name : str) : bool := negb (default [] (daBound d !! name) =s []).

Definition with_bound (d : daemon) (rs : list running) (name addr : str) (a : option api) : daemon :=
  mkDaemon (daManager d) (daStore d) (daLimits d) rs (<[name := addr]> (daBound d)) a.

Definition open_listener (l : Loaded) (sp : spec) (d : daemon) : daemon :=
  with_bound d
    (daRunning d ++ [mkRunning sp (CertStore.MinVersion (daStore d))
                       (settings_of l (daStore d) (daLimits d) (spKind sp) (spImplicit sp))])
    (spName sp) (spAddr sp) (daAPI d).
Definition open_api (l : Loaded) (d : daemon) : daemon :=
  let a := cfAPI (ldRoot l) in
  with_bound d (daRunning d) #"api" (apAddress a) (Some (mkAPI (apAddress a) (apKeys a))).

Section Bind.
(** [net.Listen] for a name and an address. *)
Context (listen : str -> str -> bool).

(** One listener; the flag tells of an address that cannot be bound. *)
Definition ensure_one (l : Loaded) (sp : spec) (d : daemon) : bool * daemon :=
  if (spAddr sp =s []) || is_bound d (spName sp) then (false, d)
  else if needs_certificate (spKind sp) && negb (has_certificate (daStore d)) then (false, d)
  else if listen (spName sp) (spAddr sp) then (false, open_listener l sp d)
  else (true, d).

Fixpoint ensure_all (l : Loaded) (sps : list spec) (d : daemon) : bool * daemon :=
  match sps with
  | [] => (false, d)
  | sp :: r => let '(e1, d) := ensure_one l sp d in let '(e2, d) := ensure_all l r d in (e1 || e2, d)
  end.

Definition ensure_api (l : Loaded) (d : daemon) : bool * daemon :=
  let a := cfAPI (ldRoot l) in
  if negb (apEnabled a) || is_bound d #"api" then (false, d)
  else if negb (has_certificate (daStore d)) then (false, d)
  else if listen #"api" (apAddress a) then (false, open_api l d)
  else (true, d).

Definition ensureListeners (l : Loaded) (d : daemon) : bool * daemon :=
  let '(e1, d) := ensure_all l (specs (ldRoot l)) d in
  let '(e2, d) := ensure_api l d in
  (e1 || e2, d).
End Bind.

(** [Update] of every server. *)
Definition updateAll (l : Loaded) (d : daemon) : daemon :=
  mkDaemon (daManager d) (daStore d) (daLimits d)
    (map (fun r => mkRunning (rnSpec r) (rnVersion r)
                     (settings_of l (daStore d) (daLimits d) (spKind (rnSpec r)) (spImplicit (rnSpec r)))) (daRunning d))
    (daBound d) (daAPI d).

(** ** The loop *)

Definition set_manager (d : daemon) (m : Manager) : daemon :=
  mkDaemon m (daStore d) (daLimits d) (daRunning d) (daBound d) (daAPI d).
Definition set_store (d : daemon) (s : Store) : daemon :=
  mkDaemon (daManager d) s (daLimits d) (daRunning d) (daBound d) (daAPI d).
Definition set_limits (d : daemon) (lim : limitSet) : daemon :=
  mkDaemon (daManager d) (daStore d) lim (daRunning d) (daBound d) (daAPI d).

(** What an event finds: the certificates on disk, the addresses that can be
    bound, the time. *)
Record surroundings := mkSurroundings {
  suPairs : str -> str -> result str (CertStore.entry Certificate);
  suListen : str -> str -> bool;
  suNow : Z }.

Inductive event :=
| Refresh (su : surroundings)               (** the ticker *)
| Hup (disk : world) (su : surroundings)    (** SIGHUP *)
| APIReload (disk : world).                 (** POST /api/v1/reload: [mgr.Reload] *)

Context `{YamlCodec} (ParseIP : str -> option Container.IP).

Definition reload_store (su : surroundings) (d : daemon) : daemon :=
  set_store d (CertStore.Reload (suPairs su) (tlsParams (ldRoot (Get (daManager d)))) (suNow su)).1.

(** [mgr.Reload] on a disk, and whether it worked. *)
Definition reload_manager (disk : world) (d : daemon) : bool * daemon :=
  match Reload ParseIP (daManager d) disk with
  | (Ok (Ok _, m), _) => (true, set_manager d m)
  | (Ok (Err _, m), _) => (false, set_manager d m)
  | (Err _, _) => (false, d)
  end.

(** After the certificates: settings for the servers that run, then the
    listeners that are missing. *)
Definition enforce (su : surroundings) (d : daemon) : daemon :=
  (ensureListeners (suListen su) (Get (daManager d)) (updateAll (Get (daManager d)) d)).2.

Definition step (d : daemon) (ev : event) : daemon :=
  match ev with
  | Refresh su => enforce su (reload_store su d)
  | Hup disk su =>
      match reload_manager disk d with
      | (false, d) => d
      | (true, d) =>
          let d := reload_store su d in
          enforce su (set_limits d (newLimits (S (lmNumber (daLimits d))) (Get (daManager d))))
      end
  | APIReload disk => (reload_manager disk d).2
  end.

(** From the command line to the loop: a configuration that does not load and
    an address that cannot be bound end the daemon. *)
Definition start (p : path) (disk : world) (su : surroundings) : option daemon :=
  match NewManager ParseIP p disk with
  | (Ok (Ok m), _) =>
      let l := Get m in
      let store := (CertStore.New (suPairs su) (tlsParams (ldRoot l)) (suNow su)).1 in
      let '(failed, d) := ensureListeners (suListen su) l (mkDaemon m store (newLimits 0 l) [] ∅ None) in
      if failed : bool then None else Some d
  | _ => None
  end.

(** A daemon that started and has seen some events. *)
Inductive reachable (p : path) : daemon -> Prop :=
| reach_start disk su d : start p disk su = Some d -> reachable p d
| reach_step d ev : reachable p d -> reachable p (step d ev).
End Listeners.
