(* ===== verification/SupervisorProps.v ===== *)
(** * What the supervisor keeps

    The running configuration is sound, a protocol that carries credentials is
    opened when a certificate is there, a listener that is open stays open, and
    a reload that works puts the new configuration in force. *)

From S2P Require Import Prelude GoStrings GoOS GoValues Config Settings ConfigLoad ConfigProps Supervisor.
From S2P Require CertStore RateLimit Governor Container Reputation Auth Pace Stats Smtp Imap Pop3.
From Stdlib Require Import QArith.
From stdpp Require Import relations.

#[global] Open Scope Z_scope.

Section Loop.
Context {Certificate : Type} (counters : option Stats.Counters).
Context `{YamlCodec} (ParseIP : str -> option Container.IP).
Abbreviation daemon := (@daemon Certificate).
Implicit Types d : daemon.

(** ** Opening listeners *)

(** One listener that is opened. *)
Inductive opens (listen : str -> str -> bool) (l : Loaded) : daemon -> daemon -> Prop :=
| opens_listener sp d :
    sp ∈ specs (ldRoot l) -> spAddr sp <> [] -> is_bound d (spName sp) = false ->
    (needs_certificate (spKind sp) = true -> has_certificate (daStore d) = true) ->
    opens listen l d (open_listener counters l sp d)
| opens_api d :
    apEnabled (cfAPI (ldRoot l)) = true -> is_bound d #"api" = false -> has_certificate (daStore d) = true ->
    opens listen l d (open_api l d).

Lemma ensure_all_opens listen l sps d : (forall sp, sp ∈ sps -> sp ∈ specs (ldRoot l)) ->
  rtc (opens listen l) d (ensure_all counters listen l sps d).2.
Proof.
  revert d. induction sps as [|sp sps IH]; intros d Hin; cbn [ensure_all]; [apply rtc_refl|].
  assert (rtc (opens listen l) d (ensure_one counters listen l sp d).2) as H1.
  { unfold ensure_one. destruct (str_eqb_spec (spAddr sp) []) as [E|Ha]; [apply rtc_refl|].
    destruct (is_bound d (spName sp)) eqn:Eb; [apply rtc_refl|]. cbn [orb].
    destruct (needs_certificate (spKind sp) && negb (has_certificate (daStore d))) eqn:Ec; [apply rtc_refl|].
    destruct (listen _ _); [|apply rtc_refl]. apply rtc_once, opens_listener; [by apply Hin; left|done|done|].
    intros Hn. rewrite Hn in Ec. by apply negb_false_iff in Ec. }
  destruct (ensure_one counters listen l sp d) as [e1 d1]. cbn [snd] in H1.
  assert (rtc (opens listen l) d1 (ensure_all counters listen l sps d1).2) as H2
    by (apply IH; intros; by apply Hin; right).
  destruct (ensure_all counters listen l sps d1) as [e2 d2]. by etrans.
Qed.

Lemma ensureListeners_opens listen l d : rtc (opens listen l) d (ensureListeners counters listen l d).2.
Proof.
  unfold ensureListeners. pose proof (ensure_all_opens listen l (specs (ldRoot l)) d (fun _ h => h)) as H1.
  destruct (ensure_all _ _ _ _ _) as [e1 d1]. cbn [snd] in H1.
  assert (rtc (opens listen l) d1 (ensure_api listen l d1).2) as H2.
  { unfold ensure_api. destruct (apEnabled _) eqn:E1; [|apply rtc_refl]. cbn [negb orb].
    destruct (is_bound d1 _) eqn:E2; [apply rtc_refl|]. destruct (has_certificate _) eqn:E3; [|apply rtc_refl]. cbn [negb].
    destruct (listen _ _); [|apply rtc_refl]. by apply rtc_once, opens_api. }
  destruct (ensure_api listen l d1) as [e2 d2]. by etrans.
Qed.

(** What opening leaves alone. *)
Definition stays (d d' : daemon) : Prop :=
  daManager d' = daManager d /\ daStore d' = daStore d /\ daLimits d' = daLimits d /\
  (forall r, r ∈ daRunning d -> r ∈ daRunning d') /\
  (forall n, is_bound d n = true -> daBound d' !! n = daBound d !! n) /\
  (forall n, n <> #"smtp" -> is_bound d n = false -> is_bound d' n = true -> has_certificate (daStore d) = true).

#[local] Instance stays_refl : Reflexive stays.
Proof. intros d. split_and!; try done. intros n _ E1 E2. congruence. Qed.
#[local] Instance stays_trans : Transitive stays.
Proof.
  intros d1 d2 d3 (E1 & E2 & E3 & H1 & H2 & H3) (F1 & F2 & F3 & G1 & G2 & G3).
  split_and!; try congruence; [auto|..].
  - intros n Hn. rewrite G2, H2; [done|done|]. unfold is_bound in *. by rewrite H2.
  - intros n Hn E F. destruct (is_bound d2 n) eqn:E'; [by eapply H3|]. rewrite <- E2. by eapply G3.
Qed.

Lemma is_bound_insert d rs n a x m :
  is_bound (with_bound d rs n a x) m = if decide (m = n) then negb (a =s []) else is_bound d m.
Proof.
  unfold is_bound, with_bound. cbn [daBound]. case_decide as E.
  - subst. by rewrite lookup_insert_eq.
  - by rewrite lookup_insert_ne.
Qed.

Lemma specs_smtp c sp : sp ∈ specs c -> spName sp <> #"smtp" -> needs_certificate (spKind sp) = true.
Proof.
  intros Hsp. repeat (apply elem_of_cons in Hsp as [->|Hsp]; [done|]). by apply elem_of_nil in Hsp.
Qed.

Lemma opens_stays listen l d d' : opens listen l d d' -> stays d d'.
Proof.
  intros [sp d0 Hin Ha Hb Hc|d0 He Hb Hc]; unfold stays, open_listener, open_api;
    cbn [with_bound daManager daStore daLimits daRunning]; split_and!; try done.
  - intros r Hr. apply elem_of_app. by left.
  - intros n Hn. cbn [daBound]. apply lookup_insert_ne. intros <-. congruence.
  - intros n Hn E. rewrite is_bound_insert. case_decide as Ed; [|congruence]. subst n. intros _. by eapply Hc, specs_smtp.
  - intros n Hn. cbn [daBound]. apply lookup_insert_ne. intros <-. congruence.
Qed.

Lemma ensureListeners_stays listen l d : stays d (ensureListeners counters listen l d).2.
Proof.
  induction (ensureListeners_opens listen l d) as [|d1 d2 d3 Ho _ IH]; [reflexivity|].
  etrans; [by eapply opens_stays|done].
Qed.

(** ** The invariant *)

(** Settings that come from a sound configuration. *)
Definition from_sound (r : running) : Prop :=
  exists l (store : CertStore.Store Certificate) lim, loaded_ok ParseIP l /\
    rnSettings r = settings_of counters l store lim (spKind (rnSpec r)) (spImplicit (rnSpec r)).

Record daemon_ok (d : daemon) : Prop := {
  do_config : loaded_ok ParseIP (Get (daManager d));
  do_names : NoDup (map (fun r => spName (rnSpec r)) (daRunning d));
  do_bound : Forall (fun r => daBound d !! spName (rnSpec r) = Some (spAddr (rnSpec r)) /\
                              spAddr (rnSpec r) <> [] /\ spName (rnSpec r) <> #"api") (daRunning d);
  do_settings : Forall from_sound (daRunning d);
  do_api : match daAPI d with
           | Some a => daBound d !! #"api" = Some (aiAddr a) /\ aiAddr a <> [] /\ aiKeys a <> []
           | None => daBound d !! #"api" = None
           end }.

Lemma specs_not_api c sp : sp ∈ specs c -> spName sp <> #"api".
Proof. intros Hsp. repeat (apply elem_of_cons in Hsp as [->|Hsp]; [done|]). by apply elem_of_nil in Hsp. Qed.

Lemma addr_ok_nonempty a : addr_ok ParseIP a -> a <> [].
Proof. intros (h & p & n & E & _) ->. vm_compute in E. discriminate E. Qed.

Lemma opens_ok listen d d' : opens listen (Get (daManager d)) d d' -> daemon_ok d -> daemon_ok d'.
Proof.
  intros Ho. remember (Get (daManager d)) as l eqn:El. destruct Ho as [sp d Hin Ha Hb Hc|d He Hb Hc];
    intros [Hconf Hn Hbd Hs Hapi]; split; cbn [open_listener open_api with_bound daManager daRunning daAPI daBound]; try done.
  - rewrite map_app. apply NoDup_app. split_and!; [done| |apply NoDup_singleton].
    intros n Hin' Hn'. apply list_elem_of_singleton in Hn'. cbn [rnSpec] in Hn'. subst n.
    apply list_elem_of_In, in_map_iff in Hin' as (r & E & Hr). apply list_elem_of_In in Hr.
    rewrite Forall_forall in Hbd. destruct (Hbd r Hr) as (Eb & Hne & _). unfold is_bound in Hb.
    rewrite <- E, Eb in Hb. cbn in Hb. apply negb_false_iff, str_eqb_eq in Hb. done.
  - apply Forall_app. split; [|apply Forall_singleton; cbn [rnSpec]; split_and!; [apply lookup_insert_eq|done|by eapply specs_not_api]].
    eapply Forall_impl; [exact Hbd|]. cbn. intros r (Eb & Hne & Hna). split_and!; try done.
    rewrite lookup_insert_ne; [done|]. intros E. unfold is_bound in Hb. rewrite E, Eb in Hb.
    cbn in Hb. by apply negb_false_iff, str_eqb_eq in Hb.
  - apply Forall_app. split; [done|]. apply Forall_singleton. subst l. by exists (Get (daManager d)), (daStore d), (daLimits d).
  - assert (spName sp <> #"api") as Hna by (by eapply specs_not_api). destruct (daAPI d); by rewrite lookup_insert_ne.
  - eapply Forall_impl; [exact Hbd|]. cbn. intros r (Eb & Hne & Hna). split_and!; try done. by rewrite lookup_insert_ne.
  - cbn [aiAddr aiKeys]. subst l. destruct (ok_api _ _ (lo_root _ _ Hconf) He) as [Hk Haddr].
    split_and!; [apply lookup_insert_eq|by apply addr_ok_nonempty|done].
Qed.

Lemma ensureListeners_ok listen d :
  daemon_ok d -> daemon_ok (ensureListeners counters listen (Get (daManager d)) d).2.
Proof.
  intros Hd. pose proof (ensureListeners_opens listen (Get (daManager d)) d) as Ho.
  remember (Get (daManager d)) as l eqn:El. revert El Hd.
  induction Ho as [|d1 d2 d3 Ho _ IH]; intros El Hd; [done|].
  apply IH; [|by subst l; eapply opens_ok]. pose proof (opens_stays _ _ _ _ Ho) as (E & _). by rewrite E.
Qed.

Lemma updateAll_ok d : daemon_ok d -> daemon_ok (updateAll counters (Get (daManager d)) d).
Proof.
  intros [Hconf Hn Hbd Hs Hapi]. split; cbn [updateAll daManager daRunning daBound daAPI]; try done.
  - by rewrite map_map.
  - by apply Forall_map.
  - apply Forall_map, Forall_forall. intros r _. by exists (Get (daManager d)), (daStore d), (daLimits d).
Qed.

Lemma enforce_ok su d : daemon_ok d -> daemon_ok (enforce counters su d).
Proof. intros Hd. unfold enforce. apply (ensureListeners_ok (suListen su) (updateAll _ _ _)), updateAll_ok, Hd. Qed.

(** ** Events *)

Lemma Load_quiet_manager disk d ok d' : reload_manager ParseIP disk d = (ok, d') ->
  d' = set_manager d (daManager d') /\
  (if ok : bool then loaded_ok ParseIP (Get (daManager d')) else Get (daManager d') = Get (daManager d)).
Proof.
  unfold reload_manager, Reload, mbind, M_bind.
  destruct (Load ParseIP (mgPath (daManager d)) disk) as [[[l|e]|e] w'] eqn:E; cbn; intros [= <- <-].
  - split; [done|]. by eapply Load_ok.
  - done.
  - split; [by destruct d|done].
Qed.

Lemma set_manager_ok d m : daemon_ok d -> loaded_ok ParseIP (Get m) -> daemon_ok (set_manager d m).
Proof. intros [? ? ? ? ?] Hm. by split. Qed.
Lemma set_store_ok d s : daemon_ok d -> daemon_ok (set_store d s).
Proof. intros [? ? ? ? ?]. by split. Qed.
Lemma set_limits_ok d lim : daemon_ok d -> daemon_ok (set_limits d lim).
Proof. intros [? ? ? ? ?]. by split. Qed.

Lemma step_ok d ev : daemon_ok d -> daemon_ok (step counters ParseIP d ev).
Proof.
  intros Hd. destruct ev as [su|disk su|disk]; cbn [step].
  - by apply enforce_ok, set_store_ok.
  - destruct (reload_manager ParseIP disk d) as [ok d1] eqn:E. apply Load_quiet_manager in E as [E1 E2].
    rewrite E1. destruct ok.
    + apply enforce_ok, set_limits_ok, set_store_ok, set_manager_ok; [done|]. by rewrite E1 in E2.
    + apply set_manager_ok; [done|]. rewrite E2. apply Hd.
  - destruct (reload_manager ParseIP disk d) as [ok d1] eqn:E. apply Load_quiet_manager in E as [E1 E2]. cbn [snd].
    rewrite E1. apply set_manager_ok; [done|]. destruct ok; [done|]. rewrite E2. apply Hd.
Qed.

Lemma start_ok p disk su d : start counters ParseIP p disk su = Some d -> daemon_ok d.
Proof.
  unfold start, NewManager, mbind, M_bind. destruct (Load ParseIP p disk) as [[[l|e]|e] w'] eqn:E; [|done..]. cbn.
  set (d0 := mkDaemon _ _ _ _ _ _). assert (daemon_ok d0) as H0.
  { split; cbn; [by eapply Load_ok|apply NoDup_nil_2|apply Forall_nil_2|apply Forall_nil_2|apply lookup_empty]. }
  pose proof (ensureListeners_ok (suListen su) d0 H0) as H1. change (Get (daManager d0)) with l in H1.
  destruct (ensureListeners _ _ _ d0) as [[] d1]; [done|]. by intros [= <-].
Qed.

Lemma reachable_ok p d : reachable counters ParseIP p d -> daemon_ok d.
Proof. induction 1; [by eapply start_ok|by apply step_ok]. Qed.

(** C7. Whatever happens to a daemon that has started, in any order of
    certificate refreshes, SIGHUPs and reloads through the API and whatever
    the disk holds at each: the running configuration is sound, every server
    listens on the address published for its name and there is one server per
    name, its settings come from a sound configuration, and the API is up only
    with a key. *)
Theorem supervisor_invariant p d : reachable counters ParseIP p d -> daemon_ok d.
Proof. apply reachable_ok. Qed.

(** An event leaves what is open open, on its address, and opens a protocol
    that carries credentials only with a certificate in the store. *)
Definition opened_well (d d' : daemon) : Prop :=
  (forall n, is_bound d n = true -> daBound d' !! n = daBound d !! n) /\
  (forall r, r ∈ daRunning d -> exists r', r' ∈ daRunning d' /\ rnSpec r' = rnSpec r) /\
  (forall n, n <> #"smtp" -> is_bound d n = false -> is_bound d' n = true -> has_certificate (daStore d') = true).

Lemma opened_same d d' : daBound d' = daBound d -> daRunning d' = daRunning d -> opened_well d d'.
Proof.
  intros E1 E2. unfold opened_well, is_bound. rewrite E1, E2. split_and!; [done|by eauto|]. intros n _ H1 H2. congruence.
Qed.

Lemma enforce_opened d0 d su :
  daBound d = daBound d0 -> daRunning d = daRunning d0 -> opened_well d0 (enforce counters su d).
Proof.
  intros E1 E2. unfold enforce. set (l := Get (daManager d)).
  pose proof (ensureListeners_stays (suListen su) l (updateAll counters l d)) as (_ & Es & _ & Hr & Hb & Hc).
  set (d2 := (ensureListeners counters (suListen su) l (updateAll counters l d)).2) in *.
  unfold opened_well, is_bound in *. cbn [updateAll daBound daStore daRunning] in *. rewrite E1 in *. rewrite E2 in *.
  split_and!; [done| |by rewrite Es].
  intros r Hin. exists (mkRunning (rnSpec r) (rnVersion r)
    (settings_of counters l (daStore d) (daLimits d) (spKind (rnSpec r)) (spImplicit (rnSpec r)))).
  split; [|done]. apply Hr, list_elem_of_In, in_map_iff. exists r. split; [done|by apply list_elem_of_In].
Qed.

(** A listener that is open stays open on its address whatever happens
    next, and submission, IMAP, POP3 and the API are opened only when a
    certificate is loaded. *)
Theorem listeners_safe d ev : opened_well d (step counters ParseIP d ev).
Proof.
  destruct ev as [su|disk su|disk]; cbn [step].
  - by apply enforce_opened.
  - destruct (reload_manager ParseIP disk d) as [ok d1] eqn:E. apply Load_quiet_manager in E as [E1 _]. rewrite E1.
    destruct ok; [by apply enforce_opened|by apply opened_same].
  - destruct (reload_manager ParseIP disk d) as [ok d1] eqn:E. apply Load_quiet_manager in E as [E1 _]. cbn [snd].
    rewrite E1. by apply opened_same.
Qed.

(** ** A reload in force *)

(** Every server has the settings of a configuration, and every listener of it
    that can be opened is. *)
Definition in_force (listen : str -> str -> bool) (l : Loaded) (d : daemon) : Prop :=
  Forall (fun r => rnSettings r = settings_of counters l (daStore d) (daLimits d) (spKind (rnSpec r)) (spImplicit (rnSpec r)))
    (daRunning d) /\
  (forall sp, sp ∈ specs (ldRoot l) -> spAddr sp <> [] -> listen (spName sp) (spAddr sp) = true ->
   (needs_certificate (spKind sp) = true -> has_certificate (daStore d) = true) -> is_bound d (spName sp) = true).

Lemma stays_bound d d' n : stays d d' -> is_bound d n = true -> is_bound d' n = true.
Proof. intros (_ & _ & _ & _ & Hb & _) Hn. pose proof Hn as Hn'. unfold is_bound in *. by rewrite Hb. Qed.

Lemma ensure_all_stays listen l sps d : (forall sp, sp ∈ sps -> sp ∈ specs (ldRoot l)) ->
  stays d (ensure_all counters listen l sps d).2.
Proof.
  intros Hin. induction (ensure_all_opens listen l sps d Hin) as [|d1 d2 d3 Ho _ IH]; [reflexivity|].
  etrans; [by eapply opens_stays|done].
Qed.

Lemma ensure_all_bound listen l sps d : (forall sp, sp ∈ sps -> sp ∈ specs (ldRoot l)) ->
  forall sp, sp ∈ sps -> spAddr sp <> [] -> listen (spName sp) (spAddr sp) = true ->
  (needs_certificate (spKind sp) = true -> has_certificate (daStore d) = true) ->
  is_bound (ensure_all counters listen l sps d).2 (spName sp) = true.
Proof.
  revert d. induction sps as [|sp0 sps IH]; intros d Hin sp Hsp Ha Hl Hc; [by apply elem_of_nil in Hsp|].
  cbn [ensure_all]. destruct (ensure_one counters listen l sp0 d) as [e1 d1] eqn:E1.
  assert (stays d d1) as Hst.
  { pose proof (ensure_all_stays listen l [sp0] d) as Hs. cbn [ensure_all] in Hs. rewrite E1 in Hs.
    apply Hs. intros ? ->%list_elem_of_singleton. apply Hin. by left. }
  assert (forall sp, sp ∈ sps -> sp ∈ specs (ldRoot l)) as Hin' by (intros; by apply Hin; right).
  pose proof (ensure_all_stays listen l sps d1 Hin') as Hst2. pose proof (IH d1 Hin' sp) as IHsp.
  destruct (ensure_all counters listen l sps d1) as [e2 d2]. cbn [snd] in *.
  apply elem_of_cons in Hsp as [->|Hsp].
  - apply (stays_bound d1 d2 _ Hst2). unfold ensure_one in E1. rewrite (proj2 (str_eqb_neq (spAddr sp0) [])) in E1 by done.
    destruct (is_bound d (spName sp0)) eqn:Eb; [injection E1 as _ <-; done|]. cbn [orb] in E1.
    destruct (needs_certificate (spKind sp0)) eqn:En; [rewrite Hc in E1 by done|]; cbn [andb negb] in E1;
      rewrite Hl in E1; injection E1 as _ <-; unfold open_listener; rewrite is_bound_insert, decide_True by done;
      by apply negb_true_iff, str_eqb_neq.
  - destruct Hst as (_ & Es & _). apply IHsp; [done..|]. by rewrite Es.
Qed.

Lemma enforce_in_force su d :
  let d' := enforce counters su d in
  daManager d' = daManager d /\ daStore d' = daStore d /\ daLimits d' = daLimits d /\
  in_force (suListen su) (Get (daManager d)) d'.
Proof.
  cbv zeta. unfold enforce. set (l := Get (daManager d)). set (u := updateAll counters l d).
  pose proof (ensureListeners_stays (suListen su) l u) as (E1 & E2 & E3 & _).
  split_and!; [by rewrite E1|by rewrite E2|by rewrite E3|]. split.
  - rewrite E2, E3. change (daStore u) with (daStore d). change (daLimits u) with (daLimits d).
    assert (daStore u = daStore d /\ daLimits u = daLimits d /\ Forall (fun r => rnSettings r =
      settings_of counters l (daStore d) (daLimits d) (spKind (rnSpec r)) (spImplicit (rnSpec r))) (daRunning u)) as Hu.
    { split_and!; [done..|]. apply Forall_map, Forall_forall. by intros r _. }
    revert Hu. clear E1 E2 E3. generalize u. clear u. intros u Hu.
    induction (ensureListeners_opens (suListen su) l u) as [|d1 d2 d3 Ho _ IH]; [apply Hu|].
    apply IH. destruct Hu as (F1 & F2 & F3). destruct Ho as [sp d0 ? ? ? ?|d0 ? ? ?];
      (split_and!; [exact F1|exact F2|]); cbn [open_listener open_api with_bound daRunning]; [|done].
    apply Forall_app. split; [done|]. apply Forall_singleton. cbn [rnSettings rnSpec]. by rewrite F1, F2.
  - rewrite E2. intros sp Hsp Ha Hl Hc. unfold ensureListeners.
    pose proof (ensure_all_bound (suListen su) l (specs (ldRoot l)) u (fun _ h => h) sp Hsp Ha Hl Hc) as Hb.
    destruct (ensure_all _ _ _ _ u) as [e1 d1]. cbn [snd] in Hb. unfold ensure_api.
    destruct (negb _ || is_bound d1 _) eqn:Eb; [done|]. destruct (negb (has_certificate _)); [done|].
    destruct (suListen su #"api" _); [|done]. cbn [snd]. unfold open_api. cbv zeta.
    rewrite is_bound_insert.
    case_decide as Ed; [|done]. exfalso. by eapply specs_not_api.
Qed.

(** C8. What a SIGHUP whose configuration loads puts in force: the configuration
    that the handlers read, the certificates of its domains, fresh limiters,
    the settings of every running server, and every mail listener that can be
    bound and is allowed to.  (Not the rest: the keys of a running API, for
    one, stay, see [what_a_reload_reaches].)  One whose configuration does not
    load changes nothing but the error that is kept.  A certificate refresh
    renews certificates, settings and missing listeners and keeps the limiters,
    so that no count is forgotten. *)
Theorem events_in_force d disk su :
  let load := (Load ParseIP (mgPath (daManager d)) disk).1 in
  let hup := step counters ParseIP d (Hup disk su) in
  let refresh := step counters ParseIP d (Refresh su) in
  let certificates l := (CertStore.Reload (suPairs su) (tlsParams (ldRoot l)) (suNow su)).1 in
  match load with
  | Ok (Ok l) =>
      Get (daManager hup) = l /\ LastError (daManager hup) = None /\ daStore hup = certificates l /\
      daLimits hup = newLimits (S (lmNumber (daLimits d))) l /\ in_force (suListen su) l hup
  | Ok (Err e) => hup = set_manager d (mkManager (mgPath (daManager d)) (Get (daManager d)) (Some e))
  | Err _ => True
  end /\
  daManager refresh = daManager d /\ daStore refresh = certificates (Get (daManager d)) /\
  daLimits refresh = daLimits d /\ in_force (suListen su) (Get (daManager d)) refresh.
Proof.
  cbv zeta. split.
  - cbn [step]. unfold reload_manager, Reload, mbind, M_bind.
    destruct (Load ParseIP (mgPath (daManager d)) disk) as [[[l|e]|e] w'] eqn:E; cbn [fst mret M_ret]; [|done..].
    set (m := mkManager _ l None).
    set (d1 := set_limits _ _). destruct (enforce_in_force su d1) as (E1 & E2 & E3 & E4).
    rewrite E1, E2, E3. split_and!; [done..|exact E4].
  - cbn [step]. destruct (enforce_in_force su (reload_store su d)) as (E1 & E2 & E3 & E4). by rewrite E1, E2, E3.
Qed.
End Loop.

(** ** What the daemon starts with *)

Definition rates (m : gmap str Pace.Limit) : Prop := map_Forall (fun _ l => Qlt 0 (Pace.lmRate l)) m.
Definition rates_opt (rs : option (gmap str Pace.Limit)) : Prop := match rs with Some m => rates m | None => True end.

Lemma lookup_rule_ok rs dest lim : rates_opt rs -> Pace.lookup_rule rs dest = Some lim -> Qlt 0 (Pace.lmRate lim).
Proof.
  destruct rs as [m|]; [|done]. cbn. intros Hm. destruct (m !! dest) eqn:E; [intros [= <-]; exact (Hm _ _ E)|].
  intros E'. exact (Hm _ _ E').
Qed.

Lemma toRuleset_ok rules : Forall pace_rule_ok rules -> rates_opt (Pace.toRuleset rules).
Proof.
  intros Hr. assert (forall m, rates m ->
    rates (fold_left (fun m r => <[to_lower (Pace.rlMatch r) := Pace.rlLimit r]> m) rules m)) as HF.
  { induction Hr as [|r rules Hr _ IH]; intros m Hm; [done|]. apply IH, map_Forall_insert_2; [apply Hr|done]. }
  destruct rules; [done|]. apply HF, map_Forall_empty.
Qed.

Lemma by_scope_ok l k : scopes_ok l -> rates_opt (Pace.by_scope l !! k).
Proof.
  intros Hl. assert (forall s : gmap str (gmap str Pace.Limit), (forall k, rates_opt (s !! k)) -> forall k,
    rates_opt (fold_left (fun m dr => match Pace.toRuleset dr.2 with Some rs => <[to_lower dr.1 := rs]> m | None => m end) l s
               !! k)) as HF.
  { induction Hl as [|x l Hx _ IH]; intros s Hs k'; [apply Hs|]. cbn [fold_left]. apply IH. intros k2.
    pose proof (toRuleset_ok x.2 Hx) as Hr. destruct (Pace.toRuleset x.2); [|apply Hs].
    destruct (decide (to_lower x.1 = k2)) as [->|Hne]; [by rewrite lookup_insert_eq|by rewrite lookup_insert_ne]. }
  apply HF. intros k'. by rewrite lookup_empty.
Qed.

Lemma in_option {A} (x : A) mx : x ∈ option_list mx -> mx = Some x.
Proof. destruct mx; cbn; [by intros ->%list_elem_of_singleton|by intros ?%elem_of_nil]. Qed.

Lemma pacing_rates c t : pacing_ok c -> Pace.New c = Some t -> Pace.rates_ok t.
Proof.
  intros (H1 & H2 & H3 & H4). unfold Pace.New. set (t0 := Pace.mkThrottle _ _ _ _ _).
  assert (Pace.rates_ok t0) as H0.
  { intros k s Hs. apply Qlt_le_weak. apply elem_of_app in Hs as [Hs|Hs]; apply in_option in Hs.
    - unfold Pace.sender_scope in Hs. cbn [t0 Pace.thByMbx Pace.thByDom Pace.thGlobal] in Hs.
      destruct (Pace.lookup_rule (Pace.by_scope _ !! to_lower (Pace.kyMailbox k)) _) eqn:E1;
        [injection Hs as <-; eapply lookup_rule_ok in E1; [exact E1|by apply by_scope_ok]|].
      destruct (Pace.lookup_rule (Pace.by_scope _ !! to_lower (Pace.kyDomain k)) _) eqn:E2;
        [injection Hs as <-; eapply lookup_rule_ok in E2; [exact E2|by apply by_scope_ok]|].
      destruct (Pace.lookup_rule _ _) eqn:E3 in Hs; [|done]. injection Hs as <-.
      eapply lookup_rule_ok in E3; [exact E3|by apply toRuleset_ok].
    - unfold Pace.ip_scope in Hs. cbn [t0 Pace.thPerIP] in Hs. destruct (Pace.kyEgressIP k); [done|].
      destruct (Pace.lookup_rule _ _) eqn:E3 in Hs; [|done]. injection Hs as <-.
      eapply lookup_rule_ok in E3; [exact E3|by apply toRuleset_ok]. }
  destruct (Pace.thGlobal t0), (Pace.thPerIP t0); try (by intros [= <-]).
  destruct (_ && _); [done|]. by intros [= <-].
Qed.

(** What the daemon builds from a configuration that loaded meets the
    conditions of its components: the guard locks after a failure or more for
    a time that does not overflow (up to a hundred years), no pacing rate is
    negative, the limits of connections and messages are positive, and the
    warm-up schedule grows. *)
Theorem started_components ParseIP l :
  loaded_ok ParseIP l -> let c := ldRoot l in
  (auLockoutMinutes (cfAuth c) <= 52560000 -> Auth.guard_ok (auth_guard c)) /\
  (forall t, pacing l = Some t -> Pace.rates_ok t) /\
  (is_enabled (rpEnabled (cfReputation c)) = true -> Reputation.wuEnabled (warmUp c) = true ->
   0 <= Reputation.wuDay1 (warmUp c) -> Reputation.wuFull (warmUp c) < 2 ^ 64 -> Reputation.growing (warmUp c)) /\
  (forall i, lmIn (newLimits 0 l) = Some i ->
   Qlt 0 (RateLimit.limLimit (RateLimit.inConns i)) /\ Qlt 0 (RateLimit.limLimit (RateLimit.inMsgs i)) /\
   Qlt 0 (RateLimit.limLimit (RateLimit.inRcpts i))) /\
  (is_enabled (blEnabled (cfBlacklist c)) = true -> blCacheMinutes (cfBlacklist c) <= 52560000 ->
   exists b, blacklist c = Some b /\ 0 < Blacklist.ckTTL b).
Proof.
  intros [Hr _ Ht] c. split_and!.
  - intros Hb. destruct (ok_auth _ _ Hr) as [H1 H2]. fold c in H1, H2. unfold auth_guard.
    rewrite CertStore.wrap64_id by (unfold minute; lia). apply Auth.new_guard_ok; [lia|unfold minute; lia].
  - intros t E. by eapply pacing_rates.
  - intros He Hw H0 H64. destruct (ok_reputation _ _ Hr He) as [_ Hwu]. destruct (Hwu Hw) as (H1 & H2 & H3).
    unfold Reputation.growing. fold c in H1, H2, H3. unfold warmUp in *. split_and!; [done|lia|done|done|done].
  - intros i. unfold newLimits. cbn [lmIn]. destruct (is_enabled (ibEnabled _)) eqn:E; [|done]. intros [= <-].
    destruct (ok_rate_limit _ _ Hr) as [Hin _]. destruct (Hin E) as (? & ? & ?).
    cbn. change 0%Q with (inject_Z 0). by rewrite <- !Zlt_Qlt.
  - intros He Hb. unfold blacklist. rewrite He. eexists. split; [reflexivity|]. pose proof (ok_blacklist _ _ Hr He) as H1.
    fold c in H1. rewrite CertStore.wrap64_id by (unfold minute; lia). cbn [Blacklist.New Blacklist.ckTTL].
    rewrite (proj2 (Z.eqb_neq _ _)) by (unfold minute; lia). unfold minute. lia.
Qed.

(** ** Examples *)

(** Two versions of a configuration: another host name, a new API key in place
    of the old one, a higher minimum version of TLS. *)
Definition edition (host version key : str) (r : Root) : Root := {|
  cfServer := mkServer host 0; cfListeners := cfListeners r; cfTLS := mkTLS CertRoot version 14; cfSMTP := cfSMTP r;
  cfMailAuth := cfMailAuth r; cfAuth := cfAuth r; cfQueue := cfQueue r; cfDKIMDir := cfDKIMDir r;
  cfAntispam := cfAntispam r; cfAntivirus := cfAntivirus r; cfBlacklist := cfBlacklist r;
  cfReputation := cfReputation r; cfContainer := cfContainer r; cfRateLimit := cfRateLimit r;
  cfSRSSecret := cfSRSSecret r; cfEgress := cfEgress r; cfDomainsDir := cfDomainsDir r; cfDomains := cfDomains r;
  cfUsers := cfUsers r; cfAPI := Settings.mkAPI true #":8443" [key]; cfLogDir := cfLogDir r |}.
#[local] Instance two_editions : YamlCodec := {|
  decode_root r s :=
    if s =s #"main" then Ok (edition #"mx1.example.com" #"1.2" #"old-key-0123456789-0123456789-0123" r)
    else if s =s #"next" then Ok (edition #"mx2.example.com" #"1.3" #"new-key-0123456789-0123456789-0123" r)
    else Err #"yaml: line 1";
  decode_domain s := Ok (toy_file []) |}.
Definition no_ip : str -> option Container.IP := fun _ => None.

Definition disk_one : world := toy_disk [(#"example.com", #"")].
Definition disk_two : world := set_files (<[toy_main := mkFile #"next" 1]> (wFiles disk_one)) disk_one.
Definition disk_bad : world := set_files (<[toy_main := mkFile #"oops" 2]> (wFiles disk_one)) disk_one.
Definition quiet_day : @surroundings str :=
  mkSurroundings (fun _ d => Ok (CertStore.mkEntry (#"cert of " ++ d) (10 ^ 18))) (fun _ _ => true) 0.

Definition daemon_one : option (@Supervisor.daemon str) := start None no_ip toy_main disk_one quiet_day.
Definition seen (d : @Supervisor.daemon str) : str * list str * list str * list (str * bool) :=
  (svHostname (cfServer (ldRoot (Get (daManager d)))),
   map (fun r => match rnSettings r with SetSMTP s => Smtp.stHostname s | SetIMAP s => Imap.iHostname s
                                    | SetPOP3 s => Pop3.pHostname s end) (take 1 (daRunning d)),
   match daAPI d with Some a => aiKeys a | None => [] end,
   map (fun r => (spName (rnSpec r), match rnVersion r with CertStore.VersionTLS12 => true | _ => false end))
     (List.filter (fun r => spImplicit (rnSpec r)) (daRunning d))).
Definition old_key : list str := [ #"old-key-0123456789-0123456789-0123"].

(** A reload through the API replaces the configuration and nothing that was
    built from it; a SIGHUP updates the servers, but the API keeps the keys it
    was started with and the implicit TLS listeners keep the minimum version
    they were bound with. *)
Example what_a_reload_reaches :
  let implicit := [(#"smtps", true); (#"imaps", true); (#"pop3s", true)] in
  (fun d => seen (step None no_ip d (APIReload disk_two))) <$> daemon_one
    = Some (#"mx2.example.com", [ #"mx1.example.com"], old_key, implicit) /\
  (fun d => seen (step None no_ip d (Hup disk_two quiet_day))) <$> daemon_one
    = Some (#"mx2.example.com", [ #"mx2.example.com"], old_key, implicit) /\
  (fun d => CertStore.MinVersion (daStore (step None no_ip d (Hup disk_two quiet_day)))) <$> daemon_one
    = Some CertStore.VersionTLS13.
Proof. vm_compute. by split_and!. Qed.

(** With the antispam engine off nothing scans for viruses. *)
Example antivirus_alone c :
  avEnabled (cfAntivirus c) = true -> asEnabled (cfAntispam c) = Some false -> engine_scanner c = None.
Proof. intros _ E. unfold engine_scanner. by rewrite E. Qed.

Lemma daemon_one_starts : bool_decide (is_Some daemon_one) = true.
Proof. by vm_compute. Qed.

Example supervisor_invariant_witness :
  match daemon_one with
  | Some d => daemon_ok None no_ip (step None no_ip (step None no_ip d (Hup disk_bad quiet_day)) (Refresh quiet_day))
  | None => False
  end.
Proof.
  pose proof daemon_one_starts as Hs. destruct daemon_one as [d|] eqn:E; [|discriminate Hs].
  apply (supervisor_invariant None no_ip toy_main). apply reach_step, reach_step.
  exact (reach_start None no_ip toy_main disk_one quiet_day d E).
Defined.

Example started_components_witness :
  match daemon_one with
  | Some d => Auth.guard_ok (auth_guard (ldRoot (Get (daManager d))))
  | None => False
  end.
Proof.
  pose proof daemon_one_starts as Hs. destruct daemon_one as [d|] eqn:E; [|discriminate Hs].
  destruct (started_components no_ip (Get (daManager d)) (do_config None no_ip d (start_ok None no_ip toy_main disk_one quiet_day d E)))
    as [Hg _].
  apply Hg. apply Z.leb_le.
  assert (match daemon_one with Some d => auLockoutMinutes (cfAuth (ldRoot (Get (daManager d)))) <=? 52560000 | None => true end = true) as Hb
    by (vm_compute; reflexivity).
  rewrite E in Hb. exact Hb.
Defined.
