(* ===== verification/Api.v ===== *)
(** * The administrative API (internal/api/api.go)

    One HTTP request at a time: the rate limit per address, the key, the
    handlers.  What the daemon lends to the API are the fields of [Deps];
    JSON bodies are kept as values. *)

From S2P Require Import Prelude GoStrings GoValues GoOS Config Settings ConfigLoad.
From S2P Require RateLimit Reputation Pace.
From Stdlib Require Import QArith.

#[global] Open Scope Z_scope.

Inductive json :=
| JStr (s : str)
| JNum (q : Q)
| JBool (b : bool)
| JArr (l : list json)
| JObj (fields : list (str * json)).

(** A request as the mux hands it over: absent headers are empty. *)
Record Request := mkRequest {
  rqMethod : str; rqPath : str; rqRemoteAddr : str; rqAuthorization : str; rqXAPIKey : str }.
Record Response := mkResponse { rsCode : Z; rsHeaders : list (str * str); rsBody : json }.

Definition writeJSON (extra : list (str * str)) (code : Z) (v : json) : Response :=
  mkResponse code (extra ++ [(#"Content-Type", #"application/json")]) v.
Definition error_body (e : str) : json := JObj [(#"error", JStr e)].

(** What the handlers read. *)
Record Deps := mkDeps {
  dpConfig : Loaded;
  dpQueueSize : Z;
  dpReputation : option (list Reputation.Stats);   (** the snapshot; [None] when disabled *)
  dpVersion : str;
  dpStarted : Z }.

Record Server := mkServer { seKeys : list str; seLimiter : RateLimit.Limiter }.
Definition New (keys : list str) : Server := mkServer keys (RateLimit.New 60 (60 * 10 ^ 9)).

(** ** Who asks *)

Definition presentedKey (r : Request) : str :=
  if negb (rqAuthorization r =s []) && has_prefix #"Bearer " (rqAuthorization r)
  then trim_space (trim_prefix #"Bearer " (rqAuthorization r))
  else trim_space (rqXAPIKey r).

Definition validKey (s : Server) (presented : str) : bool :=
  if presented =s [] then false else existsb (fun k => k =s presented) (seKeys s).

Definition clientIP (r : Request) : str :=
  match SplitHostPort (rqRemoteAddr r) with Ok (host, _) => host | Err _ => rqRemoteAddr r end.

(** ** The handlers *)

(** [time.Since(started).Round(time.Second).String()] *)
Definition uptime (started now : Z) : str :=
  let secs := (now - started + 5 * 10 ^ 8) / 10 ^ 9 in
  let h := secs / 3600 in
  let m := secs / 60 mod 60 in
  (if h =? 0 then [] else dec h ++ #"h")
  ++ (if (h =? 0) && (m =? 0) then [] else dec m ++ #"m")
  ++ dec (secs mod 60) ++ #"s".

Definition handleHealth (dp : Deps) (now : Z) : Response :=
  writeJSON [] 200 (JObj [(#"status", JStr #"ok"); (#"uptime", JStr (uptime (dpStarted dp) now))]).

Definition handleStatus (dp : Deps) (now : Z) : Response :=
  let c := ldRoot (dpConfig dp) in
  writeJSON [] 200 (JObj
    [(#"version", JStr (dpVersion dp)); (#"hostname", JStr (svHostname (cfServer c)));
     (#"uptime", JStr (uptime (dpStarted dp) now));
     (#"domains", JNum (inject_Z (Z.of_nat (length (cfDomains c)))));
     (#"users", JNum (inject_Z (Z.of_nat (length (cfUsers c)))));
     (#"queue", JNum (inject_Z (dpQueueSize dp)))]).

Definition domainInfo (h : Hosted) : json :=
  let d := hdDomain h in
  JObj ([(#"name", JStr (dName d)); (#"storage", JStr (or_default (sType (dStorage d)) StorageVirtual))]
        ++ (if dDKIMSelector d =s [] then [] else [(#"dkim_selector", JStr (dDKIMSelector d))])).
Definition handleDomains (dp : Deps) : Response :=
  writeJSON [] 200 (JObj [(#"domains", JArr (map domainInfo (cfDomains (ldRoot (dpConfig dp)))))]).

Definition userInfo (a : Account) : json :=
  let u := acUser a in
  JObj [(#"email", JStr (uEmail u)); (#"type", JStr (uType u)); (#"can_submit", JBool (negb (uPasswordHash u =s [])))].
Definition handleUsers (dp : Deps) : Response :=
  writeJSON [] 200 (JObj [(#"users", JArr (map userInfo (cfUsers (ldRoot (dpConfig dp)))))]).

(** A time is left as its nanoseconds. *)
Definition statsInfo (s : Reputation.Stats) : json :=
  JObj [(#"key", JStr (Reputation.ssKey s)); (#"score", JNum (Reputation.ssScore s));
        (#"sent", JNum (inject_Z (Reputation.ssSent s))); (#"bounced", JNum (inject_Z (Reputation.ssBounced s)));
        (#"reported", JNum (inject_Z (Reputation.ssReported s))); (#"day_sent", JNum (inject_Z (Reputation.ssDaySent s)));
        (#"first_seen", JNum (inject_Z (Reputation.ssFirstSeen s)))].
Definition handleReputation (dp : Deps) : Response :=
  writeJSON [] 200 (JObj [(#"reputation", JArr (match dpReputation dp with Some l => map statsInfo l | None => [] end))]).

(** [reload] runs when the method is right: what [deps.Reload] answers. *)
Definition handleReload (r : Request) (reloaded : option str) : bool * Response :=
  if negb (rqMethod r =s #"POST") then
    (false, writeJSON [(#"Allow", #"POST")] 405 (error_body #"use POST"))
  else
    (true, match reloaded with
           | Some e => writeJSON [] 500 (error_body e)
           | None => writeJSON [] 200 (JObj [(#"status", JStr #"reloaded")])
           end).

(** ** The mux *)

(** [http.ServeMux] cleans the path first: dots and doubled slashes go, a
    slash at the end stays.  A path is taken without percent escapes. *)
Definition cleanPath (p : str) : str :=
  let np := match abs_path p with [] => #"/" | q => path_text q end in
  if has_suffix #"/" p && negb (np =s #"/") then np ++ #"/" else np.

Inductive endpoint := Health | Status | Domains | Users | ReputationScores | DoReload | NotFound | Moved (to : str).

(** The handler of a request: except for CONNECT, a path that is not the
    clean one is redirected to it, whether or not a handler is there. *)
Definition route (method path : str) : endpoint :=
  if negb (method =s #"CONNECT") && negb (cleanPath path =s path) then Moved (cleanPath path)
  else if path =s #"/health" then Health
  else if path =s #"/api/v1/status" then Status
  else if path =s #"/api/v1/domains" then Domains
  else if path =s #"/api/v1/users" then Users
  else if path =s #"/api/v1/reputation" then ReputationScores
  else if path =s #"/api/v1/reload" then DoReload
  else NotFound.
Definition endpoint_of (r : Request) : endpoint := route (rqMethod r) (rqPath r).

(** [http.Redirect]; its page is left out. *)
Definition moved (r : Request) (to : str) : Response :=
  mkResponse 301 ((#"Location", to) ::
    (if (rqMethod r =s #"GET") || (rqMethod r =s #"HEAD") then [(#"Content-Type", #"text/html; charset=utf-8")] else []))
    (JStr []).

Definition not_found : Response :=
  mkResponse 404 [(#"Content-Type", #"text/plain; charset=utf-8")] (JStr #"404 page not found").

(** [auth] around a handler. *)
Definition auth {A} (s : Server) (r : Request) (now : Z) (none : A) (next : A * Response) : A * Response * Server :=
  let '(ok, l) := RateLimit.Allow (seLimiter s) (clientIP r) now in
  let s := mkServer (seKeys s) l in
  if negb ok then (none, writeJSON [] 429 (error_body #"too many requests"), s)
  else if negb (validKey s (presentedKey r)) then
    (none, writeJSON [(#"WWW-Authenticate", #"Bearer realm=" ++ [DQ] ++ #"verta" ++ [DQ])] 401
             (error_body #"invalid api key"), s)
  else (next, s).

(** One request; the flag tells whether the configuration is reloaded, and
    [reloaded] what that would answer. *)
Definition serve (s : Server) (dp : Deps) (reloaded : option str) (r : Request) (now : Z) : bool * Response * Server :=
  match endpoint_of r with
  | Health => (false, handleHealth dp now, s)
  | Status => auth s r now false (false, handleStatus dp now)
  | Domains => auth s r now false (false, handleDomains dp)
  | Users => auth s r now false (false, handleUsers dp)
  | ReputationScores => auth s r now false (false, handleReputation dp)
  | DoReload => auth s r now false (handleReload r reloaded)
  | NotFound => (false, not_found, s)
  | Moved to => (false, moved r to, s)
  end.

(** ** What the API gives away *)

Definition guarded (r : Request) : bool :=
  match endpoint_of r with Health | NotFound | Moved _ => false | _ => true end.

(** C11. A request that presents none of the keys the API was started with
    learns nothing of the daemon and does nothing, [/health] apart, which
    tells anyone that the daemon is alive and for how long: the answer is the
    same whatever the daemon's state, it is no success (429 or 401 where a
    handler is behind the key, else a redirection or 404), no reload happens
    and the keys stay. *)
Theorem no_key_no_answer s dp dp' reloaded reloaded' r now :
  validKey s (presentedKey r) = false -> endpoint_of r <> Health ->
  let '(did, a, s') := serve s dp reloaded r now in
  serve s dp' reloaded' r now = (did, a, s') /\ did = false /\ seKeys s' = seKeys s /\
  (if guarded r then rsCode a = 429 \/ rsCode a = 401 else (s' = s /\ (rsCode a = 404 \/ rsCode a = 301))).
Proof.
  intros Hk Hr. assert (forall next next', let '(did, a, s') := auth s r now false next in
    auth s r now false next' = (did, a, s') /\ did = false /\ seKeys s' = seKeys s /\
    (rsCode a = 429 \/ rsCode a = 401)) as HA.
  { intros next next'. unfold auth. destruct (RateLimit.Allow _ _ _) as [[] l]; cbn [negb]; [|by (split_and!; auto)].
    change (validKey (mkServer (seKeys s) l)) with (validKey s). rewrite Hk. cbn. split_and!; auto. }
  unfold serve, guarded. destruct (endpoint_of r); try done; try apply HA; split_and!; auto.
Qed.

(** What a configuration keeps secret, blotted out: whether a mailbox has a
    password stays. *)
Definition blot (h : str) : str := if h =s [] then [] else #"*".
Definition redact_user (a : Account) : Account :=
  let u := acUser a in
  mkAccount (mkUser (uEmail u) (uType u) (uMaildir u) (blot (uPasswordHash u)) (uForwardTo u) (uKeepLocal u)
               (uFilters u) (uQuota u)) (acOutbound a).
Definition redact_domain (h : Hosted) : Hosted :=
  let d := hdDomain h in
  let st := dStorage d in
  mkHosted (mkDomain (dName d) (mkStorage (sType st) (sUser st) (sHome st) (sMaildir st) []) (dDKIMSelector d)
              (dAliases d) (dCatchAll d) (dQuotaBytes d)) (hdOutbound h).
Definition redact (l : Loaded) : Loaded :=
  let c := ldRoot l in
  mkLoaded {|
    cfServer := cfServer c; cfListeners := cfListeners c; cfTLS := cfTLS c; cfSMTP := cfSMTP c;
    cfMailAuth := cfMailAuth c; cfAuth := cfAuth c; cfQueue := cfQueue c; cfDKIMDir := cfDKIMDir c;
    cfAntispam := cfAntispam c; cfAntivirus := cfAntivirus c; cfBlacklist := cfBlacklist c;
    cfReputation := cfReputation c; cfContainer := cfContainer c; cfRateLimit := cfRateLimit c;
    cfSRSSecret := []; cfEgress := cfEgress c; cfDomainsDir := cfDomainsDir c;
    cfDomains := map redact_domain (cfDomains c); cfUsers := map redact_user (cfUsers c);
    cfAPI := Settings.mkAPI (apEnabled (cfAPI c)) (apAddress (cfAPI c)) []; cfLogDir := cfLogDir c |}
    (ldWarnings l) (ldGovRules l) (ldThrottle l).
Definition redacted (dp : Deps) : Deps :=
  mkDeps (redact (dpConfig dp)) (dpQueueSize dp) (dpReputation dp) (dpVersion dp) (dpStarted dp).

Lemma userInfo_redacted a : userInfo (redact_user a) = userInfo a.
Proof.
  unfold userInfo, redact_user, blot. cbn [acUser uEmail uType uPasswordHash].
  by destruct (str_eqb_spec (uPasswordHash (acUser a)) []).
Qed.

(** Not even a caller with a key sees a secret: no answer depends on a
    password hash (only on whether there is one), on the SRS secret or on the
    API keys of the configuration. *)
Theorem no_secrets s dp reloaded r now : serve s dp reloaded r now = serve s (redacted dp) reloaded r now.
Proof.
  unfold serve. destruct (endpoint_of r); try done.
  - unfold handleStatus. cbn [redacted redact dpConfig ldRoot cfServer cfDomains cfUsers dpVersion dpQueueSize dpStarted].
    by rewrite !length_map.
  - unfold handleDomains. cbn [redacted redact dpConfig ldRoot cfDomains]. by rewrite map_map.
  - unfold handleUsers. cbn [redacted redact dpConfig ldRoot cfUsers]. rewrite map_map.
    by rewrite (map_ext _ _ userInfo_redacted).
Qed.

(** ** Guessing *)

Fixpoint serve_all (s : Server) (rs : list (Request * Deps * option str * Z)) : list Response :=
  match rs with
  | [] => []
  | (r, dp, reloaded, now) :: rest =>
      let '(_, a, s) := serve s dp reloaded r now in a :: serve_all s rest
  end.

(** The requests of an address whose key was looked at. *)
Definition tried (ip : str) (rs : list (Request * Deps * option str * Z)) (answers : list Response) : Z :=
  Z.of_nat (length (List.filter (fun x : Request * Deps * option str * Z * Response =>
    guarded x.1.1.1.1 && (clientIP x.1.1.1.1 =s ip) && negb (rsCode x.2 =? 429)) (combine rs answers))).

Definition calls (rs : list (Request * Deps * option str * Z)) : list (str * Z) :=
  map (fun x => (clientIP x.1.1.1, x.2)) (List.filter (fun x => guarded x.1.1.1) rs).

Lemma serve_guarded s dp reloaded r now : guarded r = true ->
  let '(ok, l) := RateLimit.Allow (seLimiter s) (clientIP r) now in
  let '(_, a, s') := serve s dp reloaded r now in
  negb (rsCode a =? 429) = ok /\ s' = mkServer (seKeys s) l.
Proof.
  intros Hg. assert (forall next : bool * Response, rsCode next.2 <> 429 ->
    let '(ok, l) := RateLimit.Allow (seLimiter s) (clientIP r) now in
    let '(_, a, s') := auth s r now false next in
    negb (rsCode a =? 429) = ok /\ s' = mkServer (seKeys s) l) as HA.
  { intros [n a] Hn. unfold auth. destruct (RateLimit.Allow _ _ _) as [[] l]; cbn [negb]; [|done].
    destruct (negb _); [done|]. split; [|done]. by apply negb_true_iff, Z.eqb_neq. }
  unfold serve, guarded in *. destruct (endpoint_of r); try done; apply HA; try done.
  unfold handleReload. destruct (negb _); [done|]. by destruct reloaded.
Qed.

Lemma serve_open s dp reloaded r now : guarded r = false -> (serve s dp reloaded r now).2 = s.
Proof. unfold serve, guarded. by destruct (endpoint_of r). Qed.

Lemma tried_granted ip rs : forall s,
  tried ip rs (serve_all s rs) = RateLimit.granted ip (calls rs) (RateLimit.allow_all (seLimiter s) (calls rs)).
Proof.
  induction rs as [|[[[r dp] reloaded] now] rs IH]; intros s; [done|].
  cbn [serve_all]. unfold calls. cbn [List.filter fst]. destruct (guarded r) eqn:Hg.
  - pose proof (serve_guarded s dp reloaded r now Hg) as H. cbn [map fst snd RateLimit.allow_all].
    destruct (RateLimit.Allow _ _ _) as [ok l]. destruct (serve s dp reloaded r now) as [[n a] s'].
    destruct H as [Hok ->]. specialize (IH (mkServer (seKeys s) l)). cbn [seLimiter] in IH.
    unfold tried, RateLimit.granted in *. cbn [combine List.filter fst snd]. rewrite Hg, Hok. cbn [andb].
    rewrite (andb_comm (clientIP r =s ip)). unfold calls in IH.
    destruct (ok && (clientIP r =s ip)); cbn [length]; lia.
  - pose proof (serve_open s dp reloaded r now Hg) as H. destruct (serve s dp reloaded r now) as [[n a] s'].
    cbn [snd] in H. subst s'. rewrite <- IH. unfold tried. cbn [combine List.filter fst snd]. by rewrite Hg.
Qed.

(** The API is no oracle for guessing keys: in a window of length [T] an
    address has at most 60 + T/second keys looked at, whatever it and all
    others send. *)
Theorem guesses_bounded keys ip rs t0 t1 :
  t0 <= t1 -> StronglySorted Z.le (t0 :: (snd <$> calls rs)) -> Forall (fun c : str * Z => c.2 <= t1) (calls rs) ->
  (inject_Z (tried ip rs (serve_all (New keys) rs)) <= 60 + inject_Z (t1 - t0) / inject_Z (10 ^ 9))%Q.
Proof.
  intros Ht HS HF. rewrite tried_granted.
  assert (RateLimit.limiter_ok (seLimiter (New keys)) t0) as Hok.
  { split_and!; [done|done|by apply map_Forall_empty]. }
  pose proof (RateLimit.granted_level ip (calls rs) (seLimiter (New keys)) t0 t1 Hok Ht HS HF) as H.
  eapply Qle_trans; [exact H|]. change (RateLimit.level (seLimiter (New keys)) ip t0) with (inject_Z 60).
  apply Qplus_le_r. apply Qle_lteq. right. unfold RateLimit.rate. cbn [New seLimiter RateLimit.limLimit RateLimit.limWindow RateLimit.New].
  rewrite (inject_Z_mult 60 (10 ^ 9)). field. done.
Qed.

(** ** Examples *)

Definition toy_loaded_config : Loaded :=
  mkLoaded {|
    cfServer := cfServer defaults; cfListeners := cfListeners defaults; cfTLS := cfTLS defaults; cfSMTP := cfSMTP defaults;
    cfMailAuth := cfMailAuth defaults; cfAuth := cfAuth defaults; cfQueue := cfQueue defaults; cfDKIMDir := DKIMDir;
    cfAntispam := cfAntispam defaults; cfAntivirus := cfAntivirus defaults; cfBlacklist := cfBlacklist defaults;
    cfReputation := cfReputation defaults; cfContainer := cfContainer defaults; cfRateLimit := cfRateLimit defaults;
    cfSRSSecret := #"secret"; cfEgress := cfEgress defaults; cfDomainsDir := []; cfDomains := [];
    cfUsers := [mkAccount (mkUser #"ann@example.com" StorageVirtual #"/srv" #"$2b$10$x" [] None [] []) None];
    cfAPI := Settings.mkAPI true #":8443" [ #"k1"; #"k2"]; cfLogDir := LogDir |} [] [] (Pace.mkConfig [] [] [] []).
Definition toy_deps : Deps := mkDeps toy_loaded_config 3 None #"1.0" 0.
Definition get (path key : str) : Request := mkRequest #"GET" path #"192.0.2.1:4711" (#"Bearer " ++ key) [].

Example an_answer :
  let ask r := (serve (New [ #"k1"; #"k2"]) toy_deps None r (3725 * 10 ^ 9)).1.2 in
  rsBody (ask (get #"/api/v1/users" #"k2"))
    = JObj [(#"users", JArr [JObj [(#"email", JStr #"ann@example.com"); (#"type", JStr #"virtual"); (#"can_submit", JBool true)]])] /\
  rsBody (ask (get #"/health" [])) = JObj [(#"status", JStr #"ok"); (#"uptime", JStr #"1h2m5s")] /\
  rsCode (ask (get #"/api/v1/users" #"k3")) = 401 /\ rsCode (ask (get #"/api/v1/reload" #"k1")) = 405.
Proof. vm_compute. by split_and!. Qed.

Example a_path_not_clean :
  let ask r := (serve (New [ #"k1"]) toy_deps None r 0).1.2 in
  rsCode (ask (get #"//api/v1/./users" #"k1")) = 301 /\
  rsHeaders (ask (get #"//api/v1/./users" #"k1"))
    = [(#"Location", #"/api/v1/users"); (#"Content-Type", #"text/html; charset=utf-8")] /\
  rsCode (ask (get #"/api/v1/users/" #"k1")) = 404.
Proof. vm_compute. by split_and!. Qed.

Example no_key_no_answer_witness :
  let '(did, a, s') := serve (New [ #"k1"]) toy_deps None (get #"/api/v1/users" #"guess") 0 in
  serve (New [ #"k1"]) (redacted toy_deps) (Some #"e") (get #"/api/v1/users" #"guess") 0 = (did, a, s') /\
  did = false /\ seKeys s' = [ #"k1"] /\ rsCode a = 401.
Proof.
  pose proof (no_key_no_answer (New [ #"k1"]) toy_deps (redacted toy_deps) None (Some #"e") (get #"/api/v1/users" #"guess") 0) as H.
  assert (validKey (New [ #"k1"]) (presentedKey (get #"/api/v1/users" #"guess")) = false) as Hk by (vm_compute; reflexivity).
  assert (endpoint_of (get #"/api/v1/users" #"guess") <> Health) as Hh by (vm_compute; discriminate).
  specialize (H Hk Hh). vm_compute in H |- *. intuition discriminate.
Defined.

Definition knocks : list (Request * Deps * option str * Z) :=
  map (fun t => (get #"/api/v1/users" #"guess", toy_deps, None, t)) [0; 5; 10].
Example guesses_bounded_witness :
  (inject_Z (tried #"192.0.2.1" knocks (serve_all (New [ #"k1"]) knocks)) <= 60 + inject_Z (10 - 0) / inject_Z (10 ^ 9))%Q.
Proof.
  apply (guesses_bounded [ #"k1"] #"192.0.2.1" knocks 0 10); [lia|..].
  - vm_compute. repeat constructor; discriminate.
  - apply (bool_decide_unpack _); vm_compute; exact I.
Defined.
