(* ===== verification/Checks.v ===== *)
(** * Reports of the diagnostic commands (internal/checks/checks.go)

    Findings with their status, their totals, the exit code and the rendering:
    a report is the list of its results, in the order in which they were
    added.  What [Print] writes is a string. *)

From S2P Require Import Prelude GoStrings.

#[global] Open Scope Z_scope.

Inductive Status := Pass | Warn | Fail | Skip.
#[export] Instance Status_eq_dec : EqDecision Status.
Proof. solve_decision. Defined.

Definition status_text (s : Status) : str :=
  match s with Pass => #"PASS" | Warn => #"WARN" | Fail => #"FAIL" | Skip => #"SKIP" end.

Record Result := mkResult { rtSection : str; rtName : str; rtStatus : Status; rtDetail : str; rtFix : str }.
Abbreviation Report := (list Result).

(** [Add] and its shorthands: what they append. *)
Definition Add (section name : str) (status : Status) (detail fix_ : str) : Report :=
  [mkResult section name status detail fix_].
Definition pass (section name detail : str) : Report := Add section name Pass detail [].
Definition warn (section name detail fix_ : str) : Report := Add section name Warn detail fix_.
Definition fail (section name detail fix_ : str) : Report := Add section name Fail detail fix_.
Definition skip (section name detail : str) : Report := Add section name Skip detail [].

Record counts := mkCounts { ctPass : Z; ctWarn : Z; ctFail : Z; ctSkip : Z }.
Definition count_one (c : counts) (r : Result) : counts :=
  match rtStatus r with
  | Pass => mkCounts (ctPass c + 1) (ctWarn c) (ctFail c) (ctSkip c)
  | Warn => mkCounts (ctPass c) (ctWarn c + 1) (ctFail c) (ctSkip c)
  | Fail => mkCounts (ctPass c) (ctWarn c) (ctFail c + 1) (ctSkip c)
  | Skip => mkCounts (ctPass c) (ctWarn c) (ctFail c) (ctSkip c + 1)
  end.
Definition Counts (r : Report) : counts := fold_left count_one r (mkCounts 0 0 0 0).
Definition ExitCode (r : Report) : Z := if 0 <? ctFail (Counts r) then 1 else 0.

(** The sections in the order in which they were first seen, with what was
    found under each. *)
Definition by_section (st : list str * gmap str Report) (res : Result) : list str * gmap str Report :=
  let '(order, bySection) := st in
  (match bySection !! rtSection res with Some _ => order | None => order ++ [rtSection res] end,
   <[rtSection res := default [] (bySection !! rtSection res) ++ [res]]> bySection).
Definition grouped (r : Report) : list (str * Report) :=
  let '(order, bySection) := fold_left by_section r ([], ∅) in
  map (fun s => (s, default [] (bySection !! s))) order.

Definition line (s : str) : str := s ++ [LF].
Definition underline (c : ascii) (s : str) : str := line s ++ line (replicate (length s) c).
Definition print_result (res : Result) : str :=
  line (#"  [" ++ status_text (rtStatus res) ++ #"] " ++ rtName res
        ++ (if rtDetail res =s [] then [] else #": " ++ rtDetail res))
  ++ (if negb (rtFix res =s []) && bool_decide (rtStatus res = Warn \/ rtStatus res = Fail)
      then line (#"         fix: " ++ rtFix res) else []).
Definition print_section (g : str * Report) : str :=
  underline "-" g.1 ++ mjoin (map print_result g.2) ++ line [].
Definition Print (r : Report) (title : str) : str :=
  let c := Counts r in
  underline "=" title ++ line []
  ++ mjoin (map print_section (grouped r))
  ++ line (dec (ctPass c) ++ #" passed, " ++ dec (ctWarn c) ++ #" warnings, " ++ dec (ctFail c) ++ #" failures, "
           ++ dec (ctSkip c) ++ #" skipped")
  ++ (if 0 <? ctFail c then line (LF :: #"Failures need attention: mail delivery or security is affected.") else []).

Definition sortedDomains (names : list str) : list str := sort_slice str_ltb names.

(** ** Totals *)

Definition having (s : Status) (r : Report) : Z := Z.of_nat (length (filter (fun x => rtStatus x = s) r)).

Lemma Counts_from r : forall c,
  fold_left count_one r c = mkCounts (ctPass c + having Pass r) (ctWarn c + having Warn r)
                                     (ctFail c + having Fail r) (ctSkip c + having Skip r).
Proof.
  unfold having. induction r as [|x r IH]; intros [a b f s]; cbn [fold_left].
  - cbn. by rewrite !Z.add_0_r.
  - rewrite IH. unfold count_one. rewrite !filter_cons.
    destruct (rtStatus x); repeat case_decide; try done; cbn [ctPass ctWarn ctFail ctSkip length]; f_equal; lia.
Qed.
Lemma Counts_having r : Counts r = mkCounts (having Pass r) (having Warn r) (having Fail r) (having Skip r).
Proof. unfold Counts. by rewrite Counts_from. Qed.

Definition failed (x : Result) : Prop := rtStatus x = Fail.
#[export] Instance failed_dec x : Decision (failed x).
Proof. unfold failed. apply _. Defined.

Lemma having_none s r : having s r = 0 <-> Forall (fun x => rtStatus x <> s) r.
Proof.
  unfold having. induction r as [|x r IH]; [by split|]. rewrite filter_cons, Forall_cons.
  destruct (decide (rtStatus x = s)); cbn [length]; [split; [lia|naive_solver]|]. rewrite IH. naive_solver.
Qed.
Lemma having_nonneg s r : 0 <= having s r.
Proof. unfold having. lia. Qed.

Lemma ExitCode_spec r : ExitCode r = 0 <-> Forall (fun x => ~ failed x) r.
Proof.
  unfold ExitCode, failed. rewrite Counts_having. cbn [ctFail]. rewrite <- (having_none Fail).
  pose proof (having_nonneg Fail r). destruct (Z.ltb_spec 0 (having Fail r)); lia.
Qed.

Lemma ExitCode_app r1 r2 : ExitCode (r1 ++ r2) = 0 <-> ExitCode r1 = 0 /\ ExitCode r2 = 0.
Proof. by rewrite !ExitCode_spec, Forall_app. Qed.
Lemma ExitCode_one s n st d f : ExitCode (Add s n st d f) = 0 <-> st <> Fail.
Proof. rewrite ExitCode_spec. unfold Add, failed. by rewrite Forall_singleton. Qed.

(** ** The rendering *)

(** The sections of a report, each once, in first-seen order. *)
Fixpoint sections_from (seen : list str) (r : Report) : list str :=
  match r with
  | [] => seen
  | x :: r => sections_from (if bool_decide (rtSection x ∈ seen) then seen else seen ++ [rtSection x]) r
  end.
Definition sections (r : Report) : list str := sections_from [] r.
Definition under (s : str) (r : Report) : Report := filter (fun x => rtSection x = s) r.

Lemma sections_from_elem r : forall seen s, s ∈ sections_from seen r <-> s ∈ seen \/ exists x, x ∈ r /\ rtSection x = s.
Proof.
  induction r as [|x r IH]; intros seen s; cbn [sections_from]; [set_solver|]. rewrite IH.
  case_bool_decide; set_solver.
Qed.
Lemma sections_from_nodup r : forall seen, NoDup seen -> NoDup (sections_from seen r).
Proof.
  induction r as [|x r IH]; intros seen H; cbn [sections_from]; [done|]. apply IH. case_bool_decide; [done|].
  apply NoDup_app. split_and!; [done| |apply NoDup_singleton]. set_solver.
Qed.

Lemma sections_from_snoc x before : forall seen,
  sections_from seen (before ++ [x]) =
  if bool_decide (rtSection x ∈ sections_from seen before) then sections_from seen before
  else sections_from seen before ++ [rtSection x].
Proof. induction before as [|y before IH]; intros seen; cbn [app sections_from]; [done|apply IH]. Qed.

Lemma by_section_fold r : forall before order m,
  order = sections before -> (forall s, m !! s = if bool_decide (s ∈ order) then Some (under s before) else None) ->
  exists m', fold_left by_section r (order, m) = (sections (before ++ r), m') /\
    forall s, default [] (m' !! s) = if bool_decide (s ∈ sections (before ++ r)) then under s (before ++ r) else [].
Proof.
  induction r as [|x r IH]; intros before order m Ho Hm.
  - rewrite app_nil_r. exists m. rewrite Ho in *. split; [done|]. intros s. rewrite Hm. by case_bool_decide.
  - cbn [fold_left]. assert (sections (before ++ [x]) = if bool_decide (rtSection x ∈ order) then order else order ++ [rtSection x]) as Hs.
    { subst order. apply sections_from_snoc. }
    replace (before ++ x :: r) with ((before ++ [x]) ++ r) by (by rewrite <- app_assoc).
    assert (by_section (order, m) x = (sections (before ++ [x]), <[rtSection x := default [] (m !! rtSection x) ++ [x]]> m)) as ->.
    { unfold by_section. rewrite Hs, Hm. by case_bool_decide. }
    apply IH; [done|].
    intros s. rewrite Hs. unfold under. rewrite filter_app, filter_cons, filter_nil. fold (under s before).
      assert (bool_decide (rtSection x ∈ order) = false -> under (rtSection x) before = []) as Hnone.
      { intros Hn%bool_decide_eq_false. destruct (under (rtSection x) before) as [|y l] eqn:E; [done|]. exfalso. apply Hn.
        subst order. apply sections_from_elem. right. exists y.
        assert (y ∈ under (rtSection x) before) as Hy by (rewrite E; set_solver). apply list_elem_of_filter in Hy. naive_solver. }
      destruct (decide (rtSection x = s)) as [<-|Hne].
      * rewrite lookup_insert_eq, Hm. destruct (bool_decide (rtSection x ∈ order)) eqn:Eb; cbn [default].
        -- by rewrite Eb.
        -- rewrite Hnone by done. rewrite bool_decide_eq_true_2 by set_solver. done.
      * rewrite lookup_insert_ne, Hm, app_nil_r by done.
        destruct (bool_decide (rtSection x ∈ order)); [done|].
        by rewrite (bool_decide_ext (s ∈ order ++ [rtSection x]) (s ∈ order)) by set_solver.
Qed.

Lemma grouped_spec r : grouped r = map (fun s => (s, under s r)) (sections r).
Proof.
  unfold grouped. destruct (by_section_fold r [] [] ∅) as (m & E & Hm); [done|by intros s; rewrite lookup_empty|].
  cbn [app] in E, Hm. rewrite E. apply map_ext_in. intros s Hs%list_elem_of_In. by rewrite Hm, bool_decide_eq_true_2.
Qed.

Lemma under_perm r : forall ss, NoDup ss -> (forall x, x ∈ r -> rtSection x ∈ ss) -> mjoin (map (fun s => under s r) ss) ≡ₚ r.
Proof.
  induction r as [|x r IH]; intros ss Hn Hin.
  - replace (map (fun s => under s []) ss) with (map (fun _ : str => @nil Result) ss) by done. clear. by induction ss.
  - destruct (list_elem_of_split ss (rtSection x)) as (s1 & s2 & E); [apply Hin; set_solver|]. subst ss.
    apply NoDup_app in Hn as Hn'. destruct Hn' as (H1 & H2 & H3). apply NoDup_cons in H3 as [H3 _].
    assert (forall s, s <> rtSection x -> under s (x :: r) = under s r) as Hne.
    { intros s Hs. unfold under. rewrite filter_cons, decide_False by done. done. }
    assert (forall l, rtSection x ∉ l -> map (fun s => under s (x :: r)) l = map (fun s => under s r) l) as Hmap.
    { intros l Hl. apply map_ext_in. intros s Hs%list_elem_of_In. apply Hne. set_solver. }
    rewrite map_app. cbn [map]. rewrite !Hmap by set_solver.
    rewrite <- (IH (s1 ++ rtSection x :: s2)) at 2 by (done || set_solver). rewrite map_app. cbn [map].
    replace (under (rtSection x) (x :: r)) with (x :: under (rtSection x) r)
      by (unfold under; by rewrite filter_cons, decide_True).
    rewrite !join_app. cbn [mjoin list_join]. rewrite <- app_comm_cons. by rewrite <- Permutation_middle.
Qed.

(** A report is printed completely: every finding once, under its section,
    the sections in the order of their first finding and the findings of a
    section in theirs; the exit code is 0 exactly if nothing failed. *)
Theorem report_complete r :
  mjoin (map snd (grouped r)) ≡ₚ r /\ NoDup (map fst (grouped r)) /\
  (forall s l, (s, l) ∈ grouped r -> l = under s r /\ l <> []) /\
  (ExitCode r = 0 <-> Forall (fun x => ~ failed x) r) /\
  Z.of_nat (length r) = ctPass (Counts r) + ctWarn (Counts r) + ctFail (Counts r) + ctSkip (Counts r).
Proof.
  rewrite grouped_spec, !map_map. cbn [fst snd]. rewrite map_id.
  assert (NoDup (sections r)) as Hn by (apply sections_from_nodup, NoDup_nil_2).
  split_and!.
  - apply under_perm; [done|]. intros x Hx. apply sections_from_elem. eauto.
  - done.
  - intros s l [s' [E Hs]]%list_elem_of_fmap. injection E as -> ->. split; [done|].
    apply sections_from_elem in Hs as [Hs|(x & Hx & <-)]; [by apply not_elem_of_nil in Hs|]. intros E.
    assert (x ∈ under (rtSection x) r) as Hu by (by apply list_elem_of_filter). rewrite E in Hu. by apply not_elem_of_nil in Hu.
  - apply ExitCode_spec.
  - rewrite Counts_having. cbn [ctPass ctWarn ctFail ctSkip]. unfold having. induction r as [|x r IH]; [done|].
    specialize (IH ltac:(apply sections_from_nodup, NoDup_nil_2)). clear Hn. rewrite !filter_cons.
    destruct (rtStatus x); repeat case_decide; try done; cbn [length]; lia.
Qed.
