(* ===== verification/ConfigAudit.v ===== *)
(** * The audit of configuration and file system (internal/checks/audit.go)

    What [verta --audit] finds, from a loaded configuration and what the
    machine shows of itself: modes of files, directories, the host's name and
    the traces of a container runtime.  How a configuration warning is
    rendered is an argument. *)

From S2P Require Import Prelude GoStrings GoOS Checks Config Settings ConfigLoad.
From S2P Require Container.
From Stdlib Require Import QArith Qround.

#[global] Open Scope Z_scope.

(** ** What the machine shows *)

Inductive stat := NotExist | StatError (e : str) | Mode (perm : Z).
Record dir_entry := mkDirEntry { enName : str; enIsDir : bool; enInfo : option Z }.
Record Machine := mkMachine {
  mcWindows : bool;
  mcStat : path -> stat;
  mcReadDir : path -> option (list dir_entry);
  mcHostname : option str;
  mcMarkers : Container.Markers }.

(** [%04o] of permission bits, [%.0f]. *)
Definition octal4 (m : Z) : str :=
  map (fun k => digit (Z.to_N (Z.land (Z.shiftr m k) 7))) [9; 6; 3; 0].
Definition whole (q : Q) : Z :=
  let f := Qfloor q in
  let rest := (q - inject_Z f)%Q in
  match (rest ?= 1 / 2)%Q with Lt => f | Gt => f + 1 | Eq => if Z.even f then f else f + 1 end.
(** A count of things. *)
Definition num {A} (l : list A) : str := dec (Z.of_nat (length l)).

Section Audit.
Context (render_warning : message -> str) (mc : Machine).

(** ** Posture *)

Definition audit_limits (c : Root) : Report :=
  let s := #"Configuration" in
  let ip := ibIP (rlInbound (cfRateLimit c)) in
  let user := ouUser (rlOutbound (cfRateLimit c)) in
  (if is_enabled (ibEnabled (rlInbound (cfRateLimit c))) then
     pass s #"inbound rate limit" (dec (ilConnections ip) ++ #" conn, " ++ dec (ilMessages ip) ++ #" msg, "
                                   ++ dec (ilRecipients ip) ++ #" rcpt per minute per IP")
   else fail s #"inbound rate limit" #"disabled: the server has no flood protection"
          #"set rate_limit.inbound.enabled: true")
  ++ (if is_enabled (ouEnabled (rlOutbound (cfRateLimit c))) then
        pass s #"outbound rate limit" (dec (ulMessagesPerHour user) ++ #" msg, " ++ dec (ulRecipientsPerHour user)
                                       ++ #" rcpt per hour per user")
      else fail s #"outbound rate limit" #"disabled: a compromised account can send without limit"
             #"set rate_limit.outbound.enabled: true").

Definition audit_features (c : Root) : Report :=
  let s := #"Configuration" in
  let spam := cfAntispam c in
  (if is_enabled (asEnabled spam) then
     pass s #"antispam" (#"tag " ++ dec (whole (asTagScore spam)) ++ #", quarantine " ++ dec (whole (asQuarantineScore spam))
                         ++ #", reject " ++ dec (whole (asRejectScore spam)))
   else warn s #"antispam" #"disabled" #"set antispam.enabled: true")
  ++ (if avEnabled (cfAntivirus c) then pass s #"antivirus" (#"ClamAV at " ++ avSocket (cfAntivirus c))
      else warn s #"antivirus" #"disabled: attachments are not scanned for malware"
             #"install ClamAV and set antivirus.enabled: true")
  ++ (if is_enabled (rpEnabled (cfReputation c)) then pass s #"reputation" #"outbound sender scoring enabled"
      else warn s #"reputation" #"disabled: no compromised-account containment" #"set reputation.enabled: true")
  ++ (if 20 <? auMaxFailures (cfAuth c) then
        warn s #"auth lockout" (dec (auMaxFailures (cfAuth c)) ++ #" failures allowed before lockout")
          #"lower auth.max_failures to 10 or so"
      else pass s #"auth lockout" (dec (auMaxFailures (cfAuth c)) ++ #" failures, " ++ dec (auLockoutMinutes (cfAuth c))
                                   ++ #" minute lockout")).

Definition auditConfigPosture (l : Loaded) : Report :=
  let s := #"Configuration" in
  let c := ldRoot l in
  mjoin (map (fun w => warn s #"config warning" (render_warning w) #"review the configuration") (ldWarnings l))
  ++ pass s #"open relay" #"port 25 accepts local recipients only; relay requires authenticated submission"
  ++ pass s #"VRFY/EXPN" #"permanently disabled (user enumeration)"
  ++ (if tlMinVersion (cfTLS c) =s #"1.2" then
        pass s #"TLS floor" #"TLS 1.2 minimum (SSLv3/TLS 1.0/1.1 never offered)"
      else pass s #"TLS floor" (#"TLS " ++ tlMinVersion (cfTLS c) ++ #" minimum"))
  ++ (if is_enabled (maEnabled (cfMailAuth c)) then
        if is_enabled (maEnforce (cfMailAuth c)) then pass s #"SPF/DKIM/DMARC" #"enabled and enforcing DMARC policy"
        else warn s #"SPF/DKIM/DMARC" #"enabled but not enforcing: results are only annotated"
               #"set mail_auth.enforce: true once you trust the results"
      else warn s #"SPF/DKIM/DMARC" #"inbound authentication is disabled" #"set mail_auth.enabled: true")
  ++ audit_limits c ++ audit_features c.

(** ** Credentials *)

Definition auditPasswords (us : list Account) : Report :=
  let s := #"Credentials" in
  let hash a := uPasswordHash (acUser a) in
  let noHash := List.filter (fun a => hash a =s []) us in
  let bcryptUsers := List.filter (fun a => negb (hash a =s []) && has_prefix #"$2" (hash a)) us in
  match us, noHash with
  | [], _ => skip s #"mailbox passwords" #"no virtual users configured"
  | _, _ :: _ => warn s #"mailbox passwords"
                   (num noHash ++ #" of " ++ num us ++ #" users have no password_hash and cannot submit or read mail")
                   #"generate one with: verta --hash-password"
  | _, [] => pass s #"mailbox passwords" (#"all " ++ num us ++ #" users have a hashed password")
  end
  ++ match bcryptUsers with
     | [] => []
     | _ => warn s #"hash algorithm" (num bcryptUsers ++ #" users still on bcrypt")
              #"re-hash with verta --hash-password to move them to argon2id"
     end.
Definition auditKeys (a : API) : Report :=
  let s := #"Credentials" in
  if negb (apEnabled a) then skip s #"api keys" #"the administrative API is disabled"
  else match List.filter (fun k => Nat.ltb (length k) 32) (apKeys a) with
       | [] => pass s #"api keys" (num (apKeys a) ++ #" keys, all of adequate length")
       | weak => warn s #"api keys" (num weak ++ #" of " ++ num (apKeys a) ++ #" keys are shorter than 32 characters")
                   #"generate keys with: openssl rand -hex 32"
       end.
Definition auditCredentials (c : Root) : Report := auditPasswords (cfUsers c) ++ auditKeys (cfAPI c).

(** ** Permissions *)

(** Bits beyond those allowed. *)
Definition wider (mode maxMode : Z) : bool := negb (Z.ldiff mode maxMode =? 0).

Definition check_mode (name p : str) (maxMode : Z) : Report :=
  let s := #"Filesystem" in
  match mcStat mc (abs_path p) with
  | NotExist => skip s name (p ++ #" does not exist yet")
  | StatError e => warn s name e []
  | Mode mode =>
      if wider mode maxMode then
        fail s name (p ++ #" is mode " ++ octal4 mode ++ #", wider than " ++ octal4 maxMode)
          (#"chmod " ++ octal4 maxMode ++ #" " ++ p)
      else pass s name (p ++ #" is mode " ++ octal4 mode)
  end.

(** The keys of every domain, with the mode of those that can be read. *)
Definition dkim_keys (dir : str) (entries : list dir_entry) : list (option Z) :=
  mjoin (map (fun e =>
    if negb (enIsDir e) then []
    else match mcReadDir mc (join_path (abs_path dir) (enName e)) with
         | None => []
         | Some keys => map enInfo (List.filter (fun k => has_suffix #".pem" (enName k)) keys)
         end) entries).
(** Group or others may read it: 0o077. *)
Definition exposed (info : option Z) : bool :=
  match info with Some mode => negb (Z.land mode 63 =? 0) | None => false end.
Definition key_report (dir : str) (keys : list (option Z)) : Report :=
  let s := #"Filesystem" in
  match keys, List.filter exposed keys with
  | [], _ => skip s #"dkim keys" #"no keys generated yet"
  | _, [] => pass s #"dkim keys" (#"all " ++ num keys ++ #" private keys are owner-only")
  | _, bad => fail s #"dkim keys" (num bad ++ #" of " ++ num keys ++ #" private keys are readable beyond their owner")
                (#"chmod 600 " ++ dir ++ #"/*/*.pem")
  end.
Definition auditKeyFiles (dir : str) : Report :=
  match mcReadDir mc (abs_path dir) with
  | None => skip #"Filesystem" #"dkim keys" (dir ++ #" does not exist yet")
  | Some entries => key_report dir (dkim_keys dir entries)
  end.

(** 0o640, 0o750 and 0o700. *)
Definition auditPermissions (c : Root) (cfgPath : str) : Report :=
  if mcWindows mc then
    skip #"Filesystem" #"permissions" #"POSIX permissions are not meaningful on this platform"
  else
    check_mode #"config file" cfgPath 416
    ++ check_mode #"queue directory" (quDir (cfQueue c)) 488
    ++ check_mode #"dkim directory" (cfDKIMDir c) 448
    ++ auditKeyFiles (cfDKIMDir c).

(** ** Identity *)

Definition domain_names (c : Root) : list str := map (fun h => dName (hdDomain h)) (cfDomains c).

Definition auditHostname (c : Root) : Report :=
  let host := svHostname (cfServer c) in
  match Container.LeaksContainerName (mcHostname mc) host with
  | Some why => fail #"Identity" #"public hostname" (host ++ #": " ++ why)
                  #"set server.hostname to the public FQDN of the mail server"
  | None => pass #"Identity" #"public hostname" (host ++ #" is a public fully qualified name")
  end.
Definition auditRuntime (c : Root) : Report :=
  let s := #"Identity" in
  let rt := Container.Detect (mcMarkers mc) in
  if negb (bool_decide (rt = Container.RuntimeNone)) then
    if ctEnabled (cfContainer c) then
      pass s #"container mode" (#"running under " ++ Container.runtime_text rt ++ #", container mode enabled")
    else warn s #"container mode" (#"running under " ++ Container.runtime_text rt ++ #" but container.enabled is false")
           #"enable the container section so internal addresses stay out of trace headers"
  else if ctEnabled (cfContainer c) then
    warn s #"container mode" #"container mode is enabled but no container runtime was detected"
      #"disable the container section if this is a physical or virtual machine"
  else pass s #"container mode" #"not running in a container".
Definition auditDomains (c : Root) : Report :=
  match cfDomains c with
  | [] => fail #"Identity" #"domains" #"no domains configured: the server accepts no mail" #"add at least one domain"
  | ds => pass #"Identity" #"domains" (num ds ++ #" configured: " ++ join #", " (sortedDomains (domain_names c)))
  end.
Definition auditIdentity (c : Root) : Report := auditHostname c ++ auditRuntime c ++ auditDomains c.

Definition Audit (l : Loaded) (cfgPath : str) : Report :=
  auditConfigPosture l ++ auditCredentials (ldRoot l) ++ auditPermissions (ldRoot l) cfgPath ++ auditIdentity (ldRoot l).

(** ** What a clean audit means *)

(** Only permitted bits are set. *)
Definition within (mode maxMode : Z) : Prop := forall k, 0 <= k -> Z.testbit mode k = true -> Z.testbit maxMode k = true.
Lemma wider_spec mode maxMode : wider mode maxMode = false <-> within mode maxMode.
Proof.
  unfold wider, within. rewrite negb_false_iff, Z.eqb_eq. split.
  - intros H k Hk Hb. pose proof (Z.ldiff_spec mode maxMode k) as E. rewrite H, Z.bits_0, Hb in E. by destruct (Z.testbit maxMode k).
  - intros H. apply Z.bits_inj'. intros k Hk. rewrite Z.ldiff_spec, Z.bits_0.
    destruct (Z.testbit mode k) eqn:E; [|done]. by rewrite (H k).
Qed.

(** Nobody but the owner has a permission. *)
Definition owner_only (mode : Z) : Prop := forall k, 0 <= k < 6 -> Z.testbit mode k = false.
Lemma exposed_spec mode : exposed (Some mode) = false <-> owner_only mode.
Proof.
  unfold exposed, owner_only. rewrite negb_false_iff, Z.eqb_eq. change 63 with (Z.ones 6).
  assert (forall k, 0 <= k -> Z.testbit (Z.ones 6) k = (k <? 6)) as H6.
  { intros k Hk. destruct (Z.ltb_spec k 6); [apply Z.ones_spec_low; lia|apply Z.ones_spec_high; lia]. }
  split.
  - intros H k Hk. pose proof (Z.land_spec mode (Z.ones 6) k) as E.
    rewrite H, Z.bits_0, H6, (proj2 (Z.ltb_lt k 6)), andb_true_r in E by lia. done.
  - intros H. apply Z.bits_inj'. intros k Hk. rewrite Z.land_spec, Z.bits_0, H6 by done.
    destruct (Z.ltb_spec k 6); [by rewrite H|apply andb_false_r].
Qed.

Lemma ExitCode_if (b : bool) r1 r2 :
  ExitCode (if b then r1 else r2) = 0 <-> (b = true -> ExitCode r1 = 0) /\ (b = false -> ExitCode r2 = 0).
Proof. destruct b; naive_solver. Qed.
Lemma ExitCode_join rs : ExitCode (mjoin rs) = 0 <-> Forall (fun r => ExitCode r = 0) rs.
Proof.
  induction rs as [|r rs IH]; [by split|]. cbn [mjoin list_join]. by rewrite ExitCode_app, IH, Forall_cons.
Qed.
End Audit.

Section Clean.
Context (render_warning : message -> str) (mc : Machine).

Definition fits (p : path) (maxMode : Z) : Prop := forall mode, mcStat mc p = Mode mode -> within mode maxMode.
(** The key files found under the domains' directories. *)
Definition key_file (dir : str) (info : option Z) : Prop :=
  exists entries e keys k, mcReadDir mc (abs_path dir) = Some entries /\ e ∈ entries /\ enIsDir e = true /\
    mcReadDir mc (join_path (abs_path dir) (enName e)) = Some keys /\ k ∈ keys /\
    has_suffix #".pem" (enName k) = true /\ enInfo k = info.

Lemma check_mode_clean name p m : ExitCode (check_mode mc name p m) = 0 <-> fits (abs_path p) m.
Proof.
  unfold check_mode, fits. destruct (mcStat mc (abs_path p)) as [|e|mode]; [by split|by split|].
  pose proof (wider_spec mode m). destruct (wider mode m); split.
  - done.
  - intros H'. specialize (H' mode eq_refl). by apply H in H'.
  - intros _ mode' [= <-]. by apply H.
  - done.
Qed.

Lemma elem_of_dkim_keys dir entries info : mcReadDir mc (abs_path dir) = Some entries ->
  info ∈ dkim_keys mc dir entries <-> key_file dir info.
Proof.
  intros Hd. unfold dkim_keys, key_file. rewrite list_elem_of_join. split.
  - intros (l & Hi & (e & -> & He)%list_elem_of_fmap). destruct (enIsDir e) eqn:Ed; cbn [negb] in Hi; [|by apply not_elem_of_nil in Hi].
    destruct (mcReadDir mc (join_path _ _)) as [keys|] eqn:Ek; [|by apply not_elem_of_nil in Hi].
    apply list_elem_of_fmap in Hi as (k & -> & Hk). apply list_elem_of_In, filter_In in Hk as [Hk Hs].
    exists entries, e, keys, k. split_and!; try done. by apply list_elem_of_In.
  - intros (es & e & keys & k & Hd' & He & Ed & Ek & Hk & Hs & Hi). rewrite Hd in Hd'. injection Hd' as <-.
    eexists. split; [|apply list_elem_of_fmap; exists e; split; [reflexivity|done]]. cbn beta. rewrite Ed, Ek. cbn [negb].
    apply list_elem_of_fmap. exists k. split; [done|]. apply list_elem_of_In, filter_In. by rewrite <- list_elem_of_In.
Qed.

Lemma key_report_clean dir keys : ExitCode (key_report dir keys) = 0 <-> List.filter exposed keys = [].
Proof. unfold key_report. destruct keys as [|k l]; [by split|]. by destruct (List.filter exposed (k :: l)). Qed.

Lemma auditKeyFiles_clean dir : ExitCode (auditKeyFiles mc dir) = 0 <-> forall mode, key_file dir (Some mode) -> owner_only mode.
Proof.
  unfold auditKeyFiles. destruct (mcReadDir mc (abs_path dir)) as [entries|] eqn:Hd.
  - rewrite key_report_clean.
    split.
    + intros H mode Hk. apply (elem_of_dkim_keys dir entries) in Hk; [|done]. apply exposed_spec.
      destruct (exposed (Some mode)) eqn:E; [|done]. exfalso.
      assert (Some mode ∈ List.filter exposed (dkim_keys mc dir entries)) as Hf
        by (apply list_elem_of_In, filter_In; by rewrite <- list_elem_of_In).
      rewrite H in Hf. by apply not_elem_of_nil in Hf.
    + intros H. destruct (List.filter exposed _) as [|[mode|] l] eqn:E; [done| |].
      all: match type of E with _ = ?x :: _ => assert (x ∈ List.filter exposed (dkim_keys mc dir entries)) as Hf by (rewrite E; by left) end.
      all: apply list_elem_of_In, filter_In in Hf as [Hf He]; apply list_elem_of_In in Hf.
      * apply (elem_of_dkim_keys dir entries) in Hf; [|done]. apply H, exposed_spec in Hf. congruence.
      * done.
  - split; [|done]. intros _ mode (entries & e & keys & k & Hd' & _). congruence.
Qed.

Lemma posture_clean l : ExitCode (auditConfigPosture render_warning l) = 0 <->
  is_enabled (ibEnabled (rlInbound (cfRateLimit (ldRoot l)))) = true /\
  is_enabled (ouEnabled (rlOutbound (cfRateLimit (ldRoot l)))) = true.
Proof.
  unfold auditConfigPosture. rewrite !ExitCode_app, ExitCode_join.
  assert (forall (b : bool) r1 r2, ExitCode r1 = 0 -> ExitCode r2 = 0 -> ExitCode (if b then r1 else r2) = 0) as Hif by by intros [].
  assert (ExitCode (audit_features (ldRoot l)) = 0) as Hf.
  { unfold audit_features. rewrite !ExitCode_app. split_and!; by apply Hif. }
  split.
  - intros (_ & _ & _ & _ & _ & H & _). unfold audit_limits in H. rewrite ExitCode_app in H. destruct H as [H1 H2].
    split; [destruct (is_enabled (ibEnabled _))|destruct (is_enabled (ouEnabled _))]; done.
  - intros [H1 H2]. split_and!; try done.
    + apply Forall_forall. by intros r (w & -> & _)%list_elem_of_fmap.
    + by apply Hif.
    + apply Hif; [by apply Hif|done].
    + unfold audit_limits. by rewrite H1, H2.
Qed.

Lemma credentials_clean c : ExitCode (auditCredentials c) = 0.
Proof.
  unfold auditCredentials, auditPasswords, auditKeys. rewrite !ExitCode_app. split_and!; by repeat case_match.
Qed.

Lemma identity_clean c : ExitCode (auditIdentity mc c) = 0 <->
  Container.LeaksContainerName (mcHostname mc) (svHostname (cfServer c)) = None /\ cfDomains c <> [].
Proof.
  unfold auditIdentity. rewrite !ExitCode_app.
  assert (ExitCode (auditRuntime mc c) = 0) as H by (unfold auditRuntime; by repeat case_match).
  unfold auditHostname, auditDomains. destruct (Container.LeaksContainerName _ _), (cfDomains c); cbn [fail pass Add]; naive_solver.
Qed.

(** C16. The audit exits with 0 exactly if both rate limits are on; not on
    Windows: the modes of the main configuration file, the queue directory and
    the key directory, where they can be had, add no bit to 0640, 0750 and
    0700, and the DKIM keys whose mode can be had give group and others
    nothing; the host name does not give a container away and a domain is
    served.  Nothing else fails it: domain files are not looked at, and what
    cannot be looked at passes. *)
Theorem audit_clean l cfgPath :
  ExitCode (Audit render_warning mc l cfgPath) = 0 <->
  let c := ldRoot l in
  is_enabled (ibEnabled (rlInbound (cfRateLimit c))) = true /\ is_enabled (ouEnabled (rlOutbound (cfRateLimit c))) = true /\
  (mcWindows mc = false ->
   fits (abs_path cfgPath) 416 /\ fits (abs_path (quDir (cfQueue c))) 488 /\ fits (abs_path (cfDKIMDir c)) 448 /\
   forall mode, key_file (cfDKIMDir c) (Some mode) -> owner_only mode) /\
  Container.LeaksContainerName (mcHostname mc) (svHostname (cfServer c)) = None /\ cfDomains c <> [].
Proof.
  assert (ExitCode (auditPermissions mc (ldRoot l) cfgPath) = 0 <-> (mcWindows mc = false ->
    fits (abs_path cfgPath) 416 /\ fits (abs_path (quDir (cfQueue (ldRoot l)))) 488 /\ fits (abs_path (cfDKIMDir (ldRoot l))) 448 /\
    forall mode, key_file (cfDKIMDir (ldRoot l)) (Some mode) -> owner_only mode)) as H4.
  { unfold auditPermissions. rewrite ExitCode_if, !ExitCode_app, !check_mode_clean, auditKeyFiles_clean. naive_solver. }
  unfold Audit. rewrite !ExitCode_app, posture_clean, identity_clean, H4.
  pose proof (credentials_clean (ldRoot l)). cbv zeta. tauto.
Qed.
End Clean.
