(* ===== verification/Dkim.v ===== *)
(** * DKIM keys and signatures (internal/dkim/dkim.go)

    One private key per domain and selector, kept in a PEM file: generating
    it, reading it back, the DNS record of its public part, and the options a
    message is signed with.  RSA, the encodings of keys, PEM and the signing
    library are arguments; what the theorems use of them are the laws of
    [KeyCodec]. *)

From S2P Require Import Prelude GoStrings GoOS Base64.

#[global] Open Scope Z_scope.

Definition DefaultSelector : str := #"default".
Definition signedHeaders : list str :=
  [ #"From"; #"To"; #"Cc"; #"Subject"; #"Date"; #"Message-ID"; #"Reply-To"; #"MIME-Version"; #"Content-Type";
    #"Content-Transfer-Encoding"].

(** PEM blocks, PKCS #8 private keys and PKIX public keys. *)
Class KeyCodec (Key : Type) := {
  pem_Encode : str -> str;
  pem_Decode : str -> option str;
  MarshalPKCS8 : Key -> option str;
  ParsePKCS8 : str -> option Key;
  MarshalPKIX : Key -> option str }.
Class LawfulKeyCodec (Key : Type) `{KeyCodec Key} : Prop := {
  pem_law der : pem_Decode (pem_Encode der) = Some der;
  pkcs8_law k der : MarshalPKCS8 k = Some der -> ParsePKCS8 der = Some k }.

Section Keys.
Context {Key : Type} `{KeyCodec Key}.

(** [Store]: the key directory. *)
Definition keyPath (dir : path) (domain selector : str) : path :=
  join_path (join_path dir domain) (selector ++ #".pem").
Definition or_default (selector : str) : str := if selector =s [] then DefaultSelector else selector.

Definition Signer (dir : path) (domain selector : str) : M (option Key) :=
  r ← try (ReadFile (keyPath dir domain (or_default selector)));
  mret (match r with
        | Err _ => None
        | Ok b => block ← pem_Decode b; ParsePKCS8 block
        end).

(** The record to publish for a public key: its name and its value. *)
Definition txt_record (domain selector pub : str) : str * str :=
  (selector ++ #"._domainkey." ++ domain, #"v=DKIM1; k=rsa; p=" ++ encode_std pub).

(** What [x509] or [rsa] makes, or their error. *)
Definition made {A} (a : option A) : M A := match a with Some a => mret a | None => throw EIO end.

(** [Generate]; [fresh] is what [rsa.GenerateKey] answers. *)
Definition Generate (dir : path) (domain selector : str) (fresh : option Key) : M (str * str) :=
  let selector := or_default selector in
  let p := keyPath dir domain selector in
  r ← try (Stat p);
  match r with
  | Ok _ => throw (ErrText (#"key already exists: " ++ path_text p ++ #" (remove it to regenerate)"))
  | Err _ =>
      key ← made fresh;
      der ← made (MarshalPKCS8 key);
      _ ← MkdirAll (parent p);
      _ ← WriteFile p (pem_Encode der);
      pub ← made (MarshalPKIX key);
      mret (txt_record domain selector pub)
  end.

Definition TXTRecord (dir : path) (domain selector : str) : M (str * str) :=
  let selector := or_default selector in
  signer ← Signer dir domain selector;
  match signer with
  | None => throw (ErrText (#"no key for " ++ domain ++ #" (selector " ++ selector ++ #")"))
  | Some key => pub ← made (MarshalPKIX key); mret (txt_record domain selector pub)
  end.

(** [Sign] with the library's [Sign]: relaxed canonicalization of header and
    body. *)
Inductive canonicalization := Simple | Relaxed.
Record SignOptions := mkSignOptions {
  soDomain : str;
  soSelector : str;
  soSigner : Key;
  soHeader : canonicalization;
  soBody : canonicalization;
  soHeaderKeys : list str }.
Definition Sign (msgdkim_Sign : SignOptions -> str -> option str) (msg domain selector : str) (key : Key) : option str :=
  msgdkim_Sign (mkSignOptions domain (or_default selector) key Relaxed Relaxed signedHeaders) msg.

(** The hook of the daemon (cmd/verta/main.go): a domain without a key sends
    unsigned mail. *)
Definition sign_hook (msgdkim_Sign : SignOptions -> str -> option str) (dir : path) (domain selector msg : str) : M (option str) :=
  signer ← Signer dir domain selector;
  mret (match signer with None => Some msg | Some key => Sign msgdkim_Sign msg domain selector key end).

(** ** A key that is there stays *)

Lemma or_default_idem s : or_default (or_default s) = or_default s.
Proof. unfold or_default. by destruct s. Qed.

(** The file system has nothing to complain about for the next call. *)
Definition works_next (w : world) : Prop := match wFaults w with [] | NoFault :: _ => True | _ => False end.

Lemma Stat_works p w : works_next w -> is_Some (wFiles w !! p) ->
  exists w', Stat p w = (Ok tt, w') /\ wFiles w' = wFiles w.
Proof.
  intros Hw [f Hf]. unfold Stat, syscall, next_fault, mbind, M_bind, works_next in *.
  destruct (wFaults w) as [|[] fs]; try done; cbn [get_world set_faults wDirs wFiles]; rewrite Hf; case_decide; by eexists.
Qed.

Lemma Stat_calm p w : wFaults w = [] -> is_Some (wFiles w !! p) -> Stat p w = (Ok tt, w).
Proof.
  intros Hw [f Hf]. unfold Stat. rewrite syscall_ok by done. unfold mbind, M_bind, get_world. rewrite Hf. by case_decide.
Qed.
Lemma frame_TXTRecord dir domain selector : frame (fun _ => False) (TXTRecord dir domain selector).
Proof.
  unfold TXTRecord, Signer. apply frame_bind; [apply frame_bind; [auto with frames|intros r; apply frame_ret]|].
  intros [key|]; [|apply frame_throw]. apply frame_bind; [|intros pub; apply frame_ret].
  destruct (MarshalPKIX key); [apply frame_ret|apply frame_throw].
Qed.

Lemma Generate_safe dir domain selector fresh w :
  let p := keyPath dir domain (or_default selector) in
  let '(r, w') := Generate dir domain selector fresh w in
  (forall q, q <> p -> wFiles w' !! q = wFiles w !! q) /\
  (is_Some (wFiles w !! p) -> works_next w -> (exists e, r = Err e) /\ wFiles w' = wFiles w).
Proof.
  intros p. destruct (Generate dir domain selector fresh w) as [r w'] eqn:E. split.
  - assert (frame (fun q => q = p) (Generate dir domain selector fresh)) as HF.
    { assert (forall A (a : option A), frame (fun q => q = p) (made a)) as Hm by (intros A [a|]; [apply frame_ret|apply frame_throw]).
      unfold Generate. fold p. apply frame_bind; [auto with frames|intros [?|?]]; [auto with frames|].
      repeat (apply frame_bind; [first [apply Hm|apply frame_MkdirAll|by apply frame_WriteFile]|intros ?]). apply frame_ret. }
    intros q Hq. specialize (HF w). rewrite E in HF. by apply HF.
  - intros Hp Hw. destruct (Stat_works p w Hw Hp) as (w1 & E1 & Hd).
    unfold Generate in E. fold p in E. unfold mbind, M_bind, try in E. rewrite E1 in E. injection E as <- <-.
    split; [by eexists|done].
Qed.

(** Generating writes one file only, the one of the key, and never over a key
    that can be seen: unless the very first call fails, a key that exists
    stays, with every other file, and the caller is told. *)
Theorem Generate_keeps dir domain selector fresh w :
  let p := keyPath dir domain (or_default selector) in
  let '(r, w') := Generate dir domain selector fresh w in
  (forall q, q <> p -> wFiles w' !! q = wFiles w !! q) /\
  (is_Some (wFiles w !! p) -> works_next w -> (exists e, r = Err e) /\ wFiles w' = wFiles w).
Proof. apply Generate_safe. Qed.

(** What a generation that works leaves behind. *)
Lemma Generate_writes dir domain selector fresh w txt w' :
  wFaults w = [] -> Generate dir domain selector fresh w = (Ok txt, w') ->
  exists key der pub, fresh = Some key /\ MarshalPKCS8 key = Some der /\ MarshalPKIX key = Some pub /\
    txt = txt_record domain (or_default selector) pub /\ wFaults w' = [] /\
    (fData <$> wFiles w' !! keyPath dir domain (or_default selector)) = Some (pem_Encode der).
Proof.
  intros Hw E. set (p := keyPath dir domain (or_default selector)).
  unfold Generate in E. fold p in E. unfold mbind at 1, M_bind at 1, try in E.
  destruct (Stat p w) as [[[]|e] w1] eqn:E1; [done|].
  assert (wFaults w1 = []) as Hw1.
  { unfold Stat in E1. rewrite syscall_ok in E1 by done. unfold mbind, M_bind in E1. cbn [get_world] in E1.
    destruct (decide (p ∈ wDirs w)); [done|]. destruct (wFiles w !! p); [done|]. by injection E1 as _ <-. }
  destruct fresh as [key|]; [|done]. cbn [made mbind M_bind mret M_ret] in E. unfold mbind, M_bind, mret, M_ret in E.
  destruct (MarshalPKCS8 key) as [der|] eqn:Hder; [|done]. cbn [made mret M_ret] in E.
  unfold MkdirAll in E. rewrite syscall_ok in E by done. cbn [modify] in E.
  set (w2 := set_dirs _ w1) in E. rewrite (WriteFile_ok w2) in E; [|done|].
  - destruct (MarshalPKIX key) as [pub|] eqn:Hpub; [|done]. injection E as <- <-. exists key, der, pub. split_and!; try done.
    cbn. by rewrite lookup_insert_eq.
  - unfold w2. cbn. apply elem_of_union. left. apply elem_of_list_to_set, elem_of_prefixes. done.
Qed.

(** A key that was just generated is found again: it signs, and the record
    shown for it is the one that was to be published. *)
Theorem Generate_TXTRecord `{!LawfulKeyCodec Key} dir domain selector fresh w txt w' :
  wFaults w = [] -> Generate dir domain selector fresh w = (Ok txt, w') ->
  exists key pub, fresh = Some key /\ MarshalPKIX key = Some pub /\ txt = txt_record domain (or_default selector) pub /\
    (Signer dir domain selector w').1 = Ok (Some key) /\ (TXTRecord dir domain selector w').1 = Ok txt.
Proof.
  intros Hw E. set (p := keyPath dir domain (or_default selector)).
  destruct (Generate_writes _ _ _ _ _ _ _ Hw E) as (key & der & pub & -> & Hder & Hpub & -> & Hw' & Hf). fold p in Hf.
  exists key, pub. split; [done|]. split; [done|]. split; [done|].
  assert (forall v, (Signer dir domain selector w').1 = Ok v -> v = Some key) as Hs.
  { intros v. unfold Signer. fold p. unfold mbind, M_bind, try, ReadFile. rewrite syscall_ok by done.
    unfold mbind, M_bind. cbn [get_world]. destruct (wFiles w' !! p) as [f|]; [|done]. cbn in Hf. injection Hf as Hf.
    cbn. rewrite Hf, pem_law. cbn. rewrite (pkcs8_law key) by done. by intros [= <-]. }
  assert (exists v w'', Signer dir domain selector w' = (Ok v, w'')) as (v & w'' & Es).
  { unfold Signer, mbind, M_bind, try. destruct (ReadFile _ w') as [r w1]. by eexists _, _. }
  specialize (Hs v). rewrite Es in Hs. cbn in Hs. rewrite Es. rewrite (Hs eq_refl) in *. split; [done|].
  unfold TXTRecord. unfold mbind, M_bind. assert (Signer dir domain (or_default selector) w' = (Ok (Some key), w'')) as ->.
  { unfold Signer in *. by rewrite or_default_idem. }
  rewrite Hpub. done.
Qed.
End Keys.

(** ** Examples *)

(** Keys that encode as themselves. *)
#[global] Instance toy_keys : KeyCodec str := {|
  pem_Encode := fun s => s; pem_Decode := Some; MarshalPKCS8 := Some; ParsePKCS8 := Some; MarshalPKIX := Some |}.
#[global] Instance toy_keys_lawful : LawfulKeyCodec str.
Proof. split; [done|]. by intros k der [= ->]. Qed.

Definition toy_world (fs : gmap path file) (faults : list fault) : world := mkWorld fs ∅ faults 0 [] [] 0 1 #"host".
Definition key_dir : path := [ #"dkim"].
Definition old_key : path := keyPath key_dir #"b.c" DefaultSelector.

Lemma Generate_TXTRecord_witness : exists key pub : str,
  Some #"k" = Some key /\ MarshalPKIX key = Some pub /\
  (#"default._domainkey.b.c", #"v=DKIM1; k=rsa; p=aw==") = txt_record #"b.c" (or_default []) pub /\
  (Signer key_dir #"b.c" [] (Generate key_dir #"b.c" [] (Some #"k") (toy_world ∅ [])).2).1 = Ok (Some key) /\
  (TXTRecord key_dir #"b.c" [] (Generate key_dir #"b.c" [] (Some #"k") (toy_world ∅ [])).2).1
  = Ok (#"default._domainkey.b.c", #"v=DKIM1; k=rsa; p=aw==").
Proof.
  apply (Generate_TXTRecord key_dir #"b.c" [] (Some #"k") (toy_world ∅ [])); [reflexivity|]. vm_compute. reflexivity.
Defined.

(** The test for an existing key takes every error for its absence: when
    [os.Stat] fails for another reason the key is overwritten. *)
Example a_failing_stat_overwrites :
  let w := toy_world {[old_key := mkFile #"old" 0]} [Fault] in
  let '(r, w') := Generate key_dir #"b.c" [] (Some #"new") (set_dirs {[ key_dir ++ [ #"b.c"] ]} w) in
  is_ok r = true /\ fData <$> wFiles w' !! old_key = Some #"new".
Proof. vm_compute. split; reflexivity. Qed.
