(* ===== verification/Probe.v ===== *)
(** * The open-relay probe of the security check (internal/checks/security.go)

    [checkOpenRelay] talks to a running server as an outsider and judges its
    replies.  What the server sends arrives in segments; what the probe sends
    is recorded.  The theorems put it together with the server of this program
    ([Smtp]). *)

From S2P Require Import Prelude GoStrings GoNet StateM GoValues Checks Settings.
From S2P Require Smtp SmtpFlow Base64 Container Daemon DaemonProps QueueProps.

#[global] Open Scope Z_scope.

(** [%q] of [fmt], bytes outside ASCII left alone. *)
Definition quote_byte (c : ascii) : str :=
  let n := N_of_ascii c in
  if Ascii.eqb c DQ || Ascii.eqb c BSL then [BSL; c]
  else match List.find (fun p => N.eqb p.1 n)
               [(7%N, #"a"); (8%N, #"b"); (9%N, #"t"); (10%N, #"n"); (11%N, #"v"); (12%N, #"f"); (13%N, #"r")] with
       | Some (_, l) => BSL :: l
       | None => if (n <? 32)%N || (n =? 127)%N then BSL :: #"x" ++ [hex_digit (n / 16); hex_digit (n mod 16)] else [c]
       end.
Definition Quote (s : str) : str := DQ :: mjoin (map quote_byte s) ++ [DQ].

(** ** The connection *)

Definition readerSize : nat := Z.to_nat 4096.

(** One reply: the lines up to the last of its code, or nothing when the peer
    is gone. *)
Fixpoint read_fuel (fuel : nat) (rd : reader) : str * reader :=
  match fuel with
  | O => ([], rd)
  | S f =>
      let '(l, ok, rd) := ReadString readerSize rd in
      if negb ok then ([], rd)
      else if Nat.leb 4 (length l) && Ascii.eqb (nth 3 l NUL) SP then (trim_space l, rd)
      else read_fuel f rd
  end.

(** What was sent and what is still to be read. *)
Abbreviation probe := (list str * reader)%type.
Definition read : SM probe str := fun p => let '(r, rd) := read_fuel (S (length (stream p.2))) p.2 in (r, (p.1, rd)).
Definition send (cmd : str) : SM probe str := fun p => read (p.1 ++ [cmd], p.2).

(** ** The judgement *)

Section Relay.
Definition relay_section : str := #"Open relay".

Definition banner_finding (hostname banner : str) : Report :=
  if contains hostname banner then pass relay_section #"banner" banner
  else fail relay_section #"banner" (#"banner does not carry the configured hostname: " ++ Quote banner)
         #"set server.hostname to the public name".
Definition relay_refused (reply : str) : bool :=
  has_prefix #"554" reply || has_prefix #"550" reply || has_prefix #"553" reply || has_prefix #"551" reply.
Definition relay_finding (reply : str) : Report :=
  if relay_refused reply then pass relay_section #"external relay refused" reply
  else if reply =s [] then warn relay_section #"external relay" #"no reply to RCPT" []
  else fail relay_section #"OPEN RELAY" (#"the server accepted a foreign recipient without authentication: " ++ reply)
         #"this server can be used to send spam; stop it and report the issue".
Definition auth_finding (reply : str) : Report :=
  if has_prefix #"334" reply || has_prefix #"235" reply then
    fail relay_section #"AUTH on port 25" (#"the inbound port accepts authentication: " ++ reply)
      #"authentication belongs on submission (587/465) only"
  else pass relay_section #"AUTH on port 25" (#"refused: " ++ reply).
Definition disabled_finding (cmd reply : str) : Report :=
  let name := default [] (head (fields cmd)) in
  if has_prefix #"502" reply || has_prefix #"252" reply then pass relay_section (name ++ #" disabled") reply
  else fail relay_section name (#"user enumeration is possible: " ++ reply) [].

Definition EHLO_cmd : str := #"EHLO relay-test.invalid".
Definition MAIL_cmd : str := #"MAIL FROM:<probe@relay-test.invalid>".
Definition RCPT_cmd : str := #"RCPT TO:<victim@relay-test-external.invalid>".
Definition AUTH_cmd : str := #"AUTH LOGIN " ++ Base64.encode_std #"x".
Definition VRFY_cmd : str := #"VRFY postmaster".
Definition EXPN_cmd : str := #"EXPN staff".

(** The exchange after the connection is there. *)
Definition exchange (hostname : str) : SM probe Report :=
  banner ← read;
  if banner =s [] then mret (warn relay_section #"relay test" #"no banner received" [])
  else
    _ ← send EHLO_cmd;
    _ ← send MAIL_cmd;
    reply ← send RCPT_cmd;
    auth ← send AUTH_cmd;
    vrfy ← send VRFY_cmd;
    expn ← send EXPN_cmd;
    _ ← send #"QUIT";
    mret (banner_finding hostname banner ++ relay_finding reply ++ auth_finding auth
          ++ disabled_finding VRFY_cmd vrfy ++ disabled_finding EXPN_cmd expn).

Definition unspecified (host : str) : bool := (host =s []) || (host =s #"0.0.0.0") || (host =s #"::").
Definition JoinHostPort (host port : str) : str :=
  if contains #":" host then #"[" ++ host ++ #"]:" ++ port else host ++ #":" ++ port.

(** [Dial]: what the peer will send, or why there is none. *)
Definition checkOpenRelay (c : Root) (probeHost : str) (Dial : str -> result str (list str)) : list str * Report :=
  let s := relay_section in
  let addr := lsSMTP (cfListeners c) in
  if addr =s [] then ([], skip s #"relay test" #"the SMTP listener is disabled")
  else match SplitHostPort addr with
       | Err _ => ([], warn s #"relay test" (#"cannot parse listener address " ++ addr) [])
       | Ok (host, port) =>
           let target := JoinHostPort (if unspecified host then probeHost else host) port in
           match Dial target with
           | Err e => ([], warn s #"relay test" (#"cannot connect to " ++ target ++ #": " ++ e)
                             #"start the daemon, or pass --host to probe a different address")
           | Ok segs =>
               let '(report, (sent, _)) := exchange (svHostname (cfServer c)) ([], mkReader [] segs) in
               (sent, report)
           end
       end.
End Relay.

(** ** Reading replies from a stream *)

(** The lines of a reply: all but the last carry a hyphen after the code. *)
Definition final_line (l : str) : Prop := LF ∉ l /\ (3 < length l)%nat /\ nth 3 l NUL = SP.
Definition middle_line (l : str) : Prop := LF ∉ l /\ (3 < length l)%nat /\ nth 3 l NUL <> SP.

Lemma read_line l rest rd :
  LF ∉ l -> (3 < length l)%nat -> (length (rdBuf rd) <= readerSize)%nat -> stream rd = l ++ CRLF ++ rest ->
  exists rd', ReadString readerSize rd = (l ++ CRLF, true, rd') /\ stream rd' = rest /\
    (length (rdBuf rd') <= readerSize)%nat /\ nth 3 (l ++ CRLF) NUL = nth 3 l NUL /\ (4 <= length (l ++ CRLF))%nat.
Proof.
  intros Hl Hn Hb Hs. assert (0 < readerSize)%nat as H0 by (unfold readerSize; lia).
  pose proof (ReadString_spec readerSize rd H0 Hb) as H. destruct (ReadString readerSize rd) as [[a ok] rd'].
  destruct H as [H Hb']. unfold string_of in H. rewrite Hs in H.
  replace (l ++ CRLF ++ rest) with ((l ++ [CR]) ++ LF :: rest) in H by (by rewrite <- app_assoc).
  rewrite index_byte_app in H by (rewrite elem_of_app, list_elem_of_singleton; by intros [|[=]]).
  replace (take (S (length (l ++ [CR]))) ((l ++ [CR]) ++ LF :: rest)) with (l ++ CRLF) in H.
  2: { change (LF :: rest) with ([LF] ++ rest). rewrite app_assoc. rewrite take_app_length'; [by rewrite <- app_assoc|]. rewrite !length_app. simpl. lia. }
  replace (drop (S (length (l ++ [CR]))) ((l ++ [CR]) ++ LF :: rest)) with rest in H.
  2: { change (LF :: rest) with ([LF] ++ rest). rewrite app_assoc. rewrite drop_app_length'; [done|]. rewrite !length_app. simpl. lia. }
  injection H as <- <- Hr. exists rd'. split_and!; try done.
  - by rewrite app_nth1 by lia.
  - rewrite length_app. lia.
Qed.

Lemma read_reply ms : forall fuel l rest rd,
  Forall middle_line ms -> final_line l -> (length ms < fuel)%nat -> (length (rdBuf rd) <= readerSize)%nat ->
  stream rd = on_wire ms ++ l ++ CRLF ++ rest ->
  exists rd', read_fuel fuel rd = (trim_space (l ++ CRLF), rd') /\ stream rd' = rest /\ (length (rdBuf rd') <= readerSize)%nat.
Proof.
  induction ms as [|m ms IH]; intros fuel l rest rd Hms Hl Hf Hb Hs; (destruct fuel as [|fuel]; [cbn in Hf; lia|]); cbn [read_fuel].
  - destruct Hl as (H1 & H2 & H3). destruct (read_line l rest rd H1 H2 Hb Hs) as (rd' & -> & Hs' & Hb' & Hn & Hlen).
    rewrite Hn, H3. rewrite (proj2 (Nat.leb_le _ _)) by done. by exists rd'.
  - apply Forall_cons in Hms as [(H1 & H2 & H3) Hms]. rewrite on_wire_cons, <- !app_assoc in Hs.
    destruct (read_line m _ rd H1 H2 Hb Hs) as (rd' & -> & Hs' & Hb' & Hn & Hlen).
    rewrite Hn. rewrite (proj2 (Ascii.eqb_neq _ _)) by done. rewrite andb_false_r. cbn [negb].
    cbn [length] in Hf. apply IH; [done..|lia|done|done].
Qed.

Lemma read_spec ms l rest sent rd :
  Forall middle_line ms -> final_line l -> (length (rdBuf rd) <= readerSize)%nat ->
  stream rd = on_wire ms ++ l ++ CRLF ++ rest ->
  exists rd', read (sent, rd) = (trim_space (l ++ CRLF), (sent, rd')) /\ stream rd' = rest /\ (length (rdBuf rd') <= readerSize)%nat.
Proof.
  intros Hms Hl Hb Hs. unfold read. cbn [fst snd].
  destruct (read_reply ms (S (length (stream rd))) l rest rd Hms Hl) as (rd' & -> & ? & ?); [|done|done|by exists rd'].
  rewrite Hs, !length_app. pose proof (length_on_wire ms). lia.
Qed.

(** ** The server of this program under the probe *)

Section Own.
Context {E : Type} (be : Smtp.Backend E) (ex : Smtp.Services E) (ip : str).
Abbreviation state := (Smtp.state E).

(** A state between two commands. *)
Definition at_rest (rest : str) (st : state) : Prop :=
  stream (cnReader (Smtp.xConn st)) = rest /\ (length (rdBuf (cnReader (Smtp.xConn st))) <= Smtp.bufSize)%nat /\
  cnWrites (Smtp.xConn st) = None.

(** One command of the probe: what the server answers and what becomes of its
    session; the settings change in their counters only. *)
Definition similar (s s' : Smtp.Settings) : Prop :=
  Smtp.stHostname s' = Smtp.stHostname s /\ Smtp.stMode s' = Smtp.stMode s /\ Smtp.stMaxSize s' = Smtp.stMaxSize s /\
  Smtp.stMaxRecipients s' = Smtp.stMaxRecipients s.

Lemma similar_refl s : similar s s.
Proof. done. Qed.
Lemma similar_trans s1 s2 s3 : similar s1 s2 -> similar s2 s3 -> similar s1 s3.
Proof. unfold similar. intuition congruence. Qed.

Definition answers (st : state) (lines : list str) (se : Smtp.session) (env : E) (r : bool * state) (quit : bool) : Prop :=
  let st' := r.2 in
  r.1 = quit /\ Smtp.xEnv st' = env /\ Smtp.xSess st' = se /\ cnOut (Smtp.xConn st') = cnOut (Smtp.xConn st) ++ lines /\
  cnReader (Smtp.xConn st') = cnReader (Smtp.xConn st) /\ cnWrites (Smtp.xConn st') = None /\
  similar (Smtp.xSet st) (Smtp.xSet st').

Lemma turn_line cmd rest st :
  plain_line cmd -> cmd <> [] -> Nat.leb (length cmd + 2) Smtp.maxLine = true -> at_rest (cmd ++ CRLF ++ rest) st ->
  exists rd, at_rest rest (Smtp.mkState (Smtp.xSess st) (with_reader rd (Smtp.xConn st)) (Smtp.xSet st) (Smtp.xEnv st)) /\
    Smtp.turn be ex ip st =
    (let '(c, arg, _) := cut SP cmd in Smtp.dispatch be ex ip c arg)
      (Smtp.mkState (Smtp.xSess st) (with_reader rd (Smtp.xConn st)) (Smtp.xSet st) (Smtp.xEnv st)).
Proof.
  intros Hp Hne Hlen (Hs & Hb & Hw). destruct (SmtpFlow.readLine_spec cmd rest st Hp Hb Hs) as (rd & Hr & Hbr & E1).
  rewrite Hlen in E1. exists rd. split; [by split_and!|]. unfold Smtp.turn, mbind, SM_bind. rewrite E1.
  destruct cmd; [done|]. by destruct (cut SP _) as [[c arg] ?].
Qed.

Lemma then_step {S A B} (m : SM S A) (f : A -> SM S B) st a st' : m st = (a, st') -> (m ≫= f) st = f a st'.
Proof. intros H. unfold mbind, SM_bind. by rewrite H. Qed.

(** The answers, one by one. *)
Lemma answer_ok {A} line (a : A) (st : state) : cnWrites (Smtp.xConn st) = None ->
  Smtp.answer line a st =
  (a, Smtp.mkState (Smtp.xSess st) (mkConn (cnReader (Smtp.xConn st)) (cnOut (Smtp.xConn st) ++ [line]) None)
        (Smtp.xSet st) (Smtp.xEnv st)).
Proof.
  intros Hw. unfold Smtp.answer, Smtp.reply, Smtp.on_conn, write_lines, mbind, SM_bind. by rewrite Hw.
Qed.

Lemma ehlo_answers set st : Smtp.xSet st = set -> cnWrites (Smtp.xConn st) = None ->
  answers st (Smtp.last_cap (Smtp.helo_caps be set (Smtp.sTls (Smtp.xSess st))))
    (Smtp.mkSession #"relay-test.invalid" (Smtp.sTls (Smtp.xSess st)) (Smtp.sAuthed (Smtp.xSess st)) [] false [])
    (Smtp.xEnv st) (Smtp.dispatch be ex ip #"EHLO" #"relay-test.invalid" st) false.
Proof.
  intros <- Hw. destruct st as [se [rd out wr] set env]. cbn in Hw. subst wr.
  change (Smtp.dispatch be ex ip #"EHLO" #"relay-test.invalid") with (Smtp.cmdHelo be #"relay-test.invalid" true).
  unfold answers. split_and!; reflexivity || apply similar_refl.
Qed.

Lemma mail_answers st :
  Smtp.sHelo (Smtp.xSess st) = #"relay-test.invalid" -> Smtp.sFromSet (Smtp.xSess st) = false ->
  Smtp.stMode (Smtp.xSet st) = Smtp.ModeInbound -> 0 <= Smtp.stMaxSize (Smtp.xSet st) -> cnWrites (Smtp.xConn st) = None ->
  answers st [ #"250 2.1.0 OK"]
    (Smtp.mkSession #"relay-test.invalid" (Smtp.sTls (Smtp.xSess st)) (Smtp.sAuthed (Smtp.xSess st))
       #"probe@relay-test.invalid" true (Smtp.sRcpts (Smtp.xSess st)))
    (Smtp.xEnv st) (Smtp.dispatch be ex ip #"MAIL" #"FROM:<probe@relay-test.invalid>" st) false.
Proof.
  intros Hh Hf Hm Hs Hw. destruct st as [[helo tls authed from fset rcpts] [rd out wr] set env]. cbn in Hh, Hf, Hm, Hs, Hw.
  destruct set. cbn in Hm, Hs. subst. apply Z.ltb_ge in Hs.
  unfold answers. cbv -[Z.ltb dec]. rewrite Hs. by split_and!.
Qed.

(** The anti-relay check comes before every limit. *)
Lemma rcpt_answers st :
  Smtp.sFromSet (Smtp.xSess st) = true -> Smtp.sRcpts (Smtp.xSess st) = [] ->
  Smtp.stMode (Smtp.xSet st) = Smtp.ModeInbound -> 0 < Smtp.stMaxRecipients (Smtp.xSet st) ->
  (Smtp.IsLocalDomain be #"relay-test-external.invalid" (Smtp.xEnv st)).1 = false -> cnWrites (Smtp.xConn st) = None ->
  answers st [ #"554 5.7.1 relay access denied"] (Smtp.xSess st) (Smtp.IsLocalDomain be #"relay-test-external.invalid" (Smtp.xEnv st)).2
    (Smtp.dispatch be ex ip #"RCPT" #"TO:<victim@relay-test-external.invalid>" st) false.
Proof.
  intros Hf Hr Hm Hx Hl Hw. destruct st as [se [rd out wr] set env]. cbn in Hf, Hr, Hm, Hx, Hw. subst wr.
  cbn [Smtp.xEnv] in Hl |- *. set (st := Smtp.mkState se (mkConn rd out None) set env).
  destruct (Smtp.IsLocalDomain be #"relay-test-external.invalid" env) as [local env'] eqn:El. cbn [fst snd] in *. subst local.
  set (set' := Smtp.upd_stats set (Stats.IncRelayDeny (Smtp.stStats set))).
  set (st1 := Smtp.mkState se (mkConn rd out None) set env').
  set (st2 := Smtp.mkState se (mkConn rd out None) set' env').
  set (st3 := Smtp.mkState se (mkConn rd (out ++ [ #"554 5.7.1 relay access denied"]) None) set' env').
  assert (Smtp.rcpt_refused ex ip false st1 = (Some #"554 5.7.1 relay access denied", st2)) as Href.
  { unfold Smtp.rcpt_refused. rewrite (then_step Smtp.settings _ st1 set st1 eq_refl), (then_step Smtp.sess _ st1 se st1 eq_refl), Hm. reflexivity. }
  assert (Smtp.cmdRcpt be ex ip #"TO:<victim@relay-test-external.invalid>" st = (tt, st3)) as Hc.
  { unfold Smtp.cmdRcpt. rewrite (then_step Smtp.sess _ st se st eq_refl), Hf. cbn [negb].
    rewrite (then_step Smtp.settings _ st set st eq_refl), Hr. cbn [length]. rewrite (proj2 (Z.leb_gt _ _)) by done.
    change (Smtp.parsePath #"TO:<victim@relay-test-external.invalid>" #"TO:")
      with (@Ok str (str * list str) (#"victim@relay-test-external.invalid", [])). cbv beta iota.
    rewrite (then_step (Smtp.rcpt_address be #"victim@relay-test-external.invalid") _ st #"victim@relay-test-external.invalid" st eq_refl).
    change (Smtp.splitAddr #"victim@relay-test-external.invalid") with (#"victim", #"relay-test-external.invalid", true).
    cbv beta iota. cbn [negb].
    rewrite (then_step (Smtp.on_env (Smtp.IsLocalDomain be #"relay-test-external.invalid")) _ st false st1).
    2: { unfold Smtp.on_env. cbn [st Smtp.xEnv]. by rewrite El. }
    rewrite (then_step _ _ st1 _ st2 Href). reflexivity. }
  change (Smtp.dispatch be ex ip #"RCPT" #"TO:<victim@relay-test-external.invalid>")
    with (Smtp.going_on (Smtp.cmdRcpt be ex ip #"TO:<victim@relay-test-external.invalid>")).
  unfold Smtp.going_on. rewrite (then_step _ _ st tt st3 Hc). by split_and!.
Qed.

Lemma auth_answers st : Smtp.stMode (Smtp.xSet st) = Smtp.ModeInbound -> cnWrites (Smtp.xConn st) = None ->
  answers st [ #"503 5.5.1 authentication not available on this port"] (Smtp.xSess st) (Smtp.xEnv st)
    (Smtp.dispatch be ex ip #"AUTH" #"LOGIN eA==" st) false.
Proof.
  intros Hm Hw. destruct st as [se [rd out wr] set env]. cbn in Hm, Hw. destruct set. cbn in Hm. subst.
  unfold answers. by split_and!.
Qed.

Lemma disabled_answers cmd arg st : cmd = #"VRFY" \/ cmd = #"EXPN" -> cnWrites (Smtp.xConn st) = None ->
  answers st [ #"502 5.5.1 command disabled"] (Smtp.xSess st) (Smtp.xEnv st) (Smtp.dispatch be ex ip cmd arg st) false.
Proof.
  intros Hc Hw. destruct st as [se [rd out wr] set env]. cbn in Hw. subst.
  destruct Hc as [-> | ->]; unfold answers; split_and!; reflexivity || apply similar_refl.
Qed.

Lemma quit_answers st : cnWrites (Smtp.xConn st) = None ->
  answers st [ #"221 2.0.0 " ++ Smtp.stHostname (Smtp.xSet st) ++ #" closing connection"] (Smtp.xSess st) (Smtp.xEnv st)
    (Smtp.dispatch be ex ip #"QUIT" [] st) true.
Proof.
  intros Hw. destruct st as [se [rd out wr] set env]. cbn in Hw. subst.
  unfold answers; split_and!; reflexivity || apply similar_refl.
Qed.
Lemma turn_answers cmd rest st lines se env quit c arg b :
  plain_line cmd -> cmd <> [] -> Nat.leb (length cmd + 2) Smtp.maxLine = true -> cut SP cmd = (c, arg, b) ->
  at_rest (cmd ++ CRLF ++ rest) st ->
  (forall st1, Smtp.xSess st1 = Smtp.xSess st -> Smtp.xSet st1 = Smtp.xSet st -> Smtp.xEnv st1 = Smtp.xEnv st ->
   cnWrites (Smtp.xConn st1) = None -> answers st1 lines se env (Smtp.dispatch be ex ip c arg st1) quit) ->
  exists st', Smtp.turn be ex ip st = (quit, st') /\ at_rest rest st' /\ Smtp.xSess st' = se /\ Smtp.xEnv st' = env /\
    cnOut (Smtp.xConn st') = cnOut (Smtp.xConn st) ++ lines /\ similar (Smtp.xSet st) (Smtp.xSet st').
Proof.
  intros Hp Hne Hlen Hcut Hr Ha. destruct (turn_line cmd rest st Hp Hne Hlen Hr) as (rd & Hr' & ->).
  rewrite Hcut. set (st1 := Smtp.mkState _ _ _ _) in *.
  destruct (Ha st1) as (H1 & He & H2 & H3 & H4 & H5 & H6); [done|done|done|apply Hr'|].
  destruct (Smtp.dispatch be ex ip c arg st1) as [q st']. cbn [fst snd] in *. exists st'.
  split; [by rewrite H1|]. split; [|done]. unfold at_rest. rewrite H4, H5. split_and!; [apply Hr'|apply Hr'|done].
Qed.

Lemma run_loop_step fuel st quit st' : Smtp.turn be ex ip st = (quit, st') ->
  Smtp.run_loop be ex ip (S fuel) st = if quit then (true, st') else Smtp.run_loop be ex ip fuel st'.
Proof. intros H. cbn [Smtp.run_loop]. rewrite (then_step _ _ _ _ _ H). by destruct quit. Qed.

(** What the server says to the probe. *)
Definition greeting (set : Smtp.Settings) : str := #"220 " ++ Smtp.stHostname set ++ #" ESMTP Verta".
Definition farewell (set : Smtp.Settings) : str := #"221 2.0.0 " ++ Smtp.stHostname set ++ #" closing connection".
Definition said (set : Smtp.Settings) : list str :=
  [greeting set] ++ Smtp.last_cap (Smtp.helo_caps be set (Smtp.stImplicitTLS set)) ++
  [ #"250 2.1.0 OK"; #"554 5.7.1 relay access denied"; #"503 5.5.1 authentication not available on this port";
    #"502 5.5.1 command disabled"; #"502 5.5.1 command disabled"; farewell set].

Definition script : list str := [EHLO_cmd; MAIL_cmd; RCPT_cmd; AUTH_cmd; VRFY_cmd; EXPN_cmd; #"QUIT"].

Lemma script_plain : Forall (fun c => plain_line c /\ c <> [] /\ Nat.leb (length c + 2) Smtp.maxLine = true) script.
Proof.
  assert (forall c, forallb (fun a => negb (Ascii.eqb a CR) && negb (Ascii.eqb a LF)) c = true -> plain_line c) as H.
  { intros c Hc. rewrite forallb_forall in Hc.
    split; intros Hin%list_elem_of_In%Hc; by vm_compute in Hin. }
  repeat apply Forall_cons_2; [..|apply Forall_nil_2]; (split_and!; [by apply H; vm_compute|done|by vm_compute]).
Qed.

Lemma server_under_probe set env segs :
  Smtp.stMode set = Smtp.ModeInbound -> 0 <= Smtp.stMaxSize set -> 0 < Smtp.stMaxRecipients set ->
  (Smtp.IsLocalDomain be #"relay-test-external.invalid" env).1 = false ->
  concat segs = on_wire script ->
  let st0 := Smtp.mkState (Smtp.newSession set) (mkConn (mkReader [] segs) [] None) set env in
  let r := Smtp.run be ex ip (length script) st0 in
  r.1 = true /\ cnOut (Smtp.xConn r.2) = said set.
Proof.
  intros Hm Hs Hx Hl Hsegs st0.
  set (st1 := Smtp.mkState (Smtp.newSession set) (mkConn (mkReader [] segs) [greeting set] None) set env).
  assert (Smtp.run be ex ip (length script) st0 = Smtp.run_loop be ex ip (length script) st1) as -> by reflexivity.
  assert (at_rest (on_wire script) st1) as H1 by (split_and!; [done|cbn; lia|done]).
  pose proof script_plain as HP. unfold script in HP. rewrite !Forall_cons in HP.
  destruct HP as ((P1 & N1 & L1) & (P2 & N2 & L2) & (P3 & N3 & L3) & (P4 & N4 & L4) & (P5 & N5 & L5) & (P6 & N6 & L6) & (P7 & N7 & L7) & _).
  unfold script in H1. rewrite on_wire_cons in H1.
  set (env2 := (Smtp.IsLocalDomain be #"relay-test-external.invalid" env).2).
  set (se1 := Smtp.mkSession #"relay-test.invalid" (Smtp.stImplicitTLS set) [] [] false []).
  set (se2 := Smtp.mkSession #"relay-test.invalid" (Smtp.stImplicitTLS set) [] #"probe@relay-test.invalid" true []).
  destruct (turn_answers EHLO_cmd _ st1 (Smtp.last_cap (Smtp.helo_caps be set (Smtp.stImplicitTLS set))) se1 env false _ _ _
    P1 N1 L1 eq_refl H1) as (st2 & T1 & H2 & S2 & V2 & O2 & M2).
  { intros st Hse Hset Henv Hw. pose proof (ehlo_answers set st Hset Hw) as H. by rewrite Hse, Henv in H. }
  rewrite on_wire_cons in H2.
  destruct (turn_answers MAIL_cmd _ st2 [ #"250 2.1.0 OK"] se2 env false _ _ _ P2 N2 L2 eq_refl H2) as (st3 & T2 & H3 & S3 & V3 & O3 & M3).
  { destruct M2 as (_ & Mm & Ms & _). intros st Hse Hset Henv Hw. rewrite S2 in Hse.
    pose proof (mail_answers st) as H. rewrite Hse, Hset, Mm, Ms, Henv, V2 in H. by apply H. }
  pose proof (similar_trans _ _ _ M2 M3) as M3'. rewrite on_wire_cons in H3.
  destruct (turn_answers RCPT_cmd _ st3 [ #"554 5.7.1 relay access denied"] se2 env2 false _ _ _ P3 N3 L3 eq_refl H3)
    as (st4 & T3 & H4 & S4 & V4 & O4 & M4).
  { destruct M3' as (_ & Mm & _ & Mx). intros st Hse Hset Henv Hw. rewrite S3 in Hse.
    pose proof (rcpt_answers st) as H. rewrite Hse, Hset, Mm, Mx, Henv, V3 in H. by apply H. }
  pose proof (similar_trans _ _ _ M3' M4) as M4'. rewrite on_wire_cons in H4.
  destruct (turn_answers AUTH_cmd _ st4 [ #"503 5.5.1 authentication not available on this port"] se2 env2 false _ _ _ P4 N4 L4 eq_refl H4)
    as (st5 & T4 & H5 & S5 & V5 & O5 & M5).
  { destruct M4' as (_ & Mm & _). intros st Hse Hset Henv Hw. rewrite S4 in Hse.
    pose proof (auth_answers st) as H. rewrite Hse, Hset, Mm, Henv, V4 in H. by apply H. }
  pose proof (similar_trans _ _ _ M4' M5) as M5'. rewrite on_wire_cons in H5.
  destruct (turn_answers VRFY_cmd _ st5 [ #"502 5.5.1 command disabled"] se2 env2 false _ _ _ P5 N5 L5 eq_refl H5) as (st6 & T5 & H6 & S6 & V6 & O6 & M6).
  { intros st Hse _ Henv Hw. rewrite S5 in Hse. rewrite <- Hse, <- V5, <- Henv. apply disabled_answers; [by left|done]. }
  pose proof (similar_trans _ _ _ M5' M6) as M6'. rewrite on_wire_cons in H6.
  destruct (turn_answers EXPN_cmd _ st6 [ #"502 5.5.1 command disabled"] se2 env2 false _ _ _ P6 N6 L6 eq_refl H6) as (st7 & T6 & H7 & S7 & V7 & O7 & M7).
  { intros st Hse _ Henv Hw. rewrite S6 in Hse. rewrite <- Hse, <- V6, <- Henv. apply disabled_answers; [by right|done]. }
  pose proof (similar_trans _ _ _ M6' M7) as M7'. rewrite on_wire_cons in H7.
  destruct (turn_answers #"QUIT" _ st7 [farewell set] se2 env2 true _ _ _ P7 N7 L7 eq_refl H7) as (st8 & T7 & _ & _ & _ & O8 & _).
  { destruct M7' as (Mh & _). intros st Hse Hset Henv Hw. rewrite S7 in Hse. pose proof (quit_answers st Hw) as H.
    by rewrite Hse, Hset, Mh, Henv, V7 in H. }
  unfold script. cbn [length]. rewrite (run_loop_step _ _ _ _ T1), (run_loop_step _ _ _ _ T2), (run_loop_step _ _ _ _ T3),
    (run_loop_step _ _ _ _ T4), (run_loop_step _ _ _ _ T5), (run_loop_step _ _ _ _ T6), (run_loop_step _ _ _ _ T7).
  split; [done|]. cbn [snd]. rewrite O8, O7, O6, O5, O4, O3, O2. unfold said. cbn [st1 Smtp.xConn cnOut]. by rewrite <- !app_assoc.
Qed.
(** ** The probe on the server's answers *)

(** What an exchange sends, whatever is answered. *)
Definition sends {A} (cmds : list str) (m : SM probe A) : Prop := forall p, (m p).2.1 = p.1 ++ cmds.
Lemma sends_ret {A} (a : A) : sends [] (mret a).
Proof. intros p. by rewrite app_nil_r. Qed.
Lemma sends_read : sends [] read.
Proof. intros p. unfold read. destruct (read_fuel _ _). by rewrite app_nil_r. Qed.
Lemma sends_send {B} cmd cmds (f : str -> SM probe B) : (forall r, sends cmds (f r)) -> sends (cmd :: cmds) (send cmd ≫= f).
Proof.
  intros Hf p. unfold send, mbind, SM_bind. pose proof (sends_read (p.1 ++ [cmd], p.2)) as H.
  destruct (read _) as [r q]. rewrite (Hf r q). cbn [fst snd] in H. rewrite H, app_nil_r. by rewrite <- app_assoc.
Qed.

Lemma exchange_sends hostname p : (read p).1 <> [] -> (exchange hostname p).2.1 = p.1 ++ script.
Proof.
  intros Hb. pose proof (sends_read p) as H. unfold exchange. unfold mbind at 1, SM_bind at 1. destruct (read p) as [banner q].
  cbn [fst snd] in Hb, H. rewrite (proj2 (str_eqb_neq _ _) Hb). rewrite app_nil_r in H. rewrite <- H. revert q H. clear.
  intros q _. revert q. change (sends script (
    _ ← send EHLO_cmd; _ ← send MAIL_cmd; reply ← send RCPT_cmd; auth ← send AUTH_cmd; vrfy ← send VRFY_cmd;
    expn ← send EXPN_cmd; _ ← send #"QUIT";
    mret (banner_finding hostname banner ++ relay_finding reply ++ auth_finding auth
          ++ disabled_finding VRFY_cmd vrfy ++ disabled_finding EXPN_cmd expn))).
  unfold script. repeat (apply sends_send; intros ?). apply sends_ret.
Qed.

Lemma has_prefix_contains pat a b : contains pat (a ++ pat ++ b) = true.
Proof.
  unfold contains. assert (is_Some (index pat (a ++ pat ++ b))) as [i ->]; [|done].
  induction a as [|x a IH]; cbn [app].
  - destruct (pat ++ b) eqn:Ep; cbn [index]; rewrite <- Ep, has_prefix_app; by eexists.
  - cbn [index]. destruct (has_prefix _ _); [by eexists|]. destruct IH as [i ->]. by eexists.
Qed.

(** Replies as the probe reads them, without white space at the ends. *)
Lemma trim_wire l : (forall x, head l = Some x -> is_space x = false) -> (forall x, last l = Some x -> is_space x = false) ->
  l <> [] -> trim_space (l ++ CRLF) = l.
Proof.
  intros Hh Hl Hne. unfold trim_space. rewrite drop_while_id.
  - unfold drop_while_end. rewrite rev_app_distr. change (rev CRLF) with [LF; CR]. cbn [app drop_while is_space].
    change (is_space LF) with true. change (is_space CR) with true. cbv iota. fold (drop_while_end is_space l). by apply drop_while_end_id.
  - destruct l; [done|]. apply Hh.
Qed.

(** Lines without LF, decided. *)
Definition line_b (c : ascii -> bool) (l : str) : bool :=
  forallb (fun a => negb (Ascii.eqb a LF)) l && Nat.ltb 3 (length l) && c (nth 3 l NUL).
Lemma line_b_ok c l : line_b c l = true -> LF ∉ l /\ (3 < length l)%nat /\ c (nth 3 l NUL) = true.
Proof.
  unfold line_b. intros [[H1 H2%Nat.ltb_lt]%andb_true_iff H3]%andb_true_iff. split_and!; [|done|done].
  intros Hin%list_elem_of_In. rewrite forallb_forall in H1. by apply H1 in Hin.
Qed.
Lemma final_ok l : line_b (fun c => Ascii.eqb c SP) l = true -> final_line l.
Proof. intros (H1 & H2 & H3%Ascii.eqb_eq)%line_b_ok. done. Qed.
Lemma middle_ok l t : line_b (fun c => negb (Ascii.eqb c SP)) l = true -> LF ∉ t -> middle_line (l ++ t).
Proof.
  intros (H1 & H2 & H3%negb_true_iff%Ascii.eqb_neq)%line_b_ok Ht.
  split_and!; [set_solver|rewrite length_app; lia|by rewrite app_nth1 by lia].
Qed.
Lemma final_app l t : line_b (fun c => Ascii.eqb c SP) l = true -> LF ∉ t -> final_line (l ++ t).
Proof.
  intros (H1 & H2 & H3%Ascii.eqb_eq)%line_b_ok Ht.
  split_and!; [set_solver|rewrite length_app; lia|by rewrite app_nth1 by lia].
Qed.

Lemma caps_on_wire set : LF ∉ Smtp.stHostname set -> 0 <= Smtp.stMaxSize set -> Smtp.stMode set = Smtp.ModeInbound ->
  exists ms l, Smtp.last_cap (Smtp.helo_caps be set (Smtp.stImplicitTLS set)) = ms ++ [l] /\ Forall middle_line ms /\ final_line l.
Proof.
  intros Hh Hs Hm. assert (LF ∉ dec (Smtp.stMaxSize set)) as Hd by (by apply not_in_digits, dec_digits).
  unfold Smtp.last_cap, Smtp.helo_caps. rewrite Hm. cbn [Smtp.is_submission andb].
  assert (LF ∉ @nil ascii) as Hnil by apply not_elem_of_nil.
  assert (Forall middle_line [ #"250-" ++ Smtp.stHostname set; #"250-PIPELINING"; #"250-SIZE " ++ dec (Smtp.stMaxSize set); #"250-8BITMIME"]) as HF.
  { repeat apply Forall_cons_2; [| | | |apply Forall_nil_2].
    - by apply (middle_ok #"250-").
    - by apply (middle_ok #"250-PIPELINING" []).
    - by apply (middle_ok #"250-SIZE ").
    - by apply (middle_ok #"250-8BITMIME" []). }
  destruct (Smtp.stTLS set && negb (Smtp.stImplicitTLS set)).
  - exists ([ #"250-" ++ Smtp.stHostname set; #"250-PIPELINING"; #"250-SIZE " ++ dec (Smtp.stMaxSize set); #"250-8BITMIME"] ++ [ #"250-SMTPUTF8"]), #"250 STARTTLS".
    split_and!; [reflexivity| |by apply final_ok]. apply Forall_app. split; [done|]. apply Forall_singleton. by apply (middle_ok #"250-SMTPUTF8" []).
  - exists [ #"250-" ++ Smtp.stHostname set; #"250-PIPELINING"; #"250-SIZE " ++ dec (Smtp.stMaxSize set); #"250-8BITMIME"], #"250 SMTPUTF8".
    split_and!; [reflexivity|done|by apply final_ok].
Qed.

Lemma send_spec cmd ms l rest sent rd :
  Forall middle_line ms -> final_line l -> (length (rdBuf rd) <= readerSize)%nat ->
  stream rd = on_wire ms ++ l ++ CRLF ++ rest ->
  exists rd', send cmd (sent, rd) = (trim_space (l ++ CRLF), (sent ++ [cmd], rd')) /\ stream rd' = rest /\
    (length (rdBuf rd') <= readerSize)%nat.
Proof. intros. by apply (read_spec ms l rest (sent ++ [cmd])). Qed.

Lemma send_one cmd l rest sent rd :
  final_line l -> (length (rdBuf rd) <= readerSize)%nat -> stream rd = l ++ CRLF ++ rest ->
  exists rd', send cmd (sent, rd) = (trim_space (l ++ CRLF), (sent ++ [cmd], rd')) /\ stream rd' = rest /\
    (length (rdBuf rd') <= readerSize)%nat.
Proof. intros Hl Hb Hs. by apply (send_spec cmd [] l rest sent rd (Forall_nil_2 _)). Qed.

(** What the probe reports of the answers in [said]. *)
Definition all_well (set : Smtp.Settings) : Report :=
  pass relay_section #"banner" (greeting set)
  ++ pass relay_section #"external relay refused" #"554 5.7.1 relay access denied"
  ++ pass relay_section #"AUTH on port 25" #"refused: 503 5.5.1 authentication not available on this port"
  ++ pass relay_section #"VRFY disabled" #"502 5.5.1 command disabled"
  ++ pass relay_section #"EXPN disabled" #"502 5.5.1 command disabled".

Lemma probe_of_said set segs :
  Smtp.stMode set = Smtp.ModeInbound -> 0 <= Smtp.stMaxSize set -> LF ∉ Smtp.stHostname set ->
  concat segs = on_wire (said set) ->
  (exchange (Smtp.stHostname set) ([], mkReader [] segs)).1 = all_well set.
Proof.
  intros Hm Hs Hh Hsegs. destruct (caps_on_wire set Hh Hs Hm) as (ms & l & Hcaps & Hms & Hl).
  unfold said in Hsegs. rewrite Hcaps, <- !app_assoc in Hsegs. cbn [app] in Hsegs. rewrite on_wire_cons, on_wire_app, !on_wire_cons in Hsegs.
  assert (stream (mkReader [] segs) = concat segs) as H0 by done. rewrite Hsegs in H0.
  assert (LF ∉ Smtp.stHostname set ++ #" ESMTP Verta") as Hg.
  { apply not_elem_of_app. split; [done|]. by apply (line_b_ok (fun _ => true)). }
  assert (LF ∉ Smtp.stHostname set ++ #" closing connection") as Hf.
  { apply not_elem_of_app. split; [done|]. by apply (line_b_ok (fun _ => true)). }
  assert (trim_space (greeting set ++ CRLF) = greeting set) as Tg.
  { apply trim_wire; [|..|done]; intros x Hx.
    - change (Some "2"%char = Some x) in Hx. by injection Hx as <-.
    - unfold greeting in Hx. rewrite app_assoc, last_app in Hx. change (Some "a"%char = Some x) in Hx. by injection Hx as <-. }
  unfold exchange.
  destruct (read_spec [] (greeting set) _ [] (mkReader [] segs) (Forall_nil_2 _) ltac:(by apply (final_app #"220 ")) ltac:(cbn; lia) H0)
    as (rd0 & E0 & S0 & B0).
  rewrite (then_step _ _ _ _ _ E0), Tg. rewrite (proj2 (str_eqb_neq (greeting set) [])) by done.
  destruct (send_spec EHLO_cmd ms l _ [] rd0 Hms Hl B0 S0) as (rd1 & E1 & S1 & B1).
  destruct (send_one MAIL_cmd _ _ [EHLO_cmd] _ (final_ok #"250 2.1.0 OK" eq_refl) B1 S1) as (rd2 & E2 & S2 & B2).
  destruct (send_one RCPT_cmd _ _ [EHLO_cmd; MAIL_cmd] _ (final_ok #"554 5.7.1 relay access denied" eq_refl) B2 S2) as (rd3 & E3 & S3 & B3).
  destruct (send_one AUTH_cmd _ _ [EHLO_cmd; MAIL_cmd; RCPT_cmd] _ (final_ok #"503 5.5.1 authentication not available on this port" eq_refl) B3 S3) as (rd4 & E4 & S4 & B4).
  destruct (send_one VRFY_cmd _ _ [EHLO_cmd; MAIL_cmd; RCPT_cmd; AUTH_cmd] _ (final_ok #"502 5.5.1 command disabled" eq_refl) B4 S4) as (rd5 & E5 & S5 & B5).
  destruct (send_one EXPN_cmd _ _ [EHLO_cmd; MAIL_cmd; RCPT_cmd; AUTH_cmd; VRFY_cmd] _ (final_ok #"502 5.5.1 command disabled" eq_refl) B5 S5) as (rd6 & E6 & S6 & B6).
  destruct (send_one #"QUIT" (farewell set) _ [EHLO_cmd; MAIL_cmd; RCPT_cmd; AUTH_cmd; VRFY_cmd; EXPN_cmd] _ ltac:(by apply (final_app #"221 2.0.0 ")) B6 S6) as (rd7 & E7 & _).
  rewrite (then_step _ _ _ _ _ E1), (then_step _ _ _ _ _ E2), (then_step _ _ _ _ _ E3), (then_step _ _ _ _ _ E4),
    (then_step _ _ _ _ _ E5), (then_step _ _ _ _ _ E6), (then_step _ _ _ _ _ E7).
  cbn [mret SM_ret fst]. unfold banner_finding, greeting. rewrite (has_prefix_contains (Smtp.stHostname set)). reflexivity.
Qed.

(** C12. The server of this program passes its own probe: on an inbound listener
    whose back end does not serve the probe's foreign domain the session runs
    to its end, and from what it said, however its bytes are cut on the way,
    the probe sends exactly its script and reports nothing but passes. *)
Theorem own_server_passes set env segs segs' :
  Smtp.stMode set = Smtp.ModeInbound -> 0 <= Smtp.stMaxSize set -> 0 < Smtp.stMaxRecipients set ->
  LF ∉ Smtp.stHostname set ->
  (Smtp.IsLocalDomain be #"relay-test-external.invalid" env).1 = false ->
  concat segs = on_wire script ->
  let r := Smtp.run be ex ip (length script) (Smtp.mkState (Smtp.newSession set) (mkConn (mkReader [] segs) [] None) set env) in
  concat segs' = on_wire (cnOut (Smtp.xConn r.2)) ->
  let probed := exchange (Smtp.stHostname set) ([], mkReader [] segs') in
  r.1 = true /\ probed.2.1 = script /\ Forall (fun x => rtStatus x = Pass) probed.1 /\ length probed.1 = 5%nat.
Proof.
  intros Hm Hs Hx Hh Hl Hsegs r Hsegs' probed.
  destruct (server_under_probe set env segs Hm Hs Hx Hl Hsegs) as [Hr Ho]. fold r in Hr, Ho. rewrite Ho in Hsegs'.
  pose proof (probe_of_said set segs' Hm Hs Hh Hsegs') as Hp. fold probed in Hp. rewrite Hp. split_and!.
  - done.
  - unfold probed. rewrite exchange_sends; [done|]. intros E0. revert Hp. unfold probed, exchange, mbind, SM_bind.
    destruct (read _) as [banner q]. cbn [fst] in E0. subst banner. done.
  - by repeat constructor.
  - done.
Qed.
End Own.

(** ** Examples *)

(** A server that is up but refuses with a temporary error counts as an open
    relay: every reply that is not 550, 551, 553 or 554 does. *)
Example temporary_refusal_is_open_relay :
  (exchange #"h.b.c" ([], mkReader [] [on_wire [ #"220 h.b.c"; #"250 h.b.c"; #"250 OK"; #"450 try again later";
     #"503 no"; #"502 no"; #"502 no"; #"221 bye"]])).1
  = pass relay_section #"banner" #"220 h.b.c"
    ++ fail relay_section #"OPEN RELAY" #"the server accepted a foreign recipient without authentication: 450 try again later"
         #"this server can be used to send spam; stop it and report the issue"
    ++ pass relay_section #"AUTH on port 25" #"refused: 503 no"
    ++ pass relay_section #"VRFY disabled" #"502 no" ++ pass relay_section #"EXPN disabled" #"502 no".
Proof. vm_compute. reflexivity. Qed.

(** The probe against the daemon's own back end; its commands arrive in two
    segments. *)
#[local] Existing Instance QueueProps.toy_codec.
Definition example_settings : Smtp.Settings :=
  Smtp.mkSettings #"mail.b.c" 1000 10 Smtp.ModeInbound false true None None None
    (Container.mkIdentity false #"mail.b.c" [] []) None.
Definition example_input : list str := [take 30 (on_wire script); drop 30 (on_wire script)].
Abbreviation example_backend := (Daemon.backend DaemonProps.example_libs DaemonProps.example_policies None [ #"q"]).
Abbreviation example_services := DaemonProps.example_services.
Abbreviation example_daemon := DaemonProps.example_daemon.

Lemma example_serves_not : (Smtp.IsLocalDomain example_backend #"relay-test-external.invalid" example_daemon).1 = false.
Proof. reflexivity. Qed.
Lemma example_hostname : LF ∉ Smtp.stHostname example_settings.
Proof. apply (bool_decide_unpack _). vm_compute. exact I. Qed.
Lemma example_heard : concat example_input = on_wire script.
Proof. unfold example_input. cbn [concat]. rewrite app_nil_r. apply take_drop. Qed.

Lemma own_server_passes_witness :
  let r := Smtp.run example_backend example_services #"192.0.2.1" (length script)
    (Smtp.mkState (Smtp.newSession example_settings) (mkConn (mkReader [] example_input) [] None) example_settings example_daemon) in
  let probed := exchange (Smtp.stHostname example_settings)
    ([], mkReader [] (map (fun l => l ++ CRLF) (cnOut (Smtp.xConn r.2)))) in
  r.1 = true /\ probed.2.1 = script /\ Forall (fun x => rtStatus x = Pass) probed.1 /\ length probed.1 = 5%nat.
Proof.
  exact (own_server_passes example_backend example_services #"192.0.2.1" example_settings example_daemon example_input _
    eq_refl ltac:(by vm_compute) eq_refl example_hostname example_serves_not example_heard eq_refl).
Defined.
