(* ===== verification/SecurityCheck.v ===== *)
(** * The security check (internal/checks/security.go)

    What [verta --security-check] finds about certificates, DNS records,
    reverse DNS and blacklists; the relay probe is in [Probe].  The resolver
    answers from functions: [None] is an error. *)

From S2P Require Import Prelude GoStrings GoOS GoTime Base64 Checks Config Settings ConfigLoad Probe.
From S2P Require CertStore Dkim Blacklist ConfigAudit.

#[global] Open Scope Z_scope.

(** [net.DefaultResolver]. *)
Record Resolver := mkResolver {
  LookupMX : str -> option (list str);
  LookupTXT : str -> option (list str);
  LookupHost : str -> option (list str);
  LookupAddr : str -> option (list str) }.

(** ** Certificates *)

Definition tls_params (c : Root) : CertStore.Params :=
  CertStore.mkParams (tlCertRoot (cfTLS c)) (svHostname (cfServer c)) (ConfigAudit.domain_names c) (tlMinVersion (cfTLS c))
    (tlExpiryWarnDays (cfTLS c)).

(** A warning of the store as text, with the date in UTC. *)
Definition date_only (t : Z) : str :=
  let d := date_of 0 t in pad 4 (cYear d) ++ #"-" ++ pad 2 (cMonth d) ++ #"-" ++ pad 2 (cDay d).
Definition warning_text (w : CertStore.warning) : str :=
  match w with
  | CertStore.LoadFailed d e => #"domain " ++ d ++ #": " ++ e
  | CertStore.Expired d t => #"domain " ++ d ++ #": certificate EXPIRED on " ++ date_only t
  | CertStore.Expiring d days t =>
      #"domain " ++ d ++ #": certificate expires in " ++ dec days ++ #" days (" ++ date_only t ++ #")"
  end.

Definition warning_finding (w : str) : Report :=
  let s := #"TLS" in
  if contains #"EXPIRED" w then fail s #"certificate validity" w #"renew the certificate now"
  else if contains #"expires in" w then warn s #"certificate expiry" w #"check that automatic renewal is working"
  else warn s #"certificate" w [].

Section TLS.
Context {Certificate : Type} (load_pair : str -> str -> result str (CertStore.entry Certificate)).

Definition checkTLSCertificates (c : Root) (now : Z) : Report :=
  let s := #"TLS" in
  let root := tlCertRoot (cfTLS c) in
  let '(store, warns) := CertStore.New load_pair (tls_params c) now in
  let loaded := CertStore.Loaded store in
  match loaded with
  | [] => fail s #"certificates" #"no certificate loaded: submission, IMAP, POP3 and the API will not start"
            (#"obtain a wildcard certificate into " ++ root ++ #"/<domain>/")
  | _ => pass s #"certificates" (ConfigAudit.num loaded ++ #" loaded: " ++ join #", " loaded)
  end
  ++ mjoin (map (fun w => warning_finding (warning_text w)) warns)
  ++ mjoin (map (fun d =>
       if existsb (fun l => l =s d) loaded then []
       else warn s (#"certificate for " ++ d) #"no certificate loaded for this domain"
              (#"issue a wildcard certificate for " ++ d ++ #" into " ++ root ++ #"/" ++ d ++ #"/"))
     (sortedDomains (ConfigAudit.domain_names c))).
End TLS.

(** ** DNS records *)

Section DNS.
Context (net : Resolver).

Definition quoted (s : str) : str := DQ :: s ++ [DQ].

Definition check_mx (hostname domain : str) : Report :=
  let s := #"DNS" in
  let record := domain ++ #". IN MX 10 " ++ hostname ++ #"." in
  match LookupMX net domain with
  | None | Some [] =>
      fail s (domain ++ #" MX") #"no MX record found: this domain receives no mail" (#"publish: " ++ record)
  | Some mxs =>
      if match mxs with [h] => (h =s #".") || (h =s []) | _ => false end then
        fail s (domain ++ #" MX") #"a null MX (RFC 7505) is published: the domain declares it accepts no mail"
          (#"replace it with: " ++ record)
      else
        let hosts := List.filter (fun h => negb (h =s [])) (map (trim_suffix #".") mxs) in
        if existsb (fun h => equal_fold h hostname) hosts then pass s (domain ++ #" MX") (join #", " hosts)
        else match hosts with
             | [] => fail s (domain ++ #" MX") #"the MX records name no usable host" (#"publish: " ++ record)
             | _ => warn s (domain ++ #" MX") (#"MX points to " ++ join #", " hosts ++ #", not to " ++ hostname)
                      #"point the MX at this server, or ignore if mail arrives through a relay"
             end
  end.

(** The last record that begins in the given way. *)
Definition last_record (prefix : str) (txts : option (list str)) : str :=
  fold_left (fun found t => if has_prefix prefix (to_lower t) then t else found) (default [] txts) [].

Definition check_spf (domain : str) : Report :=
  let s := #"DNS" in
  let name := domain ++ #" SPF" in
  let spf := last_record #"v=spf1" (LookupTXT net domain) in
  if spf =s [] then
    fail s name #"no SPF record: receivers cannot tell your mail from a forgery"
      (#"publish: " ++ domain ++ #". IN TXT " ++ quoted #"v=spf1 mx -all")
  else if contains #"+all" spf then
    fail s name (#"the record ends in +all, which authorizes the entire internet: " ++ spf) #"replace +all with -all"
  else if negb (contains #"-all" spf) && negb (contains #"~all" spf) then
    warn s name (#"the record has no -all or ~all: " ++ spf)
      #"end the record with -all once you are confident it is complete"
  else pass s name spf.

(** The public key of a DKIM record, without white space. *)
Definition dkimPublicKey (txt : str) : str :=
  match List.find (has_prefix #"p=") (map trim_space (split ";" txt)) with
  | Some part => List.filter (fun c => negb (existsb (Ascii.eqb c) [SP; TAB; CR; LF])) (drop 2 part)
  | None => []
  end.
Definition sameDKIMKey (a b : str) : bool :=
  negb (dkimPublicKey a =s []) && (dkimPublicKey a =s dkimPublicKey b).

(** [local] is the record of the key on this machine, if there is one. *)
Definition check_dkim (domain selector : str) (local : option str) : Report :=
  let s := #"DNS" in
  let name := domain ++ #" DKIM" in
  let dkimName := selector ++ #"._domainkey." ++ domain in
  let published := LookupTXT net dkimName in
  let joined := mjoin (default [] published) in
  let record txt := dkimName ++ #". IN TXT " ++ Quote txt in
  match local, published with
  | None, None =>
      warn s name #"no local key and no published record: mail is sent unsigned"
        (#"generate one with: verta --generate-dkim " ++ domain)
  | None, Some _ =>
      warn s name #"a record is published but no local key exists: signing is impossible"
        (#"generate the key with: verta --generate-dkim " ++ domain)
  | Some txt, _ =>
      if joined =s [] then
        fail s name (#"a local key exists but nothing is published at " ++ dkimName) (#"publish: " ++ record txt)
      else if negb (sameDKIMKey joined txt) then
        fail s name #"the published key does not match the local one: signatures will fail" (#"republish: " ++ record txt)
      else pass s name (#"published key matches the local key (" ++ selector ++ #")")
  end.

Definition check_dmarc (domain : str) : Report :=
  let s := #"DNS" in
  let name := domain ++ #" DMARC" in
  let dmarc := last_record #"v=dmarc1" (LookupTXT net (#"_dmarc." ++ domain)) in
  if dmarc =s [] then
    warn s name #"no DMARC record: nobody enforces your SPF and DKIM"
      (#"publish: _dmarc." ++ domain ++ #". IN TXT "
       ++ quoted (#"v=DMARC1; p=quarantine; rua=mailto:postmaster@" ++ domain))
  else if contains #"p=none" (to_lower dmarc) then
    warn s name (#"policy is p=none, which asks receivers to do nothing: " ++ dmarc)
      #"move to p=quarantine, then p=reject, once the reports look clean"
  else pass s name dmarc.

Section Keys.
Context {Key : Type} `{Dkim.KeyCodec Key}.

Definition selector_for (l : Loaded) (domain : str) : str := Dkim.or_default (DKIMSelectorFor (core l) domain).

Definition check_domain (l : Loaded) (domain : str) : M Report :=
  let selector := selector_for l domain in
  local ← try (Dkim.TXTRecord (abs_path (cfDKIMDir (ldRoot l))) domain selector);
  mret (check_mx (svHostname (cfServer (ldRoot l))) domain ++ check_spf domain
        ++ check_dkim domain selector (match local with Ok (_, txt) => Some txt | Err _ => None end)
        ++ check_dmarc domain).
Fixpoint check_domains (l : Loaded) (domains : list str) : M Report :=
  match domains with
  | [] => mret []
  | d :: r => one ← check_domain l d; rest ← check_domains l r; mret (one ++ rest)
  end.
Definition checkDNS (l : Loaded) : M Report :=
  match cfDomains (ldRoot l) with
  | [] => mret (skip #"DNS" #"records" #"no domains configured")
  | _ => check_domains l (sortedDomains (ConfigAudit.domain_names (ldRoot l)))
  end.
End Keys.

(** ** Reverse DNS *)

Definition ptr_finding (hostname ip : str) : Report :=
  let s := #"Reverse DNS" in
  match LookupAddr net ip with
  | None | Some [] =>
      fail s #"PTR record" (#"no reverse DNS for " ++ ip ++ #": most large receivers will refuse your mail")
        (#"ask your provider to set the PTR of " ++ ip ++ #" to " ++ hostname)
  | Some names =>
      let clean := map (trim_suffix #".") names in
      if negb (existsb (fun n => equal_fold n hostname) clean) then
        fail s #"PTR record" (ip ++ #" reverses to " ++ join #", " clean ++ #", not to " ++ hostname)
          (#"set the PTR of " ++ ip ++ #" to " ++ hostname ++ #" (forward-confirmed reverse DNS)")
      else if existsb (fun b => b =s ip) (default [] (LookupHost net hostname)) then
        pass s #"PTR record" (ip ++ #" <-> " ++ hostname ++ #" (forward-confirmed)")
      else warn s #"PTR record" (ip ++ #" reverses to " ++ hostname ++ #" but the name does not resolve back to it")
             #"make the A record and the PTR agree"
  end.
Definition checkReverseDNS (c : Root) : Report :=
  let s := #"Reverse DNS" in
  let hostname := svHostname (cfServer c) in
  if negb (ctPublicIP (cfContainer c) =s []) then ptr_finding hostname (ctPublicIP (cfContainer c))
  else match LookupHost net hostname with
       | None | Some [] =>
           fail s #"hostname resolution" (hostname ++ #" does not resolve") #"publish an A record for the mail hostname"
       | Some (ip :: _ as addrs) =>
           pass s #"hostname resolution" (hostname ++ #" resolves to " ++ join #", " addrs) ++ ptr_finding hostname ip
       end.

(** ** Blacklists *)

Section Listings.
Context (ParseIP : str -> option Container.IP).

Definition listing_finding (dnsbl : list str) (ip : str) (t0 t1 : Z) : Report :=
  let s := #"Blacklists" in
  let '(listed, zones, _) := Blacklist.ListedIP ParseIP (LookupHost net) (Blacklist.New dnsbl [] (60 * 10 ^ 9)) ip t0 t1 in
  if listed : bool then
    fail s #"sending IP" (ip ++ #" is listed on " ++ join #", " zones)
      #"request delisting at the listing operators, and find out what caused it before you do"
  else pass s #"sending IP" (ip ++ #" is not listed on " ++ ConfigAudit.num dnsbl ++ #" checked lists").
Definition checkBlacklists (c : Root) (t0 t1 : Z) : Report :=
  let s := #"Blacklists" in
  let dnsbl := blDNSBL (cfBlacklist c) in
  if negb (is_enabled (blEnabled (cfBlacklist c))) || Nat.eqb (length dnsbl) 0 then
    skip s #"listing" #"blacklist lookups are disabled"
  else if negb (ctPublicIP (cfContainer c) =s []) then listing_finding dnsbl (ctPublicIP (cfContainer c)) t0 t1
  else match LookupHost net (svHostname (cfServer c)) with
       | None | Some [] => skip s #"listing" #"cannot determine the public IP"
       | Some (ip :: _) => listing_finding dnsbl ip t0 t1
       end.
End Listings.
End DNS.

(** ** The whole *)

Section Security.
Context {Certificate Key : Type} `{Dkim.KeyCodec Key}
  (load_pair : str -> str -> result str (CertStore.entry Certificate))
  (net : Resolver) (ParseIP : str -> option Container.IP).

(** [Dial] is what an SMTP server answers; the clock is read when the
    certificates are in place and twice for the blacklists. *)
Definition SecurityCheck (l : Loaded) (probeHost : str) (Dial : str -> result str (list str)) (now t0 t1 : Z) : M Report :=
  let c := ldRoot l in
  let probeHost := if probeHost =s [] then svHostname (cfServer c) else probeHost in
  dns ← checkDNS net l;
  mret (checkTLSCertificates load_pair c now ++ (checkOpenRelay c probeHost Dial).2 ++ dns
        ++ checkReverseDNS net c ++ checkBlacklists net ParseIP c t0 t1).
End Security.

(** ** A key that is published as told *)

Lemma b64_char_letter n : b64_char n ∈ map (fun k => b64_char (N.of_nat k)) (seq 0 64).
Proof.
  destruct (N.ltb_spec n 64) as [H|H].
  - apply list_elem_of_fmap. exists (N.to_nat n). split; [by rewrite N2Nat.id|]. apply elem_of_seq. lia.
  - assert (b64_char n = "/"%char) as -> by (unfold b64_char; repeat (rewrite (proj2 (N.ltb_ge _ _)) by lia);
      by rewrite (proj2 (N.eqb_neq _ _)) by lia).
    by apply (bool_decide_unpack _); vm_compute.
Qed.

(** What is not of the alphabet is not in an encoding. *)
Definition foreign (c : ascii) : bool := negb (existsb (Ascii.eqb c) (#"=" ++ map (fun k => b64_char (N.of_nat k)) (seq 0 64))).
Lemma foreign_not c : foreign c = true -> (forall n, b64_char n <> c) /\ c <> "="%char.
Proof.
  unfold foreign. intros H%negb_true_iff%not_true_iff_false. split.
  - intros n <-. apply H. apply existsb_exists. exists (b64_char n). split; [|apply Ascii.eqb_refl].
    apply list_elem_of_In, elem_of_app. right. apply b64_char_letter.
  - intros ->. by apply H.
Qed.

Lemma encode_foreign c : foreign c = true -> forall fuel padded s, c ∉ encode_fuel fuel padded s.
Proof.
  intros [Hc He]%foreign_not. assert (forall n, c <> b64_char n) as Hc' by (intros n E; by apply (Hc n)).
  assert (forall (padded : bool) p, p = #"=" \/ p = #"==" -> c ∉ (if padded then p else [])) as Hp.
  { intros [] p [-> | ->]; set_solver. }
  induction fuel as [|fuel IH]; intros padded s; cbn [encode_fuel]; [by apply not_elem_of_nil|].
  destruct s as [|a [|b [|d r]]]; [by apply not_elem_of_nil| | |];
    rewrite ?not_elem_of_app, ?not_elem_of_cons; split_and!; try apply Hc'; try apply not_elem_of_nil; try apply IH; apply Hp; tauto.
Qed.

Lemma trim_left_space s : (forall x, head s = Some x -> is_space x = false) -> (forall x, last s = Some x -> is_space x = false) ->
  trim_space (SP :: s) = s.
Proof.
  intros Hh Hl. unfold trim_space. cbn [drop_while]. change (is_space SP) with true. cbv iota.
  rewrite (drop_while_id _ s) by done. by apply drop_while_end_id.
Qed.

(** The record of a public key gives its encoding back. *)
Lemma dkimPublicKey_record domain selector pub : dkimPublicKey (Dkim.txt_record domain selector pub).2 = encode_std pub.
Proof.
  unfold dkimPublicKey, Dkim.txt_record. cbn [snd]. set (enc := encode_std pub).
  assert (forall c, foreign c = true -> c ∉ enc) as Hf by (intros c Hc; by apply encode_foreign).
  assert (split ";" (#"v=DKIM1; k=rsa; p=" ++ enc) = [ #"v=DKIM1"; #" k=rsa"; #" p=" ++ enc]) as ->.
  { change (#"v=DKIM1; k=rsa; p=" ++ enc) with (#"v=DKIM1" ++ ";"%char :: (#" k=rsa" ++ ";"%char :: (#" p=" ++ enc))).
    rewrite split_app by (by apply (bool_decide_unpack _); vm_compute).
    rewrite split_app by (by apply (bool_decide_unpack _); vm_compute). f_equal. f_equal. apply split_no_sep.
    apply not_elem_of_app. split; [by apply (bool_decide_unpack _); vm_compute|]. by apply Hf. }
  cbn [map]. assert (trim_space (#" p=" ++ enc) = #"p=" ++ enc) as ->.
  { apply (trim_left_space (#"p=" ++ enc)); [by intros x [= <-]|]. intros x Hx. rewrite last_app in Hx.
    destruct (last enc) as [y|] eqn:Ey; [|by injection Hx as <-]. injection Hx as ->. apply last_Some_elem_of in Ey.
    destruct (is_space x) eqn:Es; [|done]. exfalso. revert Ey. apply Hf. unfold is_space in Es. unfold foreign.
    destruct x as [[] [] [] [] [] [] [] []]; done. }
  change (List.find (has_prefix #"p=") [trim_space #"v=DKIM1"; trim_space #" k=rsa"; #"p=" ++ enc]) with (Some (#"p=" ++ enc)).
  change (drop 2 (#"p=" ++ enc)) with enc. apply forallb_filter_id. apply forallb_forall. intros c Hc%list_elem_of_In.
  apply negb_true_iff, not_true_iff_false. intros (d & Hd & ->%Ascii.eqb_eq)%existsb_exists.
  revert Hc. apply Hf. by repeat (destruct Hd as [<-|Hd]; [vm_compute|]).
Qed.

Lemma encode_std_nonempty s : s <> [] -> encode_std s <> [].
Proof. destruct s as [|a [|b [|c s]]]; done. Qed.

Section Published.
Context {Key : Type} `{!Dkim.KeyCodec Key, !Dkim.LawfulKeyCodec Key}.

(** C18. A key that was generated and whose record was published as told, however
    the name server cuts the text into strings, passes the check of DKIM: what
    signs the outgoing mail is what receivers will find. *)
Theorem published_key_passes net dir domain selector fresh w name value w' chunks :
  wFaults w = [] -> Dkim.Generate dir domain selector fresh w = (Ok (name, value), w') ->
  (forall key pub, fresh = Some key -> Dkim.MarshalPKIX key = Some pub -> pub <> []) ->
  LookupTXT net name = Some chunks -> mjoin chunks = value ->
  let sel := Dkim.or_default selector in
  let local := match (Dkim.TXTRecord dir domain sel w').1 with Ok (_, txt) => Some txt | Err _ => None end in
  check_dkim net domain sel local
  = pass #"DNS" (domain ++ #" DKIM") (#"published key matches the local key (" ++ sel ++ #")").
Proof.
  intros Hw HG Hpub Hnet Hval sel local.
  destruct (Dkim.Generate_TXTRecord dir domain selector fresh w (name, value) w' Hw HG) as (key & pub & -> & Hp & E & _ & Htxt).
  assert (Dkim.TXTRecord dir domain sel = Dkim.TXTRecord dir domain selector) as Esel.
  { unfold Dkim.TXTRecord, sel. by rewrite Dkim.or_default_idem. }
  unfold local. rewrite Esel, Htxt. assert (name = sel ++ #"._domainkey." ++ domain) as Ename by exact (f_equal fst E).
  assert (value = (Dkim.txt_record domain sel pub).2) as Evalue by exact (f_equal snd E).
  assert (dkimPublicKey value = encode_std pub) as Hkey by (rewrite Evalue; apply (dkimPublicKey_record domain sel)).
  assert (dkimPublicKey value <> []) as Hne by (rewrite Hkey; eapply encode_std_nonempty, Hpub; eauto).
  unfold check_dkim. rewrite <- Ename, Hnet. change (default [] (Some chunks)) with chunks. rewrite Hval.
  assert (value <> []) as Hv by (by rewrite Evalue). rewrite (proj2 (str_eqb_neq _ _) Hv).
  unfold sameDKIMKey. rewrite (proj2 (str_eqb_neq _ _) Hne), str_eqb_refl. reflexivity.
Qed.
End Published.

Definition told (txts : list str) : Resolver := mkResolver (fun _ => None) (fun _ => Some txts) (fun _ => None) (fun _ => None).

Lemma published_key_passes_witness :
  let w' := (Dkim.Generate Dkim.key_dir #"b.c" [] (Some #"k") (Dkim.toy_world ∅ [])).2 in
  let local := match (Dkim.TXTRecord Dkim.key_dir #"b.c" (Dkim.or_default []) w').1 with Ok (_, txt) => Some txt | Err _ => None end in
  check_dkim (told [ #"v=DKIM1; k=rs"; #"a; p=aw=="]) #"b.c" (Dkim.or_default []) local
  = pass #"DNS" (#"b.c" ++ #" DKIM") (#"published key matches the local key (" ++ Dkim.or_default [] ++ #")").
Proof.
  apply (published_key_passes (told [ #"v=DKIM1; k=rs"; #"a; p=aw=="])
    Dkim.key_dir #"b.c" [] (Some #"k") (Dkim.toy_world ∅ []) #"default._domainkey.b.c" #"v=DKIM1; k=rsa; p=aw=="
    (Dkim.Generate Dkim.key_dir #"b.c" [] (Some #"k") (Dkim.toy_world ∅ [])).2 [ #"v=DKIM1; k=rs"; #"a; p=aw=="]).
  - reflexivity.
  - vm_compute. reflexivity.
  - by intros key pub [= <-] [= <-].
  - reflexivity.
  - reflexivity.
Defined.

(** ** Examples *)

(** A record that ends in a bare [all], which means [+all], is only warned
    about; one with "-all" inside a name passes. *)
Example bare_all_is_no_failure :
  map rtStatus (check_spf (told [ #"v=spf1 all"]) #"b.c") = [Warn] /\
  map rtStatus (check_spf (told [ #"v=spf1 +all"]) #"b.c") = [Fail] /\
  map rtStatus (check_spf (told [ #"v=spf1 include:mail-all.example all"]) #"b.c") = [Pass].
Proof. by vm_compute. Qed.

(** The policy for subdomains is taken for the policy. *)
Example subdomain_policy_taken_for_policy :
  map rtStatus (check_dmarc (told [ #"v=DMARC1; p=reject; sp=none"]) #"b.c") = [Warn].
Proof. by vm_compute. Qed.
