(* ===== verification/ContainerCheck.v ===== *)
(** * The container check (internal/checks/container.go)

    Whether a deployment looks from the outside like a mail server on the
    metal: runtime, public names, masked addresses, ports and storage.  The
    addresses bound on the machine and what answers on a port are arguments. *)

From S2P Require Import Prelude GoStrings GoValues Checks Config Settings ConfigLoad Probe.
From S2P Require Container ConfigAudit ConfigProps.

#[global] Open Scope Z_scope.

Section Check.
Context (ParseIP : str -> option Container.IP).
(** [os.Hostname], the traces of the runtime, [LocalAddresses] and a
    connection to an address. *)
Context (own : option str) (markers : Container.Markers) (local : result str (list str)) (Dial : str -> bool).

Definition section : str := #"Container".

Definition checkRuntime (c : Root) : Report :=
  let s := section in
  let rt := Container.Detect markers in
  let text := Container.runtime_text rt in
  let ct := cfContainer c in
  if bool_decide (rt = Container.RuntimeNone) && negb (ctEnabled ct) then
    pass s #"runtime" #"not running in a container, container mode off"
  else if bool_decide (rt = Container.RuntimeNone) then
    warn s #"runtime" #"container mode is enabled but no container runtime was detected"
      #"disable the container section if this is a physical or virtual machine"
  else if negb (ctEnabled ct) then
    fail s #"runtime" (#"running under " ++ text ++ #" but container mode is off: internal addresses may reach outgoing mail")
      #"enable the container section and set public_ip"
  else
    pass s #"runtime" (#"running under " ++ text ++ #", container mode enabled")
    ++ (if negb (ctType ct =s []) && negb (equal_fold (ctType ct) text) then
          warn s #"runtime type" (#"configured as " ++ Quote (ctType ct) ++ #" but detected " ++ text) []
        else []).

(** An address of the documentation range stands for a sender. *)
Definition sample_internal : str := #"10.1.0.20".
Definition sample_public : str := #"198.51.100.7".

Definition checkTraceHeaders (c : Root) : Report :=
  let s := section in
  let ct := cfContainer c in
  if negb (ctEnabled ct) then skip s #"trace headers" #"container mode is off, addresses are recorded as they are"
  else
    let id := Container.mkIdentity true (svHostname (cfServer c)) (ctPublicIP ct) (ctInternalIP ct) in
    let internal := if ctInternalIP ct =s [] then sample_internal else ctInternalIP ct in
    let masked := Container.MaskIP ParseIP id internal in
    (if masked =s ctPublicIP ct then
       pass s #"trace headers" (#"internal source " ++ internal ++ #" is recorded as " ++ masked)
     else fail s #"trace headers" (#"internal source " ++ internal ++ #" would be recorded as " ++ masked)
            #"set container.public_ip to the address the world sees")
    ++ (if negb (Container.MaskIP ParseIP id sample_public =s sample_public) then
          fail s #"inbound source addresses"
            #"public sender addresses are being masked, which destroys inbound traceability" []
        else pass s #"inbound source addresses" #"public sender addresses are preserved").

Definition checkPublicIdentity (c : Root) : Report :=
  let s := section in
  let host := svHostname (cfServer c) in
  match Container.LeaksContainerName own host with
  | Some why => fail s #"public hostname" (host ++ #": " ++ why)
                  #"the SMTP banner shows this name to every peer: set it to the public FQDN"
  | None => pass s #"public hostname" host
  end
  ++ pass s #"SMTP banner" (#"220 " ++ host ++ #" ESMTP Verta")
  ++ checkTraceHeaders c.

Definition checkAddresses (c : Root) : Report :=
  let s := section in
  let ct := cfContainer c in
  if negb (ctEnabled ct) then []
  else match local with
       | Err e => skip s #"addresses" (#"cannot enumerate interfaces: " ++ e)
       | Ok addrs =>
           let has ip := existsb (fun a => a =s ip) addrs in
           (if has (ctPublicIP ct) then pass s #"public address" (ctPublicIP ct ++ #" is bound directly on this machine")
            else pass s #"public address"
                   (ctPublicIP ct ++ #" is not bound locally: traffic arrives through forwarding (bridged/NAT)"))
           ++ (if ctInternalIP ct =s [] then skip s #"internal address" #"container.internal_ip is not declared"
               else if has (ctInternalIP ct) then
                 pass s #"internal address" (ctInternalIP ct ++ #" is bound on this machine")
               else warn s #"internal address" (ctInternalIP ct ++ #" is declared but not bound on any interface")
                      #"correct container.internal_ip, or remove it")
       end.

(** The listeners that are configured, with their addresses. *)
Definition ports (c : Root) : list (str * str) :=
  let l := cfListeners c in
  List.filter (fun p => negb (p.2 =s []))
    [(#"smtp", lsSMTP l); (#"smtps", lsSMTPS l); (#"submission", lsSubmission l); (#"imap", lsIMAP l);
     (#"imaps", lsIMAPS l); (#"pop3", lsPOP3 l); (#"pop3s", lsPOP3S l)].
Definition answers (addr : str) : bool :=
  match SplitHostPort addr with
  | Err _ => false
  | Ok (host, port) => Dial (JoinHostPort (if unspecified host then #"127.0.0.1" else host) port)
  end.
Definition checkPorts (c : Root) : Report :=
  let s := section in
  let enabled := map fst (ports c) in
  let reachable := map fst (List.filter (fun p => answers p.2) (ports c)) in
  match enabled with
  | [] => fail s #"listeners" #"no listener is enabled" #"configure at least the smtp listener"
  | _ =>
      pass s #"listeners enabled" (join #", " enabled)
      ++ match reachable with
         | [] => warn s #"listeners reachable" #"none answered locally: the daemon is probably not running"
                   #"start verta, then run this check again"
         | _ =>
             if Nat.ltb (length reachable) (length enabled) then
               let missing := List.filter (fun e => negb (existsb (fun r => r =s e) reachable)) enabled in
               warn s #"listeners reachable" (join #", " reachable ++ #" answered, " ++ join #", " missing ++ #" did not")
                 #"a listener without a TLS certificate does not start; check the service log"
             else pass s #"listeners reachable" (join #", " reachable)
         end
  end.

(** Each path once, in the order found. *)
Definition add_root (roots : list str) (p : str) : list str :=
  if (p =s []) || existsb (fun r => r =s p) roots then roots else roots ++ [p].
Definition mail_roots (c : Root) : list str :=
  fold_left (fun roots h => if sType (dStorage (hdDomain h)) =s StorageSystemUser
                            then add_root roots (MaildirPath (dStorage (hdDomain h))) else roots) (cfDomains c)
    (fold_left (fun roots a => add_root roots (uMaildir (acUser a))) (cfUsers c) []).
Definition checkStorage (c : Root) : Report :=
  let s := section in
  let roots := mail_roots c in
  match roots with
  | [] => skip s #"mail storage" #"no mailbox paths configured"
  | _ =>
      let shown := if Nat.ltb 3 (length roots)
                   then take 3 roots ++ [ #"and " ++ dec (Z.of_nat (length roots - 3)) ++ #" more"] else roots in
      pass s #"mail storage" (join #", " shown)
      ++ pass s #"queue and keys" (#"queue " ++ quDir (cfQueue c) ++ #", dkim keys " ++ cfDKIMDir c)
      ++ warn s #"backups" #"verta does not take backups itself"
           (#"snapshot the mail storage, " ++ quDir (cfQueue c) ++ #" and " ++ cfDKIMDir c
            ++ #" with LXD/ZFS snapshots, and keep a copy of the configuration")
  end.

Definition ContainerCheck (c : Root) : Report :=
  checkRuntime c ++ checkPublicIdentity c ++ checkAddresses c ++ checkPorts c ++ checkStorage c.
End Check.

(** ** What a clean report says *)

Section Clean.
Context (ParseIP : str -> option Container.IP) (own : option str) (markers : Container.Markers)
  (local : result str (list str)) (Dial : str -> bool).

Definition identity_of (c : Root) : Container.Identity :=
  Container.mkIdentity true (svHostname (cfServer c)) (ctPublicIP (cfContainer c)) (ctInternalIP (cfContainer c)).
(** The address that stands for a client of the local network. *)
Definition inner_address (c : Root) : str :=
  if ctInternalIP (cfContainer c) =s [] then sample_internal else ctInternalIP (cfContainer c).

Lemma runtime_clean c : ExitCode (checkRuntime markers c) = 0 <->
  Container.Detect markers = Container.RuntimeNone \/ ctEnabled (cfContainer c) = true.
Proof.
  unfold checkRuntime, pass, warn, fail, skip. cbv zeta.
  case_bool_decide; destruct (ctEnabled (cfContainer c)); cbn [negb andb]; [rewrite ExitCode_one; naive_solver..| |rewrite ExitCode_one; naive_solver].
  rewrite ExitCode_app, ExitCode_one. split; [by right|]. intros _. split; [done|]. by destruct (negb _ && negb _).
Qed.

Lemma trace_clean c : ExitCode (checkTraceHeaders ParseIP c) = 0 <->
  (ctEnabled (cfContainer c) = true ->
   Container.MaskIP ParseIP (identity_of c) (inner_address c) = ctPublicIP (cfContainer c) /\
   Container.MaskIP ParseIP (identity_of c) sample_public = sample_public).
Proof.
  unfold checkTraceHeaders, identity_of, inner_address, pass, fail, skip. cbv zeta.
  destruct (ctEnabled (cfContainer c)); cbn [negb]; [|rewrite ExitCode_one; naive_solver].
  rewrite ExitCode_app.
  match goal with |- context [?a =s ctPublicIP _] => destruct (str_eqb_spec a (ctPublicIP (cfContainer c))) end;
    match goal with |- context [negb (?a =s sample_public)] => destruct (str_eqb_spec a sample_public) end;
    cbn [negb]; rewrite !ExitCode_one; naive_solver.
Qed.

Lemma addresses_clean c : ExitCode (checkAddresses local c) = 0.
Proof.
  unfold checkAddresses, pass, warn, skip. cbv zeta. destruct (ctEnabled (cfContainer c)); [|done]. cbn [negb].
  destruct local; [|by apply ExitCode_one]. rewrite ExitCode_app. split; repeat case_match; by apply ExitCode_one.
Qed.
Lemma ports_clean c : ExitCode (checkPorts Dial c) = 0 <-> ports c <> [].
Proof.
  unfold checkPorts, pass, warn, fail. cbv zeta. destruct (ports c) as [|p ps]; cbn [map]; [by rewrite ExitCode_one|].
  rewrite ExitCode_app. split; [done|]. intros _. split; [by apply ExitCode_one|]. repeat case_match; by apply ExitCode_one.
Qed.
Lemma storage_clean c : ExitCode (checkStorage c) = 0.
Proof. unfold checkStorage, pass, warn, skip. by destruct (mail_roots c). Qed.

(** A clean container check, in terms of the configuration: container mode is
    on under a runtime, the public name gives nothing away, the internal
    address is masked and a public one is not, and a listener is enabled. *)
Lemma container_clean c :
  ExitCode (ContainerCheck ParseIP own markers local Dial c) = 0 <->
  (Container.Detect markers = Container.RuntimeNone \/ ctEnabled (cfContainer c) = true) /\
  Container.LeaksContainerName own (svHostname (cfServer c)) = None /\
  (ctEnabled (cfContainer c) = true ->
   Container.MaskIP ParseIP (identity_of c) (inner_address c) = ctPublicIP (cfContainer c) /\
   Container.MaskIP ParseIP (identity_of c) sample_public = sample_public) /\
  ports c <> [].
Proof.
  unfold ContainerCheck, checkPublicIdentity. cbv zeta. rewrite !ExitCode_app, runtime_clean, trace_clean, ports_clean.
  pose proof (addresses_clean c). pose proof (storage_clean c).
  unfold pass, fail. destruct (Container.LeaksContainerName own (svHostname (cfServer c))); rewrite !ExitCode_one; naive_solver.
Qed.
End Clean.
