(* ===== verification/Host.v ===== *)
(** * A machine as its administrator's commands see it

    What the commands that run as root add to the file system of GoOS.v: the
    permission bits of files and directories under an umask, and the lines
    printed to the terminal.  Every call may fail. *)

From S2P Require Import Prelude GoStrings GoOS.

#[global] Open Scope Z_scope.

Record host := mkHost { hDisk : world; hModes : gmap path Z; hOut : str }.

(** ** The monad *)

Definition W (A : Type) : Type := host -> result error A * host.

#[global] Instance W_ret : MRet W := fun A a h => (Ok a, h).
#[global] Instance W_bind : MBind W := fun A B f m h =>
  match m h with
  | (Ok a, h') => f a h'
  | (Err e, h') => (Err e, h')
  end.
Definition raise {A} (e : error) : W A := fun h => (Err e, h).
(** The error is looked at, not propagated. *)
Definition attempt {A} (m : W A) : W (result error A) := fun h => let '(r, h') := m h in (Ok r, h').
(** A call of the file system. *)
Definition lift {A} (m : M A) : W A := fun h =>
  let '(r, w) := m (hDisk h) in (r, mkHost w (hModes h) (hOut h)).
(** [fmt.Fprint] to the writer of the command. *)
Definition say (s : str) : W unit := fun h => (Ok tt, mkHost (hDisk h) (hModes h) (hOut h ++ s)).
Definition sayln (s : str) : W unit := say (s ++ [LF]).
Definition here : W host := fun h => (Ok h, h).
Definition set_modes (f : gmap path Z -> gmap path Z) : W unit := fun h =>
  (Ok tt, mkHost (hDisk h) (f (hModes h)) (hOut h)).
Fixpoint each {A} (l : list A) (body : A -> W unit) : W unit :=
  match l with
  | [] => mret tt
  | x :: r => body x ≫= fun _ => each r body
  end.

(** ** Calls that set or keep permissions *)

Section Calls.
Context (umask : Z).

Definition masked (mode : Z) : Z := Z.ldiff mode umask.
Definition present (h : host) (p : path) : Prop := p ∈ wDirs (hDisk h) \/ is_Some (wFiles (hDisk h) !! p).
#[global] Instance present_dec h p : Decision (present h p).
Proof. unfold present. apply _. Defined.

(** What was not there before gets the mode less the umask. *)
Definition new_modes (before : host) (mode : Z) (ps : list path) (modes : gmap path Z) : gmap path Z :=
  fold_left (fun m p => if decide (present before p) then m else <[p := masked mode]> m) ps modes.

(** [os.MkdirAll(p, mode)]. *)
Definition mkdir_all (p : path) (mode : Z) : W unit :=
  h ← here;
  lift (MkdirAll p) ≫= fun _ =>
  set_modes (new_modes h mode (prefixes p)).

(** [os.Chmod(p, mode)]. *)
Definition chmod (p : path) (mode : Z) : W unit :=
  lift (Stat p) ≫= fun _ => set_modes (insert p mode).

(** [os.WriteFile(p, data, mode)]: the mode counts for a new file only, and
    also when the write fails half-way. *)
Definition write_file (p : path) (data : str) (mode : Z) : W unit :=
  h ← here;
  r ← attempt (lift (WriteFile p data));
  h' ← here;
  (if decide (present h' p) then set_modes (new_modes h mode [p]) else mret tt) ≫= fun _ =>
  match r with Ok _ => mret tt | Err e => raise e end.

(** [os.OpenFile] with O_WRONLY, O_CREATE and O_TRUNC. *)
Definition create (p : path) (mode : Z) : W unit :=
  h ← here;
  lift (syscall (w ← get_world;
                 if decide (parent p ∈ wDirs w) then store_file p [] else throw ENOENT)) ≫= fun _ =>
  set_modes (new_modes h mode [p]).

(** [os.Rename]: the mode goes with the file. *)
Definition rename (old new : path) : W unit :=
  lift (Rename old new) ≫= fun _ =>
  set_modes (fun m => match m !! old with Some mode => <[new := mode]> (delete old m) | None => delete new (delete old m) end).
Definition remove (p : path) : W unit := lift (GoOS.Remove p) ≫= fun _ => set_modes (delete p).
Definition remove_all (p : path) : W unit :=
  lift (RemoveAll p) ≫= fun _ => set_modes (fun m => filter (fun kv => ~ p `prefix_of` kv.1) m).
End Calls.

(** ** What a command does to the machine, whatever fails *)

(** [R] relates the machine before and after. *)
Definition turns {A} (R : host -> host -> Prop) (m : W A) : Prop := forall h, R h (m h).2.

Section Leads.
Context (R : host -> host -> Prop) `{!Reflexive R, !Transitive R}.

Lemma turns_ret {A} (a : A) : turns R (mret a).
Proof. intros h. cbn. reflexivity. Qed.
Lemma turns_raise {A} e : turns R (raise (A:=A) e).
Proof. intros h. cbn. reflexivity. Qed.
Lemma turns_here : turns R here.
Proof. intros h. cbn. reflexivity. Qed.
Lemma turns_bind {A B} (m : W A) (f : A -> W B) : turns R m -> (forall a, turns R (f a)) -> turns R (m ≫= f).
Proof.
  intros Hm Hf h. specialize (Hm h). unfold mbind, W_bind. destruct (m h) as [[a|e] h1]; cbn [snd] in *; [|done].
  etransitivity; [done|apply Hf].
Qed.
Lemma turns_attempt {A} (m : W A) : turns R m -> turns R (attempt m).
Proof. intros Hm h. specialize (Hm h). unfold attempt. by destruct (m h). Qed.
Lemma turns_each {A} (l : list A) body : (forall x, x ∈ l -> turns R (body x)) -> turns R (each l body).
Proof.
  induction l as [|x l IH]; intros Hb; cbn [each]; [apply turns_ret|].
  apply turns_bind; [apply Hb; left|]. intros _. apply IH. intros y Hy. apply Hb. by right.
Qed.
End Leads.

(** ** Weakest preconditions *)

Definition gives {A} (m : W A) (h : host) (Q : result error A -> host -> Prop) : Prop := Q (m h).1 (m h).2.

Lemma gives_mono {A} (m : W A) h (Q Q' : result error A -> host -> Prop) :
  gives m h Q -> (forall r h', Q r h' -> Q' r h') -> gives m h Q'.
Proof. unfold gives. auto. Qed.
Lemma gives_bind {A B} (m : W A) (f : A -> W B) h Q :
  gives m h (fun r h' => match r with Ok a => gives (f a) h' Q | Err e => Q (Err e) h' end) -> gives (m ≫= f) h Q.
Proof. unfold gives, mbind, W_bind. by destruct (m h) as [[]]. Qed.
Lemma gives_attempt {A} (m : W A) h Q : gives m h (fun r h' => Q (Ok r) h') -> gives (attempt m) h Q.
Proof. unfold gives, attempt. by destruct (m h). Qed.
Lemma gives_lift {A} (m : M A) h (Q : result error A -> host -> Prop) :
  wp m (hDisk h) (fun r w => Q r (mkHost w (hModes h) (hOut h))) -> gives (lift m) h Q.
Proof. unfold gives, lift, wp. by destruct (m (hDisk h)). Qed.
Lemma gives_leads {A} R (m : W A) h (Q : result error A -> host -> Prop) :
  turns R m -> (forall r h', R h h' -> Q r h') -> gives m h Q.
Proof. intros Hm HQ. apply HQ, Hm. Qed.
Lemma gives_ret {A} (a : A) h (Q : result error A -> host -> Prop) : Q (Ok a) h -> gives (mret a) h Q.
Proof. done. Qed.
Lemma gives_raise {A} e h (Q : result error A -> host -> Prop) : Q (Err e) h -> gives (raise e) h Q.
Proof. done. Qed.
Lemma gives_say s h (Q : result error unit -> host -> Prop) :
  Q (Ok tt) (mkHost (hDisk h) (hModes h) (hOut h ++ s)) -> gives (say s) h Q.
Proof. done. Qed.

(** ** Which files a command touches *)

(** No file outside [P] is changed. *)
Definition only (P : path -> Prop) (h h' : host) : Prop :=
  forall q, ~ P q -> wFiles (hDisk h') !! q = wFiles (hDisk h) !! q.
#[global] Instance only_refl P : Reflexive (only P).
Proof. by intros h q. Qed.
#[global] Instance only_trans P : Transitive (only P).
Proof. intros h1 h2 h3 H1 H2 q Hq. by rewrite H2, H1. Qed.

Lemma frame_RemoveAll (P : path -> Prop) p : (forall q, p `prefix_of` q -> P q) -> frame P (RemoveAll p).
Proof.
  intros HP. apply frame_syscall. intros w q Hq. unfold modify. cbn [snd wFiles].
  destruct (wFiles w !! q) as [f|] eqn:E.
  - apply map_lookup_filter_Some. split; [done|]. cbn. intros Hp. by apply Hq, HP.
  - apply map_lookup_filter_None. by left.
Qed.

Section Only.
Context (umask : Z) (P : path -> Prop).

Lemma only_lift {A} (m : M A) : frame P m -> turns (only P) (lift m).
Proof. intros Hm h q Hq. specialize (Hm (hDisk h) q Hq). unfold lift. by destruct (m (hDisk h)). Qed.
Lemma only_say s : turns (only P) (say s).
Proof. by intros h q. Qed.
Lemma only_sayln s : turns (only P) (sayln s).
Proof. apply only_say. Qed.
Lemma only_set_modes f : turns (only P) (set_modes f).
Proof. by intros h q. Qed.
Lemma only_mkdir p mode : turns (only P) (mkdir_all umask p mode).
Proof.
  apply (turns_bind _); [apply (turns_here _)|intros h]. apply (turns_bind _); [apply only_lift, frame_MkdirAll|].
  intros _. apply only_set_modes.
Qed.
Lemma only_chmod p mode : turns (only P) (chmod p mode).
Proof. apply (turns_bind _); [apply only_lift, frame_Stat|intros _; apply only_set_modes]. Qed.
Lemma only_write p data mode : P p -> turns (only P) (write_file umask p data mode).
Proof.
  intros Hp. apply (turns_bind _); [apply (turns_here _)|intros h].
  apply (turns_bind _); [by apply turns_attempt, only_lift, frame_WriteFile|intros r].
  apply (turns_bind _); [apply (turns_here _)|intros h'].
  apply (turns_bind _); [case_decide; [apply only_set_modes|apply (turns_ret _)]|intros _].
  destruct r; [apply (turns_ret _)|apply (turns_raise _)].
Qed.
Lemma only_create p mode : P p -> turns (only P) (create umask p mode).
Proof.
  intros Hp. apply (turns_bind _); [apply (turns_here _)|intros h].
  apply (turns_bind _); [|intros _; apply only_set_modes]. apply only_lift, frame_syscall_world. intros w q Hq.
  case_decide; [|done]. by apply (frame_store P).
Qed.
Lemma only_rename old new : P old -> P new -> turns (only P) (rename old new).
Proof. intros. apply (turns_bind _); [by apply only_lift, frame_Rename|intros _; apply only_set_modes]. Qed.
Lemma only_remove p : P p -> turns (only P) (remove p).
Proof. intros. apply (turns_bind _); [by apply only_lift, frame_Remove|intros _; apply only_set_modes]. Qed.
Lemma only_remove_all p : (forall q, p `prefix_of` q -> P q) -> turns (only P) (remove_all p).
Proof. intros. apply (turns_bind _); [by apply only_lift, frame_RemoveAll|intros _; apply only_set_modes]. Qed.
End Only.

Create HintDb turns.
#[export] Hint Resolve only_lift only_say only_sayln only_set_modes only_mkdir only_chmod only_write only_create
  only_rename only_remove only_remove_all : turns.
#[export] Hint Resolve turns_attempt turns_each : turns.
#[export] Hint Extern 1 (turns (only _) (mret _)) => apply (turns_ret _) : turns.
#[export] Hint Extern 1 (turns (only _) (raise _)) => apply (turns_raise _) : turns.
#[export] Hint Extern 1 (turns (only _) here) => apply (turns_here _) : turns.
#[export] Hint Extern 2 (turns (only _) (_ ≫= _)) => apply (turns_bind _); [|intros ?] : turns.

(** ** Commands that only add

    [tame P]: outside [P] files and permissions stay, directories are only
    added, and no call begins to fail. *)

Definition steady {A} (m : M A) : Prop :=
  forall w, wDirs w ⊆ wDirs (m w).2 /\ (wFaults w = [] -> wFaults (m w).2 = []).

Lemma steady_syscall {A} (m : M A) : steady m -> steady (syscall m).
Proof.
  intros Hm w. unfold syscall, mbind, M_bind, next_fault, throw.
  destruct (wFaults w) as [|[] fs] eqn:E; cbn [snd wDirs wFaults set_faults].
  - specialize (Hm w). by rewrite E in Hm.
  - split; [by apply (Hm (set_faults fs w))|done].
  - done.
  - done.
Qed.
Lemma steady_after {A} (f : world -> M A) :
  (forall w, wDirs (f w w).2 = wDirs w /\ wFaults (f w w).2 = wFaults w) -> steady (w ← get_world; f w).
Proof. intros Hf w. unfold mbind, M_bind, get_world. destruct (Hf w) as [-> ->]. by split. Qed.
Ltac steady_call := apply steady_syscall, steady_after; intros w; repeat case_match; done.

Lemma steady_Stat p : steady (Stat p).
Proof. steady_call. Qed.
Lemma steady_ReadFile p : steady (ReadFile p).
Proof. steady_call. Qed.
Lemma steady_Rename old new : steady (Rename old new).
Proof. steady_call. Qed.
Lemma steady_FileSync : steady FileSync.
Proof. apply steady_syscall. by intros w. Qed.
Lemma steady_MkdirAll p : steady (MkdirAll p).
Proof. apply steady_syscall. intros w. cbn. split; [set_solver|done]. Qed.
Lemma steady_WriteFile p data : steady (WriteFile p data).
Proof.
  intros w. unfold WriteFile, mbind, M_bind, next_fault, get_world.
  destruct (wFaults w) as [|[] fs] eqn:E; case_decide; by split.
Qed.
Lemma steady_FileWrite p data : steady (FileWrite p data).
Proof.
  intros w. unfold FileWrite, mbind, M_bind, next_fault. destruct (wFaults w) as [|[] fs] eqn:E; by split.
Qed.
#[export] Hint Resolve steady_Stat steady_ReadFile steady_Rename steady_FileSync steady_MkdirAll steady_WriteFile
  steady_FileWrite : turns.

Record tame (P : path -> Prop) (h h' : host) : Prop := {
  tame_only : only P h h';
  tame_dirs : wDirs (hDisk h) ⊆ wDirs (hDisk h');
  tame_calm : wFaults (hDisk h) = [] -> wFaults (hDisk h') = [];
  tame_modes : forall q, ~ P q -> present h q -> hModes h' !! q = hModes h !! q }.

Lemma tame_present P h h' q : tame P h h' -> ~ P q -> present h q -> present h' q.
Proof. intros H Hq [Hd|Hf]; [left; by apply (tame_dirs _ _ _ H)|right]. by rewrite (tame_only _ _ _ H). Qed.
#[global] Instance tame_refl P : Reflexive (tame P).
Proof. intros h. by split. Qed.
#[global] Instance tame_trans P : Transitive (tame P).
Proof.
  intros h1 h2 h3 H1 H2. split.
  - exact (transitivity (tame_only _ _ _ H1) (tame_only _ _ _ H2)).
  - exact (transitivity (tame_dirs _ _ _ H1) (tame_dirs _ _ _ H2)).
  - intros H. by apply (tame_calm _ _ _ H2), (tame_calm _ _ _ H1).
  - intros q Hq Hp. rewrite (tame_modes _ _ _ H2) by eauto using tame_present. by apply (tame_modes _ _ _ H1).
Qed.
Lemma tame_weaken (P Q : path -> Prop) h h' : (forall p, P p -> Q p) -> tame P h h' -> tame Q h h'.
Proof.
  intros H Ht. split; [|apply Ht|apply Ht|]; intros q Hq; [apply (tame_only _ _ _ Ht)|apply (tame_modes _ _ _ Ht)]; naive_solver.
Qed.

Lemma tame_lift {A} (P : path -> Prop) (m : M A) : frame P m -> steady m -> turns (tame P) (lift m).
Proof.
  intros Hf Hs h. pose proof (only_lift P m Hf h) as Ho. specialize (Hs (hDisk h)). unfold lift in *.
  destruct (m (hDisk h)) as [r w]. cbn [snd] in *. split; [done|apply Hs|apply Hs|done].
Qed.
Lemma tame_say P s : turns (tame P) (say s).
Proof. by intros h. Qed.
Lemma tame_sayln P s : turns (tame P) (sayln s).
Proof. apply tame_say. Qed.

Section Tame.
Context (umask : Z).

Lemma new_modes_present h mode ps q m : present h q -> new_modes umask h mode ps m !! q = m !! q.
Proof.
  intros Hq. unfold new_modes. revert m. induction ps as [|p ps IH]; intros m; cbn [fold_left]; [done|]. rewrite IH.
  case_decide; [done|]. apply lookup_insert_ne. by intros ->.
Qed.

(** [m] ran from [h], then the modes were set. *)
Lemma tame_then_modes (P : path -> Prop) (m : W unit) (f : host -> gmap path Z -> gmap path Z) : turns (tame P) m ->
  (forall h, hModes (m h).2 = hModes h) ->
  (forall h q ms, ~ P q -> present h q -> f h ms !! q = ms !! q) -> turns (tame P) (h ← here; m ≫= fun _ => set_modes (f h)).
Proof.
  intros Hm Hsame Hf h. specialize (Hm h). specialize (Hsame h). unfold mbind, W_bind, here, set_modes.
  destruct (m h) as [[[]|e] h1]; cbn [snd] in *; [|done]. destruct Hm as [H1 H2 H3 H4]. split; [done..|].
  intros q Hq Hp. cbn [hModes]. by rewrite Hf, Hsame.
Qed.
Lemma modes_lift {A} (m : M A) h : hModes (lift m h).2 = hModes h.
Proof. unfold lift. by destruct (m (hDisk h)). Qed.

Lemma tame_mkdir (P : path -> Prop) p mode : turns (tame P) (mkdir_all umask p mode).
Proof.
  apply (tame_then_modes P (lift (MkdirAll p)) (fun h => new_modes umask h mode (prefixes p))); [..|intros; by apply new_modes_present].
  - apply tame_lift; auto with turns. apply frame_MkdirAll.
  - apply modes_lift.
Qed.
Lemma tame_create (P : path -> Prop) p mode : P p -> turns (tame P) (create umask p mode).
Proof.
  intros Hp. apply (tame_then_modes P (lift _) (fun h => new_modes umask h mode [p])); [..|intros; by apply new_modes_present].
  - apply tame_lift; [|steady_call]. apply frame_syscall_world. intros w q Hq. case_decide; [by apply (frame_store P)|done].
  - apply modes_lift.
Qed.
Lemma tame_chmod (P : path -> Prop) p mode : P p -> turns (tame P) (chmod p mode).
Proof.
  intros Hp. apply (tame_then_modes P (lift (Stat p)) (fun _ => insert p mode)).
  - apply tame_lift; auto with turns. apply frame_Stat.
  - apply modes_lift.
  - intros h q ms Hq _. apply lookup_insert_ne. by intros ->.
Qed.
Lemma tame_rename (P : path -> Prop) old new : P old -> P new -> turns (tame P) (rename old new).
Proof.
  intros Ho Hn. apply (tame_then_modes P (lift (Rename old new)) (fun _ m =>
    match m !! old with Some mode => <[new := mode]> (delete old m) | None => delete new (delete old m) end)).
  - apply tame_lift; auto with turns. by apply frame_Rename.
  - apply modes_lift.
  - intros h q ms Hq _. case_match; rewrite ?lookup_insert_ne, ?lookup_delete_ne by (by intros ->); rewrite ?lookup_delete_ne by (by intros ->); done.
Qed.
End Tame.

(** ** When every call works *)

Definition calm (h : host) : Prop := wFaults (hDisk h) = [].

Lemma lift_ok {A} (m : M A) h r w : m (hDisk h) = (r, w) -> lift m h = (r, mkHost w (hModes h) (hOut h)).
Proof. intros H. unfold lift. by rewrite H. Qed.
Lemma Stat_ok p h : calm h ->
  lift (Stat p) h = (if decide (present h p) then Ok tt else Err ENOENT, h).
Proof.
  intros Hc. destruct h as [w ms out]. erewrite lift_ok; [reflexivity|]. cbn [hDisk] in *. unfold Stat. rewrite syscall_ok by done.
  unfold mbind, M_bind, get_world, throw, present. cbn [hDisk].
  repeat case_decide; cbn; try tauto; destruct (wFiles w !! p) eqn:E; try done; exfalso; [|naive_solver].
  destruct H0 as [?|[? ?]]; [done|congruence].
Qed.

Section Calm.
Context (umask : Z).

Lemma calm_mkdir p mode h : calm h ->
  gives (mkdir_all umask p mode) h (fun r h' => r = Ok tt /\ tame (fun _ => False) h h' /\ p ∈ wDirs (hDisk h')).
Proof.
  intros Hc. pose proof (tame_mkdir umask (fun _ => False) p mode h) as Ht.
  unfold gives. cut ((mkdir_all umask p mode h).1 = Ok tt /\ p ∈ wDirs (hDisk (mkdir_all umask p mode h).2)); [tauto|].
  clear Ht. unfold mkdir_all, mbind, W_bind, here. erewrite lift_ok by (unfold MkdirAll; by rewrite syscall_ok).
  cbn. split; [done|]. apply elem_of_union_l, elem_of_list_to_set, elem_of_prefixes. done.
Qed.
Lemma calm_chmod p mode h : calm h -> present h p ->
  gives (chmod p mode) h (fun r h' => r = Ok tt /\ tame (eq p) h h' /\ hModes h' !! p = Some mode).
Proof.
  intros Hc Hp. pose proof (tame_chmod (eq p) p mode eq_refl h) as Ht. revert Ht.
  unfold gives, chmod, mbind, W_bind. rewrite Stat_ok, decide_True by done. cbn. intros Ht.
  split_and!; [done..|]. apply lookup_insert_eq.
Qed.

(** A whole file is written. *)
Lemma calm_write p data mode h : calm h -> parent p ∈ wDirs (hDisk h) ->
  gives (write_file umask p data mode) h (fun r h' => r = Ok tt /\ tame (eq p) h h' /\
    (exists f, wFiles (hDisk h') !! p = Some f /\ fData f = data) /\
    (~ present h p -> hModes h' !! p = Some (masked umask mode))).
Proof.
  intros Hc Hp. unfold gives, write_file, mbind, W_bind, here, attempt.
  rewrite (lift_ok _ _ _ _ (WriteFile_ok _ p data Hc Hp)).
  cbn [hDisk hModes hOut].
  match goal with |- context [decide (present ?h1 p)] =>
    rewrite (decide_True (P := present h1 p)) by (right; cbn [hDisk wFiles set_files]; rewrite lookup_insert_eq; by eexists) end.
  unfold mret, W_ret. cbn [set_modes new_modes fold_left fst snd hDisk hModes]. split_and!; [done| | |].
  - split.
    + intros q Hq. cbn. by rewrite lookup_insert_ne.
    + done.
    + done.
    + intros q Hq _. cbn [hModes]. case_decide; [done|]. by rewrite lookup_insert_ne.
  - eexists. cbn. by rewrite lookup_insert_eq.
  - intros Hn. rewrite decide_False by done. apply lookup_insert_eq.
Qed.
End Calm.

Lemma gives_and {A} R (m : W A) h (Q : result error A -> host -> Prop) :
  turns R m -> gives m h Q -> gives m h (fun r h' => Q r h' /\ R h h').
Proof. intros Hm HQ. split; [done|apply Hm]. Qed.
