(* ===== verification/Bootstrap.v ===== *)
(** * Provisioning and removal (internal/bootstrap, internal/paths)

    [verta --init] and [verta --purge], with the layout they create and
    remove.  The embedded default configuration, example domain file and
    systemd unit are arguments, as are the platform, the effective user, the
    running executable, systemctl and 32 random bytes. *)

From S2P Require Import Prelude GoStrings GoOS Host.
From S2P Require ConfigAudit Settings.

#[global] Open Scope Z_scope.

(** ** The layout (paths.go) *)

Definition ConfigDir : str := #"/etc/verta".
Definition ConfigFile : str := ConfigDir ++ #"/config.yaml".
Definition DomainsDir : str := ConfigDir ++ #"/domains".
Definition RunDir : str := #"/run/verta".
Definition Pidfile : str := RunDir ++ #"/verta.pid".
Definition Socket : str := RunDir ++ #"/verta.sock".
Definition Binary : str := #"/usr/sbin/verta".
Definition unitPath : str := #"/etc/systemd/system/verta.service".

(** Every directory with its mode: 0o750, and 0o700 for the keys. *)
Definition layout : list (str * Z) :=
  [(ConfigDir, 488); (DomainsDir, 488); (Settings.LogDir, 488); (Settings.StateDir, 488); (Settings.QueueDir, 488); (Settings.DKIMDir, 448)].
Definition examplePath : str := DomainsDir ++ #"/example.com.yaml.example".

(** [strings.Replace(s, old, new, 1)]. *)
Definition replace_one (old new s : str) : str :=
  match cut_str old s with
  | (before, after, true) => before ++ new ++ after
  | (_, _, false) => s
  end.

Section Bootstrap.
Context (windows : bool) (euid umask : Z) (Error : error -> str).
Context (defaultConfig exampleDomain Unit_ : str).
(** [os.Executable] with [filepath.EvalSymlinks], and [rand.Read]. *)
Context (Executable : result error path) (entropy : option (list Z)).
(** [exec.LookPath] and the run of [systemctl disable --now verta]: its
    error, or nothing. *)
Context (systemctl : option (W (option str))).

Definition hex_byte (b : Z) : str := [hex_digit (Z.to_N (b / 16)); hex_digit (Z.to_N (b mod 16))].
Definition randomSecret : str :=
  match entropy with
  | Some bytes => mjoin (map hex_byte bytes)
  | None => #"verta-srs-set-a-real-secret-in-config"
  end.

(** Whether [os.Stat] works, fails because nothing is there, or fails. *)
Definition found (p : path) : W (result error unit) := attempt (lift (Stat p)).

Definition make_dir (d : str * Z) : W unit :=
  mkdir_all umask (abs_path d.1) d.2 ≫= fun _ => chmod (abs_path d.1) d.2.

Definition EnsureLayout : W unit :=
  if windows then raise (ErrText #"the default layout is Linux-only; pass --config")
  else
    each layout make_dir ≫= fun _ =>
    r ← found (abs_path ConfigFile);
    match r with
    | Err e =>
        if IsNotExist e then
          write_file umask (abs_path ConfigFile) defaultConfig 416 ≫= fun _ =>
          sayln (#"verta: wrote default config to " ++ ConfigFile)
        else mret tt
    | Ok _ => mret tt
    end.

(** A directory of the layout, with a line if it was missing. *)
Definition provide (d : str * Z) : W unit :=
  r ← found (abs_path d.1);
  make_dir d ≫= fun _ =>
  match r with
  | Err e => if IsNotExist e then sayln (#"created " ++ d.1 ++ #" (mode " ++ ConfigAudit.octal4 d.2 ++ #")") else mret tt
  | Ok _ => mret tt
  end.

(** [m], and on an error the temporary file is removed. *)
Definition or_remove (tmp : path) (m : W unit) : W unit :=
  r ← attempt m;
  match r with
  | Ok _ => mret tt
  | Err e => attempt (remove tmp) ≫= fun _ => raise e
  end.

(** [io.Copy] of the file [self] to [dst]. *)
Definition copy (self dst : path) : W unit :=
  h ← here;
  match wFiles (hDisk h) !! self with
  | Some f => lift (FileWrite dst (fData f))
  | None => raise EIO
  end.

Definition installSelf : W unit :=
  match Executable with
  | Err e => raise (ErrWrap e)
  | Ok self =>
      if decide (self = abs_path Binary) then mret tt
      else
        let tmp := append_ext (abs_path Binary) #".new" in
        found self ≫= fun r =>
        match r with
        | Err e => raise (ErrWrap e)
        | Ok _ =>
            create umask tmp 493 ≫= fun _ =>
            or_remove tmp (copy self tmp) ≫= fun _ =>
            or_remove tmp (lift FileClose) ≫= fun _ =>
            or_remove tmp (chmod tmp 493) ≫= fun _ =>
            or_remove tmp (rename tmp (abs_path Binary)) ≫= fun _ =>
            sayln (#"installed " ++ Binary)
        end
  end.

Definition writeUnit (p data : str) : W unit :=
  r ← attempt (lift (ReadFile (abs_path p)));
  match r with
  | Ok existing =>
      if existing =s data then sayln (#"systemd unit " ++ p ++ #" is up to date")
      else write_file umask (abs_path p) data 420 ≫= fun _ =>
           sayln (#"installed systemd unit " ++ p ++ #" (run: systemctl daemon-reload)")
  | Err _ =>
      write_file umask (abs_path p) data 420 ≫= fun _ =>
      sayln (#"installed systemd unit " ++ p ++ #" (run: systemctl daemon-reload)")
  end.

Definition writeIfAbsent (p data : str) (mode : Z) : W unit :=
  r ← found (abs_path p);
  match r with
  | Ok _ => sayln (#"kept " ++ p ++ #" (already exists)")
  | Err _ => write_file umask (abs_path p) data mode ≫= fun _ => sayln (#"wrote " ++ p)
  end.

Definition empty_secret : str := #"srs_secret: " ++ [DQ; DQ].
Definition filled_secret : str := #"srs_secret: " ++ [DQ] ++ randomSecret ++ [DQ].
Definition first_config : str := replace_one empty_secret filled_secret defaultConfig.

Definition next_steps (version : str) : str :=
  join [LF]
    [[]; #"verta " ++ version ++ #" is provisioned. Next:"; [];
     #"  1. edit " ++ ConfigFile; #"       set server.hostname to the public name of this server"; [];
     #"  2. create your first domain"; #"       cp " ++ examplePath ++ #" " ++ DomainsDir ++ #"/example.com.yaml";
     #"       edit it: the file name is the domain name"; [];
     #"  3. add a mailbox password"; #"       verta --hash-password"; [];
     #"  4. obtain a wildcard certificate into /etc/letsencrypt/live/<domain>/"; [];
     #"  5. check and start"; #"       verta --check-config"; #"       systemctl daemon-reload";
     #"       systemctl enable --now verta"; #"       verta --status"; [];
     #"  6. verify the deployment"; #"       verta --audit"; #"       verta --security-check"; []].

Definition Init (version : str) : W unit :=
  if windows then raise (ErrText #"verta --init is Linux-only")
  else if negb (euid =? 0) then
    raise (ErrText (#"verta --init must run as root (it writes to " ++ ConfigDir ++ #" and " ++ Settings.StateDir ++ #")"))
  else
    each layout provide ≫= fun _ =>
    installSelf ≫= fun _ =>
    writeIfAbsent ConfigFile first_config 416 ≫= fun _ =>
    writeIfAbsent examplePath exampleDomain 416 ≫= fun _ =>
    writeUnit unitPath Unit_ ≫= fun _ =>
    say (next_steps version).

(** ** Removal *)

(** The service is stopped first; failures are printed. *)
Definition stopService : W unit :=
  match systemctl with
  | None => mret tt
  | Some run =>
      e ← run;
      match e with
      | Some err => sayln (#"note: systemctl [disable --now verta]: " ++ err)
      | None => sayln #"stopped and disabled the verta service"
      end
  end.

Definition targets : list str := [ConfigDir; Settings.LogDir; Settings.StateDir; unitPath].
Fixpoint present_targets (ts : list str) : W (list str) :=
  match ts with
  | [] => mret []
  | t :: ts =>
      r ← found (abs_path t);
      rest ← present_targets ts;
      mret (match r with Ok _ => t :: rest | Err _ => rest end)
  end.

Definition confirmation : str := #"purge verta".
(** [ReadString] up to the first line end, or all there is. *)
Definition first_line (input : str) : str := (cut LF input).1.1.

Definition announce (present : list str) : W unit :=
  sayln #"This will permanently delete:" ≫= fun _ =>
  each present (fun p => sayln (#"  " ++ p)) ≫= fun _ =>
  sayln (LF :: #"Including the DKIM private keys, the outbound queue and every") ≫= fun _ =>
  sayln #"learned spam corpus. Mailboxes outside these paths are NOT removed.".
Definition remove_target (p : str) : W unit :=
  r ← attempt (remove_all (abs_path p));
  match r with
  | Err e => raise (ErrWrap e)
  | Ok _ => sayln (#"removed " ++ p)
  end.
Definition remove_binary : W unit :=
  r ← found (abs_path Binary);
  match r with
  | Err _ => mret tt
  | Ok _ =>
      r ← attempt (remove (abs_path Binary));
      match r with
      | Err e => sayln (#"note: could not remove " ++ Binary ++ #": " ++ Error e)
      | Ok _ => sayln (#"removed " ++ Binary)
      end
  end.

(** The deletion itself, in the order of the code. *)
Definition remove_all_of (present : list str) : W unit :=
  stopService ≫= fun _ =>
  each present remove_target ≫= fun _ =>
  remove_binary ≫= fun _ =>
  sayln (LF :: #"verta removed.").

Definition Purge (assumeYes : bool) (input : str) : W unit :=
  if windows then raise (ErrText #"verta --purge is Linux-only")
  else if negb (euid =? 0) then raise (ErrText #"verta --purge must run as root")
  else
    present ← present_targets targets;
    match present with
    | [] => sayln #"nothing to remove"
    | _ =>
        announce present ≫= fun _ =>
        (if assumeYes then mret true
         else say (LF :: #"Type 'purge verta' to confirm: ") ≫= fun _ =>
              mret (trim_space (first_line input) =s confirmation)) ≫= fun confirmed : bool =>
        if confirmed then remove_all_of present else raise (ErrText #"aborted")
    end.
End Bootstrap.

(** ** What the commands may touch *)

Definition tmpBinary : path := append_ext (abs_path Binary) #".new".
(** The files that [Init] writes. *)
Definition installed (p : path) : Prop :=
  p = abs_path ConfigFile \/ p = abs_path examplePath \/ p = abs_path unitPath \/ p = abs_path Binary \/ p = tmpBinary.
(** The files that [Purge] removes. *)
Definition doomed (p : path) : Prop := p = abs_path Binary \/ exists t, t ∈ targets /\ abs_path t `prefix_of` p.

#[global] Opaque abs_path.

Section Safety.
Context (windows : bool) (euid umask : Z) (Error : error -> str).
Context (defaultConfig exampleDomain Unit_ : str).
Context (Executable : result error path) (entropy : option (list Z)) (systemctl : option (W (option str))).
Abbreviation Init := (Init windows euid umask defaultConfig exampleDomain Unit_ Executable entropy).
Abbreviation Purge := (Purge windows euid Error systemctl).
Abbreviation installSelf := (installSelf umask Executable).

Lemma only_found P p : turns (only P) (found p).
Proof. apply turns_attempt, only_lift, frame_Stat. Qed.
Lemma only_make_dir P d : turns (only P) (make_dir umask d).
Proof. unfold make_dir. auto with turns. Qed.
#[local] Hint Resolve only_found only_make_dir : turns.

Lemma only_provide P d : turns (only P) (provide umask d).
Proof. unfold provide. apply (turns_bind _); [auto with turns|intros r]. apply (turns_bind _); [auto with turns|intros _]. repeat case_match; auto with turns. Qed.
Lemma only_or_remove (P : path -> Prop) tmp m : P tmp -> turns (only P) m -> turns (only P) (or_remove tmp m).
Proof. intros Ht Hm. unfold or_remove. apply (turns_bind _); [auto with turns|intros []]; auto 7 with turns. Qed.
Lemma only_copy (P : path -> Prop) self tmp : P tmp -> turns (only P) (copy self tmp).
Proof.
  intros Ht. unfold copy. apply (turns_bind _); [auto with turns|intros h]. case_match; [|auto with turns].
  by apply only_lift, frame_FileWrite.
Qed.
Lemma only_installSelf (P : path -> Prop) : P (abs_path Binary) -> P tmpBinary -> turns (only P) installSelf.
Proof.
  intros Hb Ht. unfold Bootstrap.installSelf. destruct Executable as [self|e]; [|auto with turns]. case_decide; [auto with turns|].
  cbv zeta. fold tmpBinary. apply (turns_bind _); [auto with turns|]. intros []; [|auto with turns].
  repeat (apply (turns_bind _); [|intros _]); auto using only_or_remove, only_copy with turns.
  apply only_or_remove; [done|]. by apply only_lift, frame_FileSync.
Qed.
Lemma only_writeIfAbsent (P : path -> Prop) p data mode : P (abs_path p) -> turns (only P) (writeIfAbsent umask p data mode).
Proof. intros. unfold writeIfAbsent. apply (turns_bind _); [auto with turns|intros []]; auto with turns. Qed.
Lemma only_writeUnit (P : path -> Prop) p data : P (abs_path p) -> turns (only P) (writeUnit umask p data).
Proof.
  intros. unfold writeUnit. apply (turns_bind _); [apply turns_attempt, only_lift, frame_ReadFile|intros []]; [case_match|]; auto with turns.
Qed.

Lemma only_Init version : turns (only installed) (Init version).
Proof.
  unfold Bootstrap.Init. destruct windows; [auto with turns|]. destruct (negb _); [auto with turns|].
  apply (turns_bind _); [apply turns_each; auto using only_provide; apply _|intros _].
  apply (turns_bind _); [apply only_installSelf; unfold installed; auto 6|intros _].
  repeat (apply (turns_bind _); [first [apply only_writeIfAbsent|apply only_writeUnit]; unfold installed; auto 6|intros _]).
  auto with turns.
Qed.

(** ** The binary *)

(** The binary is as it was, or a complete copy of the running executable. *)
Definition old_or_new (h h' : host) : Prop :=
  wFiles (hDisk h') !! abs_path Binary = wFiles (hDisk h) !! abs_path Binary \/
  exists self f f', Executable = Ok self /\ wFiles (hDisk h) !! self = Some f /\
    wFiles (hDisk h') !! abs_path Binary = Some f' /\ fData f' = fData f.

Lemma gives_or_remove tmp m h (Q : result error unit -> host -> Prop) :
  gives m h (fun r h' => match r with
                        | Ok _ => Q (Ok tt) h'
                        | Err e => forall h'', only (eq tmp) h' h'' -> Q (Err e) h''
                        end) -> gives (or_remove tmp m) h Q.
Proof.
  intros Hm. apply gives_bind, gives_attempt. eapply gives_mono; [exact Hm|]. intros [[]|e] h' Hq; [done|].
  apply gives_bind, gives_attempt. eapply gives_leads; [by apply (only_remove (eq tmp))|]. intros r h'' Ho. by apply Hq.
Qed.

(** The temporary file holds all of the executable. *)
Definition copied (self : path) (h h' : host) : Prop :=
  exists f f', wFiles (hDisk h) !! self = Some f /\ wFiles (hDisk h') !! tmpBinary = Some f' /\ fData f' = fData f.

Lemma copied_same self h h1 h2 : only (fun _ => False) h1 h2 -> copied self h h1 -> copied self h h2.
Proof. intros Ho (f & f' & Hf & Hf' & Hd). exists f, f'. split_and!; [done| |done]. rewrite <- Hf'. apply Ho. tauto. Qed.
Lemma only_weaken (P Q : path -> Prop) h h' : (forall p, P p -> Q p) -> only P h h' -> only Q h h'.
Proof. intros H Ho q Hq. apply Ho. naive_solver. Qed.

Lemma gives_copy self h h0 : self <> tmpBinary -> only (eq tmpBinary) h h0 ->
  gives (copy self tmpBinary) h0 (fun r h' => only (eq tmpBinary) h h' /\ (r = Ok tt -> copied self h h')).
Proof.
  intros Hs Ho. apply gives_bind. unfold gives at 1. cbn [here fst snd].
  destruct (wFiles (hDisk h0) !! self) as [f|] eqn:Ef; [|done].
  assert (wFiles (hDisk h) !! self = Some f) as Hf by (rewrite <- Ef; symmetry; apply Ho; congruence).
  assert (forall x w', wFiles w' = <[tmpBinary := x]> (wFiles (hDisk h0)) ->
    only (eq tmpBinary) h (mkHost w' (hModes h0) (hOut h0))) as Hins.
  { intros x w' E q Hq. cbn [hDisk]. rewrite E, lookup_insert_ne by done. by apply Ho. }
  apply gives_lift, wp_FileWrite.
  - intros t w' E. split; [by eapply Hins|]. intros _. exists f. eexists. cbn [hDisk]. rewrite E, lookup_insert_eq. split_and!; by eauto.
  - intros e w' E. split; [|done]. intros q Hq. cbn [hDisk]. rewrite E. by apply Ho.
  - intros e n t w' E. split; [by eapply Hins|done].
Qed.

Lemma installSelf_atomic h : (forall self, Executable = Ok self -> self <> tmpBinary) ->
  gives installSelf h (fun _ h' => old_or_new h h').
Proof.
  intros Hself. unfold Bootstrap.installSelf. destruct Executable as [self|e] eqn:EX; [|by left]. case_decide as Hb; [by left|].
  specialize (Hself self eq_refl). cbv zeta. fold tmpBinary.
  assert (tmpBinary <> abs_path Binary) as Hne by (by apply append_ext_ne).
  assert (forall h', only (eq tmpBinary) h h' -> old_or_new h h') as Hkeep by (intros h' Ho; left; apply Ho; congruence).
  apply gives_bind. eapply gives_leads; [apply (only_found (eq tmpBinary))|]. intros [[[]|e]|e] h1 H1; [|by apply Hkeep..].
  apply gives_bind. eapply gives_leads; [by apply (only_create umask (eq tmpBinary))|]. intros [[]|e] h2 H2; [|apply Hkeep; exact (transitivity H1 H2)].
  apply gives_bind, gives_or_remove. eapply gives_mono; [apply (gives_copy self h); [done|exact (transitivity H1 H2)]|].
  intros [[]|e] h3 [H3 Hc]; [|intros h'' H4; apply Hkeep; exact (transitivity H3 H4)]. specialize (Hc eq_refl).
  apply gives_bind, gives_or_remove. eapply gives_leads; [apply (only_lift (fun _ => False)), frame_FileSync|].
  intros r h4 H4. apply (copied_same _ _ _ _ H4) in Hc. apply (only_weaken _ (eq tmpBinary)) in H4; [|by intros ? []].
  destruct r as [[]|e]; [|intros h'' H5; apply Hkeep; exact (transitivity H3 (transitivity H4 H5))].
  apply gives_bind, gives_or_remove. eapply gives_leads; [apply (only_chmod (fun _ => False))|].
  intros r h5 H5. apply (copied_same _ _ _ _ H5) in Hc. apply (only_weaken _ (eq tmpBinary)) in H5; [|by intros ? []].
  assert (only (eq tmpBinary) h h5) as Ho by exact (transitivity H3 (transitivity H4 H5)).
  destruct r as [[]|e]; [|intros h'' H6; apply Hkeep; exact (transitivity Ho H6)].
  apply gives_bind, gives_or_remove, gives_bind, gives_lift, wp_Rename.
  - intros e w' E h'' H6. apply Hkeep. refine (transitivity _ H6). intros q Hq. cbn [hDisk]. rewrite E. by apply Ho.
  - intros x w' Ex E. unfold gives at 1. cbn [set_modes fst snd]. apply gives_say. right. destruct Hc as (f & f' & Hf & Hf' & Hd). exists self, f, f'.
    split_and!; [done..| |done]. cbn [hDisk]. rewrite E, lookup_insert_eq. congruence.
Qed.

(** ** Provisioning and removal, whatever fails *)

(** The machine as [systemctl] leaves it. *)
Definition after_systemctl (h : host) : host := match systemctl with Some run => (run h).2 | None => h end.
(** Files are gone or as they were. *)
Definition fewer (h h' : host) : Prop :=
  forall p, wFiles (hDisk h') !! p = None \/ wFiles (hDisk h') !! p = wFiles (hDisk h) !! p.
#[global] Instance fewer_refl : Reflexive fewer.
Proof. intros h p. by right. Qed.
#[global] Instance fewer_trans : Transitive fewer.
Proof. intros h1 h2 h3 H1 H2 p. destruct (H2 p) as [->| ->]; auto. Qed.
(** Nothing is left under [t]. *)
Definition emptied (h : host) (t : str) : Prop := forall p, abs_path t `prefix_of` p -> wFiles (hDisk h) !! p = None.
Lemma fewer_emptied h h' t : fewer h h' -> emptied h t -> emptied h' t.
Proof. intros Hf He p Hp. destruct (Hf p) as [->| ->]; auto. Qed.

Lemma fewer_say x : turns fewer (say x).
Proof. intros h p. by right. Qed.
Lemma remove_all_fewer t h : gives (remove_all (abs_path t)) h (fun r h' => fewer h h' /\ (is_ok r = true -> emptied h' t)).
Proof.
  unfold remove_all, gives, mbind, W_bind, lift, RemoveAll, syscall, mbind, M_bind, next_fault, modify, throw, set_modes.
  assert (forall w m o, wFiles w = filter (fun kv => ~ abs_path t `prefix_of` kv.1) (wFiles (hDisk h)) ->
    fewer h (mkHost w m o) /\ emptied (mkHost w m o) t) as H.
  { intros w m o E. split; intros p; cbn [hDisk]; rewrite E.
    - destruct (wFiles (hDisk h) !! p) as [x|] eqn:Ep; [|left; apply map_lookup_filter_None; by left].
      destruct (decide (abs_path t `prefix_of` p)) as [Hp|Hp].
      + left. apply map_lookup_filter_None. right. intros y _ Hn. by apply Hn.
      + right. by apply map_lookup_filter_Some.
    - intros Hp. apply map_lookup_filter_None. right. intros y _ Hn. by apply Hn. }
  destruct (wFaults (hDisk h)) as [|[] fs]; cbn; try (split; [intros p; by right|done]);
    (split; [by apply H|intros _; by apply H]).
Qed.
Lemma remove_binary_fewer : turns fewer (remove_binary Error).
Proof.
  assert (forall b, turns fewer (remove b)) as Hr.
  { intros b. apply (turns_bind _); [|intros _ h p; by right]. intros h p.
    unfold lift, GoOS.Remove, syscall, mbind, M_bind, next_fault, get_world, modify, throw.
    destruct (wFaults (hDisk h)) as [|[] fs]; cbn; try by right.
    all: destruct (wFiles (hDisk h) !! b); cbn; [|by right].
    all: destruct (decide (b = p)) as [<-|Hp]; [left; apply lookup_delete_eq|right; by apply lookup_delete_ne]. }
  assert (turns fewer (found (abs_path Binary))) as Hf.
  { intros h p. right. pose proof (only_found (fun _ => False) (abs_path Binary) h) as H. apply H. tauto. }
  apply (turns_bind _); [done|intros []; [|apply (turns_ret _)]].
  apply (turns_bind _); [by apply turns_attempt, Hr|intros []; apply fewer_say].
Qed.
Lemma only_remove_binary : turns (only doomed) (remove_binary Error).
Proof.
  unfold remove_binary. apply (turns_bind _); [auto with turns|intros []; [|auto with turns]].
  apply (turns_bind _); [|intros []; auto with turns]. apply turns_attempt, only_remove. by left.
Qed.

(** The targets: only they change, and if all goes well nothing is left
    under them. *)
Lemma each_removed present : present ⊆ targets -> forall h,
  gives (each present remove_target) h (fun r h' => only doomed h h' /\ fewer h h' /\
    (r = Ok tt -> Forall (emptied h') present)).
Proof.
  induction present as [|t l IH]; intros Hp h; cbn [each]; [by apply gives_ret|].
  apply gives_bind, gives_bind, gives_attempt. eapply gives_mono.
  { apply (gives_and (only doomed)); [|apply remove_all_fewer]. apply only_remove_all.
    intros q Hq. right. exists t. split; [apply Hp; by left|done]. }
  intros r h1 [[Hf1 He] Ho1]. destruct r as [[]|e]; [|by apply gives_raise].
  apply gives_say. eapply gives_mono; [apply IH; intros x Hx; apply Hp; by right|].
  intros r h2 (Ho2 & Hf2 & Ha).
  assert (fewer h1 h2) as Hf by exact Hf2.
  split; [exact (transitivity Ho1 Ho2)|]. split; [exact (transitivity Hf1 Hf)|].
  intros Hr. constructor; [|by apply Ha]. exact (fewer_emptied _ _ _ Hf (He eq_refl)).
Qed.

Lemma stopService_files h : wFiles (hDisk (stopService systemctl h).2) = wFiles (hDisk (after_systemctl h)).
Proof.
  unfold stopService, after_systemctl. destruct systemctl as [run|]; [|done].
  unfold mbind, W_bind. by destruct (run h) as [[[]|] h1].
Qed.
Lemma remove_all_of_spec present h : present ⊆ targets ->
  gives (remove_all_of Error systemctl present) h (fun r h' =>
    only doomed (after_systemctl h) h' /\ (r = Ok tt -> Forall (emptied h') present)).
Proof.
  intros Hp. assert (forall h', wFiles (hDisk h') = wFiles (hDisk (after_systemctl h)) -> only doomed (after_systemctl h) h') as Hs.
  { intros h' E q _. by rewrite E. }
  pose proof (Hs _ (stopService_files h)) as H1. unfold remove_all_of. apply gives_bind. unfold gives at 1.
  destruct (stopService systemctl h) as [[[]|e] h1]; cbn [fst snd] in *; [|done].
  apply gives_bind. eapply gives_mono; [by apply each_removed|]. intros [[]|e] h2 (Ho & _ & Ha).
  2:{ split; [exact (transitivity H1 Ho)|done]. }
  apply gives_bind. eapply gives_mono.
  { apply (gives_and (only doomed) _ _ (fun _ h => fewer h2 h)); [apply only_remove_binary|apply remove_binary_fewer]. }
  intros r h3 [Hf H3]. specialize (Ha eq_refl).
  assert (Forall (emptied h3) present) as Ha3 by (eapply Forall_impl; [done|intros t; by apply fewer_emptied]).
  pose proof (transitivity H1 (transitivity Ho H3)) as H. destruct r as [[]|e]; by split.
Qed.

(** Nothing on the disk changes. *)
Definition same_machine (h h' : host) : Prop :=
  wFiles (hDisk h') = wFiles (hDisk h) /\ wDirs (hDisk h') = wDirs (hDisk h) /\ hModes h' = hModes h.
#[global] Instance same_machine_refl : Reflexive same_machine.
Proof. done. Qed.
#[global] Instance same_machine_trans : Transitive same_machine.
Proof. unfold same_machine. intros h1 h2 h3. intuition congruence. Qed.

Lemma same_Stat p : turns same_machine (lift (Stat p)).
Proof.
  intros h. unfold lift, Stat, syscall, mbind, M_bind, next_fault, get_world, throw.
  destruct (wFaults (hDisk h)) as [|[] fs] eqn:E; cbn; try done; (case_decide; [done|]); by destruct (wFiles (hDisk h) !! p).
Qed.
Lemma present_targets_spec ts h :
  gives (present_targets ts) h (fun r h' => same_machine h h' /\ exists l, r = Ok l /\ l ⊆ ts).
Proof.
  revert h. induction ts as [|t ts IH]; intros h; cbn [present_targets].
  { apply gives_ret. split; [done|]. by exists []. }
  apply gives_bind. apply gives_attempt. eapply gives_leads; [apply same_Stat|]. intros r h1 H1. apply gives_bind. eapply gives_mono; [apply IH|]. intros ? h2 (H2 & l & -> & Hl).
  apply gives_ret. split; [by etransitivity|]. eexists. split; [done|]. destruct r; set_solver.
Qed.
Lemma same_announce l : turns same_machine (announce l).
Proof.
  assert (forall s, turns same_machine (sayln s)) as Hs by (by intros s h).
  unfold announce. repeat (apply (turns_bind _); [|intros _]); auto. apply turns_each; [apply _..|auto].
Qed.

(** The files written after the binary. *)
Definition written_after (p : path) : Prop := p = abs_path ConfigFile \/ p = abs_path examplePath \/ p = abs_path unitPath.
Lemma binary_not_after : ~ written_after (abs_path Binary).
Proof. apply (bool_decide_unpack _). vm_compute. exact I. Qed.

Lemma only_written (version : str) :
  turns (only written_after)
    (writeIfAbsent umask ConfigFile (first_config defaultConfig entropy) 416 ≫= fun _ =>
     writeIfAbsent umask examplePath exampleDomain 416 ≫= fun _ =>
     writeUnit umask unitPath Unit_ ≫= fun _ => say (next_steps version)).
Proof.
  unfold written_after.
  repeat (apply (turns_bind _); [first [apply only_writeIfAbsent|apply only_writeUnit]; auto|intros _]). auto with turns.
Qed.

(** C13. Whoever runs [--init], on whatever platform, and whichever calls fail: no
    file is changed but those that [Init] installs, and the binary is as it
    was or a complete copy of the running executable. *)
Theorem Init_safe version h :
  (forall self, Executable = Ok self -> self <> tmpBinary) ->
  let h' := (Init version h).2 in
  (forall p, ~ installed p -> wFiles (hDisk h') !! p = wFiles (hDisk h) !! p) /\ old_or_new h h'.
Proof.
  clear Error systemctl. intros Hself h'. split; [apply only_Init|]. subst h'.
  change (gives (Init version) h (fun _ h' => old_or_new h h')).
  unfold Bootstrap.Init. destruct windows; [by left|]. destruct (negb _); [by left|].
  apply gives_bind. eapply (gives_leads (only (fun _ => False))); [apply turns_each; auto using only_provide; apply _|].
  intros r h1 H1. destruct r as [[]|e]; [|left; apply H1; tauto].
  apply gives_bind. eapply gives_mono; [by apply installSelf_atomic|]. intros r h2 H2.
  assert (forall h3, only written_after h2 h3 -> old_or_new h h3) as Hrest.
  { intros h3 H3. unfold old_or_new. rewrite (H3 _ binary_not_after).
    destruct H2 as [H2|(self & f & f' & Hx & Hf & Hf' & Hd)]; [left; rewrite H2; apply H1; tauto|].
    right. exists self, f, f'. split_and!; [done| |done..]. rewrite <- Hf. symmetry. apply H1. tauto. }
  destruct r as [[]|e]; [|by apply Hrest]. eapply gives_leads; [apply only_written|]. intros r h3 H3. by apply Hrest.
Qed.

(** C14. Whoever runs [--purge] and whichever calls fail.  Either the disk is
    as it was, or root on Linux asked for it with [--yes] or typed the
    confirmation in full; then only what Verta owns is removed (what
    [systemctl] does to the disk in between is its own affair), and a purge
    that reports success has left nothing under the directories it found. *)
Theorem Purge_safe assumeYes input h :
  let '(r, h') := Purge assumeYes input h in
  same_machine h h' \/
  (windows = false /\ euid = 0 /\ (assumeYes = true \/ trim_space (first_line input) = confirmation) /\
   exists h1, same_machine h h1 /\ only doomed (after_systemctl h1) h' /\
     (r = Ok tt -> forall found t, (present_targets targets h).1 = Ok found -> t ∈ found -> emptied h' t)).
Proof.
  cut (gives (Purge assumeYes input) h (fun r h' => same_machine h h' \/
    (windows = false /\ euid = 0 /\ (assumeYes = true \/ trim_space (first_line input) = confirmation) /\
     exists h1, same_machine h h1 /\ only doomed (after_systemctl h1) h' /\
       (r = Ok tt -> forall found t, (present_targets targets h).1 = Ok found -> t ∈ found -> emptied h' t)))).
  { unfold gives. by destruct (Purge assumeYes input h). }
  unfold Bootstrap.Purge. destruct windows; [by left|]. destruct (Z.eqb_spec euid 0) as [E|]; cbn [negb]; [|by left].
  apply gives_bind. pose proof (present_targets_spec targets h) as Hpt. unfold gives at 1.
  unfold gives in Hpt. destruct (present_targets targets h) as [r h1]. cbn [fst snd] in *.
  destruct Hpt as (H1 & l & -> & Hl).
  assert (forall h2, same_machine h1 h2 -> same_machine h h2) as H12 by (intros; by etransitivity).
  destruct l as [|t l]; [apply gives_say; left; auto using H12|].
  apply gives_bind. eapply gives_leads; [apply same_announce|]. intros r h2 H2%H12. destruct r as [[]|e]; [|by left].
  apply gives_bind. eapply (gives_mono _ _ (fun r h3 => same_machine h h3 /\ exists b, r = Ok b /\
    (b = true -> assumeYes = true \/ trim_space (first_line input) = confirmation))).
  { destruct assumeYes; [apply gives_ret; eauto|]. apply gives_bind, gives_say, gives_ret.
    split; [exact (transitivity H2 (reflexivity h2))|]. eexists. split; [done|]. intros Hb. right. by apply str_eqb_eq in Hb. }
  intros ? h3 (H3 & b & -> & Hb). destruct b; [|apply gives_raise; by left].
  eapply gives_mono; [by apply remove_all_of_spec|]. intros r h4 [H4 He]. right. split_and!; auto.
  exists h3. split_and!; [done..|]. intros Hr found t' [= <-] Hin. specialize (He Hr). rewrite Forall_forall in He. by apply He.
Qed.
End Safety.

(** ** A first run when every call works *)

Definition holds_data (h : host) (p : path) (data : str) : Prop :=
  exists f, wFiles (hDisk h) !! p = Some f /\ fData f = data.
Definition in_place (h : host) (d : str * Z) : Prop :=
  abs_path d.1 ∈ wDirs (hDisk h) /\ hModes h !! abs_path d.1 = Some d.2.
Definition layout_paths (ds : list (str * Z)) : list path := map (fun d => abs_path d.1) ds.

Lemma tame_holds P h h' p data : tame P h h' -> ~ P p -> holds_data h p data -> holds_data h' p data.
Proof. intros Ht Hp (f & Hf & Hd). exists f. split; [|done]. by rewrite (tame_only _ _ _ Ht). Qed.
Lemma tame_in_place P h h' d : tame P h h' -> ~ P (abs_path d.1) -> in_place h d -> in_place h' d.
Proof.
  intros Ht Hp [Hd Hm]. split; [by apply (tame_dirs _ _ _ Ht)|].
  rewrite (tame_modes _ _ _ Ht) by (try done; by left). done.
Qed.

Section Provision.
Context (umask : Z).

Lemma calm_found p h : calm h -> found p h = (Ok (if decide (present h p) then Ok tt else Err ENOENT), h).
Proof. intros Hc. unfold found, attempt. by rewrite Stat_ok. Qed.

Lemma calm_make_dir d h : calm h ->
  gives (make_dir umask d) h (fun r h' => r = Ok tt /\ tame (eq (abs_path d.1)) h h' /\ in_place h' d).
Proof.
  intros Hc. apply gives_bind. eapply gives_mono; [by apply calm_mkdir|]. intros ? h1 (-> & H1 & Hd).
  apply (tame_weaken _ (eq (abs_path d.1))) in H1; [|by intros ? []].
  eapply gives_mono; [apply calm_chmod; [by apply H1|by left]|]. intros ? h2 (-> & H2 & Hm).
  split_and!; [done|exact (transitivity H1 H2)|]. split; [by apply (tame_dirs _ _ _ H2)|done].
Qed.
Lemma calm_provide d h : calm h ->
  gives (provide umask d) h (fun r h' => r = Ok tt /\ tame (eq (abs_path d.1)) h h' /\ in_place h' d).
Proof.
  intros Hc. apply gives_bind. unfold gives at 1. rewrite calm_found by done. cbn [fst snd].
  apply gives_bind. eapply gives_mono; [by apply calm_make_dir|]. intros ? h1 (-> & H1 & Hd).
  case_decide; [by apply gives_ret; auto|]. cbn [IsNotExist]. apply gives_say.
  split_and!; [done|exact (transitivity H1 (tame_say _ _ h1))|done].
Qed.

Lemma calm_layout ds h : NoDup (layout_paths ds) -> calm h ->
  gives (each ds (provide umask)) h (fun r h' => r = Ok tt /\
    (tame (fun q => q ∈ layout_paths ds) h h' /\ only (fun _ => False) h h') /\ Forall (in_place h') ds).
Proof.
  intros Hnd Hc. cut (gives (each ds (provide umask)) h (fun r h' => (r = Ok tt /\
    tame (fun q => q ∈ layout_paths ds) h h' /\ Forall (in_place h') ds) /\ only (fun _ => False) h h')).
  { intros H. eapply gives_mono; [exact H|]. intros r h' ((? & ? & ?) & ?). auto. }
  apply gives_and; [apply turns_each; auto using only_provide; apply _|].
  revert h Hc. induction ds as [|d ds IH]; intros h Hc; cbn [each]; [by apply gives_ret; auto|].
  apply NoDup_cons in Hnd as [Hd Hnd]. apply gives_bind. eapply gives_mono; [by apply calm_provide|].
  intros ? h1 (-> & H1 & Hp). eapply gives_mono; [apply IH; [done|by apply H1]|]. intros ? h2 (-> & H2 & Hf).
  split_and!; [done| |].
  - apply (tame_weaken _ (fun q => q ∈ layout_paths (d :: ds))) in H1, H2.
    + exact (transitivity H1 H2).
    + intros q Hq. by right.
    + intros q <-. left.
  - constructor; [|done]. by eapply tame_in_place.
Qed.

(** The executable is copied, unless it runs from its place. *)
Lemma calm_copy self dst f h : calm h -> wFiles (hDisk h) !! self = Some f ->
  gives (copy self dst) h (fun r h' => r = Ok tt /\ tame (eq dst) h h' /\ holds_data h' dst (fData f)).
Proof.
  intros Hc Hf. unfold gives, copy, mbind, W_bind, here. rewrite Hf.
  pose proof (tame_lift (eq dst) (FileWrite dst (fData f)) (frame_FileWrite _ _ _ eq_refl) (steady_FileWrite _ _) h) as Ht.
  revert Ht. erewrite lift_ok by (unfold FileWrite, mbind, M_bind, next_fault; rewrite Hc; reflexivity). intros Ht.
  split_and!; [done..|]. eexists. cbn. by rewrite lookup_insert_eq.
Qed.
Lemma calm_create p mode h : calm h -> parent p ∈ wDirs (hDisk h) ->
  gives (create umask p mode) h (fun r h' => r = Ok tt /\ tame (eq p) h h' /\ holds_data h' p []).
Proof.
  intros Hc Hp. pose proof (tame_create umask (eq p) p mode eq_refl h) as Ht. revert Ht.
  unfold gives, create, mbind, W_bind, here. erewrite lift_ok; [|by rewrite syscall_ok; [|done]; unfold M_bind, get_world; rewrite decide_True].
  cbn. intros Ht. split_and!; [done..|]. eexists. cbn. by rewrite lookup_insert_eq.
Qed.
Lemma calm_rename old new data h : calm h -> old <> new -> parent new ∈ wDirs (hDisk h) -> holds_data h old data ->
  gives (rename old new) h (fun r h' => r = Ok tt /\ tame (fun q => q = old \/ q = new) h h' /\ holds_data h' new data).
Proof.
  intros Hc Hne Hp (f & Hf & Hd).
  pose proof (tame_rename (fun q => q = old \/ q = new) old new (or_introl eq_refl) (or_intror eq_refl) h) as Ht. revert Ht.
  unfold gives, rename, mbind, W_bind. rewrite (lift_ok _ _ _ _ (Rename_ok _ _ _ f Hc Hf Hp)). cbn [set_modes fst snd]. intros Ht.
  split_and!; [done..|]. exists f. split; [apply lookup_insert_eq|done].
Qed.
Lemma calm_or_remove tmp m h (Q : host -> Prop) :
  gives m h (fun r h' => r = Ok tt /\ Q h') -> gives (or_remove tmp m) h (fun r h' => r = Ok tt /\ Q h').
Proof.
  intros Hm. apply gives_bind, gives_attempt. eapply gives_mono; [exact Hm|]. intros ? h' [-> HQ]. by apply gives_ret.
Qed.

Lemma calm_close h : calm h ->
  gives (lift FileClose) h (fun r h' => r = Ok tt /\ tame (fun _ => False) h h').
Proof.
  intros Hc. pose proof (tame_lift (fun _ => False) FileClose (frame_FileSync _) steady_FileSync h) as Ht. revert Ht.
  unfold gives. erewrite lift_ok by (unfold FileClose; by rewrite syscall_ok). by intros Ht.
Qed.
Lemma only_holds P h h' p data : only P h h' -> ~ P p -> holds_data h p data -> holds_data h' p data.
Proof. intros Ho Hp (f & Hf & Hd). exists f. split; [|done]. by rewrite Ho. Qed.

(** The files of [installSelf]. *)
Definition installing (p : path) : Prop := p = tmpBinary \/ p = abs_path Binary.
Lemma tmpBinary_ne : tmpBinary <> abs_path Binary.
Proof. by apply append_ext_ne. Qed.
Lemma parent_tmpBinary : parent tmpBinary = parent (abs_path Binary).
Proof. by vm_compute. Qed.

Lemma calm_installSelf self f h : calm h -> self <> tmpBinary -> parent (abs_path Binary) ∈ wDirs (hDisk h) ->
  wFiles (hDisk h) !! self = Some f ->
  gives (installSelf umask (Ok self)) h (fun r h' => r = Ok tt /\ tame installing h h' /\ holds_data h' (abs_path Binary) (fData f)).
Proof.
  intros Hc Hs Hp Hf. unfold installSelf. case_decide as Hb.
  { apply gives_ret. split_and!; [done..|]. exists f. by rewrite <- Hb. }
  cbv zeta. fold tmpBinary. apply gives_bind. unfold gives at 1. rewrite calm_found by done. cbn [fst snd].
  rewrite decide_True by (right; by eexists).
  apply gives_bind. eapply gives_mono; [apply calm_create; [done|by rewrite parent_tmpBinary]|]. intros ? h1 (-> & H1 & _).
  apply gives_bind. eapply gives_mono; [apply calm_or_remove, (calm_copy self _ f); [by apply H1|by rewrite (tame_only _ _ _ H1)]|].
  intros ? h2 (-> & H2 & Hd).
  apply gives_bind. eapply gives_mono; [apply calm_or_remove, calm_close; by apply H2, H1|]. intros ? h3 (-> & H3).
  apply (tame_holds _ _ _ _ _ H3) in Hd; [|tauto]. apply (tame_weaken _ (eq tmpBinary)) in H3; [|by intros ? []].
  assert (tame (eq tmpBinary) h h3) as H03 by exact (transitivity H1 (transitivity H2 H3)).
  apply gives_bind. eapply gives_mono.
  { apply (calm_or_remove _ _ _ (fun h4 => tame (eq tmpBinary) h3 h4 /\ only (fun _ => False) h3 h4)).
    eapply gives_mono; [apply (gives_and (only (fun _ => False))); [apply only_chmod|apply calm_chmod; [by apply H03|]]|].
    - right. destruct Hd as (x & -> & _). by eexists.
    - intros r h4 ((-> & ? & _) & ?). auto. }
  intros ? h4 (-> & H4 & Ho). apply (only_holds _ _ _ _ _ Ho) in Hd; [|tauto].
  assert (tame (eq tmpBinary) h h4) as H04 by exact (transitivity H03 H4).
  apply gives_bind. eapply gives_mono; [apply calm_or_remove, (calm_rename _ _ (fData f))|].
  - by apply H04.
  - apply tmpBinary_ne.
  - by apply (tame_dirs _ _ _ H04).
  - done.
  - intros ? h5 (-> & H5 & Hd5). apply gives_say. split_and!; [done| |done].
    apply (tame_weaken _ installing) in H04; [|intros q <-; by left].
    exact (transitivity H04 (transitivity H5 (tame_say _ _ h5))).
Qed.

(** The configuration is kept, or written when there is none. *)
Lemma calm_writeIfAbsent p data mode h : calm h -> parent (abs_path p) ∈ wDirs (hDisk h) ->
  gives (writeIfAbsent umask p data mode) h (fun r h' => r = Ok tt /\ tame (eq (abs_path p)) h h' /\
    (present h (abs_path p) -> wFiles (hDisk h') !! abs_path p = wFiles (hDisk h) !! abs_path p) /\
    (~ present h (abs_path p) -> holds_data h' (abs_path p) data /\ hModes h' !! abs_path p = Some (masked umask mode))).
Proof.
  intros Hc Hp. apply gives_bind. unfold gives at 1. rewrite calm_found by done. cbn [fst snd]. case_decide as Hpr.
  { apply gives_say. split_and!; [done|apply (tame_say _ _ h)|done|done]. }
  apply gives_bind. eapply gives_mono; [by apply calm_write|]. intros ? h1 (-> & H1 & Hd & Hm). apply gives_say.
  split_and!; [done|exact (transitivity H1 (tame_say _ _ h1))|done|]. intros _. split; [done|by apply Hm].
Qed.
Lemma calm_writeUnit p data h : calm h -> parent (abs_path p) ∈ wDirs (hDisk h) ->
  gives (writeUnit umask p data) h (fun r h' => r = Ok tt /\ tame (eq (abs_path p)) h h' /\ holds_data h' (abs_path p) data).
Proof.
  intros Hc Hp.
  assert (gives (write_file umask (abs_path p) data 420 ≫= fun _ =>
      sayln (#"installed systemd unit " ++ p ++ #" (run: systemctl daemon-reload)")) h
      (fun r h' => r = Ok tt /\ tame (eq (abs_path p)) h h' /\ holds_data h' (abs_path p) data)) as Hw.
  { apply gives_bind. eapply gives_mono; [by apply calm_write|]. intros ? h1 (-> & H1 & Hd & _). apply gives_say.
    split_and!; [done|exact (transitivity H1 (tame_say _ _ h1))|done]. }
  apply gives_bind, gives_attempt. unfold gives at 1.
  unfold lift, ReadFile. rewrite syscall_ok by done. unfold mbind, M_bind, get_world, throw.
  destruct h as [w ms out]. cbn [hDisk hModes hOut] in *. destruct (wFiles w !! abs_path p) as [x|] eqn:Ex; [|exact Hw]. cbn [fst snd mret M_ret].
  destruct (str_eqb_spec (fData x) data) as [Heq|_]; [|exact Hw]. apply gives_say.
  split_and!; [done|apply (tame_say _ _ (mkHost w ms out))|by exists x].
Qed.
End Provision.

(** ** No directory where a file belongs *)

(** No directory appears at [c]. *)
Definition unborn (c : path) (h h' : host) : Prop := c ∈ wDirs (hDisk h') -> c ∈ wDirs (hDisk h).
#[global] Instance unborn_refl c : Reflexive (unborn c).
Proof. intros h Hc. exact Hc. Qed.
#[global] Instance unborn_trans c : Transitive (unborn c).
Proof. unfold unborn. intros h1 h2 h3. auto. Qed.

Section Unborn.
Context (umask : Z) (c : path).

Lemma unborn_lift {A} (m : M A) : (forall w, c ∈ wDirs (m w).2 -> c ∈ wDirs w) -> turns (unborn c) (lift m).
Proof. intros Hm h. specialize (Hm (hDisk h)). unfold lift, unborn. by destruct (m (hDisk h)). Qed.
Lemma unborn_syscall {A} (m : M A) : (forall w, c ∈ wDirs (m w).2 -> c ∈ wDirs w) -> turns (unborn c) (lift (syscall m)).
Proof.
  intros Hm. apply unborn_lift. intros w. unfold syscall, mbind, M_bind, next_fault, throw.
  destruct (wFaults w) as [|[] fs]; cbn [snd wDirs set_faults]; try done; [apply Hm|apply (Hm (set_faults fs w))].
Qed.
Lemma unborn_modes f : turns (unborn c) (set_modes f).
Proof. intros h Hc. exact Hc. Qed.
Lemma unborn_say s : turns (unborn c) (say s).
Proof. intros h Hc. exact Hc. Qed.
Lemma unborn_Stat p : turns (unborn c) (lift (Stat p)).
Proof. apply unborn_syscall. intros w. unfold mbind, M_bind, get_world, throw. case_decide; [done|]. by destruct (wFiles w !! p). Qed.
Lemma unborn_chmod p mode : turns (unborn c) (chmod p mode).
Proof. apply (turns_bind _); [apply unborn_Stat|intros _; apply unborn_modes]. Qed.
Lemma unborn_remove p : turns (unborn c) (remove p).
Proof.
  apply (turns_bind _); [|intros _; apply unborn_modes]. apply unborn_syscall. intros w.
  unfold mbind, M_bind, get_world, throw. by destruct (wFiles w !! p).
Qed.
Lemma unborn_rename old new : turns (unborn c) (rename old new).
Proof.
  apply (turns_bind _); [|intros _; apply unborn_modes]. apply unborn_syscall. intros w.
  unfold mbind, M_bind, get_world, throw. destruct (wFiles w !! old); [|done]. by case_decide.
Qed.
Lemma unborn_create p mode : turns (unborn c) (create umask p mode).
Proof.
  apply (turns_bind _); [apply (turns_here _)|intros h]. apply (turns_bind _); [|intros _; apply unborn_modes].
  apply unborn_syscall. intros w. unfold mbind, M_bind, get_world, throw. by case_decide.
Qed.
Lemma unborn_mkdir p mode : c ∉ prefixes p -> turns (unborn c) (mkdir_all umask p mode).
Proof.
  intros Hp. apply (turns_bind _); [apply (turns_here _)|intros h]. apply (turns_bind _); [|intros _; apply unborn_modes].
  apply unborn_syscall. intros w. cbn. rewrite elem_of_union, elem_of_list_to_set. tauto.
Qed.
Lemma unborn_or_remove tmp m : turns (unborn c) m -> turns (unborn c) (or_remove tmp m).
Proof.
  intros Hm. apply (turns_bind _); [by apply turns_attempt|]. intros []; [apply (turns_ret _)|].
  apply (turns_bind _); [apply turns_attempt, unborn_remove|intros _; apply (turns_raise _)].
Qed.
Lemma unborn_copy self dst : turns (unborn c) (copy self dst).
Proof.
  apply (turns_bind _); [apply (turns_here _)|intros h]. case_match; [|apply (turns_raise _)].
  apply unborn_lift. intros w. unfold FileWrite, mbind, M_bind, next_fault. by destruct (wFaults w) as [|[] fs].
Qed.
Lemma unborn_provide d : c ∉ prefixes (abs_path d.1) -> turns (unborn c) (provide umask d).
Proof.
  intros Hd. apply (turns_bind _); [apply turns_attempt, unborn_Stat|intros r].
  apply (turns_bind _); [apply (turns_bind _); [by apply unborn_mkdir|intros _; apply unborn_chmod]|intros _].
  destruct r; [apply (turns_ret _)|]. case_match; [apply unborn_say|apply (turns_ret _)].
Qed.
Lemma unborn_installSelf Executable : turns (unborn c) (installSelf umask Executable).
Proof.
  unfold installSelf. destruct Executable; [|apply (turns_raise _)]. case_decide; [apply (turns_ret _)|]. cbv zeta.
  apply (turns_bind _); [apply turns_attempt, unborn_Stat|]. intros []; [|apply (turns_raise _)].
  repeat (apply (turns_bind _); [|intros _]); auto using unborn_create, unborn_or_remove, unborn_copy, unborn_chmod, unborn_rename, unborn_say.
  - apply unborn_or_remove, unborn_syscall. by intros w.
  - apply unborn_say.
Qed.
End Unborn.

(** ** The machine after a first [--init] *)

(** What [os.Stat] shows of it. *)
Definition stat_of (h : host) (p : path) : ConfigAudit.stat :=
  if decide (present h p) then ConfigAudit.Mode (default 0 (hModes h !! p)) else ConfigAudit.NotExist.

Lemma in_place_clean mc h name p mode : ConfigAudit.mcStat mc = stat_of h ->
  present h (abs_path p) -> hModes h !! abs_path p = Some mode -> Checks.ExitCode (ConfigAudit.check_mode mc name p mode) = 0.
Proof.
  intros Hmc Hp Hm. apply ConfigAudit.check_mode_clean. intros m. rewrite Hmc. unfold stat_of.
  rewrite decide_True, Hm by done. cbn. intros [= <-]. by intros k.
Qed.
Lemma masked_clean mc h name p umask mode : ConfigAudit.mcStat mc = stat_of h ->
  present h (abs_path p) -> hModes h !! abs_path p = Some (masked umask mode) ->
  Checks.ExitCode (ConfigAudit.check_mode mc name p mode) = 0.
Proof.
  intros Hmc Hp Hm. apply ConfigAudit.check_mode_clean. intros m. rewrite Hmc. unfold stat_of.
  rewrite decide_True, Hm by done. cbn. intros [= <-] k Hk. unfold masked. rewrite Z.ldiff_spec. by intros [? ?]%andb_true_iff.
Qed.

(** The paths of the layout and of the installed files are apart. *)
Lemma paths_apart :
  NoDup (layout_paths layout) /\
  Forall (fun p => p ∉ layout_paths layout /\ Forall (fun d => p ∉ prefixes d) (layout_paths layout))
    [abs_path ConfigFile; abs_path examplePath; abs_path unitPath; abs_path Binary; tmpBinary] /\
  NoDup [abs_path ConfigFile; abs_path examplePath; abs_path unitPath; abs_path Binary; tmpBinary] /\
  parent (abs_path ConfigFile) ∈ layout_paths layout /\ parent (abs_path examplePath) ∈ layout_paths layout.
Proof. apply (bool_decide_unpack _). vm_compute. exact I. Qed.

Lemma elem_layout d ds : d ∈ ds -> abs_path d.1 ∈ layout_paths ds.
Proof.
  intros H. apply list_elem_of_In, in_map_iff. exists d. split; [done|by apply list_elem_of_In].
Qed.

Section First.
Context (umask : Z) (defaultConfig exampleDomain Unit_ : str) (entropy : option (list Z)).

(** What the first half of [Init] does: the directories and the binary. *)
Lemma calm_base self f h : calm h -> self <> tmpBinary -> wFiles (hDisk h) !! self = Some f ->
  parent (abs_path Binary) ∈ wDirs (hDisk h) ->
  gives (each layout (provide umask) ≫= fun _ => installSelf umask (Ok self)) h (fun r h' => r = Ok tt /\
    calm h' /\ wDirs (hDisk h) ⊆ wDirs (hDisk h') /\ only installing h h' /\
    Forall (in_place h') layout /\ holds_data h' (abs_path Binary) (fData f)).
Proof.
  intros Hc Hs Hf Hp. destruct paths_apart as (Hnd & Hap & _).
  rewrite !Forall_cons in Hap. destruct Hap as (_ & _ & _ & (Hb & _) & (Ht & _) & _).
  apply gives_bind. eapply gives_mono; [by apply calm_layout|]. intros ? h1 (-> & [H1 Ho1] & Hl).
  eapply gives_mono; [apply (calm_installSelf umask self f); [by apply H1|done|by apply (tame_dirs _ _ _ H1)|by rewrite Ho1 by tauto]|].
  intros ? h2 (-> & H2 & Hd). split_and!; [done|by apply H2, H1| | | |done].
  - exact (transitivity (tame_dirs _ _ _ H1) (tame_dirs _ _ _ H2)).
  - exact (transitivity (only_weaken _ _ _ _ (fun _ (H : False) => match H with end) Ho1) (tame_only _ _ _ H2)).
  - rewrite Forall_forall in Hl |- *. intros d Hin. eapply tame_in_place; [done| |by apply Hl].
    intros [E|E]; [apply Ht|apply Hb]; rewrite <- E; by apply elem_layout.
Qed.

(** The second half: the files. *)
Lemma calm_files version h : calm h -> Forall (in_place h) layout -> parent (abs_path unitPath) ∈ wDirs (hDisk h) ->
  gives (writeIfAbsent umask ConfigFile (first_config defaultConfig entropy) 416 ≫= fun _ =>
        writeIfAbsent umask examplePath exampleDomain 416 ≫= fun _ =>
        writeUnit umask unitPath Unit_ ≫= fun _ => say (next_steps version)) h (fun r h' =>
    r = Ok tt /\ tame written_after h h' /\ holds_data h' (abs_path unitPath) Unit_ /\
    (present h (abs_path ConfigFile) -> wFiles (hDisk h') !! abs_path ConfigFile = wFiles (hDisk h) !! abs_path ConfigFile) /\
    (~ present h (abs_path ConfigFile) -> holds_data h' (abs_path ConfigFile) (first_config defaultConfig entropy) /\
       hModes h' !! abs_path ConfigFile = Some (masked umask 416))).
Proof.
  intros Hc Hl Hpu. destruct paths_apart as (_ & _ & Hnd & Hpc & Hpe). rewrite !NoDup_cons in Hnd.
  destruct Hnd as (Hn1 & Hn2 & _). assert (forall q, q ∈ layout_paths layout -> q ∈ wDirs (hDisk h)) as Hdirs.
  { intros q Hq. apply list_elem_of_In, in_map_iff in Hq as (d & <- & Hd). rewrite Forall_forall in Hl.
    apply Hl. by apply list_elem_of_In. }
  apply gives_bind. eapply gives_mono; [apply calm_writeIfAbsent; [done|by apply Hdirs]|]. intros ? h1 (-> & H1 & Hk & Hw).
  apply gives_bind. eapply gives_mono; [apply calm_writeIfAbsent; [by apply H1|by apply (tame_dirs _ _ _ H1), Hdirs]|].
  intros ? h2 (-> & H2 & _ & _). assert (wDirs (hDisk h) ⊆ wDirs (hDisk h2)) as Hd2 by exact (transitivity (tame_dirs _ _ _ H1) (tame_dirs _ _ _ H2)).
  apply gives_bind. eapply gives_mono; [apply calm_writeUnit; [by apply H2, H1|by apply Hd2]|]. intros ? h3 (-> & H3 & Hu).
  apply gives_say.
  assert (tame (fun q => q = abs_path examplePath \/ q = abs_path unitPath) h1 h3) as H13.
  { apply (tame_weaken _ (fun q => q = abs_path examplePath \/ q = abs_path unitPath)) in H2, H3; [|intros ? <-; auto..].
    exact (transitivity H2 H3). }
  assert (~ (abs_path ConfigFile = abs_path examplePath \/ abs_path ConfigFile = abs_path unitPath)) as Hne by set_solver.
  split_and!; [done| |done| |].
  - apply (tame_weaken _ written_after) in H1; [|intros ? <-; unfold written_after; auto].
    apply (tame_weaken _ written_after) in H13; [|unfold written_after; tauto].
    exact (transitivity H1 (transitivity H13 (tame_say _ _ h3))).
  - intros Hp. cbn. rewrite (tame_only _ _ _ H13) by done. by apply Hk.
  - intros Hp. destruct (Hw Hp) as [Hh Hm]. split; [by apply (tame_holds _ _ _ _ _ H13)|]. cbn.
    rewrite (tame_modes _ _ _ H13); [done|done|]. right. destruct Hh as (x & Hx & _). by exists x.
Qed.

Lemma unborn_base c self : Forall (fun d => c ∉ prefixes d) (layout_paths layout) ->
  turns (unborn c) (each layout (provide umask) ≫= fun _ => installSelf umask (Ok self)).
Proof.
  intros Hc. apply (turns_bind _); [|intros _; apply unborn_installSelf]. apply turns_each; [apply _..|].
  intros d Hd. apply unborn_provide. rewrite Forall_forall in Hc. by apply Hc, elem_layout.
Qed.
Abbreviation rest version := (writeIfAbsent umask ConfigFile (first_config defaultConfig entropy) 416 ≫= fun _ =>
        writeIfAbsent umask examplePath exampleDomain 416 ≫= fun _ =>
        writeUnit umask unitPath Unit_ ≫= fun _ => say (next_steps version)).
Lemma W_bind_assoc {A B C} (m : W A) (f : A -> W B) (g : B -> W C) h : ((m ≫= f) ≫= g) h = (m ≫= fun a => f a ≫= g) h.
Proof. unfold mbind, W_bind. by destruct (m h) as [[]]. Qed.

Lemma gives_assoc {A B C} (m : W A) (f : A -> W B) (g : B -> W C) h Q : gives ((m ≫= f) ≫= g) h Q -> gives (m ≫= fun a => f a ≫= g) h Q.
Proof. unfold gives. by rewrite W_bind_assoc. Qed.

(** The secret goes where the default has an empty one. *)
Lemma first_config_filled before after bytes :
  cut_str empty_secret defaultConfig = (before, after, true) -> entropy = Some bytes ->
  first_config defaultConfig entropy = before ++ #"srs_secret: " ++ [DQ] ++ mjoin (map hex_byte bytes) ++ [DQ] ++ after.
Proof.
  intros Hc He. unfold first_config, replace_one. rewrite Hc. unfold filled_secret, randomSecret. rewrite He.
  by rewrite <- !app_assoc.
Qed.

(** C15. [--init] by root on Linux, when every call works: it succeeds; the
    binary is the running executable and the unit is the current one; an
    existing configuration is kept; and where there was none, it is the
    default with the random bytes, in hexadecimal, in the place of the empty
    secret, and [--audit] finds no fault with the permissions. *)
Theorem Init_provisions version self f h before after bytes :
  calm h -> self <> tmpBinary -> wFiles (hDisk h) !! self = Some f ->
  parent (abs_path Binary) ∈ wDirs (hDisk h) -> parent (abs_path unitPath) ∈ wDirs (hDisk h) ->
  cut_str empty_secret defaultConfig = (before, after, true) -> entropy = Some bytes ->
  let '(r, h') := Init false 0 umask defaultConfig exampleDomain Unit_ (Ok self) entropy version h in
  r = Ok tt /\ holds_data h' (abs_path Binary) (fData f) /\ holds_data h' (abs_path unitPath) Unit_ /\
  (forall x, wFiles (hDisk h) !! abs_path ConfigFile = Some x -> wFiles (hDisk h') !! abs_path ConfigFile = Some x) /\
  (~ present h (abs_path ConfigFile) -> holds_data h' (abs_path ConfigFile)
     (before ++ #"srs_secret: " ++ [DQ] ++ mjoin (map hex_byte bytes) ++ [DQ] ++ after) /\
   forall mc, ConfigAudit.mcStat mc = stat_of h' ->
     Checks.ExitCode (ConfigAudit.check_mode mc #"config file" ConfigFile 416
       ++ ConfigAudit.check_mode mc #"queue directory" Settings.QueueDir 488
       ++ ConfigAudit.check_mode mc #"dkim directory" Settings.DKIMDir 448) = 0).
Proof.
  intros Hc Hs Hf Hpb Hpu Hcut Hent. pose proof (first_config_filled before after bytes Hcut Hent) as Hfc.
  cut (gives (Init false 0 umask defaultConfig exampleDomain Unit_ (Ok self) entropy version) h (fun r h' =>
    r = Ok tt /\ holds_data h' (abs_path Binary) (fData f) /\ holds_data h' (abs_path unitPath) Unit_ /\
    (forall x, wFiles (hDisk h) !! abs_path ConfigFile = Some x -> wFiles (hDisk h') !! abs_path ConfigFile = Some x) /\
    (~ present h (abs_path ConfigFile) -> holds_data h' (abs_path ConfigFile) (first_config defaultConfig entropy) /\
     (present h' (abs_path ConfigFile) /\ hModes h' !! abs_path ConfigFile = Some (masked umask 416)) /\
     Forall (in_place h') layout))).
  { unfold gives. destruct (Init _ _ _ _ _ _ _ _ _ h) as [r h']. cbn [fst snd].
    intros (? & ? & ? & ? & Hcfg). split_and!; [done..|]. intros Hn. destruct (Hcfg Hn) as (? & [Hp Hm] & Hl).
    rewrite <- Hfc. split; [done|]. intros mc Hmc. rewrite !Checks.ExitCode_app. unfold layout in Hl. rewrite !Forall_cons in Hl.
    destruct Hl as (_ & _ & _ & _ & [Hq Hqm] & [Hk Hkm] & _).
    split_and!; [by eapply masked_clean|eapply in_place_clean; [done|by left|done]..]. }
  destruct paths_apart as (_ & Hap & Hnd & _). rewrite !Forall_cons in Hap. rewrite !NoDup_cons in Hnd.
  destruct Hap as ((Hcl & Hcp) & (Hel & _) & (Hul & _) & _).
  change (Init false 0 umask defaultConfig exampleDomain Unit_ (Ok self) entropy version) with
    (each layout (provide umask) ≫= fun _ => installSelf umask (Ok self) ≫= fun _ => (rest version : W unit)).
  apply gives_assoc, gives_bind.
  eapply gives_mono; [apply (gives_and (unborn (abs_path ConfigFile))); [by apply unborn_base|by apply (calm_base self f)]|].
  intros ? h1 ((-> & H1 & Hd1 & Ho1 & Hl1 & Hb1) & Hun).
  assert (~ installing (abs_path ConfigFile)) as Hni by (unfold installing; set_solver).
  eapply gives_mono; [apply calm_files; [done..|by apply Hd1]|]. intros ? h2 (-> & H2 & Hu & Hk & Hw).
  assert (forall d, d ∈ layout -> ~ written_after (abs_path d.1)) as Hlay.
  { intros d Hd%elem_layout [E|[E|E]]; rewrite E in Hd; tauto. }
  split_and!; [done| |done| |].
  - apply (tame_holds _ _ _ _ _ H2); [apply binary_not_after|done].
  - intros x Hx. rewrite Hk, Ho1 by (try done; right; rewrite Ho1, Hx by done; by eexists). done.
  - intros Hn. assert (~ present h1 (abs_path ConfigFile)) as Hn1.
    { intros [Hp|Hp]; apply Hn; [left; by apply Hun|right; by rewrite <- Ho1]. }
    destruct (Hw Hn1) as [Hh Hm]. split_and!; [done| |done|].
    + right. destruct Hh as (x & Hx & _). by exists x.
    + apply Forall_forall. intros d Hd. eapply tame_in_place; [done|by apply Hlay|]. rewrite Forall_forall in Hl1. by apply Hl1.
Qed.
End First.

(** ** Concrete machines *)

Definition unpacked : path := abs_path #"/root/verta".
Definition some_dirs : gset path :=
  list_to_set (prefixes (abs_path #"/usr/sbin") ++ prefixes (abs_path #"/etc/systemd/system") ++ prefixes (abs_path #"/root")).
Definition machine (files : gmap path file) (dirs : gset path) (faults : list fault) : host :=
  mkHost (mkWorld files dirs faults 0 [] [] 0 1 #"host") ∅ [].
Definition fresh_machine : host := machine {[unpacked := mkFile #"ELF" 0]} some_dirs [].
Definition small_config : str := #"forwarding:" ++ [LF] ++ #"  " ++ empty_secret ++ [LF].

(** The configuration of [h] and what was printed. *)
Definition config_of (h : host) : option str := fData <$> wFiles (hDisk h) !! abs_path ConfigFile.
Definition run_init (h : host) : result error unit * host :=
  Init false 0 18 small_config #"example" #"unit" (Ok unpacked) (Some [1; 171]) #"0.1.3" h.

Lemma Init_safe_witness :
  let h' := (run_init fresh_machine).2 in
  (forall p, ~ installed p -> wFiles (hDisk h') !! p = wFiles (hDisk fresh_machine) !! p) /\
  old_or_new (Ok unpacked) fresh_machine h'.
Proof.
  apply (Init_safe false 0 18 small_config #"example" #"unit" (Ok unpacked) (Some [1; 171]) #"0.1.3" fresh_machine).
  intros self [= <-]. apply (bool_decide_unpack _). vm_compute. exact I.
Defined.

Lemma Init_provisions_witness :
  let '(r, h') := run_init fresh_machine in
  r = Ok tt /\ holds_data h' (abs_path Binary) #"ELF" /\ holds_data h' (abs_path unitPath) #"unit" /\
  (forall x, wFiles (hDisk fresh_machine) !! abs_path ConfigFile = Some x -> wFiles (hDisk h') !! abs_path ConfigFile = Some x) /\
  (~ present fresh_machine (abs_path ConfigFile) ->
   holds_data h' (abs_path ConfigFile) (#"forwarding:" ++ [LF] ++ #"  srs_secret: " ++ [DQ] ++ #"01ab" ++ [DQ; LF]) /\
   forall mc, ConfigAudit.mcStat mc = stat_of h' ->
     Checks.ExitCode (ConfigAudit.check_mode mc #"config file" ConfigFile 416
       ++ ConfigAudit.check_mode mc #"queue directory" Settings.QueueDir 488
       ++ ConfigAudit.check_mode mc #"dkim directory" Settings.DKIMDir 448) = 0).
Proof.
  apply (Init_provisions 18 small_config #"example" #"unit" (Some [1; 171]) #"0.1.3" unpacked (mkFile #"ELF" 0) fresh_machine
           (#"forwarding:" ++ [LF] ++ #"  ") [LF] [1; 171]).
  - reflexivity.
  - apply (bool_decide_unpack _). vm_compute. exact I.
  - vm_compute. reflexivity.
  - apply (bool_decide_unpack _). vm_compute. exact I.
  - apply (bool_decide_unpack _). vm_compute. exact I.
  - vm_compute. reflexivity.
  - reflexivity.
Defined.

(** A second [--init] keeps the configuration of the first. *)
Example init_twice :
  let first := (run_init fresh_machine).2 in
  config_of first = Some (#"forwarding:" ++ [LF] ++ #"  srs_secret: " ++ [DQ] ++ #"01ab" ++ [DQ; LF]) /\
  (run_init first).1 = Ok tt /\ config_of (run_init first).2 = config_of first.
Proof. split_and!; vm_compute; reflexivity. Qed.

(** The configuration is not kept when [os.Stat] fails on it for another
    reason than its absence: [writeIfAbsent] takes every error for it. *)
Definition edited : host :=
  machine {[unpacked := mkFile #"ELF" 0; abs_path ConfigFile := mkFile #"edited" 0]}
    (list_to_set (prefixes (abs_path ConfigDir)) ∪ some_dirs) (replicate 24 NoFault ++ [Fault]).
Example failing_stat_overwrites_config :
  config_of edited = Some #"edited" /\
  (run_init edited).1 = Ok tt /\ config_of (run_init edited).2 = Some (first_config small_config (Some [1; 171])).
Proof. split_and!; vm_compute; reflexivity. Qed.

(** Confirmed, everything is removed; the mailboxes stay.  [systemctl]
    removes the link that had the unit started. *)
Definition a_mail : path := abs_path #"/var/mail/u/new/1".
Definition a_link : path := abs_path #"/etc/systemd/system/multi-user.target.wants/verta.service".
Definition disable : W (option str) := attempt (remove a_link) ≫= fun _ => mret None.
Definition installed_machine : host :=
  let h := (run_init fresh_machine).2 in
  machine (<[a_link := mkFile #"unit" 0]> (<[a_mail := mkFile #"mail" 0]> (wFiles (hDisk h)))) (wDirs (hDisk h)) [].
Definition run_purge (answer : str) : result error unit * host :=
  Purge false 0 (fun _ => []) (Some disable) false answer installed_machine.
Definition agreed : str := #"purge verta" ++ [LF].
Example purge_confirmed :
  (run_purge agreed).1 = Ok tt /\
  map fst (map_to_list (wFiles (hDisk (run_purge agreed).2))) = [a_mail; unpacked] /\
  existsb (fun d => bool_decide (abs_path d.1 ∈ wDirs (hDisk (run_purge agreed).2))) layout = false.
Proof. split_and!; vm_compute; reflexivity. Qed.

Lemma disable_spares P : P a_link -> turns (only P) disable.
Proof. intros. apply (turns_bind _); [auto with turns|intros _; apply (turns_ret _)]. Qed.

Lemma mail_not_doomed : ~ doomed a_mail.
Proof.
  assert (a_mail <> abs_path Binary /\ Forall (fun t => ~ abs_path t `prefix_of` a_mail) targets) as [Hb Ht]
    by (apply (bool_decide_unpack _); vm_compute; exact I).
  rewrite Forall_forall in Ht. intros [E|(t & Hin & Hp)]; [done|by apply (Ht t)].
Qed.

(** The confirmed purge spares the mail and empties the configuration. *)
Lemma Purge_safe_witness :
  wFiles (hDisk (run_purge agreed).2) !! a_mail = Some (mkFile #"mail" 0) /\
  emptied (run_purge agreed).2 ConfigDir /\ emptied (run_purge agreed).2 Settings.StateDir.
Proof.
  pose proof (Purge_safe false 0 (fun _ => []) (Some disable) false agreed installed_machine) as H.
  fold (run_purge agreed) in H. assert (is_ok (run_purge agreed).1 = true) as Hr by (vm_compute; reflexivity).
  assert (fData <$> wFiles (hDisk (run_purge agreed).2) !! abs_path ConfigFile = None) as Hd by (vm_compute; reflexivity).
  assert (config_of installed_machine <> None) as Hd' by (vm_compute; discriminate).
  assert ((present_targets targets installed_machine).1 = Ok [ConfigDir; Settings.LogDir; Settings.StateDir; unitPath])
    as Hl by (vm_compute; reflexivity).
  assert (wFiles (hDisk installed_machine) !! a_mail = Some (mkFile #"mail" 0)) as Hm by (vm_compute; reflexivity).
  revert H Hr Hd. generalize (run_purge agreed) as a. revert Hd' Hl Hm. generalize installed_machine as m.
  intros m Hd' Hl Hm [r h'] H Hr Hd. destruct r as [[]|]; [|by cbn in Hr]. cbn [fst snd] in *.
  destruct H as [[E _]|(_ & _ & _ & h1 & H1 & Ho & He)]; [destruct Hd'; unfold config_of; by rewrite <- E|].
  specialize (He eq_refl _ ConfigDir Hl (list_elem_of_here _ _)) as Hc.
  specialize (He eq_refl _ Settings.StateDir Hl (list_elem_of_further _ _ _ (list_elem_of_further _ _ _ (list_elem_of_here _ _)))).
  split; [|by split]. rewrite Ho by apply mail_not_doomed. cbn [after_systemctl].
  rewrite (disable_spares (eq a_link) eq_refl h1), (proj1 H1); [done|]. apply (bool_decide_unpack _). vm_compute. exact I.
Defined.
