(* ===== verification/Proc.v ===== *)
(** * The pidfile and the service verbs (internal/proc)

    [verta stop], [reload] and [restart] find the daemon through its pidfile.
    Signals are arguments: [alive w pid] says whether a process answers signal
    0, [kill] sends one. *)

From S2P Require Import Prelude GoStrings GoOS.
From S2P Require Api.

#[global] Open Scope Z_scope.

(** The pid of the calling process. *)
Definition Getpid : M Z := fun w => (Ok (wPid w), w).

Definition WritePidfile (p : path) : M unit :=
  MkdirAll (parent p) ≫= fun _ =>
  pid ← Getpid;
  WriteFile p (dec pid ++ [LF]).

(** Errors are ignored. *)
Definition RemovePidfile (p : path) : M unit := try (GoOS.Remove p) ≫= fun _ => mret tt.

Definition invalid (p : path) : error := ErrText (#"pidfile " ++ path_text p ++ #": invalid content").
Definition readPid (p : path) : M Z :=
  b ← wrap (ReadFile p);
  match parse_int (trim_space b) with
  | Some pid => if pid <=? 0 then throw (invalid p) else mret pid
  | None => throw (invalid p)
  end.

Inductive sig := sigTerm | sigHup.

Section Signals.
Context (alive : world -> Z -> bool) (kill : Z -> sig -> M unit).

Definition signalDaemon (pidfile : path) (s : sig) : M unit := pid ← readPid pidfile; kill pid s.
Definition Stop (pidfile : path) : M unit := signalDaemon pidfile sigTerm.
Definition Reload (pidfile : path) : M unit := signalDaemon pidfile sigHup.

Definition processAlive (pid : Z) : M bool := fun w => (Ok (alive w pid), w).
Definition Running (pidfile : path) : M bool :=
  r ← try (readPid pidfile);
  match r with
  | Err _ => mret false
  | Ok pid => processAlive pid
  end.

(** 50 milliseconds; [time.Sleep] takes at least that long. *)
Definition pause : Z := 50 * 10 ^ 6.
Definition Sleep (d : Z) : M unit :=
  modify (fun w => mkWorld (wFiles w) (wDirs w) (wFaults w) (wNow w + d) (wTicks w) (wRand w) (wSeq w) (wPid w) (wHost w)).

(** The wait for the daemon to go; [None] when the fuel is spent.  The
    timeout is printed as a duration of whole seconds. *)
Fixpoint await (fuel : nat) (pidfile : path) (deadline : Z) : M (option bool) :=
  match fuel with
  | 0%nat => mret None
  | S fuel =>
      now ← time_now;
      if now <? deadline then
        up ← Running pidfile;
        if up : bool then Sleep pause ≫= fun _ => await fuel pidfile deadline
        else mret (Some true)
      else mret (Some false)
  end.

Definition StopAndWait (fuel : nat) (pidfile : path) (timeout : Z) : M (option unit) :=
  up ← Running pidfile;
  if negb up then mret (Some tt)
  else
    Stop pidfile ≫= fun _ =>
    now ← time_now;
    gone ← await fuel pidfile (now + timeout);
    match gone with
    | None => mret None
    | Some true => mret (Some tt)
    | Some false => throw (ErrText (#"daemon did not stop within " ++ Api.uptime 0 timeout))
    end.
End Signals.

(** ** The pidfile *)

Lemma dec_parse_int z : 0 <= z < 2 ^ 63 -> parse_int (dec z) = Some z.
Proof.
  intros Hz. unfold dec. destruct (Z.ltb_spec z 0); [lia|]. unfold parse_int.
  assert (forallb is_digit (dec_N (Z.to_N z)) = true) as Hd by apply dec_fuel_digits.
  destruct (dec_N (Z.to_N z)) as [|c r] eqn:E; [by apply dec_N_nonempty in E|]. cbn [forallb] in Hd. apply andb_true_iff in Hd as [Hc _].
  assert (Ascii.eqb c "-" = false /\ Ascii.eqb c "+" = false) as [-> ->].
  { split; apply Ascii.eqb_neq; intros ->; by vm_compute in Hc. }
  pose proof (dec_N_value (Z.to_N z)) as Hv. rewrite E in Hv. rewrite Hv, Z2N.id by lia.
  by destruct (Z.leb_spec (- 2 ^ 63) z), (Z.ltb_spec z (2 ^ 63)); cbn; try lia.
Qed.

Lemma trim_space_line s : s <> [] -> forallb (fun c => negb (is_space c)) s = true -> trim_space (s ++ [LF]) = s.
Proof.
  intros Hne Hs. unfold trim_space. rewrite drop_while_id.
  - unfold drop_while_end. rewrite rev_app_distr. cbn [rev app drop_while]. change (is_space LF) with true. cbv iota.
    rewrite drop_while_id; [apply rev_involutive|]. intros x Hx. rewrite forallb_forall in Hs. apply negb_true_iff, Hs.
    apply in_rev. destruct (rev s); [done|]. injection Hx as ->. by left.
  - destruct s as [|c s]; [done|]. intros x [= <-]. cbn [forallb] in Hs. apply andb_true_iff in Hs as [Hc _]. by apply negb_true_iff.
Qed.
Lemma digit_no_space c : is_digit c = true -> negb (is_space c) = true.
Proof. destruct c as [[] [] [] [] [] [] [] []]; by vm_compute. Qed.
Lemma trim_space_number z : 0 <= z -> trim_space (dec z ++ [LF]) = dec z.
Proof.
  intros Hz. apply trim_space_line.
  - unfold dec. destruct (Z.ltb_spec z 0); [lia|]. apply dec_N_nonempty.
  - apply forallb_forall. intros c Hc. apply digit_no_space. pose proof (dec_digits z Hz) as Hd. rewrite forallb_forall in Hd. by apply Hd.
Qed.

(** The pid that a file names. *)
Definition pid_in (b : str) : option Z :=
  match parse_int (trim_space b) with Some pid => if pid <=? 0 then None else Some pid | None => None end.

Lemma readPid_ok p w : wFaults w = [] ->
  readPid p w = (match wFiles w !! p with
                 | None => Err (ErrWrap ENOENT)
                 | Some f => match pid_in (fData f) with Some pid => Ok pid | None => Err (invalid p) end
                 end, w).
Proof.
  intros Hw. unfold readPid, wrap, mbind, M_bind, ReadFile. rewrite syscall_ok by done. unfold mbind, M_bind, get_world, throw.
  destruct (wFiles w !! p) as [f|]; [|reflexivity]. cbn [mret M_ret]. unfold pid_in.
  destruct (parse_int _) as [pid|]; [|done]. by destruct (pid <=? 0).
Qed.

(** What the daemon writes is what the service verbs read. *)
Theorem pidfile_roundtrip p w : wFaults w = [] -> 0 < wPid w < 2 ^ 63 ->
  exists w', WritePidfile p w = (Ok tt, w') /\ readPid p w' = (Ok (wPid w), w').
Proof.
  intros Hw Hp. unfold WritePidfile, mbind, M_bind, MkdirAll, Getpid. rewrite syscall_ok by done. unfold modify.
  rewrite WriteFile_ok; [|done|].
  - eexists. split; [reflexivity|]. rewrite readPid_ok by done. cbn [wFiles set_files set_dirs wPid]. rewrite lookup_insert_eq.
    cbn [fData]. unfold pid_in. rewrite trim_space_number, dec_parse_int by lia. by destruct (Z.leb_spec (wPid w) 0); [lia|].
  - cbn. apply elem_of_union_l, elem_of_list_to_set, elem_of_prefixes. done.
Qed.

(** ** Waiting for the daemon *)

Section Waiting.
Context (alive : world -> Z -> bool) (kill : Z -> sig -> M unit).

(** Calls work and the clock does not go back. *)
Definition regular (w : world) : Prop := wFaults w = [] /\ Forall (fun d => 0 <= d) (wTicks w).
Definition later (w w' : world) : Prop := regular w' /\ wNow w <= wNow w'.

(** No process answers under the pid of the file. *)
Definition gone (pidfile : path) (w : world) : Prop :=
  forall f pid, wFiles w !! pidfile = Some f -> pid_in (fData f) = Some pid -> alive w pid = false.

Lemma Running_ok pidfile w : wFaults w = [] ->
  exists b, Running alive pidfile w = (Ok b, w) /\ (b = false -> gone pidfile w).
Proof.
  intros Hw. unfold Running, mbind, M_bind, try. rewrite readPid_ok by done. unfold gone.
  destruct (wFiles w !! pidfile) as [f|]; [|eexists; split; [reflexivity|naive_solver]].
  destruct (pid_in (fData f)) as [pid|] eqn:E; [|eexists; split; [reflexivity|naive_solver]].
  eexists. split; [reflexivity|]. intros H f' pid' [= <-] E'. congruence.
Qed.

Lemma regular_now w : regular w -> exists t w', time_now w = (Ok t, w') /\ later w w' /\ wNow w' = t /\ wFiles w' = wFiles w.
Proof.
  intros [Hw Ht]. unfold time_now. destruct (wTicks w) as [|d r] eqn:E.
  - eexists _, _. split; [reflexivity|]. unfold later, regular. cbn. rewrite Hw. split_and!; try done; try constructor; lia.
  - apply Forall_cons in Ht as [Hd Hr]. eexists _, _. split; [reflexivity|]. unfold later, regular. cbn. rewrite Hw.
    split_and!; try done. lia.
Qed.

Lemma await_ends pidfile deadline fuel : forall w, regular w -> deadline - wNow w < pause * Z.of_nat fuel ->
  exists b w', await alive (S fuel) pidfile deadline w = (Ok (Some b), w') /\ (b = true -> gone pidfile w').
Proof.
  induction fuel as [|fuel IH]; intros w Hr Hf.
  all: destruct (regular_now w Hr) as (t & w1 & E & [Hr1 Hle] & Ht & _); cbn [await]; rewrite (bind_ok _ _ _ _ _ E).
  - destruct (Z.ltb_spec t deadline); [lia|]. by eexists _, _.
  - destruct (Z.ltb_spec t deadline); [|by eexists _, _].
    destruct (Running_ok pidfile w1 (proj1 Hr1)) as (b & Eb & Hg). rewrite (bind_ok _ _ _ _ _ Eb). destruct b.
    + unfold Sleep, modify. erewrite bind_ok by reflexivity. apply IH; [done|]. cbn [wNow]. unfold pause in *. lia.
    + eexists _, _. split; [reflexivity|]. intros _. by apply Hg.
Qed.

(** [restart] waits: with fuel for the pauses that fit into the timeout it
    always comes to an end, and when it says that the daemon has stopped, no
    process answers under the pid of the pidfile any more. *)
Lemma StopAndWait_ends pidfile timeout fuel w :
  regular w -> timeout < pause * Z.of_nat fuel ->
  (forall pid s w, regular w -> regular (kill pid s w).2) ->
  let '(r, w') := StopAndWait alive kill (S fuel) pidfile timeout w in
  r <> Ok None /\ (r = Ok (Some tt) -> gone pidfile w').
Proof.
  intros Hr Hf Hk. unfold StopAndWait. destruct (Running_ok pidfile w (proj1 Hr)) as (b & Eb & Hg).
  rewrite (bind_ok _ _ _ _ _ Eb). destruct b; cbn [negb]; [|by split; auto].
  destruct (Stop kill pidfile w) as [[[]|e] w1] eqn:Es; [|by rewrite (bind_err _ _ _ _ _ Es)].
  rewrite (bind_ok _ _ _ _ _ Es). assert (regular w1) as Hr1.
  { unfold Stop, signalDaemon, mbind, M_bind in Es. rewrite readPid_ok in Es by apply Hr. 
    destruct (wFiles w !! pidfile) as [f|]; [|done]. destruct (pid_in (fData f)) as [pid|]; [|done].
    replace w1 with (kill pid sigTerm w).2 by (by rewrite Es). by apply Hk. }
  destruct (regular_now w1 Hr1) as (t & w2 & E & [Hr2 _] & Ht & _). rewrite (bind_ok _ _ _ _ _ E).
  destruct (await_ends pidfile (t + timeout) fuel w2 Hr2) as (b & w3 & Ea & Hb); [lia|].
  rewrite (bind_ok _ _ _ _ _ Ea). destruct b; split; try done. intros _. by apply Hb.
Qed.
End Waiting.

(** A daemon that ends 80 milliseconds after the signal. *)
Definition pidfile : path := [ #"run"; #"verta.pid"].
Definition daemon_world : world :=
  mkWorld {[pidfile := mkFile #"42" 0]} {[ [ #"run"] ]} [] 0 [] [] 0 7 #"host".
Definition until (t : Z) (w : world) (pid : Z) : bool := (pid =? 42) && (wNow w <? t).
Definition deliver (pid : Z) (s : sig) : M unit := mret tt.

Lemma pidfile_roundtrip_witness :
  exists w', WritePidfile pidfile daemon_world = (Ok tt, w') /\ readPid pidfile w' = (Ok 7, w').
Proof. apply (pidfile_roundtrip pidfile daemon_world); [reflexivity|]. cbn. lia. Defined.

Example stopped_and_not :
  (StopAndWait (until (80 * 10 ^ 6)) deliver 602 pidfile (30 * 10 ^ 9) daemon_world).1 = Ok (Some tt) /\
  (StopAndWait (until (60 * 10 ^ 9)) deliver 602 pidfile (30 * 10 ^ 9) daemon_world).1 = Err (ErrText #"daemon did not stop within 30s").
Proof. split; vm_compute; reflexivity. Qed.
