(* ===== verification/Status.v ===== *)
(** * The status report (internal/status, cmd/verta/main.go [buildStatus])

    What the daemon answers on its control socket, how the client reads the
    answer and what it prints.  encoding/json is an argument; a connection is
    what was written to it. *)

From S2P Require Import Prelude GoStrings GoOS Config Settings ConfigLoad ConfigProps Supervisor SupervisorProps.
From S2P Require Stats Dkim Queue Api CertStore Container Host.
From stdpp Require Import relations.

#[global] Open Scope Z_scope.

Record DomainInfo := mkDomainInfo { diName : str; diStorage : str; diMailboxes : Z; diDKIM : bool }.
Record Listener := mkListener { liProtocol : str; liAddress : str }.
Record Report := mkReport {
  rpSchema : Z; rpVersion : str; rpHostname : str; rpPID : Z; rpUptime : str;
  rpDomains : list DomainInfo; rpMailboxes : Z; rpListeners : list Listener; rpTLSLoaded : list str;
  rpQueueDepth : Z; rpCounters : Stats.Counters; rpWarnings : list str; rpReloadError : str }.

Definition schemaVersion : Z := 1.

(** [now] and [pid] are [time.Now] and [os.Getpid]. *)
Definition Build (version hostname : str) (started : Z) (domains : list DomainInfo) (mailboxes : Z)
    (listeners : list Listener) (tlsLoaded : list str) (queueDepth : Z) (counters : option Stats.Counters)
    (warnings : list str) (reloadErr : str) (now pid : Z) : Report :=
  {| rpSchema := schemaVersion; rpVersion := version; rpHostname := hostname; rpPID := pid;
     rpUptime := Api.uptime started now; rpDomains := domains; rpMailboxes := mailboxes; rpListeners := listeners;
     rpTLSLoaded := tlsLoaded; rpQueueDepth := queueDepth; rpCounters := Stats.Snapshot counters;
     rpWarnings := warnings; rpReloadError := reloadErr |}.

(** ** The connection *)

(** [json.Encoder] and [json.Decoder]. *)
Class ReportCodec := {
  Encode : Report -> option str;
  Decode : str -> result str Report }.
(** The texts of a report. *)
Definition texts (r : Report) : list str :=
  [rpVersion r; rpHostname r; rpUptime r; rpReloadError r] ++ rpTLSLoaded r ++ rpWarnings r
  ++ mjoin (map (fun d => [diName d; diStorage d]) (rpDomains r))
  ++ mjoin (map (fun l => [liProtocol l; liAddress l]) (rpListeners r)).
(** What encoding/json documents: a value whose strings are ASCII is decoded
    to itself. *)
Class LawfulReportCodec `{ReportCodec} : Prop := {
  report_law r : Forall is_ascii (texts r) -> exists s, Encode r = Some s /\ Decode s = Ok r }.

Section Socket.
Context `{ReportCodec}.

(** One connection of [Serve]: the report of the moment, or nothing. *)
Definition answer (build : Report) : str := default [] (Encode build).

Definition bad_schema (n : Z) : str :=
  #"status schema " ++ dec n ++ #", this client speaks " ++ dec schemaVersion
  ++ #": the running daemon is a different version than this binary".
(** [Query]; [Dial] is the connection to the socket with what it answers. *)
Definition Query (path : str) (Dial : str -> result str str) : result str Report :=
  match Dial path with
  | Err e => Err (#"cannot reach the daemon on " ++ path ++ #": " ++ e ++ [LF]
                  ++ #"is verta running? (systemctl status verta)")
  | Ok reply =>
      match Decode reply with
      | Err e => Err (#"unreadable status reply: " ++ e)
      | Ok rep => if negb (rpSchema rep =? schemaVersion) then Err (bad_schema (rpSchema rep)) else Ok rep
      end
  end.
End Socket.

(** ** The socket *)

Section Listening.
(** [net.Listen] on a Unix socket: it makes the file. *)
Context (Listen : path -> Host.W unit).

(** [Serve] until its goroutines start: a socket left by a crash makes way. *)
Definition Serve (path : str) : Host.W unit :=
  Host.attempt (Host.remove (abs_path path)) ≫= fun _ =>
  r ← Host.attempt (Listen (abs_path path));
  match r with
  | Err e => Host.raise (ErrWrap e)
  | Ok _ => Host.attempt (Host.chmod (abs_path path) 432) ≫= fun _ => mret tt
  end.
(** When [stop] is closed. *)
Definition stop_serving (path : str) : Host.W unit :=
  Host.attempt (Host.remove (abs_path path)) ≫= fun _ => mret tt.

Lemma Serve_only path :
  Host.turns (Host.only (eq (abs_path path))) (Listen (abs_path path)) ->
  Host.turns (Host.only (eq (abs_path path))) (Serve path) /\ Host.turns (Host.only (eq (abs_path path))) (stop_serving path).
Proof.
  intros Hl. split; unfold Serve, stop_serving.
  - apply (Host.turns_bind _); [apply Host.turns_attempt, Host.only_remove; done|intros _].
    apply (Host.turns_bind _); [by apply Host.turns_attempt|intros []; [|apply Host.turns_raise; apply _]].
    apply (Host.turns_bind _); [apply Host.turns_attempt, Host.only_chmod|intros _; apply Host.turns_ret; apply _].
  - apply (Host.turns_bind _); [apply Host.turns_attempt, Host.only_remove; done|intros _; apply Host.turns_ret; apply _].
Qed.
End Listening.

(** ** The terminal *)

(** [%-Ns] and [%3d]. *)
Definition left_justified (w : nat) (s : str) : str := s ++ replicate (w - length (runes s)) SP.
Definition right_justified (w : nat) (z : Z) : str := let s := dec z in replicate (w - length s) SP ++ s.
Definition line (s : str) : str := s ++ [LF].
Definition by_name (a b : DomainInfo) : bool := str_ltb (diName a) (diName b).
Definition print_listener (l : Listener) : str :=
  line (#"  " ++ left_justified 12 (liProtocol l) ++ #" " ++ liAddress l).
Definition print_domain (d : DomainInfo) : str :=
  line (#"  " ++ left_justified 30 (diName d) ++ #" " ++ left_justified 12 (diStorage d) ++ #" "
        ++ right_justified 3 (diMailboxes d) ++ #" mailbox(es)  " ++ (if diDKIM d then #"dkim" else #"unsigned")).
Definition print_counters (c : Stats.Counters) (depth : Z) : str :=
  line (LF :: #"Mail since start")
  ++ line (#"  inbound     " ++ dec (Stats.ctReceived c) ++ #" received, " ++ dec (Stats.ctRejected c) ++ #" rejected, "
           ++ dec (Stats.ctSpam c) ++ #" spam, " ++ dec (Stats.ctRelayDeny c) ++ #" relay denied")
  ++ line (#"  submission  " ++ dec (Stats.ctSubmitted c) ++ #" accepted, " ++ dec (Stats.ctAuthOK c) ++ #" auth ok, "
           ++ dec (Stats.ctAuthFail c) ++ #" auth failed")
  ++ line (#"  outbound    " ++ dec (Stats.ctDelivered c) ++ #" delivered, " ++ dec (Stats.ctDeferred c) ++ #" deferred, "
           ++ dec (Stats.ctBounced c) ++ #" bounced")
  ++ line (#"  queue       " ++ dec depth ++ #" waiting").
Definition Print (r : Report) : str :=
  line (#"verta " ++ rpVersion r ++ #"  " ++ rpHostname r)
  ++ line (#"  pid " ++ dec (rpPID r) ++ #", up " ++ rpUptime r) ++ line []
  ++ line #"Listeners"
  ++ (match rpListeners r with [] => line #"  none" | ls => mjoin (map print_listener ls) end)
  ++ line (LF :: #"TLS")
  ++ (match rpTLSLoaded r with
      | [] => line #"  no certificate loaded (submission, IMAP, POP3 and the API do not start)"
      | ds => line (#"  " ++ GoStrings.join #", " ds)
      end)
  ++ line (LF :: #"Domains (" ++ dec (Z.of_nat (length (rpDomains r))) ++ #", " ++ dec (rpMailboxes r) ++ #" mailboxes)")
  ++ (match rpDomains r with [] => line #"  none: this server accepts no mail" | _ => [] end)
  ++ mjoin (map print_domain (sort_slice by_name (rpDomains r)))
  ++ print_counters (rpCounters r) (rpQueueDepth r)
  ++ (if rpReloadError r =s [] then []
      else line (LF :: #"Last reload FAILED, the previous configuration is still active:" ++ [LF] ++ #"  " ++ rpReloadError r))
  ++ mjoin (map (fun w => line (LF :: #"warning: " ++ w)) (rpWarnings r)).

(** ** What the daemon reports *)

(** [publishListeners]: what is bound, in a fixed order. *)
Definition protocols : list str :=
  [ #"smtp"; #"submission"; #"smtps"; #"imap"; #"imaps"; #"pop3"; #"pop3s"; #"api"].
Definition publishListeners (bound : gmap str str) : list Listener :=
  omap (fun n => mkListener n <$> bound !! n) protocols.

(** The mailboxes whose address ends in the domain. *)
Definition mailboxes_of (c : Root) (domain : str) : Z :=
  Z.of_nat (length (List.filter (fun a => has_suffix ("@"%char :: domain) (uEmail (acUser a))) (cfUsers c))).
Definition storage_name (h : Hosted) : str :=
  let t := sType (dStorage (hdDomain h)) in if t =s [] then StorageVirtual else t.

Section Daemon.
Context {Key Certificate : Type} `{Dkim.KeyCodec Key} (render_warning : message -> str) (version : str).

Definition domain_info (l : Loaded) (dkimDir : path) (h : Hosted) : M DomainInfo :=
  let name := dName (hdDomain h) in
  key ← Dkim.Signer dkimDir name (DKIMSelectorFor (core l) name);
  mret (mkDomainInfo name (storage_name h) (mailboxes_of (ldRoot l) name) (bool_decide (is_Some key))).
Fixpoint domain_infos (l : Loaded) (dkimDir : path) (hs : list Hosted) : M (list DomainInfo) :=
  match hs with
  | [] => mret []
  | h :: hs => d ← domain_info l dkimDir h; ds ← domain_infos l dkimDir hs; mret (d :: ds)
  end.

(** [dkimDir] is the key directory that the daemon started with. *)
Definition buildStatus (d : @daemon Certificate) (dkimDir queueDir : path) (started : Z)
    (counters : option Stats.Counters) (now : Z) : M Report :=
  let l := Get (daManager d) in
  domains ← domain_infos l dkimDir (cfDomains (ldRoot l));
  depth ← Queue.Size queueDir;
  w ← get_world;
  mret (Build version (svHostname (cfServer (ldRoot l))) started domains
    (Z.of_nat (length (cfUsers (ldRoot l)))) (publishListeners (daBound d)) (CertStore.Loaded (daStore d)) depth counters
    (map render_warning (ldWarnings l)) (match LastError (daManager d) with Some e => render_warning e | None => [] end)
    now (wPid w)).
End Daemon.

(** ** The listeners reported are the servers that run *)

Section Truth.
Context {Certificate : Type} (counters : option Stats.Counters).
Context `{YamlCodec} (ParseIP : str -> option Container.IP).
Implicit Types d : @daemon Certificate.

(** A server of the protocol [n] is bound to the address [a]. *)
Definition up d (n a : str) : Prop :=
  (exists r, r ∈ daRunning d /\ spName (rnSpec r) = n /\ spAddr (rnSpec r) = a) \/
  (exists s, daAPI d = Some s /\ n = #"api" /\ aiAddr s = a).

(** Every address published belongs to a server that runs. *)
Definition served d : Prop := forall n a, daBound d !! n = Some a -> n ∈ protocols /\ up d n a.

Lemma specs_protocols c sp : sp ∈ specs c -> spName sp ∈ protocols.
Proof. intros Hsp. repeat (apply elem_of_cons in Hsp as [->|Hsp]; [apply (bool_decide_unpack _); exact I|]). by apply elem_of_nil in Hsp. Qed.

Lemma opens_served listen l d d' : opens counters listen l d d' -> served d -> served d'.
Proof.
  intros Ho Hs. destruct Ho as [sp d Hsp Hne Hb Hc|d He Hb Hc]; intros n a Hn; cbn in Hn.
  - apply lookup_insert_Some in Hn as [[<- <-]|[_ Hn]].
    + split; [by eapply specs_protocols|]. left. eexists. cbn. split; [apply elem_of_app; right; left|done].
    + destruct (Hs n a Hn) as [Hp [(r & Hr & E)|Ha]]; (split; [done|]); [left|by right].
      exists r. cbn. split; [by apply elem_of_app; left|done].
  - apply lookup_insert_Some in Hn as [[<- <-]|[Hna Hn]].
    + split; [apply (bool_decide_unpack _); exact I|]. right. by eexists.
    + destruct (Hs n a Hn) as [Hp [Hr|(s & Es & -> & Ea)]]; (split; [done|]); [by left|done].
Qed.

(** [d'] runs the same servers. *)
Definition same_servers d d' : Prop :=
  daBound d' = daBound d /\ daAPI d' = daAPI d /\ map rnSpec (daRunning d') = map rnSpec (daRunning d).
Lemma same_served d d' : same_servers d d' -> served d -> served d'.
Proof.
  intros (Eb & Ea & Er) Hs n a Hn. rewrite Eb in Hn. destruct (Hs n a Hn) as [Hp Hu]. split; [done|].
  destruct Hu as [(r & Hr & E)|Hu]; [left|right; by rewrite Ea].
  assert (rnSpec r ∈ map rnSpec (daRunning d')) as Hin.
  { rewrite Er. apply list_elem_of_In, in_map. by apply list_elem_of_In. }
  apply list_elem_of_In, in_map_iff in Hin as (r' & E' & Hr'). exists r'. rewrite E'. split; [by apply list_elem_of_In|done].
Qed.
Lemma ensure_served listen l d : served d -> served (ensureListeners counters listen l d).2.
Proof. intros Hs. induction (ensureListeners_opens counters listen l d) as [|d1 d2 d3 Ho _ IH]; [done|]. apply IH. by eapply opens_served. Qed.

Lemma reload_same disk d ok d' : reload_manager ParseIP disk d = (ok, d') -> same_servers d d'.
Proof. intros E. apply (Load_quiet_manager ParseIP) in E as [-> _]. done. Qed.
Lemma enforce_served su d0 d : same_servers d0 d -> served d0 -> served (enforce counters su d).
Proof.
  intros Hsame Hs. apply ensure_served. eapply same_served; [|exact Hs]. destruct Hsame as (Eb & Ea & Er).
  unfold updateAll. split_and!; cbn [daBound daAPI daRunning]; [done..|]. rewrite <- Er, map_map. reflexivity.
Qed.

Lemma reachable_served p d : reachable counters ParseIP p d -> served d.
Proof.
  induction 1 as [disk su d Hs|d ev _ IH].
  - unfold start, NewManager, mbind, M_bind in Hs. destruct (Load ParseIP p disk) as [[[l|e]|e] w']; [|done..]. cbn in Hs.
    match type of Hs with context [ensureListeners ?c ?li ?l ?d0] =>
      pose proof (ensure_served li l d0) as H1; destruct (ensureListeners c li l d0) as [[] d1] end; [done|].
    injection Hs as <-. apply H1. intros n a Hn. cbn [daBound] in Hn. by rewrite lookup_empty in Hn.
  - destruct ev as [su|disk su|disk]; cbn [step].
    + by apply (enforce_served su d).
    + destruct (reload_manager ParseIP disk d) as [[] d1] eqn:E; apply reload_same in E; [|by eapply same_served].
      by apply (enforce_served su d).
    + destruct (reload_manager ParseIP disk d) as [ok d1] eqn:E. apply reload_same in E. by eapply same_served.
Qed.

Lemma published n a d : mkListener n a ∈ publishListeners (daBound d) <-> n ∈ protocols /\ daBound d !! n = Some a.
Proof.
  unfold publishListeners. rewrite list_elem_of_omap. split.
  - intros (m & Hm & E). destruct (daBound d !! m) as [b|] eqn:Eb; [|done]. injection E as <- <-. by split.
  - intros [Hn Hb]. exists n. rewrite Hb. by split.
Qed.

Lemma up_published p d n a : reachable counters ParseIP p d -> (mkListener n a ∈ publishListeners (daBound d) <-> up d n a).
Proof.
  intros Hr. pose proof (reachable_ok counters ParseIP p d Hr) as Hok. pose proof (reachable_served p d Hr) as Hs.
  rewrite published. split; [intros [_ Hb]; by apply Hs|]. intros Hu.
  assert (daBound d !! n = Some a) as Hb; [|split; [by apply (Hs n a)|done]].
  destruct Hu as [(r & Hin & <- & <-)|(s & Es & -> & <-)].
  - pose proof (do_bound _ _ _ Hok) as Hf. rewrite Forall_forall in Hf. by apply Hf.
  - pose proof (do_api _ _ _ Hok) as Ha. rewrite Es in Ha. apply Ha.
Qed.
End Truth.

(** ** The report, from the daemon to the terminal *)

Section Asked.
Context {Key Certificate : Type} `{KC : Dkim.KeyCodec Key} `{RC : ReportCodec} `{!LawfulReportCodec} `{YC : YamlCodec} (ParseIP : str -> option Container.IP).
Context (render_warning : message -> str) (version : str) (counters : option Stats.Counters).
Implicit Types d : @daemon Certificate.

Lemma domain_info_total l dkimDir h w : exists k w', domain_info l dkimDir h w =
  (Ok (mkDomainInfo (dName (hdDomain h)) (storage_name h) (mailboxes_of (ldRoot l) (dName (hdDomain h))) k), w').
Proof.
  unfold domain_info, Dkim.Signer.
  match goal with |- context [try ?m] => destruct (m w) as [r w1] eqn:E end.
  eexists _, w1. unfold mbind, M_bind, try. rewrite E. reflexivity.
Qed.
Lemma Size_total queueDir w : exists n w', Queue.Size queueDir w = (Ok n, w').
Proof.
  unfold Queue.Size. match goal with |- context [try ?m] => destruct (m w) as [r w1] eqn:E end.
  eexists _, w1. unfold mbind, M_bind, try. rewrite E. reflexivity.
Qed.
Lemma domain_infos_total l dkimDir hs : forall w, exists ds w', domain_infos l dkimDir hs w = (Ok ds, w') /\
  map diName ds = map (fun h => dName (hdDomain h)) hs.
Proof.
  induction hs as [|h hs IH]; intros w; cbn [domain_infos]; [by eexists [], w|].
  destruct (domain_info_total l dkimDir h w) as (k & w1 & E). rewrite (bind_ok _ _ _ _ _ E).
  destruct (IH w1) as (ds & w2 & E2 & Hn). rewrite (bind_ok _ _ _ _ _ E2). eexists _, w2. split; [reflexivity|]. cbn [map diName]. by rewrite Hn.
Qed.
Lemma buildStatus_total d dkimDir queueDir started now w : exists rep w',
  buildStatus render_warning version d dkimDir queueDir started counters now w = (Ok rep, w') /\
  rpSchema rep = schemaVersion /\ rpListeners rep = publishListeners (daBound d) /\
  rpTLSLoaded rep = CertStore.Loaded (daStore d) /\
  map diName (rpDomains rep) = map (fun h => dName (hdDomain h)) (cfDomains (ldRoot (Get (daManager d)))).
Proof.
  unfold buildStatus. destruct (domain_infos_total (Get (daManager d)) dkimDir (cfDomains (ldRoot (Get (daManager d)))) w) as (ds & w1 & E & Hn).
  rewrite (bind_ok _ _ _ _ _ E). destruct (Size_total queueDir w1) as (n & w2 & E2). rewrite (bind_ok _ _ _ _ _ E2).
  eexists _, w2. split; [reflexivity|]. by split_and!.
Qed.

(** C17. [verta --status] tells the truth: whatever a daemon has been through, its
    client reads the report that was built, and in it a protocol is listed with
    an address exactly when a server was bound to it, with the certificates
    that are loaded and the domains of the configuration in force.  (A server
    whose [Serve] has ended with an error stays listed.) *)
Theorem status_truthful p d dkimDir queueDir started now w sock :
  reachable counters ParseIP p d ->
  exists rep w', buildStatus render_warning version d dkimDir queueDir started counters now w = (Ok rep, w') /\
    (forall n a, mkListener n a ∈ rpListeners rep <-> up d n a) /\
    rpTLSLoaded rep = CertStore.Loaded (daStore d) /\
    map diName (rpDomains rep) = map (fun h => dName (hdDomain h)) (cfDomains (ldRoot (Get (daManager d)))) /\
    (Forall is_ascii (texts rep) -> Query sock (fun _ => Ok (answer rep)) = Ok rep).
Proof.
  intros Hr. destruct (buildStatus_total d dkimDir queueDir started now w) as (rep & w' & E & Hs & Hl & Ht & Hn).
  exists rep, w'. split_and!; [done| |done|done|].
  - intros n a. rewrite Hl. by eapply up_published.
  - intros Ha. destruct (report_law rep Ha) as (s & Es & Ed). unfold Query, answer. rewrite Es. cbn. by rewrite Ed, Hs.
Qed.
End Asked.

(** ** A daemon asked *)

Definition counters_tuple (c : Stats.Counters) : list Z :=
  [Stats.ctReceived c; Stats.ctRejected c; Stats.ctSpam c; Stats.ctRelayDeny c; Stats.ctSubmitted c; Stats.ctAuthOK c;
   Stats.ctAuthFail c; Stats.ctDelivered c; Stats.ctBounced c; Stats.ctDeferred c].
Definition tuple_counters (l : list Z) : Stats.Counters :=
  match l with
  | [a; b; c; d; e; f; g; h; i; j] => Stats.mkCounters a b c d e f g h i j
  | _ => Stats.zeroCounters
  end.
Abbreviation flat_domain := (str * str * Z * bool)%type.
Abbreviation flat_report :=
  (Z * str * str * Z * str * list flat_domain * Z * list (str * str) * list str * Z * list Z * list str * str)%type.
Definition flatten (r : Report) : flat_report :=
  (rpSchema r, rpVersion r, rpHostname r, rpPID r, rpUptime r,
   map (fun d => (diName d, diStorage d, diMailboxes d, diDKIM d)) (rpDomains r), rpMailboxes r,
   map (fun l => (liProtocol l, liAddress l)) (rpListeners r), rpTLSLoaded r, rpQueueDepth r,
   counters_tuple (rpCounters r), rpWarnings r, rpReloadError r).
Definition unflatten (t : flat_report) : Report :=
  let '(s, v, h, p, u, ds, m, ls, tls, q, c, ws, e) := t in
  mkReport s v h p u (map (fun d : flat_domain => let '(n, st, k, b) := d in mkDomainInfo n st k b) ds) m
    (map (fun l => mkListener l.1 l.2) ls) tls q (tuple_counters c) ws e.
Lemma unflatten_flatten r : unflatten (flatten r) = r.
Proof.
  destruct r as [s v h p u ds m ls tls q [] ws e]. unfold flatten, unflatten. cbn. rewrite !map_map. f_equal.
  - rewrite <- (map_id ds) at 2. apply map_ext. by intros [].
  - rewrite <- (map_id ls) at 2. apply map_ext. by intros [].
Qed.
#[local] Instance toy_report : ReportCodec := {
  Encode r := Some (pos_bits (encode (flatten r)));
  Decode s := match decode (bits_pos s) with Some t => Ok (unflatten t) | None => Err #"unexpected EOF" end }.
#[local] Instance toy_report_lawful : LawfulReportCodec.
Proof.
  constructor. intros r _. eexists. split; [reflexivity|]. cbn [Decode toy_report].
  by rewrite bits_pos_bits, decode_encode, unflatten_flatten.
Qed.

Definition asked (d : @daemon str) : M Report :=
  buildStatus (fun _ => []) #"1.0" d Dkim.key_dir [ #"queue"] 0 None (90 * 10 ^ 9).

Lemma status_truthful_witness :
  match daemon_one with
  | Some d =>
      exists rep w', asked d disk_one = (Ok rep, w') /\
        (forall n a, mkListener n a ∈ rpListeners rep <-> up d n a) /\
        rpTLSLoaded rep = CertStore.Loaded (daStore d) /\
        map diName (rpDomains rep) = map (fun h => dName (hdDomain h)) (cfDomains (ldRoot (Get (daManager d)))) /\
        (Forall is_ascii (texts rep) -> Query #"/run/verta/verta.sock" (fun _ => Ok (answer rep)) = Ok rep)
  | None => False
  end.
Proof.
  pose proof daemon_one_starts as Hs. destruct daemon_one as [d|] eqn:E; [|discriminate Hs].
  apply (@status_truthful str str Dkim.toy_keys toy_report toy_report_lawful two_editions no_ip (fun _ => []) #"1.0" None
           toy_main d Dkim.key_dir [ #"queue"] 0 (90 * 10 ^ 9) disk_one #"/run/verta/verta.sock").
  exact (reach_start None no_ip toy_main disk_one quiet_day d E).
Defined.

(** What the terminal shows of it. *)
Example status_shown :
  (fun d => match (asked d disk_one).1 with
            | Ok rep => take 16 (GoStrings.split LF (Print rep))
            | Err _ => []
            end) <$> daemon_one
  = Some [ #"verta 1.0  mx1.example.com"; #"  pid 0, up 1m30s"; []; #"Listeners"; #"  smtp         :25";
           #"  submission   :587"; #"  smtps        :465"; #"  imap         :143"; #"  imaps        :993";
           #"  pop3         :110"; #"  pop3s        :995"; #"  api          :8443"; []; #"TLS"; #"  example.com"; [] ].
Proof. vm_compute. reflexivity. Qed.
