(* ===== verification/Logging.v ===== *)
(** * The log stream across rotations (internal/logging/logging.go)

    A file that is appended to and reopened in place while logrotate moves it
    away.  A name leads to a file by its number, so that a renamed file is still
    the file that is open; files are numbered in the order of their creation.
    [Write] and [Reopen] hold the mutex, so a run is a sequence of calls. *)

From S2P Require Import Prelude GoStrings.

Record disk := mkDisk { dkNames : gmap str nat; dkData : list str }.

Record reopenFile := mkReopenFile { rfPath : str; rfFile : option nat }.

(** [os.OpenFile] with O_CREATE, O_WRONLY and O_APPEND; [ok] is whether it
    works. *)
Definition OpenFile (ok : bool) (p : str) (d : disk) : result str nat * disk :=
  if negb ok then (Err #"open", d)
  else match dkNames d !! p with
       | Some n => (Ok n, d)
       | None => let n := length (dkData d) in (Ok n, mkDisk (<[p := n]> (dkNames d)) (dkData d ++ [ [] ]))
       end.

Definition openFile (ok : bool) (p : str) (d : disk) : result str reopenFile * disk :=
  let '(r, d) := OpenFile ok p d in
  (match r with Ok n => Ok (mkReopenFile p (Some n)) | Err e => Err e end, d).

(** [f.Write] accepts [k] bytes of [p]: all of them, or fewer with an error. *)
Definition Write (r : reopenFile) (p : str) (k : nat) (d : disk) : nat * option str * disk :=
  match rfFile r with
  | None => (0%nat, Some #"file already closed", d)
  | Some n =>
      let k := Nat.min k (length p) in
      (k, if Nat.eqb k (length p) then None else Some #"write",
       mkDisk (dkNames d) (alter (fun s => s ++ take k p) n (dkData d)))
  end.

Definition Reopen (ok : bool) (r : reopenFile) (d : disk) : option str * reopenFile * disk :=
  let '(f, d) := OpenFile ok (rfPath r) d in
  match f with
  | Err e => (Some e, r, d)
  | Ok n => (None, mkReopenFile (rfPath r) (Some n), d)
  end.

Definition Close (r : reopenFile) : reopenFile := mkReopenFile (rfPath r) None.

(** [Logs]: with a file, or on a writer of its own. *)
Record Logs := mkLogs { lgService : option reopenFile }.
(** [Open], in a directory that could be made or not. *)
Definition Open (made ok : bool) (dir : str) (d : disk) : result str Logs * disk :=
  if negb made then (Err #"mkdir", d)
  else let '(r, d) := openFile ok (dir ++ #"/verta.log") d in
       (match r with Ok f => Ok (mkLogs (Some f)) | Err e => Err e end, d).
Definition OpenWriter : Logs := mkLogs None.
Definition ReopenLogs (ok : bool) (l : Logs) (d : disk) : option str * Logs * disk :=
  match lgService l with
  | None => (None, l, d)
  | Some f => let '(e, f, d) := Reopen ok f d in (e, mkLogs (Some f), d)
  end.
Definition CloseLogs (l : Logs) : Logs := mkLogs (Close <$> lgService l).

(** ** What happens to a log *)

(** logrotate moves the file to a name not in use and may create the next
    one; the daemon writes and reopens. *)
Inductive event :=
| Line (p : str) (k : nat)      (** a record, of which [k] bytes are accepted *)
| Hup (ok : bool)               (** SIGHUP *)
| Rotate (old : str)            (** rename verta.log *)
| Create.                       (** an empty verta.log *)

Record state := mkState { stFile : reopenFile; stDisk : disk; stAccepted : str }.

Definition rotate (p old : str) (d : disk) : disk :=
  match dkNames d !! p, dkNames d !! old with
  | Some n, None => mkDisk (<[old := n]> (delete p (dkNames d))) (dkData d)
  | _, _ => d
  end.
Definition step (s : state) (ev : event) : state :=
  match ev with
  | Line p k =>
      let '(n, _, d) := Write (stFile s) p k (stDisk s) in mkState (stFile s) d (stAccepted s ++ take n p)
  | Hup ok => let '(_, f, d) := Reopen ok (stFile s) (stDisk s) in mkState f d (stAccepted s)
  | Rotate old => mkState (stFile s) (rotate (rfPath (stFile s)) old (stDisk s)) (stAccepted s)
  | Create => mkState (stFile s) (OpenFile true (rfPath (stFile s)) (stDisk s)).2 (stAccepted s)
  end.
Definition run (s : state) (evs : list event) : state := fold_left step evs s.

(** ** Nothing is lost *)

(** The file at the path is the newest, the open file has everything but the
    empty files after it, and the files one after the other are what was
    accepted. *)
Record kept (s : state) : Prop := {
  kp_open : exists n before data after, rfFile (stFile s) = Some n /\ dkData (stDisk s) = before ++ data :: after /\
              length before = n /\ Forall (fun x => x = []) after;
  kp_path : forall m, dkNames (stDisk s) !! rfPath (stFile s) = Some m -> S m = length (dkData (stDisk s));
  kp_all : mjoin (dkData (stDisk s)) = stAccepted s }.

Lemma mjoin_middle (before after : list str) x : Forall (fun x => x = []) after ->
  mjoin (before ++ x :: after) = mjoin before ++ x.
Proof.
  intros Ha. rewrite join_app. change (mjoin (x :: after)) with (x ++ mjoin after). by rewrite (join_nil_2 after), app_nil_r by done.
Qed.
Lemma alter_middle {A} (f : A -> A) (before after : list A) x :
  alter f (length before) (before ++ x :: after) = before ++ f x :: after.
Proof. induction before as [|y before IH]; cbn; [done|]. f_equal. exact IH. Qed.

Lemma kept_open s n before data after : dkData (stDisk s) = before ++ data :: after ->
  rfFile (stFile s) = Some n -> length before = n -> Forall (fun x => x = []) after ->
  (forall m, dkNames (stDisk s) !! rfPath (stFile s) = Some m -> S m = length (dkData (stDisk s))) ->
  mjoin (dkData (stDisk s)) = stAccepted s -> kept s.
Proof. intros. split; [|done..]. by exists n, before, data, after. Qed.

Lemma rotate_data p old d : dkData (rotate p old d) = dkData d.
Proof. unfold rotate. destruct (dkNames d !! p); [|done]. by destruct (dkNames d !! old). Qed.
Lemma rotate_name p old d m : dkNames (rotate p old d) !! p = Some m -> dkNames d !! p = Some m.
Proof.
  unfold rotate. destruct (dkNames d !! p) as [k|] eqn:Ep; [|congruence]. destruct (dkNames d !! old) eqn:Eo; [congruence|].
  cbn. intros [[-> _]|[_ H]]%lookup_insert_Some; [congruence|]. by rewrite lookup_delete_eq in H.
Qed.

Lemma step_kept s ev : kept s -> kept (step s ev).
Proof.
  intros [(n & before & data & after & Hf & Hd & Hn & Ha) Hp Hall]. destruct s as [[p f] [names fs] acc].
  cbn [stFile stDisk stAccepted rfFile rfPath dkNames dkData] in *. subst f fs. destruct ev as [q k|ok|old|]; cbn [step].
  - cbn [Write rfFile stFile stDisk dkData dkNames]. rewrite <- Hn, alter_middle. set (j := Nat.min k (length q)).
    apply (kept_open _ (length before) before (data ++ take j q) after); cbn; try done.
    + intros m Hm. specialize (Hp m Hm). by rewrite length_app in *.
    + rewrite <- Hall, !mjoin_middle by done. by rewrite app_assoc.
  - destruct ok; [|by apply (kept_open _ n before data after)]. unfold Reopen, OpenFile.
    cbn [negb rfPath stFile stDisk dkNames dkData stAccepted]. destruct (names !! p) as [m|] eqn:Em.
    + specialize (Hp m eq_refl). destruct after as [|x after _] using rev_ind.
      * rewrite length_app in Hp. cbn in Hp. apply (kept_open _ m before data []); cbn; try done; try lia.
        intros m' Hm'. rewrite Em in Hm'. injection Hm' as <-. rewrite length_app. cbn. lia.
      * apply Forall_app in Ha as [Ha Hx]. apply Forall_inv in Hx as ->.
        apply (kept_open _ m (before ++ data :: after) [] []); cbn; try done; try apply Forall_nil_2.
        -- by rewrite <- app_assoc.
        -- rewrite !length_app in *. cbn in *. rewrite length_app in Hp. cbn in Hp. lia.
        -- intros m' Hm'. rewrite Em in Hm'. injection Hm' as <-. done.
    + apply (kept_open _ (length (before ++ data :: after)) (before ++ data :: after) [] []); cbn; try done; try apply Forall_nil_2.
      * intros m Hm. rewrite lookup_insert_eq in Hm. injection Hm as <-. rewrite !length_app. cbn. lia.
      * rewrite join_app. cbn. by rewrite app_nil_r.
  - apply (kept_open _ n before data after); cbn [stFile stDisk stAccepted rfFile rfPath]; rewrite ?rotate_data; try done.
    intros m Hm%rotate_name. by apply Hp.
  - unfold OpenFile. cbn [negb rfPath stFile stDisk dkNames dkData stAccepted]. destruct (names !! p) as [m|] eqn:Em; cbn [snd].
    + apply (kept_open _ n before data after); cbn; try done. intros m' Hm'. rewrite Em in Hm'. by apply Hp.
    + apply (kept_open _ n before data (after ++ [ [] ])); cbn; try done.
      * by rewrite <- app_assoc.
      * apply Forall_app. by split; [|repeat constructor].
      * intros m Hm. rewrite lookup_insert_eq in Hm. injection Hm as <-. rewrite !length_app. cbn. lia.
      * rewrite join_app. cbn. by rewrite app_nil_r.
Qed.

(** C19. Through any number of rotations, reopenings that work or do not, and
    records of which only a part is accepted: the files of the log one after
    the other hold exactly what was accepted, nothing lost and nothing twice;
    and after a reopening that works, records go to the file at the path. *)
Theorem log_complete p evs :
  let s0 := mkState (mkReopenFile p (Some 0%nat)) (mkDisk {[p := 0%nat]} [ [] ]) [] in
  let s := run s0 evs in
  mjoin (dkData (stDisk s)) = stAccepted s /\
  (let s' := step s (Hup true) in rfFile (stFile s') = dkNames (stDisk s') !! p).
Proof.
  intros s0 s. assert (kept s /\ rfPath (stFile s) = p) as [Hk Hp].
  { subst s. assert (kept s0 /\ rfPath (stFile s0) = p) as H0.
    { split; [|done]. apply (kept_open _ 0 [] [] []); try done; try apply Forall_nil_2. intros m Hm. cbn in Hm. rewrite lookup_singleton_eq in Hm. by injection Hm as <-. }
    revert H0. generalize s0. induction evs as [|ev evs IH]; intros st H0; [done|]. apply IH. destruct H0 as [H0 Hp]. split; [by apply step_kept|].
    rewrite <- Hp. destruct ev as [q k|ok|old|]; cbn [step]; [unfold Write; by destruct (rfFile (stFile st))| |done|done].
    unfold Reopen. by destruct (OpenFile ok _ _) as [[] ?]. }
  split; [apply Hk|]. cbn [step]. unfold Reopen, OpenFile. cbn [negb].
  destruct (dkNames (stDisk s) !! rfPath (stFile s)) as [m|] eqn:Em; cbn; rewrite <- Hp.
  - by rewrite Em.
  - by rewrite lookup_insert_eq.
Qed.

(** logrotate renames the file; a record before the SIGHUP still goes to the
    renamed file, the next one to the new file. *)
Example rotated :
  let s := run (mkState (mkReopenFile #"verta.log" (Some 0%nat)) (mkDisk {[ #"verta.log" := 0%nat]} [ [] ]) [])
             [Line #"a" 1; Rotate #"verta.log.1"; Line #"b" 1; Hup false; Line #"c" 1; Hup true; Line #"d" 1] in
  dkData (stDisk s) = [ #"abc"; #"d"] /\ dkNames (stDisk s) !! #"verta.log" = Some 1%nat /\
  dkNames (stDisk s) !! #"verta.log.1" = Some 0%nat.
Proof. vm_compute. by split_and!. Qed.
