(* ===== verification/Cli.v ===== *)
(** * The command line (cmd/verta/main.go)

    Which word is which command, and what the one-shot commands do with their
    arguments.  Package flag has taken the flags apart: a command gets their
    values.  A line of input is the text up to its line end. *)

From S2P Require Import Prelude GoStrings GoOS Base64 Auth Config Settings ConfigLoad.
From S2P Require Checks Dkim Probe Proc Status Host Bootstrap.

#[global] Open Scope Z_scope.

(** ** Commands *)

Definition serviceVerbs : list str := [ #"start"; #"stop"; #"reload"; #"restart"].
Definition flagCommands : list str :=
  [ #"init"; #"purge"; #"status"; #"check-config"; #"version"; #"hash-password"; #"generate-dkim"; #"audit";
    #"security-check"; #"container-check"].
Definition listed (w : str) (l : list str) : bool := existsb (fun x => x =s w) l.

Definition normalizeCommand (cmd : str) : result str str :=
  if has_prefix #"--" cmd then
    let bare := drop 2 cmd in
    if listed bare flagCommands then Ok bare
    else if listed bare serviceVerbs then
      Err (#"service commands take no leading --: use " ++ Probe.Quote bare ++ #", not " ++ Probe.Quote cmd)
    else Err (#"unknown command " ++ Probe.Quote cmd)
  else if listed cmd serviceVerbs then Ok cmd
  else if listed cmd flagCommands then
    Err (#"this command takes a leading --: use " ++ Probe.Quote (#"--" ++ cmd) ++ #", not " ++ Probe.Quote cmd)
  else Err (#"unknown command " ++ Probe.Quote cmd).

(** The cases of the switch in [main]; [None] is its default. *)
Inductive command :=
| Start | Stop | Reload | Restart | CheckConfig | Init | Purge | Status | Version | HashPassword | GenerateDKIM
| SecurityCheck | Audit | ContainerCheck.
Definition command_of (cmd : str) : option command :=
  if cmd =s #"start" then Some Start
  else if cmd =s #"stop" then Some Stop
  else if cmd =s #"reload" then Some Reload
  else if cmd =s #"restart" then Some Restart
  else if cmd =s #"check-config" then Some CheckConfig
  else if cmd =s #"init" then Some Init
  else if cmd =s #"purge" then Some Purge
  else if cmd =s #"status" then Some Status
  else if cmd =s #"version" then Some Version
  else if cmd =s #"hash-password" then Some HashPassword
  else if cmd =s #"generate-dkim" then Some GenerateDKIM
  else if cmd =s #"security-check" then Some SecurityCheck
  else if cmd =s #"audit" then Some Audit
  else if cmd =s #"container-check" then Some ContainerCheck
  else None.

(** ** Outcomes: what is printed, and the exit code *)

Record outcome := mkOutcome { ocOut : str; ocErr : str; ocCode : Z }.
Definition line (s : str) : str := s ++ [LF].
Definition fatal (e : str) : outcome := mkOutcome [] (line (#"verta: " ++ e)) 1.
Definition done_with (s : str) : outcome := mkOutcome s [] 0.

(** *** check-config *)

Definition check_domain (c : Root) (h : Hosted) : str :=
  let name := dName (hdDomain h) in
  line (#"  " ++ Status.left_justified 30 name ++ #" " ++ Status.left_justified 12 (Status.storage_name h) ++ #" "
        ++ dec (Status.mailboxes_of c name) ++ #" mailbox(es)").
Definition check_config (render_warning : message -> str) (cfgPath : str) (loaded : result message Loaded) : outcome :=
  match loaded with
  | Err e => mkOutcome [] (line (#"config error: " ++ render_warning e)) 1
  | Ok l =>
      let c := ldRoot l in
      done_with (
        mjoin (map (fun w => line (#"warning: " ++ render_warning w)) (ldWarnings l))
        ++ line (cfgPath ++ #": config OK")
        ++ line (#"domains: " ++ dec (Z.of_nat (length (cfDomains c))) ++ #" from " ++ cfDomainsDir c)
        ++ mjoin (map (check_domain c) (cfDomains c)))
  end.

(** *** hash-password (and internal/auth/password.go) *)

Section Hashing.
Context (argon2 : str -> str -> Z -> Z -> Z -> nat -> str).

Definition argonMemory : Z := 64 * 1024.
Definition argonTime : Z := 3.
Definition argonThreads : Z := 4.
Definition argonKeyLen : nat := 32.
Definition argonSaltLen : nat := 16.

Definition params_text : str := #"m=" ++ dec argonMemory ++ #",t=" ++ dec argonTime ++ #",p=" ++ dec argonThreads.
(** [salt] is what [rand.Read] gives. *)
Definition HashArgon2id (password : str) (salt : option str) : result str str :=
  match salt with
  | None => Err #"rand"
  | Some salt =>
      let key := argon2 password salt argonTime argonMemory argonThreads argonKeyLen in
      Ok (#"$argon2id$v=" ++ dec argon2_version ++ #"$" ++ params_text ++ #"$" ++ encode_raw salt ++ #"$" ++ encode_raw key)
  end.

(** The line read, with its line end when there is one. *)
Definition read_line (input : str) : str := let '(l, _, nl) := cut LF input in if nl : bool then l ++ [LF] else l.
Definition typed_password (input : str) : str := trim_right [CR; LF] (read_line input).
Definition hash_password (input : str) (salt : option str) : outcome :=
  let prompt := #"password: " in
  let failing e := mkOutcome [] (prompt ++ ocErr (fatal e)) 1 in
  if read_line input =s [] then failing #"EOF"
  else
    let pw := typed_password input in
    if pw =s [] then failing #"empty password"
    else match HashArgon2id pw salt with
         | Err e => failing e
         | Ok h => mkOutcome (line h) prompt 0
         end.
End Hashing.

(** *** generate-dkim *)

Section Keys.
Context {Key : Type} `{Dkim.KeyCodec Key} (Error : error -> str).

Definition record_text (r : str * str) : str := r.1 ++ #". IN TXT " ++ Probe.Quote r.2.
(** [args] is what is left after the flags. *)
Definition generate_dkim (dir : path) (selector : str) (args : list str) (fresh : option Key) : M outcome :=
  match args with
  | [arg] =>
      let domain := to_lower arg in
      r ← try (Dkim.Generate dir domain selector fresh);
      match r with
      | Ok rec =>
          mret (done_with (line (#"DKIM key generated for " ++ domain ++ #" (selector " ++ selector ++ #").")
                           ++ line [] ++ line #"Publish this DNS record:" ++ line [] ++ line (record_text rec)))
      | Err e =>
          t ← try (Dkim.TXTRecord dir domain selector);
          mret (match t with
                | Ok rec => mkOutcome (line [] ++ line #"Existing DNS record:" ++ line [] ++ line (record_text rec))
                                      (ocErr (fatal (Error e))) 0
                | Err _ => fatal (Error e)
                end)
      end
  | _ => mret (fatal #"usage: verta --generate-dkim [--selector s] [--dir d] <domain>")
  end.
End Keys.

(** *** The reports *)

Definition report_title (c : command) : str :=
  match c with
  | SecurityCheck => #"verta security check"
  | Audit => #"verta configuration audit"
  | _ => #"verta container check"
  end.
Definition run_check (render_warning : message -> str) (c : command) (loaded : result message Loaded)
    (report : Loaded -> Checks.Report) : outcome :=
  match loaded with
  | Err e => mkOutcome [] (line (#"config error: " ++ render_warning e)) 1
  | Ok l => let r := report l in mkOutcome (Checks.Print r (report_title c)) [] (Checks.ExitCode r)
  end.

(** *** status and version *)

Definition status_command (indented : Status.Report -> result str str) (asJSON : bool) (r : result str Status.Report) : outcome :=
  match r with
  | Err e => fatal e
  | Ok rep =>
      if asJSON then match indented rep with Ok s => done_with s | Err e => fatal e end
      else done_with (Status.Print rep)
  end.
Definition version_command (version : str) : outcome := done_with (line (#"verta " ++ version)).

(** *** The service verbs *)

Section Service.
Context (alive : world -> Z -> bool) (kill : Z -> Proc.sig -> M unit) (runDaemon : str -> str -> str -> M unit).

(** [None] for the words that are not verbs, and when the fuel of the wait is
    spent. *)
Definition ran (m : M unit) : M (option unit) := m ≫= fun _ => mret (Some tt).
Definition service (fuel : nat) (c : command) (cfgPath pidfile sock : str) : M (option unit) :=
  match c with
  | Start => ran (runDaemon cfgPath pidfile sock)
  | Stop => ran (Proc.Stop kill (abs_path pidfile))
  | Reload => ran (Proc.Reload kill (abs_path pidfile))
  | Restart =>
      gone ← Proc.StopAndWait alive kill fuel (abs_path pidfile) (30 * 10 ^ 9);
      match gone with
      | Some _ => ran (runDaemon cfgPath pidfile sock)
      | None => mret None
      end
  | _ => mret None
  end.
End Service.

(** *** start, before the configuration is loaded *)

Section Starting.
Context (windows : bool) (umask : Z) (defaultConfig : str).

(** The default layout is made when its configuration is asked for and is not
    there. *)
Definition provision (cfgPath : str) : Host.W unit :=
  if cfgPath =s Bootstrap.ConfigFile then
    r ← Bootstrap.found (abs_path cfgPath);
    match r with
    | Err e =>
        if IsNotExist e then
          Host.sayln #"verta: no config found, provisioning default layout" ≫= fun _ =>
          Bootstrap.EnsureLayout windows umask defaultConfig
        else mret tt
    | Ok _ => mret tt
    end
  else mret tt.
End Starting.

(** ** Every accepted command is handled *)

Lemma listed_spec w l : listed w l = true <-> w ∈ l.
Proof.
  unfold listed. rewrite existsb_exists. split.
  - intros (x & Hx & E). apply str_eqb_eq in E as ->. by apply list_elem_of_In.
  - intros H. exists w. split; [by apply list_elem_of_In|apply str_eqb_refl].
Qed.
Lemma verbs_bare : Forall (fun w => has_prefix #"--" w = false /\ is_Some (command_of w)) serviceVerbs.
Proof. apply (bool_decide_unpack _). vm_compute. exact I. Qed.
Lemma flags_handled : Forall (fun w => is_Some (command_of w)) flagCommands.
Proof. apply (bool_decide_unpack _). vm_compute. exact I. Qed.

(** A service verb is accepted as a bare word, every other command with two
    dashes, nothing else is, and the default of the switch is unreachable. *)
Theorem commands_handled cmd :
  (forall w, normalizeCommand cmd = Ok w <->
     (cmd = w /\ w ∈ serviceVerbs) \/ (cmd = #"--" ++ w /\ w ∈ flagCommands)) /\
  match normalizeCommand cmd with Ok w => is_Some (command_of w) | Err _ => True end.
Proof.
  assert (forall w, normalizeCommand cmd = Ok w <->
     (cmd = w /\ w ∈ serviceVerbs) \/ (cmd = #"--" ++ w /\ w ∈ flagCommands)) as Hiff.
  { intros w. pose proof verbs_bare as Hv. rewrite Forall_forall in Hv.
    unfold normalizeCommand. destruct (has_prefix #"--" cmd) eqn:Ep.
    - apply has_prefix_spec in Ep as [bare ->]. change (drop 2 (#"--" ++ bare)) with bare.
      assert (~ (#"--" ++ bare = w /\ w ∈ serviceVerbs)) as Hno.
      { intros [<- Hin]. apply Hv in Hin as [Hin _]. by rewrite has_prefix_app in Hin. }
      destruct (listed bare flagCommands) eqn:El.
      + apply listed_spec in El. split; [intros [= <-]; by right|]. intros [H|[E _]]; [done|]. apply (inj (app #"--")) in E. by subst.
      + split; [by destruct (listed bare serviceVerbs)|]. intros [H|[E Hin]]; [done|]. apply (inj (app #"--")) in E. subst.
        apply listed_spec in Hin. congruence.
    - destruct (listed cmd serviceVerbs) eqn:El.
      + apply listed_spec in El. split; [intros [= <-]; by left|]. intros [[-> _]|[-> _]]; [done|]. by rewrite has_prefix_app in Ep.
      + split; [by destruct (listed cmd flagCommands)|]. intros [[-> Hin]|[-> _]]; [apply listed_spec in Hin; congruence|].
        by rewrite has_prefix_app in Ep. }
  split; [exact Hiff|]. destruct (normalizeCommand cmd) as [w|]; [|done]. destruct (proj1 (Hiff w) eq_refl) as [[_ Hin]|[_ Hin]].
  - pose proof verbs_bare as Hv. rewrite Forall_forall in Hv. by apply Hv.
  - pose proof flags_handled as Hf. rewrite Forall_forall in Hf. by apply Hf.
Qed.

(** ** restart does not race the old daemon *)

(** [verta restart] comes to an end of its wait, and the new daemon starts only
    where no process answers under the pid of the pidfile any more; otherwise
    nothing is started and the error is reported. *)
Theorem restart_waits (alive : world -> Z -> bool) kill runDaemon fuel cfgPath pidfile sock w :
  Proc.regular w -> 30 * 10 ^ 9 < Proc.pause * Z.of_nat fuel ->
  (forall pid s w, Proc.regular w -> Proc.regular (kill pid s w).2) ->
  (exists e w1, service alive kill runDaemon (S fuel) Restart cfgPath pidfile sock w = (Err e, w1) /\
     Proc.StopAndWait alive kill (S fuel) (abs_path pidfile) (30 * 10 ^ 9) w = (Err e, w1)) \/
  exists w1, Proc.gone alive (abs_path pidfile) w1 /\
    service alive kill runDaemon (S fuel) Restart cfgPath pidfile sock w = ran (runDaemon cfgPath pidfile sock) w1.
Proof.
  intros Hr Hf Hk. pose proof (Proc.StopAndWait_ends alive kill (abs_path pidfile) (30 * 10 ^ 9) fuel w Hr Hf Hk) as H.
  cbn [service]. destruct (Proc.StopAndWait _ _ _ _ _ w) as [[[[]|]|e] w1] eqn:E; destruct H as [Hn Hg]; [right|done|left].
  - exists w1. split; [by apply Hg|]. by rewrite (bind_ok _ _ _ _ _ E).
  - exists e, w1. split; [by rewrite (bind_err _ _ _ _ _ E)|done].
Qed.

(** ** A hash that was printed verifies *)

Section Verifying.
Context (argon2 : str -> str -> Z -> Z -> Z -> nat -> str) (bcrypt : str -> str -> bool).

Lemma hash_parts salt key :
  GoStrings.split "$" (#"$argon2id$v=" ++ dec argon2_version ++ #"$" ++ params_text ++ #"$" ++ encode_raw salt ++ #"$" ++ encode_raw key)
  = [ []; #"argon2id"; #"v=19"; params_text; encode_raw salt; encode_raw key].
Proof.
  change (#"$argon2id$v=" ++ dec argon2_version ++ #"$" ++ params_text ++ #"$" ++ encode_raw salt ++ #"$" ++ encode_raw key)
    with (join [ "$"%char] [ []; #"argon2id"; #"v=19"; params_text; encode_raw salt; encode_raw key]).
  apply split_join; [done|]. rewrite !Forall_cons, Forall_nil.
  split_and!; try apply dollar_encode_raw; try done; apply (bool_decide_unpack _); vm_compute; exact I.
Qed.

Lemma HashArgon2id_verifies password salt h :
  (forall p s t m n k, length (argon2 p s t m n k) = k) ->
  HashArgon2id argon2 password (Some salt) = Ok h -> VerifyPassword argon2 bcrypt h password = true /\ KnownHashFormat h = true.
Proof.
  intros Hlen H. unfold HashArgon2id in H. cbv zeta in H.
  apply (f_equal (fun r => match r with Ok x => x | Err _ => h end)) in H. cbv beta iota in H. subst h.
  assert (forall r, has_prefix #"$argon2id$" (#"$argon2id$v=" ++ r) = true) as Hp by (by intros r).
  split; [|unfold KnownHashFormat; by rewrite Hp]. unfold VerifyPassword. rewrite Hp. unfold verifyArgon2id. rewrite hash_parts.
  set (key := argon2 _ _ _ _ _ _). assert (length key = argonKeyLen) as Hk by apply Hlen.
  rewrite !decode_encode_raw. change (parse_version #"v=19") with (Some argon2_version).
  change (parse_params params_text) with (Some (argonMemory, argonTime, argonThreads)). cbn [str_eqb andb negb].
  destruct key as [|c r] eqn:Ek; [done|]. cbn [andb]. rewrite Hk, <- Ek. unfold key. apply str_eqb_refl.
Qed.

(** [--hash-password] succeeds exactly when a password was typed and there is
    entropy, and then what it prints is a hash that the configuration accepts
    and under which the typed password, less its line end, authenticates. *)
Theorem hash_password_verifies input salt :
  (forall p s t m n k, length (argon2 p s t m n k) = k) ->
  let o := hash_password argon2 input salt in
  (ocCode o = 0 <-> typed_password input <> [] /\ is_Some salt) /\
  (ocCode o = 0 -> exists h, ocOut o = line h /\ VerifyPassword argon2 bcrypt h (typed_password input) = true /\
                             KnownHashFormat h = true).
Proof.
  intros Hlen o. subst o. unfold hash_password. cbv zeta.
  destruct (str_eqb_spec (read_line input) []) as [E|_].
  { cbn [ocCode]. split; [|done]. split; [done|]. unfold typed_password. rewrite E. by intros [? _]. }
  destruct (str_eqb_spec (typed_password input) []) as [E|Hne]; [cbn [ocCode]; naive_solver|].
  destruct salt as [salt|]; [|cbn; split; [split; [done|by intros [_ [? ?]]]|done]].
  destruct (HashArgon2id argon2 (typed_password input) (Some salt)) as [h|e] eqn:Eh; [|done]. cbn [ocCode ocOut].
  split; [by split; eauto|]. intros _. exists h. split; [done|]. by eapply HashArgon2id_verifies.
Qed.
End Verifying.

(** ** A key that exists is shown, not replaced *)

Section Again.
Context {Key : Type} `{KC : Dkim.KeyCodec Key} `{!Dkim.LawfulKeyCodec Key} (Error : error -> str).

Lemma mk_is_Some' {A B} (f : A -> B) (x : option A) y : f <$> x = Some y -> is_Some x.
Proof. destruct x; [by eexists|done]. Qed.

(** A second [--generate-dkim] for the same domain, in whatever case it is
    typed, changes no file and shows the record of the first. *)
Theorem generate_dkim_again dir selector arg arg' fresh fresh' w txt w1 :
  wFaults w = [] -> to_lower arg' = to_lower arg ->
  Dkim.Generate dir (to_lower arg) selector fresh w = (Ok txt, w1) ->
  exists o w2, generate_dkim Error dir selector [arg'] fresh' w1 = (Ok o, w2) /\ wFiles w2 = wFiles w1 /\
    ocCode o = 0 /\ exists before, ocOut o = before ++ line (record_text txt).
Proof.
  intros Hw Ha E. destruct (Dkim.Generate_writes _ _ _ _ _ _ _ Hw E) as (key & der & pub & Hfr & Hder & Hpub & Et & Hw1 & Hf).
  destruct (Dkim.Generate_TXTRecord _ _ _ _ _ _ _ Hw E) as (_ & _ & _ & _ & _ & _ & Htxt).
  assert (exists e, Dkim.Generate dir (to_lower arg) selector fresh' w1 = (Err e, w1)) as [e Ee].
  { unfold Dkim.Generate, mbind, M_bind, try. pose proof (Dkim.Stat_calm _ _ Hw1 (mk_is_Some' _ _ _ Hf)) as ->. by eexists. }
  assert (frame (fun _ => False) (Dkim.TXTRecord dir (to_lower arg) selector)) as HF by apply Dkim.frame_TXTRecord.
  destruct (Dkim.TXTRecord dir (to_lower arg) selector w1) as [r w2] eqn:Et2. cbn in Htxt. subst r.
  unfold generate_dkim. rewrite Ha. eexists _, w2. split.
  { unfold mbind, M_bind, try. rewrite Ee, Et2. reflexivity. }
  split_and!; [|done|exists (line [] ++ line #"Existing DNS record:" ++ line []); cbn [ocOut]; by rewrite <- !app_assoc]. apply map_eq. intros q. specialize (HF w1 q). rewrite Et2 in HF. apply HF. tauto.
Qed.
End Again.

(** ** Examples *)

Definition toy_argon2 (password salt : str) (t m n : Z) (k : nat) : str := take k (password ++ replicate k "x"%char).
Lemma toy_argon2_length p s t m n k : length (toy_argon2 p s t m n k) = k.
Proof. unfold toy_argon2. rewrite length_take, length_app, length_replicate. lia. Qed.

Lemma restart_waits_witness :
  let alive := Proc.until (80 * 10 ^ 6) in
  let run := fun _ _ _ => mret tt in
  let verb := service alive Proc.deliver run 602 Restart #"c" #"/run/verta.pid" #"s" Proc.daemon_world in
  (exists e w1, verb = (Err e, w1) /\
     Proc.StopAndWait alive Proc.deliver 602 (abs_path #"/run/verta.pid") (30 * 10 ^ 9) Proc.daemon_world = (Err e, w1)) \/
  exists w1, Proc.gone alive (abs_path #"/run/verta.pid") w1 /\ verb = ran (run #"c" #"/run/verta.pid" #"s") w1.
Proof.
  cbv zeta. apply (restart_waits (Proc.until (80 * 10 ^ 6)) Proc.deliver (fun _ _ _ => mret tt) 601 #"c" #"/run/verta.pid" #"s" Proc.daemon_world).
  - split; [reflexivity|constructor].
  - unfold Proc.pause. lia.
  - intros pid s w Hw. exact Hw.
Defined.

Lemma hash_password_verifies_witness :
  let o := hash_password toy_argon2 (#"correct horse" ++ [CR; LF] ++ #"more") (Some #"0123456789abcdef") in
  (ocCode o = 0 <-> typed_password (#"correct horse" ++ [CR; LF] ++ #"more") <> [] /\ is_Some (Some #"0123456789abcdef")) /\
  (ocCode o = 0 -> exists h, ocOut o = line h /\
     VerifyPassword toy_argon2 (fun _ _ => false) h (typed_password (#"correct horse" ++ [CR; LF] ++ #"more")) = true /\
     KnownHashFormat h = true).
Proof.
  exact (hash_password_verifies toy_argon2 (fun _ _ => false) (#"correct horse" ++ [CR; LF] ++ #"more") (Some #"0123456789abcdef") toy_argon2_length).
Defined.

Lemma generate_dkim_again_witness :
  exists o w2, generate_dkim (fun _ => []) Dkim.key_dir [] [ #"B.c"] (Some #"other")
    (Dkim.Generate Dkim.key_dir #"b.c" [] (Some #"k") (Dkim.toy_world ∅ [])).2 = (Ok o, w2) /\
    wFiles w2 = wFiles (Dkim.Generate Dkim.key_dir #"b.c" [] (Some #"k") (Dkim.toy_world ∅ [])).2 /\
    ocCode o = 0 /\ exists before, ocOut o = before ++ line (record_text (#"default._domainkey.b.c", #"v=DKIM1; k=rsa; p=aw==")).
Proof.
  apply (generate_dkim_again (fun _ => []) Dkim.key_dir [] #"b.c" #"B.c" (Some #"k") (Some #"other") (Dkim.toy_world ∅ [])
           (#"default._domainkey.b.c", #"v=DKIM1; k=rsa; p=aw==") (Dkim.Generate Dkim.key_dir #"b.c" [] (Some #"k") (Dkim.toy_world ∅ [])).2).
  - reflexivity.
  - reflexivity.
  - vm_compute. reflexivity.
Defined.

(** The two mistakes get their own messages. *)
Example mistakes :
  normalizeCommand #"status" = Err (#"this command takes a leading --: use " ++ [DQ] ++ #"--status" ++ [DQ] ++ #", not "
                                    ++ [DQ] ++ #"status" ++ [DQ]) /\
  normalizeCommand #"--start" = Err (#"service commands take no leading --: use " ++ [DQ] ++ #"start" ++ [DQ] ++ #", not "
                                     ++ [DQ] ++ #"--start" ++ [DQ]) /\
  normalizeCommand #"--audit" = Ok #"audit" /\ normalizeCommand #"-audit" = Err (#"unknown command " ++ [DQ] ++ #"-audit" ++ [DQ]).
Proof. vm_compute. by split_and!. Qed.
