(* ===== verification/Listen.v ===== *)
(** * Accepting connections and shutting down (the [Server] of internal/smtp,
      internal/imap and internal/pop3)

    The three servers accept connections in the same way: one goroutine runs
    [Serve], every connection gets a goroutine for its session, a channel
    counts the slots taken and a wait group the sessions; [Shutdown] runs in
    the goroutine of the daemon.  A server is a machine whose actions are the
    steps of these goroutines, in any order.  What a server does with a new
    connection before it takes a slot is an argument, [gate]. *)

From S2P Require Import Prelude GoStrings.
From S2P Require RateLimit Smtp Pop3 Imap.

#[global] Open Scope nat_scope.

(** ** The state *)

Record conn := mkConn { cnNumber : nat; cnIP : str }.
#[global] Instance conn_eq_dec : EqDecision conn.
Proof. solve_decision. Defined.

(** Where the goroutine of [Serve] is. *)
Inductive place :=
| Starting                (** [s.ln] is not set yet *)
| Accepting               (** in [ln.Accept] *)
| Accepted (c : conn)
| Seated (c : conn)     (** the slot is taken *)
| Counted (c : conn)      (** after [s.wg.Add(1)] *)
| Returned (failed : bool).

(** Where [Shutdown] is. *)
Inductive closing :=
| Running
| Flagged                 (** after [s.closed.Store(true)] *)
| Closed                  (** after [s.ln.Close()]; [s.wg.Wait()] may return *)
| Quiet                   (** [s.wg.Wait()] has returned *)
| Over (drained : bool).

Record server (Set_ : Type) := mkServer {
  svSet : Set_;
  svPlace : place;
  svListening : bool;                   (** the listener is open *)
  svClosing : closing;
  svSem : nat;                          (** slots taken *)
  svWait : nat;                         (** the counter of the wait group *)
  svSessions : list conn;
  svReleasing : nat;                    (** between [<-s.sem] and [s.wg.Done()] *)
  svAccepts : nat;                      (** connections accepted so far *)
  svTold : list (nat * str);            (** turned away, with the line sent *)
  svEnded : list nat }.
Arguments mkServer {Set_}. Arguments svSet {Set_}. Arguments svPlace {Set_}. Arguments svListening {Set_}.
Arguments svClosing {Set_}. Arguments svSem {Set_}. Arguments svWait {Set_}. Arguments svSessions {Set_}.
Arguments svReleasing {Set_}. Arguments svAccepts {Set_}. Arguments svTold {Set_}. Arguments svEnded {Set_}.

Definition New {Set_} (set : Set_) : server Set_ :=
  mkServer set Starting true Running 0 0 [] 0 0 [] [].

Inductive action {Set_ : Type} :=
(** [Serve] *)
| Store | Accept (ip : str) | AcceptFails | Gate (now : Z) | Add | Go
(** the deferred function of the session at a place of the list *)
| Release (i : nat) | Done
(** the daemon *)
| Update (set : Set_) | SetClosed | CloseListener | WaitReturns | Finish | TimeOut.
Arguments action : clear implicits.

Section Server.
Context {Set_ : Type} (gate : nat -> Set_ -> str -> Z -> option str * Set_).
Abbreviation server := (server Set_).
Abbreviation action := (action Set_).

Definition go_to (p : place) (s : server) : server :=
  mkServer (svSet s) p (svListening s) (svClosing s) (svSem s) (svWait s) (svSessions s) (svReleasing s)
    (svAccepts s) (svTold s) (svEnded s).
Definition set_closing (c : closing) (s : server) : server :=
  mkServer (svSet s) (svPlace s) (svListening s) c (svSem s) (svWait s) (svSessions s) (svReleasing s)
    (svAccepts s) (svTold s) (svEnded s).
Definition closed (s : server) : bool := match svClosing s with Running => false | _ => true end.
Definition stored (s : server) : bool := match svPlace s with Starting => false | _ => true end.

(** One turn of the loop of [Serve].  A connection is turned away with the
    line it is told, or takes a slot. *)
Definition serve_step (s : server) (a : action) : option server :=
  match a, svPlace s with
  | Store, Starting => Some (go_to Accepting s)
  | Accept ip, Accepting =>
      if svListening s then
        Some (mkServer (svSet s) (Accepted (mkConn (svAccepts s) ip)) (svListening s) (svClosing s) (svSem s) (svWait s)
                (svSessions s) (svReleasing s) (S (svAccepts s)) (svTold s) (svEnded s))
      else None
  | AcceptFails, Accepting => Some (go_to (Returned (negb (closed s))) s)
  | Gate now, Accepted c =>
      let '(refusal, set) := gate (svSem s) (svSet s) (cnIP c) now in
      match refusal with
      | Some line =>
          Some (mkServer set Accepting (svListening s) (svClosing s) (svSem s) (svWait s) (svSessions s) (svReleasing s)
                  (svAccepts s) (svTold s ++ [(cnNumber c, line)]) (svEnded s))
      | None =>
          Some (mkServer set (Seated c) (svListening s) (svClosing s) (S (svSem s)) (svWait s) (svSessions s)
                  (svReleasing s) (svAccepts s) (svTold s) (svEnded s))
      end
  | Add, Seated c =>
      Some (mkServer (svSet s) (Counted c) (svListening s) (svClosing s) (svSem s) (S (svWait s)) (svSessions s)
              (svReleasing s) (svAccepts s) (svTold s) (svEnded s))
  | Go, Counted c =>
      Some (mkServer (svSet s) Accepting (svListening s) (svClosing s) (svSem s) (svWait s) (c :: svSessions s)
              (svReleasing s) (svAccepts s) (svTold s) (svEnded s))
  | _, _ => None
  end.

(** The end of a session: [<-s.sem], then [s.wg.Done()]. *)
Definition session_step (s : server) (a : action) : option server :=
  match a with
  | Release i =>
      match svSessions s !! i with
      | Some c =>
          Some (mkServer (svSet s) (svPlace s) (svListening s) (svClosing s) (Nat.pred (svSem s)) (svWait s)
                  (delete i (svSessions s)) (S (svReleasing s)) (svAccepts s) (svTold s) (cnNumber c :: svEnded s))
      | None => None
      end
  | Done =>
      match svReleasing s with
      | 0 => None
      | S n => Some (mkServer (svSet s) (svPlace s) (svListening s) (svClosing s) (svSem s) (Nat.pred (svWait s))
                       (svSessions s) n (svAccepts s) (svTold s) (svEnded s))
      end
  | _ => None
  end.

(** [Update], and the steps of [Shutdown]: a listener that [Serve] has not
    stored yet is not closed. *)
Definition daemon_step (s : server) (a : action) : option server :=
  match a, svClosing s with
  | Update set, _ =>
      Some (mkServer set (svPlace s) (svListening s) (svClosing s) (svSem s) (svWait s) (svSessions s) (svReleasing s)
              (svAccepts s) (svTold s) (svEnded s))
  | SetClosed, Running => Some (set_closing Flagged s)
  | CloseListener, Flagged =>
      Some (mkServer (svSet s) (svPlace s) (svListening s && negb (stored s)) Closed (svSem s) (svWait s) (svSessions s)
              (svReleasing s) (svAccepts s) (svTold s) (svEnded s))
  | WaitReturns, Closed => if Nat.eqb (svWait s) 0 then Some (set_closing Quiet s) else None
  | Finish, Quiet => Some (set_closing (Over true) s)
  | TimeOut, (Closed | Quiet) => Some (set_closing (Over false) s)
  | _, _ => None
  end.

Definition of_serve (a : action) : bool :=
  match a with Store | Accept _ | AcceptFails | Gate _ | Add | Go => true | _ => false end.
Definition of_session (a : action) : bool := match a with Release _ | Done => true | _ => false end.
Definition step (s : server) (a : action) : option server :=
  if of_serve a then serve_step s a else if of_session a then session_step s a else daemon_step s a.

Fixpoint run (s : server) (acts : list action) : option server :=
  match acts with
  | [] => Some s
  | a :: r => s' ← step s a; run s' r
  end.

Inductive reachable (set : Set_) : server -> Prop :=
| reach_new : reachable set (New set)
| reach_step s a s' : reachable set s -> step s a = Some s' -> reachable set s'.
End Server.

(** ** The gates of the three servers *)

Definition smtp_gate (workers busy : nat) (set : Smtp.Settings) (ip : str) (now : Z) : option str * Smtp.Settings :=
  let '(a, set) := Smtp.admit_conn workers busy set ip now in
  (match a with Smtp.TurnedAway line => Some line | Smtp.Served _ => None end, set).
(** IMAP and POP3 ask for a slot only. *)
Definition slot_gate {Set_} (line : str) (workers busy : nat) (set : Set_) (ip : str) (now : Z) : option str * Set_ :=
  (if Nat.ltb busy workers then None else Some line, set).
Definition imap_busy : str := #"* BYE server busy, try again later".
Definition pop3_busy : str := #"-ERR server busy, try again later".

Definition smtp_server : Type := server Smtp.Settings.
Definition smtp_step (workers : nat) : smtp_server -> action Smtp.Settings -> option smtp_server := step (smtp_gate workers).
Definition imap_server : Type := server Imap.Settings.
Definition imap_step (workers : nat) : imap_server -> action Imap.Settings -> option imap_server :=
  step (slot_gate imap_busy workers).
Definition pop3_server : Type := server Pop3.Settings.
Definition pop3_step (workers : nat) : pop3_server -> action Pop3.Settings -> option pop3_server :=
  step (slot_gate pop3_busy workers).

(** What a server relies on: nobody is let in without a slot, whoever is not
    let in is told why, and where no rates are limited it is for want of a
    slot. *)
Class SlotGate {Set_ : Type} (limited : bool) (workers : nat) (gate : nat -> Set_ -> str -> Z -> option str * Set_) : Prop := {
  gate_slot busy set ip now : (gate busy set ip now).1 = None -> busy < workers;
  gate_told busy set ip now line : (gate busy set ip now).1 = Some line ->
    line <> [] /\ (limited = false -> workers <= busy) }.

#[global] Instance smtp_slots workers : SlotGate true workers (smtp_gate workers).
Proof.
  split; intros busy set ip now; unfold smtp_gate, Smtp.admit_conn; destruct (RateLimit.ConnAllowed _ _ _) as [[] l];
    cbn [negb]; try destruct (Nat.ltb_spec busy workers); cbn [fst]; naive_solver.
Qed.
#[global] Instance slot_slots {Set_} line workers : line <> [] -> SlotGate (Set_:=Set_) false workers (slot_gate line workers).
Proof.
  intros Hl. split; intros busy set ip now; unfold slot_gate; destruct (Nat.ltb_spec busy workers); cbn [fst]; naive_solver.
Qed.

(** ** What a server promises: a door and a room of so many places *)

Record pool := mkPool {
  poOpen : bool;
  poNext : nat;
  poDoor : option conn;                 (** who stands in the door *)
  poLive : list conn;
  poTold : list (nat * str);
  poLeft : list nat }.

Inductive pool_event := Arrive (ip : str) | Enter | TurnAway (line : str) | Leave (c : conn) | CloseDoor.

(** Without an event nothing happens to the pool. *)
Inductive pool_step (limited : bool) (workers : nat) : pool -> option pool_event -> pool -> Prop :=
| pool_same p : pool_step limited workers p None p
| pool_arrive n l t e ip :
    pool_step limited workers (mkPool true n None l t e) (Some (Arrive ip)) (mkPool true (S n) (Some (mkConn n ip)) l t e)
| pool_enter o n c l t e : length l < workers ->
    pool_step limited workers (mkPool o n (Some c) l t e) (Some Enter) (mkPool o n None (c :: l) t e)
| pool_turn o n c l t e line : line <> [] -> (limited = false -> workers <= length l) ->
    pool_step limited workers (mkPool o n (Some c) l t e) (Some (TurnAway line))
      (mkPool o n None l (t ++ [(cnNumber c, line)]) e)
| pool_leave o n d c l l' t e : l ≡ₚ c :: l' ->
    pool_step limited workers (mkPool o n d l t e) (Some (Leave c)) (mkPool o n d l' t (cnNumber c :: e))
| pool_close o n d l t e :
    pool_step limited workers (mkPool o n d l t e) (Some CloseDoor) (mkPool false n d l t e).

(** The pool never holds more than it has places for, and everybody who came
    is in the door, inside, was told why not, or has left. *)
Definition everyone (p : pool) : list nat :=
  map cnNumber (option_list (poDoor p)) ++ map cnNumber (poLive p) ++ map fst (poTold p) ++ poLeft p.
Definition pool_ok (workers : nat) (p : pool) : Prop :=
  length (poLive p) <= workers /\ everyone p ≡ₚ seq 0 (poNext p).

Lemma pool_step_ok limited workers p e p' : pool_step limited workers p e p' -> pool_ok workers p -> pool_ok workers p'.
Proof.
  unfold pool_ok, everyone. intros [] [Hl He]; cbn [poOpen poNext poDoor poLive poTold poLeft option_list map app cnNumber length] in *.
  - done.
  - split; [done|]. rewrite seq_S. cbn. rewrite He. apply Permutation_cons_append.
  - split; [lia|done].
  - split; [done|]. rewrite <- He, map_app. cbn [map fst]. rewrite <- !app_assoc. cbn [app].
    rewrite <- Permutation_middle. by rewrite <- Permutation_middle.
  - rewrite H in Hl. split; [cbn [length] in Hl; lia|]. rewrite <- He, H. cbn [map app].
    by rewrite <- !Permutation_middle.
  - done.
Qed.

Lemma pool_reaches limited workers p0 p : pool_ok workers p0 -> rtc (fun p p' => exists e, pool_step limited workers p e p') p0 p ->
  pool_ok workers p.
Proof. intros H0. induction 1 as [|p p1 p2 [e H] _ IH]; [done|]. apply IH. by eapply pool_step_ok. Qed.

(** ** The machine keeps the promise *)

Definition in_door (p : place) : option conn := match p with Accepted c => Some c | _ => None end.
Definition holder (p : place) : list conn := match p with Seated c | Counted c => [c] | _ => [] end.
Definition counted (p : place) : nat := match p with Counted _ => 1 | _ => 0 end.
(** Between [ln.Accept] and the start of the session. *)
Definition letting_in (p : place) : nat := match p with Accepted _ | Seated _ | Counted _ => 1 | _ => 0 end.

Section Promise.
Context {Set_ : Type} {gate : nat -> Set_ -> str -> Z -> option str * Set_} {limited : bool} {workers : nat}.
Context `{G : !SlotGate limited workers gate}.
Abbreviation server := (server Set_).
Abbreviation step := (step gate).
Abbreviation reachable := (reachable gate).
Abbreviation run := (run gate).

(** Everybody who holds a slot. *)
Definition live (s : server) : list conn := holder (svPlace s) ++ svSessions s.
Definition pool_of (s : server) : pool :=
  mkPool (svListening s) (svAccepts s) (in_door (svPlace s)) (live s) (svTold s) (svEnded s).

Record server_ok (s : server) : Prop := {
  so_sem : svSem s = length (live s);
  so_wait : svWait s = counted (svPlace s) + length (svSessions s) + svReleasing s;
  so_closed : svListening s = false -> closed s = true /\ stored s = true }.

Lemma new_ok set : server_ok (New set).
Proof. by split. Qed.

(** Case analysis of a step: its action, the place of [Serve] or of
    [Shutdown], and the new state written out. *)
Ltac step_cases s Hs :=
  unfold Listen.step, serve_step, session_step, daemon_step in Hs; destruct s; cbn in Hs;
  repeat (case_match; cbn in Hs; try discriminate Hs); simplify_eq/=.

(** One session less. *)
Ltac count_sessions :=
  match goal with H : ?l !! ?i = Some _ |- _ =>
    pose proof (lookup_lt_Some _ _ _ H); rewrite ?length_app, (length_delete l i) by done; lia end.

Lemma serve_step_ok s a s' : serve_step gate s a = Some s' -> server_ok s -> server_ok s'.
Proof.
  intros Hs [H1 H2 H3]. unfold live in *. step_cases s Hs; split; unfold live; cbn in *; try done; try lia; naive_solver.
Qed.
Lemma session_step_ok s a s' : session_step s a = Some s' -> server_ok s -> server_ok s'.
Proof.
  intros Hs [H1 H2 H3]. unfold live in *. step_cases s Hs; split; unfold live; cbn in *; try done; try lia.
  all: count_sessions.
Qed.
Lemma daemon_step_ok s a s' : daemon_step s a = Some s' -> server_ok s -> server_ok s'.
Proof.
  intros Hs [H1 H2 H3]. unfold live in *. step_cases s Hs; split; unfold live; cbn in *; try done.
  all: unfold closed, stored in *; cbn in *; try naive_solver lia.
  by destruct svPlace0, svListening0; naive_solver.
Qed.
Lemma machine_step_ok s a s' : step s a = Some s' -> server_ok s -> server_ok s'.
Proof. unfold Listen.step. repeat case_match; eauto using serve_step_ok, session_step_ok, daemon_step_ok. Qed.
Lemma machine_reachable_ok set s : reachable set s -> server_ok s.
Proof. induction 1; eauto using new_ok, machine_step_ok. Qed.

(** *** Refinement *)

Lemma serve_step_pool s a s' : serve_step gate s a = Some s' -> server_ok s ->
  exists e, pool_step limited workers (pool_of s) e (pool_of s').
Proof.
  intros Hs [H1 _ _]. unfold pool_of, live in *. unfold serve_step in Hs.
  destruct a; destruct s as [cur p li cl sem wt ss rl n told ended]; cbn in *; destruct p; cbn in *; try discriminate Hs.
  - injection Hs as <-. exists None. constructor.
  - destruct li; [|discriminate Hs]. injection Hs as <-. eexists (Some (Arrive _)). constructor.
  - injection Hs as <-. exists None. constructor.
  - destruct (gate sem cur (cnIP c) now) as [[line|] cur'] eqn:E; injection Hs as <-; cbn.
    + destruct (gate_told sem cur (cnIP c) now line) as [Hl Hw]; [by rewrite E|].
      eexists (Some (TurnAway line)). constructor; [done|]. by rewrite <- H1.
    + eexists (Some Enter). constructor. rewrite <- H1. apply (gate_slot sem cur (cnIP c) now). by rewrite E.
  - injection Hs as <-. exists None. constructor.
  - injection Hs as <-. exists None. constructor.
Qed.
Lemma session_step_pool s a s' : session_step s a = Some s' -> exists e, pool_step limited workers (pool_of s) e (pool_of s').
Proof.
  intros Hs. destruct s as [cur p li cl sem wt ss rl n told ended]. destruct a; cbn in Hs; try discriminate Hs.
  - destruct (ss !! i) as [c|] eqn:E; [|discriminate Hs]. injection Hs as <-. eexists (Some (Leave c)). unfold pool_of, live; cbn.
    constructor. rewrite (delete_Permutation ss i c E) at 1. symmetry. apply Permutation_middle.
  - destruct rl; [discriminate Hs|]. injection Hs as <-. exists None. constructor.
Qed.
Lemma daemon_step_pool s a s' : daemon_step s a = Some s' -> exists e, pool_step limited workers (pool_of s) e (pool_of s').
Proof.
  intros Hs. step_cases s Hs; unfold pool_of, live; cbn.
  all: try (exists None; by constructor).
  unfold stored; cbn. destruct svListening0, svPlace0; cbn; first [exists None; by constructor|exists (Some CloseDoor); by constructor].
Qed.

(** C9. Whatever the goroutines of a server do, in whatever order, is for the
    outside nothing or one step of the pool: a connection is let in only while
    fewer than [workers] hold a slot, turned away only with a reason, and
    leaves when its session ends.  Hence, in every reachable state, at most
    [workers] sessions run and every connection that was accepted is in the
    door, inside, was told why it is not, or has ended. *)
Theorem server_refines set s :
  reachable set s ->
  (forall a s', step s a = Some s' -> exists e, pool_step limited workers (pool_of s) e (pool_of s')) /\
  pool_ok workers (pool_of s) /\ svSem s = length (live s).
Proof.
  intros Hr. assert (forall s a s', reachable set s -> step s a = Some s' -> exists e, pool_step limited workers (pool_of s) e (pool_of s')) as Hstep.
  { intros s1 a s2 Hr1 Hs. apply machine_reachable_ok in Hr1. unfold Listen.step in Hs. repeat case_match;
      eauto using serve_step_pool, session_step_pool, daemon_step_pool. }
  split_and!; [intros a s'; by apply Hstep| |by apply (machine_reachable_ok set)].
  induction Hr as [|s a s' Hr IH Hs]; [split; cbn; [lia|done]|]. destruct (Hstep s a s' Hr Hs) as [e He]. by eapply pool_step_ok.
Qed.

(** *** Shutting down *)

(** Steps of [Serve] that are left at most once the listener is closed. *)
Definition togo (p : place) : nat :=
  match p with Starting => 5 | Accepted _ => 4 | Seated _ => 3 | Counted _ => 2 | Accepting => 1 | Returned _ => 0 end.

Lemma step_closed s a s' : step s a = Some s' -> server_ok s -> svListening s = false ->
  svListening s' = false /\
  (if of_serve a then S (togo (svPlace s')) <= togo (svPlace s) else svPlace s' = svPlace s) /\
  (forall failed, svPlace s' = Returned failed -> svPlace s = Returned failed \/ failed = false).
Proof.
  intros Hs [_ _ H3] Hl. destruct (H3 Hl) as [Hc _]. unfold closed in Hc. clear H3 G. step_cases s Hs; naive_solver lia.
Qed.

Lemma run_closed acts : forall s s', run s acts = Some s' -> server_ok s -> svListening s = false ->
  svListening s' = false /\ server_ok s' /\
  length (filter (fun a => of_serve a = true) acts) + togo (svPlace s') <= togo (svPlace s) /\
  (forall failed, svPlace s' = Returned failed -> svPlace s = Returned failed \/ failed = false).
Proof.
  induction acts as [|a acts IH]; cbn [Listen.run]; intros s s' Hr Hok Hl.
  - injection Hr as <-. split_and!; cbn; auto; lia.
  - destruct (step s a) as [s1|] eqn:E; [|discriminate Hr]. cbn in Hr.
    destruct (step_closed _ _ _ E Hok Hl) as (Hl1 & Hp & Hf). pose proof (machine_step_ok _ _ _ E Hok) as Hok1.
    destruct (IH _ _ Hr Hok1 Hl1) as (Hl' & Hok' & Hn & Hf'). split_and!; [done..| |].
    + rewrite filter_cons. destruct (of_serve a); cbn [decide]; case_decide; try done; cbn [length]; [lia|]. by rewrite <- Hp.
    + intros failed Hx. destruct (Hf' failed Hx) as [Hy|Hy]; auto.
Qed.

(** An action of [Serve] that is possible. *)
Definition next_action (p : place) : option (action Set_) :=
  match p with
  | Starting => Some Store | Accepting => Some AcceptFails | Accepted _ => Some (Gate 0)
  | Seated _ => Some Add | Counted _ => Some Go | Returned _ => None
  end.
Lemma next_action_step s : match next_action (svPlace s) with
  | Some a => of_serve a = true /\ is_Some (step s a) | None => exists failed, svPlace s = Returned failed end.
Proof.
  unfold Listen.step. destruct s as [cur p li cl sem wt ss rl n told ended]; destruct p; cbn; eauto.
  split; [done|]. destruct (gate sem cur (cnIP c) 0%Z) as [[line|] cur']; eauto.
Qed.

(** Once [Shutdown] has closed the listener [Serve] comes to its end, however
    the other goroutines are scheduled: it has at most four steps left and is
    never stuck before it has returned, and the error that the closed listener
    gives it is not reported. *)
Theorem Serve_returns set s acts s' :
  reachable set s -> svListening s = false -> run s acts = Some s' ->
  length (filter (fun a => of_serve a = true) acts) <= 4 /\
  match svPlace s' with
  | Returned failed => svPlace s = Returned failed \/ failed = false
  | p => exists a, next_action p = Some a /\ of_serve a = true /\ is_Some (step s' a)
  end.
Proof.
  intros Hr Hl Hrun. apply machine_reachable_ok in Hr. destruct (run_closed _ _ _ Hrun Hr Hl) as (Hl' & Hok' & Hn & Hf). split.
  - destruct (so_closed _ Hr Hl) as [_ Hst]. unfold stored in Hst. destruct (svPlace s); cbn in Hn; try discriminate Hst; lia.
  - pose proof (next_action_step s') as Hs. destruct (svPlace s'); cbn in *; eauto.
Qed.

(** With the listener closed, [k] bounds who is inside or being let in. *)
Definition at_most (k : nat) (s : server) : Prop :=
  svListening s = false /\ stored s = true /\ letting_in (svPlace s) + length (svSessions s) + svReleasing s <= k.
Lemma at_most_step k s a s' : step s a = Some s' -> at_most k s -> at_most k s'.
Proof.
  intros Hs (H1 & H2 & H3). unfold at_most, stored in *. clear G. step_cases s Hs; try done; split_and!; try done; try lia.
  all: count_sessions.
Qed.
Lemma at_most_run k acts : forall s s', run s acts = Some s' -> at_most k s -> at_most k s'.
Proof.
  induction acts as [|a acts IH]; cbn [Listen.run]; intros s s' Hr He; [by injection Hr as <-|].
  destruct (step s a) as [s1|] eqn:E; [|discriminate Hr]. eauto using at_most_step.
Qed.

(** What [Shutdown] has waited for when it finds the wait group at zero: from
    then on nobody gets a session but the one connection, if any, that
    [Serve] was letting in at that moment. *)
Theorem Shutdown_drains set s s0 acts s' :
  reachable set s -> svListening s = false -> step s WaitReturns = Some s0 -> run s0 acts = Some s' ->
  length (svSessions s') <= letting_in (svPlace s) /\ svListening s' = false.
Proof.
  intros Hr Hl Hs Hrun. apply machine_reachable_ok in Hr. destruct (so_closed _ Hr Hl) as [_ Hst]. pose proof (so_wait _ Hr) as Hw.
  destruct (at_most_run (letting_in (svPlace s)) _ _ _ Hrun) as (Hl' & _ & Hn); [|split; [lia|done]].
  apply (at_most_step _ _ _ _ Hs). split_and!; [done..|]. clear Hrun Hr G. unfold Listen.step, daemon_step in Hs. cbn in Hs.
  destruct (svClosing s); try discriminate Hs. destruct (Nat.eqb_spec (svWait s) 0); [lia|discriminate Hs].
Qed.

Lemma run_reachable set acts : forall s s', reachable set s -> run s acts = Some s' -> reachable set s'.
Proof.
  induction acts as [|a acts IH]; cbn [Listen.run]; intros s s' Hs Hr; [by injection Hr as <-|].
  destruct (step s a) as [s1|] eqn:E; [|discriminate Hr]. eapply IH; [|done]. by eapply reach_step.
Qed.
End Promise.

(** ** Runs of an IMAP server with one worker *)

Definition imap_gate : nat -> unit -> str -> Z -> option str * unit := slot_gate imap_busy 1.
Instance imap_slots : SlotGate false 1 imap_gate := slot_slots imap_busy 1 ltac:(discriminate).
Definition after (acts : list (action unit)) : server unit := default (New tt) (run imap_gate (New tt) acts).

(** A session and a client that is turned away, then a clean shutdown. *)
Definition busy_day : list (action unit) :=
  [Store; Accept #"192.0.2.1"; Gate 0; Add; Go; Accept #"192.0.2.2"; Gate 1; SetClosed; CloseListener].
Definition clean_end : list (action unit) := [AcceptFails; Release 0; Done; WaitReturns; Finish].
Example a_day :
  let s := after (busy_day ++ clean_end) in
  (svPlace s, svClosing s, svSem s, svTold s, svEnded s) = (Returned false, Over true, 0, [(1, imap_busy)], [0]).
Proof. vm_compute. reflexivity. Qed.

(** A connection that is being let in when [Shutdown] looks at the wait group
    gets its session after [Shutdown] has reported that all are done. *)
Definition late : list (action unit) :=
  [Store; Accept #"192.0.2.1"; SetClosed; CloseListener; WaitReturns; Finish; Gate 0; Add; Go].
Example late_session :
  let s := after late in (svClosing s, svSessions s) = (Over true, [mkConn 0 #"192.0.2.1"]).
Proof. vm_compute. reflexivity. Qed.

(** A [Shutdown] that comes before [Serve] has stored its listener leaves it
    open, and connections are served. *)
Example shutdown_before_serve :
  let s := after [SetClosed; CloseListener; WaitReturns; Finish; Store; Accept #"192.0.2.1"; Gate 0; Add; Go] in
  (svListening s, svClosing s, length (svSessions s)) = (true, Over true, 1).
Proof. vm_compute. reflexivity. Qed.

(** One error of [Accept], such as a lack of descriptors, ends [Serve] for
    good: the listener stays open and nobody accepts from it. *)
Example accept_error_ends_the_server :
  let s := after [Store; AcceptFails] in
  (svPlace s, svListening s, svClosing s) = (Returned true, true, Running).
Proof. vm_compute. reflexivity. Qed.

(** States of these runs, written out. *)
Definition closing_down : server unit := Eval vm_compute in after busy_day.
Definition all_gone : server unit := Eval vm_compute in after (busy_day ++ clean_end).
Definition before_wait : server unit := Eval vm_compute in after (take 4 late).
Definition after_wait : server unit := Eval vm_compute in after (take 5 late).
Definition still_served : server unit := Eval vm_compute in after late.

Lemma closing_down_reachable : reachable imap_gate tt closing_down.
Proof. apply (run_reachable tt busy_day (New tt)); [apply reach_new|vm_compute; reflexivity]. Qed.
Lemma before_wait_reachable : reachable imap_gate tt before_wait.
Proof. apply (run_reachable tt (take 4 late) (New tt)); [apply reach_new|vm_compute; reflexivity]. Qed.

Lemma server_refines_witness : pool_ok 1 (pool_of closing_down).
Proof. exact (proj1 (proj2 (server_refines tt closing_down closing_down_reachable))). Defined.

Lemma Serve_returns_witness : length (filter (fun a => of_serve a = true) clean_end) <= 4.
Proof.
  refine (proj1 (Serve_returns tt closing_down clean_end all_gone closing_down_reachable eq_refl _)). vm_compute. reflexivity.
Defined.

Lemma Shutdown_drains_witness : length (svSessions still_served) <= 1 /\ svListening still_served = false.
Proof.
  refine (Shutdown_drains tt before_wait after_wait (drop 5 late) still_served before_wait_reachable eq_refl _ _);
    vm_compute; reflexivity.
Defined.
