(* ===== verification/Shutdown.v ===== *)
(** * The end of the daemon (cmd/verta/main.go, the last case of [runDaemon])

    What a SIGTERM does, in order: the scheduler, the saving of state and the
    status socket are told to stop, the state is saved, the API is closed and
    then one server after the other is shut down, each with a timeout of its
    own.  Time is what matters here: arguments tell how long the calls take
    that wait for nobody, and when the last session of each server ends, if it
    ever does. *)

From S2P Require Import Prelude GoStrings GoOS Settings ConfigLoad ConfigProps Supervisor SupervisorProps.
From S2P Require Listen Proc.

#[global] Open Scope Z_scope.

Definition second : Z := 10 ^ 9.
(** The timeout of the mail servers. *)
Definition drain_timeout : Z := 30 * second.

(** [Shutdown] of one server, called at [now]: when it returns, and whether
    all sessions had ended. *)
Definition Shutdown (timeout now : Z) (ends : option Z) : Z * bool :=
  match ends with
  | Some e => if e <=? now + timeout then (Z.max now e, true) else (now + timeout, false)
  | None => (now + timeout, false)
  end.

(** One after the other. *)
Fixpoint shutdown_all (ends : str -> option Z) (now : Z) (rs : list running) : Z * list (str * bool) :=
  match rs with
  | [] => (now, [])
  | r :: rs =>
      let '(now, drained) := Shutdown drain_timeout now (ends (spName (rnSpec r))) in
      let '(at_end, l) := shutdown_all ends now rs in
      (at_end, (spName (rnSpec r), drained) :: l)
  end.

Definition is_smtp (r : running) : Prop := match spKind (rnSpec r) with KSMTP _ => True | _ => False end.
#[global] Instance is_smtp_dec r : Decision (is_smtp r).
Proof. unfold is_smtp. destruct (spKind _); apply _. Defined.
Definition is_imap (r : running) : Prop := match spKind (rnSpec r) with KIMAP => True | _ => False end.
#[global] Instance is_imap_dec r : Decision (is_imap r).
Proof. unfold is_imap. destruct (spKind _); apply _. Defined.
Definition is_pop3 (r : running) : Prop := match spKind (rnSpec r) with KPOP3 => True | _ => False end.
#[global] Instance is_pop3_dec r : Decision (is_pop3 r).
Proof. unfold is_pop3. destruct (spKind _); apply _. Defined.

(** The lists [servers], [imapServers] and [pop3Servers], each in the order
    in which the servers were bound. *)
Definition in_turn (rs : list running) : list running := filter is_smtp rs ++ filter is_imap rs ++ filter is_pop3 rs.

(** How long the calls take that wait for no client: [saveState] writes two
    files, [http.Server.Close] closes the API at once, whatever the timeout
    that [api.Server.Shutdown] is given, and the queue is counted for the last
    line of the log. *)
Record durations := mkDurations { duSave : Z; duClose : Z; duCount : Z }.
Definition sensible (du : durations) : Prop := 0 <= duSave du /\ 0 <= duClose du /\ 0 <= duCount du.

(** When the first server is told to shut down. *)
Definition turn_begins {C} (du : durations) (now : Z) (d : @daemon C) : Z :=
  let now := now + duSave du in
  match daAPI d with Some _ => now + duClose du | None => now end.

Definition terminate {C} (du : durations) (ends : str -> option Z) (now : Z) (d : @daemon C) : Z * list (str * bool) :=
  let '(at_end, l) := shutdown_all ends (turn_begins du now d) (in_turn (daRunning d)) in
  (at_end + duCount du, l).

(** ** Every server has its turn *)

Lemma in_turn_perm rs : in_turn rs ≡ₚ rs.
Proof.
  unfold in_turn. induction rs as [|r rs IH]; [done|]. transitivity (r :: filter is_smtp rs ++ filter is_imap rs ++ filter is_pop3 rs); [clear IH|by constructor].
  rewrite !filter_cons. unfold is_smtp at 1, is_imap at 1, is_pop3 at 1.
  repeat case_decide; try (destruct (spKind (rnSpec r)); tauto); cbn [app].
  - done.
  - by rewrite <- Permutation_middle.
  - rewrite !app_assoc. by rewrite <- Permutation_middle.
Qed.

Lemma Shutdown_spec timeout now e : 0 <= timeout ->
  now <= (Shutdown timeout now e).1 <= now + timeout /\
  ((Shutdown timeout now e).2 = true <-> exists t, e = Some t /\ t <= (Shutdown timeout now e).1) .
Proof.
  intros Ht. unfold Shutdown. destruct e as [e|]; [destruct (Z.leb_spec e (now + timeout))|]; cbn; (split; [lia|]).
  - split; [intros _; exists e; split; [done|lia]|done].
  - split; [done|]. intros (t & [= <-] & Hle). lia.
  - split; [done|]. by intros (t & ? & _).
Qed.

Lemma shutdown_all_spec ends rs : forall now,
  let '(at_end, l) := shutdown_all ends now rs in
  now <= at_end <= now + drain_timeout * Z.of_nat (length rs) /\
  map fst l = map (fun r => spName (rnSpec r)) rs /\
  Forall (fun x => (x.2 = true -> exists t, ends x.1 = Some t /\ t <= at_end) /\
                   (x.2 = false -> forall t, ends x.1 = Some t -> now + drain_timeout < t)) l.
Proof.
  induction rs as [|r rs IH]; intros now; cbn [shutdown_all length]; [split_and!; [lia|lia|done|apply Forall_nil_2]|].
  pose proof (Shutdown_spec drain_timeout now (ends (spName (rnSpec r)))) as H.
  destruct (Shutdown drain_timeout now _) as [now1 drained] eqn:E. cbn [fst snd] in H. destruct H as [Hb Hd]; [by vm_compute|].
  specialize (IH now1). destruct (shutdown_all ends now1 rs) as [at_end l]. destruct IH as (Hn & Hl & Hf). split_and!; [lia|lia| |].
  - cbn [map fst]. by rewrite Hl.
  - constructor; cbn [fst snd].
    + split; [intros Ht; destruct (proj1 Hd Ht) as (t & Ht' & Hle); exists t; split; [done|lia]|].
      intros Hdf t Ht. unfold Shutdown in E. rewrite Ht in E. destruct (Z.leb_spec t (now + drain_timeout)); [|done].
      injection E as <- <-. discriminate Hdf.
    + eapply Forall_impl; [exact Hf|]. intros x [H1 H2]. split; [done|]. intros Hx t Ht. specialize (H2 Hx t Ht). lia.
Qed.

(** ** It ends *)

Section Terminating.
Context {Certificate : Type} (counters : option Stats.Counters) (ParseIP : str -> option Container.IP).
Context `{YamlCodec}.
Abbreviation daemon := (@daemon Certificate).

Definition listener_names : list str :=
  [ #"smtp"; #"submission"; #"smtps"; #"imap"; #"imaps"; #"pop3"; #"pop3s"].

Definition known (d : daemon) : Prop := Forall (fun r => spName (rnSpec r) ∈ listener_names) (daRunning d).
Lemma specs_known c sp : sp ∈ specs c -> spName sp ∈ listener_names.
Proof.
  intros Hsp. repeat (apply elem_of_cons in Hsp as [->|Hsp]; [apply (bool_decide_unpack _); vm_compute; exact I|]).
  by apply elem_of_nil in Hsp.
Qed.

Lemma ensureListeners_known listen l d : known d -> known (ensureListeners counters listen l d).2.
Proof.
  intros Hk. induction (ensureListeners_opens counters listen l d) as [|d1 d2 d3 Ho _ IH]; [done|]. apply IH. clear IH.
  destruct Ho; [|done]. apply Forall_app. split; [done|]. apply Forall_singleton. by eapply specs_known.
Qed.
Lemma enforce_known su d : known d -> known (enforce counters su d).
Proof.
  intros Hk. unfold enforce. apply ensureListeners_known. unfold known. cbn [updateAll daRunning]. by apply Forall_map.
Qed.
Lemma step_known d ev : known d -> known (step counters ParseIP d ev).
Proof.
  intros Hk. destruct ev as [su|disk su|disk]; cbn [step].
  - by apply enforce_known.
  - destruct (reload_manager ParseIP disk d) as [ok d1] eqn:E. apply Load_quiet_manager in E as [E1 _].
    destruct ok; rewrite E1; [by apply enforce_known|done].
  - destruct (reload_manager ParseIP disk d) as [ok d1] eqn:E. apply Load_quiet_manager in E as [E1 _]. cbn [snd]. by rewrite E1.
Qed.
Lemma start_known p disk su d : start counters ParseIP p disk su = Some d -> known d.
Proof.
  unfold start. destruct (NewManager ParseIP p disk) as [[[m|]|] w]; try done.
  set (d0 := mkDaemon _ _ _ _ _ _). pose proof (ensureListeners_known (suListen su) (Get m) d0 (Forall_nil_2 _)) as H1.
  destruct (ensureListeners _ _ _ d0) as [[] d1]; [done|]. by intros [= <-].
Qed.
Lemma reachable_known p (d : daemon) : reachable counters ParseIP p d -> known d.
Proof. induction 1; [by eapply start_known|by apply step_known]. Qed.

(** There are as many servers as names of listeners, at most. *)
Lemma servers_bounded p (d : daemon) : reachable counters ParseIP p d -> (length (daRunning d) <= 7)%nat.
Proof.
  intros Hr. pose proof (do_names _ _ _ (reachable_ok _ _ _ _ Hr)) as Hn. pose proof (reachable_known _ _ Hr) as Hk.
  rewrite <- (length_map (fun r => spName (rnSpec r))). change 7%nat with (length listener_names).
  apply submseteq_length, NoDup_submseteq; [done|]. intros n Hin.
  apply list_elem_of_In, in_map_iff in Hin as (r & <- & Hin). unfold known in Hk. rewrite Forall_forall in Hk. by apply Hk, list_elem_of_In.
Qed.

(** C10. A SIGTERM ends the daemon: once the state is saved and the API closed, in
    at most thirty seconds for each of the servers that run, of which there
    are seven at most, whatever their clients do; every server gets its turn,
    once; and a session is abandoned only if it goes on for more than thirty
    seconds after that. *)
Theorem terminates_in_time p (d : daemon) du ends now :
  reachable counters ParseIP p d -> sensible du ->
  let '(at_end, l) := terminate du ends now d in
  let servers := Z.of_nat (length (daRunning d)) in
  let calls := duSave du + duClose du + duCount du in
  now <= at_end <= now + calls + drain_timeout * servers /\ servers <= 7 /\
  map fst l ≡ₚ map (fun r => spName (rnSpec r)) (daRunning d) /\
  forall n drained, (n, drained) ∈ l ->
    if drained : bool then exists t, ends n = Some t /\ t <= at_end
    else forall t, ends n = Some t -> turn_begins du now d + drain_timeout < t.
Proof.
  intros Hr (Hs1 & Hs2 & Hs3). pose proof (servers_bounded _ _ Hr) as Hn. unfold terminate.
  pose proof (shutdown_all_spec ends (in_turn (daRunning d)) (turn_begins du now d)) as Hs.
  rewrite (Permutation_length (in_turn_perm _)) in Hs.
  assert (now <= turn_begins du now d <= now + duSave du + duClose du) as Ht
    by (unfold turn_begins; destruct (daAPI d); lia).
  destruct (shutdown_all ends _ _) as [at_end l]. destruct Hs as (Hb & Hl & Hf). split_and!; [lia|lia|lia| |].
  - rewrite Hl. by apply Permutation_map, in_turn_perm.
  - intros n drained Hin. rewrite Forall_forall in Hf. destruct (Hf _ Hin) as [H1 H2]. destruct drained; [|by auto].
    destruct (H1 eq_refl) as (t & Ht1 & Ht2). exists t. split; [done|lia].
Qed.
End Terminating.

(** ** Clients that stay *)

(** A client of each of three servers does not leave. *)
Definition staying (n : str) : option Z :=
  if (n =s #"smtp") || (n =s #"imap") || (n =s #"pop3") then None else Some 0.

Definition at_once : durations := mkDurations 0 0 0.

(** The servers are shut down one after the other, so three idle clients hold
    the daemon for a minute and a half: the old process still runs when
    [restart], which waits for thirty seconds, gives up, so that the service
    is down once it has ended. *)
Example restart_gives_up :
  let now := 0 in
  match daemon_one with
  | Some d =>
      let at_end := (terminate at_once staying now d).1 in
      at_end = now + 90 * second /\
      (Proc.StopAndWait (Proc.until at_end) Proc.deliver 602 Proc.pidfile (30 * 10 ^ 9) Proc.daemon_world).1
        = Err (ErrText #"daemon did not stop within 30s")
  | None => False
  end.
Proof. vm_compute. by split. Qed.

(** Calls that take two seconds, one and a tenth of one. *)
Definition slow_disk : durations := mkDurations (2 * second) second (10 ^ 8).

Lemma terminates_in_time_witness :
  match daemon_one with
  | Some d => length (daRunning d) = 7%nat /\
      fst (terminate slow_disk staying 0 d) <= 3 * second + 10 ^ 8 + drain_timeout * 7
  | None => False
  end.
Proof.
  pose proof daemon_one_starts as Hs.
  assert (match daemon_one with Some d => Nat.eqb (length (daRunning d)) 7 | None => false end = true) as Hlen
    by (vm_compute; reflexivity).
  destruct daemon_one as [d|] eqn:E; [|discriminate Hs]. apply Nat.eqb_eq in Hlen. split; [exact Hlen|].
  assert (sensible slow_disk) as Hd by (repeat split; apply Z.leb_le; reflexivity).
  pose proof (@terminates_in_time _ None no_ip two_editions toy_main d slow_disk staying 0
    (@reach_start _ None two_editions no_ip toy_main disk_one quiet_day d E) Hd) as H.
  destruct (terminate slow_disk staying 0 d) as [at_end l]. destruct H as (Hb & _). rewrite Hlen in Hb.
  exact (proj2 Hb).
Defined.
