(* ===== verification/Learned.v ===== *)
(** * What the daemon learns, and keeps (cmd/verta/main.go, [runDaemon])

    The corpus of the classifier and the scores of the reputation are opened
    when the daemon starts and written every five minutes and at its end.  Both
    are kept in the same way, which is the class [Kept]; the theorem says what
    a crash costs. *)

From S2P Require Import Prelude GoStrings GoOS Settings.
From S2P Require Bayes Reputation.

#[global] Open Scope Z_scope.

(** ** Something kept in a file *)

Class Kept (T : Type) := {
  kp_path : T -> option path;
  kp_dirty : T -> bool;
  kp_image : T -> option str;          (** what the file holds, if it can be written *)
  kp_clean : T -> T;                   (** the same, as saved *)
  kp_ok : T -> Prop;                   (** fit for the file *)
  kp_open : option path -> M T;
  kp_save : T -> M T }.

(** What an implementation promises. *)
Class LawfulKept (T : Type) `{Kept T} := {
  kp_save_eq : forall x : T, exists e, kp_save x =
    match kp_path x with
    | None => mret x
    | Some p =>
        if negb (kp_dirty x) then mret x
        else MkdirAll (parent p) ≫= fun _ =>
             match kp_image x with
             | None => throw e
             | Some b => replace_file p b ≫= fun _ => mret (kp_clean x)
             end
    end;
  kp_image_total : forall x : T, kp_ok x -> is_Some (kp_image x);
  kp_open_same : forall p w w', wFaults w = [] -> wFaults w' = [] -> fData <$> wFiles w !! p = fData <$> wFiles w' !! p ->
    (kp_open (T:=T) (Some p) w).1 = (kp_open (Some p) w').1;
  kp_open_image : forall (x : T) p b w, kp_ok x -> kp_path x = Some p -> kp_image x = Some b -> wFaults w = [] ->
    fData <$> wFiles w !! p = Some b -> (kp_open (Some p) w).1 = Ok (kp_clean x);
  kp_open_reads : forall p w, wFaults w = [] -> (kp_open (T:=T) p w).2 = w;
  kp_open_empty : forall w, exists x : T, (kp_open None w).1 = Ok x /\ kp_path x = None;
  kp_opened : forall p w (x : T), (kp_open (Some p) w).1 = Ok x -> kp_path x = Some p /\ kp_dirty x = false;
  kp_clean_path : forall x : T, kp_path (kp_clean x) = kp_path x;
  kp_clean_dirty : forall x : T, kp_dirty (kp_clean x) = false;
  kp_clean_idem : forall x : T, kp_clean (kp_clean x) = kp_clean x;
  kp_clean_ok : forall x : T, kp_ok x -> kp_ok (kp_clean x);
  kp_clean_id : forall x : T, kp_dirty x = false -> kp_clean x = x }.

Section Keeping.
Context {T : Type} `{LawfulKept T}.

(** What a daemon that starts on the disk [w] finds, when its calls work. *)
Definition reopens (p : path) (w : world) (x : T) : Prop := (kp_open (Some p) (set_faults [] w)).1 = Ok x.

(** What learning does to it: a change is noted. *)
Record learns (x y : T) : Prop := {
  ln_path : kp_path y = kp_path x;
  ln_ok : kp_ok x -> kp_ok y;
  ln_dirty : kp_dirty y = false -> kp_dirty x = false /\ kp_clean y = kp_clean x }.
#[export] Instance learns_preorder : PreOrder learns.
Proof.
  split; [done|]. intros x y z [H1 H2 H3] [H4 H5 H6]. split; [congruence|auto|]. intros Hd. destruct (H6 Hd) as [Hd' E].
  destruct (H3 Hd') as [Hd'' E']. split; [done|congruence].
Qed.

(** Saving, whatever fails: the file is as it was, or has all of it. *)
Lemma save_cases (x : T) p w : kp_path x = Some p ->
  let '(r, w') := kp_save x w in
  (forall q, q <> p -> q <> append_ext p #".tmp" -> wFiles w' !! q = wFiles w !! q) /\
  ((wFiles w' !! p = wFiles w !! p /\ (r = Ok x /\ kp_dirty x = false \/ exists e, r = Err e)) \/
   (r = Ok (kp_clean x) /\ exists b, kp_image x = Some b /\ fData <$> wFiles w' !! p = Some b)).
Proof.
  intros Hp. destruct (kp_save_eq x) as [e ->]. rewrite Hp. destruct (kp_dirty x) eqn:Ed; cbn [negb]; [|by split; [|left; auto]].
  set (Q := fun (r : result error T) (w' : world) =>
    (forall q, q <> p -> q <> append_ext p #".tmp" -> wFiles w' !! q = wFiles w !! q) /\
    ((wFiles w' !! p = wFiles w !! p /\ (r = Ok x /\ true = false \/ exists e, r = Err e)) \/
     (r = Ok (kp_clean x) /\ exists b, kp_image x = Some b /\ fData <$> wFiles w' !! p = Some b))).
  match goal with |- context [(?m : M T) w] => cut (wp m w Q); [unfold wp; by destruct (m w)|] end.
  apply wp_bind. unfold wp at 1. destruct (Reputation.MkdirAll_cases (parent p) w) as (r & w1 & -> & H1). cbn [fst snd].
  assert (forall e, Q (Err e) w1) as Herr by (intros e'; split; [intros; by rewrite H1|left; rewrite H1; split; [done|right; by exists e']]).
  destruct r as [[]|e']; [|apply Herr]. destruct (kp_image x) as [b|] eqn:Eb; [|apply Herr].
  assert (append_ext p #".tmp" <> p) as Hne by by apply append_ext_ne.
  apply wp_bind, wp_replace_file.
  - intros err w' Hq. split; [intros q Hq1 Hq2; rewrite <- H1; by apply Hq|]. left. split; [rewrite <- H1; apply Hq; congruence|right; by exists err].
  - intros t w' Hf Hq. split; [intros q Hq1 Hq2; rewrite <- H1; by apply Hq|]. right. split; [done|]. exists b. split; [done|]. exact (f_equal (fmap fData) Hf).
Qed.

Lemma save_works (x : T) p w : kp_path x = Some p -> kp_ok x -> p <> [] -> wFaults w = [] -> exists w',
  kp_save x w = (Ok (kp_clean x), w') /\ wFaults w' = [].
Proof.
  intros Hp Hok Hne Hw. destruct (kp_save_eq x) as [e ->]. rewrite Hp.
  destruct (kp_dirty x) eqn:Ed; cbn [negb]; [|by exists w; rewrite kp_clean_id].
  erewrite bind_ok by (unfold MkdirAll; by rewrite syscall_ok). destruct (kp_image_total x Hok) as [b ->].
  set (w1 := set_dirs _ w). destruct (replace_file_ok p b w1) as (w2 & E2 & Hf2 & Hd2 & Hx2); [done..| |].
  { unfold w1. cbn [wDirs set_dirs]. apply elem_of_union_l, elem_of_list_to_set, elem_of_prefixes. done. }
  exists w2. split; [by erewrite bind_ok by exact E2|done].
Qed.

Lemma reopens_same p w w' x : wFiles w' !! p = wFiles w !! p -> reopens p w x -> reopens p w' x.
Proof. intros Hf Hr. unfold reopens in *. rewrite <- Hr. apply kp_open_same; [done|done|]. cbn. by rewrite Hf. Qed.

(** The disk holds an earlier [x], one for which [P] is true, and the present
    one if nothing is dirty. *)
Record held (P : T -> Prop) (p : path) (w : world) (x : T) : Prop := {
  hd_path : kp_path x = Some p;
  hd_ok : kp_ok x;
  hd_disk : exists y, P y /\ reopens p w (kp_clean y) /\ (kp_dirty x = false -> kp_clean x = kp_clean y) }.

Lemma held_learns (P P' : T -> Prop) p w x x' : held P p w x -> (forall y, P y -> P' y) -> learns x x' -> held P' p w x'.
Proof.
  intros [H1 H2 (y & H3 & H4 & H5)] HP [L1 L2 L3]. split; [congruence|auto|]. exists y. split; [auto|split; [done|]].
  intros Hd. destruct (L3 Hd) as [Hd' ->]. auto.
Qed.
Lemma held_elsewhere (P P' : T -> Prop) p w w' x : held P p w x -> (forall y, P y -> P' y) ->
  wFiles w' !! p = wFiles w !! p -> held P' p w' x.
Proof.
  intros [H1 H2 (y & H3 & H4 & H5)] HP Hf. split; [done|done|]. exists y. split; [auto|]. split; [by eapply reopens_same|done].
Qed.
Lemma held_fresh (P : T -> Prop) p w x : kp_path x = Some p -> kp_ok x -> P x -> reopens p w (kp_clean x) -> held P p w x.
Proof. intros H1 H2 H3 H4. split; [done|done|]. by exists x. Qed.

(** The [Save] of a tick: an error leaves the memory as it is. *)
Definition save_or_log (x : T) : M T := r ← try (kp_save x); mret (match r with Ok x' => x' | Err _ => x end).

Lemma save_or_log_eq x w : save_or_log x w = (Ok (match (kp_save x w).1 with Ok x' => x' | Err _ => x end), (kp_save x w).2).
Proof. unfold save_or_log, try, mbind, M_bind. by destruct (kp_save x w) as [[x'|e] w']. Qed.

Lemma held_saved (P P' : T -> Prop) p w x : held P p w x -> (forall y, P y -> P' y) -> P' x ->
  exists x', (save_or_log x w).1 = Ok x' /\ held P' p (save_or_log x w).2 x' /\ kp_clean x' = kp_clean x.
Proof.
  intros Hh HP HP'. rewrite save_or_log_eq. pose proof Hh as [H1 H2 _]. pose proof (save_cases x p w H1) as HS.
  destruct (kp_save x w) as [r w']. cbn [fst snd]. destruct HS as [_ [[Hf Hr]|[-> (b & Hb & Hf)]]].
  - exists x. split; [by destruct Hr as [[-> _]|[e ->]]|]. split; [by apply (held_elsewhere P P' p w)|done].
  - exists (kp_clean x). split; [done|]. split; [|apply kp_clean_idem]. split; [by rewrite kp_clean_path|by apply kp_clean_ok|].
    exists x. split; [done|]. split; [|intros _; apply kp_clean_idem]. unfold reopens.
    by apply (kp_open_image x p b).
Qed.

Lemma held_saved_now (P P' : T -> Prop) p w x : held P p w x -> p <> [] -> wFaults w = [] ->
  exists x', (save_or_log x w).1 = Ok x' /\ kp_clean x' = kp_clean x /\ wFaults (save_or_log x w).2 = [] /\
    (P' x' -> held P' p (save_or_log x w).2 x').
Proof.
  intros Hh Hne Hw. pose proof Hh as [H1 H2 (y & _ & Hy & Hd)]. pose proof (save_cases x p w H1) as HS. rewrite save_or_log_eq.
  destruct (save_works x p w H1 H2 Hne Hw) as (w' & E & Hw'). rewrite E in *. cbn [fst snd].
  exists (kp_clean x). split; [done|]. split; [apply kp_clean_idem|]. split; [done|]. intros HP.
  apply held_fresh; [by rewrite kp_clean_path|by apply kp_clean_ok|done|]. rewrite kp_clean_idem.
  destruct HS as [_ [[Hf [[[= Hc] Hn]|[e He]]]|[_ (b & Hb & Hf)]]]; [|done|].
  - rewrite (Hd Hn). by apply (reopens_same p w).
  - by apply (kp_open_image x p b).
Qed.
End Keeping.

(** ** The corpus and the scores *)

#[export] Instance kept_corpus : Kept Bayes.Bayes := {
  kp_path := Bayes.bPath;
  kp_dirty := Bayes.bDirty;
  kp_image b := Some (Bayes.print_corpus b);
  kp_clean b := Bayes.mkBayes (Bayes.bPath b) (Bayes.bTokens b) (Bayes.bHam b) (Bayes.bSpam b) false;
  kp_ok := Bayes.corpus_ok;
  kp_open := Bayes.NewBayes;
  kp_save := Bayes.Save }.

Lemma NewBayes_file p w : wFaults w = [] -> (Bayes.NewBayes (Some p) w).1 =
  match fData <$> wFiles w !! p with
  | None => Ok (Bayes.mkBayes (Some p) ∅ 0 0 false)
  | Some d => match Bayes.parse_corpus p d false with
              | Err e => if IsNotExist e then Ok (Bayes.mkBayes (Some p) ∅ 0 0 false) else Err e
              | r => r
              end
  end.
Proof.
  intros Hw. unfold Bayes.NewBayes, Bayes.load, next_fault, get_world, try, mbind, M_bind, throw, of_result, mret, M_ret. rewrite Hw.
  destruct (wFiles w !! p) as [f|] eqn:Ef; cbn [fmap option_fmap option_map]; [|reflexivity].
  destruct (Bayes.parse_corpus p (fData f) false) as [b|e]; [reflexivity|]. by destruct (IsNotExist e).
Qed.
Lemma parse_corpus_opened p d failed b : Bayes.parse_corpus p d failed = Ok b -> Bayes.bPath b = Some p /\ Bayes.bDirty b = false.
Proof. unfold Bayes.parse_corpus. intros E. repeat case_match; try done; by injection E as <-. Qed.
Lemma NewBayes_opened p w b : (Bayes.NewBayes (Some p) w).1 = Ok b -> Bayes.bPath b = Some p /\ Bayes.bDirty b = false.
Proof.
  assert (forall x w', (Bayes.load p w) = (Ok x, w') -> Bayes.bPath x = Some p /\ Bayes.bDirty x = false) as Hl.
  { intros x w'. unfold Bayes.load, mbind, M_bind, get_world, of_result, throw. destruct (next_fault w) as [[f|e] w1]; [|done].
    destruct f; try done; (destruct (wFiles w1 !! p); [|done]); intros [= E _]; by eapply parse_corpus_opened. }
  unfold Bayes.NewBayes, try, mbind, M_bind. destruct (Bayes.load p w) as [[x|e] w'].
  - intros [= <-]. by eapply Hl.
  - destruct (IsNotExist e); [by intros [= <-]|done].
Qed.
#[export] Instance kept_corpus_lawful : LawfulKept Bayes.Bayes.
Proof.
  split.
  - intros b. exists EIO. cbn [kp_save kp_path kp_dirty kp_image kp_clean kept_corpus]. unfold Bayes.Save. by destruct (Bayes.bPath b).
  - by eexists.
  - intros p w w' Hw Hw' Hf. cbn [kp_open kept_corpus]. rewrite !NewBayes_file by done. by rewrite Hf.
  - intros b p d w Hok Hp [= <-] Hw Hf. cbn [kp_open kp_clean kept_corpus]. rewrite NewBayes_file, Hf by done. cbn [kp_path kept_corpus] in Hp. rewrite Hp.
    by rewrite Bayes.parse_print_corpus.
  - intros [p|] w Hw; [|done]. cbn [kp_open kept_corpus]. unfold Bayes.NewBayes, Bayes.load, next_fault, get_world, try, mbind, M_bind, of_result, throw, mret, M_ret.
    rewrite Hw. destruct (wFiles w !! p) as [f|]; [|done]. destruct (Bayes.parse_corpus p (fData f) false) as [b|e]; [done|]. by destruct (IsNotExist e).
  - intros w. by eexists.
  - intros p w b. cbn [kp_open kp_path kp_dirty kept_corpus]. apply NewBayes_opened.
  - done.
  - done.
  - done.
  - intros b Hb. exact Hb.
  - intros [] Hd. cbn in Hd. by subst.
Qed.

Section Scores.
Context `{Reputation.LawfulStoreCodec}.

#[export] Instance kept_scores : Kept Reputation.Store := {
  kp_path := Reputation.stPath;
  kp_dirty := Reputation.stDirty;
  kp_image s := Reputation.marshal (Reputation.stRecords s);
  kp_clean s := Reputation.mkStore (Reputation.stPath s) (Reputation.stRecords s) false;
  kp_ok s := Reputation.encodable (Reputation.stRecords s);
  kp_open := Reputation.Open;
  kp_save := Reputation.Save }.

Lemma Open_file p w : wFaults w = [] -> (Reputation.Open (Some p) w).1 =
  Ok (Reputation.mkStore (Some p) (match fData <$> wFiles w !! p with None => ∅ | Some d => default ∅ (Reputation.unmarshal d) end) false).
Proof.
  intros Hw. unfold Reputation.Open, ReadFile, try, mbind, M_bind. rewrite syscall_ok by done. unfold mbind, M_bind, get_world.
  by destruct (wFiles w !! p).
Qed.
#[export] Instance kept_scores_lawful : LawfulKept Reputation.Store.
Proof.
  split.
  - intros s. exists (ErrText #"json: unsupported value"). cbn [kp_save kp_path kp_dirty kp_image kp_clean kept_scores].
    unfold Reputation.Save. by destruct (Reputation.stPath s).
  - intros s Hs. by apply Reputation.marshal_total.
  - intros p w w' Hw Hw' Hf. cbn [kp_open kept_scores]. rewrite !Open_file by done. by rewrite Hf.
  - intros s p d w Hok Hp Hd Hw Hf. cbn [kp_open kp_clean kp_path kp_image kept_scores] in *. rewrite Open_file, Hf, Hp by done. cbn [default].
    by rewrite (Reputation.unmarshal_marshal _ _ Hok Hd).
  - intros [p|] w Hw; [|done]. cbn [kp_open kept_scores]. unfold Reputation.Open, ReadFile, try, mbind, M_bind. rewrite syscall_ok by done.
    unfold mbind, M_bind, get_world. by destruct (wFiles w !! p).
  - intros w. by eexists.
  - intros p w s. cbn [kp_open kp_path kp_dirty kept_scores]. unfold Reputation.Open, try, mbind, M_bind.
    destruct (ReadFile p w) as [[d|e] w']; [by intros [= <-]|]. destruct (IsNotExist e); [by intros [= <-]|done].
  - done.
  - done.
  - done.
  - done.
  - intros [] Hd. cbn in Hd. by subst.
Qed.
End Scores.

(** ** The daemon's memory *)

Record memory := mkMemory {
  mmCorpus : option Bayes.Bayes;          (** [None]: antispam is off *)
  mmScores : option Reputation.Store }.   (** [None]: reputation is off *)

Definition state_path (file : str) : option path := match file with [] => None | _ => Some (abs_path file) end.

Section Memory.
Context `{Reputation.LawfulStoreCodec}.

(** One that cannot be opened is replaced by an empty one without a file. *)
Definition open_or_empty {T} `{Kept T} (enabled : bool) (file : str) : M (option T) :=
  if enabled then
    r ← try (kp_open (state_path file));
    match r with
    | Ok x => mret (Some x)
    | Err _ => x ← kp_open None; mret (Some x)
    end
  else mret None.

Definition open_memory (c : Root) : M memory :=
  b ← open_or_empty (is_enabled (asEnabled (cfAntispam c))) (asBayesFile (cfAntispam c));
  s ← open_or_empty (is_enabled (rpEnabled (cfReputation c))) (rpFile (cfReputation c));
  mret (mkMemory b s).

Definition save_option {T} `{Kept T} (x : option T) : M (option T) :=
  match x with
  | None => mret None
  | Some x => x ← save_or_log x; mret (Some x)
  end.
Definition saveState (m : memory) : M memory :=
  b ← save_option (mmCorpus m);
  s ← save_option (mmScores m);
  mret (mkMemory b s).
End Memory.

(** ** Learning *)

Lemma Train_learns unicode_word b data isSpam : learns b (Bayes.Train unicode_word b data isSpam).
Proof. split; [done|apply Bayes.Train_ok|done]. Qed.

Section Life.
Context `{Reputation.LawfulStoreCodec}.

(** What the store can write: keys in ASCII and times of these millennia. *)
Definition recordable (o : Reputation.operation) : Prop :=
  match o with
  | Reputation.OpRecord key _ t0 t1 => is_ascii key /\ in_years t0 /\ in_years t1
  | Reputation.OpScore key t => is_ascii key /\ in_years t
  | Reputation.OpAllowSend key _ t0 _ => is_ascii key /\ in_years t0
  end.

Definition fits (r : Reputation.record) : Prop :=
  in_years (Reputation.rcUpdated r) /\ in_years (Reputation.rcFirst r) /\ in_years (Reputation.rcDayFrom r).

Lemma encodable_insert m key r : Reputation.encodable m -> is_ascii key -> fits r -> Reputation.encodable (<[key := r]> m).
Proof. intros Hm Hk Hr k x [[<- <-]|[_ Hx]]%lookup_insert_Some; [done|by apply Hm]. Qed.

Lemma decayed_fits r t : fits r -> in_years t -> fits (Reputation.decayed r t).
Proof. intros (? & ? & ?) Ht. unfold Reputation.decayed. cbv zeta. by case_match. Qed.
Lemma rolled_fits r t : fits r -> in_years t -> fits (Reputation.rolled r t).
Proof. intros (? & ? & ?) Ht. unfold Reputation.rolled. by case_match. Qed.

Lemma get_learns s key t : is_ascii key -> in_years t ->
  learns s (Reputation.get s key t).2 /\ (Reputation.encodable (Reputation.stRecords s) -> fits (Reputation.get s key t).1).
Proof.
  intros Hk Ht. unfold Reputation.get. destruct (Reputation.stRecords s !! key) as [r|] eqn:Er; cbn [fst snd].
  - assert (Reputation.encodable (Reputation.stRecords s) -> fits (Reputation.rolled (Reputation.decayed r t) t)) as Hf.
    { intros He. destruct (He key r Er) as [_ Hr]. apply rolled_fits; [by apply decayed_fits|done]. }
    split; [|done]. split; [done| |].
    + cbn. intros He. apply encodable_insert; auto.
    + cbn. intros [Hd [H1 H2]%orb_false_iff]%orb_false_iff. split; [done|]. f_equal.
      assert (Reputation.decayed r t = r) as E1 by (unfold Reputation.decayed; by rewrite H1). rewrite E1 in H2 |- *.
      unfold Reputation.rolled. rewrite H2. by apply insert_id.
  - assert (fits (Reputation.fresh t)) as Hf by done. split; [|done]. split; [done| |done].
    cbn. intros He. by apply encodable_insert.
Qed.

Lemma perform_learns s o : recordable o -> learns s (Reputation.perform s o).
Proof.
  destruct o as [key e t0 t1|key t|key w t0 t1]; cbn [recordable Reputation.perform].
  - intros (Hk & Ht0 & Ht1). unfold Reputation.RecordEvent. destruct (get_learns s key t0 Hk Ht0) as [[Lp Lo _] Hf].
    destruct (Reputation.get s key t0) as [r s1]. cbn [fst snd] in *. split; [done| |done].
    cbn in *. intros He. apply encodable_insert; [auto|done|]. destruct (Hf He) as (? & ? & ?). by destruct e.
  - intros [Hk Ht]. unfold Reputation.Score. destruct (get_learns s key t Hk Ht) as [L _]. by destruct (Reputation.get s key t).
  - intros [Hk Ht]. unfold Reputation.AllowSend. destruct (negb _); [reflexivity|]. destruct (get_learns s key t0 Hk Ht) as [L _].
    destruct (Reputation.get s key t0) as [r s1]. by destruct (_ =? 0).
Qed.

(** ** The life of a daemon *)

Inductive learning : memory -> memory -> Prop :=
| lm_train unicode_word b data isSpam s :
    learning (mkMemory (Some b) s) (mkMemory (Some (Bayes.Train unicode_word b data isSpam)) s)
| lm_score b s o : recordable o -> learning (mkMemory b (Some s)) (mkMemory b (Some (Reputation.perform s o))).

Definition owns (m : memory) (p : path) : Prop := (mmCorpus m ≫= kp_path) = Some p \/ (mmScores m ≫= kp_path) = Some p.

(** It learns, its ticker fires, with calls that fail, and the rest of the
    program writes other files. *)
Inductive step : memory * world -> memory * world -> Prop :=
| st_learn m m' w : learning m m' -> step (m, w) (m', w)
| st_tick m w fs m' w' : saveState m (set_faults fs w) = (Ok m', w') -> step (m, w) (m', w')
| st_elsewhere m w w' : (forall p, owns m p -> wFiles w' !! p = wFiles w !! p) -> step (m, w) (m, w').

(** The two files and their temporary ones are four. *)
Definition apart (p q : path) : Prop := p <> q /\ p <> append_ext q #".tmp" /\ q <> append_ext p #".tmp".

(** A part of the memory: it is off, has no file, or is [held]. *)
Definition held_option {T} `{Kept T} (P : T -> Prop) (p : path) (w : world) (x : option T) : Prop :=
  match x with None => True | Some x => kp_path x = None \/ held P p w x end.

Section Part.
Context {T : Type} `{LawfulKept T}.

Lemma part_learns (P P' : T -> Prop) p w x x' : held_option P p w (Some x) -> (forall y, P y -> P' y) -> learns x x' -> held_option P' p w (Some x').
Proof. intros [Hn|Hh] HP HL; [left; rewrite <- Hn; apply HL|right; by eapply held_learns]. Qed.
Lemma part_elsewhere (P P' : T -> Prop) p w w' x : held_option P p w x -> (forall y, P y -> P' y) ->
  ((x ≫= kp_path) = Some p -> wFiles w' !! p = wFiles w !! p) -> held_option P' p w' x.
Proof.
  destruct x as [x|]; [|done]. intros [Hn|Hh] HP Hf; [by left|right]. eapply held_elsewhere; [done|done|]. apply Hf. apply Hh.
Qed.

(** Saving a part touches its file and the temporary one only. *)
Lemma save_frame p w (x : option T) (P : T -> Prop) : held_option P p w x ->
  forall q, q <> p -> q <> append_ext p #".tmp" -> wFiles (save_option x w).2 !! q = wFiles w !! q.
Proof.
  destruct x as [x|]; [|done]. intros Hx q N1 N2. cbn [save_option]. unfold mbind, M_bind. rewrite save_or_log_eq. cbn [snd].
  destruct Hx as [Hn|Hh].
  - destruct (kp_save_eq x) as [e ->]. by rewrite Hn.
  - pose proof (save_cases x p w (hd_path _ _ _ _ Hh)) as HS. destruct (kp_save x w) as [r w']. by apply HS.
Qed.
Lemma part_saved (P P' : T -> Prop) p w x : held_option P p w x -> (forall y, P y -> P' y) -> (forall y, x = Some y -> P' y) ->
  exists x', (save_option x w).1 = Ok x' /\ held_option P' p (save_option x w).2 x'.
Proof.
  destruct x as [x|]; [|by exists None]. intros Hx HP HP'. cbn [save_option]. unfold mbind, M_bind. destruct Hx as [Hn|Hh].
  - rewrite save_or_log_eq. destruct (kp_save_eq x) as [e ->]. rewrite Hn. exists (Some x). split; [done|by left].
  - destruct (held_saved P P' p w x Hh HP (HP' _ eq_refl)) as (x' & E & Hx' & _). rewrite save_or_log_eq in *. cbn [fst snd] in *.
    exists (Some x'). injection E as ->. split; [done|by right].
Qed.
Lemma part_saved_now (P P' : T -> Prop) p w x : held_option P p w x -> p <> [] -> wFaults w = [] ->
  exists x', (save_option x w).1 = Ok x' /\ wFaults (save_option x w).2 = [] /\
    ((forall y, x' = Some y -> P' y) -> held_option P' p (save_option x w).2 x').
Proof.
  destruct x as [x|]; [|by exists None]. intros Hx Hne Hw. cbn [save_option]. unfold mbind, M_bind. destruct Hx as [Hn|Hh].
  - rewrite save_or_log_eq. destruct (kp_save_eq x) as [e ->]. rewrite Hn. exists (Some x). split; [done|]. split; [done|]. by left.
  - destruct (held_saved_now P P' p w x Hh Hne Hw) as (x' & E & _ & Hw' & Hx'). rewrite save_or_log_eq in *. cbn [fst snd] in *.
    exists (Some x'). injection E as ->. split; [done|]. split; [done|]. intros HP. right. by apply Hx', HP.
Qed.
End Part.

(** Both parts; [P] and [Q] as for [held]. *)
Definition kept (P : Bayes.Bayes -> Prop) (Q : Reputation.Store -> Prop) (p q : path) (s : memory * world) : Prop :=
  held_option P p s.2 (mmCorpus s.1) /\ held_option Q q s.2 (mmScores s.1).

Lemma saveState_eq m w : forall b w1 s w2, save_option (mmCorpus m) w = (Ok b, w1) -> save_option (mmScores m) w1 = (Ok s, w2) ->
  saveState m w = (Ok (mkMemory b s), w2).
Proof. intros b w1 s w2 E1 E2. unfold saveState. rewrite (bind_ok _ _ _ _ _ E1), (bind_ok _ _ _ _ _ E2). done. Qed.

(** The moments of a life at which the parts were as [P] and [Q] say. *)
Lemma kept_step (P P' : Bayes.Bayes -> Prop) (Q Q' : Reputation.Store -> Prop) p q s s' :
  apart p q -> kept P Q p q s -> step s s' -> (forall y, P y -> P' y) -> (forall y, Q y -> Q' y) ->
  (forall y, mmCorpus s.1 = Some y -> P' y) -> (forall y, mmScores s.1 = Some y -> Q' y) -> kept P' Q' p q s'.
Proof.
  intros (A1 & A2 & A3) [HP HQ] Hs HPP HQQ HP' HQ'. destruct Hs as [m m' w Hl|m w fs m' w' E|m w w' Hf].
  - destruct Hl as [u b data isSpam s|b s o Ho]; cbn [kept fst snd mmCorpus mmScores] in *.
    + split; [eapply part_learns; [done|done|apply Train_learns]|by eapply part_elsewhere].
    + split; [by eapply part_elsewhere|eapply part_learns; [done|done|by apply perform_learns]].
  - cbn [fst snd] in *. assert (held_option P p (set_faults fs w) (mmCorpus m)) as HP1 by by eapply part_elsewhere.
    pose proof (save_frame p (set_faults fs w) (mmCorpus m) P HP1) as F1.
    destruct (part_saved P P' p (set_faults fs w) (mmCorpus m) HP1 HPP HP') as (b & Eb & Hb).
    destruct (save_option (mmCorpus m) (set_faults fs w)) as [rb w1] eqn:E1. cbn [fst snd] in *. subst rb.
    assert (held_option Q q w1 (mmScores m)) as HQ1 by (eapply part_elsewhere; [exact HQ|done|]; intros _; by apply (F1 q)).
    pose proof (save_frame q w1 (mmScores m) Q HQ1) as F2.
    destruct (part_saved Q Q' q w1 (mmScores m) HQ1 HQQ HQ') as (x & Ex & Hx).
    destruct (save_option (mmScores m) w1) as [rx w2] eqn:E2. cbn [fst snd] in *. subst rx.
    rewrite (saveState_eq m _ b w1 x w2 E1 E2) in E. injection E as <- <-. split; [|done]. cbn [fst snd mmCorpus].
    eapply part_elsewhere; [exact Hb|done|]. intros _. by apply (F2 p).
  - cbn [fst snd] in *. split; (eapply part_elsewhere; [done|done|]); intros Hp; apply Hf; [by left|by right].
Qed.

(** The files of the parts stay the same. *)
Section Files.
Context {T : Type} `{LawfulKept T}.

Lemma save_option_file (x x' : option T) w : (save_option x w).1 = Ok x' -> x' ≫= kp_path = x ≫= kp_path.
Proof.
  destruct x as [x|]; [|by intros [= <-]]. cbn [save_option]. unfold mbind at 1, M_bind. rewrite save_or_log_eq.
  intros [= <-]. cbn. destruct (kp_path x) as [p|] eqn:Ep.
  - pose proof (save_cases x p w Ep) as HS. destruct (kp_save x w) as [r w']. cbn [fst].
    destruct HS as [_ [[_ [[-> _]|[e ->]]]|[-> _]]]; [done|done|by rewrite kp_clean_path].
  - destruct (kp_save_eq x) as [e ->]. by rewrite Ep.
Qed.

(** A part as it is opened, and at the next start. *)
Lemma open_part enabled file p w : wFaults w = [] -> state_path file = Some p ->
  exists x : option T, open_or_empty enabled file w = (Ok x, w) /\
    (forall P : T -> Prop, (forall y, x = Some y -> P y /\ kp_ok y) -> held_option P p w x).
Proof.
  intros Hw Hf. unfold open_or_empty. destruct enabled; [|by exists None]. rewrite Hf. unfold try, mbind, M_bind.
  pose proof (kp_open_reads (T:=T) (Some p) w Hw) as Hr. pose proof (kp_opened (T:=T) p w) as Ho.
  destruct (kp_open (Some p) w) as [[x|e] w'] eqn:E; cbn [fst snd] in *; subst w'.
  - exists (Some x). split; [done|]. intros P HP. destruct (HP x eq_refl) as [HP' Hok]. destruct (Ho x eq_refl) as [Hp Hd]. right.
    apply held_fresh; [done|done|done|]. rewrite (kp_clean_id x Hd). unfold reopens.
    replace (set_faults [] w) with w by (destruct w; cbn in Hw; by subst). by rewrite E.
  - destruct (kp_open_empty (T:=T) w) as (x & Hx & Hn). pose proof (kp_open_reads (T:=T) None w Hw) as Hr'.
    destruct (kp_open None w) as [r w']. cbn [fst snd] in *. subst. exists (Some x). split; [done|]. intros P _. by left.
Qed.
Lemma reopen_part (P : T -> Prop) enabled file p w w' x x' : wFaults w = [] -> state_path file = Some p ->
  held_option P p w' x' -> (x' ≫= kp_path) = (x ≫= kp_path) -> (x ≫= kp_path) = Some p ->
  open_or_empty enabled file w = (Ok x, w) ->
  exists y, P y /\ open_or_empty (T:=T) enabled file (set_faults [] w') = (Ok (Some (kp_clean y)), set_faults [] w').
Proof.
  intros Hw Hf Hx' Hpath Hp Ho. destruct enabled; [|injection Ho as <-; done].
  rewrite Hp in Hpath. destruct x' as [x'|]; [|done]. cbn in Hpath. destruct Hx' as [Hn|[_ _ (y & HP & Hy & _)]]; [congruence|].
  exists y. split; [done|]. unfold open_or_empty, try, mbind, M_bind. rewrite Hf.
  pose proof (kp_open_reads (T:=T) (Some p) (set_faults [] w') eq_refl) as Hr. unfold reopens in Hy.
  destruct (kp_open (Some p) (set_faults [] w')) as [r w2]. cbn [fst snd] in *. by subst.
Qed.
End Files.

Lemma step_files s s' : step s s' -> mmCorpus s'.1 ≫= kp_path = mmCorpus s.1 ≫= kp_path /\ mmScores s'.1 ≫= kp_path = mmScores s.1 ≫= kp_path.
Proof.
  intros [m m' w Hl|m w fs m' w' E|m w w' _]; [| |done].
  - destruct Hl as [u b data isSpam x|b x o Ho]; cbn; [done|]. split; [done|]. apply (ln_path _ _ (perform_learns x o Ho)).
  - unfold saveState in E. unfold mbind at 1, M_bind at 1 in E.
    destruct (save_option (mmCorpus m) (set_faults fs w)) as [[b|e] w1] eqn:E1; [|done].
    unfold mbind at 1, M_bind at 1 in E. destruct (save_option (mmScores m) w1) as [[x|e] w2] eqn:E2; [|done].
    injection E as <- <-. cbn [fst mmCorpus mmScores]. split; [eapply save_option_file; by rewrite E1|eapply save_option_file; by rewrite E2].
Qed.
Lemma life_files s s' : rtc step s s' -> mmCorpus s'.1 ≫= kp_path = mmCorpus s.1 ≫= kp_path /\ mmScores s'.1 ≫= kp_path = mmScores s.1 ≫= kp_path.
Proof. induction 1 as [s|s1 s2 s3 Hs _ [IH1 IH2]]; [done|]. destruct (step_files _ _ Hs) as [F1 F2]. split; congruence. Qed.

(** A life in which both parts are kept; what is on the disk is how a part was
    at some moment of it. *)
Definition at_some {T} (f : memory -> option T) (s1 s2 : memory * world) (y : T) : Prop :=
  exists s, rtc step s1 s /\ rtc step s s2 /\ f s.1 = Some y.

Lemma kept_life p q s1 s2 : apart p q -> rtc step s1 s2 ->
  kept (at_some mmCorpus s1 s1) (at_some mmScores s1 s1) p q s1 -> kept (at_some mmCorpus s1 s2) (at_some mmScores s1 s2) p q s2.
Proof.
  intros Ha Hs Hk. revert s2 Hs. apply (rtc_ind_r (fun s2 => kept (at_some mmCorpus s1 s2) (at_some mmScores s1 s2) p q s2)); [done|].
  intros s2 s3 Hs12 Hs IH.
  eapply kept_step; [done|exact IH|done| | | |].
  - intros y (s & H1 & H2 & Hy). exists s. split; [done|]. split; [by eapply rtc_r|done].
  - intros y (s & H1 & H2 & Hy). exists s. split; [done|]. split; [by eapply rtc_r|done].
  - intros y Hy. exists s2. split; [done|]. split; [by apply rtc_once|done].
  - intros y Hy. exists s2. split; [done|]. split; [by apply rtc_once|done].
Qed.

(** A tick whose calls work writes both parts. *)
Lemma tick_works (P : Bayes.Bayes -> Prop) (Q : Reputation.Store -> Prop) p q m w : apart p q -> p <> [] -> q <> [] ->
  kept P Q p q (m, w) -> exists m' w', saveState m (set_faults [] w) = (Ok m', w') /\
  forall (P' : Bayes.Bayes -> Prop) (Q' : Reputation.Store -> Prop),
    (forall y, mmCorpus m' = Some y -> P' y) -> (forall y, mmScores m' = Some y -> Q' y) -> kept P' Q' p q (m', w').
Proof.
  intros (A1 & A2 & A3) Hp Hq [HP HQ]. cbn [fst snd] in *.
  assert (held_option P p (set_faults [] w) (mmCorpus m)) as HP1 by by eapply part_elsewhere.
  pose proof (save_frame p (set_faults [] w) (mmCorpus m) P HP1) as F1.
  destruct (save_option (mmCorpus m) (set_faults [] w)) as [rb w1] eqn:E1. cbn [fst snd] in *.
  assert (held_option Q q w1 (mmScores m)) as HQ1 by (eapply part_elsewhere; [exact HQ|done|]; intros _; by apply (F1 q)).
  assert (wFaults w1 = [] /\ exists b, rb = Ok b) as [Hw1 [b ->]].
  { destruct (part_saved_now P P p _ _ HP1 Hp eq_refl) as (b & Eb & Hw & _). rewrite E1 in Eb, Hw. split; [done|by exists b]. }
  pose proof (save_frame q w1 (mmScores m) Q HQ1) as F2.
  destruct (save_option (mmScores m) w1) as [rx w2] eqn:E2. cbn [fst snd] in *.
  assert (exists x, rx = Ok x) as [x ->].
  { destruct (part_saved_now Q Q q _ _ HQ1 Hq Hw1) as (x & Ex & _). rewrite E2 in Ex. by exists x. }
  exists (mkMemory b x), w2. split; [by eapply saveState_eq|]. intros P' Q' HP' HQ'. cbn [mmCorpus mmScores] in *. split; cbn [fst snd mmCorpus mmScores].
  - destruct (part_saved_now P P' p _ _ HP1 Hp eq_refl) as (b' & Eb & _ & Hb). rewrite E1 in Eb, Hb. injection Eb as ->.
    eapply part_elsewhere; [by apply Hb|done|]. intros _. by apply (F2 p).
  - destruct (part_saved_now Q Q' q _ _ HQ1 Hq Hw1) as (x' & Ex & _ & Hx). rewrite E2 in Ex, Hx. injection Ex as ->. by apply Hx.
Qed.

Lemma open_memory_eq c w b s : open_or_empty (is_enabled (asEnabled (cfAntispam c))) (asBayesFile (cfAntispam c)) w = (Ok b, w) ->
  open_or_empty (is_enabled (rpEnabled (cfReputation c))) (rpFile (cfReputation c)) w = (Ok s, w) -> open_memory c w = (Ok (mkMemory b s), w).
Proof. intros E1 E2. unfold open_memory. rewrite (bind_ok _ _ _ _ _ E1), (bind_ok _ _ _ _ _ E2). done. Qed.

(** The two files of a configuration. *)
Record two_files (c : Root) (p q : path) : Prop := {
  tf_corpus : state_path (asBayesFile (cfAntispam c)) = Some p;
  tf_scores : state_path (rpFile (cfReputation c)) = Some q;
  tf_apart : apart p q;
  tf_real : p <> [] /\ q <> [] }.

(** C20. A crash costs what was learned since the state was last written: a daemon
    that starts again finds its corpus and its scores each as they were at
    some moment after the last tick that worked, whatever ticks failed since
    and whatever else was written. *)
Theorem crash_costs c p q w0 m0 s1 m2 w2 s3 :
  two_files c p q -> wFaults w0 = [] -> open_memory c w0 = (Ok m0, w0) ->
  (forall b, mmCorpus m0 = Some b -> Bayes.corpus_ok b) ->
  (forall x, mmScores m0 = Some x -> Reputation.encodable (Reputation.stRecords x)) ->
  rtc step (m0, w0) s1 -> saveState s1.1 (set_faults [] s1.2) = (Ok m2, w2) -> rtc step (m2, w2) s3 ->
  exists m w, open_memory c (set_faults [] s3.2) = (Ok m, w) /\
    (mmCorpus m0 ≫= Bayes.bPath = Some p -> exists b, at_some mmCorpus (m2, w2) s3 b /\
       mmCorpus m = Some (Bayes.mkBayes (Bayes.bPath b) (Bayes.bTokens b) (Bayes.bHam b) (Bayes.bSpam b) false)) /\
    (mmScores m0 ≫= Reputation.stPath = Some q -> exists x, at_some mmScores (m2, w2) s3 x /\
       mmScores m = Some (Reputation.mkStore (Reputation.stPath x) (Reputation.stRecords x) false)).
Proof.
  intros [Hp Hq Ha [Hpn Hqn]] Hw0 Ho Hb Hx Hs1 Hsave Hs3.
  destruct (open_part (T:=Bayes.Bayes) (is_enabled (asEnabled (cfAntispam c))) _ p w0 Hw0 Hp) as (b0 & Eb0 & Hb0).
  destruct (open_part (T:=Reputation.Store) (is_enabled (rpEnabled (cfReputation c))) _ q w0 Hw0 Hq) as (x0 & Ex0 & Hx0).
  rewrite (open_memory_eq c w0 b0 x0 Eb0 Ex0) in Ho. injection Ho as <-. cbn [mmCorpus mmScores] in *.
  assert (kept (fun _ => True) (fun _ => True) p q s1) as Hk1.
  { revert s1 Hs1 Hsave. assert (kept (fun _ => True) (fun _ => True) p q (mkMemory b0 x0, w0)) as Hk0.
    { split; cbn [fst snd mmCorpus mmScores]; [apply Hb0|apply Hx0]; intros y Hy; (split; [done|]); [by apply Hb|by apply Hx]. }
    intros s1 Hs1 _. revert s1 Hs1. apply (rtc_ind_r (fun s1 => kept (fun _ => True) (fun _ => True) p q s1)); [done|].
    intros s2 s4 _ Hs IH. by eapply kept_step. }
  destruct s1 as [m1 w1]. destruct (tick_works _ _ p q m1 w1 Ha Hpn Hqn Hk1) as (m2' & w2' & E & Hk2). cbn [fst snd] in Hsave.
  rewrite E in Hsave. injection Hsave as -> ->.
  assert (kept (at_some mmCorpus (m2, w2) s3) (at_some mmScores (m2, w2) s3) p q s3) as [HkB HkS].
  { apply kept_life; [done|done|]. apply Hk2; intros y Hy; by exists (m2, w2). }
  destruct (life_files _ _ Hs1) as [F1 G1]. destruct (life_files _ _ Hs3) as [F3 G3].
  destruct (step_files (m1, w1) (m2, w2)) as [F2 G2]; [by eapply st_tick|]. cbn [fst mmCorpus mmScores] in F1, F2, F3, G1, G2, G3.
  destruct (open_part (T:=Bayes.Bayes) (is_enabled (asEnabled (cfAntispam c))) _ p (set_faults [] s3.2) eq_refl Hp) as (b3 & Eb3 & _).
  destruct (open_part (T:=Reputation.Store) (is_enabled (rpEnabled (cfReputation c))) _ q (set_faults [] s3.2) eq_refl Hq) as (x3 & Ex3 & _).
  exists (mkMemory b3 x3), (set_faults [] s3.2). split; [by apply open_memory_eq|]. cbn [mmCorpus mmScores]. split; intros Hpath.
  - destruct (reopen_part (at_some mmCorpus (m2, w2) s3) (is_enabled (asEnabled (cfAntispam c))) _ p w0 s3.2 b0 (mmCorpus s3.1) Hw0 Hp HkB) as (y & Hy & Ey); [congruence|done|done|].
    exists y. split; [done|]. rewrite Eb3 in Ey. by injection Ey.
  - destruct (reopen_part (at_some mmScores (m2, w2) s3) (is_enabled (rpEnabled (cfReputation c))) _ q w0 s3.2 x0 (mmScores s3.1) Hw0 Hq HkS) as (y & Hy & Ey); [congruence|done|done|].
    exists y. split; [done|]. rewrite Ex3 in Ey. by injection Ey.
Qed.
End Life.

(** ** A crash *)

Definition example_disk : world := mkWorld ∅ ∅ [] 7 [] [] 0 1 #"h".
Definition corpus_path : path := Eval vm_compute in default [] (state_path (asBayesFile (cfAntispam defaults))).
Definition scores_path : path := Eval vm_compute in default [] (state_path (rpFile (cfReputation defaults))).
Definition opened : memory :=
  mkMemory (Some (Bayes.mkBayes (Some corpus_path) ∅ 0 0 false)) (Some (Reputation.mkStore (Some scores_path) ∅ false)).
Definition spam_learned (m : memory) (data : str) : memory :=
  mkMemory ((fun b => Bayes.Train (fun _ => false) b data true) <$> mmCorpus m) (mmScores m).
Definition trained : memory := spam_learned opened (CRLF ++ CRLF ++ #"casino chips").
#[local] Existing Instances Reputation.toy_codec Reputation.toy_codec_lawful.
Definition example_tick : memory * world :=
  Eval vm_compute in match saveState trained example_disk with (Ok m, w) => (m, w) | (Err _, w) => (opened, w) end.

Lemma example_files : two_files defaults corpus_path scores_path.
Proof.
  split; [reflexivity|reflexivity| |done]. unfold apart. split_and!; apply (bool_decide_unpack _); vm_compute; exact I.
Qed.
Lemma example_learns m w data b : mmCorpus m = Some b -> rtc step (m, w) (spam_learned m data, w).
Proof. intros Hb. apply rtc_once. apply st_learn. destruct m as [? s]. cbn in Hb. subst. apply lm_train. Qed.

(** What was learned after the tick is lost, what was learned before is not. *)
Lemma crash_costs_witness :
  exists m w, open_memory defaults (set_faults [] example_tick.2) = (Ok m, w).
Proof.
  destruct (crash_costs defaults corpus_path scores_path example_disk opened (trained, example_disk) example_tick.1 example_tick.2
    (spam_learned example_tick.1 (CRLF ++ CRLF ++ #"more chips"), example_tick.2)) as (m & w & E & _).
  - exact example_files.
  - reflexivity.
  - vm_compute. reflexivity.
  - intros b [= <-]. split; [done|]. split; [done|]. apply map_Forall_empty.
  - intros x [= <-] k r Hk. cbn in Hk. by rewrite lookup_empty in Hk.
  - by eapply (example_learns opened).
  - vm_compute. reflexivity.
  - by eapply (example_learns example_tick.1).
  - exists m, w. exact E.
Defined.
Example crash_runs :
  (fun m => (Bayes.Trained <$> mmCorpus m)) <$> (match open_memory defaults example_tick.2 with (Ok m, _) => Some m | _ => None end)
  = Some (Some (0, 1)).
Proof. vm_compute. reflexivity. Qed.

(** A corpus of which not even the first line can be read counts as an empty
    one: the next tick writes over it. *)
Example unread_corpus_is_lost :
  let disk := set_faults [Short 0] example_tick.2 in
  match open_memory defaults disk with
  | (Ok m, w) =>
      match saveState (spam_learned m (CRLF ++ CRLF ++ #"chips")) w with
      | (Ok m', w') => (Bayes.Trained <$> mmCorpus m', fData <$> wFiles w' !! corpus_path)
                       = (Some (0, 1), Some (#"H0 S1" ++ [LF] ++ #"0 1 chips" ++ [LF]))
      | _ => False
      end
  | _ => False
  end.
Proof. vm_compute. reflexivity. Qed.
