(* ===== verification/Transact.v ===== *)
(** * The transaction of the outbound transport (queue/transport.go)

    [trySend] after the dial, as calls of the client of [NetSmtp]; what the
    client has sent and learnt after each of them, and how replies of the
    server of this program look to it. *)

From S2P Require Import Prelude GoStrings GoOS GoNet StateM NetSmtp.
From S2P Require Queue Smtp.

#[global] Open Scope Z_scope.

(** ** The transaction ([trySend] after the dial) *)

Definition all_well : Queue.dialogue := Queue.mkDialogue None None None None None None None None None None.
Definition at_greeting (e : net_error) : Queue.dialogue := Queue.mkDialogue None (Some e) None None None None None None None None.
Definition at_hello (e : net_error) : Queue.dialogue := Queue.mkDialogue None None (Some e) None None None None None None None.
Definition at_tls (e : net_error) : Queue.dialogue := Queue.mkDialogue None None None (Some (Some e)) None None None None None None.
Definition at_mail (e : net_error) : Queue.dialogue := Queue.mkDialogue None None None None (Some e) None None None None None.
Definition at_rcpt (e : net_error) : Queue.dialogue := Queue.mkDialogue None None None None None (Some e) None None None None.
Definition at_data (e : net_error) : Queue.dialogue := Queue.mkDialogue None None None None None None (Some e) None None None.
Definition at_close (e : net_error) : Queue.dialogue := Queue.mkDialogue None None None None None None None None (Some e) None.
Definition at_quit (e : net_error) : Queue.dialogue := Queue.mkDialogue None None None None None None None None None (Some e).

(** The calls that follow are made only if [m] works. *)
Definition unless (m : call) (failing : net_error -> Queue.dialogue) (next : SM client Queue.dialogue) : SM client Queue.dialogue :=
  r ← m;
  match r with
  | Some e => mret (failing e)
  | None => next
  end.

Section Transaction.
Context (Handshake : list str -> option (list str)).

Definition transact (ehlo : str) (e : Queue.Envelope) : SM client Queue.dialogue :=
  unless greeting at_greeting (
  unless (Hello ehlo) at_hello (
  offered ← Extension #"STARTTLS";
  unless (if offered : bool then StartTLS Handshake ehlo else mret None) at_tls (
  unless (Mail (Queue.eFrom e)) at_mail (
  unless (Rcpt (Queue.eRcpt e)) at_rcpt (
  unless Data at_data (
  unless (WriteClose (Queue.eData e)) at_close (
  unless Quit at_quit (
  mret all_well)))))))).
End Transaction.

(** ** What the client sends and learns *)

(** The client only adds to what it has sent. *)
Definition sent_on (c c' : client) : Prop := exists s, clSent c' = clSent c ++ s.
#[export] Instance sent_on_preorder : PreOrder sent_on.
Proof.
  split; [intros c; exists []; by rewrite app_nil_r|]. intros a b c [l1 H1] [l2 H2]. exists (l1 ++ l2). by rewrite H2, H1, app_assoc.
Qed.
(** Reading sends nothing and keeps the extensions. *)
Definition listens (c c' : client) : Prop := clSent c' = clSent c /\ clExt c' = clExt c.
#[export] Instance listens_preorder : PreOrder listens.
Proof. split; [done|]. intros a b c [] []. split; congruence. Qed.

Lemma listens_sent : subrelation listens sent_on.
Proof. intros c c' [Hs _]. exists []. by rewrite Hs, app_nil_r. Qed.
Lemma listens_ReadLine : keeps listens ReadLine.
Proof. intros c. unfold ReadLine. destruct (ReadString _ _) as [[l ok] rd]. destruct ok; [done|]. by destruct l. Qed.
#[local] Hint Resolve listens_ReadLine : session.
Lemma listens_more fuel code : forall message, keeps listens (more_lines fuel code message).
Proof. induction fuel as [|fuel IH]; intros message; cbn [more_lines]; keeps_auto. Qed.
#[local] Hint Resolve listens_more : session.
Lemma listens_ReadResponse want : keeps listens (ReadResponse want).
Proof. unfold ReadResponse. keeps_auto. Qed.

Lemma sent_ReadResponse want : keeps sent_on (ReadResponse want).
Proof. apply (keeps_weaken listens), listens_ReadResponse. apply listens_sent. Qed.
Lemma sent_write s : keeps sent_on (write s).
Proof. intros c. by exists s. Qed.
Lemma sent_set_ext ext : keeps sent_on (set_ext ext).
Proof. intros c. exists []. by rewrite app_nil_r. Qed.
#[local] Hint Resolve sent_ReadResponse sent_write sent_set_ext : session.
Lemma sent_cmd want text : keeps sent_on (cmd want text).
Proof. unfold cmd. keeps_auto. Qed.
#[local] Hint Resolve sent_cmd : session.
Lemma sent_Extension key : keeps sent_on (Extension key).
Proof. intros c. reflexivity. Qed.
#[local] Hint Resolve sent_Extension : session.
Lemma sent_ehlo name : keeps sent_on (ehlo name).
Proof. unfold ehlo. keeps_auto. Qed.
Lemma sent_helo name : keeps sent_on (helo name).
Proof. unfold helo. keeps_auto. Qed.
Lemma sent_StartTLS Handshake name : keeps sent_on (StartTLS Handshake name).
Proof.
  unfold StartTLS. apply keeps_bind; [exact _|apply sent_cmd|intros [?|?]]; [|keeps_auto]. intros c. unfold secured.
  destruct (Handshake _) as [clear|]; [|reflexivity]. apply (sent_ehlo name (mkClient (clSent c) (mkReader [] clear) (clExt c))).
Qed.
Lemma sent_Mail from : keeps sent_on (Mail from).
Proof. unfold Mail. keeps_auto. Qed.
Lemma sent_Rcpt to : keeps sent_on (Rcpt to).
Proof. unfold Rcpt. keeps_auto. Qed.
Lemma sent_WriteClose data : keeps sent_on (WriteClose data).
Proof. unfold WriteClose. keeps_auto. Qed.
Lemma sent_Data : keeps sent_on Data.
Proof. unfold Data. keeps_auto. Qed.
Lemma sent_Quit : keeps sent_on Quit.
Proof. unfold Quit. keeps_auto. Qed.

(** A command and the reply to it. *)
Lemma cmd_sent want text c : clSent (cmd want text c).2 = clSent c ++ text ++ CRLF /\ clExt (cmd want text c).2 = clExt c.
Proof. apply (listens_ReadResponse want (mkClient (clSent c ++ text ++ CRLF) (clReader c) (clExt c))). Qed.

(** The server's line [line] to a command that wants [want]. *)
Definition refuses (want : Z) (line : str) : Prop := exists q t, line = q ++ t /\ bad want q.

Lemma reply_good want line rest c : good want line -> reads (line ++ CRLF ++ rest) c ->
  exists m, (ReadResponse want c).1 = Ok m /\ reads rest (ReadResponse want c).2.
Proof. intros Hg Hr. destruct (ReadResponse_good want line rest c Hg Hr) as (m & rd & -> & H). by exists m. Qed.
Lemma reply_refused want line rest c : refuses want line -> reads (line ++ CRLF ++ rest) c ->
  exists e, (ReadResponse want c).1 = Err e.
Proof.
  intros (q & t & -> & Hb) Hr. rewrite <- app_assoc in Hr. destruct (ReadResponse_bad want q _ c Hb Hr) as (e & c' & ->). by exists e.
Qed.

(** A call of the transaction that worked, and what follows it. *)
Lemma unless_well (m : call) failing next c c' :
  unless m failing next c = (all_well, c') -> (forall e, failing e <> all_well) ->
  exists c1, m c = (None, c1) /\ next c1 = (all_well, c').
Proof.
  unfold unless, mbind, SM_bind. destruct (m c) as [[e|] c1]; [|intros E _; by exists c1].
  unfold mret, SM_ret. intros [= He _] Hf. by destruct (Hf e).
Qed.
Lemma failure_None {A} (r : result net_error A) : failure r = None -> exists a, r = Ok a.
Proof. destruct r; [by eexists|done]. Qed.
Lemma call_well want text c c1 : (r ← cmd want text; mret (failure r)) c = (None, c1) ->
  exists m, cmd want text c = (Ok m, c1).
Proof.
  unfold mbind, SM_bind. destruct (cmd want text c) as [r c2]. unfold mret, SM_ret.
  intros [= Hr ->]. apply failure_None in Hr as [m ->]. by exists m.
Qed.
Lemma validateLine_plain s : validateLine s = None -> plain_line s.
Proof.
  unfold validateLine. destruct (existsb _ s) eqn:E; [done|]. intros _.
  assert (forall c, c ∈ s -> Ascii.eqb c CR || Ascii.eqb c LF = false) as H.
  { intros c Hc. apply not_true_is_false. intros Ht. apply not_true_iff_false in E. apply E, existsb_exists.
    exists c. by rewrite <- list_elem_of_In. }
  split; intros Hin%H; by vm_compute in Hin.
Qed.

(** ** Commands of the client as the server reads them *)

Lemma plain_line_app a b : plain_line a -> plain_line b -> plain_line (a ++ b).
Proof. intros [] []. split; rewrite not_elem_of_app; done. Qed.
Lemma plain_lit a : forallb (fun c => negb (Ascii.eqb c CR) && negb (Ascii.eqb c LF)) a = true -> plain_line a.
Proof. intros Ha. rewrite forallb_forall in Ha. split; intros Hin%list_elem_of_In%Ha; by vm_compute in Hin. Qed.
Ltac plain_auto := repeat apply plain_line_app; try done; try (apply plain_lit; reflexivity).

(** An address that passes through a path unharmed. *)
Definition bare (a : str) : Prop := ">"%char ∉ a /\ has_prefix #"@" a = false.
(** What may follow a path. *)
Definition params_ok (params : str) : Prop := plain_line params /\ forall x, last params = Some x -> is_space x = false.

Lemma parsePath_bare pre a params : bare a -> params_ok params ->
  Smtp.parsePath (pre ++ #"<" ++ a ++ #">" ++ params) pre = Ok (a, fields params).
Proof.
  intros [Ha Hpre] [_ Hparams]. unfold Smtp.parsePath. rewrite take_app_length, drop_app_length.
  rewrite (proj2 (Nat.ltb_ge _ _)) by (rewrite length_app; lia).
  assert (equal_fold pre pre = true) as -> by (unfold equal_fold; apply str_eqb_refl). cbn [negb orb].
  assert (trim_space (#"<" ++ a ++ #">" ++ params) = #"<" ++ a ++ #">" ++ params) as ->.
  { apply trim_space_id; [by intros x [= <-]|]. intros x. rewrite !last_app. destruct (last params) eqn:El.
    - intros [= <-]. by apply Hparams.
    - by intros [= <-]. }
  change (has_prefix #"<" (#"<" ++ a ++ #">" ++ params)) with true. cbn [negb].
  replace (#"<" ++ a ++ #">" ++ params) with ((#"<" ++ a) ++ ">"%char :: params) by (by rewrite <- app_assoc).
  rewrite index_byte_app.
  2: { rewrite not_elem_of_app. split; [|done]. intros Hin%list_elem_of_singleton. done. }
  rewrite take_app_length. change (drop 1 (#"<" ++ a)) with a. rewrite Hpre.
  assert ((match last_index_byte ":" a with Some _ => a | None => a end) = a) as -> by by destruct (last_index_byte _ a).
  change (S (length (#"<" ++ a))) with (1 + length (#"<" ++ a))%nat. rewrite Nat.add_comm, <- drop_drop, drop_app_length. done.
Qed.

Lemma Mail_well from c c1 : Mail from c = (None, c1) -> plain_line from /\
  exists params m, params_ok params /\ cmd 250 (#"MAIL FROM:<" ++ from ++ #">" ++ params) c = (Ok m, c1).
Proof.
  unfold Mail. destruct (validateLine from) eqn:Ev; [done|]. intros E. split; [by apply validateLine_plain|].
  unfold mbind at 1, SM_bind at 1, Extension at 1 in E. unfold mbind at 1, SM_bind at 1, Extension at 1 in E.
  eexists. apply call_well in E as [m E]. exists m. split; [|exact E].
  destruct (announces _ _), (announces _ _); (split; [apply plain_lit; reflexivity|cbn; by intros x [= <-]]).
Qed.
Lemma Rcpt_well to c c1 : Rcpt to c = (None, c1) -> plain_line to /\ exists m, cmd 25 (#"RCPT TO:<" ++ to ++ #">") c = (Ok m, c1).
Proof.
  unfold Rcpt. destruct (validateLine to) eqn:Ev; [done|]. intros E. split; [by apply validateLine_plain|]. by apply call_well.
Qed.

Lemma Hello_well name c c1 : Hello name c = (None, c1) -> plain_line name /\
  sent_on (cmd 250 (#"EHLO " ++ name) c).2 c1 /\
  (forall m c2, cmd 250 (#"EHLO " ++ name) c = (Ok m, c2) -> c1 = mkClient (clSent c2) (clReader c2) (parse_ext m)).
Proof.
  unfold Hello. destruct (validateLine name) eqn:Ev; [done|]. intros E. split; [by apply validateLine_plain|].
  unfold ehlo in E. unfold mbind, SM_bind in E. destruct (cmd 250 _ c) as [[m|e] c2].
  - unfold set_ext, mret, SM_ret in E. injection E as <-. split; [by exists []; rewrite app_nil_r|]. by intros m' c2' [= <- <-].
  - unfold mret, SM_ret in E. pose proof (sent_helo name c2) as Hh. rewrite E in Hh. split; [exact Hh|done].
Qed.

Lemma refuse want line q code : has_prefix q line = true -> forallb (fun c => negb (Ascii.eqb c LF)) q = true ->
  length q = 4%nat -> last q = Some SP -> parse_int (take 3 q) = Some code -> 100 <= code -> unexpected want code = true -> refuses want line.
Proof.
  intros Hp Hlf Hl Hs Hc H100 Hu. apply has_prefix_spec in Hp as [t ->]. exists q, t. split; [done|]. split; [|by exists code].
  intros Hin%list_elem_of_In. rewrite forallb_forall in Hlf. specialize (Hlf _ Hin). by rewrite Ascii.eqb_refl in Hlf.
Qed.
Lemma accept_line want line q code : has_prefix q line = true -> LF ∉ line ->
  length q = 4%nat -> last q = Some SP -> parse_int (take 3 q) = Some code -> 100 <= code -> unexpected want code = false -> good want line.
Proof. intros Hp Hlf Hl Hs Hc H100 Hu. apply has_prefix_spec in Hp as [t ->]. split; [done|]. by exists q, t, code. Qed.

(** By the first four bytes of the line. *)
Ltac refused q code := apply (refuse _ _ q code); [reflexivity|reflexivity|reflexivity|reflexivity|reflexivity|by vm_compute|reflexivity].
Ltac accepted q code := apply (accept_line _ _ q code); [reflexivity| |reflexivity|reflexivity|reflexivity|by vm_compute|reflexivity].
