(* ===== verification/Relay.v ===== *)
(** * From one server to the next (queue/transport.go and smtp/session.go)

    The transaction of [Transact] with a server of this program at the other
    end: each command of the client is one turn of the server's loop, and a
    delivery that the sender reports as a success is on the receiver's disk. *)

From S2P Require Import Prelude GoStrings GoOS GoNet StateM NetSmtp Transact.
From S2P Require Queue QueueProps Smtp SmtpProps SmtpFlow Daemon DaemonProps Routing StorageResolver RateLimit Governor Stats Container Config Probe.

#[global] Open Scope Z_scope.

(** ** What a server does to its connection *)

(** A relation that writing a reply keeps, and later one that reading keeps
    too, is kept by the handlers. *)
Section Growing.
Context {E : Type} (be : Smtp.Backend E) (ex : Smtp.Services E) (ip : str).
Context (R : relation conn) `{!PreOrder R}.
Hypothesis R_write : forall ls c, R c (write_lines ls c).2.
Abbreviation state := (Smtp.state E).

Definition grows (st st' : state) : Prop := R (Smtp.xConn st) (Smtp.xConn st').
#[local] Instance grows_preorder : PreOrder grows.
Proof. split; [intros st; unfold grows; reflexivity|]. intros a b c. unfold grows. apply transitivity. Qed.

Lemma grows_env {A} (f : E -> A * E) : keeps grows (Smtp.on_env f).
Proof. intros st. unfold Smtp.on_env. destruct (f _). unfold grows. reflexivity. Qed.
Lemma grows_set {A} (f : Smtp.Settings -> A * Smtp.Settings) : keeps grows (Smtp.on_set f).
Proof. intros st. unfold Smtp.on_set. destruct (f _). unfold grows. reflexivity. Qed.
Lemma grows_sess f : keeps grows (Smtp.set_sess f).
Proof. intros st. unfold grows. reflexivity. Qed.
Lemma grows_conn {A} (f : conn -> A * conn) : (forall c, R c (f c).2) -> keeps grows (Smtp.on_conn f).
Proof. intros Hf st. unfold Smtp.on_conn. pose proof (Hf (Smtp.xConn st)). by destruct (f _). Qed.
Lemma grows_write ls : keeps grows (Smtp.on_conn (write_lines ls)).
Proof. apply grows_conn, R_write. Qed.
Lemma grows_reply line : keeps grows (Smtp.reply line).
Proof. apply grows_write. Qed.
#[local] Hint Resolve grows_env grows_set grows_sess grows_write grows_reply : session.
Lemma grows_answer {A} line (a : A) : keeps grows (Smtp.answer line a).
Proof. unfold Smtp.answer. keeps_auto. Qed.
#[local] Hint Resolve grows_answer : session.

Lemma grows_forward_all d rs m : keeps grows (Smtp.forward_all be d rs m).
Proof. induction rs; cbn [Smtp.forward_all]; unfold Smtp.forward; keeps_auto. Qed.
#[local] Hint Resolve grows_forward_all : session.
Lemma grows_deliver_locals d spam m ls : forall g, keeps grows (Smtp.deliver_locals be ex d spam m ls g).
Proof. induction ls; cbn [Smtp.deliver_locals]; unfold Smtp.deliver_local; keeps_auto. Qed.
Lemma grows_deliver_remotes d m rs : forall g, keeps grows (Smtp.deliver_remotes be d m rs g).
Proof. induction rs; cbn [Smtp.deliver_remotes]; unfold Smtp.forward; keeps_auto. Qed.
#[local] Hint Resolve grows_deliver_locals grows_deliver_remotes : session.
Lemma grows_deliver_all spam m rs : forall n over, keeps grows (Smtp.deliver_all be ex spam m rs n over).
Proof. induction rs; cbn [Smtp.deliver_all]; unfold Smtp.deliver_one, Smtp.deliverPlan; keeps_auto. Qed.
#[local] Hint Resolve grows_deliver_all : session.
Lemma grows_end_transaction line : keeps grows (Smtp.end_transaction line).
Proof. unfold Smtp.end_transaction, Smtp.resetTransaction. keeps_auto. Qed.
#[local] Hint Resolve grows_end_transaction : session.
Lemma grows_accept_message set raw : keeps grows (Smtp.accept_message be ex ip set raw).
Proof.
  unfold Smtp.accept_message, Smtp.screen, Smtp.assemble, Smtp.sign, Smtp.accepted_hooks, Smtp.count. keeps_auto.
Qed.
#[local] Hint Resolve grows_accept_message : session.
Hypothesis R_read : forall rd c, R c (with_reader rd c).
Lemma grows_read {A} (f : conn -> A * conn) : (forall c, (f c).2 = c \/ exists rd, (f c).2 = with_reader rd c) -> keeps grows (Smtp.on_conn f).
Proof. intros Hf. apply grows_conn. intros c. destruct (Hf c) as [-> | [rd ->]]; [reflexivity|apply R_read]. Qed.

Lemma grows_readLine : keeps grows Smtp.readLine.
Proof.
  unfold Smtp.readLine. apply keeps_bind; [exact _|apply grows_read; intros c; right|].
  - destruct (ReadSlice _ _) as [[??] rd]. by exists rd.
  - intros [l e]. cbv zeta. destruct e as [[]|]; keeps_auto. apply grows_read. intros c. right. by eexists.
Qed.
#[local] Hint Resolve grows_readLine : session.
Lemma grows_sasl_line p : keeps grows (Smtp.sasl_line p).
Proof. unfold Smtp.sasl_line. keeps_auto. Qed.
#[local] Hint Resolve grows_sasl_line : session.
Lemma grows_cmdAuth arg : keeps grows (Smtp.cmdAuth be ip arg).
Proof.
  unfold Smtp.cmdAuth, Smtp.authPlain, Smtp.authLogin, Smtp.login_step, Smtp.auth_verdict, Smtp.count. keeps_auto.
Qed.
Lemma grows_cmdStartTLS : keeps grows (Smtp.cmdStartTLS ex).
Proof.
  unfold Smtp.cmdStartTLS, Smtp.resetTransaction. keeps_auto; apply grows_read; intros c; [by left|right; by eexists].
Qed.
Lemma grows_cmdRcpt arg : keeps grows (Smtp.cmdRcpt be ex ip arg).
Proof.
  unfold Smtp.cmdRcpt, Smtp.rcpt_address, Smtp.rcpt_refused, Smtp.in_limit, Smtp.out_limit, Smtp.governor, Smtp.count, Smtp.add_rcpt.
  keeps_auto.
Qed.
Lemma grows_cmdData : keeps grows (Smtp.cmdData be ex ip).
Proof.
  unfold Smtp.cmdData, Smtp.data_refused, Smtp.in_limit, Smtp.out_limit, Smtp.governor. keeps_auto.
  apply grows_read. intros c. right. destruct (ReadDot _ _) as [[]|]; by eexists.
Qed.
Lemma grows_cmdHelo arg ext : keeps grows (Smtp.cmdHelo be arg ext).
Proof. unfold Smtp.cmdHelo, Smtp.resetTransaction. keeps_auto. Qed.
Lemma grows_cmdMail arg : keeps grows (Smtp.cmdMail arg).
Proof. unfold Smtp.cmdMail, Smtp.set_from. keeps_auto. Qed.
#[local] Hint Resolve grows_cmdAuth grows_cmdStartTLS grows_cmdRcpt grows_cmdData grows_cmdHelo grows_cmdMail : session.
Lemma grows_run_loop fuel : keeps grows (Smtp.run_loop be ex ip fuel).
Proof.
  induction fuel as [|fuel IH]; cbn [Smtp.run_loop]; [keeps_auto|].
  unfold Smtp.turn, Smtp.dispatch, Smtp.going_on, Smtp.resetTransaction. keeps_auto.
Qed.
End Growing.

(** The lines already sent stay sent. *)
Definition appends (c c' : conn) : Prop := exists ls, cnOut c' = cnOut c ++ ls.
#[export] Instance appends_preorder : PreOrder appends.
Proof.
  split; [intros c; exists []; by rewrite app_nil_r|]. intros a b c [l1 H1] [l2 H2]. exists (l1 ++ l2). by rewrite H2, H1, app_assoc.
Qed.
Lemma appends_write ls c : appends c (write_lines ls c).2.
Proof. unfold write_lines. destruct (cnWrites c) as [[|n]|]; [exists []; by rewrite app_nil_r|by exists ls..]. Qed.
Lemma appends_run_loop {E} (be : Smtp.Backend E) ex ip fuel st :
  appends (Smtp.xConn st) (Smtp.xConn (Smtp.run_loop be ex ip fuel st).2).
Proof. apply (grows_run_loop be ex ip appends); [apply appends_write|]. intros rd c. exists []. by rewrite app_nil_r. Qed.

(** Nothing is read, and a connection that takes what is written does so
    still. *)
Definition speaks (c c' : conn) : Prop := cnReader c' = cnReader c /\ (cnWrites c = None -> cnWrites c' = None).
#[export] Instance speaks_preorder : PreOrder speaks.
Proof. split; [done|]. intros a b c [] []. split; [congruence|auto]. Qed.
Lemma speaks_accept_message {E} (be : Smtp.Backend E) ex ip set raw st :
  speaks (Smtp.xConn st) (Smtp.xConn (Smtp.accept_message be ex ip set raw st).2).
Proof.
  apply (grows_accept_message be ex ip speaks). intros ls c. unfold speaks, write_lines.
  by destruct (cnWrites c) as [[|n]|].
Qed.

(** ** What the receiving server answers *)

Section Receiving.
Context `{Queue.EnvelopeCodec} (lib : Daemon.Libraries) (po : Daemon.Policies) (bayes : option Bayes.Bayes) (qdir : path).
Context (ex : Smtp.Services Daemon.daemon) (ip : str).
Hypothesis Hclock : Smtp.clock ex = Daemon.now.
Hypothesis Horder : forall e, DaemonProps.still e (Smtp.range_order ex e).2.
(** The daemon and the settings that the session starts with. *)
Context (e0 : Daemon.daemon) (set0 : Smtp.Settings).
Hypothesis Hmode : Smtp.stMode set0 = Smtp.ModeInbound.

#[local] Notation be := (Daemon.backend lib po bayes qdir).
#[local] Notation state := (Smtp.state Daemon.daemon).
#[local] Notation still := DaemonProps.still.
#[local] Notation since := (SmtpProps.inner (still e0)).
#[local] Existing Instances SmtpProps.inner_preorder SmtpProps.same_conf_preorder.

Lemma since_env {A} (f : Daemon.daemon -> A * Daemon.daemon) : (forall e, still e (f e).2) -> keeps since (Smtp.on_env f).
Proof. intros Hf. apply SmtpProps.inner_env. intros e He. by transitivity e. Qed.
Lemma since_clock : keeps since (Smtp.on_env (Smtp.clock ex)).
Proof. apply since_env. rewrite Hclock. apply DaemonProps.now_still. Qed.
Lemma since_in_limit f k : keeps since (Smtp.in_limit ex f k).
Proof.
  unfold Smtp.in_limit. apply keeps_bind; [exact _|apply since_clock|]. intros t. apply SmtpProps.inner_set.
  intros s. destruct (f (Smtp.stLimits s) k t) as [ok l]. by repeat split.
Qed.
Lemma since_governor f : keeps since (Smtp.governor ex f).
Proof.
  unfold Smtp.governor. apply keeps_bind; [exact _|apply since_clock|]. intros t.
  apply keeps_bind; [exact _|by apply since_env|]. intros o. apply SmtpProps.inner_set.
  intros s. destruct (f o t (Smtp.stGovernor s)) as [denied g]. by repeat split.
Qed.
Lemma since_address addr : keeps since (Smtp.rcpt_address be addr).
Proof.
  assert (keeps since (Smtp.on_env (Smtp.Postmaster be))) by by apply since_env.
  unfold Smtp.rcpt_address. keeps_auto.
Qed.
Lemma since_Route addr : keeps since (Smtp.on_env (Smtp.Route be addr)).
Proof. apply since_env. intros e. cbn [Daemon.backend Smtp.Route]. unfold Daemon.Route. pose proof (DaemonProps.now_still e). by destruct (Daemon.now e). Qed.

(** Between the commands the daemon and the settings are still those of the
    start, and the connection takes what is written. *)
Record steady (st : state) : Prop := {
  sd_writes : cnWrites (Smtp.xConn st) = None;
  sd_conf : SmtpProps.same_conf set0 (Smtp.xSet st);
  sd_still : still e0 (Smtp.xEnv st) }.
(** The server has answered. *)
Record replied (st : state) (lines : list str) (st' : state) : Prop := {
  rp_out : cnOut (Smtp.xConn st') = cnOut (Smtp.xConn st) ++ lines;
  rp_reader : cnReader (Smtp.xConn st') = cnReader (Smtp.xConn st);
  rp_steady : steady st' }.

Lemma steady_mode st : steady st -> Smtp.stMode (Smtp.xSet st) = Smtp.ModeInbound.
Proof. intros [_ (_ & _ & _ & Hm & _) _]. congruence. Qed.
Lemma steady_since st st1 : steady st -> since st st1 -> steady st1.
Proof. intros [H1 H2 H3] (Hs & Hc & Hset & Hi). split; [by rewrite Hc|by etransitivity|auto]. Qed.

(** After steps that leave the session alone, an answer. *)
Lemma answers_after {A} st st1 line (a : A) : steady st -> since st st1 ->
  exists st', Smtp.answer line a st1 = (a, st') /\ replied st [line] st' /\ Smtp.xSess st' = Smtp.xSess st.
Proof.
  intros Hst Hsi. destruct (steady_since st st1 Hst Hsi) as [H1 H2 H3]. destruct Hsi as (Hs & Hc & _).
  rewrite (Probe.answer_ok line a st1 H1). eexists. split; [reflexivity|]. split; [|done]. by split; cbn; rewrite ?Hc.
Qed.
(** An answer after the session has changed. *)
Lemma answers_then {A} st st1 f line (a : A) : steady st -> since st st1 ->
  exists st', (_ ← Smtp.set_sess f; Smtp.answer line a) st1 = (a, st') /\ replied st [line] st' /\
    Smtp.xSess st' = f (Smtp.xSess st).
Proof.
  intros Hst Hsi. destruct (steady_since st st1 Hst Hsi) as [H1 H2 H3]. destruct Hsi as (Hs & Hc & _).
  set (st2 := Smtp.mkState (f (Smtp.xSess st1)) (Smtp.xConn st1) (Smtp.xSet st1) (Smtp.xEnv st1)).
  rewrite (Probe.then_step (Smtp.set_sess f) _ st1 tt st2 eq_refl), (Probe.answer_ok line a st2 H1).
  eexists. split; [reflexivity|]. split; [by split; cbn; rewrite ?Hc|]. cbn. by rewrite Hs.
Qed.

(** The outcome of a handler that answers one line: a refusal of what the
    client [want]s, or [line] with [P] of the session. *)
Definition outcome (want : Z) (line : str) (P : Smtp.session -> Prop) (st : state) (st' : state) : Prop :=
  exists l, replied st [l] st' /\ (refuses want l \/ l = line /\ P (Smtp.xSess st')).

Lemma outcome_refused {A} want line P st st1 l (a : A) : steady st -> since st st1 -> refuses want l ->
  exists st', Smtp.answer l a st1 = (a, st') /\ outcome want line P st st'.
Proof. intros Hst Hsi Hl. destruct (answers_after st st1 l a Hst Hsi) as (st' & E & Hr & _). exists st'. split; [done|]. exists l. auto. Qed.
Lemma outcome_accepted {A} want line (P : Smtp.session -> Prop) st st1 f (a : A) : steady st -> since st st1 -> P (f (Smtp.xSess st)) ->
  exists st', (_ ← Smtp.set_sess f; Smtp.answer line a) st1 = (a, st') /\ outcome want line P st st'.
Proof.
  intros Hst Hsi Hp. destruct (answers_then st st1 f line a Hst Hsi) as (st' & E & Hr & Hs). exists st'. split; [done|].
  exists line. split; [done|]. right. by rewrite Hs.
Qed.

Lemma MAIL_outcome arg st : steady st -> exists st', Smtp.cmdMail arg st = (tt, st') /\
  outcome 250 #"250 2.1.0 OK" (fun s => exists addr params, Smtp.parsePath arg #"FROM:" = Ok (addr, params) /\
    Smtp.sFrom s = to_lower addr /\ Smtp.sFromSet s = true /\ Smtp.sRcpts s = Smtp.sRcpts (Smtp.xSess st)) st st'.
Proof.
  intros Hst. assert (since st st) as Hsi by reflexivity. unfold Smtp.cmdMail.
  rewrite (Probe.then_step Smtp.sess _ st _ st eq_refl).
  destruct (Smtp.sHelo _ =s []); [apply outcome_refused; [done|done|refused #"503 " 503]|].
  destruct (Smtp.sFromSet _); [apply outcome_refused; [done|done|refused #"503 " 503]|].
  rewrite (Probe.then_step Smtp.settings _ st _ st eq_refl), (steady_mode st Hst). cbn [Smtp.is_submission andb].
  destruct (Smtp.parsePath arg #"FROM:") as [[addr params]|e]; [|apply outcome_refused; [done|done|refused #"501 " 501]].
  destruct (Smtp.sizeParam params) as [size|]; [|apply outcome_refused; [done|done|refused #"501 " 501]].
  destruct (_ <? size); [apply outcome_refused; [done|done|refused #"552 " 552]|].
  apply outcome_accepted; [done|done|]. by exists addr, params.
Qed.

(** The per-listener check of RCPT lets only local recipients through. *)
Lemma rcpt_refused_outcome local st : steady st ->
  exists o st1, Smtp.rcpt_refused ex ip local st = (o, st1) /\ since st st1 /\
    match o with None => local = true | Some line => refuses 25 line end.
Proof.
  intros Hst. unfold Smtp.rcpt_refused. rewrite (Probe.then_step Smtp.settings _ st _ st eq_refl), (Probe.then_step Smtp.sess _ st _ st eq_refl), (steady_mode st Hst).
  cbn [Smtp.is_submission negb]. destruct local; cbn [negb].
  - pose proof (since_in_limit RateLimit.InRcptAllowed ip st) as Hl. destruct (Smtp.in_limit ex RateLimit.InRcptAllowed ip st) as [ok st1] eqn:E.
    rewrite (Probe.then_step _ _ _ _ _ E). exists (if ok then None else Some #"452 4.4.5 too many recipients, slow down"), st1.
    split; [done|]. split; [done|]. destruct ok; [done|]. refused #"452 " 452.
  - pose proof (SmtpProps.inner_count (still e0) Stats.IncRelayDeny st) as Hl. destruct (Smtp.count Stats.IncRelayDeny st) as [u st1] eqn:E.
    rewrite (Probe.then_step _ _ _ _ _ E). exists (Some #"554 5.7.1 relay access denied"), st1.
    split; [done|]. split; [done|]. refused #"554 " 554.
Qed.

(** What RCPT adds to a session. *)
Definition recipient_of (arg : str) (s s' : Smtp.session) : Prop :=
  exists a params addr domain plan e, Smtp.parsePath arg #"TO:" = Ok (a, params) /\
    (to_lower (trim_space a) <> #"postmaster" -> addr = to_lower (trim_space a)) /\
    still e0 e /\ (Daemon.Route lib addr e).1 = Some plan /\
    Smtp.sFrom s' = Smtp.sFrom s /\ Smtp.sRcpts s' = Smtp.sRcpts s ++ [Smtp.mkRcpt addr false domain plan].

Lemma rcpt_address_folds a st addr st1 : Smtp.rcpt_address be a st = (addr, st1) ->
  to_lower (trim_space a) <> #"postmaster" -> addr = to_lower (trim_space a).
Proof. unfold Smtp.rcpt_address. intros E Hn. apply str_eqb_neq in Hn. rewrite Hn in E. by injection E. Qed.
Lemma on_Route addr st : exists e, (Smtp.on_env (Smtp.Route be addr) st).1 = (Daemon.Route lib addr e).1 /\ Smtp.xEnv st = e.
Proof. exists (Smtp.xEnv st). unfold Smtp.on_env. cbn [Daemon.backend Smtp.Route]. by destruct (Daemon.Route lib addr (Smtp.xEnv st)). Qed.

Lemma RCPT_outcome arg st : steady st -> exists st', Smtp.cmdRcpt be ex ip arg st = (tt, st') /\
  outcome 25 #"250 2.1.5 OK" (recipient_of arg (Smtp.xSess st)) st st'.
Proof.
  intros Hst. assert (since st st) as Hsi by reflexivity. unfold Smtp.cmdRcpt.
  rewrite (Probe.then_step Smtp.sess _ st _ st eq_refl).
  destruct (negb _); [apply outcome_refused; [done|done|refused #"503 " 503]|].
  rewrite (Probe.then_step Smtp.settings _ st _ st eq_refl).
  destruct (_ <=? _); [apply outcome_refused; [done|done|refused #"452 " 452]|].
  destruct (Smtp.parsePath arg #"TO:") as [[a params]|e] eqn:Ep; [|apply outcome_refused; [done|done|refused #"501 " 501]].
  pose proof (since_address a st) as H1. destruct (Smtp.rcpt_address be a st) as [addr st1] eqn:E1. cbn [snd] in H1.
  rewrite (Probe.then_step _ _ _ _ _ E1). destruct (Smtp.splitAddr addr) as [[? domain] ok].
  destruct (negb ok); [apply outcome_refused; [done|done|refused #"501 " 501]|].
  set (local := Config.HasDomain (Daemon.dmConfig (Smtp.xEnv st1)) domain).
  rewrite (Probe.then_step (Smtp.on_env (Smtp.IsLocalDomain be domain)) _ st1 local st1) by by destruct st1.
  destruct (rcpt_refused_outcome local st1 (steady_since _ _ Hst H1)) as (o & st2 & E2 & H2 & Ho). rewrite (Probe.then_step _ _ _ _ _ E2).
  assert (since st st2) as Hsi2 by by etransitivity. destruct o as [line|]; [by apply outcome_refused|]. rewrite Ho in *. clear Ho.
  match goal with |- context [Smtp.governor ex ?f] => pose proof (since_governor f st2) as H3; destruct (Smtp.governor ex f st2) as [allowed st3] eqn:E3 end.
  rewrite (Probe.then_step _ _ _ _ _ E3). assert (since st st3) as Hsi3 by by etransitivity.
  destruct (negb allowed); [apply outcome_refused; [done|done|refused #"452 " 452]|]. cbn [negb].
  pose proof (since_Route addr st3) as H4. destruct (on_Route addr st3) as (e & Er & He).
  destruct (Smtp.on_env (Smtp.Route be addr) st3) as [plan st4] eqn:E4. cbn [fst snd] in *.
  rewrite (Probe.then_step _ _ _ _ _ E4). assert (since st st4) as Hsi4 by by etransitivity.
  destruct plan as [plan|]; [|apply outcome_refused; [done|done|refused #"550 " 550]].
  apply outcome_accepted; [done|done|]. exists a, params, addr, domain, plan, e. split; [done|].
  split; [by apply (rcpt_address_folds _ _ _ _ E1)|]. split; [|by split].
  rewrite <- He. apply (steady_since st); done.
Qed.

(** The limits on a message, at the inbound listener. *)
Lemma data_refused_outcome st : steady st ->
  exists o st1, Smtp.data_refused be ex ip (Smtp.xSet st) st = (o, st1) /\ since st st1 /\
    match o with None => True | Some (line, quit) => refuses 354 line end.
Proof.
  intros Hst. unfold Smtp.data_refused. rewrite (Probe.then_step Smtp.sess _ st _ st eq_refl), (steady_mode st Hst).
  cbn [Smtp.is_submission negb].
  pose proof (since_in_limit RateLimit.InMsgAllowed ip st) as H1. destruct (Smtp.in_limit ex RateLimit.InMsgAllowed ip st) as [ok st1] eqn:E1.
  rewrite (Probe.then_step _ _ st (if ok then None else Some (#"421 4.7.0 too many messages, closing connection", true)) st1)
    by by rewrite (Probe.then_step _ _ _ _ _ E1).
  destruct ok; cbn iota.
  2: { exists (Some (#"421 4.7.0 too many messages, closing connection", true)), st1. split; [done|]. split; [done|]. refused #"421 " 421. }
  match goal with |- context [Smtp.governor ex ?f] => pose proof (since_governor f st1) as H2; destruct (Smtp.governor ex f st1) as [ok st2] eqn:E2 end.
  rewrite (Probe.then_step _ _ _ _ _ E2). eexists _, st2. split; [reflexivity|]. split; [by etransitivity|]. destruct ok; [done|]. refused #"452 " 452.
Qed.

Context (D : list str) (l : Routing.Local).
Hypothesis Hhealthy : DaemonProps.healthy D e0.
Hypothesis Hserved : DaemonProps.served ex D l e0.

(** The body arrives, is judged and delivered, and the client told. *)
Definition delivered_as (from body : str) (st' : state) : Prop :=
  DaemonProps.healthy D (Smtp.xEnv st') /\
  exists head, DaemonProps.stored (Routing.lMailbox l) from (head ++ body) e0 (Smtp.xEnv st').

Lemma accept_outcome set raw st r : Smtp.stMode set = Smtp.ModeInbound -> steady st -> Smtp.sRcpts (Smtp.xSess st) = [r] -> DaemonProps.one_local r l ->
  exists line st', Smtp.accept_message be ex ip set raw st = (false, st') /\
    cnOut (Smtp.xConn st') = cnOut (Smtp.xConn st) ++ [line] /\
    cnReader (Smtp.xConn st') = cnReader (Smtp.xConn st) /\ cnWrites (Smtp.xConn st') = None /\
    (refuses 250 line \/ line = #"250 2.0.0 OK message accepted for delivery" /\
      delivered_as (Smtp.sFrom (Smtp.xSess st)) (Smtp.ensureCRLF raw) st').
Proof.
  intros Hm Hst Hr Hone. destruct Hst as [H1 H2 H3].
  destruct (DaemonProps.accept_stores lib po bayes qdir ex ip D set raw st r l Hm H1 Hclock
    (DaemonProps.healthy_still _ _ _ H3 Hhealthy) (DaemonProps.served_still _ _ _ _ _ H3 Hserved) Hr Hone)
    as (line & (Hq & _ & Ho) & Hh & Hcase).
  destruct (speaks_accept_message be ex ip set raw st) as [Hrd Hwr].
  destruct (Smtp.accept_message be ex ip set raw st) as [q st']. cbn [fst snd] in *. subst q.
  exists line, st'. split_and!; [done|done|done|by apply Hwr|].
  destruct Hcase as [[-> [head Hs]]|[Hl _]].
  - right. split; [done|]. split; [done|]. exists head. unfold DaemonProps.stored in *. by destruct H3 as ((<- & _) & _).
  - left. destruct Hl as [[reason ->]|[-> | ->]]; [refused #"550 " 550|refused #"452 " 452|refused #"451 " 451].
Qed.

Definition go_ahead : str := #"354 end data with <CRLF>.<CRLF>".

(** The body read, in a steady state. *)
Lemma body_outcome ls rest st : Forall plain_line ls -> steady st -> Probe.at_rest (dot_stuff ls ++ rest) st ->
  exists raw st', Smtp.read_body st = (Some raw, st') /\ Smtp.ensureCRLF raw = on_wire ls /\ steady st' /\ Probe.at_rest rest st' /\
    Smtp.xSess st' = Smtp.xSess st /\ Smtp.xSet st' = Smtp.xSet st /\ cnOut (Smtp.xConn st') = cnOut (Smtp.xConn st).
Proof.
  intros Hls [H1 H2 H3] (Hs & Hb & _). unfold Smtp.read_body, Smtp.on_conn.
  pose proof (ReadDot_spec Smtp.bufSize (cnReader (Smtp.xConn st)) SmtpProps.bufSize_pos Hb) as HR.
  rewrite Hs, dot_bytes_stuff in HR by done. destruct (ReadDot Smtp.bufSize _) as [[body rd]|]; [|done].
  destruct HR as [[= <- Hr] Hb']. eexists _, _. split; [reflexivity|]. split; [by apply SmtpFlow.ensureCRLF_lines|].
  split; [by split|]. by split.
Qed.

Lemma DATA_outcome ls rest st r : Forall plain_line ls -> steady st -> Probe.at_rest (dot_stuff ls ++ rest) st ->
  Smtp.sRcpts (Smtp.xSess st) = [r] -> DaemonProps.one_local r l ->
  exists quit st', Smtp.cmdData be ex ip st = (quit, st') /\
    ((exists line, replied st [line] st' /\ refuses 354 line) \/
     (quit = false /\ Probe.at_rest rest st' /\ exists line, cnOut (Smtp.xConn st') = cnOut (Smtp.xConn st) ++ [go_ahead; line] /\
       (refuses 250 line \/ line = #"250 2.0.0 OK message accepted for delivery" /\
          delivered_as (Smtp.sFrom (Smtp.xSess st)) (on_wire ls) st'))).
Proof.
  intros Hls Hst Hrest Hr Hone. unfold Smtp.cmdData. rewrite (Probe.then_step Smtp.sess _ st _ st eq_refl), Hr. cbn [length Nat.eqb].
  rewrite (Probe.then_step Smtp.settings _ st _ st eq_refl).
  destruct (data_refused_outcome st Hst) as (o & st1 & E1 & H1 & Ho). rewrite (Probe.then_step _ _ _ _ _ E1).
  destruct o as [[line quit]|].
  { destruct (answers_after st st1 line quit Hst H1) as (st' & E & Hrep & _). exists quit, st'. split; [done|]. left. by exists line. }
  destruct (answers_after st st1 go_ahead true Hst H1) as (st2 & E2 & [Ho2 Hr2 Hst2] & Hs2).
  rewrite (Probe.then_step (Smtp.reply go_ahead) _ st1 true st2).
  2: { unfold Smtp.answer, mbind, SM_bind in E2. destruct (steady_since _ _ Hst H1) as [Hw _ _].
       unfold Smtp.reply, Smtp.on_conn, write_lines in *. rewrite Hw in *. cbn in *. by injection E2 as ->. }
  cbn [negb]. assert (Probe.at_rest (dot_stuff ls ++ rest) st2) as Hrest2.
  { destruct Hrest as (? & ? & _). unfold Probe.at_rest. rewrite Hr2. split_and!; [done|done|apply Hst2]. }
  destruct (body_outcome ls rest st2 Hls Hst2 Hrest2) as (raw & st3 & E3 & Hraw & Hst3 & Hrest3 & Hs3 & Hset3 & Ho3).
  rewrite (Probe.then_step _ _ _ _ _ E3).
  exists false. destruct (_ <? _).
  - destruct (answers_then st3 st3
      (fun s => Smtp.mkSession (Smtp.sHelo s) (Smtp.sTls s) (Smtp.sAuthed s) [] false []) (#"552 5.3.4 message exceeds maximum size " ++ dec (Smtp.stMaxSize (Smtp.xSet st))) false Hst3
      ltac:(reflexivity)) as (st4 & E4 & [Ho4 Hr4 Hst4] & _).
    exists st4. split; [exact E4|]. right. split; [done|]. split.
    { destruct Hrest3 as (? & ? & _). unfold Probe.at_rest. rewrite Hr4. split_and!; [done|done|apply Hst4]. }
    eexists. split; [rewrite Ho4, Ho3, Ho2; by rewrite <- app_assoc|]. left. refused #"552 " 552.
  - destruct (accept_outcome (Smtp.xSet st) raw st3 r (steady_mode st Hst) Hst3) as (line & st4 & E4 & Ho4 & Hr4 & Hw4 & Hcase); [congruence|done|].
    exists st4. split; [exact E4|]. right. split; [done|]. split.
    { destruct Hrest3 as (? & ? & _). unfold Probe.at_rest. by rewrite Hr4. }
    exists line. split; [rewrite Ho4, Ho3, Ho2; by rewrite <- app_assoc|]. by rewrite Hs3, Hs2, Hraw in Hcase.
Qed.

(** ** Turns of the server's loop *)

Lemma replied_rest rest st lines st' : Probe.at_rest rest st -> replied st lines st' -> Probe.at_rest rest st'.
Proof. intros (? & ? & _) [_ Hr Hst]. unfold Probe.at_rest. rewrite Hr. split_and!; [done|done|apply Hst]. Qed.

(** A line is dispatched, or refused as too long. *)
Lemma turn_of text c arg b rest st : plain_line text -> text <> [] -> cut SP text = (c, arg, b) -> steady st ->
  Probe.at_rest (text ++ CRLF ++ rest) st ->
  exists st1, steady st1 /\ Probe.at_rest rest st1 /\ Smtp.xSess st1 = Smtp.xSess st /\ cnOut (Smtp.xConn st1) = cnOut (Smtp.xConn st) /\
    (Smtp.turn be ex ip st = Smtp.dispatch be ex ip c arg st1 \/
     exists st', Smtp.turn be ex ip st = (false, st') /\ replied st1 [ #"500 5.5.2 line too long"] st').
Proof.
  intros Hp Hne Hcut [H1 H2 H3] (Hs & Hb & Hw). destruct (SmtpFlow.readLine_spec text rest st Hp Hb Hs) as (rd & Hr & Hbr & E1).
  set (st1 := Smtp.mkState _ _ _ _) in *. assert (steady st1) as Hst1 by by split.
  exists st1. split_and!; [done|by split_and!|done|done|]. unfold Smtp.turn. destruct (Nat.leb _ _).
  - left. rewrite (Probe.then_step _ _ _ _ _ E1). destruct text; [done|]. by rewrite Hcut.
  - right. destruct (answers_after st1 st1 #"500 5.5.2 line too long" (Some ([] : str)) Hst1 ltac:(reflexivity)) as (st' & E & Hrep & _).
    exists st'. split; [|done]. rewrite E in E1. by rewrite (Probe.then_step _ _ _ _ _ E1).
Qed.

(** What a turn that answers one line comes to. *)
Definition turned (want : Z) (line : str) (P : Smtp.session -> Prop) (rest : str) (st st' : state) : Prop :=
  steady st' /\ Probe.at_rest rest st' /\ exists l, cnOut (Smtp.xConn st') = cnOut (Smtp.xConn st) ++ [l] /\
    (refuses want l \/ l = line /\ P (Smtp.xSess st')).

Lemma outcome_turn want line P text c arg b rest st :
  plain_line text -> text <> [] -> cut SP text = (c, arg, b) -> steady st -> Probe.at_rest (text ++ CRLF ++ rest) st ->
  unexpected want 500 = true ->
  (forall st1, steady st1 -> Smtp.xSess st1 = Smtp.xSess st ->
     exists st', Smtp.dispatch be ex ip c arg st1 = (false, st') /\ outcome want line P st1 st') ->
  exists st', Smtp.turn be ex ip st = (false, st') /\ turned want line P rest st st'.
Proof.
  intros Hp Hne Hcut Hst Hr Hw Hd. destruct (turn_of text c arg b rest st Hp Hne Hcut Hst Hr) as (st1 & Hst1 & Hr1 & Hs1 & Ho1 & [E|(st' & E & Hrep)]).
  - destruct (Hd st1 Hst1 Hs1) as (st' & E' & l' & Hrep & Hl). exists st'. split; [by rewrite E|].
    split; [apply Hrep|]. split; [by eapply replied_rest|]. exists l'. split; [|done]. by rewrite (rp_out _ _ _ Hrep), Ho1.
  - exists st'. split; [done|]. split; [apply Hrep|]. split; [by eapply replied_rest|].
    exists #"500 5.5.2 line too long". split; [by rewrite (rp_out _ _ _ Hrep), Ho1|]. left.
    apply (refuse _ _ #"500 " 500); [reflexivity|reflexivity|reflexivity|reflexivity|reflexivity|by vm_compute|done].
Qed.

(** ** Both sides in step *)

(** The client at the end, and the server's session. *)
Context (c' : client) (result : bool * state).

(** The server is between two commands, the client between two replies:
    what the client will still send is what the server has to read, and the
    other way round. *)
Record coupled (fuel : nat) (c : client) (st : state) : Prop := {
  cp_run : Smtp.run_loop be ex ip fuel st = result;
  cp_hears : exists ls, cnOut (Smtp.xConn result.2) = cnOut (Smtp.xConn st) ++ ls /\ reads (on_wire ls) c;
  cp_says : exists rest, clSent c' = clSent c ++ rest /\ Probe.at_rest rest st }.

Lemma hears_next fuel quit st st1 ls ls1 c :
  Smtp.run_loop be ex ip (S fuel) st = result -> Smtp.turn be ex ip st = (quit, st1) ->
  cnOut (Smtp.xConn result.2) = cnOut (Smtp.xConn st) ++ ls -> cnOut (Smtp.xConn st1) = cnOut (Smtp.xConn st) ++ ls1 ->
  reads (on_wire ls) c ->
  (if quit : bool then (true, st1) else Smtp.run_loop be ex ip fuel st1) = result /\
  exists ls', cnOut (Smtp.xConn result.2) = cnOut (Smtp.xConn st1) ++ ls' /\ reads (on_wire (ls1 ++ ls')) c.
Proof.
  intros Hrun Ht Ho H1 Hr. rewrite (Probe.run_loop_step be ex ip fuel st _ _ Ht) in Hrun. split; [done|].
  assert (appends (Smtp.xConn st1) (Smtp.xConn result.2)) as [ls' Hls'].
  { rewrite <- Hrun. destruct quit; [by exists []; rewrite app_nil_r|apply appends_run_loop]. }
  exists ls'. split; [done|]. rewrite Hls', H1, <- app_assoc in Ho. apply app_inv_head in Ho. by subst ls.
Qed.

Lemma says_next c c1 text rest : clSent c' = clSent c ++ rest -> clSent c1 = clSent c ++ text -> sent_on c1 c' ->
  exists more, rest = text ++ more /\ clSent c' = clSent c1 ++ more.
Proof.
  intros H1 H2 [more H3]. exists more. split; [|done]. rewrite H3, H2, <- app_assoc in H1. by apply app_inv_head in H1.
Qed.

(** A reply that the client takes for a success is not a refusal. *)
Lemma reply_taken want line P said rest c m c1 :
  ReadResponse want c = (Ok m, c1) -> reads (said ++ CRLF ++ rest) c -> good want line -> refuses want said \/ said = line /\ P ->
  P /\ reads rest c1.
Proof.
  intros E Hr Hg [Hl|[-> HP]].
  - destruct (reply_refused want said rest c Hl Hr) as [e He]. by rewrite E in He.
  - destruct (reply_good want line rest c Hg Hr) as (m' & _ & H'). rewrite E in H'. done.
Qed.

Lemma exchange fuel c st want text line P c1 m :
  coupled (S fuel) c st -> cmd want text c = (Ok m, c1) -> sent_on c1 c' -> good want line ->
  (forall rest, Probe.at_rest (text ++ CRLF ++ rest) st ->
     exists st', Smtp.turn be ex ip st = (false, st') /\ turned want line P rest st st') ->
  exists st', coupled fuel c1 st' /\ steady st' /\ P (Smtp.xSess st') /\ clExt c1 = clExt c.
Proof.
  intros [Hrun (ls & Ho & Hr) (rest & Hs & Hrest)] Hcmd Hon Hg Hturn.
  destruct (cmd_sent want text c) as [Hs1 He1]. rewrite Hcmd in Hs1, He1. cbn [snd] in Hs1, He1.
  destruct (says_next c c1 (text ++ CRLF) rest Hs Hs1 Hon) as (more & -> & Hmore). rewrite <- app_assoc in Hrest.
  destruct (Hturn more Hrest) as (st' & Ht & Hst' & Hrest' & l' & Ho' & Hcase).
  destruct (hears_next fuel false st st' ls [l'] c Hrun Ht Ho Ho' Hr) as (Hrun' & ls' & Hls' & Hr').
  change ([l'] ++ ls') with (l' :: ls') in Hr'. rewrite on_wire_cons in Hr'.
  destruct (reply_taken want line _ l' _ (mkClient (clSent c ++ text ++ CRLF) (clReader c) (clExt c)) m c1 Hcmd Hr' Hg Hcase) as [HP Hr1].
  exists st'. split; [|done]. split; [done|by exists ls'|by exists more].
Qed.

(** ** The steps of the transaction *)

Lemma MAIL_step fuel c st from c1 : coupled (S fuel) c st -> steady st -> Mail from c = (None, c1) -> sent_on c1 c' -> bare from ->
  exists st', coupled fuel c1 st' /\ steady st' /\
    Smtp.sFrom (Smtp.xSess st') = to_lower from /\ Smtp.sRcpts (Smtp.xSess st') = Smtp.sRcpts (Smtp.xSess st).
Proof.
  intros Hc Hst Hm Hon Hb. destruct (Mail_well from c c1 Hm) as (Hp & params & m & Hok & E).
  destruct (exchange fuel c st 250 _ #"250 2.1.0 OK"
    (fun s => Smtp.sFrom s = to_lower from /\ Smtp.sRcpts s = Smtp.sRcpts (Smtp.xSess st)) c1 m Hc E Hon) as (st' & H1 & H2 & H3 & _).
  - accepted #"250 " 250. by vm_compute; set_solver.
  - intros rest Hrest. apply (outcome_turn _ _ _ (#"MAIL FROM:<" ++ from ++ #">" ++ params) #"MAIL" (#"FROM:" ++ #"<" ++ from ++ #">" ++ params) true); [|done| |done|done|done|].
    + change #"MAIL FROM:<" with (#"MAIL FROM:" ++ #"<"). plain_auto. apply Hok.
    + change (cut SP (#"MAIL" ++ SP :: (#"FROM:" ++ #"<" ++ from ++ #">" ++ params)) = (#"MAIL", #"FROM:" ++ #"<" ++ from ++ #">" ++ params, true)).
      apply cut_app. by vm_compute; set_solver.
    + intros st1 Hst1 Hs1. destruct (MAIL_outcome (#"FROM:" ++ #"<" ++ from ++ #">" ++ params) st1 Hst1) as (st2 & E2 & l' & Hrep & Hl').
      exists st2. split; [change (Smtp.going_on (Smtp.cmdMail (#"FROM:" ++ #"<" ++ from ++ #">" ++ params)) st1 = (false, st2)); unfold Smtp.going_on; by rewrite (Probe.then_step _ _ _ _ _ E2)|].
      exists l'. split; [done|]. destruct Hl' as [Hl'|(-> & addr & ps & Hpp & Hf & _ & Hrs)]; [by left|]. right. split; [done|].
      rewrite (parsePath_bare _ from params Hb Hok) in Hpp. injection Hpp as <- _. by rewrite Hf, Hrs, Hs1.
  - exists st'. by destruct H3.
Qed.

Lemma RCPT_step fuel c st to c1 : coupled (S fuel) c st -> steady st -> Rcpt to c = (None, c1) -> sent_on c1 c' -> bare to ->
  exists st', coupled fuel c1 st' /\ steady st' /\ recipient_of (#"TO:" ++ #"<" ++ to ++ #">" ++ []) (Smtp.xSess st) (Smtp.xSess st').
Proof.
  intros Hc Hst Hm Hon Hb. destruct (Rcpt_well to c c1 Hm) as (Hp & m & E).
  destruct (exchange fuel c st 25 _ #"250 2.1.5 OK" (recipient_of (#"TO:" ++ #"<" ++ to ++ #">" ++ []) (Smtp.xSess st)) c1 m Hc E Hon)
    as (st' & H1 & H2 & H3 & _).
  - accepted #"250 " 250. by vm_compute; set_solver.
  - intros rest Hrest. apply (outcome_turn _ _ _ (#"RCPT TO:<" ++ to ++ #">") #"RCPT" (#"TO:" ++ #"<" ++ to ++ #">" ++ []) true); [|done| |done|done|done|].
    + change #"RCPT TO:<" with (#"RCPT TO:" ++ #"<"). plain_auto.
    + rewrite app_nil_r.
      change (cut SP (#"RCPT" ++ SP :: (#"TO:" ++ #"<" ++ to ++ #">")) = (#"RCPT", #"TO:" ++ #"<" ++ to ++ #">", true)).
      apply cut_app. by vm_compute; set_solver.
    + intros st1 Hst1 Hs1. destruct (RCPT_outcome (#"TO:" ++ #"<" ++ to ++ #">" ++ []) st1 Hst1) as (st2 & E2 & Hout).
      exists st2. split; [|by rewrite <- Hs1].
      change (Smtp.going_on (Smtp.cmdRcpt be ex ip (#"TO:" ++ #"<" ++ to ++ #">" ++ [])) st1 = (false, st2)). unfold Smtp.going_on.
      by rewrite (Probe.then_step _ _ _ _ _ E2).
  - by exists st'.
Qed.

Lemma WriteClose_well data c c1 : WriteClose data c = (None, c1) ->
  exists m, ReadResponse 250 (mkClient (clSent c ++ dot_encode data) (clReader c) (clExt c)) = (Ok m, c1).
Proof.
  unfold WriteClose, mbind at 1, SM_bind at 1, write. unfold mbind, SM_bind.
  destruct (ReadResponse 250 _) as [res c2]. unfold mret, SM_ret. intros [= Hr ->]. apply failure_None in Hr as [m ->]. by exists m.
Qed.

(** A call that worked was not answered by a refusal. *)
Lemma not_refused fuel quit c st st' out want text line c1 m :
  Smtp.run_loop be ex ip (S fuel) st = result -> cnOut (Smtp.xConn result.2) = cnOut (Smtp.xConn st) ++ out -> reads (on_wire out) c ->
  cmd want text c = (Ok m, c1) -> Smtp.turn be ex ip st = (quit, st') -> cnOut (Smtp.xConn st') = cnOut (Smtp.xConn st) ++ [line] ->
  refuses want line -> False.
Proof.
  intros Hrun Ho Hr E Ht Ho' Hl. destruct (hears_next fuel quit st st' out [line] c Hrun Ht Ho Ho' Hr) as (_ & ls' & _ & Hr').
  cbn [app] in Hr'. rewrite on_wire_cons in Hr'.
  destruct (reply_refused want line _ (mkClient (clSent c ++ text ++ CRLF) (clReader c) (clExt c)) Hl Hr') as [e He].
  change (cmd want text c) with (ReadResponse want (mkClient (clSent c ++ text ++ CRLF) (clReader c) (clExt c))) in E.
  by rewrite E in He.
Qed.

Lemma DATA_step fuel c st ls r c1 c2 : coupled (S fuel) c st -> steady st -> Smtp.sRcpts (Smtp.xSess st) = [r] -> DaemonProps.one_local r l ->
  Forall plain_line ls -> ls <> [] -> Data c = (None, c1) -> WriteClose (on_wire ls) c1 = (None, c2) -> sent_on c2 c' ->
  exists st', coupled fuel c2 st' /\ delivered_as (Smtp.sFrom (Smtp.xSess st)) (on_wire ls) st'.
Proof.
  intros [Hrun (out & Ho & Hr) (rest & Hs & Hrest)] Hst Hrs Hone Hls Hne HD HW Hon. apply call_well in HD as [m E].
  destruct (cmd_sent 354 #"DATA" c) as [Hs1 He1]. rewrite E in Hs1, He1. cbn [snd] in Hs1, He1.
  destruct (WriteClose_well _ _ _ HW) as [m2 E2].
  assert (clSent c2 = (clSent c ++ #"DATA" ++ CRLF) ++ dot_stuff ls) as Hs2.
  { destruct (listens_ReadResponse 250 (mkClient (clSent c1 ++ dot_encode (on_wire ls)) (clReader c1) (clExt c1))) as [H2 _].
    rewrite E2 in H2. cbn [snd clSent] in H2. unfold on_wire in H2. by rewrite dot_encode_lines, Hs1 in H2. }
  rewrite <- app_assoc in Hs2. destruct (says_next c c2 _ rest Hs Hs2 Hon) as (more & -> & Hmore). rewrite <- !app_assoc in Hrest.
  destruct (turn_of #"DATA" #"DATA" [] false (dot_stuff ls ++ more) st ltac:(by apply plain_lit) ltac:(done) eq_refl Hst Hrest)
    as (st1 & Hst1 & Hrest1 & Hss1 & Ho1 & Hturn).
  assert (Smtp.turn be ex ip st = Smtp.cmdData be ex ip st1) as Hturn'.
  { destruct Hturn as [Ht|(st' & Ht & [Ho' _ _])]; [done|]. exfalso.
    apply (not_refused fuel false c st st' out 354 #"DATA" #"500 5.5.2 line too long" c1 m Hrun Ho Hr E Ht); [congruence|refused #"500 " 500]. }
  destruct (DATA_outcome ls more st1 r Hls Hst1 Hrest1 ltac:(congruence) Hone) as (quit & st' & Ec & Hcase). rewrite <- Hturn' in Ec.
  destruct Hcase as [(line & [Ho' _ _] & Hl)|(-> & Hrest' & line & Ho' & Hl)]; rewrite Ho1 in Ho'.
  - exfalso. by apply (not_refused fuel quit c st st' out 354 #"DATA" line c1 m Hrun Ho Hr E Ec).
  - destruct (hears_next fuel false st st' out _ c Hrun Ec Ho Ho' Hr) as (Hrun' & ls' & Hls' & Hr').
    cbn [app] in Hr'. rewrite !on_wire_cons in Hr'.
    destruct (reply_taken 354 go_ahead True go_ahead _ (mkClient (clSent c ++ #"DATA" ++ CRLF) (clReader c) (clExt c)) m c1 E Hr'
      ltac:(accepted #"354 " 354; vm_compute; set_solver) ltac:(by right)) as [_ Hr1].
    destruct (reply_taken 250 #"250 2.0.0 OK message accepted for delivery" _ line _
      (mkClient (clSent c1 ++ dot_encode (on_wire ls)) (clReader c1) (clExt c1)) m2 c2 E2 Hr1
      ltac:(accepted #"250 " 250; vm_compute; set_solver) Hl) as [HP Hr2].
    exists st'. split; [|by rewrite <- Hss1]. split; [done|by exists ls'|by exists more].
Qed.

Lemma QUIT_step fuel c st : coupled (S fuel) c st -> Quit c = (None, c') ->
  exists st', result = (true, st') /\ Smtp.xEnv st' = Smtp.xEnv st.
Proof.
  intros [Hrun _ (rest & Hs & Hrest)] HQ. apply call_well in HQ as [m E].
  destruct (cmd_sent 221 #"QUIT" c) as [Hs1 _]. rewrite E in Hs1. cbn [snd] in Hs1. rewrite Hs in Hs1.
  apply app_inv_head in Hs1. subst rest. rewrite <- (app_nil_r CRLF) in Hrest.
  destruct (Probe.turn_line be ex ip #"QUIT" [] st ltac:(by apply plain_lit) ltac:(done) ltac:(done) Hrest) as (rd & (_ & _ & Hw) & Ht).
  change (cut SP #"QUIT") with (#"QUIT", ([] : str), false) in Ht. cbv beta iota in Ht.
  set (st1 := Smtp.mkState _ _ _ _) in *. destruct (Probe.quit_answers be ex ip st1 Hw) as (Hq & He & _).
  destruct (Smtp.dispatch be ex ip #"QUIT" [] st1) as [q st']. cbn [fst snd] in *. subst q.
  rewrite (Probe.run_loop_step be ex ip fuel st _ _ Ht) in Hrun. by exists st'.
Qed.

(** The greeting of the session: the lines of the reply to EHLO. *)
Definition caps : list str :=
  [ #"250-" ++ Smtp.stHostname set0; #"250-PIPELINING"; #"250-SIZE " ++ dec (Smtp.stMaxSize set0); #"250-8BITMIME"].
Definition last_line : str := #"250 SMTPUTF8".

Hypothesis Htls : Smtp.stTLS set0 = false.
Hypothesis Hhost : plain_line (Smtp.stHostname set0).
Hypothesis Hsize : 0 <= Smtp.stMaxSize set0.

Lemma LF_dec z : 0 <= z -> LF ∉ dec z.
Proof. intros Hz. apply not_in_digits; [reflexivity|by apply dec_digits]. Qed.

Lemma caps_lines tls set : SmtpProps.same_conf set0 set -> Smtp.last_cap (Smtp.helo_caps be set tls) = caps ++ [last_line].
Proof.
  intros (Hh & Hs & _ & Hm & _ & Ht & _). unfold Smtp.helo_caps. rewrite Hh, Hs, Hm, Ht, Hmode, Htls. reflexivity.
Qed.

Lemma continues_250 q t : LF ∉ t -> q = #"250-" -> continues 250 (q ++ t).
Proof.
  intros Ht ->. split; [rewrite not_elem_of_app; split; [by vm_compute; set_solver|done]|]. by exists #"250-", t.
Qed.
Lemma caps_continue : Forall (continues 250) caps.
Proof.
  repeat apply Forall_cons_2; [| | | |by apply Forall_nil].
  - apply continues_250; [apply Hhost|done].
  - apply (continues_250 #"250-" #"PIPELINING"); [by vm_compute; set_solver|done].
  - change (#"250-SIZE " ++ dec (Smtp.stMaxSize set0)) with (#"250-" ++ (#"SIZE " ++ dec (Smtp.stMaxSize set0))).
    apply continues_250; [|done]. rewrite not_elem_of_app. split; [by vm_compute; set_solver|by apply LF_dec].
  - apply (continues_250 #"250-" #"8BITMIME"); [by vm_compute; set_solver|done].
Qed.

(** Its extensions as the client knows them. *)
Lemma caps_extensions : announces #"STARTTLS"
  (parse_ext (Smtp.stHostname set0 ++ tails (drop 1 caps ++ [last_line]))) = false.
Proof.
  assert (LF ∉ #"SIZE " ++ dec (Smtp.stMaxSize set0)) as Hd.
  { rewrite not_elem_of_app. split; [by vm_compute; set_solver|by apply LF_dec]. }
  unfold parse_ext, tails. cbn [caps last_line drop app map concat]. rewrite split_app by apply Hhost.
  rewrite (split_app LF #"PIPELINING") by (by vm_compute; set_solver).
  change (drop 4 (#"250-SIZE " ++ dec (Smtp.stMaxSize set0))) with (#"SIZE " ++ dec (Smtp.stMaxSize set0)).
  rewrite (split_app LF _ _ Hd), (split_app LF #"8BITMIME") by (by vm_compute; set_solver).
  rewrite app_nil_r. change (split LF (drop 4 #"250 SMTPUTF8")) with [ #"SMTPUTF8"]. cbn [drop map].
  change (#"SIZE " ++ dec (Smtp.stMaxSize set0)) with (#"SIZE" ++ SP :: dec (Smtp.stMaxSize set0)).
  rewrite (cut_app SP #"SIZE") by (by vm_compute; set_solver). reflexivity.
Qed.

Lemma EHLO_outcome name st : name <> [] -> steady st ->
  exists st', Smtp.dispatch be ex ip #"EHLO" name st = (false, st') /\ replied st (caps ++ [last_line]) st' /\
    Smtp.sRcpts (Smtp.xSess st') = [].
Proof.
  intros Hn [H1 H2 H3]. change (Smtp.dispatch be ex ip #"EHLO" name) with (Smtp.cmdHelo be name true).
  unfold Smtp.cmdHelo. rewrite (proj2 (str_eqb_neq _ _) Hn). cbn [negb].
  rewrite (Probe.then_step (Smtp.set_sess _) _ st _ _ eq_refl), (Probe.then_step Smtp.resetTransaction _ _ _ _ eq_refl),
    (Probe.then_step Smtp.settings _ _ _ _ eq_refl), (Probe.then_step Smtp.sess _ _ _ _ eq_refl).
  cbn [Smtp.xSet Smtp.xSess]. rewrite (caps_lines _ _ H2). unfold Smtp.on_conn, write_lines, mbind, SM_bind, mret, SM_ret.
  cbn [Smtp.xConn]. rewrite H1. eexists. split; [reflexivity|]. split; [|done]. split; [done|done|]. by split.
Qed.

Lemma EHLO_step fuel c st name c1 : coupled (S fuel) c st -> steady st -> Hello name c = (None, c1) -> sent_on c1 c' ->
  name <> [] -> Nat.leb (length name + 7) Smtp.maxLine = true ->
  exists st', coupled fuel c1 st' /\ steady st' /\ Smtp.sRcpts (Smtp.xSess st') = [] /\ announces #"STARTTLS" (clExt c1) = false.
Proof.
  intros [Hrun (out & Ho & Hr) (rest & Hs & Hrest)] Hst HH Hon Hne Hlen. destruct (Hello_well name c c1 HH) as (Hp & Hc1 & Hext).
  destruct (cmd_sent 250 (#"EHLO " ++ name) c) as [Hs1 _].
  destruct (says_next c _ _ rest Hs Hs1 ltac:(by etransitivity)) as (more & -> & Hmore). rewrite <- app_assoc in Hrest.
  destruct (Probe.turn_line be ex ip (#"EHLO " ++ name) more st ltac:(plain_auto) ltac:(done)
    ltac:(rewrite <- Hlen; f_equal; rewrite length_app; simpl; lia) Hrest) as (rd & Hrest1 & Ht).
  change (#"EHLO " ++ name) with (#"EHLO" ++ SP :: name) in Ht. rewrite (cut_app SP #"EHLO" name) in Ht by (by vm_compute; set_solver).
  cbv beta iota in Ht. set (st1 := Smtp.mkState _ _ _ _) in *.
  destruct (EHLO_outcome name st1 Hne ltac:(by destruct Hst; split)) as (st' & E & Hrep & Hrs). rewrite E in Ht.
  destruct (hears_next fuel false st st' out _ c Hrun Ht Ho (rp_out _ _ _ Hrep) Hr) as (Hrun' & ls' & Hls' & Hr').
  rewrite on_wire_app in Hr'.
  destruct (ReadResponse_long 250 250 (#"250-" ++ Smtp.stHostname set0) (drop 1 caps) last_line (on_wire ls')
    (mkClient (clSent c ++ (#"EHLO " ++ name) ++ CRLF) (clReader c) (clExt c))) as (rd' & E' & Hrd');
    [apply caps_continue|by vm_compute; set_solver|by exists #"250 ", #"SMTPUTF8"|done|done|exact Hr'|].
  specialize (Hext _ _ E'). subst c1. cbn [clSent clReader clExt] in *. exists st'.
  split; [|split; [apply Hrep|split; [done|apply caps_extensions]]]. split; [done|by exists ls'|].
  exists more. split; [|by eapply replied_rest]. by rewrite Hmore, Hs1.
Qed.

(** The mailbox that the recipient is routed to. *)
Definition routed (to : str) : Prop :=
  to_lower (trim_space to) <> #"postmaster" /\
  forall e, still e0 e -> (Daemon.Route lib (to_lower (trim_space to)) e).1 = Some (Routing.mkPlan [l] [] true).

Definition opening (segs : list str) : state :=
  Smtp.mkState (Smtp.newSession set0) (mkConn (mkReader [] segs) [] None) set0 e0.

Lemma greeting_step fuel c0 c1 segs : result = Smtp.run be ex ip fuel (opening segs) ->
  clSent c0 = [] -> concat segs = clSent c' -> reads (on_wire (cnOut (Smtp.xConn result.2))) c0 -> greeting c0 = (None, c1) ->
  exists st, coupled fuel c1 st /\ steady st.
Proof.
  intros Hrun Hc0 Hsegs Hr Hg. set (st := Smtp.mkState (Smtp.newSession set0) (mkConn (mkReader [] segs) [Probe.greeting set0] None) set0 e0).
  assert (result = Smtp.run_loop be ex ip fuel st) as Hloop by by rewrite Hrun.
  destruct (appends_run_loop be ex ip fuel st) as [ls Hls]. rewrite <- Hloop in Hls.
  assert (clSent c1 = [] /\ reads (on_wire ls) c1) as [H1 H2].
  { unfold greeting, mbind, SM_bind in Hg. destruct (ReadResponse 220 c0) as [res c2] eqn:E. unfold mret, SM_ret in Hg.
    injection Hg as Hres ->. apply failure_None in Hres as [m ->]. destruct (listens_ReadResponse 220 c0) as [Hs _]. rewrite E in Hs. cbn [snd] in Hs.
    split; [by rewrite Hs|]. rewrite Hls in Hr. cbn [st Smtp.xConn cnOut app] in Hr. rewrite on_wire_cons in Hr.
    apply (reply_taken 220 (Probe.greeting set0) True (Probe.greeting set0) _ c0 m c1 E Hr); [|by right].
    unfold Probe.greeting. accepted #"220 " 220. rewrite !not_elem_of_app. split_and!; [by vm_compute; set_solver|apply Hhost|by vm_compute; set_solver]. }
  exists st. split; [|by split]. split; [by symmetry|by exists ls|]. exists (clSent c'). split; [by rewrite H1|].
  split_and!; [done|cbn; lia|done].
Qed.

Lemma transaction_stores Handshake name e fuel ls c0 segs :
  result = Smtp.run be ex ip (5 + fuel) (opening segs) -> transact Handshake name e c0 = (all_well, c') ->
  clSent c0 = [] -> concat segs = clSent c' -> reads (on_wire (cnOut (Smtp.xConn result.2))) c0 ->
  name <> [] -> Nat.leb (length name + 7) Smtp.maxLine = true -> bare (Queue.eFrom e) -> bare (Queue.eRcpt e) -> routed (Queue.eRcpt e) ->
  Queue.eData e = on_wire ls -> Forall plain_line ls -> ls <> [] ->
  result.1 = true /\ delivered_as (to_lower (Queue.eFrom e)) (Queue.eData e) result.2.
Proof.
  intros Hrun Hall Hc0 Hsegs Hr Hn Hlen Hfrom Hto [Hpm Hroute] Hd Hls Hne. unfold transact in Hall. rewrite Hd in Hall |- *.
  apply unless_well in Hall as (c1 & HG & Hall); [|done]. apply unless_well in Hall as (c2 & HH & Hall); [|done].
  unfold mbind at 1, SM_bind at 1, Extension in Hall.
  apply unless_well in Hall as (c3 & HT & Hall); [|done]. apply unless_well in Hall as (c4 & HM & Hall); [|done].
  apply unless_well in Hall as (c5 & HR & Hall); [|done]. apply unless_well in Hall as (c6 & HD & Hall); [|done].
  apply unless_well in Hall as (c7 & HW & Hall); [|done]. apply unless_well in Hall as (c8 & HQ & Hall); [|done].
  injection Hall as ->.
  assert (sent_on c7 c') as S7 by (pose proof (sent_Quit c7) as Hk; by rewrite HQ in Hk).
  assert (sent_on c6 c') as S6 by (pose proof (sent_WriteClose (on_wire ls) c6) as Hk; rewrite HW in Hk; by etransitivity).
  assert (sent_on c5 c') as S5 by (pose proof (sent_Data c5) as Hk; rewrite HD in Hk; by etransitivity).
  assert (sent_on c4 c') as S4 by (pose proof (sent_Rcpt (Queue.eRcpt e) c4) as Hk; rewrite HR in Hk; by etransitivity).
  assert (sent_on c3 c') as S3 by (pose proof (sent_Mail (Queue.eFrom e) c3) as Hk; rewrite HM in Hk; by etransitivity).
  assert (sent_on c2 c') as S2.
  { transitivity c3; [|done]. destruct (announces _ _); [|by injection HT as <-].
    pose proof (sent_StartTLS Handshake name c2) as Hk. by rewrite HT in Hk. }
  destruct (greeting_step (5 + fuel) c0 c1 segs Hrun Hc0 Hsegs Hr HG) as (st1 & Hc1 & Hst1).
  destruct (EHLO_step (4 + fuel) c1 st1 name c2 Hc1 Hst1 HH S2 Hn Hlen) as (st2 & Hc2 & Hst2 & Hrs2 & Hext).
  change (to_upper #"STARTTLS") with #"STARTTLS" in HT. rewrite Hext in HT. injection HT as <-.
  destruct (MAIL_step (3 + fuel) c2 st2 _ c4 Hc2 Hst2 HM S4 Hfrom) as (st4 & Hc4 & Hst4 & Hf4 & Hrs4).
  destruct (RCPT_step (2 + fuel) c4 st4 _ c5 Hc4 Hst4 HR S5 Hto) as (st5 & Hc5 & Hst5 & Hto5).
  destruct Hto5 as (a & ps & addr & domain & plan & e' & Hpp & Haddr & He' & Hplan & Hf5 & Hrs5).
  rewrite (parsePath_bare _ _ [] Hto) in Hpp by (split; [by apply plain_lit|done]). injection Hpp as <- _.
  rewrite (Haddr Hpm), (Hroute e' He') in Hplan. injection Hplan as <-. rewrite Hrs4, Hrs2 in Hrs5.
  destruct (DATA_step (1 + fuel) c5 st5 ls _ c6 c7 Hc5 Hst5 Hrs5 ltac:(by split) Hls Hne HD HW S7) as (st7 & Hc7 & Hdel).
  destruct (QUIT_step fuel c7 st7 Hc7 HQ) as (st8 & -> & Henv). split; [done|]. rewrite Hf5, Hf4 in Hdel.
  unfold delivered_as in *. cbn [snd]. by rewrite Henv.
Qed.
End Receiving.

(** ** A delivery from one server to another *)

Lemma unless_cases (m : call) failing next c : (exists e, (unless m failing next c).1 = failing e) \/ exists c1, (unless m failing next c).1 = (next c1).1.
Proof. unfold unless, mbind, SM_bind. destruct (m c) as [[e|] c1]; [left; by exists e|right; by exists c1]. Qed.

(** A transaction that [trySend] reports as a success is one in which every
    call worked. *)
Lemma trySend_well hostname valid_ip remote host env bind helo Handshake peer :
  let name := match helo with [] => hostname | _ => helo end in
  (forall host local, remote host local name env = (transact Handshake name env peer).1) ->
  Queue.trySend hostname valid_ip remote host env bind helo = None -> (transact Handshake name env peer).1 = all_well.
Proof.
  intros name Hrem. unfold Queue.trySend. fold name. rewrite Hrem. clear Hrem. unfold transact.
  repeat match goal with
  | |- context [((unless ?m ?f ?n) ?c).1] =>
      let E := fresh "E" in destruct (unless_cases m f n c) as [[? E]|[? E]]; rewrite E; [done|]; clear E
  | |- context [((Extension ?k ≫= ?f) ?c).1] => change (((Extension k ≫= f) c).1) with ((f (announces (to_upper k) (clExt c)) c).1); cbv beta
  end.
  done.
Qed.

(** The receiving server: on a working disk, inbound and without TLS. *)
Record receiver (D : list str) (l : Routing.Local) (ex : Smtp.Services Daemon.daemon) (set : Smtp.Settings) (e : Daemon.daemon) : Prop := {
  rc_clock : Smtp.clock ex = Daemon.now;
  rc_order : forall e, DaemonProps.still e (Smtp.range_order ex e).2;
  rc_mode : Smtp.stMode set = Smtp.ModeInbound;
  rc_tls : Smtp.stTLS set = false;
  rc_host : plain_line (Smtp.stHostname set);
  rc_size : 0 <= Smtp.stMaxSize set;
  rc_healthy : DaemonProps.healthy D e;
  rc_served : DaemonProps.served ex D l e }.

(** A message of whole lines, with addresses that fit into a path. *)
Record outgoing (name : str) (env : Queue.Envelope) (ls : list str) : Prop := {
  og_name : name <> [] /\ Nat.leb (length name + 7) Smtp.maxLine = true;
  og_from : bare (Queue.eFrom env);
  og_rcpt : bare (Queue.eRcpt env);
  og_data : Queue.eData env = on_wire ls /\ Forall plain_line ls /\ ls <> [] }.

(** C4. When the transport reports a delivery to another server of this program as
    done, the message is on that server's disk, provided that this disk works
    and has the folders of the mailbox ready ([healthy]), that the server
    listens on port 25 and offers no TLS, that the recipient, not the bare
    postmaster, is routed to one mailbox over there and nowhere else, of which
    the filters neither discard nor forward ([served]), that the addresses fit
    into a path ([bare]) and that the message is whole lines ended by CRLF.
    Each side reads what the other sends, in whatever pieces it arrives. *)
Theorem relayed_mail_stored `{Queue.EnvelopeCodec} lib po bayes qdir ex ip D l set e
    Handshake hostname valid_ip remote host env bind helo segs replies ls fuel :
  let name := match helo with [] => hostname | _ => helo end in
  let peer := mkClient [] (mkReader [] replies) [] in
  let sender := transact Handshake name env peer in
  let session := Smtp.run (Daemon.backend lib po bayes qdir) ex ip (5 + fuel) (opening e set segs) in
  concat segs = clSent sender.2 -> concat replies = on_wire (cnOut (Smtp.xConn session.2)) ->
  receiver D l ex set e -> outgoing name env ls -> routed lib e l (Queue.eRcpt env) ->
  (forall host local, remote host local name env = sender.1) ->
  Queue.trySend hostname valid_ip remote host env bind helo = None ->
  session.1 = true /\ DaemonProps.healthy D (Smtp.xEnv session.2) /\
  exists head, DaemonProps.stored (Routing.lMailbox l) (to_lower (Queue.eFrom env)) (head ++ Queue.eData env) e (Smtp.xEnv session.2).
Proof.
  intros name peer sender session Hsegs Hreplies [] [[] ? ? (? & ? & ?)] Hroute Hrem Hsend.
  apply (trySend_well _ _ _ _ _ _ _ _ _ Hrem) in Hsend.
  apply (transaction_stores lib po bayes qdir ex ip rc_clock0 rc_order0 e set rc_mode0 D l rc_healthy0 rc_served0 sender.2 session
    rc_tls0 rc_host0 rc_size0 Handshake name env fuel ls peer segs); try done.
  { rewrite <- Hsend. by destruct (transact _ _ _ _). }
  split; [by rewrite <- Hreplies|apply Nat.le_0_l].
Qed.

(** ** A delivery that runs *)

Definition relay_settings : Smtp.Settings :=
  Smtp.mkSettings #"mx.b.c" 1000 10 Smtp.ModeInbound false false None None None (Container.mkIdentity false [] [] []) None.
Definition relay_lines : list str := [ #"Subject: hi"; []; #".dots too"].
Definition relay_envelope : Queue.Envelope :=
  Queue.mkEnvelope #"1" #"X@y.z" #"u@b.c" #"b.c" 0 0 0 [] (on_wire relay_lines).
(** What the sender says, and what it is told. *)
Definition relay_script : str :=
  Eval vm_compute in
    (on_wire [ #"EHLO mx.y.z"; #"MAIL FROM:<X@y.z> BODY=8BITMIME SMTPUTF8"; #"RCPT TO:<u@b.c>"; #"DATA"] ++
     dot_encode (on_wire relay_lines) ++ on_wire [ #"QUIT"]).
#[local] Existing Instance QueueProps.toy_codec.
#[local] Notation example_backend := (Daemon.backend DaemonProps.example_libs DaemonProps.example_policies None [ #"q"]).
Definition relay_replies : str :=
  Eval vm_compute in
    on_wire (cnOut (Smtp.xConn (Smtp.run example_backend DaemonProps.example_services #"192.0.2.1" 5
      (opening DaemonProps.example_daemon relay_settings [relay_script])).2)).

Definition relay_local : Routing.Local := Routing.mkLocal (StorageResolver.mkMailbox #"u@b.c" #"/m" (-1) (-1)) [].

Lemma relay_served : DaemonProps.served DaemonProps.example_services [ #"/m"] relay_local DaemonProps.example_daemon.
Proof. destruct DaemonProps.example_served as [H1 H2 H3 H4 H5]. split; [exact H1|exact H2|exact H3|exact H4|exact H5]. Qed.
Lemma relay_receiver : receiver [ #"/m"] relay_local DaemonProps.example_services relay_settings DaemonProps.example_daemon.
Proof.
  split; [reflexivity|intros e; cbn; reflexivity|reflexivity|reflexivity|by apply plain_lit|by vm_compute|exact DaemonProps.example_healthy|exact relay_served].
Qed.
Lemma relay_outgoing : outgoing #"mx.y.z" relay_envelope relay_lines.
Proof.
  split; [done|split; [by vm_compute; set_solver|done]|split; [by vm_compute; set_solver|done]|].
  split; [done|]. split; [|done]. repeat apply Forall_cons_2; try (by apply plain_lit). by apply Forall_nil.
Qed.
Lemma relay_routed : routed DaemonProps.example_libs DaemonProps.example_daemon relay_local #"u@b.c".
Proof.
  split; [done|]. intros e (_ & _ & Hc & _). unfold Daemon.Route. pose proof (DaemonProps.now_still e) as (_ & _ & Hn & _).
  destruct (Daemon.now e) as [t e']. cbn [fst snd] in *. rewrite Hn, Hc. vm_compute. reflexivity.
Qed.

Lemma relayed_mail_stored_witness :
  let session := Smtp.run example_backend DaemonProps.example_services #"192.0.2.1" 5
    (opening DaemonProps.example_daemon relay_settings [take 30 relay_script; drop 30 relay_script]) in
  session.1 = true.
Proof.
  refine (proj1 (relayed_mail_stored DaemonProps.example_libs DaemonProps.example_policies None [ #"q"] DaemonProps.example_services #"192.0.2.1"
    [ #"/m"] relay_local relay_settings DaemonProps.example_daemon (fun _ => None) #"mx.y.z" (fun _ => false)
    (fun _ _ name env => (transact (fun _ => None) name env (mkClient [] (mkReader [] [relay_replies]) [])).1)
    #"mx.b.c" relay_envelope [] [] [take 30 relay_script; drop 30 relay_script] [relay_replies] relay_lines 0 _ _ _ _ _ _ _)).
  - vm_compute. reflexivity.
  - vm_compute. reflexivity.
  - exact relay_receiver.
  - exact relay_outgoing.
  - exact relay_routed.
  - reflexivity.
  - vm_compute. reflexivity.
Defined.

(** The message as it lies on the receiver's disk. *)
Example relay_runs :
  match map_to_list (wFiles (Daemon.dmWorld (Smtp.xEnv (Smtp.run example_backend DaemonProps.example_services #"192.0.2.1" 5
          (opening DaemonProps.example_daemon relay_settings [relay_script])).2))) with
  | [(p, f)] => p = [ #"m"; #"new"; #"1.M0P7Q1R0.mx"] /\ has_suffix (on_wire relay_lines) (fData f) = true /\
                has_prefix #"Return-Path: <x@y.z>" (fData f) = true
  | _ => False
  end.
Proof. vm_compute. auto. Qed.
